(* ===== verification/_CoqProject ===== *)
-Q . S2P
Prelude.v
Loops.v
Arrays.v
ListHead.v
ListHeadOps.v
ListProps.v
Hlist.v
Mm.v
Paging64.v
PagingWalk.v
PagingSpec.v
MmProps.v
PagingMap.v
PagingProps.v
Context.v
ContextProps.v
Queue.v
Process.v
Sched.v
SchedSpec.v
SchedInv.v
SchedLive.v
SchedProps.v
ForkProps.v
CString.v
Format.v
Gfx.v
Console.v
ConsoleProps.v
Keyboard.v
KeyboardProps.v
Ps2k.v
Acpi.v
Shell.v
Log.v
Rand.v
Sort.v
SortProps.v
MergeProps.v
I386Paging.v
I386Walk.v
I386Ops.v
I386PagingProps.v
I386RangeProps.v
I386BootProps.v
I386VmTest.v
Vga.v
Tty64.v
VgaProps.v
Hush.v
I386Keyboard.v
PortIo.v
Pci.v
Ac97.v
Ac97Props.v
Uacpi.v
Interrupts.v
InterruptProps.v
Init.v
InitProps.v
Heap.v
Ufds.v
Vector.v
Maze.v
MazeProps.v
MazeSolve.v
MazeEller.v
Pong.v
Printf.v
I386Interrupts.v
I386InterruptProps.v
Trees.v
RbTree.v
Logger.v
AcpiBus.v
Boot.v
ApicTimer.v
KernelMain.v
I386Switch.v
I386KernelMain.v
