(* ===== verification/Prelude.v ===== *)
(** * HorizonOS: a verification library

    HorizonOS is a small kernel for x86_64 (the default target) and i386.  This library models
    the x86_64 kernel's core and drivers, the memory, interrupts, context switch, boot, keyboard,
    terminal and shell of the i386 port, the games, and parts of the C library as Rocq functions, and proves theorems
    about them.

    ** The program and its parts

    At boot the kernel sets up descriptor tables, paging and a bump allocator, reads the ACPI
    tables to find the interrupt controllers, and becomes the process [init], which forks two
    more and starts the scheduler.  A multilevel feedback queue of [list_head] lists decides
    which process runs; [swtch] changes stacks; the timer interrupt, [yield] and
    [exit_process] hand the processor to the scheduler.  The PS/2 driver turns scan codes into
    events for the listeners' ring buffers, from which the shell reads lines; output goes to a
    framebuffer console and to the serial port.  The AC97 driver finds its card through PCI and
    streams a clip by refilling a ring of descriptors from its interrupt.  The uACPI library,
    which is not part of the repository, reaches the kernel through a set of callbacks, and the
    ACPI bus offers the devices it finds to the registered drivers.  The shells run two games,
    Pong and a maze; the C library has [printf], sorting, and data structures of its own.

    ** Files

    - [Prelude], [Loops], [Arrays]: fixed-width integers, outcomes, the state monad [M] with
      its total-correctness [wp], C's loops with their proof rules, and checked arrays.
    - [ListHead], [ListHeadOps], [ListProps], [Hlist]: [libc/include/dsa/list.h].  The
      heap is the [next] and [prev] fields by address; [ring] and [hlist] say which list
      is in it.  Access to an address without the field is a [Fault].
    - [Mm], [MmProps]: [mm/kheap.c], [mm/mm.c].
    - [Paging64], [PagingWalk], [PagingSpec], [PagingMap], [PagingProps]:
      [arch/x86_64/memory/paging.c].  State: physical memory by word, cr3, cr4, TLB and
      the heap pointer.  [PagingSpec] defines [translate], the processor's own walk,
      independently of the code.
    - [Context], [ContextProps]: [asm/swtch.S] and the stack copy of [fork].
    - [Queue], [Process], [Sched]: [kernel/scheduler].  [Queue] is the class of queues
      the scheduler is written against, with its laws; the [list_head] operations are
      its instance.
    - [SchedSpec], [SchedInv], [SchedLive], [SchedProps], [ForkProps]: the abstract queue, the
      invariant, the waiting bound, and the theorems, [fork] included.
    - [Init], [InitProps]: [init_process], [init] and the processes it forks, in turns.
    - [Interrupts], [InterruptProps]: [arch/x86_64/interrupts] and [asm/interrupt.S], the stubs
      as instruction lists; [interrupt] is delivery by the processor, the code, and [iretq].
    - [CString]: [libc/string/string.c] over byte memory.
    - [Sort], [SortProps], [MergeProps]: [libc/include/algorithms].
    - [Format]: the two [vprintf], over the class [Sink] of devices.
    - [Gfx], [Console], [ConsoleProps]: framebuffer, glyphs, text console.
    - [Keyboard], [KeyboardProps]: event queues, the interrupt handler, [readline]; the class
      [IrqHandler] is the driver, [IrqDecodes] what it promises the line editor.
    - [Ps2k]: controller initialisation, resources, the serial port.
    - [Acpi]: [kernel/apic]: root pointer, MADT, I/O and local APIC.  The class [Memory] is memory
      whose loads can fault and whose mappings can be extended; [Mapper] is what the search for
      the tables relies on, and the page tables of both ports are instances.  [ApicTimer]:
      [kernel/apic/apic.c], the calibration of the local timer against the interval timer.
    - [Shell]: [arch/x86_64/include/shell.c].
    - [Log], [Rand]: [kernel/log.c] and [libc/rand.c].
    - [PortIo]: [arch/io.h] and the busy waits of [kernel/time.c]; the class [Hardware] is what
      the devices answer.  [Pci], [Ac97], [Ac97Props]: [drivers/pci.c] and
      [drivers/ac97.c] on that bus.
    - [Uacpi]: [arch/x86_64/uacpi/kernel_api.c].
    - [I386Paging], [I386Walk], [I386Ops], [I386PagingProps], [I386RangeProps],
      [I386BootProps]: [arch/i386/memory/paging.c], two levels and a bitmap of frames.
      [I386VmTest]: [arch/i386/jury], the tests the kernel runs on them.
    - [I386Switch]: [arch/i386/asm/swtch.S].  [I386KernelMain]: [arch/i386/kernel.c], on the
      paging of [I386Paging], the tables and controllers of [Acpi] and the bus of [PortIo].
    - [I386Keyboard]: [drivers/keyboard/keyboard.c], a second [IrqHandler].
    - [Vga], [VgaProps], [Tty64]: the text terminals.  [Hush]: the 32-bit shell.
    - [I386Interrupts], [I386InterruptProps]: [arch/i386/gdt] and [arch/i386/interrupts], the
      stubs as instruction lists of a 32-bit machine.
    - [Printf]: [libc/stdio], over [Sink].  [Logger]: the loggers of [arch/x86_64/common] and
      [arch/i386/common].
    - [AcpiBus]: [arch/x86_64/acpi/acpi_bus.c].  [Boot]: the start of [kernel_main], up to
      the heap.  [KernelMain]: the rest, on the page tables of [Paging64], the tables and
      controllers of [Acpi] and the bus of [PortIo]; calls of other components are recorded.
    - [Maze], [MazeProps], [MazeSolve]: [arch/i386/drivers/shell/builtins/maze.c]; the grid of
      cells as a map, each with its right and lower wall.  [MazeEller]: [maze_eller.c], on
      the same grid.  [Pong]: [kernel/games/pong.c] over [Gfx].
    - [Heap], [Ufds], [Vector], [Trees], [RbTree]: [libc/datastructures].  [Heap] is over any comparison;
      the class [TotalComp] is what its theorems ask of one.  [rep] in [Trees] says which tree
      is in a heap of nodes; [RbTree] adds colours, and a path from a node to the root.

    A component has its definitions in the file named after it and its theorems in the files
    that follow it in the list, or, for a small one, in the second half of the same file.

    A comment before a definition names the source file and lines it translates.

    ** What the theorems show

    - Paging: mapping, unmapping and range mapping change exactly the translations they
      should, also when huge pages are split, and keep the TLB coherent; the same for the
      32-bit tables, with the outcomes of frame allocation and what [init_paging] maps, and that the memory
      tests that follow it pass.
    - Processes: a switch and the switch back restore a thread and [fork] returns twice, on both
      ports, the child at the address that was pushed for it; [fork] gives the child a copy of
      the caller's stack in new memory, changes nothing that was in use, keeps the scheduler's
      invariant, and fails cleanly on a full table; the scheduler refines the abstract feedback
      queue, never runs a dead process, and starves none while no process is added.
    - Interrupts: for every vector but 21 and 29 the handler gets the interrupted registers, and
      all but ES, FS and GS come back; an exception without a handler is reported on the serial
      port before the panic; the descriptors decode to what they should be.
    - Lists, heap, strings and sorting: the operations on well-formed structures, with frames;
      the five sorts agree on non-empty arrays, [merge_sort] when it is given the last index.
    - Console, keyboards, terminals, shells and log: memory safety, and what is drawn, read,
      run or printed; both keyboard drivers give the same lines.
    - ACPI and devices: parsing inverts encoding on any memory; initialisation ends and sends its
      commands in order; audio is streamed whole when each interrupt reports a completed buffer,
      and within bounds whatever the controller answers; mappings made for uACPI
      reach the range asked for; every device goes to the driver that lists its id.
    - Boot: the heap starts in the first usable region, or the kernel stops; no access to the
      firmware's tables or the controllers' registers faults, and when interrupts are switched
      on, the controllers are mapped and enabled, and the input taken for the timer is routed,
      unmasked, handled and periodic.  On the 32-bit port, whose kernel leaves the enable bits
      to the firmware, the same of the timer and the keyboard, for tables below 128 MiB.
    - Formatted output: [printf] prints what a format without negative numbers stands for, and
      the x86_64 logger's
      formatter is [printf].
    - Games: a generated maze is perfect, by either generator, and is solved every time; a match of Pong has one
      winner, and a frame shows the state.
    - Data structures: the heap is a priority queue and heapsort sorts; union-find decides
      connectedness; a vector is a sequence; rotations keep the in-order sequence, traversals
      visit every node once, and the successor is the next node; an insertion into a red-black
      tree leaves one, unless its repair has to rotate a left child to the right.
    Some theorems state what the code does where that is not what it means to do: user
    pages under new tables, [itoa] of negative numbers, MADT records of length 0, the
    [peek] display, warnings in the log, [merge_sort]'s last index, [binary_search] for absent
    elements, frames beyond the bitmap, the exceptions 21 and 29, the uACPI clock's wrap,
    clips that are not whole frames, right rotations at a left child and the nodes a red-black
    tree loses by them, the first switch to a new process on the 32-bit port, a second maze by
    Eller's generator, drivers registered twice, and Pong's serve.

    ** Bounds and fuel

    A loop with a known bound is a counted loop.  Others take fuel and end in [OutOfFuel]
    without it; [wp] does not hold of that outcome, and the theorems ask only for fuel
    that the data bounds (the length of a list, a string or a table, the events to come).
    For the maze 779 nested calls are enough to carve it and 390 to search it (two per cell
    but one, and one per cell), and 20 turns draw the net of Pong on any screen of at least
    20 lines. A wait for a device takes fuel and has no theorem that it ends unless the
    device's answer is assumed. Two loops have their bound in the definition: [fill_buf], 64
    digits, which [fill_buf_digits] shows to be enough for a 64-bit number, and [peek_rows],
    32 rows of 16 bytes, which cover the 512 bytes [cmd_peek] allows; there is no theorem
    about the latter yet.

    ** Parameters

    The boot loader's addresses, firmware tables, device answers, the font's data, the
    processor's [rdrand], the timer and the keys in the games, the ACPI namespace, in [Shell] the
    game and the clearing of the screen, in [Vector] the allocator, and in [Interrupts] and
    [I386Interrupts] the compiled [isr_handler], which is assumed to keep the registers the
    calling convention says it keeps.

    ** Limits

    One processor.  Interrupts are taken at the points the models name: between turns for
    the timer, in [hlt] for the keyboard.  The scheduler's loop is cut at its context
    switch; a timer interrupt while the scheduler itself runs is not modelled.  [InitProps] is
    an example: it follows one concrete memory, without timer interrupts.  Debug output is left out.
    On x86_64 the kernel's own loads and stores ([ld64], [st64]) go to physical memory through
    the direct map, which the boot loader has set up, without a walk of the tables; a walk is made
    where the code reads memory it has to map first, which is the firmware's tables and the
    controllers' registers in [Acpi] and [KernelMain].  The 32-bit memory tests and [I386KernelMain]
    do the same with the 32-bit tables.

    ** Not modelled

    Theorems for the rest of [Hlist]; the processes of the 32-bit port, whose switch is modelled;
    what [KernelMain] and [I386KernelMain] record as calls of other components and those
    components do is not composed into one state; the report of a panic and the early assembly;
    the start of the uACPI library, which is not part of the repository; the file system, whose
    operations are stubs; the test programs around the other trees of libc, several of which do
    not build, and its counting sorts. *)

From stdpp Require Export base tactics numbers list list_numbers gmap strings.
From Stdlib Require Export ZArith Lia.

#[global] Open Scope Z_scope.
#[global] Set Default Goal Selector "!".
#[global] Set Default Proof Using "Type".

(** ** Fixed-width integers

    A C integer of width [w] is a [Z]; the conversions below are the ones the
    language performs on assignment, and every definition that relies on a
    wrap-around writes it out. *)

Definition wrap (w x : Z) : Z := x mod 2 ^ w.

Definition swrap (w x : Z) : Z := (x + 2 ^ (w - 1)) mod 2 ^ w - 2 ^ (w - 1).

(** Bitwise complement at width [w] of a value already in range. *)
Definition unot (w x : Z) : Z := 2 ^ w - 1 - x.

Declare Scope mach_scope.
Delimit Scope mach_scope with mach.
Abbreviation u8 := (wrap 8).
Abbreviation u16 := (wrap 16).
Abbreviation u32 := (wrap 32).
Abbreviation u64 := (wrap 64).
Abbreviation s8 := (swrap 8).
Abbreviation s16 := (swrap 16).
Abbreviation s32 := (swrap 32).
Abbreviation s64 := (swrap 64).
Notation "a .& b" := (Z.land a b) (at level 38, left associativity) : mach_scope.
Notation "a .| b" := (Z.lor a b) (at level 39, left associativity) : mach_scope.
Notation "a .^ b" := (Z.lxor a b) (at level 39, left associativity) : mach_scope.
Notation "a .<< b" := (Z.shiftl a b) (at level 37, left associativity) : mach_scope.
Notation "a .>> b" := (Z.shiftr a b) (at level 37, left associativity) : mach_scope.
#[global] Open Scope mach_scope.

(** C truth value of an integer, and C's [!]. *)
Definition nz (x : Z) : bool := negb (x =? 0).
Definition b2z (b : bool) : Z := if b then 1 else 0.

Create HintDb horizon.
Create Rewrite HintDb horizon.

Lemma wrap_bound w x : 0 ≤ w → 0 ≤ wrap w x < 2 ^ w.
Proof. intros. unfold wrap. apply Z.mod_pos_bound. lia. Qed.

Lemma wrap_small w x : 0 ≤ x < 2 ^ w → wrap w x = x.
Proof. apply Z.mod_small. Qed.

Lemma wrap_wrap w x : wrap w (wrap w x) = wrap w x.
Proof. unfold wrap. apply Zmod_mod. Qed.

Lemma swrap_bound w x : 1 ≤ w → - 2 ^ (w - 1) ≤ swrap w x < 2 ^ (w - 1).
Proof.
  intros. unfold swrap.
  pose proof (Z.mod_pos_bound (x + 2 ^ (w - 1)) (2 ^ w) ltac:(lia)).
  assert (2 ^ w = 2 * 2 ^ (w - 1)) by (rewrite <- Z.pow_succ_r by lia; f_equal; lia).
  lia.
Qed.

Lemma swrap_small w x : 1 ≤ w → - 2 ^ (w - 1) ≤ x < 2 ^ (w - 1) → swrap w x = x.
Proof.
  intros. unfold swrap.
  assert (2 ^ w = 2 * 2 ^ (w - 1)) by (rewrite <- Z.pow_succ_r by lia; f_equal; lia).
  rewrite Z.mod_small; lia.
Qed.

#[export] Hint Rewrite wrap_wrap : horizon.

(** ** Bitwise reasoning *)

Lemma land_testbit_pow2 x k : 0 ≤ k → nz (x .& 2 ^ k) = Z.testbit x k.
Proof.
  intros Hk. unfold nz.
  destruct (Z.testbit x k) eqn:E.
  - apply negb_true_iff, Z.eqb_neq. intros H0.
    assert (Z.testbit (x .& 2 ^ k) k = true) as HT.
    { rewrite Z.land_spec, E, Z.pow2_bits_true; [done | lia]. }
    by rewrite H0, Z.bits_0 in HT.
  - apply negb_false_iff, Z.eqb_eq, Z.bits_inj'. intros i Hi.
    rewrite Z.land_spec, Z.bits_0, Z.pow2_bits_eqb by lia.
    destruct (Z.eqb_spec k i); [subst; by rewrite E | by rewrite andb_false_r].
Qed.

Lemma testbit_high w x i : 0 ≤ x < 2 ^ w → 0 ≤ w ≤ i → Z.testbit x i = false.
Proof.
  intros Hx Hi. rewrite <- (Z.mod_small x (2 ^ w)) by lia.
  by apply Z.mod_pow2_bits_high.
Qed.

Lemma lor_bound w x y : 0 ≤ w → 0 ≤ x < 2 ^ w → 0 ≤ y < 2 ^ w → 0 ≤ x .| y < 2 ^ w.
Proof.
  intros Hw Hx Hy.
  assert ((x .| y) mod 2 ^ w = x .| y) as <-; [| apply Z.mod_pos_bound; lia].
  rewrite <- Z.land_ones, Z.land_lor_distr_l, !Z.land_ones by done.
  by rewrite !Z.mod_small.
Qed.

Lemma land_bound_r x y : 0 ≤ y → 0 ≤ x .& y ≤ y.
Proof.
  intros Hy. split; [apply Z.land_nonneg; lia |].
  apply Z.ldiff_le; [done |]. apply Z.bits_inj'. intros i Hi.
  rewrite Z.ldiff_spec, Z.land_spec, Z.bits_0.
  by destruct (Z.testbit x i), (Z.testbit y i).
Qed.

(** Or of two numbers with disjoint bits is their sum. *)
Lemma lor_disjoint_add x y : x .& y = 0 → x .| y = x + y.
Proof. intros H. rewrite <- Z.lxor_lor by done. symmetry. by apply Z.add_nocarry_lxor. Qed.

Lemma land_low_high k x y : 0 ≤ k → 0 ≤ y < 2 ^ k → (x * 2 ^ k) .& y = 0.
Proof.
  intros Hk Hy. apply Z.bits_inj'. intros i Hi. rewrite Z.land_spec, Z.bits_0.
  destruct (Z.lt_ge_cases i k).
  - by rewrite Z.mul_pow2_bits_low.
  - rewrite (testbit_high k y) by lia. apply andb_false_r.
Qed.

Lemma lor_add_aligned k x y : 0 ≤ k → 0 ≤ y < 2 ^ k → (x * 2 ^ k) .| y = x * 2 ^ k + y.
Proof. intros. by apply lor_disjoint_add, land_low_high. Qed.

(** Clearing the low [k] bits with a mask is rounding down to [2 ^ k]. *)
Lemma ldiff_ones_div k x : 0 ≤ k → Z.ldiff x (Z.ones k) = x / 2 ^ k * 2 ^ k.
Proof.
  intros. rewrite Z.ldiff_ones_r by done.
  by rewrite Z.shiftl_mul_pow2, Z.shiftr_div_pow2.
Qed.

(** Disjointness of concrete lists, by evaluation. *)
Lemma disjoint_check (l k : list Z) :
  forallb (λ x, negb (existsb (Z.eqb x) k)) l = true → l ## k.
Proof.
  intros H x Hl Hk. rewrite forallb_forall in H.
  apply list_elem_of_In in Hl, Hk. specialize (H x Hl). apply negb_true_iff in H.
  assert (existsb (Z.eqb x) k = true) by (apply existsb_exists; exists x; split; [done|apply Z.eqb_refl]).
  congruence.
Qed.

(** Complement at width [w], bit by bit. *)
Lemma unot_ldiff w y : 0 ≤ w → 0 ≤ y < 2 ^ w → unot w y = Z.ldiff (Z.ones w) y.
Proof.
  intros Hw Hy. unfold unot. replace (2 ^ w - 1) with (Z.ones w) by (rewrite Z.ones_equiv; lia).
  apply Z.sub_nocarry_ldiff, Z.bits_inj'. intros i Hi.
  rewrite Z.ldiff_spec, Z.bits_0. destruct (Z.lt_ge_cases i w).
  - by rewrite Z.ones_spec_low, andb_false_r by lia.
  - by rewrite (testbit_high w y) by lia.
Qed.

Lemma testbit_unot w y i :
  0 ≤ w → 0 ≤ y < 2 ^ w → 0 ≤ i →
  Z.testbit (unot w y) i = (i <? w) && negb (Z.testbit y i).
Proof.
  intros. rewrite unot_ldiff, Z.ldiff_spec by done.
  by rewrite Z.testbit_ones_nonneg by lia.
Qed.

Lemma land_unot w x y :
  0 ≤ w → 0 ≤ x < 2 ^ w → 0 ≤ y < 2 ^ w → x .& unot w y = Z.ldiff x y.
Proof.
  intros. apply Z.bits_inj'. intros i Hi.
  rewrite Z.land_spec, testbit_unot, Z.ldiff_spec by done.
  destruct (Z.ltb_spec i w); [done|]. by rewrite (testbit_high w x) by lia.
Qed.

(** [x & ~(2^k - 1)] rounds down to a multiple of [2^k]. *)
Lemma land_unot_ones w x k :
  0 ≤ k ≤ w → 0 ≤ x < 2 ^ w → x .& unot w (2 ^ k - 1) = x / 2 ^ k * 2 ^ k.
Proof.
  intros Hk Hx. pose proof (Z.pow_le_mono_r 2 k w ltac:(lia) ltac:(lia)).
  pose proof (Z.pow_pos_nonneg 2 k ltac:(lia) ltac:(lia)).
  rewrite land_unot by lia. replace (2 ^ k - 1) with (Z.ones k) by (rewrite Z.ones_equiv; lia).
  apply ldiff_ones_div. lia.
Qed.

(** ** Outcomes

    Kernel code either returns, calls [panic], stops the processor, reads or
    writes through an invalid pointer, or (for a loop run with fuel) has not
    finished yet. *)

Inductive outcome (A : Type) : Type :=
  | Ok (a : A)
  | Panic (msg : string)
  | Halt
  | Fault (addr : Z)
  | OutOfFuel.
Arguments Ok {A} a.
Arguments Panic {A} msg.
Arguments Halt {A}.
Arguments Fault {A} addr.
Arguments OutOfFuel {A}.

#[export] Instance outcome_ret : MRet outcome := λ A a, Ok a.
#[export] Instance outcome_bind : MBind outcome := λ A B k m,
  match m with
  | Ok a => k a
  | Panic msg => Panic msg
  | Halt => Halt
  | Fault a => Fault a
  | OutOfFuel => OutOfFuel
  end.

(** State-passing computations over a component's state. *)
Definition M (S A : Type) : Type := S → outcome (A * S).

#[export] Instance M_ret S : MRet (M S) := λ A a s, Ok (a, s).
#[export] Instance M_bind S : MBind (M S) := λ A B k m s,
  match m s with
  | Ok (a, s') => k a s'
  | Panic msg => Panic msg
  | Halt => Halt
  | Fault a => Fault a
  | OutOfFuel => OutOfFuel
  end.

Definition get {S} : M S S := λ s, Ok (s, s).
Definition gets {S A} (f : S → A) : M S A := λ s, Ok (f s, s).
Definition modify {S} (f : S → S) : M S unit := λ s, Ok (tt, f s).
Definition panic {S A} (msg : string) : M S A := λ _, Panic msg.
Definition fault {S A} (a : Z) : M S A := λ _, Fault a.
Definition halt {S A} : M S A := λ _, Halt.
Definition out_of_fuel {S A} : M S A := λ _, OutOfFuel.
Definition lift {S A} (o : outcome A) : M S A := λ s, a ← o; Ok (a, s).
Definition when {S} (b : bool) (m : M S unit) : M S unit := if b then m else mret tt.

Lemma M_bind_Ok {S A B} (m : M S A) (k : A → M S B) s a s' :
  m s = Ok (a, s') → (m ≫= k) s = k a s'.
Proof. unfold mbind, M_bind. by intros ->. Qed.

Lemma M_bind_inv {S A B} (m : M S A) (k : A → M S B) s b s'' :
  (m ≫= k) s = Ok (b, s'') → ∃ a s', m s = Ok (a, s') ∧ k a s' = Ok (b, s'').
Proof. unfold mbind, M_bind. destruct (m s) as [[a s']| | | |]; naive_solver. Qed.

Lemma M_bind_assoc {S A B C} (m : M S A) (k : A → M S B) (l : B → M S C) s :
  ((m ≫= k) ≫= l) s = (m ≫= λ a, k a ≫= l) s.
Proof. unfold mbind, M_bind. by destruct (m s) as [[a s']| | | |]. Qed.

(** Total-correctness weakest precondition: the computation returns, and its
    result and final state satisfy [Q]. *)
Definition wp {S A} (m : M S A) (Q : A → S → Prop) (s : S) : Prop :=
  match m s with Ok (a, s') => Q a s' | _ => False end.

Section wp_rules.
Context {S : Type}.

Lemma wp_ret {A} (a : A) (Q : A → S → Prop) s : Q a s → wp (mret a) Q s.
Proof. done. Qed.

Lemma wp_bind {A B} (m : M S A) (k : A → M S B) Q s :
  wp m (λ a, wp (k a) Q) s → wp (m ≫= k) Q s.
Proof. unfold wp, mbind, M_bind. by destruct (m s) as [[a s']| | | |]. Qed.

Lemma wp_mono {A} (m : M S A) (P Q : A → S → Prop) s :
  wp m P s → (∀ a s', P a s' → Q a s') → wp m Q s.
Proof. unfold wp. destruct (m s) as [[a s']| | | |]; naive_solver. Qed.

Lemma wp_bind_mono {A B} (m : M S A) (k : A → M S B) (P : A → S → Prop) Q s :
  wp m P s → (∀ a s', P a s' → wp (k a) Q s') → wp (m ≫= k) Q s.
Proof. intros Hm Hk. apply wp_bind. eapply wp_mono; eauto. Qed.

Lemma wp_gets {A} (f : S → A) (Q : A → S → Prop) s : Q (f s) s → wp (gets f) Q s.
Proof. done. Qed.

Lemma wp_modify (f : S → S) (Q : unit → S → Prop) s : Q tt (f s) → wp (modify f) Q s.
Proof. done. Qed.

Lemma wp_inv {A} (m : M S A) (Q : A → S → Prop) s :
  wp m Q s → ∃ a s', m s = Ok (a, s') ∧ Q a s'.
Proof. unfold wp. destruct (m s) as [[a s']| | | |]; naive_solver. Qed.

Lemma wp_intro {A} (m : M S A) (Q : A → S → Prop) s a s' :
  m s = Ok (a, s') → Q a s' → wp m Q s.
Proof. unfold wp. by intros ->. Qed.
End wp_rules.

(** Split the next step off a monadic sequence. *)
Ltac wstep :=
  match goal with
  | |- wp (mbind _ (gets _)) _ _ => apply wp_bind, wp_gets
  | |- wp (mbind _ (modify _)) _ _ => apply wp_bind, wp_modify
  | |- wp (mbind _ (mret _)) _ _ => apply wp_bind, wp_ret
  | |- wp (mbind _ (mbind _ _)) _ _ => apply wp_bind
  | |- wp (gets _) _ _ => apply wp_gets
  | |- wp (modify _) _ _ => apply wp_modify
  | |- wp (mret _) _ _ => apply wp_ret
  end.

(** ** Boolean case analysis

    [bcase] splits on every integer comparison of the goal, or of the whole
    context, and replaces it by the fact it decides. *)

Ltac bcase1 :=
  match goal with
  | |- context [Z.eqb ?a ?b] => destruct (Z.eqb_spec a b)
  | |- context [Z.ltb ?a ?b] => destruct (Z.ltb_spec a b)
  | |- context [Z.leb ?a ?b] => destruct (Z.leb_spec a b)
  end; try lia; simpl.
Ltac bcase := repeat bcase1.

(** Decide a closed proposition by evaluation. *)
Ltac by_decide := apply (bool_decide_unpack _); vm_compute; exact I.

Ltac bprop :=
  repeat match goal with
  | H : _ && _ = true |- _ => apply andb_true_iff in H as [? ?]
  | H : _ || _ = false |- _ => apply orb_false_iff in H as [? ?]
  | H : negb _ = true |- _ => apply negb_true_iff in H
  | H : negb _ = false |- _ => apply negb_false_iff in H
  | H : Z.eqb _ _ = true |- _ => apply Z.eqb_eq in H
  | H : Z.eqb _ _ = false |- _ => apply Z.eqb_neq in H
  | H : Z.ltb _ _ = true |- _ => apply Z.ltb_lt in H
  | H : Z.ltb _ _ = false |- _ => apply Z.ltb_ge in H
  | H : Z.leb _ _ = true |- _ => apply Z.leb_le in H
  | H : Z.leb _ _ = false |- _ => apply Z.leb_gt in H
  end.
