(* ===== verification/Loops.v ===== *)
(** * Counted loops

    The [for] loops of the C code as combinators, with their proof rules. *)

From S2P Require Import Prelude.

Section loops.
Context {St : Type}.

(** [for (j = i; j < i + n; j++) body(j)] *)
Fixpoint for_up (n : nat) (i : Z) (body : Z → M St unit) : M St unit :=
  match n with
  | O => mret tt
  | S n => body i ;; for_up n (i + 1) body
  end.

(** [for (j = n; j != 0; j--) body(j)] *)
Fixpoint for_down (n : nat) (body : Z → M St unit) : M St unit :=
  match n with
  | O => mret tt
  | S n' => body (Z.of_nat n) ;; for_down n' body
  end.

(** [for (j = i; j < i + n; j++)], left early with a result by the body. *)
Fixpoint for_find {A} (n : nat) (i : Z) (body : Z → M St (option A)) : M St (option A) :=
  match n with
  | O => mret None
  | S n =>
      r ← body i;
      match r with
      | Some a => mret (Some a)
      | None => for_find n (i + 1) body
      end
  end.

(** [while (cond) body], at most [fuel] times. *)
Fixpoint while_ (fuel : nat) (cond : M St bool) (body : M St unit) : M St unit :=
  c ← cond;
  if (c : bool) then
    match fuel with
    | O => out_of_fuel
    | S fuel => body ;; while_ fuel cond body
    end
  else mret tt.

Lemma wp_for_up n i body (I : Z → St → Prop) s :
  I i s →
  (∀ j s, i ≤ j < i + Z.of_nat n → I j s → wp (body j) (λ _ s', I (j + 1) s') s) →
  wp (for_up n i body) (λ _ s', I (i + Z.of_nat n) s') s.
Proof.
  revert i s. induction n as [|n IH]; intros i s Hi Hb; cbn [for_up].
  - apply wp_ret. by replace (i + Z.of_nat 0) with i by lia.
  - eapply wp_bind_mono; [apply (Hb i); [lia|done]|]. intros [] s' Hs'.
    replace (i + Z.of_nat (S n)) with (i + 1 + Z.of_nat n) by lia.
    apply IH; [done|]. intros j s0 Hj. apply Hb. lia.
Qed.

(** From zero up to a computed bound. *)
Lemma wp_for_up_to c body (I : Z → St → Prop) s :
  0 ≤ c → I 0 s → (∀ j s, 0 ≤ j < c → I j s → wp (body j) (λ _ s', I (j + 1) s') s) →
  wp (for_up (Z.to_nat c) 0 body) (λ _ s', I c s') s.
Proof.
  intros Hc H0 Hb. eapply wp_mono; [apply (wp_for_up _ 0 _ I); [done|]|].
  - intros j s0 Hj. apply Hb. lia.
  - cbv beta. intros _ s'. by rewrite Z.add_0_l, Z2Nat.id.
Qed.

Lemma wp_for_down n body (I : Z → St → Prop) s :
  I (Z.of_nat n) s →
  (∀ j s, 0 < j ≤ Z.of_nat n → I j s → wp (body j) (λ _ s', I (j - 1) s') s) →
  wp (for_down n body) (λ _ s', I 0 s') s.
Proof.
  revert s. induction n as [|n IH]; intros s Hi Hb; cbn [for_down]; [done|].
  eapply wp_bind_mono; [apply (Hb _); [lia|done]|]. intros [] s' Hs'. apply IH.
  - by replace (Z.of_nat n) with (Z.of_nat (S n) - 1) by lia.
  - intros j s0 Hj. apply Hb. lia.
Qed.

(** The search goes on while [I] holds and stops in [Q]. *)
Lemma wp_for_find {A} n i (body : Z → M St (option A)) (I : Z → St → Prop) (Q : A → St → Prop) s :
  I i s →
  (∀ j s, i ≤ j < i + Z.of_nat n → I j s →
     wp (body j) (λ r s', match r with Some a => Q a s' | None => I (j + 1) s' end) s) →
  wp (for_find n i body)
    (λ r s', match r with Some a => Q a s' | None => I (i + Z.of_nat n) s' end) s.
Proof.
  revert i s. induction n as [|n IH]; intros i s Hi Hb; cbn [for_find].
  - apply wp_ret. by replace (i + Z.of_nat 0) with i by lia.
  - eapply wp_bind_mono; [apply (Hb i); [lia|done]|]. intros [a|] s' Hs'; [by apply wp_ret|].
    replace (i + Z.of_nat (S n)) with (i + 1 + Z.of_nat n) by lia.
    apply IH; [done|]. intros j s0 Hj. apply Hb. lia.
Qed.

(** Total correctness: a measure bounds the number of rounds. *)
Lemma wp_while fuel cond body (I : St → Prop) (μ : St → nat) (Q : St → Prop) s :
  I s → (μ s ≤ fuel)%nat →
  (∀ s, I s → wp cond (λ c s', s' = s ∧
     if (c : bool) then (0 < μ s)%nat ∧ wp body (λ _ s', I s' ∧ (μ s' < μ s)%nat) s else Q s) s) →
  wp (while_ fuel cond body) (λ _ s', Q s') s.
Proof.
  revert s. induction fuel as [|fuel IH]; intros s Hi Hm Hb; cbn [while_];
    (eapply wp_bind_mono; [by apply Hb|]); intros [] s' [-> Hc]; [lia|by apply wp_ret| |by apply wp_ret].
  destruct Hc as [_ Hc]. eapply wp_bind_mono; [exact Hc|]. intros [] s' [Hi' Hm'].
  apply IH; [done|lia|done].
Qed.
End loops.

(** ** Tables of 256 entries that are filled by calls *)

(** The entries written last. *)
Lemma last_registered {A} (rs : list (Z * A)) n :
  foldl (λ t r, <[r.1 mod 256 := r.2]> t) (∅ : gmap Z A) rs !! n =
  snd <$> last (filter (λ r, r.1 mod 256 = n) rs).
Proof.
  induction rs as [|[m h] rs IH] using rev_ind; [done|].
  rewrite foldl_app, filter_app. cbn [foldl fst snd]. destruct (decide (m mod 256 = n)) as [<-|Hne].
  - rewrite filter_cons_True, filter_nil, last_snoc by done. apply lookup_insert_eq.
  - rewrite filter_cons_False, filter_nil, app_nil_r by done. by rewrite lookup_insert_ne.
Qed.
