(* ===== verification/Arrays.v ===== *)
(** * Arrays

    A C array as the state of a computation: accesses by index, which fault outside the array, and
    their effect. *)

From S2P Require Import Prelude Loops.

(** [arr[i]] *)
Definition ld (i : Z) : M (list Z) Z := λ a,
  if i <? 0 then Fault i else match a !! Z.to_nat i with Some v => Ok (v, a) | None => Fault i end.

(** [arr[i] = v] *)
Definition st (i v : Z) : M (list Z) unit := λ a,
  if i <? 0 then Fault i else
  match a !! Z.to_nat i with Some _ => Ok (tt, <[Z.to_nat i := v]> a) | None => Fault i end.

(** ** Arrays by index *)

Abbreviation len a := (Z.of_nat (length a)).

Definition at_ (a : list Z) (i : Z) : Z := a !!! Z.to_nat i.
Definition upd (a : list Z) (i v : Z) : list Z := <[Z.to_nat i := v]> a.

Lemma lookup_at a i : 0 ≤ i < len a → a !! Z.to_nat i = Some (at_ a i).
Proof. intros Hi. apply list_lookup_lookup_total_lt. lia. Qed.

Lemma wp_ld i (Q : Z → list Z → Prop) a : 0 ≤ i < len a → Q (at_ a i) a → wp (ld i) Q a.
Proof. intros Hi HQ. unfold wp, ld. by rewrite (proj2 (Z.ltb_ge i 0)), lookup_at by lia. Qed.

Lemma wp_st i v (Q : unit → list Z → Prop) a : 0 ≤ i < len a → Q tt (upd a i v) → wp (st i v) Q a.
Proof. intros Hi HQ. unfold wp, st. by rewrite (proj2 (Z.ltb_ge i 0)), lookup_at by lia. Qed.

Lemma length_upd a i v : length (upd a i v) = length a.
Proof. apply length_insert. Qed.

Lemma at_upd a i j v : 0 ≤ i < len a → 0 ≤ j → at_ (upd a i v) j = if j =? i then v else at_ a j.
Proof.
  intros Hi Hj. unfold at_, upd. destruct (Z.eqb_spec j i) as [->|].
  - apply list_lookup_total_insert_eq. lia.
  - apply list_lookup_total_insert_ne. lia.
Qed.

(** An update is a permutation with the old element and the new one exchanged. *)
Lemma upd_perm a i v : 0 ≤ i < len a → at_ a i :: upd a i v ≡ₚ v :: a.
Proof.
  intros Hi. unfold upd, at_. pose proof (lookup_at a i Hi) as E. unfold at_ in E.
  rewrite insert_take_drop by lia. rewrite <- (take_drop_middle a (Z.to_nat i) _ E) at 4.
  solve_Permutation.
Qed.

(** ** Slices *)

Definition slice (a : list Z) (lo hi : Z) : list Z := at_ a <$> seqZ lo (hi - lo).

Lemma slice_nil a lo : slice a lo lo = [].
Proof. unfold slice. by rewrite Z.sub_diag. Qed.

Lemma slice_app a lo mid hi : lo ≤ mid ≤ hi → slice a lo hi = slice a lo mid ++ slice a mid hi.
Proof.
  intros H. unfold slice. replace (hi - lo) with (mid - lo + (hi - mid)) by lia.
  rewrite seqZ_app, fmap_app by lia. by replace (lo + (mid - lo)) with mid by lia.
Qed.

Lemma slice_one a i : slice a i (i + 1) = [at_ a i].
Proof. unfold slice. by replace (i + 1 - i) with 1 by lia. Qed.

Lemma slice_snoc a lo hi : lo ≤ hi → slice a lo (hi + 1) = slice a lo hi ++ [at_ a hi].
Proof. intros H. rewrite (slice_app _ _ hi) by lia. by rewrite slice_one. Qed.

Lemma slice_shift a b lo hi d :
  (∀ i, lo ≤ i < hi → at_ b (i + d) = at_ a i) → slice b (lo + d) (hi + d) = slice a lo hi.
Proof.
  intros E. unfold slice. replace (hi + d - (lo + d)) with (hi - lo) by lia.
  apply list_eq. intros k. rewrite !list_lookup_fmap.
  destruct (decide (Z.of_nat k < hi - lo)).
  - rewrite !lookup_seqZ_lt by lia. cbn. f_equal. rewrite <- E by lia. f_equal. lia.
  - rewrite !lookup_seqZ_ge by lia. done.
Qed.

Lemma slice_ext a b lo hi : (∀ i, lo ≤ i < hi → at_ b i = at_ a i) → slice b lo hi = slice a lo hi.
Proof.
  intros E. rewrite <- (slice_shift a b lo hi 0); [by rewrite !Z.add_0_r|].
  intros i Hi. rewrite Z.add_0_r. by apply E.
Qed.

Lemma slice_all a : slice a 0 (len a) = a.
Proof.
  apply list_eq. intros k. unfold slice. rewrite list_lookup_fmap, Z.sub_0_r.
  destruct (decide (k < length a)%nat).
  - rewrite lookup_seqZ_lt by lia. cbn. unfold at_. rewrite Z.add_0_l, Nat2Z.id.
    symmetry. by apply list_lookup_lookup_total_lt.
  - rewrite lookup_seqZ_ge by lia. symmetry. apply lookup_ge_None_2. lia.
Qed.

Lemma elem_of_slice a lo hi x : x ∈ slice a lo hi ↔ ∃ i, lo ≤ i < hi ∧ x = at_ a i.
Proof.
  unfold slice. rewrite list_elem_of_fmap. setoid_rewrite elem_of_seqZ.
  split; intros (i & ? & ?); exists i; naive_solver lia.
Qed.

(** Two arrays of one length with the same elements are equal. *)
Lemma at_eq a b : length a = length b → (∀ i, 0 ≤ i < len a → at_ a i = at_ b i) → a = b.
Proof.
  intros Hl He. rewrite <- (slice_all a), <- (slice_all b), <- Hl. symmetry. apply slice_ext.
  intros i Hi. symmetry. by apply He.
Qed.
