(* ===== verification/ListHead.v ===== *)
(** * Intrusive doubly linked lists ([libc/include/dsa/list.h])

    The memory is split by field: [hnext] and [hprev] give the [next] and
    [prev] members of every mapped [struct list_head], by address.  Every
    function of the header is a computation over that memory that performs the
    same loads and stores in the same order; an access through an address that
    is not mapped is a [Fault].

    The specification is [ring h l]: the nodes [l] are pairwise distinct and
    form one circular list, in this order.  A list with header [head] and
    entries [xs] is [ring h (head :: xs)]; rings are invariant under rotation,
    which is what makes one lemma for [__list_add], one for [__list_del] and one
    for [__list_splice] enough for all the operations built on them. *)

From S2P Require Import Prelude.

(* src/libc/include/dsa/list.h 41-43 list_head *)
Record heap := Heap { hnext : gmap Z Z; hprev : gmap Z Z }.

Abbreviation LIST_POISON1 := 0x100%Z.
Abbreviation LIST_POISON2 := 0x122%Z.

(** Loads and stores of the two members. *)
Definition ld_next (p : Z) : M heap Z := λ h,
  match hnext h !! p with Some v => Ok (v, h) | None => Fault p end.
Definition ld_prev (p : Z) : M heap Z := λ h,
  match hprev h !! p with Some v => Ok (v, h) | None => Fault p end.
Definition st_next (p v : Z) : M heap unit := λ h,
  match hnext h !! p with
  | Some _ => Ok (tt, Heap (<[p := v]> (hnext h)) (hprev h))
  | None => Fault p
  end.
Definition st_prev (p v : Z) : M heap unit := λ h,
  match hprev h !! p with
  | Some _ => Ok (tt, Heap (hnext h) (<[p := v]> (hprev h)))
  | None => Fault p
  end.

(** ** The operations *)

(* src/libc/include/dsa/list.h 149-159 INIT_LIST_HEAD *)
Definition INIT_LIST_HEAD (list : Z) : M heap unit :=
  st_next list list ;; st_prev list list.

(* src/libc/include/dsa/list.h 249-253 __list_add_valid *)
Definition list_add_valid_ (new prev next : Z) : bool := true.

(* src/libc/include/dsa/list.h 254-256 __list_del_entry_valid *)
Definition list_del_entry_valid_ (entry : Z) : bool := true.

(* src/libc/include/dsa/list.h 259-275 __list_add *)
Definition list_add_ (new prev next : Z) : M heap unit :=
  if negb (list_add_valid_ new prev next) then mret tt else
  st_prev next new ;;
  st_next new next ;;
  st_prev new prev ;;
  st_next prev new.

(* src/libc/include/dsa/list.h 277-287 list_add *)
Definition list_add (new head : Z) : M heap unit :=
  next ← ld_next head;
  list_add_ new head next.

(* src/libc/include/dsa/list.h 289-300 list_add_tail *)
Definition list_add_tail (new head : Z) : M heap unit :=
  prev ← ld_prev head;
  list_add_ new prev head.

(* src/libc/include/dsa/list.h 302-312 __list_del *)
Definition list_del_ (prev next : Z) : M heap unit :=
  st_prev next prev ;;
  st_next prev next.

(* src/libc/include/dsa/list.h 314-325 __list_del_clearprev *)
Definition list_del_clearprev_ (entry : Z) : M heap unit :=
  prev ← ld_prev entry;
  next ← ld_next entry;
  list_del_ prev next ;;
  st_prev entry 0.

(* src/libc/include/dsa/list.h 327-333 __list_del_entry *)
Definition list_del_entry_ (entry : Z) : M heap unit :=
  if negb (list_del_entry_valid_ entry) then mret tt else
  prev ← ld_prev entry;
  next ← ld_next entry;
  list_del_ prev next.

(* src/libc/include/dsa/list.h 335-345 list_del *)
Definition list_del (entry : Z) : M heap unit :=
  list_del_entry_ entry ;;
  st_next entry LIST_POISON1 ;;
  st_prev entry LIST_POISON2.

(* src/libc/include/dsa/list.h 347-359 list_replace *)
Definition list_replace (old new : Z) : M heap unit :=
  on ← ld_next old;
  st_next new on ;;
  nn ← ld_next new;
  st_prev nn new ;;
  op ← ld_prev old;
  st_prev new op ;;
  np ← ld_prev new;
  st_next np new.

(* src/libc/include/dsa/list.h 361-372 list_replace_init *)
Definition list_replace_init (old new : Z) : M heap unit :=
  list_replace old new ;;
  INIT_LIST_HEAD old.

(* src/libc/include/dsa/list.h 374-389 list_swap *)
Definition list_swap (entry1 entry2 : Z) : M heap unit :=
  pos ← ld_prev entry2;
  list_del entry2 ;;
  list_replace entry1 entry2 ;;
  list_add entry1 (if pos =? entry1 then entry2 else pos).

(* src/libc/include/dsa/list.h 391-398 list_del_init *)
Definition list_del_init (entry : Z) : M heap unit :=
  list_del_entry_ entry ;;
  INIT_LIST_HEAD entry.

(* src/libc/include/dsa/list.h 400-408 list_move *)
Definition list_move (list head : Z) : M heap unit :=
  list_del_entry_ list ;;
  list_add list head.

(* src/libc/include/dsa/list.h 410-419 list_move_tail *)
Definition list_move_tail (list head : Z) : M heap unit :=
  list_del_entry_ list ;;
  list_add_tail list head.

(* src/libc/include/dsa/list.h 421-441 list_bulk_move_tail *)
Definition list_bulk_move_tail (head first last : Z) : M heap unit :=
  fp ← ld_prev first;
  ln ← ld_next last;
  st_next fp ln ;;
  ln ← ld_next last;
  fp ← ld_prev first;
  st_prev ln fp ;;
  hp ← ld_prev head;
  st_next hp first ;;
  hp ← ld_prev head;
  st_prev first hp ;;
  st_next last head ;;
  st_prev head last.

(* src/libc/include/dsa/list.h 443-451 list_is_first *)
Definition list_is_first (list head : Z) : M heap bool :=
  p ← ld_prev list; mret (p =? head).

(* src/libc/include/dsa/list.h 453-461 list_is_last *)
Definition list_is_last (list head : Z) : M heap bool :=
  n ← ld_next list; mret (n =? head).

(* src/libc/include/dsa/list.h 463-471 list_is_head *)
Definition list_is_head (list head : Z) : bool := list =? head.

(* src/libc/include/dsa/list.h 473-479 list_empty *)
Definition list_empty (head : Z) : M heap bool :=
  n ← ld_next head; mret (n =? head).

(* src/libc/include/dsa/list.h 481-496 list_del_init_careful *)
Definition list_del_init_careful (entry : Z) : M heap unit :=
  list_del_entry_ entry ;;
  st_prev entry entry ;;
  st_next entry entry.

(* src/libc/include/dsa/list.h 498-514 list_empty_careful *)
Definition list_empty_careful (head : Z) : M heap bool :=
  next ← ld_next head;
  if list_is_head next head then
    prev ← ld_prev head; mret (next =? prev)
  else mret false.

(* src/libc/include/dsa/list.h 516-527 list_rotate_left *)
Definition list_rotate_left (head : Z) : M heap unit :=
  e ← list_empty head;
  if negb e then
    first ← ld_next head;
    list_move_tail first head
  else mret tt.

(* src/libc/include/dsa/list.h 529-544 list_rotate_to_front *)
Definition list_rotate_to_front (list head : Z) : M heap unit :=
  list_move_tail head list.

(* src/libc/include/dsa/list.h 546-552 list_is_singular *)
Definition list_is_singular (head : Z) : M heap bool :=
  e ← list_empty head;
  if negb e then
    n ← ld_next head;
    p ← ld_prev head;
    mret (n =? p)
  else mret false.

(* src/libc/include/dsa/list.h 554-564 __list_cut_position *)
Definition list_cut_position_ (list head entry : Z) : M heap unit :=
  new_first ← ld_next entry;
  hn ← ld_next head;
  st_next list hn ;;
  ln ← ld_next list;
  st_prev ln list ;;
  st_prev list entry ;;
  st_next entry list ;;
  st_next head new_first ;;
  st_prev new_first head.

(* src/libc/include/dsa/list.h 566-595 list_cut_position *)
Definition list_cut_position (list head entry : Z) : M heap unit :=
  e ← list_empty head;
  if (e : bool) then mret tt else
  sing ← list_is_singular head;
  hn ← ld_next head;
  if sing && negb (list_is_head entry head) && negb (entry =? hn) then mret tt else
  if list_is_head entry head then INIT_LIST_HEAD list
  else list_cut_position_ list head entry.

(* src/libc/include/dsa/list.h 597-624 list_cut_before *)
Definition list_cut_before (list head entry : Z) : M heap unit :=
  hn ← ld_next head;
  if hn =? entry then INIT_LIST_HEAD list else
  hn ← ld_next head;
  st_next list hn ;;
  ln ← ld_next list;
  st_prev ln list ;;
  ep ← ld_prev entry;
  st_prev list ep ;;
  lp ← ld_prev list;
  st_next lp list ;;
  st_next head entry ;;
  st_prev entry head.

(* src/libc/include/dsa/list.h 626-637 __list_splice *)
Definition list_splice_ (list prev next : Z) : M heap unit :=
  first ← ld_next list;
  last ← ld_prev list;
  st_prev first prev ;;
  st_next prev first ;;
  st_next last next ;;
  st_prev next last.

(* src/libc/include/dsa/list.h 639-649 list_splice *)
Definition list_splice (list head : Z) : M heap unit :=
  e ← list_empty list;
  if negb e then hn ← ld_next head; list_splice_ list head hn else mret tt.

(* src/libc/include/dsa/list.h 651-661 list_splice_tail *)
Definition list_splice_tail (list head : Z) : M heap unit :=
  e ← list_empty list;
  if negb e then hp ← ld_prev head; list_splice_ list hp head else mret tt.

(* src/libc/include/dsa/list.h 663-676 list_splice_init *)
Definition list_splice_init (list head : Z) : M heap unit :=
  e ← list_empty list;
  if negb e then
    hn ← ld_next head;
    list_splice_ list head hn ;;
    INIT_LIST_HEAD list
  else mret tt.

(* src/libc/include/dsa/list.h 678-692 list_splice_tail_init *)
Definition list_splice_tail_init (list head : Z) : M heap unit :=
  e ← list_empty list;
  if negb e then
    hp ← ld_prev head;
    list_splice_ list hp head ;;
    INIT_LIST_HEAD list
  else mret tt.

(** The traversals read the list one node at a time; [fuel] bounds the number
    of nodes visited.  [visit] is the loop body's effect on an accumulator. *)

(* src/libc/include/dsa/list.h 782-788 list_for_each *)
Fixpoint list_for_each_from {A} (fuel : nat) (visit : Z → A → A) (pos head : Z) (acc : A)
    : M heap A :=
  if list_is_head pos head then mret acc else
  match fuel with
  | O => out_of_fuel
  | S fuel =>
      next ← ld_next pos;
      list_for_each_from fuel visit next head (visit pos acc)
  end.

Definition list_for_each {A} (fuel : nat) (visit : Z → A → A) (head : Z) (acc : A) : M heap A :=
  pos ← ld_next head;
  list_for_each_from fuel visit pos head acc.

(* src/libc/include/dsa/list.h 790-796 list_for_each_reverse *)
Fixpoint list_for_each_reverse_from {A} (fuel : nat) (visit : Z → A → A) (pos head : Z) (acc : A)
    : M heap A :=
  if pos =? head then mret acc else
  match fuel with
  | O => out_of_fuel
  | S fuel =>
      prev ← ld_prev pos;
      list_for_each_reverse_from fuel visit prev head (visit pos acc)
  end.

Definition list_for_each_reverse {A} (fuel : nat) (visit : Z → A → A) (head : Z) (acc : A)
    : M heap A :=
  pos ← ld_prev head;
  list_for_each_reverse_from fuel visit pos head acc.

(* src/libc/include/dsa/list.h 845-858 list_count_nodes *)
Definition list_count_nodes (fuel : nat) (head : Z) : M heap Z :=
  list_for_each fuel (λ _ count, u64 (count + 1)) head 0.

(** ** Rings *)

Definition valid (h : heap) (p : Z) : Prop :=
  is_Some (hnext h !! p) ∧ is_Some (hprev h !! p).

Definition link (h : heap) (a b : Z) : Prop :=
  hnext h !! a = Some b ∧ hprev h !! b = Some a.

(** The nodes [a :: xs] are chained forwards and backwards, and the last one is
    linked to [b]. *)
Fixpoint lseg (h : heap) (a : Z) (xs : list Z) (b : Z) : Prop :=
  match xs with
  | [] => link h a b
  | x :: xs => link h a x ∧ lseg h x xs b
  end.

Definition ring (h : heap) (l : list Z) : Prop :=
  NoDup l ∧ match l with [] => True | a :: xs => lseg h a xs a end.

#[export] Instance valid_dec h p : Decision (valid h p).
Proof. unfold valid. apply _. Defined.
#[export] Instance link_dec h a b : Decision (link h a b).
Proof. unfold link. apply _. Defined.
#[export] Instance lseg_dec h a xs b : Decision (lseg h a xs b).
Proof. revert a. induction xs; intros; simpl; apply _. Defined.
#[export] Instance ring_dec h l : Decision (ring h l).
Proof. unfold ring. destruct l; apply _. Defined.

(** [l] made a ring, for examples. *)
Definition circle (l : list Z) (h : heap) : heap :=
  let edges := zip l (tail l ++ take 1 l) in
  Heap (foldr (λ ab, <[ab.1 := ab.2]>) (hnext h) edges) (foldr (λ ab, <[ab.2 := ab.1]>) (hprev h) edges).

(** [h'] differs from [h] at most at the nodes [l], and maps the same nodes. *)
Definition same_but (l : list Z) (h h' : heap) : Prop :=
  (∀ p, p ∉ l → hnext h' !! p = hnext h !! p ∧ hprev h' !! p = hprev h !! p) ∧
  (∀ p, valid h p → valid h' p).

Lemma lseg_app h a xs x ys b :
  lseg h a (xs ++ x :: ys) b ↔ lseg h a xs x ∧ lseg h x ys b.
Proof. revert a. induction xs as [|y xs IH]; intros a; simpl; [done|]. rewrite IH. tauto. Qed.

Lemma lseg_frame h h' a xs b :
  lseg h a xs b →
  (∀ p, p ∈ a :: xs → hnext h' !! p = hnext h !! p) →
  (∀ p, p ∈ xs ++ [b] → hprev h' !! p = hprev h !! p) →
  lseg h' a xs b.
Proof.
  revert a. induction xs as [|x xs IH]; simpl; intros a.
  - intros [??] Hn Hp. split; [rewrite Hn | rewrite Hp]; set_solver.
  - intros [[??] ?] Hn Hp. split.
    + split; [rewrite Hn | rewrite Hp]; set_solver.
    + apply IH; set_solver.
Qed.

Lemma lseg_valid h a xs b p :
  lseg h a xs b → p ∈ xs → valid h p.
Proof.
  revert a. induction xs as [|x xs IH]; intros a; [by intros _ ?%elem_of_nil|].
  intros [[Hn Hp] Hs] [->|Hin]%elem_of_cons; [|eauto].
  split; [|eauto]. destruct xs; simpl in Hs; [destruct Hs | destruct Hs as [[??]?]]; eauto.
Qed.

Lemma ring_rotate h l1 l2 : ring h (l1 ++ l2) → ring h (l2 ++ l1).
Proof.
  intros [Hnd Hl]. split.
  { by rewrite Permutation_app_comm. }
  destruct l1 as [|a l1], l2 as [|b l2]; simpl in *; rewrite ?app_nil_r in *; try done.
  rewrite lseg_app in *. tauto.
Qed.

Lemma ring_frame l h h' l' :
  ring h l → same_but l' h h' → l ## l' → ring h' l.
Proof.
  intros [Hnd Hl] [Hs _] Hd. split; [done|]. destruct l as [|a l]; [done|].
  eapply lseg_frame; [done| |]; intros p Hp; apply Hs; set_solver.
Qed.

Lemma ring_valid h l p : ring h l → p ∈ l → valid h p.
Proof.
  intros Hr [l1 [l2 ->]]%list_elem_of_split.
  apply ring_rotate in Hr as [_ Hl]. simpl in Hl.
  destruct (l2 ++ l1) as [|y l]; simpl in Hl; [destruct Hl; split; eauto|].
  destruct Hl as [[Hn Hp] Hl]. split; [eauto|].
  assert (lseg h y l p) as Hl' by done. clear Hl Hn Hp.
  revert y Hl'. induction l as [|z l IH]; intros y; simpl; [intros [??]; eauto | naive_solver].
Qed.

(** Successor and predecessor in a ring. *)
Lemma ring_next h a l : ring h (a :: l) → hnext h !! a = Some (hd a l).
Proof. intros [_ Hl]. destruct l; simpl in *; [by destruct Hl | by destruct Hl as [[??]?]]. Qed.

Lemma ring_prev h a l : ring h (a :: l) → hprev h !! a = Some (List.last l a).
Proof.
  intros Hr. destruct l as [|z l _] using rev_ind.
  - by destruct Hr as [_ [??]].
  - destruct Hr as [_ Hl]. rewrite last_last, lseg_app in *. by destruct Hl as [_ [??]].
Qed.

Lemma same_but_refl l h : same_but l h h.
Proof. by split. Qed.

Lemma same_but_trans l h1 h2 h3 : same_but l h1 h2 → same_but l h2 h3 → same_but l h1 h3.
Proof.
  intros [H1 V1] [H2 V2]. split; [|auto]. intros p Hp.
  destruct (H1 p Hp), (H2 p Hp). split; congruence.
Qed.

Lemma same_but_mono l l' h h' : l ⊆ l' → same_but l h h' → same_but l' h h'.
Proof. intros Hl [H V]. split; [|auto]. intros p Hp. apply H. set_solver. Qed.

(** ** Running the operations *)

Lemma wp_ld_next p v (Q : Z → heap → Prop) h :
  hnext h !! p = Some v → Q v h → wp (ld_next p) Q h.
Proof. unfold wp, ld_next. by intros ->. Qed.

Lemma wp_ld_prev p v (Q : Z → heap → Prop) h :
  hprev h !! p = Some v → Q v h → wp (ld_prev p) Q h.
Proof. unfold wp, ld_prev. by intros ->. Qed.

Lemma wp_st_next p v (Q : unit → heap → Prop) h :
  is_Some (hnext h !! p) → Q tt (Heap (<[p := v]> (hnext h)) (hprev h)) → wp (st_next p v) Q h.
Proof. unfold wp, st_next. by intros [? ->]. Qed.

Lemma wp_st_prev p v (Q : unit → heap → Prop) h :
  is_Some (hprev h !! p) → Q tt (Heap (hnext h) (<[p := v]> (hprev h))) → wp (st_prev p v) Q h.
Proof. unfold wp, st_prev. by intros [? ->]. Qed.

Lemma NoDup_middle (xs ys : list Z) y :
  NoDup (xs ++ y :: ys) ↔ (y ∉ xs) ∧ (y ∉ ys) ∧ NoDup (xs ++ ys).
Proof. rewrite <- Permutation_middle, NoDup_cons, not_elem_of_app. tauto. Qed.

Lemma NoDup_middle2 (xs ys zs : list Z) y :
  NoDup (xs ++ ys ++ y :: zs) → (y ∉ xs ++ ys) ∧ (y ∉ zs) ∧ NoDup (xs ++ ys ++ zs).
Proof. rewrite !app_assoc. apply NoDup_middle. Qed.

Lemma NoDup_middle3 (xs ys zs ws : list Z) y :
  NoDup (xs ++ ys ++ zs ++ y :: ws) →
  (y ∉ xs ++ ys ++ zs) ∧ (y ∉ ws) ∧ NoDup (xs ++ ys ++ zs ++ ws).
Proof. rewrite !app_assoc. apply NoDup_middle. Qed.

(** A distinctness fact kept whole while [nodes] takes the others apart. *)
Definition distinct (l : list Z) : Prop := NoDup l.

Lemma NoDup_perm (l l' : list Z) : distinct l → Permutation l' l → NoDup l'.
Proof. by intros ? ->. Qed.

(** Distinctness facts of the context, one disequality per pair of nodes. *)
Ltac nodes :=
  repeat match goal with
  | H : NoDup (_ :: _) |- _ => apply NoDup_cons in H as [? ?]
  | H : NoDup ((_ ++ _) ++ _) |- _ => rewrite <- app_assoc in H; simpl in H
  | H : NoDup (_ ++ _ :: _) |- _ => apply NoDup_middle in H as (? & ? & ?)
  | H : NoDup (_ ++ _ ++ _ :: _) |- _ => apply NoDup_middle2 in H as (? & ? & ?)
  | H : NoDup (_ ++ _ ++ _ ++ _ :: _) |- _ => apply NoDup_middle3 in H as (? & ? & ?)
  | H : _ ∉ _ :: _ |- _ => apply not_elem_of_cons in H as [? ?]
  | H : _ ∉ _ ++ _ |- _ => apply not_elem_of_app in H as [? ?]
  | H : _ ∧ _ |- _ => destruct H
  | H : valid _ _ |- _ => destruct H
  | H : link _ _ _ |- _ => destruct H
  | H : lseg _ _ (_ ++ _ :: _) _ |- _ => apply lseg_app in H as [? ?]
  | H : lseg _ _ (_ :: _) _ |- _ => simpl in H
  | H : lseg _ _ [] _ |- _ => simpl in H
  | H : is_Some _ |- _ => destruct H
  end.

Ltac lget :=
  simpl;
  repeat first [ rewrite lookup_insert_eq | rewrite lookup_insert_ne by congruence ];
  eauto.

(** One load or store, its address known to be mapped. *)
Ltac lstep1 :=
  match goal with
  | |- wp (mbind _ _) _ _ => apply wp_bind
  | |- wp (ld_next _) _ _ => eapply wp_ld_next; [solve [lget]|]
  | |- wp (ld_prev _) _ _ => eapply wp_ld_prev; [solve [lget]|]
  | |- wp (st_next _ _) _ _ => eapply wp_st_next; [solve [lget]|]
  | |- wp (st_prev _ _) _ _ => eapply wp_st_prev; [solve [lget]|]
  | |- wp (mret _) _ _ => apply wp_ret
  end.
Ltac lsteps := repeat (lstep1; simpl).

(** A disequality [q ≠ p] from a membership of [p] or the absence of [q]. *)
Ltac apart :=
  intros ->;
  repeat match goal with
  | H : _ ∈ _ :: _ |- _ => apply elem_of_cons in H as [H|H]
  | H : _ ∈ _ ++ _ |- _ => apply elem_of_app in H as [H|H]
  | H : _ ∈ [] |- _ => by apply elem_of_nil in H
  | H : _ ∉ _ :: _ |- _ => apply not_elem_of_cons in H as [? ?]
  | H : _ ∉ _ ++ _ |- _ => apply not_elem_of_app in H as [? ?]
  end; solve [congruence | contradiction].

Ltac lframe :=
  match goal with
  | H : lseg _ ?a ?xs ?b |- lseg _ ?a ?xs ?b =>
      eapply (lseg_frame _ _ _ _ _ H); intros ? ?; simpl;
      (rewrite ?lookup_insert_ne; [done | apart ..])
  end.

Ltac nodup :=
  match goal with
  | H : distinct _ |- _ => solve [exact H | apply (NoDup_perm _ _ H); solve_Permutation]
  end.

Ltac lsolve :=
  repeat first
    [ progress simpl
    | match goal with
      | |- _ ∧ _ => split
      | |- link _ _ _ => split; solve [lget]
      | |- lseg _ _ (_ ++ _ :: _) _ => apply lseg_app
      | |- lseg _ _ _ _ => lframe
      end ].

Ltac lsame :=
  split; simpl;
  [ intros ? ?; split; (rewrite ?lookup_insert_ne; [done | apart ..])
  | intros ? [??]; split; simpl; rewrite ?lookup_insert_is_Some'; auto ].

Lemma list_add_spec_ h new prev l :
  ring h (prev :: l) → valid h new → new ∉ prev :: l →
  wp (list_add_ new prev (hd prev l))
     (λ _ h', ring h' (prev :: new :: l) ∧ same_but (new :: prev :: l) h h') h.
Proof.
  intros [Hnd Hl] Hv Hnew. unfold list_add_. simpl.
  pose proof (NoDup_cons_2 _ _ Hnew Hnd : distinct _).
  destruct l as [|n l]; simpl in *; nodes; lsteps.
  all: split; [split; [nodup | lsolve] | lsame].
Qed.

Lemma list_add_spec h new head xs :
  ring h (head :: xs) → valid h new → new ∉ head :: xs →
  wp (list_add new head)
     (λ _ h', ring h' (head :: new :: xs) ∧ same_but (new :: head :: xs) h h') h.
Proof.
  intros Hr Hv Hnew. apply wp_bind. eapply wp_ld_next; [by eapply ring_next|].
  by apply list_add_spec_.
Qed.

Lemma list_add_tail_spec h new head xs :
  ring h (head :: xs) → valid h new → new ∉ head :: xs →
  wp (list_add_tail new head)
     (λ _ h', ring h' (head :: xs ++ [new]) ∧ same_but (new :: head :: xs) h h') h.
Proof.
  intros Hr Hv Hnew. apply wp_bind. eapply wp_ld_prev; [by eapply ring_prev|].
  destruct xs as [|z xs _] using rev_ind; [by apply (list_add_spec_ h new head [])|].
  rewrite last_last. apply (ring_rotate _ (head :: xs) [z]) in Hr.
  eapply wp_mono; [apply (list_add_spec_ _ new z (head :: xs)); set_solver|].
  intros _ h' [Hr' Hs]. split; [|eapply same_but_mono, Hs; set_solver].
  apply (ring_rotate _ [z; new] (head :: xs)) in Hr'. by rewrite <- app_assoc.
Qed.

Lemma list_del_entry_spec_ h e x l :
  ring h (e :: x :: l) →
  wp (list_del_entry_ e) (λ _ h', ring h' (x :: l) ∧ same_but (x :: l) h h') h.
Proof.
  intros [Hnd Hl]. unfold list_del_entry_, list_del_. simpl.
  pose proof (NoDup_cons_1_2 _ _ Hnd : distinct _).
  destruct l as [|z l _] using rev_ind; simpl in *; nodes; lsteps.
  all: split; [split; [nodup | lsolve] | lsame].
Qed.

Lemma ring_middle h l1 e l2 : ring h (l1 ++ e :: l2) → e ∉ l1 ++ l2.
Proof. intros [(?&?&?)%NoDup_middle _]. by rewrite not_elem_of_app. Qed.

(** Deleting an entry at any position of a list with header [head]. *)
Lemma list_del_entry_at h head l1 e l2 :
  ring h (head :: l1 ++ e :: l2) →
  wp (list_del_entry_ e)
     (λ _ h', ring h' (head :: l1 ++ l2) ∧ same_but (head :: l1 ++ l2) h h') h.
Proof.
  intros Hr. apply (ring_rotate _ (head :: l1) (e :: l2)) in Hr. simpl in Hr.
  destruct l2 as [|x l2]; simpl in *.
  - eapply wp_mono; [by apply list_del_entry_spec_|].
    intros _ h' [Hr' Hs]. by rewrite app_nil_r.
  - eapply wp_mono; [by apply list_del_entry_spec_|].
    intros _ h' [Hr' Hs]. split; [|eapply same_but_mono, Hs; set_solver].
    by apply (ring_rotate _ (x :: l2) (head :: l1)) in Hr'.
Qed.

Lemma INIT_LIST_HEAD_spec h p :
  valid h p → wp (INIT_LIST_HEAD p) (λ _ h', ring h' [p] ∧ same_but [p] h h') h.
Proof.
  intros Hv. unfold INIT_LIST_HEAD. nodes. lsteps.
  split; [split; [apply NoDup_singleton | lsolve] | lsame].
Qed.

(** Deleting an entry and writing something else into it leaves the rest of
    the list as a ring. *)
Lemma list_del_init_spec h head l1 e l2 :
  ring h (head :: l1 ++ e :: l2) →
  wp (list_del_init e)
     (λ _ h', ring h' (head :: l1 ++ l2) ∧ ring h' [e] ∧
              same_but (head :: l1 ++ e :: l2) h h') h.
Proof.
  intros Hr. assert (valid h e) by (eapply ring_valid; set_solver).
  assert (e ∉ head :: l1 ++ l2).
  { by apply (ring_middle h (head :: l1)). }
  eapply wp_bind_mono; [by apply list_del_entry_at|]. intros _ h' [Hr' [Hs Hv]].
  eapply wp_mono; [by apply INIT_LIST_HEAD_spec, Hv|]. intros _ h'' [He Hs''].
  split; [|split; [done|]].
  - eapply ring_frame; [done | done | set_solver].
  - eapply same_but_trans; [|by eapply same_but_mono, Hs''; set_solver].
    eapply same_but_mono; [|by split]. set_solver.
Qed.

Lemma list_del_spec h head l1 e l2 :
  ring h (head :: l1 ++ e :: l2) →
  wp (list_del e)
     (λ _ h', ring h' (head :: l1 ++ l2) ∧
              hnext h' !! e = Some LIST_POISON1 ∧ hprev h' !! e = Some LIST_POISON2 ∧
              same_but (head :: l1 ++ e :: l2) h h') h.
Proof.
  intros Hr. assert (valid h e) as Hve by (eapply ring_valid; set_solver).
  pose proof (ring_middle h (head :: l1) _ _ Hr) as He.
  eapply wp_bind_mono; [by apply list_del_entry_at|]. intros _ h' (Hr' & Hs & Hv).
  destruct (Hv _ Hve). lsteps.
  assert (same_but [e] h' (Heap (<[e:=LIST_POISON1]> (hnext h')) (<[e:=LIST_POISON2]> (hprev h'))))
    as Hs2 by lsame.
  split_and!; [|by lget..|].
  - eapply ring_frame; [done | done | set_solver].
  - eapply same_but_trans; [|by eapply same_but_mono, Hs2; set_solver].
    eapply same_but_mono; [|by split]. set_solver.
Qed.

Lemma list_replace_spec h old new l :
  ring h (old :: l) → valid h new → new ∉ old :: l →
  wp (list_replace old new)
     (λ _ h', ring h' (new :: l) ∧ same_but (new :: old :: l) h h') h.
Proof.
  intros [Hnd Hl] Hv Hnew. unfold list_replace.
  pose proof (NoDup_cons_1_2 _ _ Hnd : distinct _).
  assert (distinct (new :: l)).
  { apply NoDup_cons; split; [set_solver|]. by eapply NoDup_cons_1_2. }
  destruct l as [|x l]; [|destruct l as [|z l _] using rev_ind];
    simpl in *; nodes; lsteps.
  all: split; [split; [nodup | lsolve] | lsame].
Qed.

Lemma list_splice_spec_ h list prev m l :
  ring h (list :: m) → ring h (prev :: l) → m ≠ [] → NoDup (list :: m ++ prev :: l) →
  wp (list_splice_ list prev (hd prev l))
     (λ _ h', ring h' (prev :: m ++ l) ∧ same_but (prev :: m ++ l) h h') h.
Proof.
  intros [_ Hm] [_ Hl] Hne Hnd. unfold list_splice_.
  pose proof (NoDup_cons_1_2 _ _ Hnd : distinct _).
  destruct m as [|x m]; [done|].
  destruct m as [|z m _] using rev_ind; destruct l as [|n l]; simpl in *; nodes; lsteps.
  all: split; [split; [nodup | rewrite <- ?app_assoc; lsolve] | lsame].
Qed.
