(* ===== verification/ListHeadOps.v ===== *)
(** * The derived list operations ([libc/include/dsa/list.h])

    What the predicates return, and what the moves, rotations, swaps, cuts,
    splices and traversals built on [__list_add], [__list_del] and
    [__list_splice] do to a ring. *)

From S2P Require Import Prelude ListHead.

(** ** Predicates *)

Lemma list_empty_spec h head xs :
  ring h (head :: xs) →
  list_empty head h = Ok (bool_decide (xs = []), h).
Proof.
  intros Hr. unfold list_empty. erewrite M_bind_Ok; [|unfold ld_next; by erewrite ring_next].
  destruct Hr as [Hnd _]. unfold mret, M_ret. do 2 f_equal.
  destruct xs as [|x xs]; simpl; [by rewrite Z.eqb_refl|].
  nodes. by rewrite (proj2 (Z.eqb_neq x head)) by congruence.
Qed.

Lemma wp_list_empty h head xs (Q : bool → heap → Prop) :
  ring h (head :: xs) → Q (bool_decide (xs = [])) h → wp (list_empty head) Q h.
Proof. intros Hr HQ. eapply wp_intro; [by apply list_empty_spec | done]. Qed.

Lemma list_is_singular_spec h head xs :
  ring h (head :: xs) →
  list_is_singular head h = Ok (bool_decide (length xs = 1%nat), h).
Proof.
  intros Hr. unfold list_is_singular.
  erewrite M_bind_Ok by (by apply list_empty_spec).
  destruct xs as [|x xs]; [done|].
  rewrite (bool_decide_eq_false_2 (x :: xs = [])) by done. cbn [negb].
  erewrite M_bind_Ok; [|unfold ld_next; by erewrite ring_next].
  erewrite M_bind_Ok; [|unfold ld_prev; by erewrite ring_prev].
  cbn [hd]. unfold mret, M_ret. do 2 f_equal. destruct Hr as [Hnd _].
  destruct xs as [|z xs _] using rev_ind; [by rewrite Z.eqb_refl|].
  rewrite (app_comm_cons xs [z] x), last_last.
  nodes. rewrite (proj2 (Z.eqb_neq x z)) by done.
  rewrite bool_decide_eq_false_2; [done|]. rewrite length_app. simpl. lia.
Qed.

Lemma list_is_first_spec h head l1 e l2 :
  ring h (head :: l1 ++ e :: l2) →
  list_is_first e head h = Ok (bool_decide (l1 = []), h).
Proof.
  intros Hr. unfold list_is_first.
  pose proof (ring_rotate _ (head :: l1) (e :: l2) Hr : ring h (e :: l2 ++ head :: l1)) as Hr'.
  erewrite M_bind_Ok; [|unfold ld_prev; by erewrite ring_prev].
  unfold mret, M_ret. do 2 f_equal. destruct Hr as [Hnd _].
  destruct l1 as [|z l1 _] using rev_ind.
  - rewrite last_last. by rewrite Z.eqb_refl.
  - rewrite (app_comm_cons l1 [z] head), app_assoc, last_last. nodes.
    rewrite (proj2 (Z.eqb_neq z head)) by congruence.
    rewrite bool_decide_eq_false_2; [done|]. by destruct l1.
Qed.

Lemma list_is_last_spec h head l1 e l2 :
  ring h (head :: l1 ++ e :: l2) →
  list_is_last e head h = Ok (bool_decide (l2 = []), h).
Proof.
  intros Hr. unfold list_is_last.
  pose proof (ring_rotate _ (head :: l1) (e :: l2) Hr : ring h (e :: l2 ++ head :: l1)) as Hr'.
  erewrite M_bind_Ok; [|unfold ld_next; by erewrite ring_next].
  unfold mret, M_ret. do 2 f_equal. destruct Hr as [Hnd _].
  destruct l2 as [|z l2]; simpl; [by rewrite Z.eqb_refl|].
  nodes. by rewrite (proj2 (Z.eqb_neq z head)) by congruence.
Qed.

Lemma list_empty_careful_spec h head xs :
  ring h (head :: xs) →
  list_empty_careful head h = Ok (bool_decide (xs = []), h).
Proof.
  intros Hr. unfold list_empty_careful, list_is_head.
  erewrite M_bind_Ok; [|unfold ld_next; by erewrite ring_next].
  destruct xs as [|x xs]; cbn [hd].
  - rewrite Z.eqb_refl. erewrite M_bind_Ok; [|unfold ld_prev; by erewrite ring_prev].
    cbn. by rewrite Z.eqb_refl.
  - destruct Hr as [Hnd _]. nodes. by rewrite (proj2 (Z.eqb_neq x head)) by congruence.
Qed.

Lemma list_del_init_careful_spec h head l1 e l2 :
  ring h (head :: l1 ++ e :: l2) →
  wp (list_del_init_careful e)
     (λ _ h', ring h' (head :: l1 ++ l2) ∧ ring h' [e] ∧
              same_but (head :: l1 ++ e :: l2) h h') h.
Proof.
  intros Hr. assert (valid h e) as Hve by (eapply ring_valid; set_solver).
  pose proof (ring_middle h (head :: l1) _ _ Hr) as He.
  eapply wp_bind_mono; [by apply list_del_entry_at|]. intros _ h' (Hr' & Hs & Hv).
  destruct (Hv _ Hve). lsteps.
  assert (same_but [e] h' (Heap (<[e:=e]> (hnext h')) (<[e:=e]> (hprev h')))) as Hs2 by lsame.
  split_and!.
  - eapply ring_frame; [done | done | set_solver].
  - split; [apply NoDup_singleton|lsolve].
  - eapply same_but_trans; [|by eapply same_but_mono, Hs2; set_solver].
    eapply same_but_mono; [|by split]. set_solver.
Qed.

(** ** Moves, rotations, swaps *)

Lemma list_move_tail_spec h head l1 e l2 :
  ring h (head :: l1 ++ e :: l2) →
  wp (list_move_tail e head) (λ _ h', ring h' (head :: l1 ++ l2 ++ [e])) h.
Proof.
  intros Hr. assert (valid h e) as Hve by (eapply ring_valid; set_solver).
  pose proof (ring_middle h (head :: l1) _ _ Hr) as He.
  eapply wp_bind_mono; [by apply list_del_entry_at|]. intros _ h' (Hr' & Hs & Hv).
  eapply wp_mono; [by apply list_add_tail_spec; auto|].
  intros _ h'' [Hr'' _]. by rewrite app_assoc.
Qed.

Lemma list_move_spec h head l1 e l2 :
  ring h (head :: l1 ++ e :: l2) →
  wp (list_move e head) (λ _ h', ring h' (head :: e :: l1 ++ l2)) h.
Proof.
  intros Hr. assert (valid h e) as Hve by (eapply ring_valid; set_solver).
  pose proof (ring_middle h (head :: l1) _ _ Hr) as He.
  eapply wp_bind_mono; [by apply list_del_entry_at|]. intros _ h' (Hr' & Hs & Hv).
  eapply wp_mono; [by apply list_add_spec; auto|]. by intros _ h'' [Hr'' _].
Qed.

(** Moving an entry between two different lists. *)
Lemma list_move_tail_other h head1 l1 e l2 head2 m :
  ring h (head1 :: l1 ++ e :: l2) → ring h (head2 :: m) →
  head1 :: l1 ++ e :: l2 ## head2 :: m →
  wp (list_move_tail e head2)
     (λ _ h', ring h' (head1 :: l1 ++ l2) ∧ ring h' (head2 :: m ++ [e])) h.
Proof.
  intros Hr Hm Hd. assert (valid h e) as Hve by (eapply (ring_valid _ _ _ Hr); set_solver).
  pose proof (ring_middle h (head1 :: l1) _ _ Hr) as He.
  eapply wp_bind_mono; [by apply list_del_entry_at|]. intros _ h' (Hr' & Hs & Hv).
  eapply wp_mono.
  { apply (list_add_tail_spec _ e head2 m); [|auto|set_solver].
    eapply ring_frame; [done | by split | set_solver]. }
  intros _ h'' [Hr'' Hs'']. split; [|done]. eapply ring_frame; [done|done|set_solver].
Qed.

Lemma list_rotate_left_spec h head xs :
  ring h (head :: xs) →
  wp (list_rotate_left head)
     (λ _ h', ring h' (head :: match xs with [] => [] | x :: xs => xs ++ [x] end)) h.
Proof.
  intros Hr. apply wp_bind. eapply wp_list_empty; [done|].
  destruct xs as [|x xs]; simpl; [done|].
  apply wp_bind. eapply wp_ld_next; [by eapply ring_next|].
  by apply (list_move_tail_spec h head [] x xs).
Qed.

Lemma list_rotate_to_front_spec h head l1 e l2 :
  ring h (head :: l1 ++ e :: l2) →
  wp (list_rotate_to_front e head) (λ _ h', ring h' (head :: e :: l2 ++ l1)) h.
Proof.
  intros Hr. apply (ring_rotate _ (head :: l1) (e :: l2)) in Hr. simpl in Hr.
  eapply wp_mono; [by apply (list_move_tail_spec h e l2 head l1)|].
  intros [] h' Hr'. simpl in Hr'. rewrite app_assoc in Hr'.
  by apply (ring_rotate _ (e :: l2 ++ l1) [head]) in Hr'.
Qed.

Lemma list_swap_spec h e1 l1 e2 l2 :
  ring h (e1 :: l1 ++ e2 :: l2) →
  wp (list_swap e1 e2) (λ _ h', ring h' (e2 :: l1 ++ e1 :: l2)) h.
Proof.
  intros Hr.
  assert (valid h e1) as Hv1 by (eapply ring_valid; set_solver).
  assert (valid h e2) as Hv2 by (eapply ring_valid; set_solver).
  pose proof (ring_middle h (e1 :: l1) _ _ Hr) as He2.
  pose proof (ring_rotate _ (e1 :: l1) (e2 :: l2) Hr : ring h (e2 :: l2 ++ e1 :: l1)) as Hrot.
  apply wp_bind. eapply wp_ld_prev; [by eapply ring_prev|].
  eapply wp_bind_mono; [by apply list_del_spec|].
  intros _ h1 (Hr1 & _ & _ & _ & Hval1).
  eapply wp_bind_mono; [by apply list_replace_spec; auto|].
  intros _ h2 (Hr2 & _ & Hval2). destruct Hr as [Hnd _].
  destruct l1 as [|z l1 _] using rev_ind.
  - rewrite last_last, Z.eqb_refl.
    eapply wp_mono; [apply (list_add_spec h2 e1 e2 l2)|].
    + done.
    + auto.
    + nodes. set_solver.
    + by intros _ h3 [Hr3 _].
  - rewrite (app_comm_cons l1 [z] e1), app_assoc, last_last.
    assert (z ≠ e1) as Hz by (nodes; congruence).
    rewrite (proj2 (Z.eqb_neq z e1) Hz).
    rewrite <- app_assoc in Hr2. apply (ring_rotate _ (e2 :: l1) (z :: l2)) in Hr2.
    eapply wp_mono; [apply (list_add_spec h2 e1 z (l2 ++ e2 :: l1))|].
    + done.
    + auto.
    + nodes. set_solver.
    + intros _ h3 [Hr3 _]. rewrite <- app_assoc.
      by apply (ring_rotate _ (z :: e1 :: l2) (e2 :: l1)) in Hr3.
Qed.

(** Moving the segment [first .. last] of a list to its end. *)
Lemma list_bulk_move_tail_spec h head l1 first s l2 :
  ring h (head :: l1 ++ (first :: s) ++ l2) →
  wp (list_bulk_move_tail head first (List.last s first))
     (λ _ h', ring h' (head :: l1 ++ l2 ++ first :: s)) h.
Proof.
  intros [Hnd Hl]. pose proof (Hnd : distinct _). unfold list_bulk_move_tail.
  destruct l1 as [|z l1 _] using rev_ind; destruct s as [|g s _] using rev_ind;
    (destruct l2 as [|n l2]; [|destruct l2 as [|w l2 _] using rev_ind]);
    rewrite ?last_last; simpl in *; rewrite <- ?app_assoc in *; simpl in *; nodes; lsteps.
  all: split; [nodup | lsolve].
Qed.

(** ** Cutting and splicing *)

Lemma list_cut_position_spec_ h list head l1 e l2 :
  ring h (head :: l1 ++ e :: l2) → valid h list → list ∉ head :: l1 ++ e :: l2 →
  wp (list_cut_position_ list head e)
     (λ _ h', ring h' (list :: l1 ++ [e]) ∧ ring h' (head :: l2)) h.
Proof.
  intros [Hnd Hl] Hv Hlist. pose proof (NoDup_cons_2 _ _ Hlist Hnd) as Hall.
  assert (distinct (list :: l1 ++ [e])).
  { eapply (sublist_NoDup _ _ Hall). constructor. apply sublist_cons.
    apply sublist_app; [done|]. constructor. apply sublist_nil_l. }
  assert (distinct (head :: l2)).
  { eapply (sublist_NoDup _ _ Hnd). constructor. apply sublist_inserts_l.
    by apply sublist_cons. }
  unfold list_cut_position_. clear Hall.
  destruct l1 as [|x l1]; destruct l2 as [|n l2]; simpl in *; nodes; lsteps.
  all: split; (split; [nodup | lsolve]).
Qed.

Lemma list_cut_position_spec h list head l1 e l2 :
  ring h (head :: l1 ++ e :: l2) → valid h list → list ∉ head :: l1 ++ e :: l2 →
  wp (list_cut_position list head e)
     (λ _ h', ring h' (list :: l1 ++ [e]) ∧ ring h' (head :: l2)) h.
Proof.
  intros Hr Hv Hlist. unfold list_cut_position.
  apply wp_bind. eapply wp_list_empty; [done|].
  rewrite bool_decide_eq_false_2 by (by destruct l1).
  apply wp_bind. eapply wp_intro; [by apply list_is_singular_spec|].
  apply wp_bind. eapply wp_ld_next; [by eapply ring_next|].
  assert (e ≠ head) as Hne.
  { pose proof (ring_middle h (head :: l1) _ _ Hr). set_solver. }
  unfold list_is_head. rewrite (proj2 (Z.eqb_neq e head) Hne).
  assert (bool_decide (length (l1 ++ e :: l2) = 1%nat) && negb false &&
          negb (e =? hd head (l1 ++ e :: l2)) = false) as ->.
  { case_bool_decide as Hlen; [|done]. rewrite length_app in Hlen. simpl in Hlen.
    destruct l1; simpl in *; [by rewrite Z.eqb_refl | lia]. }
  by apply list_cut_position_spec_.
Qed.

Lemma list_cut_before_spec h list head l1 e l2 :
  ring h (head :: l1 ++ e :: l2) → valid h list → list ∉ head :: l1 ++ e :: l2 →
  wp (list_cut_before list head e)
     (λ _ h', ring h' (list :: l1) ∧ ring h' (head :: e :: l2)) h.
Proof.
  intros [Hnd Hl] Hv Hlist. pose proof (NoDup_cons_2 _ _ Hlist Hnd) as Hall.
  assert (distinct (list :: l1)).
  { eapply (sublist_NoDup _ _ Hall). constructor. apply sublist_cons.
    by apply sublist_inserts_r. }
  assert (distinct (head :: e :: l2)).
  { eapply (sublist_NoDup _ _ Hnd). constructor. by apply sublist_inserts_l. }
  unfold list_cut_before. clear Hall.
  destruct l1 as [|x l1]; [|destruct l1 as [|z l1 _] using rev_ind]; simpl in *;
    rewrite <- ?app_assoc in *; simpl in *; nodes; apply wp_bind;
    (eapply wp_ld_next; [eassumption|]).
  - rewrite Z.eqb_refl. unfold INIT_LIST_HEAD. lsteps.
    split; (split; [nodup | lsolve]).
  - rewrite (proj2 (Z.eqb_neq x e)) by congruence. lsteps.
    split; (split; [nodup | lsolve]).
  - rewrite (proj2 (Z.eqb_neq x e)) by congruence. lsteps.
    split; (split; [nodup | lsolve]).
Qed.

Lemma rings_distinct h l m : ring h l → ring h m → l ## m → NoDup (l ++ m).
Proof.
  intros [Hl _] [Hm _] Hd. apply NoDup_app. split_and!; [done| |done].
  intros x ??. by apply (Hd x).
Qed.

Lemma list_splice_spec h list head m xs :
  ring h (list :: m) → ring h (head :: xs) → list :: m ## head :: xs →
  wp (list_splice list head) (λ _ h', ring h' (head :: m ++ xs)) h.
Proof.
  intros Hm Hx Hd. apply wp_bind. eapply wp_list_empty; [done|].
  destruct m as [|x m]; simpl; [done|].
  apply wp_bind. eapply wp_ld_next; [by eapply ring_next|].
  eapply wp_mono; [apply (list_splice_spec_ h list head (x :: m) xs); [done..|]|].
  - by eapply rings_distinct in Hd.
  - by intros _ h' [Hr _].
Qed.

Lemma list_splice_tail_spec h list head m xs :
  ring h (list :: m) → ring h (head :: xs) → list :: m ## head :: xs →
  wp (list_splice_tail list head) (λ _ h', ring h' (head :: xs ++ m)) h.
Proof.
  intros Hm Hx Hd. apply wp_bind. eapply wp_list_empty; [done|].
  destruct m as [|y m]; simpl; [by rewrite app_nil_r|].
  apply wp_bind. eapply wp_ld_prev; [by eapply ring_prev|].
  pose proof (rings_distinct _ _ _ Hm Hx Hd) as Hnd.
  destruct xs as [|z xs _] using rev_ind.
  - eapply wp_mono; [by apply (list_splice_spec_ h list head (y :: m) [])|].
    intros _ h' [Hr _]. by rewrite app_nil_r in Hr.
  - rewrite last_last. apply (ring_rotate _ (head :: xs) [z]) in Hx.
    eapply wp_mono; [apply (list_splice_spec_ h list z (y :: m) (head :: xs)); [done..|]|].
    + eapply NoDup_perm; [exact Hnd|]. solve_Permutation.
    + intros _ h' [Hr _]. rewrite <- app_assoc.
      apply (ring_rotate _ (z :: y :: m) (head :: xs)) in Hr. done.
Qed.

(** ** Traversals *)

Lemma list_for_each_from_spec {A} (f : Z → A → A) h head xs a fuel acc :
  lseg h a xs head → head ∉ xs → (length xs ≤ fuel)%nat →
  (p ← ld_next a; list_for_each_from fuel f p head acc) h =
  Ok (fold_left (λ acc x, f x acc) xs acc, h).
Proof.
  revert a fuel acc. induction xs as [|x xs IH]; intros a fuel acc Hl Hh Hf; simpl in *.
  - destruct Hl as [Hn _]. erewrite M_bind_Ok; [|unfold ld_next; by rewrite Hn].
    unfold list_for_each_from, list_is_head. by destruct fuel; rewrite Z.eqb_refl.
  - destruct Hl as [[Hn _] Hl]. apply not_elem_of_cons in Hh as [??].
    erewrite M_bind_Ok; [|unfold ld_next; by rewrite Hn].
    destruct fuel as [|fuel]; [lia|]. simpl. unfold list_is_head.
    rewrite (proj2 (Z.eqb_neq x head)) by congruence. apply IH; [done..|lia].
Qed.

(** [list_for_each] visits the entries once each, in list order, and ends. *)
Lemma list_for_each_spec {A} (f : Z → A → A) h head xs fuel acc :
  ring h (head :: xs) → (length xs ≤ fuel)%nat →
  list_for_each fuel f head acc h = Ok (fold_left (λ acc x, f x acc) xs acc, h).
Proof.
  intros [Hnd Hl] Hf. apply NoDup_cons in Hnd as [Hh _].
  by apply list_for_each_from_spec.
Qed.

Lemma list_count_nodes_spec h head xs fuel :
  ring h (head :: xs) → (length xs ≤ fuel)%nat → Z.of_nat (length xs) < 2 ^ 64 →
  list_count_nodes fuel head h = Ok (Z.of_nat (length xs), h).
Proof.
  intros Hr Hf Hlen. unfold list_count_nodes. rewrite (list_for_each_spec _ h head xs) by done.
  do 2 f_equal.
  assert (∀ c, 0 ≤ c → c + Z.of_nat (length xs) < 2 ^ 64 →
    fold_left (λ acc (_ : Z), u64 (acc + 1)) xs c = c + Z.of_nat (length xs)) as Hgen.
  { clear. induction xs as [|x xs IH]; intros c Hc Hb; cbn [fold_left length] in *; [lia|].
    rewrite wrap_small by lia. rewrite IH; lia. }
  by rewrite Hgen.
Qed.

(** Reading a ring backwards is reading the reversed ring forwards. *)
Definition flip_heap (h : heap) : heap := Heap (hprev h) (hnext h).

Lemma lseg_flip h a xs b : lseg h a xs b → lseg (flip_heap h) b (reverse xs) a.
Proof.
  revert a. induction xs as [|x xs IH]; intros a; simpl.
  - by intros [??].
  - rewrite reverse_cons. intros [[??] ?]. apply lseg_app. split; [auto|]. by split.
Qed.

Lemma list_for_each_reverse_flip {A} fuel (f : Z → A → A) p head acc h :
  list_for_each_reverse_from fuel f p head acc h =
  (match list_for_each_from fuel f p head acc (flip_heap h) with
   | Ok (a, h') => Ok (a, flip_heap h') | Panic m => Panic m | Halt => Halt
   | Fault x => Fault x | OutOfFuel => OutOfFuel end).
Proof.
  revert p acc. destruct h as [hn hp]. induction fuel as [|fuel IH]; intros p acc; simpl;
    unfold list_is_head; destruct (p =? head); try done.
  unfold mbind, M_bind, ld_prev, ld_next in *. simpl. destruct (hp !! p); [apply IH|done].
Qed.

Lemma list_for_each_reverse_spec {A} (f : Z → A → A) h head xs fuel acc :
  ring h (head :: xs) → (length xs ≤ fuel)%nat →
  list_for_each_reverse fuel f head acc h = Ok (fold_left (λ acc x, f x acc) (reverse xs) acc, h).
Proof.
  intros [Hnd Hl%lseg_flip] Hf. apply NoDup_cons in Hnd as [Hh _].
  pose proof (list_for_each_from_spec f (flip_heap h) head (reverse xs) head fuel acc Hl) as Hs.
  rewrite length_reverse, elem_of_reverse in Hs. specialize (Hs Hh Hf). unfold list_for_each_reverse, mbind, M_bind, ld_next, ld_prev in *.
  simpl in Hs. destruct (hprev h !! head); [|done].
  rewrite list_for_each_reverse_flip, Hs. by destruct h.
Qed.
