(* ===== verification/ListProps.v ===== *)
(** * The theorems about [list.h]

    Sequences of list operations, as the kernel composes them. *)

From S2P Require Import Prelude ListHead ListHeadOps.

(** Put each of [xs] at the tail of [head]. *)
Fixpoint add_all (head : Z) (xs : list Z) : M heap unit :=
  match xs with
  | [] => mret tt
  | x :: xs => list_add_tail x head ;; add_all head xs
  end.

Lemma add_all_ok h head ys xs :
  ring h (head :: ys) → NoDup (head :: ys ++ xs) → Forall (valid h) xs →
  wp (add_all head xs) (λ _ h', ring h' (head :: ys ++ xs)) h.
Proof.
  revert h ys. induction xs as [|x xs IH]; intros h ys Hr Hnd Hv; cbn [add_all].
  - apply wp_ret. by rewrite app_nil_r.
  - apply Forall_cons in Hv as [Hx Hv].
    eapply wp_bind_mono.
    { apply list_add_tail_spec; [done|done|].
      change (head :: ys ++ x :: xs) with ((head :: ys) ++ x :: xs) in Hnd.
      apply NoDup_app in Hnd as (_ & Hn & _). intros Hin. apply (Hn _ Hin). left. }
    intros [] h' [Hr' [_ Hval]].
    replace (ys ++ x :: xs) with ((ys ++ [x]) ++ xs) in * by (by rewrite <- app_assoc).
    apply IH; [done|done|]. eapply Forall_impl; [exact Hv|auto].
Qed.

(** A list built with [INIT_LIST_HEAD] and [list_add_tail] is a queue: forward
    iteration visits the entries in insertion order, backward iteration in the
    opposite order, each exactly once, and [list_count_nodes] counts them. *)
Theorem list_fifo h head xs fuel :
  NoDup (head :: xs) → Forall (valid h) (head :: xs) → (length xs ≤ fuel)%nat →
  Z.of_nat (length xs) < 2 ^ 64 →
  wp (INIT_LIST_HEAD head ;; add_all head xs ;;
      fwd ← list_for_each fuel (λ p acc, acc ++ [p]) head [];
      bwd ← list_for_each_reverse fuel (λ p acc, acc ++ [p]) head [];
      n ← list_count_nodes fuel head;
      mret (fwd, bwd, n))
    (λ r _, r = (xs, reverse xs, Z.of_nat (length xs))) h.
Proof.
  intros Hnd [Hv Hvs]%Forall_cons Hf Hlen.
  assert (∀ l acc : list Z, fold_left (λ acc x, acc ++ [x]) l acc = acc ++ l) as Hfold.
  { induction l as [|x l IH]; intros acc; simpl; [by rewrite app_nil_r|]. by rewrite IH, <- app_assoc. }
  eapply wp_bind_mono; [by apply INIT_LIST_HEAD_spec|]. intros [] h1 [Hr1 [_ Hval]].
  eapply wp_bind_mono; [apply (add_all_ok _ _ [] xs); [done|done|]|].
  { eapply Forall_impl; [exact Hvs|auto]. }
  intros [] h2 Hr. cbn [app] in Hr.
  apply wp_bind. eapply wp_intro; [by apply list_for_each_spec|].
  apply wp_bind. eapply wp_intro; [by apply list_for_each_reverse_spec|].
  apply wp_bind. eapply wp_intro; [by apply list_count_nodes_spec|].
  apply wp_ret. by rewrite !Hfold.
Qed.

Lemma list_del_init_alone h e :
  ring h [e] → wp (list_del_init e) (λ _ h', ring h' [e] ∧ same_but [e] h h') h.
Proof.
  intros [Hnd Hl]. unfold list_del_init, list_del_entry_, list_del_, INIT_LIST_HEAD. simpl in *.
  nodes. lsteps. split; [split; [apply NoDup_singleton|lsolve]|lsame].
Qed.

(** [list_del] takes exactly its entry out, whatever its position, keeps every
    other list in memory as it is, and poisons the entry: deleting it again faults,
    where after [list_del_init] deleting again is harmless. *)
Theorem list_del_safe h head l1 e l2 other :
  ring h (head :: l1 ++ e :: l2) → ring h other → other ## head :: l1 ++ e :: l2 →
  hprev h !! LIST_POISON1 = None →
  wp (list_del e) (λ _ h', ring h' (head :: l1 ++ l2) ∧ ring h' other ∧
     list_del e h' = Fault LIST_POISON1) h ∧
  wp (list_del_init e ;; list_del_init e) (λ _ h', ring h' (head :: l1 ++ l2) ∧ ring h' other) h.
Proof.
  intros Hr Ho Hd Hp. assert (e ∈ head :: l1 ++ e :: l2) as Hin by set_solver. split.
  - eapply wp_mono; [by apply list_del_spec|]. intros [] h' (Hr' & Hn & Hpr & Hs).
    split; [done|]. split; [by eapply ring_frame|].
    assert (hprev h' !! LIST_POISON1 = None) as Hp'.
    { rewrite (proj2 (proj1 Hs LIST_POISON1 ltac:(intros Hin'; destruct (ring_valid _ _ _ Hr Hin') as [_ [? ?]]; congruence))).
      done. }
    unfold list_del, list_del_entry_, list_del_, list_del_entry_valid_, ld_prev, ld_next, st_prev.
    cbn [negb]. unfold mbind, M_bind. rewrite Hpr, Hn, Hp'. done.
  - eapply wp_bind_mono; [by apply list_del_init_spec|]. intros [] h1 (Hr1 & He & Hs).
    eapply wp_mono; [by apply list_del_init_alone|]. intros [] h2 (_ & Hs2).
    pose proof (ring_middle h (head :: l1) _ _ Hr : e ∉ head :: l1 ++ l2) as Hne.
    split; (eapply ring_frame; [|exact Hs2|]).
    + done.
    + intros x Hx ->%list_elem_of_singleton. done.
    + by eapply ring_frame.
    + intros x Hx ->%list_elem_of_singleton. by apply (Hd e).
Qed.

(** [list_cut_position] splits a list after the given entry and [list_splice]
    joins the parts again: cut and splice restore the list, in order. *)
Theorem list_cut_splice h list head l1 e l2 :
  ring h (head :: l1 ++ e :: l2) → valid h list → list ∉ head :: l1 ++ e :: l2 →
  wp (list_cut_position list head e) (λ _ h1,
    ring h1 (list :: l1 ++ [e]) ∧ ring h1 (head :: l2) ∧
    wp (list_splice list head) (λ _ h2, ring h2 (head :: l1 ++ e :: l2)) h1) h.
Proof.
  intros Hr Hv Hn. eapply wp_mono; [by apply list_cut_position_spec|].
  intros [] h1 [Hl Hh]. split; [done|]. split; [done|].
  eapply wp_mono; [apply (list_splice_spec _ _ _ _ _ Hl Hh)|].
  - destruct Hr as [Hnd _]. intros x Hx Hy.
    change (head :: l1 ++ e :: l2) with ([head] ++ l1 ++ [e] ++ l2) in Hnd, Hn.
    rewrite !NoDup_app in Hnd. rewrite !not_elem_of_app in Hn. set_solver.
  - intros [] h2 Hr2. by rewrite <- app_assoc in Hr2.
Qed.

(** One entry after the other to the tail. *)
Fixpoint move_all (xs : list Z) (head : Z) : M heap unit :=
  match xs with
  | [] => mret tt
  | x :: xs => list_move_tail x head ;; move_all xs head
  end.

Lemma move_all_ok h head l1 xs l2 :
  ring h (head :: l1 ++ xs ++ l2) →
  wp (move_all xs head) (λ _ h', ring h' (head :: l1 ++ l2 ++ xs)) h.
Proof.
  revert h l2. induction xs as [|x xs IH]; intros h l2 Hr; cbn [move_all app].
  - apply wp_ret. by rewrite app_nil_r.
  - eapply wp_bind_mono; [by apply (list_move_tail_spec h head l1 x (xs ++ l2))|].
    intros [] h1 Hr1. rewrite <- app_assoc in Hr1. eapply wp_mono; [by apply IH|].
    intros [] h2. by rewrite <- app_assoc.
Qed.

Lemma ring_det h h' l p :
  ring h l → ring h' l → p ∈ l → hnext h !! p = hnext h' !! p ∧ hprev h !! p = hprev h' !! p.
Proof.
  intros Hr Hr' [l1 [l2 ->]]%list_elem_of_split.
  apply ring_rotate in Hr, Hr'. simpl in *.
  by rewrite (ring_next _ _ _ Hr), (ring_next _ _ _ Hr'), (ring_prev _ _ _ Hr), (ring_prev _ _ _ Hr').
Qed.

(** [list_bulk_move_tail], which relinks a whole section with a fixed number of
    pointer writes, does what moving its entries one by one with [list_move_tail]
    does: every pointer of the list ends up the same. *)
Theorem list_bulk_move_tail_equiv h head l1 first s l2 :
  ring h (head :: l1 ++ (first :: s) ++ l2) →
  wp (list_bulk_move_tail head first (List.last s first)) (λ _ h1,
    ring h1 (head :: l1 ++ l2 ++ first :: s) ∧
    wp (move_all (first :: s) head) (λ _ h2,
      ∀ p, p ∈ head :: l1 ++ l2 ++ first :: s →
        hnext h1 !! p = hnext h2 !! p ∧ hprev h1 !! p = hprev h2 !! p) h) h.
Proof.
  intros Hr. eapply wp_mono; [by apply list_bulk_move_tail_spec|]. intros [] h1 Hr1.
  split; [done|]. eapply wp_mono; [by apply move_all_ok|]. intros [] h2 Hr2 p Hp.
  by eapply ring_det.
Qed.

(** ** Concrete lists *)

Definition ex_heap : heap :=
  circle [16; 32; 48; 64] (circle [160; 176] (foldr (λ p, circle [p]) (Heap ∅ ∅) [1024; 1040; 1056])).

Lemma list_fifo_witness :
  wp (INIT_LIST_HEAD 1024 ;; add_all 1024 [16; 1056; 1040] ;;
      fwd ← list_for_each 3 (λ p acc, acc ++ [p]) 1024 [];
      bwd ← list_for_each_reverse 3 (λ p acc, acc ++ [p]) 1024 [];
      n ← list_count_nodes 3 1024;
      mret (fwd, bwd, n))
    (λ r _, r = ([16; 1056; 1040], [1040; 1056; 16], 3)) ex_heap.
Proof. apply (list_fifo ex_heap 1024 [16; 1056; 1040] 3); [by_decide|by_decide|simpl; lia|done]. Defined.

Lemma list_del_safe_witness :
  wp (list_del 48) (λ _ h', ring h' [16; 32; 64] ∧ ring h' [160; 176] ∧
     list_del 48 h' = Fault LIST_POISON1) ex_heap.
Proof.
  refine (proj1 (list_del_safe _ 16 [32] 48 [64] [160; 176] _ _ _ _)).
  - by_decide.
  - by_decide.
  - by apply disjoint_check.
  - by vm_compute.
Defined.

Lemma list_cut_splice_witness :
  wp (list_cut_position 1024 16 48) (λ _ h1,
    ring h1 [1024; 32; 48] ∧ ring h1 [16; 64] ∧
    wp (list_splice 1024 16) (λ _ h2, ring h2 [16; 32; 48; 64]) h1) ex_heap.
Proof. apply (list_cut_splice ex_heap 1024 16 [32] 48 [64]); by_decide. Defined.

Lemma list_bulk_move_tail_equiv_witness :
  wp (list_bulk_move_tail 16 32 48) (λ _ h1,
    ring h1 [16; 64; 32; 48] ∧
    wp (move_all [32; 48] 16) (λ _ h2,
      ∀ p, p ∈ [16; 64; 32; 48] →
        hnext h1 !! p = hnext h2 !! p ∧ hprev h1 !! p = hprev h2 !! p) ex_heap) ex_heap.
Proof. apply (list_bulk_move_tail_equiv ex_heap 16 [] 32 [48] [64]). by_decide. Defined.
