(* ===== verification/Hlist.v ===== *)
(** * Lists with a single-pointer head (the [hlist] part of [libc/include/dsa/list.h])

    A node's [next] and a head's [first] are the same kind of cell, at the address of the
    node or head; [pprev] is the address of the cell that points to the node. *)

From S2P Require Import Prelude ListHead.

(* src/libc/include/dsa/list.h 45-51 hlist_node *)
Record hmem := HMem { fwd : gmap Z Z; pp : gmap Z Z }.

Definition ld_fwd (a : Z) : M hmem Z := λ m,
  match fwd m !! a with Some v => Ok (v, m) | None => Fault a end.
Definition st_fwd (a v : Z) : M hmem unit := λ m,
  match fwd m !! a with Some _ => Ok (tt, HMem (<[a := v]> (fwd m)) (pp m)) | None => Fault a end.
Definition ld_pp (p : Z) : M hmem Z := λ m,
  match pp m !! p with Some v => Ok (v, m) | None => Fault p end.
Definition st_pp (p v : Z) : M hmem unit := λ m,
  match pp m !! p with Some _ => Ok (tt, HMem (fwd m) (<[p := v]> (pp m))) | None => Fault p end.

(* src/libc/include/dsa/list.h 1037-1037 INIT_HLIST_HEAD *)
Definition INIT_HLIST_HEAD (h : Z) : M hmem unit := st_fwd h 0.

(* src/libc/include/dsa/list.h 1038-1041 INIT_HLIST_NODE *)
Definition INIT_HLIST_NODE (h : Z) : M hmem unit := st_fwd h 0 ;; st_pp h 0.

(* src/libc/include/dsa/list.h 1051-1053 hlist_unhashed *)
Definition hlist_unhashed (h : Z) : M hmem bool := v ← ld_pp h; mret (v =? 0).

(* src/libc/include/dsa/list.h 1063-1065 hlist_unhashed_lockless *)
Definition hlist_unhashed_lockless (h : Z) : M hmem bool := v ← ld_pp h; mret (v =? 0).

(* src/libc/include/dsa/list.h 1071-1073 hlist_empty *)
Definition hlist_empty (h : Z) : M hmem bool := v ← ld_fwd h; mret (v =? 0).

(* src/libc/include/dsa/list.h 1075-1083 __hlist_del *)
Definition hlist_del_ (n : Z) : M hmem unit :=
  next ← ld_fwd n;
  pprev ← ld_pp n;
  st_fwd pprev next ;;
  when (nz next) (st_pp next pprev).

(* src/libc/include/dsa/list.h 1092-1096 hlist_del *)
Definition hlist_del (n : Z) : M hmem unit :=
  hlist_del_ n ;;
  st_fwd n LIST_POISON1 ;;
  st_pp n LIST_POISON2.

(* src/libc/include/dsa/list.h 1104-1109 hlist_del_init *)
Definition hlist_del_init (n : Z) : M hmem unit :=
  u ← hlist_unhashed n;
  when (negb u) (hlist_del_ n ;; INIT_HLIST_NODE n).

(* src/libc/include/dsa/list.h 1119-1127 hlist_add_head *)
Definition hlist_add_head (n h : Z) : M hmem unit :=
  first ← ld_fwd h;
  st_fwd n first ;;
  when (nz first) (st_pp first n) ;;
  st_fwd h n ;;
  st_pp n h.

(* src/libc/include/dsa/list.h 1134-1140 hlist_add_before *)
Definition hlist_add_before (n next : Z) : M hmem unit :=
  pprev ← ld_pp next;
  st_pp n pprev ;;
  st_fwd n next ;;
  st_pp next n ;;
  np ← ld_pp n;
  st_fwd np n.

(* src/libc/include/dsa/list.h 1147-1156 hlist_add_behind *)
Definition hlist_add_behind (n prev : Z) : M hmem unit :=
  pn ← ld_fwd prev;
  st_fwd n pn ;;
  st_fwd prev n ;;
  st_pp n prev ;;
  nn ← ld_fwd n;
  when (nz nn) (st_pp nn n).

(* src/libc/include/dsa/list.h 1166-1168 hlist_add_fake *)
Definition hlist_add_fake (n : Z) : M hmem unit := st_pp n n.

(* src/libc/include/dsa/list.h 1174-1176 hlist_fake *)
Definition hlist_fake (h : Z) : M hmem bool := v ← ld_pp h; mret (v =? h).

(* src/libc/include/dsa/list.h 1186-1189 hlist_is_singular_node *)
Definition hlist_is_singular_node (n h : Z) : M hmem bool :=
  next ← ld_fwd n;
  if negb (next =? 0) then mret false else
  pprev ← ld_pp n;
  mret (pprev =? h).

(* src/libc/include/dsa/list.h 1199-1206 hlist_move_list *)
Definition hlist_move_list (old new : Z) : M hmem unit :=
  first ← ld_fwd old;
  st_fwd new first ;;
  nf ← ld_fwd new;
  when (nz nf) (st_pp nf new) ;;
  st_fwd old 0.

(* src/libc/include/dsa/list.h 1216-1226 hlist_splice_init *)
Definition hlist_splice_init (from last to : Z) : M hmem unit :=
  tf ← ld_fwd to;
  when (nz tf) (st_pp tf last) ;;
  tf ← ld_fwd to;
  st_fwd last tf ;;
  ff ← ld_fwd from;
  st_fwd to ff ;;
  ff ← ld_fwd from;
  st_pp ff to ;;
  st_fwd from 0.

(** [pos] and the nodes after it, at most [fuel] of them. *)
(* src/libc/include/dsa/list.h 1230-1231 hlist_for_each *)
Fixpoint hlist_for_each_from {A} (fuel : nat) (f : Z → A → A) (pos : Z) (acc : A) : M hmem A :=
  if pos =? 0 then mret acc else
  match fuel with
  | O => out_of_fuel
  | S fuel => next ← ld_fwd pos; hlist_for_each_from fuel f next (f pos acc)
  end.

(* src/libc/include/dsa/list.h 1296-1305 hlist_count_nodes *)
Definition hlist_count_nodes (fuel : nat) (head : Z) : M hmem Z :=
  first ← ld_fwd head;
  hlist_for_each_from fuel (λ _ count, u64 (count + 1)) first 0.

(** ** Lists in memory *)

(** Cell [a] starts the nodes [xs], each pointing back to the cell that points to it; the
    last one points to [b]. *)
Fixpoint pseg (m : hmem) (a : Z) (xs : list Z) (b : Z) : Prop :=
  match xs with
  | [] => fwd m !! a = Some b
  | x :: xs => fwd m !! a = Some x ∧ pp m !! x = Some a ∧ pseg m x xs b
  end.

(** The list of head [h] is [xs]: distinct nodes, none at address 0. *)
Definition hlist (m : hmem) (h : Z) (xs : list Z) : Prop :=
  NoDup (h :: xs) ∧ (0 ∉ h :: xs) ∧ pseg m h xs 0.

Definition cell (m : hmem) (p : Z) : Prop := is_Some (fwd m !! p) ∧ is_Some (pp m !! p).

#[export] Instance pseg_dec m a xs b : Decision (pseg m a xs b).
Proof. revert a. induction xs; intros; simpl; apply _. Defined.
#[export] Instance hlist_dec m h xs : Decision (hlist m h xs).
Proof. unfold hlist. apply _. Defined.
#[export] Instance cell_dec m p : Decision (cell m p).
Proof. unfold cell. apply _. Defined.

Lemma pseg_frame m m' a xs b :
  pseg m a xs b → (∀ p, p ∈ a :: xs → fwd m' !! p = fwd m !! p) → (∀ p, p ∈ xs → pp m' !! p = pp m !! p) →
  pseg m' a xs b.
Proof.
  revert a. induction xs as [|x xs IH]; intros a Hc Hf Hp; cbn [pseg] in *.
  - rewrite Hf by left. done.
  - destruct Hc as (H1 & H2 & H3). rewrite Hf, Hp by left. split; [done|]. split; [done|].
    apply IH; [done| |]; intros p Hin; [apply Hf|apply Hp]; by right.
Qed.

(** Changing cells that the segment does not use. *)
Lemma pseg_fwd m a xs b p v : pseg m a xs b → p ∉ a :: xs → pseg (HMem (<[p := v]> (fwd m)) (pp m)) a xs b.
Proof. intros Hc Hp. eapply pseg_frame; [done| |done]. intros q Hq. apply lookup_insert_ne. congruence. Qed.
Lemma pseg_pp m a xs b p v : pseg m a xs b → p ∉ xs → pseg (HMem (fwd m) (<[p := v]> (pp m))) a xs b.
Proof. intros Hc Hp. eapply pseg_frame; [done|done|]. intros q Hq. apply lookup_insert_ne. congruence. Qed.

Lemma last_cons (d x : Z) xs : List.last (x :: xs) d = List.last xs x.
Proof.
  revert d x. induction xs as [|y xs IH]; intros d x; [done|].
  change (List.last (y :: xs) d = List.last (y :: xs) x). by rewrite !IH.
Qed.

Lemma pseg_app m a xs x ys b :
  pseg m a (xs ++ x :: ys) b ↔ pseg m a xs x ∧ pp m !! x = Some (List.last xs a) ∧ pseg m x ys b.
Proof.
  revert a. induction xs as [|y xs IH]; intros a; [done|]. cbn [app pseg]. rewrite IH.
  rewrite last_cons. tauto.
Qed.

Lemma last_cell_in a (xs : list Z) : List.last xs a ∈ a :: xs.
Proof.
  destruct xs as [|x xs _] using rev_ind; [left|]. rewrite last_last. right. apply elem_of_app. right. left.
Qed.

Lemma last_cell_ne a (xs ys : list Z) n : n ∉ a :: xs ++ ys → List.last xs a ≠ n.
Proof.
  intros Hn <-. apply Hn. change (a :: xs ++ ys) with ((a :: xs) ++ ys). apply elem_of_app. left. apply last_cell_in.
Qed.

(** Redirecting the end of a segment. *)
Lemma pseg_set_last m a xs b c :
  NoDup (a :: xs) → pseg m a xs b → pseg (HMem (<[List.last xs a := c]> (fwd m)) (pp m)) a xs c.
Proof.
  revert a. induction xs as [|x xs IH]; intros a Hnd Hc; cbn [pseg] in *.
  - apply lookup_insert_eq.
  - destruct Hc as (H1 & H2 & H3). apply NoDup_cons in Hnd as [Ha Hnd].
    rewrite last_cons. cbn [fwd pp]. rewrite lookup_insert_ne.
    + split; [done|]. split; [done|]. by apply IH.
    + intros E. apply Ha. rewrite <- E. apply last_cell_in.
Qed.

Lemma pseg_cell m a xs b : pseg m a xs b → (∀ p, p ∈ a :: xs → is_Some (fwd m !! p)) ∧ (∀ p, p ∈ xs → cell m p).
Proof.
  revert a. induction xs as [|x xs IH]; intros a Hc; cbn [pseg] in Hc.
  - split; [|by intros p ?%elem_of_nil]. intros p ->%list_elem_of_singleton. rewrite Hc. eauto.
  - destruct Hc as (H1 & H2 & H3). destruct (IH x H3) as [I1 I2]. split.
    + intros p [->|Hp]%elem_of_cons; [rewrite H1; eauto|by apply I1].
    + intros p [->|Hp]%elem_of_cons; [split; [by apply I1; left|rewrite H2; eauto]|by apply I2].
Qed.

Lemma wp_ld_fwd a v (Q : Z → hmem → Prop) m : fwd m !! a = Some v → Q v m → wp (ld_fwd a) Q m.
Proof. unfold wp, ld_fwd. by intros ->. Qed.
Lemma wp_st_fwd a v (Q : unit → hmem → Prop) m :
  is_Some (fwd m !! a) → Q tt (HMem (<[a := v]> (fwd m)) (pp m)) → wp (st_fwd a v) Q m.
Proof. unfold wp, st_fwd. by intros [? ->]. Qed.
Lemma wp_ld_pp p v (Q : Z → hmem → Prop) m : pp m !! p = Some v → Q v m → wp (ld_pp p) Q m.
Proof. unfold wp, ld_pp. by intros ->. Qed.
Lemma wp_st_pp p v (Q : unit → hmem → Prop) m :
  is_Some (pp m !! p) → Q tt (HMem (fwd m) (<[p := v]> (pp m))) → wp (st_pp p v) Q m.
Proof. unfold wp, st_pp. by intros [? ->]. Qed.

Lemma hlist_add_head_spec m h xs n :
  hlist m h xs → cell m n → n ≠ 0 → n ∉ h :: xs →
  wp (hlist_add_head n h) (λ _ m', hlist m' h (n :: xs)) m.
Proof.
  intros (Hnd & H0 & Hc) [Hn1 Hn2] Hn0 Hnew. unfold hlist_add_head.
  destruct (pseg_cell _ _ _ _ Hc) as [Hcf Hcp].
  assert (fwd m !! h = Some (hd 0 xs)) as Hfirst by (destruct xs; [exact Hc|exact (proj1 Hc)]).
  apply not_elem_of_cons in Hnew as [Hnh Hnxs]. apply not_elem_of_cons in H0 as [Hh0 Hx0].
  apply wp_bind. eapply wp_ld_fwd; [exact Hfirst|]. apply wp_bind, wp_st_fwd; [done|].
  assert (pseg (HMem (<[n := hd 0 xs]> (fwd m)) (pp m)) h xs 0) as Hc1 by (apply pseg_fwd; [done|set_solver]).
  assert (NoDup (h :: n :: xs) ∧ (0 ∉ h :: n :: xs)) as [Hnd' H0'].
  { apply NoDup_cons in Hnd as [Hh Hnd]. split; [|set_solver].
    apply NoDup_cons. split; [set_solver|]. by apply NoDup_cons. }
  destruct xs as [|x xs]; cbn [hd] in *.
  - apply wp_bind, wp_ret. apply wp_bind, wp_st_fwd; [cbn; rewrite lookup_insert_ne by done; eauto|].
    apply wp_st_pp; [done|]. split; [done|]. split; [done|]. cbn.
    rewrite lookup_insert_eq, lookup_insert_eq, lookup_insert_ne, lookup_insert_eq by done. done.
  - apply NoDup_cons in Hnd as [Hh Hnd].
    assert (nz x = true) as ->. { unfold nz. rewrite (proj2 (Z.eqb_neq x 0)) by set_solver. done. }
    cbn [when]. apply wp_bind, wp_st_pp; [by apply Hcp; left|].
    apply wp_bind, wp_st_fwd; [cbn; rewrite lookup_insert_ne by done; eauto|].
    apply wp_st_pp; [cbn; rewrite lookup_insert_ne by set_solver; done|].
    split; [done|]. split; [done|]. destruct Hc as (E1 & E2 & E3). cbn [pseg fwd pp].
    split; [apply lookup_insert_eq|]. split; [apply lookup_insert_eq|].
    rewrite lookup_insert_ne, lookup_insert_eq by done. split; [done|].
    rewrite lookup_insert_ne, lookup_insert_eq by set_solver. split; [done|].
    apply NoDup_cons in Hnd as [Hx Hnd].
    eapply pseg_frame; [exact E3| |]; intros p Hp; cbn [fwd pp]; rewrite !lookup_insert_ne; set_solver.
Qed.

(** A segment followed by the rest of the list [l2], pointing back to its last cell. *)
Lemma pseg_join m a l1 l2 b :
  pseg m a l1 (hd b l2) → (∀ y ys, l2 = y :: ys → pp m !! y = Some (List.last l1 a) ∧ pseg m y ys b) →
  pseg m a (l1 ++ l2) b.
Proof.
  intros H1 H2. destruct l2 as [|y ys]; [by rewrite app_nil_r|].
  apply pseg_app. split; [exact H1|]. by apply (H2 y ys).
Qed.

Lemma nz_true x : x ≠ 0 → nz x = true.
Proof. intros Hx. unfold nz. by rewrite (proj2 (Z.eqb_neq x 0)). Qed.

(** The facts about a node in the middle of a list. *)
Lemma hlist_middle m h l1 n l2 :
  hlist m h (l1 ++ n :: l2) →
  n ≠ 0 ∧ (n ∉ h :: l1 ++ l2) ∧ NoDup (h :: l1 ++ l2) ∧ (0 ∉ h :: l1 ++ l2) ∧ cell m n ∧
  (∀ x, x ∈ h :: l1 → x ∉ l2) ∧
  pseg m h l1 n ∧ pp m !! n = Some (List.last l1 h) ∧ pseg m n l2 0.
Proof.
  intros (Hnd & H0 & Hc). destruct (pseg_cell _ _ _ _ Hc) as [_ Hcell].
  pose proof (Hcell n ltac:(apply elem_of_app; right; left)) as Hn. apply pseg_app in Hc as (? & ? & ?).
  assert (Permutation (h :: l1 ++ n :: l2) (n :: h :: l1 ++ l2)) as Hperm by solve_Permutation.
  rewrite Hperm in Hnd, H0. apply NoDup_cons in Hnd as [Hn' Hnd]. apply not_elem_of_cons in H0 as [H0n H0].
  split_and!; try done; try congruence.
  intros x Hx Hx2. change (h :: l1 ++ l2) with ((h :: l1) ++ l2) in Hnd. apply NoDup_app in Hnd as (_ & Hd & _).
  by apply (Hd x).
Qed.

Lemma hlist_del_spec_ m h l1 n l2 :
  hlist m h (l1 ++ n :: l2) →
  wp (hlist_del_ n) (λ _ m', hlist m' h (l1 ++ l2) ∧ cell m' n ∧
    (∀ p, p ∉ h :: l1 → fwd m' !! p = fwd m !! p) ∧ (∀ p, p ∉ l2 → pp m' !! p = pp m !! p)) m.
Proof.
  intros Hl. destruct (hlist_middle _ _ _ _ _ Hl) as (Hn0 & Hn & Hnd & H0 & [Hnf Hnp] & Hd & H1 & Hpp & H2).
  unfold hlist_del_. assert (fwd m !! n = Some (hd 0 l2)) as Hnext by (destruct l2; [exact H2|exact (proj1 H2)]).
  apply wp_bind. eapply wp_ld_fwd; [exact Hnext|]. apply wp_bind. eapply wp_ld_pp; [exact Hpp|].
  pose proof (last_cell_in h l1) as Hlast. destruct (pseg_cell _ _ _ _ H1) as [Hc1 _].
  assert (NoDup (h :: l1)) as Hnd1.
  { change (h :: l1 ++ l2) with ((h :: l1) ++ l2) in Hnd. by apply NoDup_app in Hnd as (? & _). }
  apply wp_bind, wp_st_fwd; [by apply Hc1|].
  pose proof (pseg_set_last m h l1 n (hd 0 l2) Hnd1 H1) as H1'.
  pose proof (last_cell_ne h l1 l2 n Hn) as Hne.
  destruct l2 as [|y ys]; cbn [hd] in *.
  - apply wp_ret. split_and!; cbn [fwd pp].
    + by rewrite app_nil_r in *.
    + split; cbn; [by rewrite lookup_insert_ne|done].
    + intros p Hp. rewrite lookup_insert_ne; [done|]. intros <-. done.
    + done.
  - destruct H2 as (E1 & E2 & E3). assert (y ≠ 0) as Hy0 by set_solver. rewrite nz_true by done. cbn [when].
    apply wp_st_pp; [cbn; rewrite E2; eauto|].
    assert (y ∉ ys) as Hyys.
    { change (h :: l1 ++ y :: ys) with ((h :: l1) ++ y :: ys) in Hnd. apply NoDup_app in Hnd as (_ & _ & Hnd2).
      by apply NoDup_cons in Hnd2 as [? _]. }
    split_and!; cbn [fwd pp].
    + split; [done|]. split; [done|]. apply pseg_app. split_and!.
      * apply (pseg_pp (HMem _ _)); [exact H1'|]. intros Hy. apply (Hd y); set_solver.
      * cbn. apply lookup_insert_eq.
      * eapply pseg_frame; [exact E3| |]; intros p Hp; cbn [fwd pp]; apply lookup_insert_ne.
        -- intros E. apply (Hd (List.last l1 h)); [done|]. by rewrite E.
        -- intros <-. done.
    + split; cbn; [by rewrite lookup_insert_ne|]. rewrite lookup_insert_ne by set_solver. done.
    + intros p Hp. rewrite lookup_insert_ne; [done|]. intros <-. done.
    + intros p Hp. rewrite lookup_insert_ne; [done|]. intros <-. set_solver.
Qed.

Lemma hlist_del_init_spec m h l1 n l2 :
  h ≠ 0 → hlist m h (l1 ++ n :: l2) →
  wp (hlist_del_init n) (λ _ m', hlist m' h (l1 ++ l2) ∧ fwd m' !! n = Some 0 ∧ pp m' !! n = Some 0) m.
Proof.
  intros Hh0 Hl. destruct (hlist_middle _ _ _ _ _ Hl) as (Hn0 & Hn & _ & H0 & _ & _ & _ & Hpp & _).
  unfold hlist_del_init, hlist_unhashed. apply wp_bind, wp_bind. eapply wp_ld_pp; [exact Hpp|]. apply wp_ret.
  rewrite (proj2 (Z.eqb_neq (List.last l1 h) 0)) by (by eapply last_cell_ne). cbn [negb when].
  eapply wp_bind_mono; [by apply hlist_del_spec_|]. intros [] m1 ((Hnd & H01 & Hc) & [Hf Hp] & _).
  apply wp_bind, wp_st_fwd; [done|]. apply wp_st_pp; [done|].
  split; [|cbn; by rewrite !lookup_insert_eq]. split; [done|]. split; [done|].
  apply (pseg_pp (HMem _ _)); [apply pseg_fwd; [done|]|]; set_solver.
Qed.

(** On lists with a single-pointer head, [hlist_del] removes exactly its node,
    whatever its position and without being told the head, and poisons it. *)
Theorem hlist_del_correct m h l1 n l2 :
  hlist m h (l1 ++ n :: l2) →
  wp (hlist_del n) (λ _ m', hlist m' h (l1 ++ l2) ∧
    fwd m' !! n = Some LIST_POISON1 ∧ pp m' !! n = Some LIST_POISON2 ∧
    (∀ p, p ∉ n :: h :: l1 → fwd m' !! p = fwd m !! p) ∧ (∀ p, p ∉ n :: l2 → pp m' !! p = pp m !! p)) m.
Proof.
  intros Hl. destruct (hlist_middle _ _ _ _ _ Hl) as (Hn0 & Hn & _ & _ & _ & _ & _ & _ & _).
  unfold hlist_del. eapply wp_bind_mono; [by apply hlist_del_spec_|].
  intros [] m1 ((Hnd & H01 & Hc) & [Hf Hp] & Hff & Hfp).
  apply wp_bind, wp_st_fwd; [done|]. apply wp_st_pp; [done|]. cbn. rewrite !lookup_insert_eq.
  split_and!; [|done|done| |].
  - split; [done|]. split; [done|]. apply (pseg_pp (HMem _ _)); [apply pseg_fwd; [done|]|]; set_solver.
  - intros p Hp'. rewrite lookup_insert_ne by set_solver. apply Hff. set_solver.
  - intros p Hp'. rewrite lookup_insert_ne by set_solver. apply Hfp. set_solver.
Qed.

(** [hlist_del_init] undoes [hlist_add_head]: the list is what it was and the node
    is unhashed; deleting it once more changes nothing. *)
Theorem hlist_add_del m h xs n :
  hlist m h xs → cell m n → n ≠ 0 → n ∉ h :: xs →
  wp (hlist_add_head n h) (λ _ m1, hlist m1 h (n :: xs) ∧
    wp (hlist_del_init n ;; u ← hlist_unhashed n; hlist_del_init n ;; mret u)
      (λ u m2, u = true ∧ hlist m2 h xs) m1) m.
Proof.
  intros Hl Hc Hn0 Hn. pose proof Hl as (_ & H0 & _).
  eapply wp_mono; [by apply hlist_add_head_spec|]. intros [] m1 Hl1. split; [done|].
  eapply wp_bind_mono; [apply (hlist_del_init_spec m1 h [] n xs); [set_solver|done]|].
  intros [] m2 (Hl2 & _ & Hpp). cbn [app] in Hl2.
  assert (hlist_unhashed n m2 = Ok (true, m2)) as E.
  { unfold hlist_unhashed. erewrite M_bind_Ok by (unfold ld_pp; by rewrite Hpp). done. }
  apply wp_bind. eapply wp_intro; [exact E|]. apply wp_bind. eapply wp_intro; [|by apply wp_ret].
  unfold hlist_del_init. by rewrite (M_bind_Ok _ _ _ _ _ E).
Qed.

(** ** A concrete list *)

(** Head 16 with nodes 32, 48, 64, and an unhashed node 80. *)
Definition ex_hmem : hmem := HMem
  (list_to_map [(16, 32); (32, 48); (48, 64); (64, 0); (80, 0)]) (list_to_map [(32, 16); (48, 32); (64, 48); (80, 0)]).

Lemma hlist_del_correct_witness :
  wp (hlist_del 48) (λ _ m', hlist m' 16 [32; 64] ∧ fwd m' !! 48 = Some LIST_POISON1 ∧ pp m' !! 48 = Some LIST_POISON2 ∧
    (∀ p, p ∉ [48; 16; 32] → fwd m' !! p = fwd ex_hmem !! p) ∧ (∀ p, p ∉ [48; 64] → pp m' !! p = pp ex_hmem !! p)) ex_hmem.
Proof. apply (hlist_del_correct ex_hmem 16 [32] 48 [64]). by_decide. Defined.

Lemma hlist_add_del_witness :
  wp (hlist_add_head 80 16) (λ _ m1, hlist m1 16 [80; 32; 48; 64] ∧
    wp (hlist_del_init 80 ;; u ← hlist_unhashed 80; hlist_del_init 80 ;; mret u)
      (λ u m2, u = true ∧ hlist m2 16 [32; 48; 64]) m1) ex_hmem.
Proof. apply (hlist_add_del ex_hmem 16 [32; 48; 64] 80); by_decide. Defined.
