(* ===== verification/Mm.v ===== *)
(** * Machine state and the boot-time allocator ([mm/kheap.c], [mm/mm.c])

    The processor state the memory code touches (the control registers, the
    interrupt flag, the TLB) and physical memory, as 64-bit words by physical
    address.  The kernel reaches physical memory through two windows: the
    higher-half direct map and the kernel image, whose positions the boot
    protocol reports; they are the fields of [BootInfo].  A pointer dereference
    goes to the word [virt_to_phys] gives. *)

From S2P Require Import Prelude.

(* src/asm/mm.h 18-24 hhdm_offset *)
Class BootInfo := {
  hhdm_offset : Z;
  kernel_virt_base : Z;
  kernel_phys_base : Z;
}.

(** A cached translation: the 4 KiB frame and the effective rights. *)
Record perms := Perms { p_write : bool; p_user : bool; p_nx : bool; p_global : bool }.

#[export] Instance perms_eq_dec : EqDecision perms.
Proof. solve_decision. Defined.

Record machine := Machine {
  m_mem : gmap Z Z;                (* physical memory, 8-byte words *)
  m_placement : Z;                 (* placement_address *)
  m_cr3 : Z;
  m_cr4 : Z;
  m_if : bool;                     (* RFLAGS.IF *)
  m_tlb : gmap Z (Z * perms);      (* page address -> frame, rights *)
}.

Definition set_mem (f : gmap Z Z → gmap Z Z) (s : machine) : machine :=
  Machine (f (m_mem s)) (m_placement s) (m_cr3 s) (m_cr4 s) (m_if s) (m_tlb s).
Definition set_placement (x : Z) (s : machine) : machine :=
  Machine (m_mem s) x (m_cr3 s) (m_cr4 s) (m_if s) (m_tlb s).
Definition set_cr3 (x : Z) (s : machine) : machine :=
  Machine (m_mem s) (m_placement s) x (m_cr4 s) (m_if s) (m_tlb s).
Definition set_cr4 (x : Z) (s : machine) : machine :=
  Machine (m_mem s) (m_placement s) (m_cr3 s) x (m_if s) (m_tlb s).
Definition set_if (b : bool) (s : machine) : machine :=
  Machine (m_mem s) (m_placement s) (m_cr3 s) (m_cr4 s) b (m_tlb s).
Definition set_tlb (f : gmap Z (Z * perms) → gmap Z (Z * perms)) (s : machine) : machine :=
  Machine (m_mem s) (m_placement s) (m_cr3 s) (m_cr4 s) (m_if s) (f (m_tlb s)).

(** A word of physical memory; memory never written reads as zero. *)
Definition rd (m : gmap Z Z) (a : Z) : Z := default 0 (m !! a).

Section mm.
Context `{BI : BootInfo}.

(* src/mm/mm.c 6-17 virt_to_phys *)
Definition virt_to_phys (addr : Z) : Z :=
  if kernel_virt_base <=? addr then u64 (u64 (addr - kernel_virt_base) + kernel_phys_base)
  else u64 (addr - hhdm_offset).

(* src/mm/mm.c 19-25 phys_to_virt *)
Definition phys_to_virt (addr : Z) : Z := u64 (addr + hhdm_offset).

(** 64-bit loads and stores through a kernel pointer. *)
Definition ld64 (p : Z) : M machine Z := gets (λ s, rd (m_mem s) (virt_to_phys p)).
Definition st64 (p v : Z) : M machine unit := modify (set_mem <[virt_to_phys p := v]>).

(** [memset(p, 0, 8 * n)] on an 8-byte aligned buffer. *)
Fixpoint memset0_words (p : Z) (n : nat) : M machine unit :=
  match n with
  | O => mret tt
  | S n => st64 p 0 ;; memset0_words (p + 8) n
  end.

(* src/mm/kheap.c 9-18 kmalloc_a *)
Definition kmalloc_a (sz : Z) : M machine Z :=
  pa ← gets m_placement;
  when (nz (pa .& 0xFFF)) (modify (set_placement (u64 ((pa .& unot 64 0xFFF) + 0x1000)))) ;;
  ret ← gets m_placement;
  modify (λ s, set_placement (u64 (m_placement s + sz)) s) ;;
  mret ret.

(* src/mm/kheap.c 35-39 kmalloc *)
Definition kmalloc (sz : Z) : M machine Z :=
  ret ← gets m_placement;
  modify (λ s, set_placement (u64 (m_placement s + sz)) s) ;;
  mret ret.

(* src/mm/kheap.c 20-23 kmalloc_p *)
Definition kmalloc_p (sz : Z) : M machine (Z * Z) :=
  phys ← gets m_placement;
  ret ← kmalloc sz;
  mret (ret, phys).

(* src/mm/kheap.c 25-33 kmalloc_ap *)
Definition kmalloc_ap (sz : Z) : M machine (Z * Z) :=
  pa ← gets m_placement;
  when (nz (pa .& 0xFFF)) (modify (set_placement (u64 ((pa .& unot 64 0xFFF) + 0x1000)))) ;;
  phys ← gets m_placement;
  ret ← kmalloc sz;
  mret (ret, phys).

(* src/mm/kheap.c 41-46 kmalloc_az *)
Definition kmalloc_az (sz : Z) : M machine Z :=
  ret ← kmalloc_a sz;
  memset0_words ret (Z.to_nat (sz / 8)) ;;
  mret ret.

(** ** The allocator's contract *)

Definition page_up (x : Z) : Z := (x + 0xFFF) / 0x1000 * 0x1000.

Lemma page_up_spec x : x ≤ page_up x < x + 0x1000 ∧ page_up x mod 0x1000 = 0.
Proof.
  unfold page_up. pose proof (Z.div_mod (x + 0xFFF) 0x1000 ltac:(lia)).
  pose proof (Z.mod_pos_bound (x + 0xFFF) 0x1000 ltac:(lia)).
  split; [lia|]. apply Z.mod_mul. lia.
Qed.

Lemma land_FFF x : x .& 0xFFF = x mod 0x1000.
Proof. change 0xFFF with (Z.ones 12). by rewrite Z.land_ones. Qed.

(** [x & ~0xFFF] rounds a 64-bit value down to a page boundary. *)
Lemma land_not_FFF x : 0 ≤ x < 2 ^ 64 → x .& unot 64 0xFFF = x / 0x1000 * 0x1000.
Proof.
  intros Hx. by apply (land_unot_ones 64 x 12).
Qed.

(** The address [kmalloc_a] rounds up to before allocating. *)
Lemma align_placement pa :
  0 ≤ pa → page_up pa < 2 ^ 64 →
  (if nz (pa .& 0xFFF) then u64 ((pa .& unot 64 0xFFF) + 0x1000) else pa) = page_up pa.
Proof.
  intros H0 Hb. pose proof (page_up_spec pa) as [Hup _].
  rewrite land_FFF, land_not_FFF by lia. unfold nz, page_up in *.
  pose proof (Z.div_mod pa 0x1000 ltac:(lia)). pose proof (Z.mod_pos_bound pa 0x1000 ltac:(lia)).
  destruct (Z.eqb_spec (pa mod 0x1000) 0) as [E|E]; simpl.
  - assert ((pa + 0xFFF) / 0x1000 = pa / 0x1000) as ->; [|lia].
    symmetry. apply (Z.div_unique _ _ _ 0xFFF); lia.
  - assert ((pa + 0xFFF) / 0x1000 = pa / 0x1000 + 1) as Hq.
    { symmetry. apply (Z.div_unique _ _ _ (pa mod 0x1000 - 1)); lia. }
    rewrite Hq in *. rewrite wrap_small; lia.
Qed.

Lemma kmalloc_a_spec s sz :
  0 ≤ m_placement s → 0 ≤ sz → page_up (m_placement s) + sz < 2 ^ 64 →
  kmalloc_a sz s =
    Ok (page_up (m_placement s), set_placement (page_up (m_placement s) + sz) s).
Proof.
  intros H0 Hsz Hb. unfold kmalloc_a, when, gets, modify, mbind, M_bind, mret, M_ret.
  pose proof (align_placement (m_placement s) H0 ltac:(lia)) as Ha.
  pose proof (page_up_spec (m_placement s)) as [Hup _].
  destruct (nz (m_placement s .& 0xFFF)); simpl.
  - by rewrite Ha, wrap_small by lia.
  - rewrite <- Ha in *. by rewrite wrap_small by lia.
Qed.

Lemma kmalloc_spec s sz :
  0 ≤ m_placement s → 0 ≤ sz → m_placement s + sz < 2 ^ 64 →
  kmalloc sz s = Ok (m_placement s, set_placement (m_placement s + sz) s).
Proof.
  intros. unfold kmalloc, gets, modify, mbind, M_bind, mret, M_ret.
  by rewrite wrap_small by lia.
Qed.

(** ** The two windows onto physical memory *)

Lemma virt_phys_hhdm a :
  0 ≤ a → 0 ≤ hhdm_offset → a + hhdm_offset < kernel_virt_base → kernel_virt_base < 2 ^ 64 →
  virt_to_phys (phys_to_virt a) = a.
Proof.
  intros. unfold virt_to_phys, phys_to_virt.
  rewrite (wrap_small 64 (a + hhdm_offset)) by lia.
  rewrite (proj2 (Z.leb_gt _ _)) by lia.
  rewrite wrap_small; lia.
Qed.

End mm.
