(* ===== verification/Paging64.v ===== *)
(** * Four-level paging ([arch/x86_64/memory/paging.c], [paging.h])

    The kernel's page-table code, as computations over the machine state of
    [Mm], and the processor's own table walk ([translate]), which the theorems
    compare it with. *)

From S2P Require Import Prelude Mm.

Definition PAGE_SIZE : Z := 4096.
(* src/arch/x86_64/memory/paging.h 30-31 PAGE_PRESENT *)
Definition PAGE_PRESENT : Z := 1 .<< 0.
(* src/arch/x86_64/memory/paging.h 32-32 PAGE_WRITE *)
Definition PAGE_WRITE : Z := 1 .<< 1.
(* src/arch/x86_64/memory/paging.h 33-33 PAGE_USER *)
Definition PAGE_USER : Z := 1 .<< 2.
(* src/arch/x86_64/memory/paging.h 38-41 PAGE_PS *)
Definition PAGE_PS : Z := 1 .<< 7.
Abbreviation PAGE_GLOBAL := (1 .<< 8)%Z.
Abbreviation PAGE_NX := (1 .<< 63)%Z.
Abbreviation CR4_PGE := (1 .<< 7)%Z.
(* src/arch/x86_64/memory/paging.h 48-52 PAGE_FRAME_MASK *)
Definition PAGE_FRAME_MASK : Z := 0x000FFFFFFFFFF000.
(* src/asm/paging.h 36-41 PAGE_GET_ADDR *)
Definition PAGE_GET_ADDR (entry : Z) : Z := entry .& PAGE_FRAME_MASK.

(* src/arch/x86_64/memory/paging.h 169-170 PML4_INDEX *)
Definition PML4_INDEX (vaddr : Z) : Z := (vaddr .>> 39) .& 0x1FF.
(* src/arch/x86_64/memory/paging.h 171-171 PDPT_INDEX *)
Definition PDPT_INDEX (vaddr : Z) : Z := (vaddr .>> 30) .& 0x1FF.
(* src/arch/x86_64/memory/paging.h 172-172 PD_INDEX *)
Definition PD_INDEX (vaddr : Z) : Z := (vaddr .>> 21) .& 0x1FF.
(* src/arch/x86_64/memory/paging.h 173-173 PT_INDEX *)
Definition PT_INDEX (vaddr : Z) : Z := (vaddr .>> 12) .& 0x1FF.

(** ** The processor *)

(* src/arch/x86_64/memory/paging.h 184-187 invalidate_page *)
Definition invalidate_page (vaddr : Z) : M machine unit :=
  modify (set_tlb (delete (vaddr / PAGE_SIZE * PAGE_SIZE))).

(* src/arch/x86_64/memory/paging.h 189-194 read_cr3 *)
Definition read_cr3 : M machine Z := gets m_cr3.

(* src/arch/x86_64/memory/paging.h 196-201 read_cr4 *)
Definition read_cr4 : M machine Z := gets m_cr4.

(* src/arch/x86_64/memory/paging.h 203-211 cr3_to_pml4_addr *)
Definition cr3_to_pml4_addr (cr3 : Z) : Z := cr3 .& PAGE_FRAME_MASK.

(** Loading CR3 drops every cached translation that is not global. *)
(* src/arch/x86_64/memory/paging.h 213-220 write_cr3 *)
Definition write_cr3 (cr3 : Z) : M machine unit :=
  modify (λ s, set_cr3 cr3 (set_tlb (filter (λ kv, p_global kv.2.2 = true)) s)).

(** Changing CR4.PGE drops every cached translation. *)
(* src/arch/x86_64/memory/paging.h 222-224 write_cr4 *)
Definition write_cr4 (cr4 : Z) : M machine unit :=
  modify (λ s,
    let s' := if bool_decide (Z.testbit cr4 7 = Z.testbit (m_cr4 s) 7) then s
              else set_tlb (λ _, ∅) s in
    set_cr4 cr4 s').

(* src/arch/x86_64/memory/paging.h 226-241 flush_tlb_all *)
Definition flush_tlb_all : M machine unit :=
  cr4 ← read_cr4;
  if nz (cr4 .& CR4_PGE) then
    write_cr4 (cr4 .& unot 64 CR4_PGE) ;;
    write_cr4 cr4
  else
    cr3 ← read_cr3;
    write_cr3 cr3.

(** ** The page-table operations *)

Section ops.
Context `{BI : BootInfo}.

Fixpoint fill_table (table base step flags : Z) (i : Z) (n : nat) : M machine unit :=
  match n with
  | O => mret tt
  | S n =>
      st64 (u64 (table + 8 * i)) (u64 (base + i * step) .| flags) ;;
      fill_table table base step flags (i + 1) n
  end.

(* src/arch/x86_64/memory/paging.c 23-64 split_huge_entry *)
Definition split_huge_entry (huge step : Z) : M machine Z :=
  let flags := huge .& unot 64 PAGE_FRAME_MASK in
  let base := PAGE_GET_ADDR huge .& unot 64 (step * 512 - 1) in
  let flags := if step =? PAGE_SIZE then flags .& unot 64 PAGE_PS else flags in
  table ← kmalloc_az PAGE_SIZE;
  fill_table table base step flags 0 512 ;;
  mret (virt_to_phys table).

(** One level of the walk: the entry at [entry_p] is followed to the table one
    level down, which is created when it is missing and [create] is set.  The
    three levels run the same code but for the huge-page check, which the top
    level does not have ([split = None]); the other two give the page size of
    the level below. *)
(* src/arch/x86_64/memory/paging.c 102-127 get_page_entry *)
Definition next_table (split : option Z) (entry_p : Z) (create : bool) (cr3 : Z)
    : M machine (option Z) :=
  e ← ld64 entry_p;
  if negb (nz (e .& PAGE_PRESENT)) then
    if negb create then mret None else
    tbl ← kmalloc_az PAGE_SIZE;
    st64 entry_p (virt_to_phys tbl .| PAGE_PRESENT .| PAGE_WRITE) ;;
    mret (Some tbl)
  else
    match split with
    | Some step =>
        when (nz (e .& PAGE_PS))
          (split ← split_huge_entry e step;
           e ← ld64 entry_p;
           st64 entry_p (split .| PAGE_PRESENT .| PAGE_WRITE .|
                         (e .& (PAGE_USER .| PAGE_NX))) ;;
           cur ← read_cr3;
           when (cr3 =? cur) flush_tlb_all)
    | None => mret tt
    end ;;
    e ← ld64 entry_p;
    mret (Some (phys_to_virt (PAGE_GET_ADDR e))).

(** Address of [table->entries[i]]. *)
Definition entry_at (table i : Z) : Z := u64 (table + 8 * i).

(* src/arch/x86_64/memory/paging.c 66-161 get_page_entry *)
Definition get_page_entry (vaddr : Z) (create : bool) (cr3 : Z) : M machine (option Z) :=
  let pml4 := phys_to_virt (PAGE_GET_ADDR cr3) in
  pud ← next_table None (entry_at pml4 (PML4_INDEX vaddr)) create cr3;
  match pud with
  | None => mret None
  | Some pud =>
      pd ← next_table (Some 0x200000) (entry_at pud (PDPT_INDEX vaddr)) create cr3;
      match pd with
      | None => mret None
      | Some pd =>
          pt ← next_table (Some PAGE_SIZE) (entry_at pd (PD_INDEX vaddr)) create cr3;
          match pt with
          | None => mret None
          | Some pt => mret (Some (entry_at pt (PT_INDEX vaddr)))
          end
      end
  end.

(* src/arch/x86_64/memory/paging.c 163-198 map_page *)
Definition map_page (virt_addr phys_addr : Z) (iskernel writeable : bool) (cr3 : Z)
    : M machine unit :=
  let virt_addr := virt_addr .& unot 64 0xFFF in
  let phys_addr := phys_addr .& unot 64 0xFFF in
  pte ← get_page_entry virt_addr true cr3;
  match pte with
  | None => mret tt
  | Some pte =>
      st64 pte (phys_addr .| PAGE_PRESENT) ;;
      when writeable (e ← ld64 pte; st64 pte (e .| PAGE_WRITE)) ;;
      when (negb iskernel) (e ← ld64 pte; st64 pte (e .| PAGE_USER)) ;;
      invalidate_page virt_addr
  end.

Fixpoint map_range_loop (fuel : nat) (phys_it stop : Z) (iskernel writeable : bool) (cr3 : Z)
    : M machine unit :=
  if negb (phys_it <? stop) then mret tt else
  match fuel with
  | O => out_of_fuel
  | S fuel =>
      let virt := phys_to_virt phys_it in
      pte ← get_page_entry virt false cr3;
      mapped ← match pte with
               | None => mret false
               | Some pte => e ← ld64 pte; mret (nz (e .& PAGE_PRESENT))
               end;
      when (negb mapped) (map_page virt phys_it iskernel writeable cr3) ;;
      map_range_loop fuel (u64 (phys_it + 0x1000)) stop iskernel writeable cr3
  end.

(** The number of pages the loop visits is known beforehand: it is the fuel. *)
(* src/arch/x86_64/memory/paging.c 200-234 map_physical_range *)
Definition map_physical_range (phys_addr size : Z) (iskernel writeable : bool) (cr3 : Z)
    : M machine unit :=
  let start := phys_addr .& unot 64 0xFFF in
  let stop := u64 (phys_addr + size + 0xFFF) .& unot 64 0xFFF in
  map_range_loop (Z.to_nat ((stop - start) / 0x1000)) start stop iskernel writeable cr3.

(* src/arch/x86_64/memory/paging.c 236-264 unmap_page *)
Definition unmap_page (addr pml4_addr : Z) : M machine Z :=
  let addr := addr .& unot 64 0xFFF in
  pte ← get_page_entry addr false pml4_addr;
  match pte with
  | None => mret 0
  | Some pte =>
      e ← ld64 pte;
      if negb (nz (e .& PAGE_PRESENT)) then mret 0 else
      let frame := PAGE_GET_ADDR e in
      st64 pte 0 ;;
      cur ← read_cr3;
      when (pml4_addr =? cr3_to_pml4_addr cur) (invalidate_page addr) ;;
      mret frame
  end.

End ops.

(** ** The processor's walk

    Levels are numbered by the table the entry is in: 3 for the PML4, 0 for a
    page table. *)

Definition index (k : nat) (v : Z) : Z :=
  match k with
  | 0%nat => PT_INDEX v
  | 1%nat => PD_INDEX v
  | 2%nat => PDPT_INDEX v
  | _ => PML4_INDEX v
  end.

(** Bytes one entry of level [k] maps, as a power of two. *)
Definition level_bits (k : nat) : Z := 12 + 9 * Z.of_nat k.

Definition present (e : Z) : bool := Z.testbit e 0.

(** A present entry leads to a table unless it has PS set at a level that allows
    huge pages. *)
Definition is_table (k : nat) (e : Z) : bool :=
  present e && negb ((k <? 3)%nat && Z.testbit e 7).

(** Rights accumulate along the walk: writable and user where every level says
    so, no-execute where one does; the global bit counts in the last entry. *)
Definition restrict (p : perms) (e : Z) : perms :=
  Perms (p_write p && Z.testbit e 1) (p_user p && Z.testbit e 2)
        (p_nx p || Z.testbit e 63) (Z.testbit e 8).

(** The 4 KiB frame a leaf entry of level [k] gives for [v]. *)
Definition leaf_frame (k : nat) (e v : Z) : Z :=
  PAGE_GET_ADDR e / 2 ^ level_bits k * 2 ^ level_bits k +
  v mod 2 ^ level_bits k / 0x1000 * 0x1000.

Fixpoint walk (m : gmap Z Z) (k : nat) (t v : Z) (acc : perms) : option (Z * perms) :=
  let e := rd m (t + 8 * index k v) in
  if negb (present e) then None else
  match k with
  | O => Some (leaf_frame 0 e v, restrict acc e)
  | S k' =>
      if is_table k e then walk m k' (PAGE_GET_ADDR e) v (restrict acc e)
      else Some (leaf_frame k e v, restrict acc e)
  end.

(** Frame and effective rights of the page of [v] under the tables at [root]. *)
Definition translate (m : gmap Z Z) (root v : Z) : option (Z * perms) :=
  walk m 3 root v (Perms true true false false).
