(* ===== verification/PagingWalk.v ===== *)
(** * Page-table trees

    The tables a walk visits ([trail]), the invariant that the tables reachable
    from a root form a tree that avoids the free part of the heap ([pt_wf]), and
    what editing one entry of such a tree does to every translation. *)

From S2P Require Import Prelude Mm Paging64.

(** The tables the walk for [v] goes through, with their levels, from the table
    [t] of level [k] down. *)
Fixpoint trail (m : gmap Z Z) (k : nat) (t v : Z) : list (nat * Z) :=
  (k, t) ::
  match k with
  | O => []
  | S k' =>
      let e := rd m (t + 8 * index k v) in
      if is_table k e then trail m k' (PAGE_GET_ADDR e) v else []
  end.

(** [v] and [v'] take the same entry at every level from [k] up. *)
Definition agree (k : nat) (v v' : Z) : Prop :=
  ∀ j, (k ≤ j ≤ 3)%nat → index j v = index j v'.

(** The tables under [root] are page aligned, lie outside the free heap
    [lo, hi), inside the direct map (up to [lim]), and form a tree: a table is reached at one level
    and through one sequence of entries only. *)
Record pt_wf (m : gmap Z Z) (root lo hi lim : Z) : Prop := {
  wf_place v j t :
    (j, t) ∈ trail m 3 root v →
    t mod 0x1000 = 0 ∧ 0 ≤ t ∧ t + 0x1000 ≤ lim ∧ (t + 0x1000 ≤ lo ∨ hi ≤ t);
  wf_tree v v' j j' t :
    (j, t) ∈ trail m 3 root v → (j', t) ∈ trail m 3 root v' → j = j' ∧ agree (S j) v v';
}.

Lemma index_bound k v : 0 ≤ index k v < 512.
Proof.
  assert (∀ x, 0 ≤ x .& 0x1FF < 512) as H.
  { intros x. pose proof (land_bound_r x 0x1FF). lia. }
  destruct k as [|[|[|]]]; apply H.
Qed.

Lemma trail_self m k t v : (k, t) ∈ trail m k t v.
Proof. destruct k; simpl; set_solver. Qed.

Lemma trail_level m k t v j t' : (j, t') ∈ trail m k t v → (j ≤ k)%nat.
Proof.
  revert t. induction k as [|k IH]; intros t; simpl.
  - intros [[= -> ->]|[]%elem_of_nil]%elem_of_cons. lia.
  - intros [[= -> ->]|H]%elem_of_cons; [lia|].
    destruct is_table; [apply IH in H; lia | by apply elem_of_nil in H].
Qed.

Lemma trail_flat m k t v :
  ((0 < k)%nat → is_table k (rd m (t + 8 * index k v)) = false) → trail m k t v = [(k, t)].
Proof. intros H. destruct k; [done|]. cbn [trail]. by rewrite H by lia. Qed.

(** Only the entries on its trail determine a walk. *)
Lemma walk_ext m m' k t v acc :
  (∀ j t', (j, t') ∈ trail m k t v →
     rd m' (t' + 8 * index j v) = rd m (t' + 8 * index j v)) →
  trail m' k t v = trail m k t v ∧ walk m' k t v acc = walk m k t v acc.
Proof.
  revert t acc. induction k as [|k IH]; intros t acc H.
  - cbn [trail walk]. by rewrite (H 0%nat t) by apply trail_self.
  - pose proof (H (S k) t (trail_self _ _ _ _)) as He. cbn [trail walk] in *. rewrite He.
    destruct (is_table (S k) _) eqn:E; [|done].
    destruct (IH (PAGE_GET_ADDR (rd m (t + 8 * index (S k) v)))
                 (restrict acc (rd m (t + 8 * index (S k) v)))) as [H1 H2].
    { intros j t' Hj. apply H. by right. }
    by rewrite H1, H2.
Qed.

(** A walk that reaches the table [t] of level [j] continues from there; an edit
    below does not affect how it gets there. *)
Lemma trail_cut m m' k0 t0 v j t acc :
  (j, t) ∈ trail m k0 t0 v →
  (∀ i t', (i, t') ∈ trail m k0 t0 v → (j < i)%nat →
     rd m' (t' + 8 * index i v) = rd m (t' + 8 * index i v)) →
  ∃ acc' pre,
    walk m k0 t0 v acc = walk m j t v acc' ∧ walk m' k0 t0 v acc = walk m' j t v acc' ∧
    trail m k0 t0 v = pre ++ trail m j t v ∧ trail m' k0 t0 v = pre ++ trail m' j t v ∧
    ∀ i t', (i, t') ∈ pre → (j < i)%nat.
Proof.
  revert t0 acc. induction k0 as [|k IH]; intros t0 acc Hin Hext.
  - simpl in Hin. apply elem_of_cons in Hin as [[= -> ->]|[]%elem_of_nil].
    exists acc, []. split_and!; try done. by intros ?? ?%elem_of_nil.
  - destruct (decide (j = S k)) as [->|Hne].
    { assert (t = t0) as ->.
      { simpl in Hin. apply elem_of_cons in Hin as [[= ->]|Hin]; [done|].
        destruct is_table; [apply trail_level in Hin; lia | by apply elem_of_nil in Hin]. }
      exists acc, []. split_and!; try done. by intros ?? ?%elem_of_nil. }
    pose proof (trail_level _ _ _ _ _ _ Hin) as Hlev.
    pose proof (Hext (S k) t0 (trail_self _ _ _ _) ltac:(lia)) as He.
    cbn [trail] in Hin. apply elem_of_cons in Hin as [[= ? ?]|Hin]; [lia|].
    destruct (is_table (S k) (rd m (t0 + 8 * index (S k) v))) eqn:E;
      [|by apply elem_of_nil in Hin].
    destruct (IH _ (restrict acc (rd m (t0 + 8 * index (S k) v))) Hin)
      as (acc' & pre & H1 & H2 & H3 & H4 & H5).
    { intros i t' Hi. apply Hext. cbn [trail]. rewrite E. by right. }
    assert (present (rd m (t0 + 8 * index (S k) v)) = true) as Hp.
    { unfold is_table in E. by bprop. }
    exists acc', ((S k, t0) :: pre). cbn [walk trail]. rewrite !He, E, Hp. cbn [negb].
    split_and!; try done.
    + cbn [app]. by rewrite H3.
    + cbn [app]. by rewrite H4.
    + intros i t' [[= -> ->]|?]%elem_of_cons; [lia | eauto].
Qed.

(** Following a table entry stays on the trail. *)
Lemma trail_descend m root v k t :
  (S k, t) ∈ trail m 3 root v → is_table (S k) (rd m (t + 8 * index (S k) v)) = true →
  (k, PAGE_GET_ADDR (rd m (t + 8 * index (S k) v))) ∈ trail m 3 root v.
Proof.
  intros Hin He.
  destruct (trail_cut m m 3 root v (S k) t (Perms true true false false) Hin)
    as (_ & pre & _ & _ & -> & _ & _); [done|].
  apply elem_of_app. right. cbn [trail]. rewrite He. right. apply trail_self.
Qed.

Lemma walk_absent m k t v acc :
  present (rd m (t + 8 * index k v)) = false → walk m k t v acc = None.
Proof. intros H. destruct k; cbn [walk]; by rewrite H. Qed.

Lemma walk_leaf m k t v acc :
  present (rd m (t + 8 * index k v)) = true →
  ((0 < k)%nat → is_table k (rd m (t + 8 * index k v)) = false) →
  walk m k t v acc =
    Some (leaf_frame k (rd m (t + 8 * index k v)) v, restrict acc (rd m (t + 8 * index k v))).
Proof. intros H1 H2. destruct k; cbn [walk]; rewrite H1; [done|]. by rewrite H2 by lia. Qed.

(** A walk that meets an absent entry translates nothing. *)
Lemma trail_absent m root v k t :
  (k, t) ∈ trail m 3 root v → present (rd m (t + 8 * index k v)) = false →
  translate m root v = None.
Proof.
  intros Hin He.
  destruct (trail_cut m m 3 root v k t (Perms true true false false) Hin)
    as (acc & pre & Hw & _); [done|].
  unfold translate. rewrite Hw. by apply walk_absent.
Qed.

(** Entries of distinct tables, or distinct entries of one, do not overlap. *)
Lemma entry_inj t t' i i' :
  t mod 0x1000 = 0 → t' mod 0x1000 = 0 → 0 ≤ i < 512 → 0 ≤ i' < 512 →
  t + 8 * i = t' + 8 * i' → t = t' ∧ i = i'.
Proof.
  intros Ht Ht' Hi Hi' E.
  apply Z.mod_divide in Ht as [a ->], Ht' as [b ->]; [|lia..]. lia.
Qed.

Section edit.
Context (m m' : gmap Z Z) (root lo hi lim : Z).
Context (Hwf : pt_wf m root lo hi lim).
Context (v : Z) (k : nat) (t : Z).
Context (Hin : (k, t) ∈ trail m 3 root v).
Abbreviation x := (t + 8 * index k v).
Context (f : Z).
(* [m'] differs from [m] at the entry [x] and inside the fresh page [f] only *)
Context (Hsame : ∀ a, a ≠ x → ¬ (f ≤ a < f + 0x1000) → rd m' a = rd m a).
Context (Hf : f mod 0x1000 = 0) (Hlo : lo ≤ f) (Hhi : f + 0x1000 ≤ hi).

Lemma edit_other v' j t' :
  (j, t') ∈ trail m 3 root v' →
  ((j, t') = (k, t) → index k v' ≠ index k v) →
  rd m' (t' + 8 * index j v') = rd m (t' + 8 * index j v').
Proof using Hwf Hin Hsame Hf Hlo Hhi.
  intros Hj Hne. pose proof (wf_place _ _ _ _ _ Hwf _ _ _ Hj) as (Ha & H0 & _ & Hp).
  pose proof (wf_place _ _ _ _ _ Hwf _ _ _ Hin) as (Ha' & _ & _ & _).
  pose proof (index_bound j v'). pose proof (index_bound k v).
  apply Hsame; [|lia].
  intros E. apply entry_inj in E as [-> Ei]; [|done..].
  destruct (wf_tree _ _ _ _ _ Hwf _ _ _ _ _ Hj Hin) as [-> _].
  by apply Hne.
Qed.

(** An address whose walk does not take the edited entry is translated as before. *)
Lemma edit_elsewhere v' :
  ¬ ((k, t) ∈ trail m 3 root v' ∧ index k v' = index k v) →
  trail m' 3 root v' = trail m 3 root v' ∧ translate m' root v' = translate m root v'.
Proof using Hwf Hin Hsame Hf Hlo Hhi.
  intros Hno. apply walk_ext. intros j t' Hj. apply edit_other; [done|].
  intros [= -> ->] Hi. by apply Hno.
Qed.

(** Otherwise both walks get to the table [t], with the same rights. *)
Lemma edit_here v' :
  (k, t) ∈ trail m 3 root v' → index k v' = index k v →
  ∃ acc pre,
    translate m root v' = walk m k t v' acc ∧ translate m' root v' = walk m' k t v' acc ∧
    trail m 3 root v' = pre ++ trail m k t v' ∧ trail m' 3 root v' = pre ++ trail m' k t v' ∧
    ∀ i t', (i, t') ∈ pre → (k < i)%nat.
Proof using Hwf Hin Hsame Hf Hlo Hhi.
  intros Hk Hi. apply trail_cut; [done|].
  intros i t' Hit Hlt. apply edit_other; [done|]. intros [= -> ->]. lia.
Qed.
End edit.

Lemma agree_step k v v' :
  agree (S k) v v' → index k v = index k v' → agree k v v'.
Proof.
  intros Ha Hi j Hj. destruct (decide (j = k)) as [->|]; [done|]. apply Ha. lia.
Qed.

Lemma agree_sym k v v' : agree k v v' → agree k v' v.
Proof. intros Ha j Hj. symmetry. by apply Ha. Qed.

Lemma agree_trans k v1 v2 v3 : agree k v1 v2 → agree k v2 v3 → agree k v1 v3.
Proof. intros H1 H2 j Hj. rewrite H1 by done. by apply H2. Qed.

(** ** Hanging a fresh table below an entry

    The entry [x] was absent or a huge page; it is replaced by a pointer to the
    fresh table [f], whose entries lead to no table and translate what [x] did. *)
Section grow.
Context (m m' : gmap Z Z) (root lo hi lim : Z).
Context (Hwf : pt_wf m root lo hi lim).
Context (v : Z) (k : nat) (t : Z).
Context (Hin : (S k, t) ∈ trail m 3 root v).
Abbreviation x := (t + 8 * index (S k) v).
Context (f : Z).
Context (Hsame : ∀ a, a ≠ x → ¬ (f ≤ a < f + 0x1000) → rd m' a = rd m a).
Context (Hf : f mod 0x1000 = 0) (Hf0 : 0 ≤ f) (Hlo : lo ≤ f) (Hhi : f + 0x1000 ≤ hi).
Context (Hlim : hi ≤ lim).
Context (Hleaf : is_table (S k) (rd m x) = false).
Context (Htab : is_table (S k) (rd m' x) = true) (Haddr : PAGE_GET_ADDR (rd m' x) = f).
Context (Hflat : ∀ w, (0 < k)%nat → is_table k (rd m' (f + 8 * index k w)) = false).
Context (Hwalk : ∀ w acc, index (S k) w = index (S k) v →
           walk m' k f w (restrict acc (rd m' x)) = walk m (S k) t w acc).

Abbreviation takes w := ((S k, t) ∈ trail m 3 root w ∧ index (S k) w = index (S k) v).

Lemma takes_dec w : takes w ∨ ¬ takes w.
Proof.
  destruct (decide ((S k, t) ∈ trail m 3 root w)), (decide (index (S k) w = index (S k) v));
    tauto.
Qed.

Lemma grow_here w :
  index (S k) w = index (S k) v →
  trail m (S k) t w = [(S k, t)] ∧ trail m' (S k) t w = [(S k, t); (k, f)].
Proof using Hleaf Htab Haddr Hflat.
  intros Hi. cbn [trail]. rewrite Hi, Hleaf, Htab, Haddr. split; [done|].
  by rewrite trail_flat by auto.
Qed.

Lemma grow_trail w :
  trail m' 3 root w = trail m 3 root w ++ (if decide (takes w) then [(k, f)] else []).
Proof using Hwf Hin Hsame Hf Hlo Hhi Hleaf Htab Haddr Hflat.
  destruct (decide (takes w)) as [[Hw Hi]|Hn].
  - destruct (edit_here _ _ _ _ _ _ Hwf _ _ _ Hin _ Hsame Hf Hlo Hhi w Hw Hi)
      as (acc & pre & _ & _ & -> & -> & _).
    destruct (grow_here w Hi) as [-> ->]. by rewrite <- app_assoc.
  - destruct (edit_elsewhere _ _ _ _ _ _ Hwf _ _ _ Hin _ Hsame Hf Hlo Hhi w Hn) as [-> _].
    by rewrite app_nil_r.
Qed.

Lemma grow_translate w : translate m' root w = translate m root w.
Proof using Hwf Hin Hsame Hf Hlo Hhi Htab Haddr Hwalk.
  destruct (takes_dec w) as [[Hw Hi]|Hn].
  - destruct (edit_here _ _ _ _ _ _ Hwf _ _ _ Hin _ Hsame Hf Hlo Hhi w Hw Hi)
      as (acc & pre & -> & -> & _).
    rewrite <- Hwalk by done. cbn [walk].
    assert (present (rd m' x) = true) as Hp by (unfold is_table in Htab; by bprop).
    by rewrite Hi, Hp, Htab, Haddr.
  - by apply (edit_elsewhere _ _ _ _ _ _ Hwf _ _ _ Hin _ Hsame Hf Hlo Hhi w Hn).
Qed.

Lemma grow_in : (k, f) ∈ trail m' 3 root v.
Proof using Hwf Hin Hsame Hf Hlo Hhi Hleaf Htab Haddr Hflat.
  rewrite grow_trail. rewrite decide_True by done.
  apply elem_of_app. right. by left.
Qed.

Lemma grow_fresh j w : (j, f) ∈ trail m 3 root w → False.
Proof using Hwf Hlo Hhi.
  intros H%(wf_place _ _ _ _ _ Hwf). lia.
Qed.

(** What a member of a new trail is. *)
Lemma grow_elem j t' w :
  (j, t') ∈ trail m' 3 root w →
  ((j, t') ∈ trail m 3 root w ∧ t' ≠ f) ∨ (j = k ∧ t' = f ∧ takes w).
Proof using Hwf Hin Hsame Hf Hlo Hhi Hleaf Htab Haddr Hflat.
  rewrite grow_trail. intros [H|H]%elem_of_app.
  - left. split; [done|]. intros ->. by eapply grow_fresh.
  - case_decide as Ht; [|by apply elem_of_nil in H].
    apply list_elem_of_singleton in H as [= -> ->]. by right.
Qed.

Lemma grow_wf lo' : f + 0x1000 ≤ lo' → lo ≤ lo' → pt_wf m' root lo' hi lim.
Proof using Hwf Hin Hsame Hf Hf0 Hlo Hhi Hlim Hleaf Htab Haddr Hflat.
  intros Hlo' Hmono. split.
  - intros w j t' [[H _]|(-> & -> & _)]%grow_elem; [|lia].
    apply (wf_place _ _ _ _ _ Hwf) in H. lia.
  - intros w w' j j' t' [[H1 N1]|(-> & -> & [T1 I1])]%grow_elem
                         [[H2 N2]|(-> & E2 & [T2 I2])]%grow_elem; try done.
    + by eapply (wf_tree _ _ _ _ _ Hwf).
    + split; [done|].
      destruct (wf_tree _ _ _ _ _ Hwf _ _ _ _ _ T1 T2) as [_ Ha].
      apply agree_step; [done|]. congruence.
Qed.
End grow.

(** ** Pages and indices *)

(** The virtual page number, as far as the walk looks at it (bits 47-12). *)
Definition page_no (v : Z) : Z := v / 0x1000 mod 2 ^ 36.

Lemma index_div k v : (k ≤ 3)%nat → index k v = v / 2 ^ level_bits k mod 512.
Proof.
  intros Hk. change 512 with (2 ^ 9). rewrite <- Z.land_ones, <- Z.shiftr_div_pow2; [|unfold level_bits; lia..].
  destruct k as [|[|[|[|]]]]; [done..|lia].
Qed.

Lemma agree_page v w : agree 0 v w ↔ page_no v = page_no w.
Proof.
  assert (∀ u, page_no u = index 0 u + 512 * (index 1 u + 512 * (index 2 u + 512 * index 3 u))) as Hp.
  { intros u. rewrite !index_div by lia. unfold page_no.
    change (2 ^ level_bits 0) with 0x1000. change (2 ^ level_bits 1) with (2 ^ 21).
    change (2 ^ level_bits 2) with (2 ^ 30). change (2 ^ level_bits 3) with (2 ^ 39).
    set (y := u / 0x1000).
    replace (u / 2 ^ 21) with (y / 512) by (unfold y; rewrite Z.div_div by lia; done).
    replace (u / 2 ^ 30) with (y / 512 / 512) by (unfold y; rewrite !Z.div_div by lia; done).
    replace (u / 2 ^ 39) with (y / 512 / 512 / 512) by (unfold y; rewrite !Z.div_div by lia; done).
    change (2 ^ 36) with (512 * (512 * (512 * 512))). rewrite !Z.rem_mul_r by lia.
    lia. }
  split.
  - intros Ha. rewrite !Hp. rewrite !Ha by lia. done.
  - intros E. rewrite !Hp in E.
    pose proof (index_bound 0 v). pose proof (index_bound 1 v). pose proof (index_bound 2 v).
    pose proof (index_bound 3 v). pose proof (index_bound 0 w). pose proof (index_bound 1 w).
    pose proof (index_bound 2 w). pose proof (index_bound 3 w).
    intros j Hj. destruct j as [|[|[|[|]]]]; lia.
Qed.

Lemma trail_agree m k t v w :
  (k ≤ 3)%nat → agree 0 v w → trail m k t v = trail m k t w.
Proof.
  intros Hk Ha. revert t. induction k as [|k IH]; intros t; [done|].
  cbn [trail]. rewrite (Ha (S k)) by lia. destruct is_table; [|done]. by rewrite IH by lia.
Qed.

Lemma trail_reach_agree m root lo hi lim v w t :
  pt_wf m root lo hi lim → (0%nat, t) ∈ trail m 3 root v →
  ((0%nat, t) ∈ trail m 3 root w ∧ index 0 w = index 0 v) ↔ page_no v = page_no w.
Proof.
  intros Hwf Hin. rewrite <- agree_page. split.
  - intros [Hw Hi]. destruct (wf_tree _ _ _ _ _ Hwf _ _ _ _ _ Hin Hw) as [_ Ha].
    by apply agree_step.
  - intros Ha. rewrite <- (trail_agree _ _ _ v) by done. split; [done|]. symmetry. apply Ha. lia.
Qed.

(** Rights accumulated by the entries above the page table. *)
Fixpoint rights (m : gmap Z Z) (k : nat) (t v : Z) (acc : perms) : perms :=
  match k with
  | O => acc
  | S k' =>
      let e := rd m (t + 8 * index k v) in
      if is_table k e then rights m k' (PAGE_GET_ADDR e) v (restrict acc e) else acc
  end.

Definition rights_above (m : gmap Z Z) (root v : Z) : perms :=
  rights m 3 root v (Perms true true false false).

Lemma walk_rights m k t v acc t' :
  (0%nat, t') ∈ trail m k t v → walk m k t v acc = walk m 0 t' v (rights m k t v acc).
Proof.
  revert t acc. induction k as [|k IH]; intros t acc.
  - intros [[= ->]|[]%elem_of_nil]%elem_of_cons. done.
  - cbn [trail]. intros [[= ?]|H]%elem_of_cons.
    destruct (is_table (S k) _) eqn:E; [|by apply elem_of_nil in H].
    cbn [walk rights]. rewrite E. unfold is_table in E. bprop.
    rewrite H0. cbn [negb]. by apply IH.
Qed.

Lemma rights_ext m m' k t v acc :
  (∀ j t', (j, t') ∈ trail m k t v → (0 < j)%nat →
     rd m' (t' + 8 * index j v) = rd m (t' + 8 * index j v)) →
  rights m' k t v acc = rights m k t v acc.
Proof.
  revert t acc. induction k as [|k IH]; intros t acc H; [done|].
  cbn [trail rights] in *. rewrite (H (S k) t) by (try lia; by left).
  destruct (is_table (S k) _); [|done]. apply IH. intros j t' Hj. apply H. by right.
Qed.

(** ** Rewriting the last entry

    An entry of a page table changes the translations of its own page only. *)
Section leaf.
Context (m : gmap Z Z) (root lo hi lim : Z).
Context (Hwf : pt_wf m root lo hi lim).
Context (v t : Z) (Hin : (0%nat, t) ∈ trail m 3 root v) (e : Z).
Abbreviation x := (t + 8 * index 0 v).
Abbreviation m' := (<[x := e]> m).

Lemma rd_insert_ne (mm : gmap Z Z) a b y : a ≠ b → rd (<[b := y]> mm) a = rd mm a.
Proof. intros. unfold rd. by rewrite lookup_insert_ne. Qed.

Lemma rd_insert_eq (mm : gmap Z Z) b y : rd (<[b := y]> mm) b = y.
Proof. unfold rd. by rewrite lookup_insert_eq. Qed.

Lemma leaf_other w i t' :
  (i, t') ∈ trail m 3 root w → ((i, t') = (0%nat, t) → index 0 w ≠ index 0 v) →
  rd m' (t' + 8 * index i w) = rd m (t' + 8 * index i w).
Proof using Hwf Hin.
  intros Hit Hne. apply rd_insert_ne.
  pose proof (wf_place _ _ _ _ _ Hwf _ _ _ Hit) as (Ha & _).
  pose proof (wf_place _ _ _ _ _ Hwf _ _ _ Hin) as (Ha' & _).
  intros E. apply entry_inj in E as [-> Ei]; [|done|done|apply index_bound..].
  destruct (wf_tree _ _ _ _ _ Hwf _ _ _ _ _ Hit Hin) as [-> _]. by apply Hne.
Qed.

Lemma leaf_trail w : trail m' 3 root w = trail m 3 root w.
Proof using Hwf Hin.
  destruct (decide ((0%nat, t) ∈ trail m 3 root w ∧ index 0 w = index 0 v)) as [[Hw Hi]|Hn].
  - destruct (trail_cut m m' 3 root w 0 t (Perms true true false false) Hw)
      as (acc & pre & _ & _ & -> & -> & _); [|done].
    intros i t' Hit Hlt. apply leaf_other; [done|]. intros [= -> ->]. lia.
  - apply (walk_ext _ _ _ _ _ (Perms true true false false)).
    intros i t' Hit. apply leaf_other; [done|]. intros [= -> ->] Hi. by apply Hn.
Qed.

Lemma leaf_wf : pt_wf m' root lo hi lim.
Proof using Hwf Hin.
  split; intros *; rewrite !leaf_trail; apply Hwf.
Qed.

Lemma leaf_translate_other w :
  page_no v ≠ page_no w → translate m' root w = translate m root w.
Proof using Hwf Hin.
  intros Hn. apply walk_ext. intros i t' Hit. apply leaf_other; [done|].
  intros [= -> ->] Hi. apply Hn, (trail_reach_agree _ _ _ _ _ _ _ _ Hwf Hin). done.
Qed.

Lemma leaf_rights w : rights_above m' root w = rights_above m root w.
Proof using Hwf Hin.
  apply rights_ext. intros i t' Hit Hi. apply leaf_other; [done|]. intros [= -> ->]. lia.
Qed.

Lemma leaf_translate_same w :
  page_no v = page_no w →
  translate m' root w =
    if present e then Some (leaf_frame 0 e w, restrict (rights_above m root w) e) else None.
Proof using Hwf Hin.
  intros E. apply (trail_reach_agree _ _ _ _ _ _ _ _ Hwf Hin) in E as [Hw Hi].
  unfold translate. rewrite (walk_rights _ _ _ _ _ t) by (by rewrite leaf_trail).
  cbn [walk]. rewrite Hi, rd_insert_eq. fold (rights_above m' root w).
  rewrite leaf_rights. by destruct (present e).
Qed.
End leaf.

Lemma leaf_frame_0 e v : leaf_frame 0 e v = PAGE_GET_ADDR e.
Proof.
  unfold leaf_frame, PAGE_GET_ADDR, PAGE_FRAME_MASK. change (level_bits 0) with 12.
  rewrite (Z.div_small (v mod 2 ^ 12)) by (apply Z.mod_pos_bound; lia).
  rewrite <- ldiff_ones_div by lia. rewrite Z.mul_0_l, Z.add_0_r.
  change 0xFFFFFFFFFF000 with (Z.ldiff (Z.ones 52) (Z.ones 12)).
  apply Z.bits_inj'. intros i Hi. rewrite Z.ldiff_spec, !Z.land_spec, !Z.ldiff_spec.
  by destruct (Z.testbit e i), (Z.testbit (Z.ones 52) i), (Z.testbit (Z.ones 12) i).
Qed.
