(* ===== verification/PagingSpec.v ===== *)
(** * Correctness of the four-level paging code

    What [get_page_entry], [map_page], [map_physical_range] and [unmap_page] do
    to the translation of every virtual address, on every tree of page tables
    that satisfies [pt_wf]. *)

From S2P Require Import Prelude Mm Paging64 PagingWalk.
From Stdlib Require Import Btauto.

(** What the boot protocol guarantees about its two windows: the direct map is
    page aligned, starts in the higher half and lies below the kernel image. *)
Class BootOk (BI : BootInfo) : Prop := {
  boot_hhdm : 2 ^ 64 - 2 ^ 47 ≤ hhdm_offset;
  boot_hhdm_aligned : hhdm_offset mod 0x1000 = 0;
  boot_image : hhdm_offset < kernel_virt_base < 2 ^ 64;
}.

(** Size of the direct map. *)
Definition dm_size `{BootInfo} : Z := kernel_virt_base - hhdm_offset.

(** Where the boot protocol usually puts them. *)
Definition ex_boot : BootInfo :=
  {| hhdm_offset := 0xffff800000000000; kernel_virt_base := 0xffffffff80000000;
     kernel_phys_base := 0x200000 |}.

Lemma ex_boot_ok : BootOk ex_boot.
Proof. by split; vm_compute. Qed.

(** ** Entries, bit by bit *)

Lemma get_addr_arith e : 0 ≤ e → PAGE_GET_ADDR e = e mod 2 ^ 52 / 0x1000 * 0x1000.
Proof.
  intros He. unfold PAGE_GET_ADDR, PAGE_FRAME_MASK.
  change 0x1000 with (2 ^ 12). rewrite <- ldiff_ones_div, <- Z.land_ones by lia.
  change 0xFFFFFFFFFF000 with (Z.ldiff (Z.ones 52) (Z.ones 12)).
  apply Z.bits_inj'. intros i Hi. rewrite Z.ldiff_spec, !Z.land_spec, !Z.ldiff_spec.
  by rewrite andb_assoc.
Qed.

Lemma get_addr_aligned A : A mod 0x1000 = 0 → 0 ≤ A < 2 ^ 52 → PAGE_GET_ADDR A = A.
Proof.
  intros Ha Hb. rewrite get_addr_arith by lia. rewrite Z.mod_small by lia.
  pose proof (Z.div_mod A 0x1000 ltac:(lia)). lia.
Qed.

Lemma get_addr_spec e :
  0 ≤ e → PAGE_GET_ADDR e mod 0x1000 = 0 ∧ 0 ≤ PAGE_GET_ADDR e < 2 ^ 52.
Proof.
  intros He. rewrite get_addr_arith by done. split; [apply Z.mod_mul; lia|].
  pose proof (Z.mod_pos_bound e (2 ^ 52) ltac:(lia)).
  pose proof (Z.div_mod (e mod 2 ^ 52) 0x1000 ltac:(lia)).
  pose proof (Z.mod_pos_bound (e mod 2 ^ 52) 0x1000 ltac:(lia)). lia.
Qed.

(** A frame address or-ed with flag bits. *)
Lemma entry_addr A F :
  A mod 0x1000 = 0 → 0 ≤ A < 2 ^ 52 → F .& PAGE_FRAME_MASK = 0 → PAGE_GET_ADDR (A .| F) = A.
Proof.
  intros Ha Hb HF. unfold PAGE_GET_ADDR. rewrite Z.land_lor_distr_l, HF, Z.lor_0_r.
  by apply get_addr_aligned.
Qed.

Lemma aligned_testbit A i : A mod 0x1000 = 0 → 0 ≤ A < 2 ^ 52 → i < 12 ∨ 52 ≤ i → Z.testbit A i = false.
Proof.
  intros Ha Hb [Hi|Hi]; [|by apply (testbit_high 52)].
  apply Z.mod_divide in Ha as [q ->]; [|lia]. change 0x1000 with (2 ^ 12).
  destruct (Z.lt_ge_cases i 0); [by apply Z.testbit_neg_r | by apply Z.mul_pow2_bits_low].
Qed.

Lemma entry_testbit A F i :
  A mod 0x1000 = 0 → 0 ≤ A < 2 ^ 52 → i < 12 ∨ 52 ≤ i → Z.testbit (A .| F) i = Z.testbit F i.
Proof. intros. by rewrite Z.lor_spec, aligned_testbit. Qed.

Lemma nz_present e : nz (e .& PAGE_PRESENT) = present e.
Proof. by apply (land_testbit_pow2 e 0). Qed.

Lemma nz_ps e : nz (e .& PAGE_PS) = Z.testbit e 7.
Proof. by apply (land_testbit_pow2 e 7). Qed.

(** The bits an entry's rights and kind depend on. *)
Definition flag_bits : list Z := [0; 1; 2; 7; 8; 63].

Lemma flag_bits_range i : i ∈ flag_bits → 0 ≤ i ∧ (i < 12 ∨ 52 ≤ i < 64).
Proof. unfold flag_bits. set_unfold. lia. Qed.

Ltac flag_bit := solve [unfold flag_bits; repeat constructor].

(** ** The fresh table of a split huge page *)

Section split_entries.
Context (e : Z) (He : 0 ≤ e < 2 ^ 64) (k : nat) (Hk : (k ≤ 1)%nat).

Definition split_step : Z := 2 ^ level_bits k.
Definition split_base : Z := PAGE_GET_ADDR e .& unot 64 (split_step * 512 - 1).
Definition split_flags : Z :=
  let flags := e .& unot 64 PAGE_FRAME_MASK in
  if split_step =? PAGE_SIZE then flags .& unot 64 PAGE_PS else flags.
Definition split_entry (i : Z) : Z := u64 (split_base + i * split_step) .| split_flags.

Lemma split_step_bits : split_step * 512 = 2 ^ level_bits (S k).
Proof using Hk. unfold split_step. destruct k as [|[|]]; [done|done|lia]. Qed.

Lemma split_base_eq :
  split_base = PAGE_GET_ADDR e / 2 ^ level_bits (S k) * 2 ^ level_bits (S k).
Proof using He Hk.
  unfold split_base. rewrite split_step_bits. apply land_unot_ones.
  - unfold level_bits. lia.
  - pose proof (get_addr_spec e). lia.
Qed.

Lemma split_frame_ok i :
  0 ≤ i < 512 →
  0 ≤ split_base + i * split_step < 2 ^ 52 ∧ (split_base + i * split_step) mod 0x1000 = 0.
Proof using He Hk.
  intros Hi. rewrite split_base_eq. pose proof (get_addr_spec e ltac:(lia)) as [_ Hb].
  unfold split_step.
  assert (k = 0%nat ∨ k = 1%nat) as [-> | ->] by lia.
  - change (2 ^ level_bits 1) with (2 ^ 21). change (2 ^ level_bits 0) with (2 ^ 12).
    pose proof (Z.div_lt_upper_bound (PAGE_GET_ADDR e) (2 ^ 21) (2 ^ 31) ltac:(lia) ltac:(lia)).
    pose proof (Z.div_pos (PAGE_GET_ADDR e) (2 ^ 21)).
    split; [lia|]. replace (_ + _) with ((PAGE_GET_ADDR e / 2 ^ 21 * 2 ^ 9 + i) * 0x1000) by lia.
    by apply Z.mod_mul.
  - change (2 ^ level_bits 2) with (2 ^ 30). change (2 ^ level_bits 1) with (2 ^ 21).
    pose proof (Z.div_lt_upper_bound (PAGE_GET_ADDR e) (2 ^ 30) (2 ^ 22) ltac:(lia) ltac:(lia)).
    pose proof (Z.div_pos (PAGE_GET_ADDR e) (2 ^ 30)).
    split; [lia|].
    replace (_ + _) with ((PAGE_GET_ADDR e / 2 ^ 30 * 2 ^ 18 + i * 2 ^ 9) * 0x1000) by lia.
    by apply Z.mod_mul.
Qed.

Lemma split_flags_mask : split_flags .& PAGE_FRAME_MASK = 0.
Proof using He Hk.
  assert (e .& unot 64 PAGE_FRAME_MASK .& PAGE_FRAME_MASK = 0) as H.
  { rewrite land_unot by (unfold PAGE_FRAME_MASK; lia).
    apply Z.bits_inj'. intros i Hi. rewrite Z.land_spec, Z.ldiff_spec, Z.bits_0.
    by destruct (Z.testbit e i), (Z.testbit PAGE_FRAME_MASK i). }
  unfold split_flags. destruct (split_step =? PAGE_SIZE); [|done].
  by rewrite (Z.land_comm (e .& _)), <- Z.land_assoc, H, Z.land_0_r.
Qed.

Lemma split_flags_bit i :
  i ∈ flag_bits →
  Z.testbit split_flags i = Z.testbit e i && negb ((k =? 0)%nat && (i =? 7)).
Proof using He Hk.
  intros Hi. pose proof (flag_bits_range i Hi).
  assert (Z.testbit (e .& unot 64 PAGE_FRAME_MASK) i = Z.testbit e i) as H1.
  { rewrite land_unot, Z.ldiff_spec by (unfold PAGE_FRAME_MASK; lia).
    assert (Z.testbit PAGE_FRAME_MASK i = false) as ->; [|by rewrite andb_true_r].
    unfold flag_bits in Hi. set_unfold in Hi. by destruct_or! Hi; subst. }
  unfold split_flags, split_step. assert (k = 0%nat ∨ k = 1%nat) as [-> | ->] by lia.
  - change (2 ^ level_bits 0 =? PAGE_SIZE) with true. cbn iota.
    change PAGE_PS with 128. rewrite Z.land_spec, H1, testbit_unot by lia.
    unfold flag_bits in Hi. set_unfold in Hi. by destruct_or! Hi; subst.
  - change (2 ^ level_bits 1 =? PAGE_SIZE) with false. cbn iota. rewrite H1.
    by rewrite andb_true_r.
Qed.

Lemma split_entry_addr i :
  0 ≤ i < 512 → PAGE_GET_ADDR (split_entry i) = split_base + i * split_step.
Proof using He Hk.
  intros Hi. pose proof (split_frame_ok i Hi) as [Hb Ha]. unfold split_entry.
  rewrite wrap_small by lia. apply entry_addr; [done..|apply split_flags_mask].
Qed.

Lemma split_entry_bit i b :
  0 ≤ i < 512 → b ∈ flag_bits →
  Z.testbit (split_entry i) b = Z.testbit e b && negb ((k =? 0)%nat && (b =? 7)).
Proof using He Hk.
  intros Hi Hb. pose proof (split_frame_ok i Hi) as [Hbd Ha]. unfold split_entry.
  rewrite wrap_small, entry_testbit by (done || lia || (pose proof (flag_bits_range b Hb); lia)).
  by apply split_flags_bit.
Qed.

Lemma split_entry_range i : 0 ≤ i < 512 → 0 ≤ split_entry i < 2 ^ 64.
Proof using He Hk.
  intros Hi. apply lor_bound; [lia|apply wrap_bound; lia|].
  assert (∀ y z, 0 ≤ y < 2 ^ 64 → 0 ≤ y .& z < 2 ^ 64) as H.
  { intros y z Hy. rewrite Z.land_comm. pose proof (land_bound_r z y). lia. }
  unfold split_flags. destruct (split_step =? PAGE_SIZE); auto.
Qed.

(** The 512 entries give every address the frame the huge page gave it. *)
Lemma split_entry_frame w :
  leaf_frame k (split_entry (index k w)) w = leaf_frame (S k) e w.
Proof using He Hk.
  unfold leaf_frame. rewrite split_entry_addr by apply index_bound.
  rewrite split_base_eq, index_div by lia. unfold split_step.
  assert (k = 0%nat ∨ k = 1%nat) as [-> | ->] by lia.
  - change (2 ^ level_bits 0) with 0x1000. change (2 ^ level_bits 1) with (0x1000 * 512).
    rewrite (Z.rem_mul_r w) by lia.
    pose proof (Z.mod_pos_bound w 0x1000 ltac:(lia)).
    set (j := w / 0x1000 mod 512). set (r := w mod 0x1000) in *.
    set (B := PAGE_GET_ADDR e / _).
    replace (B * (0x1000 * 512) + j * 0x1000) with ((B * 512 + j) * 0x1000) by lia.
    replace (r + 0x1000 * j) with (r + j * 0x1000) by lia.
    rewrite Z.div_mul, Z.div_add, (Z.div_small r) by lia. lia.
  - change (2 ^ level_bits 1) with (0x1000 * 512).
    change (2 ^ level_bits 2) with ((0x1000 * 512) * 512).
    rewrite (Z.rem_mul_r w (0x1000 * 512) 512) by lia.
    set (j := w / (0x1000 * 512) mod 512). set (r := w mod (0x1000 * 512)).
    set (B := PAGE_GET_ADDR e / _).
    replace (B * (0x1000 * 512 * 512) + j * (0x1000 * 512)) with ((B * 512 + j) * (0x1000 * 512)) by lia.
    rewrite Z.div_mul by lia.
    replace (r + 0x1000 * 512 * j) with (r + (512 * j) * 0x1000) by lia.
    rewrite Z.div_add by lia. lia.
Qed.
End split_entries.

(** ** Filling a fresh page *)

(** [g i0], [g (i0 + 1)], ... at consecutive words from [f + 8 * i0]. *)
Fixpoint fill (m : gmap Z Z) (f : Z) (g : Z → Z) (i0 : Z) (n : nat) : gmap Z Z :=
  match n with
  | O => m
  | S n => fill (<[f + 8 * i0 := g i0]> m) f g (i0 + 1) n
  end.

Lemma rd_fill_out n m f g i0 a :
  ¬ (f + 8 * i0 ≤ a < f + 8 * (i0 + Z.of_nat n)) → rd (fill m f g i0 n) a = rd m a.
Proof.
  revert m i0. induction n as [|n IH]; intros m i0 Ha; cbn [fill]; [done|].
  rewrite IH by lia. apply rd_insert_ne. lia.
Qed.

Lemma rd_fill_in n m f g i0 i :
  i0 ≤ i < i0 + Z.of_nat n → rd (fill m f g i0 n) (f + 8 * i) = g i.
Proof.
  revert m i0. induction n as [|n IH]; intros m i0 Hi; [lia|]. cbn [fill].
  destruct (Z.eq_dec i i0) as [->|Hne]; [|apply IH; lia].
  rewrite rd_fill_out by lia. apply rd_insert_eq.
Qed.

(** Every word of memory is a 64-bit value. *)
Definition words (m : gmap Z Z) : Prop := ∀ a, 0 ≤ rd m a < 2 ^ 64.

Lemma words_insert m a x : words m → 0 ≤ x < 2 ^ 64 → words (<[a := x]> m).
Proof.
  intros Hm Hx b. destruct (Z.eq_dec b a) as [->|]; [by rewrite rd_insert_eq | by rewrite rd_insert_ne].
Qed.

Lemma words_fill n m f g i0 :
  words m → (∀ i, i0 ≤ i < i0 + Z.of_nat n → 0 ≤ g i < 2 ^ 64) → words (fill m f g i0 n).
Proof.
  revert m i0. induction n as [|n IH]; intros m i0 Hm Hg; [done|]. cbn [fill].
  apply IH; [apply words_insert; [done|apply Hg; lia]|]. intros i Hi. apply Hg. lia.
Qed.

(** ** The operations *)

Section spec.
Context `{BI : BootInfo} `{BO : !BootOk BI}.

Ltac boot :=
  pose proof boot_hhdm as Bhhdm; pose proof boot_hhdm_aligned as Balign;
  pose proof boot_image as Bimage; unfold dm_size in *.

Lemma p2v a : 0 ≤ a < dm_size → phys_to_virt a = a + hhdm_offset.
Proof using BO. intros. boot. unfold phys_to_virt. by rewrite wrap_small by lia. Qed.

Lemma v2p a : 0 ≤ a < dm_size → virt_to_phys (a + hhdm_offset) = a.
Proof using BO.
  intros. boot. unfold virt_to_phys. rewrite (proj2 (Z.leb_gt _ _)) by lia.
  rewrite wrap_small; lia.
Qed.

Lemma ld64_dm s a : 0 ≤ a < dm_size → ld64 (a + hhdm_offset) s = Ok (rd (m_mem s) a, s).
Proof using BO. intros. unfold ld64, gets. by rewrite v2p. Qed.

Lemma st64_dm s a x : 0 ≤ a < dm_size → st64 (a + hhdm_offset) x s = Ok (tt, set_mem <[a := x]> s).
Proof using BO. intros. unfold st64, modify. by rewrite v2p. Qed.

Lemma memset0_fill n s f i0 :
  0 ≤ f + 8 * i0 → f + 8 * (i0 + Z.of_nat n) ≤ dm_size →
  memset0_words (f + 8 * i0 + hhdm_offset) n s =
    Ok (tt, set_mem (λ m, fill m f (λ _, 0) i0 n) s).
Proof using BO.
  revert s i0. induction n as [|n IH]; intros s i0 Hlo Hhi; cbn [memset0_words fill].
  - by destruct s.
  - erewrite M_bind_Ok by (by apply st64_dm; lia).
    replace (f + 8 * i0 + hhdm_offset + 8) with (f + 8 * (i0 + 1) + hhdm_offset) by lia.
    by rewrite IH by lia.
Qed.

Lemma fill_table_fill n s f base step flags i0 :
  0 ≤ f + 8 * i0 → f + 8 * (i0 + Z.of_nat n) ≤ dm_size →
  fill_table (f + hhdm_offset) base step flags i0 n s =
    Ok (tt, set_mem (λ m, fill m f (λ i, u64 (base + i * step) .| flags) i0 n) s).
Proof using BO.
  revert s i0. induction n as [|n IH]; intros s i0 Hlo Hhi; cbn [fill_table fill].
  - by destruct s.
  - boot. rewrite (wrap_small 64 (f + _ + _)) by lia.
    replace (f + hhdm_offset + 8 * i0) with (f + 8 * i0 + hhdm_offset) by lia.
    erewrite M_bind_Ok by (apply st64_dm; unfold dm_size; lia). by rewrite IH by (unfold dm_size; lia).
Qed.

#[local] Opaque fill.

(** Physical address of the next page the allocator hands out. *)
Definition next_page (s : machine) : Z := page_up (m_placement s) - hhdm_offset.

Lemma next_page_aligned s : next_page s mod 0x1000 = 0.
Proof using BO.
  unfold next_page. boot. pose proof (page_up_spec (m_placement s)) as [_ H1].
  rewrite Zminus_mod, H1. by rewrite Balign.
Qed.

Definition grab_page (s : machine) : machine :=
  set_placement (next_page s + 0x1000 + hhdm_offset) s.

Lemma kmalloc_az_page s :
  hhdm_offset ≤ m_placement s → next_page s + 0x1000 ≤ dm_size →
  kmalloc_az PAGE_SIZE s =
    Ok (next_page s + hhdm_offset,
        set_mem (λ m, fill m (next_page s) (λ _, 0) 0 512) (grab_page s)).
Proof using BO.
  intros Hlo Hhi. boot. pose proof (page_up_spec (m_placement s)) as [Hup _].
  unfold next_page in *. unfold kmalloc_az.
  erewrite M_bind_Ok by (apply kmalloc_a_spec; unfold PAGE_SIZE; lia).
  change (Z.to_nat (PAGE_SIZE / 8)) with 512%nat.
  pose proof (memset0_fill 512 (grab_page s) (next_page s) 0) as Hm.
  unfold next_page, grab_page, dm_size in *.
  replace (page_up (m_placement s) + PAGE_SIZE)
    with (page_up (m_placement s) - hhdm_offset + 0x1000 + hhdm_offset) by (unfold PAGE_SIZE; lia).
  replace (page_up (m_placement s) - hhdm_offset + 8 * 0 + hhdm_offset)
    with (page_up (m_placement s)) in Hm by lia.
  erewrite M_bind_Ok by (apply Hm; lia).
  unfold mret, M_ret. do 2 f_equal. lia.
Qed.

Lemma split_huge_entry_spec s e k :
  (k ≤ 1)%nat → hhdm_offset ≤ m_placement s → next_page s + 0x1000 ≤ dm_size →
  split_huge_entry e (split_step k) s =
    Ok (next_page s,
        set_mem (λ m, fill (fill m (next_page s) (λ _, 0) 0 512) (next_page s) (split_entry e k) 0 512)
          (grab_page s)).
Proof using BO.
  intros Hk Hlo Hhi. unfold split_huge_entry.
  erewrite M_bind_Ok by (by apply kmalloc_az_page).
  pose proof (page_up_spec (m_placement s)) as [Hup _].
  erewrite M_bind_Ok by (apply fill_table_fill; boot; unfold next_page in *; lia).
  unfold mret, M_ret. rewrite v2p by (boot; unfold next_page in *; lia). done.
Qed.

(** Dropping cached translations is all [flush_tlb_all] does. *)
Lemma flush_tlb_all_spec s :
  ∃ tlb, tlb ⊆ m_tlb s ∧ flush_tlb_all s = Ok (tt, set_tlb (λ _, tlb) s).
Proof.
  destruct s as [mem pl cr3 cr4 fi tlb].
  unfold flush_tlb_all, read_cr4, read_cr3, write_cr4, write_cr3, gets, modify, mbind, M_bind.
  cbn [m_cr3 m_cr4 m_tlb m_mem]. destruct (nz (cr4 .& CR4_PGE)) eqn:E.
  - exists ∅. split; [apply map_empty_subseteq|]. change CR4_PGE with (2 ^ 7) in *.
    rewrite land_testbit_pow2 in E by lia.
    assert (Z.testbit (cr4 .& unot 64 (2 ^ 7)) 7 = false) as H1.
    { rewrite Z.land_spec. by rewrite andb_false_r. }
    cbn [m_cr4]. rewrite H1, E. cbn [m_cr4 set_cr4 set_tlb bool_decide decide_rel bool_eq_dec].
    by rewrite H1.
  - eexists. split; [|done]. apply map_filter_subseteq.
Qed.

(** The invariant the operations keep: words are 64-bit, the tables under [root]
    are a tree outside the free heap, which ends at [hi] inside the direct map. *)
Record pg_inv (root hi : Z) (s : machine) : Prop := {
  pi_words : words (m_mem s);
  pi_wf : pt_wf (m_mem s) root (m_placement s - hhdm_offset) hi dm_size;
  pi_hi : hi ≤ dm_size;
  pi_lo : hhdm_offset ≤ m_placement s;
}.

(** The word at [a] is in none of the tables. *)
Definition apart (root : Z) (m : gmap Z Z) (a : Z) : Prop :=
  ∀ v j t, (j, t) ∈ trail m 3 root v → ¬ (t ≤ a < t + 0x1000).

(** [s'] is [s] with up to [n] more page tables: no translation differs, the
    registers are the same, the TLB holds nothing new, and memory differs in the
    tables and in what was taken from the heap only. *)
Record pg_grow (root n : Z) (s s' : machine) : Prop := {
  pg_translate w : translate (m_mem s') root w = translate (m_mem s) root w;
  pg_cr3 : m_cr3 s' = m_cr3 s;
  pg_if : m_if s' = m_if s;
  pg_tlb : m_tlb s' ⊆ m_tlb s;
  pg_placement : m_placement s ≤ m_placement s';
  pg_next : next_page s' ≤ next_page s + n * 0x1000;
  pg_frame a : apart root (m_mem s) a →
    ¬ (m_placement s - hhdm_offset ≤ a < m_placement s' - hhdm_offset) →
    rd (m_mem s') a = rd (m_mem s) a ∧ apart root (m_mem s') a;
}.

Lemma pg_grow_refl root n s : 0 ≤ n → pg_grow root n s s.
Proof. intros. by split; try lia. Qed.

Lemma pg_grow_trans root n1 n2 s1 s2 s3 :
  pg_grow root n1 s1 s2 → pg_grow root n2 s2 s3 → pg_grow root (n1 + n2) s1 s3.
Proof.
  intros [A1 A2 A3 A4 A5 A6 A7] [B1 B2 B3 B4 B5 B6 B7].
  split; [congruence|congruence|congruence|by etrans|lia|lia|].
  intros a Ha Hn. destruct (A7 a Ha ltac:(lia)) as [E1 Ha2].
  destruct (B7 a Ha2 ltac:(lia)) as [E2 Ha3]. split; [congruence|done].
Qed.

Lemma next_page_grab s (f : gmap Z Z → gmap Z Z) :
  hhdm_offset ≤ m_placement s →
  m_placement s - hhdm_offset ≤ next_page s ∧
  next_page (set_mem f (grab_page s)) = next_page s + 0x1000.
Proof using BO.
  intros Hlo. pose proof (page_up_spec (m_placement s)) as [Hup Ha]. unfold grab_page, next_page.
  cbn [m_placement set_mem set_placement]. split; [lia|].
  replace (page_up (m_placement s) - hhdm_offset + 0x1000 + hhdm_offset)
    with (page_up (m_placement s) + 0x1000) by lia.
  unfold page_up in *.
  assert (((m_placement s + 0xFFF) / 0x1000 * 0x1000 + 0x1000 + 0xFFF) / 0x1000 =
          (m_placement s + 0xFFF) / 0x1000 + 1) as ->; [|lia].
  symmetry. apply (Z.div_unique _ _ _ 0xFFF); lia.
Qed.

(** ** One level of the walk *)

(** Splitting is what [next_table] does at the levels where pages can be huge. *)
Definition split_of (k : nat) : option Z := if (k <? 2)%nat then Some (split_step k) else None.

Section next_table.
Context (root hi : Z) (s : machine) (Hinv : pg_inv root hi s).
Context (v : Z) (k : nat) (t : Z).
Context (Hin : (S k, t) ∈ trail (m_mem s) 3 root v).
Context (Hroom : next_page s + 0x1000 ≤ hi).
Abbreviation x := (t + 8 * index (S k) v).
Abbreviation f := (next_page s).

Lemma nt_entry_dm : 0 ≤ x < dm_size ∧ (x < f ∨ f + 0x1000 ≤ x).
Proof using BO Hinv Hin Hroom.
  pose proof (wf_place _ _ _ _ _ (pi_wf _ _ _ Hinv) _ _ _ Hin).
  pose proof (index_bound (S k) v). pose proof (pi_lo _ _ _ Hinv).
  pose proof (next_page_grab s id (pi_lo _ _ _ Hinv)). lia.
Qed.

(** The new entry, whose address is the fresh table and whose kind is a table. *)
Definition grown (e' : Z) (g : Z → Z) (m : gmap Z Z) : gmap Z Z :=
  <[x := e']> (fill m f g 0 512).

Lemma grown_x e' g m : rd (grown e' g m) x = e'.
Proof. apply rd_insert_eq. Qed.

Lemma grown_page e' g m i : 0 ≤ i < 512 → rd (grown e' g m) (f + 8 * i) = g i.
Proof using BO Hinv Hin Hroom.
  intros Hi. unfold grown. pose proof nt_entry_dm as [_ Hx].
  rewrite rd_insert_ne by lia. apply rd_fill_in. lia.
Qed.

Lemma grown_same e' g m a :
  a ≠ x → ¬ (f ≤ a < f + 0x1000) → rd (grown e' g m) a = rd m a.
Proof. intros Ha Hf. unfold grown. rewrite rd_insert_ne by done. apply rd_fill_out. lia. Qed.

(** Growing the tree by one table keeps the invariant and every translation. *)
Lemma grown_ok e' g m0 s' :
  (∀ a, ¬ (f ≤ a < f + 0x1000) → rd m0 a = rd (m_mem s) a) → words m0 →
  m_mem s' = grown e' g m0 → m_placement s' = f + 0x1000 + hhdm_offset →
  m_cr3 s' = m_cr3 s → m_if s' = m_if s → m_tlb s' ⊆ m_tlb s →
  is_table (S k) (rd (m_mem s) x) = false →
  is_table (S k) e' = true → PAGE_GET_ADDR e' = f → 0 ≤ e' < 2 ^ 64 →
  (∀ i, 0 ≤ i < 512 → 0 ≤ g i < 2 ^ 64 ∧ ((0 < k)%nat → is_table k (g i) = false)) →
  (∀ w acc, index (S k) w = index (S k) v →
     walk (m_mem s') k f w (restrict acc e') = walk (m_mem s) (S k) t w acc) →
  pg_inv root hi s' ∧ pg_grow root 1 s s' ∧ (k, f) ∈ trail (m_mem s') 3 root v.
Proof using BO Hinv Hin Hroom.
  intros Hm0 Hw0 Hm Hpl Hc3 Hfi Htlb Hleaf Htab Haddr He' Hg Hwalk.
  destruct Hinv as [Hwords Hwf Hhi Hlo].
  destruct (next_page_grab s id Hlo) as [Hnp1 Hnp2].
  pose proof (next_page_aligned s) as Hal.
  assert (∀ a, a ≠ x → ¬ (f ≤ a < f + 0x1000) → rd (m_mem s') a = rd (m_mem s) a) as Hsame.
  { intros a Ha Hf. rewrite Hm, grown_same by done. by apply Hm0. }
  assert (rd (m_mem s') x = e') as Hx by (rewrite Hm; apply grown_x).
  assert (∀ w, (0 < k)%nat → is_table k (rd (m_mem s') (f + 8 * index k w)) = false) as Hflat.
  { intros w Hk0. rewrite Hm, grown_page by apply index_bound. apply Hg; [apply index_bound|done]. }
  rewrite <- Hx in Htab, Haddr, Hwalk.
  split_and!.
  - split; [|rewrite Hpl|assumption|rewrite Hpl; boot; lia].
    + rewrite Hm. apply words_insert; [|done]. apply words_fill; [done|]. intros i Hi. apply Hg. lia.
    + apply (grow_wf _ _ _ _ _ _ Hwf _ _ _ Hin _ Hsame Hal ltac:(boot; lia) Hnp1 Hroom Hhi
               Hleaf Htab Haddr Hflat); lia.
  - split; [| assumption | assumption | assumption | rewrite Hpl; lia | |].
    + apply (grow_translate _ _ _ _ _ _ Hwf _ _ _ Hin _ Hsame Hal Hnp1 Hroom Htab Haddr Hwalk).
    + assert (next_page s' = next_page (set_mem id (grab_page s))) as ->; [|lia].
      unfold next_page. by rewrite Hpl.
    + intros a Ha Hn. pose proof (index_bound (S k) v).
      assert (¬ (f ≤ a < f + 0x1000)) as Hna by lia. split.
      * apply Hsame; [|done]. pose proof (Ha _ _ _ Hin). lia.
      * intros w j t' [[Hw _]|(-> & -> & _)]%(grow_elem _ _ _ _ _ _ Hwf _ _ _ Hin _ Hsame Hal Hnp1 Hroom
          Hleaf Htab Haddr Hflat); [by eapply Ha|done].
  - apply (grow_in _ _ _ _ _ _ Hwf _ _ _ Hin _ Hsame Hal Hnp1 Hroom Hleaf Htab Haddr Hflat).
Qed.

(** What one level of the walk returns. *)
Definition next_post (create : bool) (r : option Z) (s' : machine) : Prop :=
  pg_inv root hi s' ∧ pg_grow root 1 s s' ∧
  match r with
  | Some p => ∃ u, p = u + hhdm_offset ∧ (k, u) ∈ trail (m_mem s') 3 root v
  | None => create = false ∧ translate (m_mem s) root v = None ∧ s' = s
  end.

(** A missing table: the entry is absent, so nothing was mapped below it, and
    the zeroed table maps nothing either. *)
Lemma nt_create s' :
  present (rd (m_mem s) x) = false →
  s' = set_mem (λ m, <[x := f .| PAGE_PRESENT .| PAGE_WRITE]> (fill m f (λ _, 0) 0 512))
         (grab_page s) →
  next_post true (Some (f + hhdm_offset)) s'.
Proof using BO Hinv Hin Hroom.
  intros Hp ->. pose proof (next_page_aligned s) as Hal.
  pose proof (pi_hi _ _ _ Hinv). destruct (next_page_grab s id (pi_lo _ _ _ Hinv)) as [Hnp _].
  pose proof (pi_lo _ _ _ Hinv).
  assert (0 ≤ f < 2 ^ 52) as Hf by (boot; lia).
  assert (∀ i, i < 12 ∨ 52 ≤ i → Z.testbit (f .| PAGE_PRESENT .| PAGE_WRITE) i = Z.testbit 3 i) as Hbit.
  { intros i Hi. rewrite <- Z.lor_assoc. by apply entry_testbit. }
  set (e' := f .| PAGE_PRESENT .| PAGE_WRITE) in *.
  match goal with |- next_post _ _ ?s1 => set (s' := s1) end.
  assert (m_mem s' = grown e' (λ _, 0) (m_mem s)) as Hm by done.
  assert (pg_inv root hi s' ∧ pg_grow root 1 s s' ∧ (k, f) ∈ trail (m_mem s') 3 root v)
    as (H1 & H2 & H3); [apply (grown_ok e' (λ _, 0) (m_mem s)); [done| |done..| | | | | |]|].
  - apply Hinv.
  - unfold is_table. by rewrite Hp.
  - unfold is_table, present. rewrite !Hbit by lia. by rewrite andb_false_r.
  - unfold e'. rewrite <- Z.lor_assoc. by apply entry_addr.
  - unfold e'. rewrite <- Z.lor_assoc. change (PAGE_PRESENT .| PAGE_WRITE) with 3.
    apply lor_bound; lia.
  - intros i Hi. split; [lia|done].
  - intros w acc Hi. rewrite (walk_absent _ (S k)) by (by rewrite Hi).
    apply walk_absent. by rewrite Hm, grown_page by apply index_bound.
  - split_and!; [assumption..|]. exists f. split; [reflexivity | assumption].
Qed.

(** A huge page: the table of its 512 parts translates what it did. *)
Lemma nt_split s' :
  (k ≤ 1)%nat → present (rd (m_mem s) x) = true → Z.testbit (rd (m_mem s) x) 7 = true →
  m_mem s' = <[x := f .| PAGE_PRESENT .| PAGE_WRITE .|
                    (rd (m_mem s) x .& (PAGE_USER .| PAGE_NX))]>
               (fill (fill (m_mem s) f (λ _, 0) 0 512) f (split_entry (rd (m_mem s) x) k) 0 512) →
  m_placement s' = f + 0x1000 + hhdm_offset →
  m_cr3 s' = m_cr3 s → m_if s' = m_if s → m_tlb s' ⊆ m_tlb s →
  PAGE_GET_ADDR (rd (m_mem s') x) = f ∧
  pg_inv root hi s' ∧ pg_grow root 1 s s' ∧ (k, f) ∈ trail (m_mem s') 3 root v.
Proof using BO Hinv Hin Hroom.
  intros Hk Hp Hps Hm Hpl Hc3 Hfi Htlb. pose proof (next_page_aligned s) as Hal.
  pose proof (pi_hi _ _ _ Hinv). destruct (next_page_grab s id (pi_lo _ _ _ Hinv)) as [Hnp _].
  pose proof (pi_lo _ _ _ Hinv). pose proof (pi_words _ _ _ Hinv x) as He.
  set (e := rd (m_mem s) x) in *.
  assert (0 ≤ f < 2 ^ 52) as Hf by (boot; lia).
  set (e' := f .| PAGE_PRESENT .| PAGE_WRITE .| (e .& (PAGE_USER .| PAGE_NX))) in *.
  assert (e' = f .| (3 .| (e .& (PAGE_USER .| PAGE_NX)))) as He'.
  { unfold e'. rewrite <- (Z.lor_assoc f PAGE_PRESENT).
    change (PAGE_PRESENT .| PAGE_WRITE) with 3. symmetry. apply Z.lor_assoc. }
  assert (∀ i, i < 12 ∨ 52 ≤ i → Z.testbit e' i =
            Z.testbit 3 i || (Z.testbit e i && Z.testbit (PAGE_USER .| PAGE_NX) i)) as Hbit.
  { intros i Hi. rewrite He', entry_testbit by done. by rewrite Z.lor_spec, Z.land_spec. }
  assert (is_table (S k) e = false) as Hnt.
  { unfold is_table. rewrite Hps, andb_true_r. rewrite (proj2 (Nat.ltb_lt _ _)) by lia.
    by rewrite andb_false_r. }
  assert (PAGE_GET_ADDR e' = f) as Ha.
  { rewrite He'. apply entry_addr; [done..|]. rewrite Z.land_lor_distr_l, <- Z.land_assoc.
    change ((PAGE_USER .| PAGE_NX) .& PAGE_FRAME_MASK) with 0. by rewrite Z.land_0_r. }
  split; [by rewrite Hm, rd_insert_eq|].
  apply (grown_ok e' (split_entry e k) (fill (m_mem s) f (λ _, 0) 0 512)); try assumption.
  - intros a Hn. apply rd_fill_out. lia.
  - apply words_fill; [apply Hinv|]. lia.
  - unfold is_table, present. rewrite !Hbit by lia.
    change (Z.testbit (PAGE_USER .| PAGE_NX) 7) with false.
    change (Z.testbit 3 7) with false. change (Z.testbit 3 0) with true.
    by rewrite !andb_false_r.
  - rewrite He'. assert (0 ≤ e .& (PAGE_USER .| PAGE_NX) < 2 ^ 64).
    { rewrite Z.land_comm. pose proof (land_bound_r (PAGE_USER .| PAGE_NX) e). lia. }
    apply lor_bound; [lia..|]. apply lor_bound; lia.
  - intros i Hi. split; [by apply split_entry_range|]. intros Hk0. unfold is_table.
    rewrite (split_entry_bit e He k Hk i 7 Hi) by flag_bit.
    rewrite Hps. rewrite (proj2 (Nat.ltb_lt k 3)), (proj2 (Nat.eqb_neq k 0)) by lia.
    by rewrite andb_false_r.
  - intros w acc Hi.
    assert (rd (m_mem s') (f + 8 * index k w) = split_entry e k (index k w)) as Hr.
    { rewrite Hm. apply grown_page. apply index_bound. }
    assert (∀ b, b ∈ flag_bits → Z.testbit (split_entry e k (index k w)) b =
              Z.testbit e b && negb ((k =? 0)%nat && (b =? 7))) as Hb.
    { intros b. apply split_entry_bit; [done..|]. apply index_bound. }
    rewrite (walk_leaf _ (S k)) by (rewrite Hi; done).
    rewrite Hi. fold e. rewrite walk_leaf, Hr.
    + rewrite split_entry_frame by done. f_equal. f_equal. unfold restrict. cbn [p_write p_user p_nx].
      rewrite !Hb by flag_bit. rewrite !Hbit by lia.
      cbn. rewrite !andb_false_r, !andb_true_r. f_equal; btauto.
    + rewrite Hr. unfold present. rewrite Hb by flag_bit.
      unfold present in Hp. by rewrite Hp, andb_false_r.
    + rewrite Hr. intros Hk0. unfold is_table. rewrite (Hb 7) by flag_bit.
      rewrite Hps. rewrite (proj2 (Nat.ltb_lt k 3)), (proj2 (Nat.eqb_neq k 0)) by lia.
      by rewrite andb_false_r.
Qed.

(** A table that is there already. *)
Lemma nt_follow create :
  is_table (S k) (rd (m_mem s) x) = true →
  next_post create (Some (phys_to_virt (PAGE_GET_ADDR (rd (m_mem s) x)))) s.
Proof using BO Hinv Hin.
  intros Ht. split; [done|split; [by apply pg_grow_refl|]].
  pose proof (trail_descend _ _ _ _ _ Hin Ht) as Hd. eexists. split; [|exact Hd].
  apply p2v. pose proof (wf_place _ _ _ _ _ (pi_wf _ _ _ Hinv) _ _ _ Hd). lia.
Qed.

Lemma next_table_spec create cr3 :
  (k ≤ 2)%nat →
  wp (next_table (split_of k) (x + hhdm_offset) create cr3) (next_post create) s.
Proof using BO Hinv Hin Hroom.
  intros Hk. pose proof nt_entry_dm as [Hx Hxf].
  pose proof (pi_hi _ _ _ Hinv) as Hhi. pose proof (pi_lo _ _ _ Hinv) as Hlo.
  destruct (next_page_grab s id Hlo) as [Hnp _].
  unfold next_table. apply wp_bind. eapply wp_intro; [by apply ld64_dm|].
  rewrite nz_present. destruct (present (rd (m_mem s) x)) eqn:Hp; cbn [negb].
  2: { destruct create; cbn [negb].
    - apply wp_bind. eapply wp_intro; [apply kmalloc_az_page; lia|].
      apply wp_bind. eapply wp_intro; [by apply st64_dm|]. rewrite v2p by (boot; lia).
      apply wp_ret. by apply nt_create.
    - apply wp_ret. split_and!; [done|by apply pg_grow_refl|done|by eapply trail_absent|done]. }
  apply wp_bind. unfold split_of.
  destruct (Nat.ltb_spec k 2) as [Hk2|Hk2].
  - rewrite nz_ps. destruct (Z.testbit (rd (m_mem s) x) 7) eqn:Hps; cbn [when].
    + apply wp_bind. eapply wp_intro; [apply split_huge_entry_spec; lia|].
      apply wp_bind. eapply wp_intro; [by apply ld64_dm|].
      assert (rd (m_mem (set_mem (λ m, fill (fill m f (λ _, 0) 0 512) f
                (split_entry (rd (m_mem s) x) k) 0 512) (grab_page s))) x = rd (m_mem s) x) as ->.
      { cbn [m_mem set_mem grab_page set_placement]. rewrite !rd_fill_out by lia. done. }
      apply wp_bind. eapply wp_intro; [by apply st64_dm|].
      apply wp_bind, wp_gets.
      match goal with |- wp _ _ ?s1 => set (s1' := s1) end.
      assert (∃ tlb, tlb ⊆ m_tlb s ∧ when (cr3 =? m_cr3 s1') flush_tlb_all s1' =
                Ok (tt, set_tlb (λ _, tlb) s1')) as (tlb & Htlb & Hfl).
      { destruct (cr3 =? m_cr3 s1'); cbn [when]; [exact (flush_tlb_all_spec s1')|].
        by exists (m_tlb s1'). }
      eapply wp_intro; [exact Hfl|].
      apply wp_bind. eapply wp_intro; [by apply ld64_dm|]. apply wp_ret.
      destruct (nt_split (set_tlb (λ _, tlb) s1')) as (Ha & H1 & H2 & H3);
        [lia | assumption | assumption | reflexivity | reflexivity | reflexivity | reflexivity
        | assumption |].
      split; [done|split; [done|]]. rewrite Ha. exists f. split; [|done]. apply p2v. boot. lia.
    + apply wp_ret. apply wp_bind. eapply wp_intro; [by apply ld64_dm|]. apply wp_ret.
      apply nt_follow. unfold is_table. rewrite Hp, Hps. by rewrite andb_false_r.
  - apply wp_ret. apply wp_bind. eapply wp_intro; [by apply ld64_dm|]. apply wp_ret.
    apply nt_follow. unfold is_table. rewrite Hp.
    by rewrite (proj2 (Nat.ltb_ge (S k) 3)) by lia.
Qed.
End next_table.

(** ** The whole walk *)

Lemma entry_at_dm root hi s v j t :
  pg_inv root hi s → (j, t) ∈ trail (m_mem s) 3 root v →
  entry_at (t + hhdm_offset) (index j v) = t + 8 * index j v + hhdm_offset ∧
  0 ≤ t + 8 * index j v < dm_size.
Proof using BO.
  intros Hinv Hin. pose proof (wf_place _ _ _ _ _ (pi_wf _ _ _ Hinv) _ _ _ Hin).
  pose proof (index_bound j v). unfold entry_at. boot. rewrite wrap_small by lia. lia.
Qed.

(** [get_page_entry] returns the entry the processor's walk ends at, after
    adding or splitting tables in a way no address can notice; without [create]
    it gives up only on an address that is not mapped. *)
Definition entry_post (root hi : Z) (s : machine) (v : Z) (create : bool)
    (r : option Z) (s' : machine) : Prop :=
  pg_inv root hi s' ∧ pg_grow root 3 s s' ∧
  match r with
  | Some p => ∃ t, p = t + 8 * index 0 v + hhdm_offset ∧ (0%nat, t) ∈ trail (m_mem s') 3 root v
  | None => create = false ∧ translate (m_mem s) root v = None
  end.

Lemma get_page_entry_ok root hi s v create cr3 :
  pg_inv root hi s → root = PAGE_GET_ADDR cr3 → 0 ≤ root < dm_size →
  next_page s + 3 * 0x1000 ≤ hi →
  wp (get_page_entry v create cr3) (entry_post root hi s v create) s.
Proof using BO.
  intros Hinv -> Hroot Hroom. unfold get_page_entry. rewrite p2v by done.
  set (root := PAGE_GET_ADDR cr3) in *.
  assert ((3%nat, root) ∈ trail (m_mem s) 3 root v) as Hin3 by apply trail_self.
  change (PML4_INDEX v) with (index 3 v).
  destruct (entry_at_dm _ _ _ _ _ _ Hinv Hin3) as [-> _].
  eapply wp_bind_mono; [apply (next_table_spec root hi s Hinv v 2 root Hin3); lia|].
  intros pud s1 (Hinv1 & Hg1 & Hr1). pose proof (pg_next _ _ _ _ Hg1).
  destruct pud as [pud|]; [|apply wp_ret; destruct Hr1 as (-> & Hn & ->)].
  2: { split_and!; [done|by apply pg_grow_refl|done|done]. }
  destruct Hr1 as (u1 & -> & Hin2).
  change (PDPT_INDEX v) with (index 2 v). destruct (entry_at_dm _ _ _ _ _ _ Hinv1 Hin2) as [-> _].
  eapply wp_bind_mono; [apply (next_table_spec root hi s1 Hinv1 v 1 u1 Hin2); lia|].
  intros pd s2 (Hinv2 & Hg2 & Hr2). pose proof (pg_grow_trans _ _ _ _ _ _ Hg1 Hg2) as Hg12.
  pose proof (pg_next _ _ _ _ Hg12).
  destruct pd as [pd|]; [|apply wp_ret; destruct Hr2 as (-> & Hn & ->)].
  2: { split_and!; [done| |done|by rewrite <- (pg_translate _ _ _ _ Hg1)].
       apply (pg_grow_trans _ 1 2 _ s1); [done|by apply pg_grow_refl]. }
  destruct Hr2 as (u2 & -> & Hin1).
  change (PD_INDEX v) with (index 1 v). destruct (entry_at_dm _ _ _ _ _ _ Hinv2 Hin1) as [-> _].
  eapply wp_bind_mono; [apply (next_table_spec root hi s2 Hinv2 v 0 u2 Hin1); lia|].
  intros pt s3 (Hinv3 & Hg3 & Hr3). pose proof (pg_grow_trans _ _ _ _ _ _ Hg12 Hg3) as Hg123.
  destruct pt as [pt|]; apply wp_ret.
  - destruct Hr3 as (u3 & -> & Hin0). split_and!; [done..|]. exists u3. split; [|done].
    by apply (entry_at_dm _ _ _ _ _ _ Hinv3 Hin0).
  - destruct Hr3 as (-> & Hn & ->). split_and!; [done..|]. by rewrite <- (pg_translate _ _ _ _ Hg12).
Qed.
End spec.
