(* ===== verification/MmProps.v ===== *)
(** * The theorems about the kernel heap ([mm/kheap.c]) *)

From S2P Require Import Prelude Mm PagingSpec.

Section props.
Context `{BI : BootInfo}.

(** A request: page aligned or not, and its size. *)
Fixpoint serve (rs : list (bool * Z)) : M machine (list (Z * Z)) :=
  match rs with
  | [] => mret []
  | (al, sz) :: rs =>
      p ← (if (al : bool) then kmalloc_a sz else kmalloc sz);
      bs ← serve rs;
      mret ((p, sz) :: bs)
  end.

(** The heap the requests can use at most, each aligned. *)
Fixpoint room (rs : list (bool * Z)) : Z :=
  match rs with [] => 0 | (_, sz) :: rs => sz + 0x1000 + room rs end.

(** Blocks one after the other from [lo]. *)
Fixpoint ascending (lo : Z) (bs : list (Z * Z)) : Prop :=
  match bs with [] => True | (p, sz) :: bs => lo ≤ p ∧ ascending (p + sz) bs end.

Lemma room_nonneg rs : Forall (λ r, 0 ≤ r.2) rs → 0 ≤ room rs.
Proof. induction 1 as [|[al sz] rs Hr _ IH]; simpl in *; lia. Qed.

Lemma serve_ok rs s :
  0 ≤ m_placement s → Forall (λ r, 0 ≤ r.2) rs → m_placement s + room rs < 2 ^ 64 →
  wp (serve rs) (λ bs s', ascending (m_placement s) bs ∧
    (bs.*2 = rs.*2) ∧ (∀ i p sz al, bs !! i = Some (p, sz) → rs !! i = Some (al, sz) → al = true → p mod 0x1000 = 0) ∧
    ∃ t, s' = set_placement t s ∧ m_placement s ≤ t ∧ Forall (λ b, b.1 + b.2 ≤ t) bs) s.
Proof.
  revert s. induction rs as [|[al sz] rs IH]; intros s H0 Hrs Hb; cbn [serve room] in *.
  - apply wp_ret. split; [done|]. split; [done|]. split; [done|].
    exists (m_placement s). split; [by destruct s|]. by split; [lia|constructor].
  - apply Forall_cons in Hrs as [Hsz Hrs]. cbn [snd] in Hsz. pose proof (room_nonneg rs Hrs).
    pose proof (page_up_spec (m_placement s)) as [Hup Hmod].
    pose (p := if al then page_up (m_placement s) else m_placement s).
    assert ((if al then kmalloc_a sz else kmalloc sz) s = Ok (p, set_placement (p + sz) s)) as E.
    { unfold p. destruct al; [apply kmalloc_a_spec|apply kmalloc_spec]; lia. }
    assert (m_placement s ≤ p < m_placement s + 0x1000) as Hp by (unfold p; destruct al; lia).
    apply wp_bind. eapply wp_intro; [exact E|].
    eapply wp_bind_mono; [apply IH; cbn [m_placement set_placement]; [lia|done|lia]|].
    intros bs s' (Hasc & Hszs & Hal & t & -> & Ht & Hbs). cbn [m_placement set_placement] in *. apply wp_ret.
    split; [split; [lia|done]|]. split; [by rewrite !fmap_cons, Hszs|]. split.
    + intros [|i] q z b; [|apply Hal]. intros [= <- _] [= <-] Hb'. unfold p. by rewrite Hb'.
    + exists t. split; [by destruct s|]. split; [lia|]. constructor; [cbn; lia|done].
Qed.

(** C38: the blocks a sequence of allocations returns are pairwise disjoint, of the
    sizes asked for, above everything allocated before, page aligned where that was
    asked, and below the new end of the heap -- as long as the heap pointer does not
    wrap; nothing else of the machine changes. *)
Theorem kmalloc_disjoint rs s :
  0 ≤ m_placement s → Forall (λ r, 0 ≤ r.2) rs → m_placement s + room rs < 2 ^ 64 →
  wp (serve rs) (λ bs s', bs.*2 = rs.*2 ∧
    (∀ i j p sz q sz', (i < j)%nat → bs !! i = Some (p, sz) → bs !! j = Some (q, sz') → p + sz ≤ q) ∧
    (∀ i p sz, bs !! i = Some (p, sz) → m_placement s ≤ p ∧ p + sz ≤ m_placement s') ∧
    (∀ i p sz, bs !! i = Some (p, sz) → rs !! i = Some (true, sz) → p mod 0x1000 = 0) ∧
    s' = set_placement (m_placement s') s) s.
Proof.
  intros H0 Hrs Hb. eapply wp_mono; [by apply serve_ok|].
  intros bs s' (Hasc & Hsz & Hal & t & -> & Ht & Hbs). split; [done|].
  assert (Forall (λ b, 0 ≤ b.2) bs) as Hpos.
  { apply Forall_forall. intros [p sz] Hin. apply (list_elem_of_fmap_2 snd) in Hin.
    rewrite Hsz in Hin. apply list_elem_of_fmap in Hin as ([al z] & -> & Hin).
    rewrite Forall_forall in Hrs. exact (Hrs _ Hin). }
  assert (∀ bs lo i p sz, Forall (λ b, 0 ≤ b.2) bs → ascending lo bs → bs !! i = Some (p, sz) → lo ≤ p) as Hlo.
  { clear. induction bs as [|[q z] bs IH]; intros lo i p sz Hp Ha Hi; [done|].
    apply Forall_cons in Hp as [Hz Hp]. destruct Ha as [Ha1 Ha2]. cbn in Hz.
    destruct i as [|i]; [injection Hi as <- <-; lia|]. specialize (IH _ i p sz Hp Ha2 Hi). lia. }
  split_and!.
  - clear - Hasc Hpos Hlo. revert Hasc. generalize (m_placement s) as lo.
    induction bs as [|[q z] bs IH]; intros lo Ha i j p sz p' sz' Hij Hi Hj; [done|].
    apply Forall_cons in Hpos as [Hz Hpos]. destruct Ha as [Ha1 Ha2].
    destruct j as [|j]; [lia|]. destruct i as [|i]; [|apply (IH Hpos _ Ha2 i j p sz p' sz'); [lia|done|done]].
    injection Hi as <- <-. by eapply Hlo.
  - intros i p sz Hi. split; [by eapply Hlo|]. rewrite Forall_forall in Hbs.
    by apply (Hbs (p, sz)), (list_elem_of_lookup_2 _ i).
  - intros i p sz Hi Hr. by eapply (Hal i p sz true).
  - by destruct s.
Qed.
End props.

Section witnesses.
#[local] Existing Instance ex_boot.

Lemma kmalloc_disjoint_witness :
  wp (serve [(false, 10); (true, 0x1000); (false, 7)])
    (λ bs s', bs = [(0x100001, 10); (0x101000, 0x1000); (0x102000, 7)])
    (Machine ∅ 0x100001 0x1000 0 false ∅).
Proof.
  pose proof (kmalloc_disjoint [(false, 10); (true, 0x1000); (false, 7)] (Machine ∅ 0x100001 0x1000 0 false ∅)
    ltac:(cbn; lia) ltac:(repeat constructor; cbn; lia) ltac:(cbn; lia)) as Hw.
  destruct (wp_inv _ _ _ Hw) as (bs & s' & E & _). eapply wp_intro; [exact E|].
  vm_compute in E. by injection E as <- _.
Defined.
End witnesses.
