(* ===== verification/PagingMap.v ===== *)
(** * Mapping and unmapping pages

    The contract of the paging interface ([asm/paging.h]) for the x86_64
    implementation: [map_page], [unmap_page] and [map_physical_range] change the
    translations they are asked to change, and no other, and leave no stale
    translation behind in the TLB. *)

From S2P Require Import Prelude Mm Paging64 PagingWalk PagingSpec.

(** ** Virtual pages *)

Definition canonical (v : Z) : Prop := 0 ≤ v < 2 ^ 47 ∨ 2 ^ 64 - 2 ^ 47 ≤ v < 2 ^ 64.

Lemma page_no_page v : page_no (v / 0x1000 * 0x1000) = page_no v.
Proof. unfold page_no. by rewrite Z.div_mul. Qed.

Lemma canonical_page v w :
  canonical v → canonical w → page_no v = page_no w → v / 0x1000 = w / 0x1000.
Proof.
  intros Hv Hw. unfold page_no.
  assert (∀ u, canonical u → u / 0x1000 = u / 0x1000 mod 2 ^ 36 +
            (if decide (u < 2 ^ 47) then 0 else 2 ^ 52 - 2 ^ 36) ∧
            (u < 2 ^ 47 ↔ u / 0x1000 mod 2 ^ 36 < 2 ^ 35)) as Hu.
  { intros u Hu. pose proof (Z.div_mod u 0x1000 ltac:(lia)).
    pose proof (Z.mod_pos_bound u 0x1000 ltac:(lia)). set (q := u / 0x1000) in *.
    case_decide as Hd.
    - rewrite Z.mod_small by (destruct Hu; lia). split; [lia|]. split; [|lia].
      intros. destruct Hu; lia.
    - assert (q mod 2 ^ 36 = q - (2 ^ 52 - 2 ^ 36)) as ->; [|destruct Hu; lia].
      symmetry. apply (Z.mod_unique _ _ (2 ^ 16 - 1)); destruct Hu; lia. }
  destruct (Hu v Hv) as [Ev Bv], (Hu w Hw) as [Ew Bw]. intros E. rewrite Ev, Ew.
  do 2 case_decide; lia.
Qed.

(** The rights above the page table depend on the page only. *)
Lemma rights_page m root v w :
  page_no v = page_no w → rights_above m root v = rights_above m root w.
Proof.
  intros Ha%agree_page. unfold rights_above.
  assert (∀ k r a, (k ≤ 3)%nat → rights m k r v a = rights m k r w a) as H; [|by apply H].
  intros k. induction k as [|k IH]; intros r a Hk; [done|]. cbn [rights].
  rewrite (Ha (S k)) by lia. destruct is_table; [|done]. apply IH. lia.
Qed.

(** Cached translations are those of the tables at [root]. *)
Definition tlb_ok (root : Z) (s : machine) : Prop :=
  ∀ pg e, m_tlb s !! pg = Some e →
    canonical pg ∧ pg mod 0x1000 = 0 ∧ translate (m_mem s) root pg = Some e.

Section map.
Context `{BI : BootInfo} `{BO : !BootOk BI}.

Lemma tlb_ok_grow root n s s' : pg_grow root n s s' → tlb_ok root s → tlb_ok root s'.
Proof.
  intros Hg Ht pg e He. pose proof (pg_tlb _ _ _ _ Hg) as Hsub.
  pose proof (lookup_weaken _ _ _ _ He Hsub) as He'.
  destruct (Ht pg e He') as (? & ? & ?). by rewrite (pg_translate _ _ _ _ Hg).
Qed.

Lemma pg_inv_tlb root hi s f : pg_inv root hi s → pg_inv root hi (set_tlb f s).
Proof. by intros [????]. Qed.

(** ** Writing a page-table entry *)

Section entry.
Context (root hi : Z) (s : machine) (Hinv : pg_inv root hi s).
Context (v t : Z) (Hin : (0%nat, t) ∈ trail (m_mem s) 3 root v).
Abbreviation x := (t + 8 * index 0 v).

Lemma entry_dm : 0 ≤ x < dm_size.
Proof using BO Hinv Hin. by apply (entry_at_dm _ _ _ _ _ _ Hinv Hin). Qed.

Lemma set_entry_inv e : 0 ≤ e < 2 ^ 64 → pg_inv root hi (set_mem <[x := e]> s).
Proof using Hinv Hin.
  intros He. destruct Hinv as [Hw Hwf Hhi Hlo]. split; [|by apply leaf_wf with (v := v)|done..].
  by apply words_insert.
Qed.

Lemma set_entry_translate e w :
  translate (<[x := e]> (m_mem s)) root w =
    if decide (page_no w = page_no v) then
      if present e then
        Some (PAGE_GET_ADDR e, restrict (rights_above (m_mem s) root v) e)
      else None
    else translate (m_mem s) root w.
Proof using Hinv Hin.
  case_decide as Hp.
  - rewrite (leaf_translate_same _ _ _ _ _ (pi_wf _ _ _ Hinv) _ _ Hin) by done.
    rewrite leaf_frame_0. destruct (present e); [|done]. do 3 f_equal.
    by apply rights_page.
  - apply (leaf_translate_other _ _ _ _ _ (pi_wf _ _ _ Hinv) _ _ Hin). congruence.
Qed.

(** What the processor reads for [v] is what the entry says. *)
Lemma entry_translate :
  translate (m_mem s) root v =
    if present (rd (m_mem s) x) then
      Some (PAGE_GET_ADDR (rd (m_mem s) x),
            restrict (rights_above (m_mem s) root v) (rd (m_mem s) x))
    else None.
Proof using Hin.
  unfold translate. rewrite (walk_rights _ _ _ _ _ t) by done. cbn [walk].
  destruct (present _); [|done]. cbn [negb]. by rewrite leaf_frame_0.
Qed.
End entry.

(** ** The rest of memory *)

(** Memory differs in the tables and in what was taken from the heap only. *)
Definition pg_kept (root : Z) (s s' : machine) : Prop :=
  m_placement s ≤ m_placement s' ∧
  ∀ a, apart root (m_mem s) a → ¬ (m_placement s - hhdm_offset ≤ a < m_placement s' - hhdm_offset) →
    rd (m_mem s') a = rd (m_mem s) a ∧ apart root (m_mem s') a.

Lemma pg_kept_grow root n s s' : pg_grow root n s s' → pg_kept root s s'.
Proof. intros [_ _ _ _ ? _ Hf]. by split. Qed.

Lemma pg_kept_trans root s1 s2 s3 : pg_kept root s1 s2 → pg_kept root s2 s3 → pg_kept root s1 s3.
Proof.
  intros [P1 K1] [P2 K2]. split; [lia|]. intros a Ha Hn. destruct (K1 a Ha ltac:(lia)) as [E1 Ha2].
  destruct (K2 a Ha2 ltac:(lia)) as [E2 Ha3]. split; [congruence|done].
Qed.

(** A store to an entry of a page table. *)
Lemma pg_kept_entry root hi s s' v t e :
  pg_inv root hi s → (0%nat, t) ∈ trail (m_mem s) 3 root v →
  m_mem s' = <[t + 8 * index 0 v := e]> (m_mem s) → m_placement s' = m_placement s → pg_kept root s s'.
Proof.
  intros Hinv Hin Em Ep. unfold pg_kept. rewrite Em, Ep. split; [lia|]. intros a Ha _. split.
  - apply rd_insert_ne. pose proof (index_bound 0 v). specialize (Ha _ _ _ Hin). lia.
  - intros w j u. rewrite (leaf_trail _ _ _ _ _ (pi_wf _ _ _ Hinv) _ _ Hin). apply Ha.
Qed.

(** ** [map_page] *)

(** The entry [map_page] writes. *)
Definition pte_value (p : Z) (iskernel writeable : bool) : Z :=
  let e := p .| PAGE_PRESENT in
  let e := if writeable then e .| PAGE_WRITE else e in
  if negb iskernel then e .| PAGE_USER else e.

Lemma pte_value_spec p iskernel writeable acc :
  p mod 0x1000 = 0 → 0 ≤ p < 2 ^ 52 →
  let e := pte_value p iskernel writeable in
  0 ≤ e < 2 ^ 64 ∧ present e = true ∧ PAGE_GET_ADDR e = p ∧
  restrict acc e = Perms (p_write acc && writeable) (p_user acc && negb iskernel) (p_nx acc) false.
Proof.
  intros Ha Hp e.
  assert (∃ F, e = p .| F ∧ 0 ≤ F < 8 ∧ F .& PAGE_FRAME_MASK = 0 ∧
            F = 1 + 2 * b2z writeable + 4 * b2z (negb iskernel)) as (F & -> & HF & Hmask & EF).
  { unfold e, pte_value. destruct writeable, iskernel; cbn [negb];
      rewrite <- ?Z.lor_assoc; eexists; (split; [done|]); by vm_compute. }
  split; [|split; [|split]].
  - apply lor_bound; lia.
  - unfold present. rewrite entry_testbit by (done || lia). subst F. by destruct writeable, iskernel.
  - by apply entry_addr.
  - unfold restrict. rewrite !entry_testbit by (done || lia). rewrite EF.
    destruct writeable, iskernel; by rewrite ?orb_false_r.
Qed.

Definition page_of (v : Z) : Z := v / 0x1000 * 0x1000.

(** The stores of [map_page] to its entry add up to one. *)
Lemma map_page_stores s a p iskernel writeable v :
  0 ≤ a < dm_size →
  wp (st64 (a + hhdm_offset) (p .| PAGE_PRESENT) ;;
      when writeable (e ← ld64 (a + hhdm_offset); st64 (a + hhdm_offset) (e .| PAGE_WRITE)) ;;
      when (negb iskernel) (e ← ld64 (a + hhdm_offset); st64 (a + hhdm_offset) (e .| PAGE_USER)) ;;
      invalidate_page v)
     (λ _ s', s' = set_tlb (delete (page_of v))
                     (set_mem <[a := pte_value p iskernel writeable]> s)) s.
Proof using BO.
  intros Ha. unfold wp, mbind, M_bind. rewrite st64_dm by done.
  destruct writeable, iskernel; cbn [when negb mret M_ret];
    repeat (unfold mbind, M_bind, mret, M_ret; rewrite ?ld64_dm, ?st64_dm by done);
    unfold invalidate_page, modify, pte_value, page_of, PAGE_SIZE; cbn [negb];
    unfold set_tlb, set_mem; cbn [m_mem m_placement m_cr3 m_cr4 m_if m_tlb];
    rewrite ?rd_insert_eq, ?insert_insert_eq; done.
Qed.

(** Everything [map_page] does, in terms of translations. *)
Definition map_post (root hi : Z) (s : machine) (v p : Z) (iskernel writeable : bool)
    (s' : machine) : Prop :=
  pg_inv root hi s' ∧
  (∀ w, translate (m_mem s') root w =
     if decide (page_no w = page_no v) then
       let r := rights_above (m_mem s') root v in
       Some (page_of p, Perms (p_write r && writeable) (p_user r && negb iskernel) (p_nx r) false)
     else translate (m_mem s) root w) ∧
  m_cr3 s' = m_cr3 s ∧ next_page s' ≤ next_page s + 3 * 0x1000 ∧
  m_tlb s' ⊆ delete (page_of v) (m_tlb s) ∧ pg_kept root s s'.

Lemma page_of_idem v : page_of (page_of v) = page_of v.
Proof. unfold page_of. by rewrite Z.div_mul. Qed.

Lemma page_of_spec p : 0 ≤ p < 2 ^ 52 → page_of p mod 0x1000 = 0 ∧ 0 ≤ page_of p < 2 ^ 52.
Proof.
  intros Hp. unfold page_of. split; [by apply Z.mod_mul|].
  pose proof (Z.div_mod p 0x1000 ltac:(lia)). pose proof (Z.mod_pos_bound p 0x1000 ltac:(lia)). lia.
Qed.

Lemma map_page_ok root hi s v p iskernel writeable cr3 :
  pg_inv root hi s → root = PAGE_GET_ADDR cr3 → 0 ≤ root < dm_size →
  next_page s + 3 * 0x1000 ≤ hi → 0 ≤ v < 2 ^ 64 → 0 ≤ p < 2 ^ 52 →
  wp (map_page v p iskernel writeable cr3)
     (λ _ s', map_post root hi s v p iskernel writeable s') s.
Proof using BO.
  intros Hinv Hroot Hr Hroom Hv Hp. unfold map_page.
  rewrite !land_not_FFF by lia. fold (page_of v) (page_of p).
  destruct (page_of_spec p Hp) as [Hpa Hpb].
  eapply wp_bind_mono; [by apply (get_page_entry_ok root hi)|].
  intros pte s1 (Hinv1 & Hg & Hpte). destruct pte as [pte|]; [|by destruct Hpte].
  destruct Hpte as (t & -> & Hin).
  pose proof (entry_dm _ _ _ Hinv1 _ _ Hin) as Hx.
  eapply wp_mono; [by apply map_page_stores|]. intros _ s' ->.
  set (e := pte_value (page_of p) iskernel writeable).
  destruct (pte_value_spec (page_of p) iskernel writeable
              (rights_above (<[t + 8 * index 0 (page_of v) := e]> (m_mem s1)) root v) Hpa Hpb) as (He & Hpr & Had & Hre). fold e in He, Hpr, Had, Hre.
  assert (page_no (page_of v) = page_no v) as Hpn by apply page_no_page.
  split_and!.
  - by apply pg_inv_tlb, (set_entry_inv _ _ _ Hinv1 _ _ Hin).
  - intros w. cbn [m_mem set_tlb set_mem].
    rewrite (set_entry_translate _ _ _ Hinv1 _ _ Hin), Hpn.
    case_decide; [|apply Hg]. rewrite Hpr, Had. rewrite <- Hre. do 3 f_equal.
    rewrite (leaf_rights _ _ _ _ _ (pi_wf _ _ _ Hinv1) _ _ Hin). by apply rights_page.
  - apply Hg.
  - apply Hg.
  - cbn [m_tlb set_tlb set_mem].
    rewrite page_of_idem. apply delete_mono, Hg.
  - eapply pg_kept_trans; [by eapply pg_kept_grow|]. by eapply pg_kept_entry.
Qed.

(** ** [unmap_page] *)

Definition unmap_post (root hi : Z) (s : machine) (v : Z) (r : Z) (s' : machine) : Prop :=
  pg_inv root hi s' ∧ m_cr3 s' = m_cr3 s ∧
  match translate (m_mem s) root v with
  | None => r = 0 ∧ ∀ w, translate (m_mem s') root w = translate (m_mem s) root w
  | Some (frame, _) =>
      r = frame ∧
      ∀ w, translate (m_mem s') root w =
        if decide (page_no w = page_no v) then None else translate (m_mem s) root w
  end.

(** Memory differs in the tables and in the heap only. *)
Definition unmap_frame (root : Z) (s s' : machine) : Prop :=
  m_if s' = m_if s ∧ m_placement s ≤ m_placement s' ∧ next_page s' ≤ next_page s + 3 * 0x1000 ∧
  ∀ a, apart root (m_mem s) a →
    ¬ (m_placement s - hhdm_offset ≤ a < m_placement s' - hhdm_offset) →
    rd (m_mem s') a = rd (m_mem s) a ∧ apart root (m_mem s') a.

Lemma unmap_frame_grow root s s' : pg_grow root 3 s s' → unmap_frame root s s'.
Proof. intros [_ ? ? _ ? ? Hf]. split_and!; [done..|]. intros a Ha Hn. by apply Hf. Qed.

Lemma unmap_frame_entry root hi s s1 s' v t e :
  pg_grow root 3 s s1 → pg_inv root hi s1 → (0%nat, t) ∈ trail (m_mem s1) 3 root v →
  m_mem s' = <[t + 8 * index 0 v := e]> (m_mem s1) → m_placement s' = m_placement s1 →
  m_if s' = m_if s1 → unmap_frame root s s'.
Proof.
  intros Hg Hinv Hin Em Ep Ei.
  destruct (pg_kept_trans root s s1 s') as [P K]; [by eapply pg_kept_grow|by eapply pg_kept_entry|].
  destruct Hg as [_ _ ? _ _ ? _]. unfold unmap_frame, next_page in *. rewrite Ep, Ei in *. by split_and!.
Qed.

Lemma translate_same_page m root v w :
  page_no v = page_no w → translate m root v = translate m root w.
Proof.
  intros Hp. assert (agree 0 v w) as Ha by by apply agree_page.
  assert (∀ k u, (k ≤ 3)%nat →
    u mod 2 ^ level_bits k / 0x1000 = page_no u mod 2 ^ (9 * Z.of_nat k)) as Hoff.
  { intros k u Hk. unfold level_bits, page_no.
    rewrite Z.mod_mod_divide by (exists (2 ^ (36 - 9 * Z.of_nat k)); rewrite <- Z.pow_add_r by lia; f_equal; lia).
    replace (2 ^ (12 + 9 * Z.of_nat k)) with (0x1000 * 2 ^ (9 * Z.of_nat k))
      by (rewrite Z.pow_add_r by lia; done).
    rewrite Z.rem_mul_r by lia. rewrite (Z.mul_comm 0x1000), Z.div_add by lia.
    rewrite (Z.div_small (u mod 0x1000)) by (apply Z.mod_pos_bound; lia). done. }
  unfold translate. generalize (Perms true true false false). generalize root.
  assert (∀ k r a, (k ≤ 3)%nat → walk m k r v a = walk m k r w a) as H; [|auto].
  intros k. induction k as [|k IH]; intros r a Hk; cbn [walk]; rewrite (Ha _) by lia;
    unfold leaf_frame; rewrite !Hoff, Hp by lia; [done|]. destruct is_table; [|done].
  by rewrite IH by lia.
Qed.

Lemma translate_page m root v : translate m root (page_of v) = translate m root v.
Proof. apply translate_same_page, page_no_page. Qed.

Lemma unmap_page_ok root hi s v pml4 :
  pg_inv root hi s → root = PAGE_GET_ADDR pml4 → 0 ≤ root < dm_size →
  next_page s + 3 * 0x1000 ≤ hi → 0 ≤ v < 2 ^ 64 →
  wp (unmap_page v pml4)
     (λ r s', unmap_post root hi s v r s' ∧ m_tlb s' ⊆ m_tlb s ∧
        (translate (m_mem s) root v ≠ None → pml4 = cr3_to_pml4_addr (m_cr3 s) →
         m_tlb s' !! page_of v = None) ∧ unmap_frame root s s') s.
Proof using BO.
  intros Hinv Hroot Hr Hroom Hv. unfold unmap_page, unmap_post.
  rewrite land_not_FFF by lia. fold (page_of v). rewrite <- (translate_page _ _ v).
  eapply wp_bind_mono; [by apply (get_page_entry_ok root hi)|].
  intros pte s1 (Hinv1 & Hg & Hpte). destruct pte as [pte|].
  2: { destruct Hpte as [_ Hn]. apply wp_ret. rewrite Hn.
       split_and!; [done|apply Hg|done|apply Hg|apply Hg|done|by apply unmap_frame_grow]. }
  destruct Hpte as (t & -> & Hin). pose proof (entry_dm _ _ _ Hinv1 _ _ Hin) as Hx.
  apply wp_bind. eapply wp_intro; [by apply ld64_dm|]. rewrite nz_present.
  rewrite <- (pg_translate _ _ _ _ Hg), (entry_translate _ _ _ _ Hin).
  destruct (present _) eqn:Hp; cbn [negb].
  2: { apply wp_ret. split_and!; [done|apply Hg|done|apply Hg|apply Hg|done|by apply unmap_frame_grow]. }
  apply wp_bind. eapply wp_intro; [by apply st64_dm|].
  apply wp_bind, wp_gets. apply wp_bind. cbn [m_cr3 set_mem]. rewrite (pg_cr3 _ _ _ _ Hg).
  pose proof (set_entry_inv _ _ _ Hinv1 _ _ Hin 0 ltac:(lia)) as Hinv2.
  assert (∀ w, translate (<[t + 8 * index 0 (page_of v) := 0]> (m_mem s1)) root w =
     if decide (page_no w = page_no v) then None else translate (m_mem s) root w) as Htr.
  { intros w. rewrite (set_entry_translate _ _ _ Hinv1 _ _ Hin), (page_no_page v : page_no (page_of v) = _).
    rewrite (pg_translate _ _ _ _ Hg). done. }
  destruct (Z.eqb_spec pml4 (cr3_to_pml4_addr (m_cr3 s))) as [Hc|Hc]; cbn [when].
  - apply wp_modify, wp_ret. split_and!; [by apply pg_inv_tlb|apply Hg|done|done| | |].
    + cbn [m_tlb set_tlb set_mem]. etrans; [apply delete_subseteq|apply Hg].
    + intros _ _. cbn [m_tlb set_tlb set_mem]. unfold PAGE_SIZE.
      fold (page_of (page_of v)). rewrite page_of_idem. apply lookup_delete_eq.
    + by eapply unmap_frame_entry.
  - apply wp_ret, wp_ret. split_and!; [done|apply Hg|done|done|apply Hg|done|].
    by eapply unmap_frame_entry.
Qed.

(** ** [map_physical_range] *)

(** What mapping the frames [a, stop) has done: mapped pages are as they were, so
    are the pages of other frames, and the frames that were not mapped are. *)
Definition range_post (root hi a stop : Z) (s s' : machine) : Prop :=
  pg_inv root hi s' ∧ m_cr3 s' = m_cr3 s ∧
  (∀ w, translate (m_mem s) root w ≠ None →
     translate (m_mem s') root w = translate (m_mem s) root w) ∧
  (∀ w, (∀ b, b mod 0x1000 = 0 → a ≤ b < stop → page_no w ≠ page_no (b + hhdm_offset)) →
     translate (m_mem s') root w = translate (m_mem s) root w) ∧
  (∀ b, b mod 0x1000 = 0 → a ≤ b < stop → translate (m_mem s) root (b + hhdm_offset) = None →
     option_map fst (translate (m_mem s') root (b + hhdm_offset)) = Some b).

Lemma dm_canonical b : 0 ≤ b < dm_size → canonical (b + hhdm_offset).
Proof using BO.
  intros Hb. pose proof boot_hhdm. pose proof boot_image. unfold dm_size in *. right. lia.
Qed.

Lemma dm_page_inj a b :
  0 ≤ a < dm_size → 0 ≤ b < dm_size → a mod 0x1000 = 0 → b mod 0x1000 = 0 →
  page_no (a + hhdm_offset) = page_no (b + hhdm_offset) → a = b.
Proof using BO.
  intros Ha Hb Ea Eb Hp. apply canonical_page in Hp; [|by apply dm_canonical..].
  pose proof boot_hhdm_aligned as Eh.
  apply Z.mod_divide in Ea as [x ->], Eb as [y ->], Eh as [z Ez]; [|lia..].
  rewrite Ez in Hp. rewrite <- !Z.mul_add_distr_r, !Z.div_mul in Hp by lia. lia.
Qed.

(** One round of the loop. *)
Definition range_body (a : Z) (iskernel writeable : bool) (cr3 : Z) : M machine unit :=
  let virt := phys_to_virt a in
  pte ← get_page_entry virt false cr3;
  mapped ← match pte with
           | None => mret false
           | Some pte => e ← ld64 pte; mret (nz (e .& PAGE_PRESENT))
           end;
  when (negb mapped) (map_page virt a iskernel writeable cr3).

Lemma range_body_ok root hi s a iskernel writeable cr3 :
  pg_inv root hi s → root = PAGE_GET_ADDR cr3 → 0 ≤ root < dm_size →
  next_page s + 6 * 0x1000 ≤ hi → a mod 0x1000 = 0 → 0 ≤ a < dm_size →
  wp (range_body a iskernel writeable cr3)
     (λ _ s', range_post root hi a (a + 0x1000) s s' ∧
              next_page s' ≤ next_page s + 6 * 0x1000 ∧ pg_kept root s s') s.
Proof using BO.
  intros Hinv Hroot Hr Hroom Ha Hb. unfold range_body. rewrite p2v by done.
  pose proof boot_hhdm. pose proof boot_image. unfold dm_size in Hb.
  eapply wp_bind_mono; [apply (get_page_entry_ok root hi); [done..|lia]|].
  intros pte s1 (Hinv1 & Hg & Hpte). pose proof (pg_next _ _ _ _ Hg).
  assert (∀ m, m = bool_decide (translate (m_mem s) root (a + hhdm_offset) ≠ None) →
    wp (when (negb m) (map_page (a + hhdm_offset) a iskernel writeable cr3))
     (λ _ s', range_post root hi a (a + 0x1000) s s' ∧
              next_page s' ≤ next_page s + 6 * 0x1000 ∧ pg_kept root s s') s1) as Hfin.
  { intros m ->. case_bool_decide as Hm; cbn [negb when].
    - apply wp_ret. split; [|split; [lia|by eapply pg_kept_grow]]. split_and!; [done|apply Hg|intros; apply Hg..|].
      intros b Eb Hab. assert (b = a) as -> by
        (apply Z.mod_divide in Eb as [x ->], Ha as [y ->]; lia). done.
    - eapply wp_mono; [apply (map_page_ok root hi); [done..|lia|lia|unfold dm_size in *; lia]|].
      intros _ s' (Hinv' & Htr & Hc & Hnp & _ & Hk).
      split; [|split; [lia|eapply pg_kept_trans; [by eapply pg_kept_grow|done]]].
      split_and!; [done|rewrite Hc; apply Hg| | |].
      + intros w Hw. rewrite Htr. case_decide as Hp; [|apply Hg].
        exfalso. apply Hw. by rewrite (translate_same_page _ _ _ _ Hp).
      + intros w Hw. rewrite Htr. case_decide as Hp; [|apply Hg].
        exfalso. apply (Hw a); [done|lia|done].
      + intros b Eb Hab Hn. assert (b = a) as ->.
        { apply Z.mod_divide in Eb as [x ->], Ha as [y ->]; lia. }
        rewrite Htr, decide_True by done. cbn. f_equal. unfold page_of.
        pose proof (Z.div_mod a 0x1000 ltac:(lia)). lia. }
  destruct pte as [pte|].
  - destruct Hpte as (t & -> & Hin). apply wp_bind, wp_bind.
    eapply wp_intro; [apply ld64_dm; by apply (entry_dm _ _ _ Hinv1 _ _ Hin)|]. apply wp_ret.
    apply Hfin. rewrite nz_present, <- (pg_translate _ _ _ _ Hg), (entry_translate _ _ _ _ Hin).
    by destruct (present _).
  - apply wp_bind, wp_ret, Hfin. by destruct Hpte as [_ ->].
Qed.

Lemma range_post_trans root hi a b c s1 s2 s3 :
  a ≤ b ≤ c → 0 ≤ a → c ≤ dm_size →
  range_post root hi a b s1 s2 → range_post root hi b c s2 s3 → range_post root hi a c s1 s3.
Proof using BO.
  intros Hab H0 Hc (I1 & C1 & K1 & O1 & N1) (I2 & C2 & K2 & O2 & N2).
  split_and!; [done|congruence| | |].
  - intros w Hw. rewrite K2; rewrite K1; done.
  - intros w Hw. rewrite O2, O1; [done|..]; intros x Ex Hx; apply Hw; (done || lia).
  - intros x Ex Hx Hn. destruct (Z.lt_ge_cases x b).
    + rewrite K2; [apply N1; (done || lia)|].
      intros Hn'. specialize (N1 x Ex ltac:(lia) Hn). by rewrite Hn' in N1.
    + apply N2; [done|lia|]. rewrite O1; [done|].
      intros y Ey Hy Hp. apply dm_page_inj in Hp; [lia|lia|lia|done|done].
Qed.

Lemma map_range_loop_ok n root hi s a stop iskernel writeable cr3 :
  pg_inv root hi s → root = PAGE_GET_ADDR cr3 → 0 ≤ root < dm_size →
  a mod 0x1000 = 0 → 0 ≤ a → stop = a + Z.of_nat n * 0x1000 → stop ≤ dm_size →
  next_page s + 6 * Z.of_nat n * 0x1000 ≤ hi →
  wp (map_range_loop n a stop iskernel writeable cr3)
     (λ _ s', range_post root hi a stop s s' ∧ next_page s' ≤ next_page s + 6 * Z.of_nat n * 0x1000 ∧ pg_kept root s s') s.
Proof using BO.
  revert s a. induction n as [|n IH]; intros s a Hinv Hroot Hr Ha H0 Hstop Hdm Hroom;
    cbn [map_range_loop].
  - rewrite (proj2 (Z.ltb_ge a stop)) by lia. apply wp_ret.
    split; [split_and!; try done; lia|]. split; [lia|]. by split; [lia|].
  - rewrite (proj2 (Z.ltb_lt a stop)) by lia. cbn [negb].
    pose proof boot_hhdm. pose proof boot_image.
    pose proof (range_body_ok root hi s a iskernel writeable cr3 Hinv Hroot Hr) as Hbody.
    assert (wp (range_body a iskernel writeable cr3 ≫=
                λ _, map_range_loop n (u64 (a + 0x1000)) stop iskernel writeable cr3)
              (λ _ s', range_post root hi a stop s s' ∧ next_page s' ≤ next_page s + 6 * Z.of_nat (S n) * 0x1000 ∧ pg_kept root s s') s) as Hw.
    { eapply wp_bind_mono; [apply Hbody; (done || lia)|]. intros _ s1 (Hp & Hn & Hk).
      rewrite wrap_small by (unfold dm_size in *; lia).
      eapply wp_mono.
      { apply (IH s1 (a + 0x1000)); try done; try lia; [apply Hp|].
        by rewrite <- Zplus_mod_idemp_r, Z.add_0_r. }
      intros [] s2 (Hp2 & Hn2 & Hk2). split; [eapply range_post_trans; [|done| |done|done]; lia|].
      split; [lia|by eapply pg_kept_trans]. }
    unfold wp in *. unfold range_body in Hw. rewrite M_bind_assoc in Hw.
    unfold mbind, M_bind in *.
    destruct (get_page_entry _ _ _ s) as [[pte s1]| | | |]; try done.
    destruct pte as [pte|]; [|exact Hw].
    by destruct (ld64 pte s1) as [[e s2]| | | |].
Qed.

(** The whole of [map_physical_range]. *)
Lemma map_physical_range_ok root hi s phys size iskernel writeable cr3 n :
  pg_inv root hi s → root = PAGE_GET_ADDR cr3 → 0 ≤ root < dm_size →
  0 ≤ phys → 0 ≤ size < 2 ^ 32 → page_up (phys + size) ≤ dm_size →
  n = (page_up (phys + size) - page_of phys) / 0x1000 →
  next_page s + 6 * n * 0x1000 ≤ hi →
  wp (map_physical_range phys size iskernel writeable cr3)
     (λ _ s', range_post root hi (page_of phys) (page_up (phys + size)) s s' ∧ next_page s' ≤ next_page s + 6 * n * 0x1000 ∧
        pg_kept root s s') s.
Proof using BO.
  intros Hinv Hroot Hr Hp Hs Hdm Hn Hroom. unfold map_physical_range.
  pose proof boot_hhdm. pose proof boot_image. unfold dm_size in *.
  pose proof (page_up_spec (phys + size)) as [Hup Hupa].
  rewrite wrap_small, !land_not_FFF by lia.
  fold (page_of phys). fold (page_up (phys + size)). rewrite <- Hn.
  assert (page_of phys ≤ phys ∧ 0 ≤ page_of phys ∧ page_of phys mod 0x1000 = 0) as (Hlo & H0' & Hpa).
  { unfold page_of. pose proof (Z.div_mod phys 0x1000 ltac:(lia)).
    pose proof (Z.mod_pos_bound phys 0x1000 ltac:(lia)).
    split_and!; [lia..|]. by apply Z.mod_mul. }
  assert (page_up (phys + size) - page_of phys = n * 0x1000) as Hlen.
  { rewrite Hn. apply Z.mod_divide in Hupa as [x ->], Hpa as [y ->]; [|lia..].
    rewrite <- Z.mul_sub_distr_r, Z.div_mul by lia. done. }
  assert (Z.of_nat (Z.to_nat n) = n) as En by (rewrite Z2Nat.id; lia).
  eapply wp_mono; [apply (map_range_loop_ok (Z.to_nat n) root hi); try done; rewrite ?En; unfold dm_size; lia|].
  cbv beta. rewrite En. by intros [] s'.
Qed.

(** ** The TLB *)

(** A changed translation whose cached copy was dropped leaves the TLB coherent. *)
Lemma tlb_ok_change root s s' v :
  tlb_ok root s → canonical v →
  (∀ w, page_no w ≠ page_no v → translate (m_mem s') root w = translate (m_mem s) root w) →
  m_tlb s' ⊆ delete (page_of v) (m_tlb s) → tlb_ok root s'.
Proof.
  intros Ht Hv Htr Hsub pg e He. pose proof (lookup_weaken _ _ _ _ He Hsub) as He'.
  apply lookup_delete_Some in He' as [Hne He'].
  destruct (Ht pg e He') as (Hc & Ha & Htp). split; [done|split; [done|]].
  rewrite Htr; [done|]. intros Hp. apply Hne.
  pose proof (canonical_page _ _ Hv Hc (eq_sym Hp)) as Heq. unfold page_of. rewrite Heq.
  pose proof (Z.div_mod pg 0x1000 ltac:(lia)). lia.
Qed.
End map.
