(* ===== verification/PagingProps.v ===== *)
(** * The paging theorems

    The properties of the x86_64 paging code, each with the concrete machine
    that shows its hypotheses can hold: the direct map at its usual place, the
    first gigabyte of it one huge page, and a heap from 1 MiB to 2 MiB. *)

From S2P Require Import Prelude Mm Paging64 PagingWalk PagingSpec PagingMap.

(** ** A concrete machine *)

#[local] Existing Instance ex_boot.
#[local] Existing Instance ex_boot_ok.

Definition ex_mem : gmap Z Z :=
  <[0x1000 + 8 * 256 := 0x2003]> (<[0x2000 := 0x83]> ∅).

Definition ex_machine : machine :=
  Machine ex_mem (0xffff800000000000 + 0x100000) 0x1000 0 false
    {[ 0xffff800000003000 := (0x3000, Perms true false false false) ]}.

Lemma ex_trail v j t :
  (j, t) ∈ trail ex_mem 3 0x1000 v →
  (j = 3%nat ∧ t = 0x1000) ∨ (j = 2%nat ∧ t = 0x2000 ∧ index 3 v = 256).
Proof.
  intros H. cbn [trail] in H. apply elem_of_cons in H as [[= -> ->]|H]; [by left|]. right.
  pose proof (index_bound 3 v). pose proof (index_bound 2 v).
  assert (index 3 v = 256) as Hi.
  { destruct (decide (index 3 v = 256)) as [|Hn]; [done|].
    unfold ex_mem in H. rewrite rd_insert_ne, rd_insert_ne in H by lia. by apply elem_of_nil in H. }
  rewrite Hi in H. change (rd ex_mem (0x1000 + 8 * 256)) with 0x2003 in H.
  cbn [is_table present] in H. change (is_table 3 0x2003) with true in H.
  change (PAGE_GET_ADDR 0x2003) with 0x2000 in H. cbn [trail] in H.
  apply elem_of_cons in H as [[= -> ->]|H]; [done|]. exfalso.
  assert (is_table 2 (rd ex_mem (0x2000 + 8 * index 2 v)) = false) as Hf.
  { unfold ex_mem. rewrite rd_insert_ne by lia.
    destruct (decide (index 2 v = 0)) as [->|]; [done|]. by rewrite rd_insert_ne by lia. }
  rewrite Hf in H. by apply elem_of_nil in H.
Qed.

Lemma ex_inv : pg_inv 0x1000 0x200000 ex_machine.
Proof.
  split; [|split| |]; cbn [m_mem m_placement ex_machine].
  - apply words_insert; [apply words_insert|]; [|lia|lia]. intros a. unfold rd. rewrite lookup_empty. simpl. lia.
  - intros v j t [[-> ->]|(-> & -> & _)]%ex_trail; (vm_compute; split_and!; [done..|by left]).
  - intros v v' j j' t [[-> ->]|(-> & -> & Hv)]%ex_trail [[-> E]|(-> & E & Hv')]%ex_trail; try done.
    + split; [done|]. intros j Hj. lia.
    + split; [done|]. intros j Hj. assert (j = 3%nat) as -> by lia. congruence.
  - by vm_compute.
  - by vm_compute.
Qed.

(** ** Properties *)

Section props.
Context `{BI : BootInfo} `{BO : !BootOk BI}.

(** Looking up (or creating) the page-table entry of [v] ends at the entry the
    processor reads for [v], changes no translation of any address -- also when
    a 1 GiB or 2 MiB page on the way is split -- and, without [create], fails
    only if [v] is not mapped. *)
Theorem get_page_entry_transparent root hi s v create cr3 :
  pg_inv root hi s → root = PAGE_GET_ADDR cr3 → 0 ≤ root < dm_size →
  next_page s + 3 * 0x1000 ≤ hi →
  wp (get_page_entry v create cr3)
     (λ r s', pg_inv root hi s' ∧
        (∀ w, translate (m_mem s') root w = translate (m_mem s) root w) ∧
        match r with
        | Some p => ∃ t, p = t + 8 * PT_INDEX v + hhdm_offset ∧
                         (0%nat, t) ∈ trail (m_mem s') 3 root v
        | None => create = false ∧ translate (m_mem s) root v = None
        end) s.
Proof using BO.
  intros Hinv Hroot Hr Hroom. eapply wp_mono; [by apply (get_page_entry_ok root hi)|].
  intros r s' (H1 & H2 & H3). split; [done|]. split; [apply H2|done].
Qed.

(** C2: [map_page] makes the page of [v] translate to the frame of [p], with the
    rights asked for as far as the levels above grant them, and changes no other
    page; a coherent TLB stays coherent. *)
Theorem map_page_correct root hi s v p iskernel writeable cr3 :
  pg_inv root hi s → root = PAGE_GET_ADDR cr3 → 0 ≤ root < dm_size →
  next_page s + 3 * 0x1000 ≤ hi → canonical v → 0 ≤ p < 2 ^ 52 → tlb_ok root s →
  wp (map_page v p iskernel writeable cr3)
     (λ _ s', pg_inv root hi s' ∧ tlb_ok root s' ∧
        ∀ w, translate (m_mem s') root w =
          if decide (page_no w = page_no v) then
            let r := rights_above (m_mem s') root v in
            Some (page_of p,
                  Perms (p_write r && writeable) (p_user r && negb iskernel) (p_nx r) false)
          else translate (m_mem s) root w) s.
Proof using BO.
  intros Hinv Hroot Hr Hroom Hv Hp Ht.
  eapply wp_mono; [apply (map_page_ok root hi); (done || (destruct Hv; lia))|].
  intros _ s' (H1 & H2 & _ & _ & H3 & _). split_and!; [done| |done].
  eapply (tlb_ok_change _ s _ v); [done|done| |done].
  intros w Hw. by rewrite H2, decide_False.
Qed.

(** C8: [unmap_page] returns the frame the page of [v] translated to and leaves the
    page unmapped, or returns 0 if it was not mapped; every other page keeps its
    translation, and a coherent TLB stays coherent when the table is the active
    one. *)
Theorem unmap_page_correct root hi s v :
  pg_inv root hi s → root = cr3_to_pml4_addr (m_cr3 s) → 0 ≤ root < dm_size →
  next_page s + 3 * 0x1000 ≤ hi → canonical v → tlb_ok root s →
  wp (unmap_page v root)
     (λ r s', pg_inv root hi s' ∧ tlb_ok root s' ∧
        r = match translate (m_mem s) root v with Some (frame, _) => frame | None => 0 end ∧
        ∀ w, translate (m_mem s') root w =
          if decide (page_no w = page_no v) then None else translate (m_mem s) root w) s.
Proof using BO.
  intros Hinv Hroot Hr Hroom Hv Ht.
  assert (root = PAGE_GET_ADDR root) as Hroot'.
  { rewrite Hroot. unfold cr3_to_pml4_addr, PAGE_GET_ADDR. by rewrite <- Z.land_assoc, Z.land_diag. }
  eapply wp_mono; [apply (unmap_page_ok root hi); (done || (destruct Hv; lia))|].
  intros r s' ((H1 & _ & H2) & Htlb & Hdrop & _). destruct (translate (m_mem s) root v) as [[fr pm]|] eqn:Ev.
  - destruct H2 as [-> H2]. split_and!; [done| |done|done].
    apply (tlb_ok_change _ s _ v); [done|done| |].
    + intros w Hw. by rewrite H2, decide_False.
    + apply map_subseteq_spec. intros k e He. apply lookup_delete_Some. split.
      * intros <-. rewrite Hdrop in He; done.
      * by eapply lookup_weaken.
  - destruct H2 as [-> H2]. split_and!; [done| |done|].
    + intros pg e He. rewrite H2. apply Ht. by eapply lookup_weaken.
    + intros w. rewrite H2. case_decide as Hp; [|done]. by rewrite (translate_same_page _ _ _ _ Hp).
Qed.

(** [map_physical_range] maps every frame that overlaps [phys, phys + size) at its
    direct-map address if that page was not mapped, leaves pages that were
    mapped as they are, touches no page outside the range, and ends. *)
Theorem map_physical_range_correct root hi s phys size iskernel writeable cr3 n :
  pg_inv root hi s → root = PAGE_GET_ADDR cr3 → 0 ≤ root < dm_size →
  0 ≤ phys → 0 ≤ size < 2 ^ 32 → page_up (phys + size) ≤ dm_size →
  n = (page_up (phys + size) - page_of phys) / 0x1000 →
  next_page s + 6 * n * 0x1000 ≤ hi →
  wp (map_physical_range phys size iskernel writeable cr3)
     (λ _ s', range_post root hi (page_of phys) (page_up (phys + size)) s s') s.
Proof using BO.
  intros. eapply wp_mono; [by eapply map_physical_range_ok|]. by intros [] s' [? _].
Qed.
End props.

(** ** Witnesses *)

Lemma ex_tlb_ok : tlb_ok 0x1000 ex_machine.
Proof.
  intros pg e He. cbn [m_tlb ex_machine] in He. apply lookup_singleton_Some in He as [<- <-].
  split_and!; [right; lia|done|by vm_compute].
Qed.

Lemma get_page_entry_transparent_witness :
  wp (get_page_entry 0xffff800000005000 false 0x1000)
     (λ r s', ∀ w, translate (m_mem s') 0x1000 w = translate ex_mem 0x1000 w) ex_machine.
Proof.
  eapply wp_mono.
  { apply (get_page_entry_transparent 0x1000 0x200000 ex_machine); [exact ex_inv|done|by vm_compute|by vm_compute]. }
  intros r s' (_ & H & _). exact H.
Defined.

Lemma map_page_correct_witness :
  wp (map_page 0xffff800000005000 0x7abc true true 0x1000)
     (λ _ s', option_map fst (translate (m_mem s') 0x1000 0xffff800000005123) = Some 0x7000)
     ex_machine.
Proof.
  eapply wp_mono.
  { apply (map_page_correct 0x1000 0x200000 ex_machine);
      [exact ex_inv|done|by vm_compute|by vm_compute|right; lia|lia|exact ex_tlb_ok]. }
  intros r s' (_ & _ & H). by rewrite H, decide_True.
Defined.

Lemma unmap_page_correct_witness :
  wp (unmap_page 0xffff800000003000 0x1000)
     (λ r s', r = 0x3000 ∧ translate (m_mem s') 0x1000 0xffff800000003000 = None) ex_machine.
Proof.
  eapply wp_mono.
  { apply (unmap_page_correct 0x1000 0x200000 ex_machine);
      [exact ex_inv|done|by vm_compute|by vm_compute|right; lia|exact ex_tlb_ok]. }
  intros r s' (_ & _ & -> & H). split; [by vm_compute|by rewrite H, decide_True].
Defined.

Lemma map_physical_range_correct_witness :
  wp (map_physical_range 0x40001234 0x2000 true false 0x1000)
     (λ _ s', option_map fst (translate (m_mem s') 0x1000 (0x40002000 + 0xffff800000000000))
              = Some 0x40002000) ex_machine.
Proof.
  eapply wp_mono.
  { apply (map_physical_range_correct 0x1000 0x200000 ex_machine 0x40001234 0x2000 true false 0x1000 3);
      [exact ex_inv|done|by vm_compute|lia|lia|by vm_compute|by vm_compute|by vm_compute]. }
  intros r s' (_ & _ & _ & _ & H). apply H; by vm_compute.
Defined.

(** A page that [map_page] is asked to map for user mode, below a part of the
    address space that had no tables yet. *)
Definition ex_user_page : option (Z * perms) :=
  match map_page 0x400000 0x7000 false true 0x1000 ex_machine with
  | Ok (_, s') => translate (m_mem s') 0x1000 0x400000
  | _ => None
  end.

(** A user page mapped through tables [get_page_entry] had to create is not
    accessible from user mode, although its own entry has the user bit: the new
    upper-level entries are written without it. *)
Theorem map_page_user_inaccessible :
  ex_user_page = Some (0x7000, Perms true false false false).
Proof. by vm_compute. Qed.
