(* ===== verification/Context.v ===== *)
(** * Context switching ([arch/x86_64/asm/swtch.S], [process.c])

    The assembly of [swtch] and [clone_parent_base_frame] as register and stack
    operations, the initial frame [init_stack] builds, and the stack copy of
    [fork] ([clone_stack_rebased]).  Stack memory is the physical memory of
    [Mm], one 64-bit word per slot. *)

From S2P Require Import Prelude Mm Paging64 PagingWalk PagingSpec.

(** The callee-saved registers, the stack pointer and the program counter; [rax]
    carries return values. *)
Record regs := Regs {
  rsp : Z; rbp : Z; rbx : Z; r12 : Z; r13 : Z; r14 : Z; r15 : Z; rip : Z; rax : Z;
}.

Record cpu := Cpu { c_regs : regs; c_mach : machine }.

Definition set_rsp (x : Z) (r : regs) : regs :=
  Regs x (rbp r) (rbx r) (r12 r) (r13 r) (r14 r) (r15 r) (rip r) (rax r).
Definition set_rip (x : Z) (r : regs) : regs :=
  Regs (rsp r) (rbp r) (rbx r) (r12 r) (r13 r) (r14 r) (r15 r) x (rax r).
Definition set_rax (x : Z) (r : regs) : regs :=
  Regs (rsp r) (rbp r) (rbx r) (r12 r) (r13 r) (r14 r) (r15 r) (rip r) x.
Definition set_saved (bp b x12 x13 x14 x15 : Z) (r : regs) : regs :=
  Regs (rsp r) bp b x12 x13 x14 x15 (rip r) (rax r).

Definition reg (f : regs → Z) : M cpu Z := gets (λ c, f (c_regs c)).
Definition upd (f : regs → regs) : M cpu unit := modify (λ c, Cpu (f (c_regs c)) (c_mach c)).

(** Run a machine operation on the memory of the processor. *)
Definition on_mach {A} (m : M machine A) : M cpu A := λ c,
  match m (c_mach c) with
  | Ok (a, s) => Ok (a, Cpu (c_regs c) s)
  | Panic msg => Panic msg
  | Halt => Halt
  | Fault a => Fault a
  | OutOfFuel => OutOfFuel
  end.

Section instructions.
Context `{BI : BootInfo}.

Definition push (v : Z) : M cpu unit :=
  sp ← reg rsp;
  upd (set_rsp (u64 (sp - 8))) ;;
  on_mach (st64 (u64 (sp - 8)) v).

Definition pop : M cpu Z :=
  sp ← reg rsp;
  v ← on_mach (ld64 sp);
  upd (set_rsp (u64 (sp + 8))) ;;
  mret v.

Definition ret : M cpu unit := a ← pop; upd (set_rip a).

(** The six callee-saved registers, pushed in this order, popped in the other. *)
Definition push_saved : M cpu unit :=
  a ← reg rbp; push a ;;
  a ← reg rbx; push a ;;
  a ← reg r12; push a ;;
  a ← reg r13; push a ;;
  a ← reg r14; push a ;;
  a ← reg r15; push a.

Definition pop_saved : M cpu unit :=
  x15 ← pop; x14 ← pop; x13 ← pop; x12 ← pop; b ← pop; bp ← pop;
  upd (set_saved bp b x12 x13 x14 x15).

(** [old_sp] is the address of the outgoing process's [context.sp]. *)
(* src/arch/x86_64/asm/swtch.S 1-25 swtch *)
Definition swtch (old_sp new_sp new_cr3 : Z) : M cpu unit :=
  push_saved ;;
  sp ← reg rsp;
  on_mach (st64 old_sp sp) ;;
  upd (set_rsp new_sp) ;;
  on_mach (write_cr3 new_cr3) ;;
  pop_saved ;;
  ret.

(** The frame [init_stack] seeds below [stack_end]: a padding word, the return
    address, and zeroes for the six registers.  The result is the [context.sp]
    of the new process. *)
(* src/kernel/scheduler/process.c 78-109 init_stack *)
Definition seed_frame (stack_end entry : Z) : M machine Z :=
  st64 (u64 (stack_end - 8)) 0 ;;
  st64 (u64 (stack_end - 16)) entry ;;
  st64 (u64 (stack_end - 24)) 0 ;;
  st64 (u64 (stack_end - 32)) 0 ;;
  st64 (u64 (stack_end - 40)) 0 ;;
  st64 (u64 (stack_end - 48)) 0 ;;
  st64 (u64 (stack_end - 56)) 0 ;;
  st64 (u64 (stack_end - 64)) 0 ;;
  mret (u64 (stack_end - 64)).

(** [memcpy] of [n] words. *)
Fixpoint memcpy_words (dst src : Z) (n : nat) : M machine unit :=
  match n with
  | O => mret tt
  | S n =>
      v ← ld64 src;
      st64 dst v ;;
      memcpy_words (u64 (dst + 8)) (u64 (src + 8)) n
  end.

(* src/arch/x86_64/switch.h 42-44 FORK_FRAME_FP_SLOT *)
Definition FORK_FRAME_FP_SLOT : Z := 5.

(** The walk along the saved frame pointers of the copy. *)
Fixpoint rebase_chain (fuel : nat) (slot delta frame parent_stack_top : Z) : M machine unit :=
  v ← ld64 slot;
  if negb ((frame <=? v) && (v <? parent_stack_top)) then mret tt else
  match fuel with
  | O => out_of_fuel
  | S fuel =>
      st64 slot (u64 (v + delta)) ;;
      slot' ← ld64 slot;
      rebase_chain fuel slot' delta frame parent_stack_top
  end.

(** Stack tops instead of processes: the caller looks the stack regions up. *)
(* src/kernel/scheduler/process.c 409-447 clone_stack_rebased *)
Definition clone_stack_rebased (child_stack_top parent_stack_top frame : Z) : M machine Z :=
  let delta := u64 (child_stack_top - parent_stack_top) in
  let child_frame := u64 (frame + delta) in
  memcpy_words child_frame frame (Z.to_nat ((parent_stack_top - frame) / 8)) ;;
  rebase_chain (Z.to_nat ((parent_stack_top - frame) / 8))
    (u64 (child_frame + 8 * FORK_FRAME_FP_SLOT)) delta frame parent_stack_top ;;
  mret child_frame.

(** Returns in the parent with 1; the frame left for the child resumes at
    [fork_child_resume].  The result is the child's [context.sp]. *)
(* src/arch/x86_64/asm/swtch.S 27-59 clone_parent_base_frame *)
Definition clone_parent_base_frame (fork_child_resume child_stack_top parent_stack_top : Z)
    : M cpu Z :=
  push fork_child_resume ;;
  push_saved ;;
  frame ← reg rsp;
  child_sp ← on_mach (clone_stack_rebased child_stack_top parent_stack_top frame);
  pop_saved ;;
  sp ← reg rsp;
  upd (set_rsp (u64 (sp + 8))) ;;
  upd (set_rax 1) ;;
  ret ;;
  mret child_sp.

(* src/arch/x86_64/asm/swtch.S 61-64 fork_child_resume *)
Definition fork_child_resume_code : M cpu unit := upd (set_rax 0) ;; ret.

(** The processor executes the code its instruction pointer leads to: [code], if that is
    at [addr].  What is anywhere else is not known. *)
Definition code_at (addr : Z) (code : M cpu unit) : M cpu unit :=
  a ← reg rip; if a =? addr then code else fault a.

(** ** Saved frames *)

(** The word a kernel pointer designates. *)
Definition word (m : gmap Z Z) (p : Z) : Z := rd m (virt_to_phys p).

(** The stack at [sp] holds what [swtch] needs to resume a thread with the
    registers [r]. *)
Definition saved_frame (m : gmap Z Z) (sp : Z) (r : regs) : Prop :=
  word m sp = r15 r ∧ word m (sp + 8) = r14 r ∧ word m (sp + 16) = r13 r ∧
  word m (sp + 24) = r12 r ∧ word m (sp + 32) = rbx r ∧ word m (sp + 40) = rbp r ∧
  word m (sp + 48) = rip r ∧ rsp r = sp + 56.

(** Physical words of a frame. *)
Definition frame_words (sp : Z) : list Z :=
  virt_to_phys <$> [sp; sp + 8; sp + 16; sp + 24; sp + 32; sp + 40; sp + 48].

Lemma saved_frame_ext m m' sp r :
  (∀ a, a ∈ frame_words sp → rd m' a = rd m a) → saved_frame m sp r → saved_frame m' sp r.
Proof.
  unfold saved_frame, word. intros H Hf.
  rewrite !H by (unfold frame_words; simpl; repeat constructor). done.
Qed.

Lemma push_ok r s v :
  8 ≤ rsp r < 2 ^ 64 →
  push v (Cpu r s) =
    Ok (tt, Cpu (set_rsp (rsp r - 8) r) (set_mem <[virt_to_phys (rsp r - 8) := v]> s)).
Proof.
  intros H. unfold push, reg, upd, on_mach, st64, gets, modify, mbind, M_bind.
  cbn [c_regs c_mach]. by rewrite wrap_small by lia.
Qed.

Lemma pop_ok r s :
  0 ≤ rsp r → rsp r + 8 < 2 ^ 64 →
  pop (Cpu r s) = Ok (word (m_mem s) (rsp r), Cpu (set_rsp (rsp r + 8) r) s).
Proof.
  intros H1 H2. unfold pop, reg, upd, on_mach, ld64, gets, modify, mbind, M_bind.
  cbn [c_regs c_mach]. by rewrite wrap_small by lia.
Qed.

Definition push_saved_mem (r : regs) (m : gmap Z Z) : gmap Z Z :=
  <[virt_to_phys (rsp r - 48) := r15 r]> (
  <[virt_to_phys (rsp r - 40) := r14 r]> (
  <[virt_to_phys (rsp r - 32) := r13 r]> (
  <[virt_to_phys (rsp r - 24) := r12 r]> (
  <[virt_to_phys (rsp r - 16) := rbx r]> (
  <[virt_to_phys (rsp r - 8) := rbp r]> m))))).

Lemma push_saved_ok r s :
  48 ≤ rsp r < 2 ^ 64 →
  push_saved (Cpu r s) = Ok (tt, Cpu (set_rsp (rsp r - 48) r) (set_mem (push_saved_mem r) s)).
Proof.
  intros H. unfold push_saved.
  assert (∀ (f : regs → Z) (k : Z → M cpu unit) r' s', (reg f ≫= k) (Cpu r' s') = k (f r') (Cpu r' s')) as Hr
    by done.
  repeat (rewrite Hr; try erewrite M_bind_Ok by (apply push_ok; cbn; lia)).
  rewrite push_ok by (cbn; lia). cbn. unfold push_saved_mem, set_mem. cbn.
  replace (rsp r - 8 - 8) with (rsp r - 16) by lia.
  replace (rsp r - 16 - 8) with (rsp r - 24) by lia.
  replace (rsp r - 24 - 8) with (rsp r - 32) by lia.
  replace (rsp r - 32 - 8) with (rsp r - 40) by lia.
  replace (rsp r - 40 - 8) with (rsp r - 48) by lia. done.
Qed.

Lemma pop_saved_ok r s sp :
  rsp r = sp → 0 ≤ sp → sp + 48 < 2 ^ 64 →
  pop_saved (Cpu r s) =
    Ok (tt, Cpu (Regs (sp + 48) (word (m_mem s) (sp + 40)) (word (m_mem s) (sp + 32))
                   (word (m_mem s) (sp + 24)) (word (m_mem s) (sp + 16)) (word (m_mem s) (sp + 8))
                   (word (m_mem s) sp) (rip r) (rax r)) s).
Proof.
  intros Hsp H0 Hb. unfold pop_saved.
  do 6 (erewrite M_bind_Ok by (apply pop_ok; cbn; lia)). cbn. rewrite Hsp.
  replace (sp + 8 + 8) with (sp + 16) by lia. replace (sp + 16 + 8) with (sp + 24) by lia.
  replace (sp + 24 + 8) with (sp + 32) by lia. replace (sp + 32 + 8) with (sp + 40) by lia.
  replace (sp + 40 + 8) with (sp + 48) by lia. done.
Qed.

(** Popping a saved frame and returning through it restores the thread. *)
Lemma pop_frame_ok r s r' sp :
  rsp r = sp → 0 ≤ sp → sp + 56 < 2 ^ 64 → saved_frame (m_mem s) sp r' → rax r' = rax r →
  (pop_saved ;; ret) (Cpu r s) = Ok (tt, Cpu r' s).
Proof.
  intros Hsp H0 Hb (H1 & H2 & H3 & H4 & H5 & H6 & H7 & H8) Hax.
  erewrite M_bind_Ok by (apply (pop_saved_ok _ _ sp); [done|done|lia]).
  unfold ret. erewrite M_bind_Ok by (apply pop_ok; cbn; lia). cbn.
  replace (sp + 48 + 8) with (sp + 56) by lia.
  rewrite H1, H2, H3, H4, H5, H6, H7. destruct r'; cbn in *. subst. done.
Qed.

(** The words [swtch] writes: the register frame below [rsp] and the slot that
    remembers where it is. *)
Definition saved_words (sp : Z) : list Z :=
  virt_to_phys <$> [sp - 48; sp - 40; sp - 32; sp - 24; sp - 16; sp - 8].

(** The thread calling [swtch] with stack pointer [rsp r] (return address on top
    of the stack), as it must be resumed later. *)
Definition resume_regs (m : gmap Z Z) (r : regs) : regs :=
  set_rip (word m (rsp r)) (set_rsp (rsp r + 8) r).

Definition swtch_mem (r : regs) (old_sp : Z) (m : gmap Z Z) : gmap Z Z :=
  <[virt_to_phys old_sp := rsp r - 48]> (push_saved_mem r m).

Lemma swtch_mem_out r old_sp m a :
  a ≠ virt_to_phys old_sp → a ∉ saved_words (rsp r) → rd (swtch_mem r old_sp m) a = rd m a.
Proof.
  intros H1 H2. unfold swtch_mem, push_saved_mem, saved_words in *. cbn [fmap list_fmap] in H2.
  rewrite !not_elem_of_cons in H2. rewrite !rd_insert_ne by tauto. done.
Qed.

Lemma swtch_mem_saves r old_sp m :
  NoDup (virt_to_phys old_sp :: saved_words (rsp r) ++ [virt_to_phys (rsp r)]) →
  saved_frame (swtch_mem r old_sp m) (rsp r - 48) (resume_regs m r) ∧
  word (swtch_mem r old_sp m) old_sp = rsp r - 48.
Proof.
  intros Hnd. split; [|apply rd_insert_eq].
  unfold saved_words in Hnd. cbn [fmap list_fmap app] in Hnd.
  rewrite !NoDup_cons, !not_elem_of_cons in Hnd. destruct_and! Hnd.
  unfold saved_frame, word, swtch_mem, push_saved_mem, resume_regs. cbn.
  replace (rsp r - 48 + 8) with (rsp r - 40) by lia. replace (rsp r - 48 + 16) with (rsp r - 32) by lia.
  replace (rsp r - 48 + 24) with (rsp r - 24) by lia. replace (rsp r - 48 + 32) with (rsp r - 16) by lia.
  replace (rsp r - 48 + 40) with (rsp r - 8) by lia. replace (rsp r - 48 + 48) with (rsp r) by lia.
  split_and!; [..|lia]; repeat first [rewrite rd_insert_eq | rewrite rd_insert_ne by congruence]; done.
Qed.

Lemma swtch_ok r s old_sp new_sp new_cr3 r' :
  48 ≤ rsp r < 2 ^ 64 → 0 ≤ new_sp → new_sp + 56 < 2 ^ 64 →
  saved_frame (swtch_mem r old_sp (m_mem s)) new_sp r' → rax r' = rax r →
  ∃ s', swtch old_sp new_sp new_cr3 (Cpu r s) = Ok (tt, Cpu r' s') ∧
        m_mem s' = swtch_mem r old_sp (m_mem s) ∧ m_cr3 s' = new_cr3 ∧ m_if s' = m_if s ∧
        m_placement s' = m_placement s.
Proof.
  intros Hr Hn1 Hn2 Hf Hax. unfold swtch.
  erewrite M_bind_Ok by by apply push_saved_ok.
  erewrite M_bind_Ok by done. erewrite M_bind_Ok by done. erewrite M_bind_Ok by done.
  erewrite M_bind_Ok by done. cbn [c_regs c_mach].
  eexists. split.
  - erewrite <- (pop_frame_ok _ _ r' new_sp); [reflexivity|done|done|done|exact Hf|done].
  - by split_and!.
Qed.

End instructions.
