(* ===== verification/ContextProps.v ===== *)
(** * Context-switch theorems

    A thread that [swtch] suspends is resumed with its registers, stack pointer
    and return address; a new process starts in [forkret] with the stack the ABI
    asks for; the child of [fork] resumes on a copy of its parent's stack whose
    frame-pointer chain points into the copy. *)

From S2P Require Import Prelude Mm Paging64 PagingWalk PagingSpec Context.

Section props.
Context `{BI : BootInfo} `{BO : !BootOk BI}.

(** Addresses in the direct map, where stacks are allocated. *)
Definition in_dm (v : Z) : Prop := hhdm_offset ≤ v < kernel_virt_base.

Lemma dm_v2p v : in_dm v → virt_to_phys v = v - hhdm_offset.
Proof using BO.
  intros Hv. unfold in_dm in Hv. pose proof boot_hhdm. pose proof boot_image.
  unfold virt_to_phys. rewrite (proj2 (Z.leb_gt _ _)) by lia. apply wrap_small. lia.
Qed.

Lemma dm_range v : in_dm v → 0 ≤ v < 2 ^ 64.
Proof using BO. unfold in_dm. pose proof boot_hhdm. pose proof boot_image. lia. Qed.

Lemma dm_neq v w : in_dm v → in_dm w → v ≠ w → virt_to_phys v ≠ virt_to_phys w.
Proof using BO. intros Hv Hw Hn. rewrite !dm_v2p by done. lia. Qed.

Lemma word_insert_ne m v w x :
  in_dm v → in_dm w → v ≠ w → word (<[virt_to_phys w := x]> m) v = word m v.
Proof using BO. intros. unfold word. apply rd_insert_ne. by apply dm_neq. Qed.

Lemma word_insert_eq m v x : word (<[virt_to_phys v := x]> m) v = x.
Proof. apply rd_insert_eq. Qed.

(** ** Copying a stack *)

Lemma memcpy_words_ok n s dst src :
  (n = O ∨ (in_dm dst ∧ in_dm (dst + 8 * Z.of_nat n - 1) ∧
            in_dm src ∧ in_dm (src + 8 * Z.of_nat n - 1))) →
  dst + 8 * Z.of_nat n ≤ src ∨ src + 8 * Z.of_nat n ≤ dst →
  ∃ m', memcpy_words dst src n s = Ok (tt, set_mem (λ _, m') s) ∧
    (∀ i, 0 ≤ i < Z.of_nat n → word m' (dst + 8 * i) = word (m_mem s) (src + 8 * i)) ∧
    (∀ a, in_dm a → ¬ (dst ≤ a < dst + 8 * Z.of_nat n) → word m' a = word (m_mem s) a).
Proof using BO.
  revert s dst src. induction n as [|n IH]; intros s dst src Hdm Hdis; cbn [memcpy_words].
  { exists (m_mem s). split; [by destruct s|]. split; [lia|done]. }
  destruct Hdm as [|(Hd1 & Hd2 & Hs1 & Hs2)]; [done|].
  pose proof boot_hhdm as Hb1. pose proof boot_image as Hb2. unfold in_dm in *.
  erewrite M_bind_Ok by done. erewrite M_bind_Ok by done.
  destruct n as [|n].
  { exists (<[virt_to_phys dst := word (m_mem s) src]> (m_mem s)). cbn [memcpy_words].
    split; [done|]. split.
    - intros i Hi. assert (i = 0) as -> by lia. rewrite !Z.mul_0_r, !Z.add_0_r. apply word_insert_eq.
    - intros a Ha Hn. apply word_insert_ne; unfold in_dm; lia. }
  rewrite !wrap_small by lia.
  edestruct (IH (set_mem <[virt_to_phys dst := word (m_mem s) src]> s) (dst + 8) (src + 8))
    as (m' & Hrun & Hin & Hout); [right; lia|lia|].
  exists m'. split; [exact Hrun|]. split.
  - intros i Hi. destruct (decide (i = 0)) as [->|Hi0].
    + rewrite Z.mul_0_r, !Z.add_0_r, Hout by (unfold in_dm; lia). apply word_insert_eq.
    + specialize (Hin (i - 1) ltac:(lia)).
      replace (dst + 8 + 8 * (i - 1)) with (dst + 8 * i) in Hin by lia.
      replace (src + 8 + 8 * (i - 1)) with (src + 8 * i) in Hin by lia.
      rewrite Hin. apply word_insert_ne; unfold in_dm; lia.
  - intros a Ha Hn. rewrite Hout by (unfold in_dm; lia). apply word_insert_ne; unfold in_dm; lia.
Qed.

(** ** The frame-pointer chain *)

Section chain.
Context (frame top D : Z).
Context (Hframe : in_dm frame) (Htop : in_dm (top - 1)).
Context (Hcf : in_dm (frame + D)) (Hct : in_dm (top - 1 + D)).

Definition in_stack (v : Z) : Prop := frame ≤ v < top.

(** [v], then the word it points to, and so on: the addresses [l], each above
    the one before, until a value outside the stack. *)
Fixpoint fp_chain (m : gmap Z Z) (lo v : Z) (l : list Z) : Prop :=
  match l with
  | [] => ¬ in_stack v
  | a :: l =>
      v = a ∧ lo ≤ a ∧ in_stack a ∧ (a - frame) mod 8 = 0 ∧ fp_chain m (a + 8) (word m a) l
  end.

Definition rebased (v : Z) : Z :=
  if (frame <=? v) && (v <? top) then v + D else v.

Lemma fp_chain_bounds m lo v l a :
  fp_chain m lo v l → a ∈ l → lo ≤ a ∧ in_stack a ∧ (a - frame) mod 8 = 0.
Proof.
  revert lo v. induction l as [|b l IH]; intros lo v; [by intros _ ?%elem_of_nil|].
  intros (-> & Hlo & Hin & Hal & Hc) [->|Ha]%elem_of_cons; [done|].
  destruct (IH _ _ Hc Ha) as (H1 & H2 & H3). split_and!; [lia|apply H2..|done].
Qed.

Lemma fp_chain_length m lo v l :
  fp_chain m lo v l → frame ≤ lo → lo + 8 * Z.of_nat (length l) ≤ Z.max lo (top + 7).
Proof.
  revert lo v. induction l as [|b l IH]; intros lo v; [simpl; lia|].
  intros (-> & Hlo & [Hf Ht] & Hal & Hc) Hfr. specialize (IH _ _ Hc ltac:(lia)). simpl length. lia.
Qed.

Lemma fp_chain_NoDup m lo v l : fp_chain m lo v l → NoDup l.
Proof.
  revert lo v. induction l as [|b l IH]; intros lo v; [constructor|].
  intros (-> & Hlo & Hin & Hal & Hc). apply NoDup_cons. split; [|by eapply IH].
  intros Hb. destruct (fp_chain_bounds _ _ _ _ _ Hc Hb). lia.
Qed.

Lemma rebase_chain_ok m0 l fuel s slot lo v :
  fp_chain m0 lo v l → in_dm slot → (∀ a, a ∈ l → slot ≠ a + D) →
  word (m_mem s) slot = v → (∀ a, a ∈ l → word (m_mem s) (a + D) = word m0 a) →
  (length l ≤ fuel)%nat →
  ∃ m', rebase_chain fuel slot (u64 D) frame top s = Ok (tt, set_mem (λ _, m') s) ∧
    word m' slot = rebased v ∧ (∀ a, a ∈ l → word m' (a + D) = rebased (word m0 a)) ∧
    (∀ p, in_dm p → p ≠ slot → (∀ a, a ∈ l → p ≠ a + D) → word m' p = word (m_mem s) p).
Proof using BO Hframe Htop Hcf Hct.
  revert fuel s slot lo v. induction l as [|b l IH]; intros fuel s slot lo v Hc Hslot Hne Hv Hcopy Hf.
  - cbn [fp_chain] in Hc. unfold in_stack in Hc. exists (m_mem s).
    assert ((frame <=? v) && (v <? top) = false) as Hout.
    { apply andb_false_iff. rewrite Z.leb_gt, Z.ltb_ge. lia. }
    unfold rebased. rewrite Hout. split; [|split; [done|split; [by intros ? ?%elem_of_nil|done]]].
    destruct fuel; cbn [rebase_chain]; erewrite M_bind_Ok by done; unfold word in Hv; rewrite Hv, Hout;
      by destruct s.
  - pose proof (fp_chain_NoDup _ _ _ _ Hc) as Hnd.
    destruct Hc as (-> & Hlo & Hin & Hal & Hc). unfold in_stack in Hin. destruct fuel as [|fuel]; [simpl in Hf; lia|].
    pose proof boot_hhdm as Hb1. pose proof boot_image as Hb2. unfold in_dm in *.
    assert ((frame <=? b) && (b <? top) = true) as Hyes.
    { apply andb_true_iff. rewrite Z.leb_le, Z.ltb_lt. lia. }
    cbn [rebase_chain]. erewrite M_bind_Ok by done. unfold word in Hv. rewrite Hv, Hyes. cbn [negb].
    assert (u64 (b + u64 D) = b + D) as HD.
    { unfold wrap. rewrite Zplus_mod_idemp_r. apply Z.mod_small. lia. }
    rewrite HD. erewrite M_bind_Ok by done.
    erewrite M_bind_Ok by done. cbn [m_mem set_mem]. rewrite rd_insert_eq.
    apply NoDup_cons in Hnd as [Hnb Hnd].
    destruct (IH fuel (set_mem <[virt_to_phys slot := b + D]> s) (b + D) (b + 8) (word m0 b))
      as (m' & Hrun & H1 & H2 & H3).
    + done.
    + lia.
    + intros a Ha E. apply Hnb. by replace b with a by lia.
    + pose proof (Hne b (list_elem_of_here _ _)).
      cbn [m_mem set_mem]. rewrite word_insert_ne by (unfold in_dm; lia).
      apply Hcopy. by left.
    + intros a Ha. cbn [m_mem set_mem].
      destruct (fp_chain_bounds _ _ _ _ _ Hc Ha) as (_ & [Ha1 Ha2] & _).
      pose proof (Hne a (list_elem_of_further _ _ _ Ha)).
      rewrite word_insert_ne by (unfold in_dm; lia). apply Hcopy. by right.
    + simpl in Hf. lia.
    + exists m'. unfold rebased at 1. rewrite Hyes. split; [exact Hrun|]. split; [|split].
      * rewrite H3; [apply word_insert_eq|unfold in_dm; lia|apply Hne; by left|].
        intros a Ha. apply Hne. by right.
      * intros a [->|Ha]%elem_of_cons; [done|by apply H2].
      * intros p Hp Hps Hpl. rewrite H3; [|done|apply Hpl; by left|intros a Ha; apply Hpl; by right].
        by apply word_insert_ne.
Qed.
End chain.

(** The child's copy: the parent's words, with the frame pointers on the chain
    moved into the child's stack. *)
Definition cloned (frame top D : Z) (l : list Z) (m m' : gmap Z Z) : Prop :=
  (∀ i, 0 ≤ i → frame + 8 * i < top →
     word m' (frame + D + 8 * i) =
       if decide (i = FORK_FRAME_FP_SLOT ∨ frame + 8 * i ∈ l)
       then rebased frame top D (word m (frame + 8 * i)) else word m (frame + 8 * i)) ∧
  (∀ a, in_dm a → ¬ (frame + D ≤ a < top + D) → word m' a = word m a).

Record stacks_ok (frame top ctop : Z) : Prop := {
  so_frame : in_dm frame; so_top : in_dm (top - 1);
  so_cframe : in_dm (frame + (ctop - top)); so_ctop : in_dm (ctop - 1);
  so_words : (top - frame) mod 8 = 0;
  so_size : frame + 48 < top;
  so_disjoint : ctop ≤ frame ∨ top ≤ frame + (ctop - top);
}.

Lemma clone_stack_rebased_ok s frame top ctop l :
  stacks_ok frame top ctop →
  fp_chain frame top (m_mem s) (frame + 48) (word (m_mem s) (frame + 40)) l →
  ∃ m', clone_stack_rebased ctop top frame s =
          Ok (frame + (ctop - top), set_mem (λ _, m') s) ∧
        cloned frame top (ctop - top) l (m_mem s) m'.
Proof using BO.
  intros [Hf Ht Hcf Hct Hw Hsz Hdis] Hc. set (D := ctop - top) in *.
  pose proof boot_hhdm as Hb1. pose proof boot_image as Hb2.
  pose proof (Z.div_mod (top - frame) 8 ltac:(lia)) as Hn.
  set (n := Z.to_nat ((top - frame) / 8)).
  assert (Z.of_nat n = (top - frame) / 8) as Hn' by (unfold n; lia).
  assert (u64 (frame + u64 D) = frame + D) as HD.
  { unfold wrap. rewrite Zplus_mod_idemp_r. apply Z.mod_small. unfold in_dm in *. lia. }
  unfold clone_stack_rebased. fold D. rewrite HD.
  destruct (memcpy_words_ok n s (frame + D) frame) as (m1 & Hrun1 & Hin1 & Hout1).
  { right. unfold in_dm in *. lia. }
  { lia. }
  erewrite M_bind_Ok by exact Hrun1.
  assert (∀ a, a ∈ l → frame + 48 ≤ a ∧ a < top ∧ (a - frame) mod 8 = 0) as Hl.
  { intros a Ha. destruct (fp_chain_bounds _ _ _ _ _ _ _ Hc Ha) as (? & [??] & ?). lia. }
  unfold FORK_FRAME_FP_SLOT. rewrite (wrap_small 64 (frame + D + _)) by (unfold in_dm in *; lia).
  replace (frame + D + 8 * 5) with (frame + D + 40) by lia.
  assert (∀ a, frame ≤ a < top → (a - frame) mod 8 = 0 → word m1 (a + D) = word (m_mem s) a) as Hcopy.
  { intros a Ha Hal. pose proof (Z.div_mod (a - frame) 8 ltac:(lia)).
    specialize (Hin1 ((a - frame) / 8) ltac:(lia)).
    replace (frame + D + 8 * ((a - frame) / 8)) with (a + D) in Hin1 by lia.
    by replace (frame + 8 * ((a - frame) / 8)) with a in Hin1 by lia. }
  destruct (rebase_chain_ok frame top D Hf Ht Hcf ltac:(unfold in_dm in *; lia) (m_mem s) l n
              (set_mem (λ _, m1) s) (frame + D + 40) (frame + 48) (word (m_mem s) (frame + 40)))
    as (m' & Hrun2 & H1 & H2 & H3).
  - done.
  - unfold in_dm in *. lia.
  - intros a Ha. destruct (Hl a Ha). lia.
  - cbn [m_mem set_mem]. rewrite <- (Hcopy (frame + 40)); [f_equal; lia|lia|].
    replace (frame + 40 - frame) with (5 * 8) by lia. by apply Z.mod_mul.
  - intros a Ha. destruct (Hl a Ha) as (? & ? & ?). apply Hcopy; [lia|done].
  - pose proof (fp_chain_length _ _ _ _ _ _ Hc ltac:(lia)). lia.
  - erewrite M_bind_Ok by exact Hrun2. exists m'. split; [done|]. split.
    + intros i Hi Hit. replace (frame + D + 8 * i) with (frame + 8 * i + D) by lia.
      assert ((frame + 8 * i - frame) mod 8 = 0) as Hal
        by (replace (frame + 8 * i - frame) with (i * 8) by lia; by apply Z.mod_mul).
      case_decide as Hd.
      * destruct Hd as [->|Hd]; [|by apply H2].
        unfold FORK_FRAME_FP_SLOT. replace (frame + 8 * 5 + D) with (frame + D + 40) by lia.
        rewrite H1. by replace (frame + 8 * 5) with (frame + 40) by lia.
      * rewrite H3; [cbn [m_mem set_mem]; apply Hcopy; [lia|done]|unfold in_dm in *; lia| |].
        -- intros E. apply Hd. left. unfold FORK_FRAME_FP_SLOT. lia.
        -- intros a Ha E. apply Hd. right. by replace (frame + 8 * i) with a by lia.
    + intros a Ha Hna. rewrite H3; [cbn [m_mem set_mem]; apply Hout1; [done|lia]|done|lia|].
      intros b Hb. destruct (Hl b Hb). lia.
Qed.

(** ** [clone_parent_base_frame] *)

Lemma push_saved_mem_words r m :
  in_dm (rsp r - 48) → in_dm (rsp r - 8) →
  word (push_saved_mem r m) (rsp r - 48) = r15 r ∧ word (push_saved_mem r m) (rsp r - 40) = r14 r ∧
  word (push_saved_mem r m) (rsp r - 32) = r13 r ∧ word (push_saved_mem r m) (rsp r - 24) = r12 r ∧
  word (push_saved_mem r m) (rsp r - 16) = rbx r ∧ word (push_saved_mem r m) (rsp r - 8) = rbp r ∧
  (∀ a, in_dm a → ¬ (rsp r - 48 ≤ a < rsp r) → word (push_saved_mem r m) a = word m a).
Proof using BO.
  intros H1 H2. unfold push_saved_mem. unfold in_dm in *.
  split_and!;
    repeat first [rewrite word_insert_eq | rewrite word_insert_ne by (unfold in_dm in *; lia)]; try done.
  intros a Ha Hn.
  repeat (rewrite word_insert_ne by (unfold in_dm in *; lia)). done.
Qed.

Lemma fp_chain_ext frame top m m' lo lo' v l :
  lo' ≤ lo → (∀ a, a ∈ l → word m' a = word m a) →
  fp_chain frame top m lo v l → fp_chain frame top m' lo' v l.
Proof.
  revert lo lo' v. induction l as [|b l IH]; intros lo lo' v Hlo Hext; [done|].
  intros (-> & H1 & H2 & H3 & H4). cbn [fp_chain]. split_and!; [done|lia|apply H2..|done|].
  rewrite Hext by by left. eapply IH; [reflexivity| |done]. intros a Ha. apply Hext. by right.
Qed.

(** The registers the child wakes up with. *)
Definition child_regs (r : regs) (frame top D resume : Z) : regs :=
  Regs (frame + D + 56) (rebased frame top D (rbp r)) (rbx r) (r12 r) (r13 r) (r14 r) (r15 r)
       resume (rax r).

(** The frame [clone_parent_base_frame] pushes below the return address. *)
Lemma clone_pushed r m resume :
  in_dm (rsp r - 56) → in_dm (rsp r - 8) →
  let m1 := push_saved_mem (set_rsp (rsp r - 8) r) (<[virt_to_phys (rsp r - 8) := resume]> m) in
  saved_frame m1 (rsp r - 56) (Regs (rsp r - 56 + 56) (rbp r) (rbx r) (r12 r) (r13 r) (r14 r) (r15 r) resume (rax r)) ∧
  ∀ a, in_dm a → ¬ (rsp r - 56 ≤ a < rsp r) → word m1 a = word m a.
Proof using BO.
  intros H1 H2 m1. unfold in_dm in *. set (sp := rsp r) in *. set (r1 := set_rsp (sp - 8) r).
  destruct (push_saved_mem_words r1 (<[virt_to_phys (sp - 8) := resume]> m)) as (W1 & W2 & W3 & W4 & W5 & W6 & Wout);
    [unfold in_dm; cbn; lia..|]. cbn in W1, W2, W3, W4, W5, W6, Wout. fold r1 m1 in W1, W2, W3, W4, W5, W6, Wout.
  replace (sp - 8 - 48) with (sp - 56) in * by lia. replace (sp - 8 - 40) with (sp - 56 + 8) in * by lia.
  replace (sp - 8 - 32) with (sp - 56 + 16) in * by lia. replace (sp - 8 - 24) with (sp - 56 + 24) in * by lia.
  replace (sp - 8 - 16) with (sp - 56 + 32) in * by lia. replace (sp - 8 - 8) with (sp - 56 + 40) in * by lia.
  split.
  - unfold saved_frame. cbn [r15 r14 r13 r12 rbx rbp rip rsp]. split_and!; try done.
    rewrite Wout by (unfold in_dm; lia). replace (sp - 56 + 48) with (sp - 8) by lia. apply word_insert_eq.
  - intros a Ha Hn. rewrite Wout by (done || lia). apply word_insert_ne; [done|unfold in_dm; lia|lia].
Qed.

(** Its copy on the child's stack. *)
Lemma cloned_frame frame top D l m m' r :
  cloned frame top D l m m' → frame + 56 ≤ top → (∀ a, a ∈ l → frame + 56 ≤ a) → saved_frame m frame r →
  saved_frame m' (frame + D) (Regs (frame + D + 56) (rebased frame top D (rbp r)) (rbx r) (r12 r) (r13 r) (r14 r) (r15 r) (rip r) (rax r)).
Proof using Type.
  intros [Hcl _] Htop Hl (W1 & W2 & W3 & W4 & W5 & W6 & W7 & _).
  assert (∀ i, 0 ≤ i < 7 → i ≠ 5 → word m' (frame + D + 8 * i) = word m (frame + 8 * i)) as Hplain.
  { intros i Hi H5. rewrite Hcl, decide_False by lia || (intros [E|E%Hl]; [done|lia]). done. }
  pose proof (Hplain 0 ltac:(lia) ltac:(lia)) as C0. pose proof (Hplain 1 ltac:(lia) ltac:(lia)) as C1.
  pose proof (Hplain 2 ltac:(lia) ltac:(lia)) as C2. pose proof (Hplain 3 ltac:(lia) ltac:(lia)) as C3.
  pose proof (Hplain 4 ltac:(lia) ltac:(lia)) as C4. pose proof (Hplain 6 ltac:(lia) ltac:(lia)) as C6.
  pose proof (Hcl 5 ltac:(lia) ltac:(lia)) as C5. rewrite decide_True in C5 by by left.
  rewrite !Z.mul_0_r, !Z.add_0_r in C0.
  change (8 * 1) with 8 in C1. change (8 * 2) with 16 in C2. change (8 * 3) with 24 in C3.
  change (8 * 4) with 32 in C4. change (8 * 5) with 40 in C5. change (8 * 6) with 48 in C6.
  unfold saved_frame. cbn [r15 r14 r13 r12 rbx rbp rip rsp]. split_and!; try congruence.
Qed.

Lemma clone_parent_base_frame_ok r s resume top ctop l :
  stacks_ok (rsp r - 56) top ctop → rsp r + 8 ≤ top →
  fp_chain (rsp r - 56) top (m_mem s) (rsp r) (rbp r) l → (∀ a, a ∈ l → a ≠ rsp r) →
  ∃ s', clone_parent_base_frame resume ctop top (Cpu r s) =
          Ok (rsp r - 56 + (ctop - top), Cpu (set_rax 1 (resume_regs (m_mem s) r)) s') ∧
    saved_frame (m_mem s') (rsp r - 56 + (ctop - top))
      (child_regs r (rsp r - 56) top (ctop - top) resume) ∧
    word (m_mem s') (rsp r + (ctop - top)) = word (m_mem s) (rsp r) ∧
    (∀ a, in_dm a → ¬ (rsp r - 56 ≤ a < rsp r) → ¬ (rsp r - 56 + (ctop - top) ≤ a < ctop) →
       word (m_mem s') a = word (m_mem s) a).
Proof using BO.
  intros Hso Htop Hc Hret. set (sp := rsp r) in *. set (D := ctop - top).
  pose proof Hso as [Hf Ht Hcf Hct Hw Hsz Hdis].
  pose proof boot_hhdm as Hb1. pose proof boot_image as Hb2. unfold in_dm in Hf, Ht, Hcf, Hct.
  set (r1 := set_rsp (sp - 8) r). set (m1 := push_saved_mem r1 (<[virt_to_phys (sp - 8) := resume]> (m_mem s))).
  destruct (clone_pushed r (m_mem s) resume) as [Hpush Hm1]; [unfold in_dm; fold sp; lia..|]. fold sp r1 m1 in Hpush, Hm1.
  pose proof Hpush as (W1 & W2 & W3 & W4 & W5 & W6 & W7 & _). cbn [r15 r14 r13 r12 rbx rbp rip rsp] in W1, W2, W3, W4, W5, W6, W7.
  destruct (clone_stack_rebased_ok (set_mem (λ _, m1) s) (sp - 56) top ctop l Hso)
    as (m' & Hrun & Hclone).
  { cbn [m_mem set_mem]. rewrite W6. eapply fp_chain_ext; [| |exact Hc]; [lia|].
    intros a Ha. destruct (fp_chain_bounds _ _ _ _ _ _ _ Hc Ha) as (? & [??] & _).
    apply Hm1; [unfold in_dm; lia|lia]. }
  fold D in Hrun, Hclone. cbn [m_mem set_mem] in Hclone. pose proof Hclone as [Hcl Hout].
  assert (∀ a, in_dm a → sp - 56 ≤ a < top → word m' a = word m1 a) as Hpar.
  { intros a Ha Hr. apply Hout; [done|]. lia. }
  exists (set_mem (λ _, m') s). split_and!.
  - unfold clone_parent_base_frame.
    erewrite M_bind_Ok by (apply push_ok; fold sp; lia). fold sp r1.
    erewrite M_bind_Ok by (apply push_saved_ok; cbn; lia).
    erewrite M_bind_Ok by done. cbn [c_regs rsp set_rsp]. change (rsp r1) with (sp - 8).
    replace (sp - 8 - 48) with (sp - 56) by lia.
    erewrite (M_bind_Ok (on_mach _)).
    2: { unfold on_mach. cbn [c_mach].
         assert (set_mem (push_saved_mem r1) (set_mem <[virt_to_phys (sp - 8):=resume]> s)
                 = set_mem (λ _, m1) s) as -> by done.
         rewrite Hrun. reflexivity. }
    erewrite M_bind_Ok by (apply (pop_saved_ok _ _ (sp - 56)); [cbn; lia|lia|lia]).
    cbn [m_mem set_mem c_mach c_regs rip rax set_rsp].
    rewrite !Hpar by (unfold in_dm; lia). rewrite W1, W2, W3, W4, W5, W6.
    erewrite M_bind_Ok by done. cbn [c_regs rsp]. rewrite wrap_small by lia.
    erewrite M_bind_Ok by done. erewrite M_bind_Ok by done. cbn [c_regs c_mach].
    unfold ret. rewrite M_bind_assoc. erewrite M_bind_Ok by (apply pop_ok; cbn; lia).
    erewrite M_bind_Ok by done. cbn. unfold mret, M_ret.
    replace (sp - 56 + 48 + 8) with sp by lia. rewrite Hpar, Hm1 by (unfold in_dm; lia).
    unfold resume_regs. fold sp. destruct r; cbn in *. done.
  - refine (cloned_frame (sp - 56) top D l m1 m' _ Hclone _ _ Hpush); [lia|].
    intros a Ha. destruct (fp_chain_bounds _ _ _ _ _ _ _ Hc Ha). lia.
  - cbn [m_mem set_mem]. pose proof (Hcl 7 ltac:(lia) ltac:(lia)) as C7.
    rewrite decide_False in C7.
    2: { intros [E|E]; [done|]. apply (Hret _ E). lia. }
    replace (sp - 56 + D + 8 * 7) with (sp + D) in C7 by lia.
    replace (sp - 56 + 8 * 7) with sp in C7 by lia. rewrite C7. apply Hm1; [unfold in_dm; lia|lia].
  - intros a Ha Hn1 Hn2. cbn [m_mem set_mem]. rewrite Hout; [by apply Hm1|done|]. unfold D in *. lia.
Qed.

Lemma swtch_keeps_frame r old_sp m sp r' :
  frame_words sp ## virt_to_phys old_sp :: saved_words (rsp r) →
  saved_frame m sp r' → saved_frame (swtch_mem r old_sp m) sp r'.
Proof.
  intros Hdis. apply saved_frame_ext. intros a Ha.
  assert (a ∉ virt_to_phys old_sp :: saved_words (rsp r)) as [H1 H2]%not_elem_of_cons
    by exact (Hdis a Ha).
  by apply swtch_mem_out.
Qed.

(** ** Theorems *)

(** C10: [swtch] resumes the incoming thread from its saved frame, and the outgoing
    thread comes back exactly as it called [swtch] -- callee-saved registers,
    stack pointer, return address -- the next time any thread switches to the
    stack pointer saved for it, as long as its frame was left alone. *)
Theorem swtch_round_trip r s old_sp new_sp new_cr3 r' :
  48 ≤ rsp r < 2 ^ 64 → 0 ≤ new_sp → new_sp + 56 < 2 ^ 64 → rsp r + 8 < 2 ^ 64 →
  NoDup (virt_to_phys old_sp :: saved_words (rsp r) ++ [virt_to_phys (rsp r)]) →
  frame_words new_sp ## virt_to_phys old_sp :: saved_words (rsp r) →
  saved_frame (m_mem s) new_sp r' → rax r' = rax r →
  ∃ s1, swtch old_sp new_sp new_cr3 (Cpu r s) = Ok (tt, Cpu r' s1) ∧ m_cr3 s1 = new_cr3 ∧
    ∀ r2 s2 old2 cr3,
      word (m_mem s2) old_sp = word (m_mem s1) old_sp →
      (∀ a, a ∈ frame_words (rsp r - 48) → rd (m_mem s2) a = rd (m_mem s1) a) →
      48 ≤ rsp r2 < 2 ^ 64 →
      frame_words (rsp r - 48) ## virt_to_phys old2 :: saved_words (rsp r2) →
      ∃ s3, swtch old2 (word (m_mem s2) old_sp) cr3 (Cpu r2 s2) =
              Ok (tt, Cpu (set_rax (rax r2) (resume_regs (m_mem s) r)) s3) ∧ m_cr3 s3 = cr3.
Proof.
  intros Hr Hn1 Hn2 Hr8 Hnd Hdis Hf Hax.
  destruct (swtch_mem_saves r old_sp (m_mem s) Hnd) as [Hsaved Hslot].
  destruct (swtch_ok r s old_sp new_sp new_cr3 r') as (s1 & Hrun & Hm & Hc & _); [done..| |done|].
  { by apply swtch_keeps_frame. }
  exists s1. split_and!; [done|done|]. intros r2 s2 old2 cr3 Hold Hkeep Hr2 Hdis2.
  rewrite Hold, Hm, Hslot. rewrite Hm in Hkeep.
  destruct (swtch_ok r2 s2 old2 (rsp r - 48) cr3 (set_rax (rax r2) (resume_regs (m_mem s) r)))
    as (s3 & Hrun3 & _ & Hc3 & _); [assumption|lia|lia| |reflexivity|exists s3; by split].
  apply swtch_keeps_frame; [done|]. eapply saved_frame_ext; [exact Hkeep|]. exact Hsaved.
Qed.

(** The frame [init_stack] seeds makes the first switch to a new process start
    its entry function with zeroed registers -- a zero frame pointer ends a stack
    walk -- and with the stack pointer 8 modulo 16, as the ABI has it on entry. *)
Theorem init_stack_first_switch stack_end entry s r old_sp new_cr3 :
  in_dm (stack_end - 64) → in_dm (stack_end - 1) → stack_end mod 0x1000 = 0 →
  48 ≤ rsp r < 2 ^ 64 →
  frame_words (stack_end - 64) ## virt_to_phys old_sp :: saved_words (rsp r) →
  ∃ s1, seed_frame stack_end entry s = Ok (stack_end - 64, s1) ∧
    ∃ s2, swtch old_sp (stack_end - 64) new_cr3 (Cpu r s1) =
            Ok (tt, Cpu (Regs (stack_end - 8) 0 0 0 0 0 0 entry (rax r)) s2) ∧
          (stack_end - 8) mod 16 = 8.
Proof using BO.
  intros H1 H2 Hal Hr Hdis. pose proof boot_hhdm as Hb1. pose proof boot_image as Hb2.
  unfold in_dm in H1, H2.
  set (m1 := <[virt_to_phys (stack_end - 64) := 0]> (<[virt_to_phys (stack_end - 56) := 0]> (
             <[virt_to_phys (stack_end - 48) := 0]> (<[virt_to_phys (stack_end - 40) := 0]> (
             <[virt_to_phys (stack_end - 32) := 0]> (<[virt_to_phys (stack_end - 24) := 0]> (
             <[virt_to_phys (stack_end - 16) := entry]> (
             <[virt_to_phys (stack_end - 8) := 0]> (m_mem s))))))))).
  exists (set_mem (λ _, m1) s). split.
  { unfold seed_frame. rewrite !wrap_small by lia. by destruct s. }
  destruct (swtch_ok r (set_mem (λ _, m1) s) old_sp (stack_end - 64) new_cr3
              (Regs (stack_end - 8) 0 0 0 0 0 0 entry (rax r))) as (s2 & Hrun & _);
    [done|lia|lia| |done|].
  - apply swtch_keeps_frame; [done|]. unfold saved_frame. cbn [m_mem set_mem r15 r14 r13 r12 rbx rbp rip rsp].
    replace (stack_end - 64 + 8) with (stack_end - 56) by lia.
    replace (stack_end - 64 + 16) with (stack_end - 48) by lia.
    replace (stack_end - 64 + 24) with (stack_end - 40) by lia.
    replace (stack_end - 64 + 32) with (stack_end - 32) by lia.
    replace (stack_end - 64 + 40) with (stack_end - 24) by lia.
    replace (stack_end - 64 + 48) with (stack_end - 16) by lia.
    split_and!; [..|lia]; unfold m1;
      repeat first [rewrite word_insert_eq | rewrite word_insert_ne by (unfold in_dm; lia)]; done.
  - exists s2. split; [done|]. apply Z.mod_divide in Hal as [q ->]; [|lia].
    symmetry. apply (Z.mod_unique _ _ (q * 256 - 1)); lia.
Qed.

(** C12: the stack copy [fork] makes is the parent's stack, except that the frame
    pointers of the saved chain point into the copy, at the same offset; nothing
    outside the child's stack changes, and the walk along the chain ends. *)
Theorem clone_stack_rebased_correct s frame top ctop l :
  stacks_ok frame top ctop →
  fp_chain frame top (m_mem s) (frame + 48) (word (m_mem s) (frame + 40)) l →
  ∃ s', clone_stack_rebased ctop top frame s = Ok (frame + (ctop - top), s') ∧
    (∀ i, 0 ≤ i → frame + 8 * i < top →
       word (m_mem s') (frame + (ctop - top) + 8 * i) =
         if decide (i = FORK_FRAME_FP_SLOT ∨ frame + 8 * i ∈ l)
         then rebased frame top (ctop - top) (word (m_mem s) (frame + 8 * i))
         else word (m_mem s) (frame + 8 * i)) ∧
    (∀ a, in_dm a → ¬ (frame + (ctop - top) ≤ a < ctop) → word (m_mem s') a = word (m_mem s) a).
Proof using BO.
  intros Hso Hc. destruct (clone_stack_rebased_ok s frame top ctop l Hso Hc) as (m' & Hrun & H1 & H2).
  exists (set_mem (λ _, m') s). split_and!; [done|done|].
  intros a Ha Hn. apply H2; [done|]. lia.
Qed.

(** C5: [fork] returns twice to the same place: the parent comes out of
    [clone_parent_base_frame] with 1 and its registers intact, and the first
    switch to the child continues at [fork_child_resume], whose code brings it
    out of the same call, at the same return address, with 0, the same callee-saved
    registers (the frame pointer moved into the child's stack) and the stack pointer at the same depth of the child's stack. *)
Theorem fork_returns_twice r s resume top ctop l :
  stacks_ok (rsp r - 56) top ctop → rsp r + 8 ≤ top →
  fp_chain (rsp r - 56) top (m_mem s) (rsp r + 8) (rbp r) l →
  ∃ csp s', clone_parent_base_frame resume ctop top (Cpu r s) =
      Ok (csp, Cpu (set_rax 1 (resume_regs (m_mem s) r)) s') ∧
    ∀ r2 s2 old2 cr3,
      (∀ a, in_dm a → csp ≤ a < csp + 64 → word (m_mem s2) a = word (m_mem s') a) →
      48 ≤ rsp r2 < 2 ^ 64 →
      virt_to_phys (csp + 56) :: frame_words csp ## virt_to_phys old2 :: saved_words (rsp r2) →
      ∃ s3, (swtch old2 csp cr3 ;; code_at resume fork_child_resume_code) (Cpu r2 s2) =
        Ok (tt, Cpu (Regs (rsp r + 8 + (ctop - top)) (rebased (rsp r - 56) top (ctop - top) (rbp r))
                       (rbx r) (r12 r) (r13 r) (r14 r) (r15 r) (word (m_mem s) (rsp r)) 0) s3).
Proof using BO.
  intros Hso Htop Hc.
  assert (∀ a, a ∈ l → a ≠ rsp r) as Hne.
  { intros a Ha. destruct (fp_chain_bounds _ _ _ _ _ _ _ Hc Ha). lia. }
  assert (fp_chain (rsp r - 56) top (m_mem s) (rsp r) (rbp r) l) as Hc'
    by (eapply fp_chain_ext; [| |exact Hc]; [lia|done]).
  destruct (clone_parent_base_frame_ok r s resume top ctop l Hso Htop Hc' Hne)
    as (s' & Hrun & Hsaved & Hret & _).
  set (csp := rsp r - 56 + (ctop - top)) in *. exists csp, s'. split; [done|].
  intros r2 s2 old2 cr3 Hkeep Hr2 Hdis.
  pose proof Hso as [Hf Ht Hcf Hct _ _ _]. fold csp in Hcf.
  pose proof boot_hhdm as Hb1. pose proof boot_image as Hb2. unfold in_dm in Hcf, Hct.
  set (rc := set_rax (rax r2) (child_regs r (rsp r - 56) top (ctop - top) resume)).
  destruct (swtch_ok r2 s2 old2 csp cr3 rc) as (s3 & Hrun3 & Hm3 & _); [done|lia|lia| |done|].
  - apply swtch_keeps_frame.
    + intros a Ha. exact (Hdis a (list_elem_of_further _ _ _ Ha)).
    + unfold saved_frame in *. rewrite !Hkeep by (unfold in_dm; lia). exact Hsaved.
  - erewrite M_bind_Ok by exact Hrun3. unfold code_at. erewrite M_bind_Ok by done.
    change (rip (c_regs (Cpu rc s3))) with resume. rewrite Z.eqb_refl. unfold fork_child_resume_code, ret.
    erewrite M_bind_Ok by done. erewrite M_bind_Ok by (apply pop_ok; cbn; lia).
    assert (word (m_mem s3) (csp + 56) = word (m_mem s) (rsp r)) as Hw.
    { rewrite Hm3, <- Hret.
      assert (virt_to_phys (csp + 56) ∉ virt_to_phys old2 :: saved_words (rsp r2)) as [H1 H2]%not_elem_of_cons
        by exact (Hdis _ (list_elem_of_here _ _)).
      unfold word at 1. rewrite swtch_mem_out by done. fold (word (m_mem s2) (csp + 56)).
      rewrite Hkeep by (unfold in_dm; lia). f_equal. unfold csp. lia. }
    exists s3. cbn. fold csp. rewrite Hw. unfold csp.
    replace (rsp r - 56 + (ctop - top) + 56 + 8) with (rsp r + 8 + (ctop - top)) by lia. reflexivity.
Qed.
End props.

(** ** Witnesses

    Two stacks in the direct map, one thread per stack; the process structures
    are in the kernel image. *)

#[local] Existing Instance ex_boot.
#[local] Existing Instance ex_boot_ok.

Definition ex_base : Z := 0xffff800000000000.

(** Thread A runs with its stack pointer at 0x11f00; thread B is suspended at
    0x20f00. *)
Definition exA : regs :=
  Regs (ex_base + 0x11f00) (ex_base + 0x11f40) 1 2 3 4 5 0xffffffff80001234 7.
Definition exB : regs :=
  Regs (ex_base + 0x20f00 + 56) 6 5 4 3 2 1 0xffffffff80005678 7.

Definition ex_stacks : machine :=
  Machine (<[0x20f00 := 1]> (<[0x20f08 := 2]> (<[0x20f10 := 3]> (<[0x20f18 := 4]> (
           <[0x20f20 := 5]> (<[0x20f28 := 6]> (<[0x20f30 := 0xffffffff80005678]> (
           <[0x11f00 := 0xffffffff80009999]> (<[0x11f40 := ex_base + 0x11f80]> ∅)))))))))
    0 0x1000 0 false ∅.

Lemma swtch_round_trip_witness :
  ∃ s1, swtch 0xffffffff80100068 (ex_base + 0x20f00) 0x5000 (Cpu exA ex_stacks) =
          Ok (tt, Cpu exB s1) ∧ m_cr3 s1 = 0x5000.
Proof.
  edestruct (swtch_round_trip exA ex_stacks 0xffffffff80100068 (ex_base + 0x20f00) 0x5000 exB)
    as (s1 & H1 & H2 & _); [by vm_compute..| | | |done|exists s1; split; [exact H1|exact H2]].
  - by_decide.
  - apply disjoint_check. by vm_compute.
  - by vm_compute.
Defined.

Lemma init_stack_first_switch_witness :
  ∃ s1, seed_frame (ex_base + 0x21000) 0xffffffff80007000 ex_stacks =
          Ok (ex_base + 0x21000 - 64, s1) ∧
    ∃ s2, swtch 0xffffffff80100068 (ex_base + 0x21000 - 64) 0x5000 (Cpu exA s1) =
            Ok (tt, Cpu (Regs (ex_base + 0x21000 - 8) 0 0 0 0 0 0 0xffffffff80007000 7) s2) ∧
          (ex_base + 0x21000 - 8) mod 16 = 8.
Proof.
  apply (init_stack_first_switch (ex_base + 0x21000) 0xffffffff80007000 ex_stacks exA);
    [by vm_compute..|apply disjoint_check; by vm_compute].
Defined.

(** A's frame pointer leads to a second frame, and from there out of the stack. *)
Definition ex_chain : list Z := [ex_base + 0x11f40; ex_base + 0x11f80].

Lemma ex_stacks_ok : stacks_ok (rsp exA - 56) (ex_base + 0x12000) (ex_base + 0x32000).
Proof. split; [by vm_compute..|right; by vm_compute]. Qed.

Lemma ex_fp_chain lo :
  lo ≤ ex_base + 0x11f40 →
  fp_chain (rsp exA - 56) (ex_base + 0x12000) (m_mem ex_stacks) lo (rbp exA) ex_chain.
Proof.
  intros Hlo. unfold ex_chain. cbn [fp_chain].
  split; [reflexivity|split; [exact Hlo|split; [by vm_compute|split; [reflexivity|]]]].
  split; [by vm_compute|split; [by vm_compute|split; [by vm_compute|split; [reflexivity|]]]].
  intros [H _]. vm_compute in H. by apply H.
Qed.

Lemma fork_returns_twice_witness :
  ∃ csp s', clone_parent_base_frame 0xffffffff80004444 (ex_base + 0x32000) (ex_base + 0x12000)
              (Cpu exA ex_stacks) =
      Ok (csp, Cpu (set_rax 1 (resume_regs (m_mem ex_stacks) exA)) s').
Proof.
  destruct (fork_returns_twice exA ex_stacks 0xffffffff80004444 (ex_base + 0x12000)
              (ex_base + 0x32000) ex_chain) as (csp & s' & H & _);
    [exact ex_stacks_ok|by vm_compute|apply ex_fp_chain; by vm_compute|by exists csp, s'].
Defined.

Lemma clone_stack_rebased_correct_witness :
  ∃ s', clone_stack_rebased (ex_base + 0x32000) (ex_base + 0x12000) (rsp exA - 56)
          (set_mem <[0x11ef0 := ex_base + 0x11f40]> ex_stacks) = Ok (rsp exA - 56 + 0x20000, s').
Proof.
  destruct (clone_stack_rebased_correct (set_mem <[0x11ef0 := ex_base + 0x11f40]> ex_stacks)
              (rsp exA - 56) (ex_base + 0x12000) (ex_base + 0x32000) ex_chain) as (s' & H & _);
    [exact ex_stacks_ok| |exists s'; exact H].
  unfold ex_chain. cbn [fp_chain].
  split; [by vm_compute|split; [by vm_compute|split; [by vm_compute|split; [reflexivity|]]]].
  split; [by vm_compute|split; [by vm_compute|split; [by vm_compute|split; [reflexivity|]]]].
  intros [H _]. vm_compute in H. by apply H.
Defined.
