(* ===== verification/Queue.v ===== *)
(** * The queue interface

    What the process and scheduler code needs from its intrusive lists: a
    memory of list nodes, the few operations it calls, and the laws that say what
    they do to a circular list.  [list.h] is the implementation; the clients are
    proved against the interface. *)

From S2P Require Import Prelude ListHead ListHeadOps.

(** The operations, over a memory [H] of nodes. *)
Class QueueOps (H : Type) := {
  q_init : Z → M H unit;
  q_add : Z → Z → M H unit;
  q_add_tail : Z → Z → M H unit;
  q_empty : Z → M H bool;
  q_next : Z → M H Z;
  q_del_init : Z → M H unit;
  q_map : Z → H → H;                 (* memory for a new node *)
  q_ring : H → list Z → Prop;        (* the header and the entries, in order *)
  q_mapped : H → Z → Prop;
  q_frame : list Z → H → H → Prop;   (* unchanged but for these nodes *)
}.

Class QueueLaws {H} (Q : QueueOps H) : Prop := {
  q_ring_distinct h l : q_ring h l → NoDup l;
  q_ring_mapped h l p : q_ring h l → p ∈ l → q_mapped h p;
  q_ring_rotate h l1 l2 : q_ring h (l1 ++ l2) → q_ring h (l2 ++ l1);
  q_ring_frame h h' l l' : q_ring h l → q_frame l' h h' → l ## l' → q_ring h' l;
  q_mapped_frame h h' l p : q_mapped h p → q_frame l h h' → q_mapped h' p;
  q_frame_refl l h : q_frame l h h;
  q_frame_mono l l' h h' : l ⊆ l' → q_frame l h h' → q_frame l' h h';
  q_frame_trans l h1 h2 h3 : q_frame l h1 h2 → q_frame l h2 h3 → q_frame l h1 h3;
  q_map_spec h p : q_mapped (q_map p h) p ∧ q_frame [p] h (q_map p h);
  q_init_spec h p :
    q_mapped h p → wp (q_init p) (λ _ h', q_ring h' [p] ∧ q_frame [p] h h') h;
  q_add_spec h new head xs :
    q_ring h (head :: xs) → q_mapped h new → new ∉ head :: xs →
    wp (q_add new head)
       (λ _ h', q_ring h' (head :: new :: xs) ∧ q_frame (new :: head :: xs) h h') h;
  q_add_tail_spec h new head xs :
    q_ring h (head :: xs) → q_mapped h new → new ∉ head :: xs →
    wp (q_add_tail new head)
       (λ _ h', q_ring h' (head :: xs ++ [new]) ∧ q_frame (new :: head :: xs) h h') h;
  q_empty_spec h head xs :
    q_ring h (head :: xs) → q_empty head h = Ok (bool_decide (xs = []), h);
  q_next_spec h a l : q_ring h (a :: l) → q_next a h = Ok (hd a l, h);
  q_del_init_spec h head l1 e l2 :
    q_ring h (head :: l1 ++ e :: l2) →
    wp (q_del_init e)
       (λ _ h', q_ring h' (head :: l1 ++ l2) ∧ q_ring h' [e] ∧
                q_frame (head :: l1 ++ e :: l2) h h') h;
}.

(** ** [list.h] implements it *)

Definition map_node (p : Z) (h : heap) : heap := Heap (<[p := 0]> (hnext h)) (<[p := 0]> (hprev h)).

#[export] Instance list_queue : QueueOps heap := {|
  q_init := INIT_LIST_HEAD;
  q_add := list_add;
  q_add_tail := list_add_tail;
  q_empty := list_empty_careful;
  q_next := ld_next;
  q_del_init := list_del_init_careful;
  q_map := map_node;
  q_ring := ring;
  q_mapped := valid;
  q_frame := same_but;
|}.

#[export] Instance list_queue_laws : QueueLaws list_queue.
Proof.
  split; cbn [q_init q_add q_add_tail q_empty q_next q_del_init q_map q_ring q_mapped q_frame list_queue].
  - by intros h l [? _].
  - apply ring_valid.
  - apply ring_rotate.
  - intros h h' l l'. apply ring_frame.
  - intros h h' l p Hp [_ Hv]. auto.
  - intros l h. by split.
  - apply same_but_mono.
  - apply same_but_trans.
  - intros h p. unfold map_node. split.
    + split; simpl; rewrite lookup_insert_eq; eauto.
    + lsame.
  - apply INIT_LIST_HEAD_spec.
  - apply list_add_spec.
  - apply list_add_tail_spec.
  - apply list_empty_careful_spec.
  - intros h a l Hr. unfold ld_next. by rewrite (ring_next _ _ _ Hr).
  - apply list_del_init_careful_spec.
Qed.
