(* ===== verification/Process.v ===== *)
(** * Processes ([kernel/scheduler/process.c], [process.h], [arch/x86_64/switch.c],
    [irqflags.c], [kernel/scheduler/lock.c])

    The process table, the kernel stacks, the interrupt flag, the lock, and the
    switch from one process to another.

    Processes are coroutines.  The registers and the stack a process resumes
    with are the subject of [Context]; here a suspended process is described by
    the point of the kernel code its saved stack returns to ([kpoint]) and by the
    [flags] variable of the frame that called [swtch]. *)

From S2P Require Import Prelude Mm Paging64 Context Queue.

(** ** Data *)

(* src/kernel/scheduler/process.h 9-9 NUM_PROCESSES *)
Definition NUM_PROCESSES : Z := 10.
Abbreviation KSTACK_PAGES := 32%Z.
(* src/kernel/scheduler/process.h 27-27 KSTACK_SIZE *)
Definition KSTACK_SIZE : Z := (KSTACK_PAGES + 1) * PAGE_SIZE.

(* src/kernel/scheduler/process.h 32-41 process_state *)
Inductive process_state := UNUSED | READY | RUNNING | SLEEPING | ZOMBIE.

#[export] Instance process_state_eq_dec : EqDecision process_state.
Proof. solve_decision. Defined.

(* src/asm/mm.h 7-11 vm_type *)
Inductive vm_type := STACK | HEAP.

#[export] Instance vm_type_eq_dec : EqDecision vm_type.
Proof. solve_decision. Defined.

(* src/asm/mm.h 29-36 vm_region *)
Record vm_region := VmRegion { vr_flags : Z; vr_type : vm_type; vr_start : Z; vr_end : Z }.

(* src/asm/mm.h 13-16 FL_VM_READ *)
Definition FL_VM_READ : Z := 1 .<< 1.
Abbreviation FL_VM_WRITE := (1 .<< 2)%Z.

(** Where the saved stack of a suspended process returns to. *)
Inductive kpoint :=
  | AtFresh                      (* never run: forkret, then the entry point *)
  | AtFork                       (* a forked child, coming out of fork() *)
  | AtYield | AtExit | AtTimer   (* after the ctx_switch() of these functions *)
  | AtBoot                       (* the boot code, abandoned by init_process() *)
  | AtInit                       (* init(), after starting the scheduler *)
  | AtSched (p level : Z).       (* scheduler(), its turn given to [p] *)

#[export] Instance kpoint_eq_dec : EqDecision kpoint.
Proof. solve_decision. Defined.

(** The list nodes are in the list memory, at the offsets below. *)
(* src/kernel/scheduler/process.h 76-92 process *)
Record process := Process {
  p_pid : Z; p_name : string; p_parent : Z; p_state : process_state; p_pml4 : Z;
  p_sp : Z;                      (* context.sp *)
  p_cont : kpoint * Z;           (* what the stack at context.sp resumes, and its flags *)
  p_entry : Z;
}.

Definition sizeof_process : Z := 168.
Definition off_vm_list : Z := 56.
Definition off_sched : Z := 72.
Definition sizeof_vm_region : Z := 48.
Definition off_node : Z := 32.

(** Addresses the linker assigns. *)
Class Layout := {
  processes : Z;        (* the process table *)
  mlfq : Z;             (* the array of queue heads *)
  ready : Z;
  bootstrap_proc : Z;
  forkret_addr : Z;
}.

Record kstate (H : Type) := KState {
  k_mach : machine;
  k_heap : H;                          (* struct list_head memory *)
  k_procs : gmap Z process;            (* the process table, by address *)
  k_regions : gmap Z vm_region;
  k_pid : Z;                           (* __glbl_pid *)
  k_task : Z;                          (* cpus[0].task *)
  k_scheduler_proc : Z;                (* cpus[0].scheduler_proc *)
  k_lock : bool;                       (* mlfq_lock *)
  k_ticks : Z;                         (* tick_count *)
  k_eois : Z;                          (* writes to the end-of-interrupt register *)
}.
Arguments KState {H}.
Arguments k_mach {H}.
Arguments k_heap {H}.
Arguments k_procs {H}.
Arguments k_regions {H}.
Arguments k_pid {H}.
Arguments k_task {H}.
Arguments k_scheduler_proc {H}.
Arguments k_lock {H}.
Arguments k_ticks {H}.
Arguments k_eois {H}.

Section process.
Context {H : Type} `{QO : QueueOps H} `{BI : BootInfo} `{LY : Layout}.

Definition set_mach (m : machine) (s : kstate H) : kstate H :=
  KState m (k_heap s) (k_procs s) (k_regions s) (k_pid s) (k_task s) (k_scheduler_proc s) (k_lock s) (k_ticks s) (k_eois s).
Definition set_heap (h : H) (s : kstate H) : kstate H :=
  KState (k_mach s) h (k_procs s) (k_regions s) (k_pid s) (k_task s) (k_scheduler_proc s) (k_lock s) (k_ticks s) (k_eois s).
Definition set_procs (ps : gmap Z process) (s : kstate H) : kstate H :=
  KState (k_mach s) (k_heap s) ps (k_regions s) (k_pid s) (k_task s) (k_scheduler_proc s) (k_lock s) (k_ticks s) (k_eois s).
Definition set_regions (rs : gmap Z vm_region) (s : kstate H) : kstate H :=
  KState (k_mach s) (k_heap s) (k_procs s) rs (k_pid s) (k_task s) (k_scheduler_proc s) (k_lock s) (k_ticks s) (k_eois s).
Definition set_pid (x : Z) (s : kstate H) : kstate H :=
  KState (k_mach s) (k_heap s) (k_procs s) (k_regions s) x (k_task s) (k_scheduler_proc s) (k_lock s) (k_ticks s) (k_eois s).
Definition set_task (x : Z) (s : kstate H) : kstate H :=
  KState (k_mach s) (k_heap s) (k_procs s) (k_regions s) (k_pid s) x (k_scheduler_proc s) (k_lock s) (k_ticks s) (k_eois s).
Definition set_scheduler_proc (x : Z) (s : kstate H) : kstate H :=
  KState (k_mach s) (k_heap s) (k_procs s) (k_regions s) (k_pid s) (k_task s) x (k_lock s) (k_ticks s) (k_eois s).
Definition set_lock (b : bool) (s : kstate H) : kstate H :=
  KState (k_mach s) (k_heap s) (k_procs s) (k_regions s) (k_pid s) (k_task s) (k_scheduler_proc s) b (k_ticks s) (k_eois s).
Definition set_ticks (x : Z) (s : kstate H) : kstate H :=
  KState (k_mach s) (k_heap s) (k_procs s) (k_regions s) (k_pid s) (k_task s) (k_scheduler_proc s) (k_lock s) x (k_eois s).
Definition set_eois (x : Z) (s : kstate H) : kstate H :=
  KState (k_mach s) (k_heap s) (k_procs s) (k_regions s) (k_pid s) (k_task s) (k_scheduler_proc s) (k_lock s) (k_ticks s) x.

(** Operations of the parts, on the whole state. *)
Definition mach {A} (m : M machine A) : M (kstate H) A := λ s,
  match m (k_mach s) with
  | Ok (a, x) => Ok (a, set_mach x s)
  | Panic msg => Panic msg
  | Halt => Halt
  | Fault a => Fault a
  | OutOfFuel => OutOfFuel
  end.

Definition lists {A} (m : M H A) : M (kstate H) A := λ s,
  match m (k_heap s) with
  | Ok (a, x) => Ok (a, set_heap x s)
  | Panic msg => Panic msg
  | Halt => Halt
  | Fault a => Fault a
  | OutOfFuel => OutOfFuel
  end.

(** Member accesses through a [struct process *]. *)
Definition ld_proc (p : Z) : M (kstate H) process := λ s,
  match k_procs s !! p with Some x => Ok (x, s) | None => Fault p end.
Definition st_proc (p : Z) (f : process → process) : M (kstate H) unit := λ s,
  match k_procs s !! p with
  | Some x => Ok (tt, set_procs (<[p := f x]> (k_procs s)) s)
  | None => Fault p
  end.

Definition with_state (st : process_state) (x : process) : process :=
  Process (p_pid x) (p_name x) (p_parent x) st (p_pml4 x) (p_sp x) (p_cont x) (p_entry x).
Definition with_parent (par : Z) (x : process) : process :=
  Process (p_pid x) (p_name x) par (p_state x) (p_pml4 x) (p_sp x) (p_cont x) (p_entry x).
Definition with_context (sp : Z) (c : kpoint * Z) (x : process) : process :=
  Process (p_pid x) (p_name x) (p_parent x) (p_state x) (p_pml4 x) sp c (p_entry x).

(** ** Interrupt flag and lock *)

(* src/arch/x86_64/irqflags.h 26-27 FL_IF *)
Definition FL_IF : Z := 0x200.

(* src/arch/x86_64/irqflags.c 4-8 read_rflags *)
Definition read_rflags : M (kstate H) Z := gets (λ s, if m_if (k_mach s) then FL_IF else 0).

Definition cli : M (kstate H) unit := modify (λ s, set_mach (set_if false (k_mach s)) s).
Definition sti : M (kstate H) unit := modify (λ s, set_mach (set_if true (k_mach s)) s).

(* src/arch/x86_64/irqflags.c 10-23 irq_save *)
Definition irq_save : M (kstate H) Z :=
  flags ← read_rflags;
  cli ;;
  mret (flags .& FL_IF).

(* src/arch/x86_64/irqflags.c 25-29 irq_restore *)
Definition irq_restore (flags : Z) : M (kstate H) unit := when (nz (flags .& FL_IF)) sti.

(** There is no other processor to clear a flag that is set: the loop of a
    [spinlock] that finds the lock taken never ends. *)
(* src/kernel/scheduler/lock.c 13-21 spinlock *)
Definition spinlock : M (kstate H) unit :=
  held ← gets k_lock;
  modify (set_lock true) ;;
  if (held : bool) then out_of_fuel else mret tt.

(* src/kernel/scheduler/lock.c 23-25 release *)
Definition release : M (kstate H) unit := modify (set_lock false).

(** ** The running process *)

(* src/kernel/scheduler/process.c 153-167 myproc *)
Definition myproc : M (kstate H) Z :=
  irq_flags ← irq_save;
  ret ← gets k_task;
  irq_restore irq_flags ;;
  mret ret.

(** [ctx_switch] on behalf of code that continues at [pt] with its stack pointer
    at [sp].  [new->context] is read before the outgoing context is saved, as the
    arguments of [swtch] are.  The result is the point execution continues at,
    in the incoming process. *)
(* src/arch/x86_64/switch.c 12-24 ctx_switch *)
Definition ctx_switch (new : Z) (pt : kpoint) (sp : Z) : M (kstate H) kpoint :=
  flags ← irq_save;
  old ← myproc;
  modify (set_task new) ;;
  np ← ld_proc new;
  st_proc old (with_context sp (pt, flags)) ;;
  mach (write_cr3 (p_pml4 np)) ;;
  match p_cont np with
  | (AtFresh, _) => irq_restore FL_IF ;; mret AtFresh
  | (pt', flags') => irq_restore flags' ;; mret pt'
  end.

(** ** Kernel stacks *)

(** The memory of the new region becomes a list node as well. *)
(* src/kernel/scheduler/process.c 27-62 alloc_stack *)
Definition alloc_stack : M (kstate H) Z :=
  stack ← mach (kmalloc_a KSTACK_SIZE);
  vma_stack ← mach (kmalloc sizeof_vm_region);
  modify (λ s, set_heap (q_map (vma_stack + off_node) (k_heap s)) s) ;;
  if (stack =? 0) || (vma_stack =? 0) then
    panic "alloc_stack: could not allocate stack for process"
  else
  modify (λ s, set_regions
    (<[vma_stack := VmRegion (FL_VM_READ .| FL_VM_WRITE) STACK stack (u64 (stack + KSTACK_SIZE))]>
      (k_regions s)) s) ;;
  cr3 ← mach read_cr3;
  guard_frame ← mach (unmap_page stack cr3);
  if guard_frame =? 0 then panic "alloc_stack: guard page was not mapped in the first place"
  else mret vma_stack.

Definition ld_region (r : Z) : M (kstate H) vm_region := λ s,
  match k_regions s !! r with Some x => Ok (x, s) | None => Fault r end.

(* src/kernel/scheduler/process.c 64-112 init_stack *)
Definition init_stack (p entry : Z) : M (kstate H) Z :=
  vma_stack ← alloc_stack;
  r ← ld_region vma_stack;
  sp ← mach (seed_frame (vr_end r) entry);
  st_proc p (with_context sp (AtFresh, 0)) ;;
  mret vma_stack.

(** ** The process table *)

Fixpoint find_unused (it : Z) (n : nat) : M (kstate H) (option Z) :=
  match n with
  | O => mret None
  | S n =>
      x ← ld_proc it;
      if decide (p_state x = UNUSED) then mret (Some it)
      else find_unused (it + sizeof_process) n
  end.

(** What the two allocation functions have in common: a free slot, cleared and
    given a pid, a name and the current address space. *)
(* src/kernel/scheduler/process.c 312-341 alloc_process *)
Definition claim_slot (name : string) (entry : Z) : M (kstate H) (option Z) :=
  p ← find_unused processes (Z.to_nat NUM_PROCESSES);
  match p with
  | None => mret None
  | Some p =>
      pid ← gets k_pid;
      modify (set_pid (u8 (pid + 1))) ;;
      if 32 <? Z.of_nat (String.length name) + 1 then fault p else
      cr3 ← mach read_cr3;
      modify (λ s, set_heap (q_map (p + off_vm_list) (q_map (p + off_sched) (k_heap s))) s) ;;
      st_proc p (λ _, Process pid name 0 READY (cr3_to_pml4_addr cr3) 0 (AtFresh, 0) entry) ;;
      lists (q_init (p + off_vm_list)) ;;
      mret (Some p)
  end.

(* src/kernel/scheduler/process.c 304-352 alloc_process *)
Definition alloc_process (name : string) (entry : Z) : M (kstate H) (option Z) :=
  flags ← irq_save;
  p ← claim_slot name entry;
  match p with
  | None => irq_restore flags ;; mret None
  | Some p =>
      stack_region ← init_stack p forkret_addr;
      lists (q_add (stack_region + off_node) (p + off_vm_list)) ;;
      irq_restore flags ;;
      mret (Some p)
  end.

(* src/kernel/scheduler/process.c 354-395 alloc_process_no_entry *)
Definition alloc_process_no_entry (name : string) : M (kstate H) (option Z) :=
  flags ← irq_save;
  p ← claim_slot name 0;
  match p with
  | None => irq_restore flags ;; mret None
  | Some p =>
      stack_region ← alloc_stack;
      lists (q_add (stack_region + off_node) (p + off_vm_list)) ;;
      irq_restore flags ;;
      mret (Some p)
  end.

(** The regions of a process, first match first; [fuel] bounds the list. *)
Fixpoint find_stack_from (fuel : nat) (node head : Z) : M (kstate H) Z :=
  if node =? head then panic "find_stack: process has no stack region" else
  match fuel with
  | O => out_of_fuel
  | S fuel =>
      r ← ld_region (node - off_node);
      if decide (vr_type r = STACK) then mret (node - off_node)
      else
        next ← lists (q_next node);
        find_stack_from fuel next head
  end.

(* src/kernel/scheduler/process.c 397-407 find_stack *)
Definition find_stack (fuel : nat) (p : Z) : M (kstate H) Z :=
  first ← lists (q_next (p + off_vm_list));
  find_stack_from fuel first (p + off_vm_list).
End process.
