(* ===== verification/Sched.v ===== *)
(** * The scheduler ([kernel/scheduler/scheduler.c], [process.c], [kernel/time.c])

    A multilevel feedback queue of processes and the operations that give up or
    take the processor.  The endless loop of [scheduler] is cut at its context
    switch: [sched_round] runs from the top of the loop to the switch,
    [after_turn] from the return of the switch to the top. *)

From S2P Require Import Prelude Mm Paging64 Context Queue Process.

Abbreviation NUM_PRIORITY_LEVELS := 3%Z.

Section sched.
Context {H : Type} `{QO : QueueOps H} `{BI : BootInfo} `{LY : Layout}.

(** [&mlfq[level]] *)
Definition mlfq_at (level : Z) : Z := mlfq + 16 * level.

Fixpoint init_levels (i : Z) (n : nat) : M (kstate H) unit :=
  match n with
  | O => mret tt
  | S n => lists (q_init (mlfq_at i)) ;; init_levels (i + 1) n
  end.

(* src/kernel/scheduler/scheduler.c 15-26 init_scheduler *)
Definition init_scheduler : M (kstate H) unit :=
  lists (q_init ready) ;;
  init_levels 0 (Z.to_nat NUM_PRIORITY_LEVELS) ;;
  modify (set_lock false).

(* src/kernel/scheduler/scheduler.c 28-46 sched_enqueue *)
Definition sched_enqueue (p level : Z) : M (kstate H) unit :=
  if (level <? 0) || (NUM_PRIORITY_LEVELS <=? level) then
    panic "sched_enqueue: priority level out of range"
  else
  flags ← irq_save;
  spinlock ;;
  lists (q_add_tail (p + off_sched) (mlfq_at level)) ;;
  release ;;
  irq_restore flags.

(* src/kernel/scheduler/scheduler.c 48-55 demote *)
Definition demote (level : Z) : Z :=
  if level + 1 <? NUM_PRIORITY_LEVELS then level + 1 else level.

(** The search for a process, from level [i] down. *)
Fixpoint pick_from (i : Z) (n : nat) : M (kstate H) (option (Z * Z)) :=
  match n with
  | O => mret None
  | S n =>
      e ← lists (q_empty (mlfq_at i));
      if (e : bool) then pick_from (i + 1) n else
      first ← lists (q_next (mlfq_at i));
      let p := first - off_sched in
      lists (q_del_init (p + off_sched)) ;;
      mret (Some (p, i))
  end.

(* src/kernel/scheduler/scheduler.c 60-91 scheduler *)
Definition sched_pick : M (kstate H) (option (Z * Z)) :=
  sti ;;
  flags ← irq_save;
  spinlock ;;
  r ← pick_from 0 (Z.to_nat NUM_PRIORITY_LEVELS);
  release ;;
  irq_restore flags ;;
  mret r.

(** From the top of the loop to the switch; [None] is a pass that found nothing
    to run.  [sp] is the stack pointer of the scheduler at its switch. *)
(* src/kernel/scheduler/scheduler.c 57-101 scheduler *)
Definition sched_round (sp : Z) : M (kstate H) (option kpoint) :=
  r ← sched_pick;
  match r with
  | None => mret None
  | Some (p, level) =>
      st_proc p (with_state RUNNING) ;;
      pt ← ctx_switch p (AtSched p level) sp;
      mret (Some pt)
  end.

(* src/kernel/scheduler/scheduler.c 103-112 scheduler *)
Definition after_turn (p level : Z) : M (kstate H) unit :=
  x ← ld_proc p;
  if decide (p_state x = ZOMBIE) then mret tt else sched_enqueue p (demote level).

(** Hand the processor to the scheduler, and follow it to its next switch.  The
    result is where the process it picks continues. *)
Definition to_scheduler (pt : kpoint) (sp sched_sp : Z) : M (kstate H) (option kpoint) :=
  sched_p ← gets k_scheduler_proc;
  pt' ← ctx_switch sched_p pt sp;
  match pt' with
  | AtSched p level => after_turn p level ;; sched_round sched_sp
  | AtFresh => sched_round sched_sp
  | _ => fault sched_p
  end.

(* src/kernel/scheduler/scheduler.c 114-127 yield *)
Definition yield (sp sched_sp : Z) : M (kstate H) (option kpoint) :=
  p ← myproc;
  sched_p ← gets k_scheduler_proc;
  if sched_p =? 0 then panic "yield: no scheduler process to yield to" else
  st_proc p (with_state READY) ;;
  to_scheduler AtYield sp sched_sp.

(* src/kernel/scheduler/process.c 140-151 exit_process *)
Definition exit_process (sp sched_sp : Z) : M (kstate H) (option kpoint) :=
  p ← myproc;
  st_proc p (with_state ZOMBIE) ;;
  to_scheduler AtExit sp sched_sp.

(** What a process does when it gets the processor: a zombie that is resumed
    falls out of [exit_process] into its panic; the handler of a timer
    interrupt returns with the interrupt flag of the interrupted code. *)
(* src/kernel/scheduler/process.c 149-150 exit_process *)
Definition resume_at (pt : kpoint) : M (kstate H) unit :=
  match pt with
  | AtExit => panic "exit_process: scheduler switched back into a zombie"
  | AtTimer => sti
  | _ => mret tt
  end.

(* src/kernel/time.c 17-19 timer_ticks *)
Definition timer_ticks : M (kstate H) Z := gets k_ticks.

(* src/kernel/time.c 21-25 get_uptime_ms *)
Definition get_uptime_ms : M (kstate H) Z := gets k_ticks.

(** The local APIC takes a write to its end-of-interrupt register. *)
(* src/kernel/apic/apic.c 142-146 apic_send_eoi *)
Definition apic_send_eoi : M (kstate H) unit := modify (λ s, set_eois (k_eois s + 1) s).

(* src/kernel/time.c 27-30 timer_interrupt_handler *)
Definition timer_interrupt_handler : M (kstate H) unit :=
  modify (λ s, set_ticks (u32 (k_ticks s + 1)) s) ;;
  apic_send_eoi.

(** [&cpus[0]] is never null, so the handler's check does not fail; the processor
    clears the interrupt flag before it enters the handler. *)
(* src/kernel/time.c 32-39 timer_interrupt_handler_sched *)
Definition timer_interrupt_handler_sched (sp sched_sp : Z) : M (kstate H) (option kpoint) :=
  cli ;;
  modify (λ s, set_ticks (u32 (k_ticks s + 1)) s) ;;
  apic_send_eoi ;;
  to_scheduler AtTimer sp sched_sp.

(** [fork], its registers saved in a frame at [frame] by
    [clone_parent_base_frame]: the child resumes there with the [flags] of this
    call.  Stacks have one region, the first one [find_stack] sees. *)
(* src/kernel/scheduler/process.c 449-498 fork *)
Definition fork (name : string) (level frame : Z) : M (kstate H) Z :=
  flags ← irq_save;
  parent ← myproc;
  child ← alloc_process_no_entry name;
  match child with
  | None => irq_restore flags ;; mret (-1)
  | Some child =>
      st_proc child (with_parent parent) ;;
      pr ← find_stack 1 parent;
      pr ← ld_region pr;
      cr ← find_stack 1 child;
      cr ← ld_region cr;
      child_sp ← mach (clone_stack_rebased (vr_end cr) (vr_end pr) frame);
      st_proc child (with_context child_sp (AtFork, flags)) ;;
      sched_enqueue child level ;;
      irq_restore flags ;;
      x ← ld_proc child;
      mret (p_pid x)
  end.
End sched.
