(* ===== verification/SchedSpec.v ===== *)
(** * The scheduler refines three queues

    The abstract scheduler is three lists of processes.  The operations on the
    intrusive lists in memory are shown to implement it, against the queue
    interface of [Queue]. *)

From S2P Require Import Prelude Mm Paging64 Context Queue Process Sched.

(** ** The abstract scheduler *)

Record levels := Levels { lv0 : list Z; lv1 : list Z; lv2 : list Z }.

Definition lv (qs : levels) (i : Z) : list Z :=
  if i =? 0 then lv0 qs else if i =? 1 then lv1 qs else lv2 qs.

Definition queued (qs : levels) : list Z := lv0 qs ++ lv1 qs ++ lv2 qs.

(** A process enters a level behind the others. *)
Definition enqueue (p i : Z) (qs : levels) : levels :=
  if i =? 0 then Levels (lv0 qs ++ [p]) (lv1 qs) (lv2 qs)
  else if i =? 1 then Levels (lv0 qs) (lv1 qs ++ [p]) (lv2 qs)
  else Levels (lv0 qs) (lv1 qs) (lv2 qs ++ [p]).

(** The first process of the first level that is not empty runs next. *)
Definition pick (qs : levels) : option (Z * Z * levels) :=
  match lv0 qs, lv1 qs, lv2 qs with
  | p :: l, q1, q2 => Some (p, 0, Levels l q1 q2)
  | [], p :: l, q2 => Some (p, 1, Levels [] l q2)
  | [], [], p :: l => Some (p, 2, Levels [] [] l)
  | [], [], [] => None
  end.

Lemma pick_perm qs p i qs' :
  pick qs = Some (p, i, qs') → Permutation (queued qs) (p :: queued qs') ∧ 0 ≤ i < 3.
Proof.
  destruct qs as [[|a l0] [|b l1] [|c l2]]; unfold pick, queued; simpl; intros [= <- <- <-];
    (split; [|lia]); solve_Permutation.
Qed.

Lemma enqueue_perm p i qs : Permutation (queued (enqueue p i qs)) (p :: queued qs).
Proof.
  unfold enqueue, queued. destruct (i =? 0), (i =? 1); simpl; solve_Permutation.
Qed.

Lemma lv_enqueue p i j qs :
  0 ≤ i < 3 → 0 ≤ j < 3 → lv (enqueue p i qs) j = if j =? i then lv qs j ++ [p] else lv qs j.
Proof.
  intros Hi Hj. assert (i = 0 ∨ i = 1 ∨ i = 2) as [->|[->| ->]] by lia;
    assert (j = 0 ∨ j = 1 ∨ j = 2) as [->|[->| ->]] by lia; done.
Qed.

Lemma elem_of_lv p i qs : 0 ≤ i < 3 → p ∈ lv qs i → p ∈ queued qs.
Proof.
  intros Hi. unfold queued. rewrite !elem_of_app.
  assert (i = 0 ∨ i = 1 ∨ i = 2) as [->|[->| ->]] by lia; unfold lv; simpl; tauto.
Qed.

(** ** The layout of the kernel's data *)

(** The process table and the queue heads do not overlap. *)
Class LayoutOk (LY : Layout) : Prop := {
  lo_processes : 0 < processes;
  lo_disjoint : mlfq + 16 * NUM_PRIORITY_LEVELS ≤ processes ∨
                processes + sizeof_process * NUM_PROCESSES ≤ mlfq;
}.

Section layout.
Context {LY : Layout} {LO : LayoutOk LY}.

(** A slot of the process table. *)
Definition slot (p : Z) : Prop :=
  ∃ i, 0 ≤ i < NUM_PROCESSES ∧ p = processes + sizeof_process * i.

Definition sched_node (p : Z) : Z := p + off_sched.

Lemma sched_node_not_head p i : slot p → 0 ≤ i < 3 → sched_node p ≠ mlfq_at i.
Proof using LO.
  intros (j & Hj & ->) Hi. pose proof lo_disjoint. unfold sched_node, mlfq_at, off_sched.
  unfold NUM_PROCESSES, sizeof_process in *. lia.
Qed.

#[global] Instance sched_node_inj : Inj (=) (=) sched_node.
Proof. intros p q. unfold sched_node. lia. Qed.

Definition ring_of (qs : levels) (i : Z) : list Z := mlfq_at i :: (sched_node <$> lv qs i).

Lemma rings_disjoint qs i j :
  NoDup (queued qs) → (∀ p, p ∈ queued qs → slot p) → 0 ≤ i < 3 → 0 ≤ j < 3 → i ≠ j →
  ring_of qs i ## ring_of qs j.
Proof using LO.
  intros Hnd Hslot Hi Hj Hij x Hx Hy. unfold ring_of in *.
  apply elem_of_cons in Hx as [->|Hx], Hy as [E|Hy].
  - unfold mlfq_at in E. lia.
  - apply list_elem_of_fmap in Hy as (p & E & Hp).
    symmetry in E. revert E. apply sched_node_not_head; [|done]. by apply Hslot, (elem_of_lv _ j).
  - subst x. apply list_elem_of_fmap in Hx as (p & E & Hp).
    symmetry in E. revert E. apply sched_node_not_head; [|done]. by apply Hslot, (elem_of_lv _ i).
  - apply list_elem_of_fmap in Hx as (p & -> & Hp), Hy as (q & E & Hq). apply sched_node_inj in E as <-.
    unfold queued in Hnd. rewrite !NoDup_app in Hnd.
    destruct Hnd as (_ & H0 & _ & H1 & _).
    assert (i = 0 ∨ i = 1 ∨ i = 2) as [->|[->| ->]] by lia;
      assert (j = 0 ∨ j = 1 ∨ j = 2) as [->|[->| ->]] by lia; try done;
      unfold lv in Hp, Hq; simpl in Hp, Hq; set_solver.
Qed.

End layout.

Section spec.
Context {H : Type} {QO : QueueOps H} {QL : QueueLaws QO} `{BI : BootInfo}.
Context {LY : Layout} {LO : LayoutOk LY}.

(** The lists in memory are the abstract queues [qs]. *)
Record heap_ok (h : H) (qs : levels) : Prop := {
  ho_ring i : 0 ≤ i < 3 → q_ring h (ring_of qs i);
  ho_distinct : NoDup (queued qs);
  ho_slots p : p ∈ queued qs → slot p;
  ho_mapped p : slot p → q_mapped h (sched_node p);
}.

(** The other lists are untouched by an operation on one level. *)
Lemma other_rings h qs i h' xs :
  heap_ok h qs → 0 ≤ i < 3 → q_frame xs h h' →
  (∀ j, 0 ≤ j < 3 → j ≠ i → ring_of qs j ## xs) →
  (∀ j, 0 ≤ j < 3 → j ≠ i → q_ring h' (ring_of qs j)) ∧
  (∀ p, slot p → q_mapped h' (sched_node p)).
Proof using QL.
  intros Hq Hi Hf Hdis. split.
  - intros j Hj Hne. eapply q_ring_frame; [by apply Hq|done|auto].
  - intros p Hp. eapply q_mapped_frame; [by apply Hq|done].
Qed.

Lemma wp_lists {A} (m : M H A) (Q : A → kstate H → Prop) s :
  wp m (λ a h', Q a (set_heap h' s)) (k_heap s) → wp (lists m) Q s.
Proof. unfold wp, lists. by destruct (m (k_heap s)) as [[a x]| | | |]. Qed.

Lemma wp_mach {A} (m : M machine A) (Q : A → kstate H → Prop) s :
  wp m (λ a x, Q a (set_mach x s)) (k_mach s) → wp (mach m) Q s.
Proof. unfold wp, mach. by destruct (m (k_mach s)) as [[a x]| | | |]. Qed.

(** [m] between [irq_save] and the matching [irq_restore] with the lock held. *)
Definition critical {A} (m : M (kstate H) A) : M (kstate H) A :=
  flags ← irq_save;
  spinlock ;;
  r ← m;
  release ;;
  irq_restore flags ;;
  mret r.

Definition if_of (s : kstate H) : bool := m_if (k_mach s).
Definition with_if (b : bool) (s : kstate H) : kstate H := set_mach (set_if b (k_mach s)) s.

(** A critical section that only works on the lists changes nothing else: the
    lock is free again and the interrupt flag is what it was. *)
Lemma critical_lists {A} (m : M (kstate H) A) (P : A → H → Prop) s :
  k_lock s = false →
  (∀ s0, k_heap s0 = k_heap s → wp m (λ a s1, ∃ h', s1 = set_heap h' s0 ∧ P a h') s0) →
  wp (critical m) (λ a s', ∃ h', s' = set_heap h' s ∧ P a h') s.
Proof.
  intros Hl Hm. unfold critical.
  destruct s as [[mem pl c3 c4 fi tlb] h ps rs pid task sp lk tk eo]. cbn [k_lock] in Hl. subst lk.
  apply wp_bind. eapply wp_intro; [reflexivity|]. cbn.
  apply wp_bind. eapply wp_intro; [reflexivity|]. cbn.
  eapply wp_bind_mono; [apply Hm; reflexivity|]. intros a s1 (h' & -> & HP).
  apply wp_bind. eapply wp_intro; [reflexivity|]. cbn.
  apply wp_bind. destruct fi; (eapply wp_intro; [reflexivity|]);
    exists h'; (split; [reflexivity|exact HP]).
Qed.

Lemma wp_critical_unit (m : M (kstate H) unit) Q s :
  wp (critical m) Q s →
  wp (flags ← irq_save; spinlock ;; m ;; release ;; irq_restore flags) Q s.
Proof.
  unfold critical, wp, mbind, M_bind, mret, M_ret.
  destruct (irq_save s) as [[fl s1]| | | |]; try done.
  destruct (spinlock s1) as [[[] s2]| | | |]; try done.
  destruct (m s2) as [[[] s3]| | | |]; try done.
  destruct (release s3) as [[[] s4]| | | |]; try done.
  destruct (irq_restore fl s4) as [[[] s5]| | | |]; done.
Qed.

(** ** [sched_enqueue] appends to its level *)

Lemma sched_enqueue_ok s qs p i :
  k_lock s = false → heap_ok (k_heap s) qs → slot p → p ∉ queued qs → 0 ≤ i < 3 →
  wp (sched_enqueue p i) (λ _ s', ∃ h', s' = set_heap h' s ∧ heap_ok h' (enqueue p i qs) ∧
    q_frame (sched_node p :: ring_of qs i) (k_heap s) h') s.
Proof using QL LO.
  intros Hlock Hq Hp Hnew Hi. unfold sched_enqueue.
  rewrite (proj2 (Z.ltb_ge i 0)), (proj2 (Z.leb_gt 3 i)) by lia. cbn [orb].
  apply wp_critical_unit, critical_lists; [done|].
  intros s0 Hs0. apply wp_lists. rewrite Hs0.
  pose proof (ho_ring _ _ Hq i Hi) as Hring. unfold ring_of in Hring.
  assert (sched_node p ∉ ring_of qs i) as Hn.
  { unfold ring_of. rewrite not_elem_of_cons. split; [by apply sched_node_not_head|].
    intros (q & E & Hqi)%list_elem_of_fmap. apply sched_node_inj in E as <-.
    by apply Hnew, (elem_of_lv _ i). }
  eapply wp_mono; [by apply q_add_tail_spec; [|apply Hq|]|].
  intros _ h' [Hr Hf]. exists h'. split; [done|].
  assert (∀ j, 0 ≤ j < 3 → j ≠ i → ring_of qs j ## sched_node p :: ring_of qs i) as Hdis.
  { intros j Hj Hne x Hx [->|Hx']%elem_of_cons.
    - unfold ring_of in Hx. apply elem_of_cons in Hx as [E|(q & E & Hqj)%list_elem_of_fmap].
      + revert E. by apply sched_node_not_head.
      + apply sched_node_inj in E as <-. by apply Hnew, (elem_of_lv _ j).
    - revert Hx'. by eapply rings_disjoint; try apply Hq. }
  destruct (other_rings _ qs i h' _ Hq Hi Hf Hdis) as [Hoth Hmap].
  pose proof (enqueue_perm p i qs) as Hperm.
  split; [|exact Hf]. split; [| | |exact Hmap].
  - intros j Hj. unfold ring_of. rewrite lv_enqueue by done.
    destruct (Z.eqb_spec j i) as [->|Hne].
    + rewrite fmap_app. exact Hr.
    + by apply Hoth.
  - rewrite Hperm. apply NoDup_cons. split; [done|apply Hq].
  - intros q. rewrite Hperm. intros [->|Hq']%elem_of_cons; [done|by apply Hq].
Qed.

(** ** [sched_pick] takes the first process of the first level *)

(** Level [i] without its first process. *)
Definition drop_first (i : Z) (qs : levels) : levels :=
  if i =? 0 then Levels (tail (lv0 qs)) (lv1 qs) (lv2 qs)
  else if i =? 1 then Levels (lv0 qs) (tail (lv1 qs)) (lv2 qs)
  else Levels (lv0 qs) (lv1 qs) (tail (lv2 qs)).

Lemma pick_level qs i p l :
  0 ≤ i < 3 → (∀ j, 0 ≤ j < i → lv qs j = []) → lv qs i = p :: l →
  pick qs = Some (p, i, drop_first i qs).
Proof.
  intros Hi He Hl. destruct qs as [q0 q1 q2]. unfold lv in *. cbn in *.
  assert (i = 0 ∨ i = 1 ∨ i = 2) as [->|[->| ->]] by lia; cbn in Hl; subst.
  - done.
  - pose proof (He 0 ltac:(lia)) as E0. cbn in E0. subst. done.
  - pose proof (He 0 ltac:(lia)) as E0. pose proof (He 1 ltac:(lia)) as E1. cbn in E0, E1. by subst.
Qed.

Lemma lv_drop_first qs i j :
  0 ≤ i < 3 → 0 ≤ j < 3 → lv (drop_first i qs) j = if j =? i then tail (lv qs j) else lv qs j.
Proof.
  intros Hi Hj. assert (i = 0 ∨ i = 1 ∨ i = 2) as [->|[->| ->]] by lia;
    assert (j = 0 ∨ j = 1 ∨ j = 2) as [->|[->| ->]] by lia; done.
Qed.

Definition picked (qs : levels) (r : option (Z * Z)) (h' : H) : Prop :=
  match pick qs with
  | None => r = None ∧ heap_ok h' qs
  | Some (p, l, qs') => r = Some (p, l) ∧ heap_ok h' qs'
  end.

Lemma pick_from_ok n i s qs :
  heap_ok (k_heap s) qs → 0 ≤ i → i + Z.of_nat n = 3 → (∀ j, 0 ≤ j < i → lv qs j = []) →
  wp (pick_from i n) (λ r s', ∃ h', s' = set_heap h' s ∧ picked qs r h') s.
Proof using QL LO.
  revert i. induction n as [|n IH]; intros i Hq Hi Hn He; cbn [pick_from].
  - apply wp_ret. exists (k_heap s). split; [by destruct s|]. unfold picked.
    assert (i = 3) as -> by lia. destruct qs as [q0 q1 q2].
    pose proof (He 0 ltac:(lia)) as E0. pose proof (He 1 ltac:(lia)) as E1.
    pose proof (He 2 ltac:(lia)) as E2. unfold lv in *. cbn in *. by subst.
  - pose proof (ho_ring _ _ Hq i ltac:(lia)) as Hring. unfold ring_of in Hring.
    apply wp_bind, wp_lists. eapply wp_intro; [by eapply q_empty_spec|].
    destruct (lv qs i) as [|p l] eqn:El.
    + rewrite bool_decide_eq_true_2 by done. replace (set_heap (k_heap s) s) with s by by destruct s.
      apply IH; [done|lia|lia|]. intros j Hj.
      destruct (decide (j = i)) as [->|]; [done|]. apply He. lia.
    + rewrite bool_decide_eq_false_2 by done. apply wp_bind, wp_lists. cbn [k_heap set_heap].
      eapply wp_intro; [by eapply q_next_spec|]. cbn [fmap list_fmap hd].
      replace (sched_node p - off_sched) with p by (unfold sched_node; lia).
      fold (sched_node p). apply wp_bind, wp_lists. cbn [k_heap set_heap].
      eapply wp_mono; [eapply (q_del_init_spec _ _ [] (sched_node p)); exact Hring|].
      intros _ h' (Hr & Hself & Hf). apply wp_ret. exists h'. split; [by destruct s|].
      unfold picked. rewrite (pick_level qs i p l) by (done || lia). split; [done|].
      destruct (other_rings _ qs i h' _ Hq ltac:(lia) Hf) as [Hoth Hmap].
      { intros j Hj Hne x Hx Hx'. assert (x ∈ ring_of qs i) as Hx2.
        { unfold ring_of. by rewrite El. }
        revert Hx2. eapply (rings_disjoint qs j i); try apply Hq; done || lia. }
      assert (pick qs = Some (p, i, drop_first i qs)) as Hpick by (eapply pick_level; done || lia).
      destruct (pick_perm _ _ _ _ Hpick) as [Hperm _].
      split; [| | |exact Hmap].
      * intros j Hj. unfold ring_of. rewrite lv_drop_first by lia.
        destruct (Z.eqb_spec j i) as [->|Hne]; [by rewrite El|by apply Hoth].
      * pose proof (ho_distinct _ _ Hq) as Hd. rewrite Hperm in Hd. by apply NoDup_cons_1_2 in Hd.
      * intros q Hin. apply Hq. rewrite Hperm. by right.
Qed.

Lemma sched_pick_ok s qs :
  k_lock s = false → heap_ok (k_heap s) qs →
  wp sched_pick (λ r s', ∃ h', s' = set_heap h' (with_if true s) ∧ picked qs r h') s.
Proof using QL LO.
  intros Hl Hq. unfold sched_pick. apply wp_bind, wp_modify.
  assert (wp (critical (pick_from 0 (Z.to_nat NUM_PRIORITY_LEVELS)))
     (λ r s', ∃ h', s' = set_heap h' (with_if true s) ∧ picked qs r h') (with_if true s)) as Hc; [|exact Hc].
  apply critical_lists; [done|]. intros s0 Hs0. apply pick_from_ok; [by rewrite Hs0|lia|done|].
  intros j Hj. lia.
Qed.
End spec.
