(* ===== verification/SchedInv.v ===== *)
(** * The scheduler invariant

    What is true of the kernel between two turns, and that every way of giving
    up the processor keeps it: the process queues are well formed, nothing on
    them is dead, the scheduler remembers whose turn it is. *)

From S2P Require Import Prelude Mm Paging64 Context Queue Process Sched SchedSpec.

(** Points a queued process may be resumed at. *)
Definition resumable (pt : kpoint) : Prop :=
  match pt with AtExit | AtSched _ _ => False | _ => True end.

Definition runnable (st : process_state) : Prop := st = READY ∨ st = RUNNING.

Section inv.
Context {H : Type} {QO : QueueOps H} {QL : QueueLaws QO} {BI : BootInfo}.
Context {LY : Layout} {LO : LayoutOk LY}.

(** A process with state [st] has the processor, given to it from level [l]. *)
Record turn_of (s : kstate H) (qs : levels) (l : Z) (st : process_state) : Prop := {
  ti_lock : k_lock s = false;
  ti_heap : heap_ok (k_heap s) qs;
  ti_sched : k_scheduler_proc s ≠ 0 ∧ (k_scheduler_proc s ∉ queued qs) ∧
             k_scheduler_proc s ≠ k_task s;
  ti_task : slot (k_task s) ∧ (k_task s ∉ queued qs);
  ti_queued p : p ∈ queued qs →
    ∃ x, k_procs s !! p = Some x ∧ runnable (p_state x) ∧ resumable (p_cont x).1;
  ti_running : ∃ x, k_procs s !! k_task s = Some x ∧ p_state x = st;
  ti_level : 0 ≤ l < 3 ∧
    ∃ x fl, k_procs s !! k_scheduler_proc s = Some x ∧ p_cont x = (AtSched (k_task s) l, fl);
}.

(** Between turns: the running process is in state RUNNING. *)
Definition sched_inv (s : kstate H) (qs : levels) (l : Z) : Prop := turn_of s qs l RUNNING.

(** The scheduler itself has the processor, its queues being [qs]. *)
Record between (s : kstate H) (qs : levels) : Prop := {
  bt_lock : k_lock s = false;
  bt_heap : heap_ok (k_heap s) qs;
  bt_sched : k_scheduler_proc s ≠ 0 ∧ k_scheduler_proc s ∉ queued qs;
  bt_task : k_task s = k_scheduler_proc s;
  bt_queued p : p ∈ queued qs →
    ∃ x, k_procs s !! p = Some x ∧ runnable (p_state x) ∧ resumable (p_cont x).1;
  bt_proc : is_Some (k_procs s !! k_scheduler_proc s);
}.

(** The queues after the turn of [p], taken from level [l] and left in state [st]: from the
    first level it sinks to the second, from the others to the last. *)
Definition requeue (p l : Z) (st : process_state) (qs : levels) : levels :=
  match st with
  | ZOMBIE => qs
  | _ => if l =? 0 then Levels (lv0 qs) (lv1 qs ++ [p]) (lv2 qs) else Levels (lv0 qs) (lv1 qs) (lv2 qs ++ [p])
  end.

Lemma requeue_demote p l st qs :
  0 ≤ l < 3 → requeue p l st qs = if decide (st = ZOMBIE) then qs else enqueue p (demote l) qs.
Proof.
  intros Hl. assert (l = 0 ∨ l = 1 ∨ l = 2) as [->|[->| ->]] by lia; by destruct st.
Qed.

(** Ticks, and interrupts that have been acknowledged. *)
Definition clock (s : kstate H) : Z * Z := (k_ticks s, k_eois s).

(** The processor is given to the next process of [qs], which continues where it
    stopped; with nothing to run the scheduler keeps it. *)
Definition handed (ps : gmap Z process) (sched : Z) (clk : Z * Z) (qs : levels) (r : option kpoint)
    (s' : kstate H) : Prop :=
  k_scheduler_proc s' = sched ∧ clock s' = clk ∧
  match pick qs with
  | None => r = None ∧ between s' qs ∧ k_procs s' = ps
  | Some (p, l, qs') =>
      sched_inv s' qs' l ∧ k_task s' = p ∧
      (∃ x, ps !! p = Some x ∧ r = Some (p_cont x).1 ∧ resumable (p_cont x).1) ∧
      (∀ q, q ≠ p → q ≠ sched → k_procs s' !! q = ps !! q)
  end.

(** ** One switch *)

Record switched (s : kstate H) (new : Z) (pt : kpoint) (sp : Z) (np old : process)
    (r : kpoint) (s' : kstate H) : Prop := {
  sw_point : r = (p_cont np).1;
  sw_procs : ∃ fl, k_procs s' = <[k_task s := with_context sp (pt, fl) old]> (k_procs s);
  sw_task : k_task s' = new;
  sw_heap : k_heap s' = k_heap s;
  sw_lock : k_lock s' = k_lock s;
  sw_sched : k_scheduler_proc s' = k_scheduler_proc s;
  sw_pid : k_pid s' = k_pid s;
  sw_clock : clock s' = clock s;
  sw_mem : m_mem (k_mach s') = m_mem (k_mach s);
  sw_cr3 : m_cr3 (k_mach s') = p_pml4 np;
}.

Lemma irq_save_ok (s : kstate H) :
  irq_save s = Ok (if if_of s then FL_IF else 0, with_if false s).
Proof. destruct s as [[mem pl c3 c4 fi tlb] h ps rs pid task sp lk tk eo]. by destruct fi. Qed.

Lemma irq_restore_ok fl (s : kstate H) :
  irq_restore fl s = Ok (tt, if nz (fl .& FL_IF) then with_if true s else s).
Proof. unfold irq_restore, when. by destruct (nz (fl .& FL_IF)). Qed.

Lemma myproc_ok (s : kstate H) : myproc s = Ok (k_task s, s).
Proof. destruct s as [[mem pl c3 c4 fi tlb] h ps rs pid task sp lk tk eo]. by destruct fi. Qed.

Lemma wp_ld_proc p x (Q : process → kstate H → Prop) s :
  k_procs s !! p = Some x → Q x s → wp (ld_proc p) Q s.
Proof. unfold wp, ld_proc. by intros ->. Qed.

Lemma wp_st_proc p f x (Q : unit → kstate H → Prop) s :
  k_procs s !! p = Some x → Q tt (set_procs (<[p := f x]> (k_procs s)) s) → wp (st_proc p f) Q s.
Proof. unfold wp, st_proc. by intros ->. Qed.

Lemma ctx_switch_ok s new pt sp np old :
  k_procs s !! new = Some np → k_procs s !! k_task s = Some old →
  wp (ctx_switch new pt sp) (switched s new pt sp np old) s.
Proof.
  intros Hn Ho. unfold ctx_switch.
  apply wp_bind. eapply wp_intro; [apply irq_save_ok|].
  apply wp_bind. eapply wp_intro; [apply myproc_ok|].
  apply wp_bind, wp_modify. apply wp_bind. eapply wp_ld_proc; [exact Hn|].
  apply wp_bind. eapply wp_st_proc; [exact Ho|].
  apply wp_bind. eapply wp_intro; [reflexivity|].
  assert (∀ fl r, r = (p_cont np).1 →
    wp (irq_restore fl ;; mret r) (switched s new pt sp np old)
      (set_mach (set_cr3 (p_pml4 np) (set_tlb (filter (λ kv, p_global kv.2.2 = true))
         (set_if false (k_mach s))))
        (set_procs (<[k_task s := with_context sp (pt, if if_of s then FL_IF else 0) old]> (k_procs s))
          (set_task new (with_if false s))))) as Hend.
  { intros fl r ->. apply wp_bind. eapply wp_intro; [apply irq_restore_ok|]. apply wp_ret.
    destruct (nz (fl .& FL_IF)); split; cbn [k_procs k_task k_heap k_lock k_scheduler_proc k_pid
      k_mach set_mach set_procs set_task with_if m_mem m_cr3 set_cr3 set_tlb set_if]; eauto. }
  destruct (p_cont np) as [c fl']; destruct c; by apply Hend.
Qed.
(** ** One pass of the scheduler's loop *)

Lemma sched_round_ok s qs sp :
  between s qs →
  wp (sched_round sp) (handed (k_procs s) (k_scheduler_proc s) (clock s) qs) s.
Proof using QL LO.
  intros B. unfold sched_round. eapply wp_bind_mono; [apply sched_pick_ok; apply B|].
  intros r s1 (h' & -> & Hp). unfold picked in Hp. unfold handed.
  destruct (pick qs) as [[[p l] qs']|] eqn:Epick.
  - destruct Hp as [-> Hh]. destruct (pick_perm _ _ _ _ Epick) as [Hperm Hl].
    assert (p ∈ queued qs) as Hpq by (rewrite Hperm; left).
    assert (∀ q, q ∈ queued qs' → q ∈ queued qs ∧ q ≠ p) as Hqs'.
    { intros q Hq. split; [rewrite Hperm; by right|]. intros ->.
      pose proof (ho_distinct _ _ (bt_heap _ _ B)) as Hnd. rewrite Hperm in Hnd.
      by apply NoDup_cons in Hnd as [? _]. }
    destruct (bt_queued _ _ B p Hpq) as (x & Hx & Hrun & Hres).
    destruct (bt_proc _ _ B) as [y Hy]. destruct (bt_sched _ _ B) as [Hs0 Hsn].
    assert (k_scheduler_proc s ≠ p) as Hsp by congruence.
    apply wp_bind. eapply wp_st_proc; [exact Hx|]. apply wp_bind.
    eapply wp_mono; [eapply ctx_switch_ok|].
    + cbn [k_procs set_procs]. apply lookup_insert_eq.
    + cbn [k_procs set_procs k_task set_heap set_mach with_if]. rewrite (bt_task _ _ B).
      rewrite lookup_insert_ne by congruence. exact Hy.
    + intros pt s2 Hsw. apply wp_ret.
      destruct Hsw as [Hpt [fl Hps] Htask Hheap Hlock Hsched _ Hclk _ _].
      cbn [k_procs set_procs k_task set_heap set_mach with_if k_heap k_lock k_scheduler_proc] in *.
      rewrite (bt_task _ _ B) in Hps.
      assert (∀ q, q ≠ p → q ≠ k_scheduler_proc s → k_procs s2 !! q = k_procs s !! q) as Hoth.
      { intros q H1 H2. rewrite Hps, lookup_insert_ne, lookup_insert_ne by congruence. done. }
      split; [done|]. split; [done|]. split; [|split; [done|split; [|done]]].
      * split.
        -- rewrite Hlock. apply B.
        -- by rewrite Hheap.
        -- rewrite Hsched, Htask. split; [done|split; [|done]]. intros Hin. by apply Hsn, Hqs'.
        -- rewrite Htask. split; [by apply (bt_heap _ _ B)|]. intros Hin. by apply Hqs' in Hin as [_ ?].
        -- intros q Hq. apply Hqs' in Hq as [Hq Hne]. rewrite Hoth; [by apply B|done|congruence].
        -- rewrite Htask. exists (with_state RUNNING x). split; [|done].
           rewrite Hps, lookup_insert_ne, lookup_insert_eq by congruence. done.
        -- split; [done|]. rewrite Hsched, Htask, Hps, lookup_insert_eq. eexists _, fl. split; reflexivity.
      * exists x. subst pt. done.
  - destruct Hp as [-> Hh]. apply wp_ret. split; [done|]. split; [done|]. split; [done|]. split; [|done].
    destruct B. by split.
Qed.

(** ** Giving up the processor *)

Lemma demote_range l : 0 ≤ l < 3 → 0 ≤ demote l < 3.
Proof. unfold demote. bcase; lia. Qed.

(** The scheduler takes the process back, behind the others of the next level
    down, unless it has exited. *)
Lemma after_turn_ok s qs l p x :
  k_procs s !! p = Some x → k_lock s = false → heap_ok (k_heap s) qs → slot p → p ∉ queued qs →
  0 ≤ l < 3 →
  wp (after_turn p l)
    (λ _ s', ∃ h', s' = set_heap h' s ∧ heap_ok h' (requeue p l (p_state x) qs)) s.
Proof using QL LO.
  intros Hx Hl Hh Hp Hnq Hlev. unfold after_turn. rewrite requeue_demote by done. apply wp_bind.
  eapply wp_ld_proc; [exact Hx|]. destruct (decide (p_state x = ZOMBIE)).
  - apply wp_ret. exists (k_heap s). split; [by destruct s|done].
  - eapply wp_mono; [apply sched_enqueue_ok; [done..|]; by apply demote_range|].
    intros [] s' (h' & ? & ? & _). by exists h'.
Qed.

Lemma elem_of_requeue q p l st qs :
  q ∈ queued (requeue p l st qs) ↔ (q = p ∧ st ≠ ZOMBIE) ∨ q ∈ queued qs.
Proof.
  unfold requeue, queued. destruct st, (l =? 0); cbn [lv0 lv1 lv2]; rewrite ?elem_of_app, ?list_elem_of_singleton; naive_solver.
Qed.

Lemma to_scheduler_ok s qs l x pt sp ssp :
  turn_of s qs l (p_state x) → k_procs s !! k_task s = Some x →
  (p_state x ≠ ZOMBIE → runnable (p_state x) ∧ resumable pt) →
  wp (to_scheduler pt sp ssp)
    (λ r s', ∃ fl, handed (<[k_task s := with_context sp (pt, fl) x]> (k_procs s))
       (k_scheduler_proc s) (clock s) (requeue (k_task s) l (p_state x) qs) r s') s.
Proof using QL LO.
  intros T Hx Hok. unfold to_scheduler.
  destruct (ti_level _ _ _ _ T) as (Hl & y & fl0 & Hy & Hcont).
  destruct (ti_sched _ _ _ _ T) as (Hs0 & Hsq & Hst).
  apply wp_bind, wp_gets. eapply wp_bind_mono; [eapply ctx_switch_ok; [exact Hy|exact Hx]|].
  intros pt' s1 [Hpt [fl Hps] Htask Hheap Hlock Hsched _ Hclk _ _]. rewrite Hcont in Hpt. cbn in Hpt. subst pt'.
  set (x' := with_context sp (pt, fl) x) in *.
  eapply wp_bind_mono.
  { apply (after_turn_ok s1 qs l (k_task s) x'); [rewrite Hps; apply lookup_insert_eq|..|done].
    - rewrite Hlock. exact (ti_lock _ _ _ _ T).
    - rewrite Hheap. exact (ti_heap _ _ _ _ T).
    - exact (proj1 (ti_task _ _ _ _ T)).
    - exact (proj2 (ti_task _ _ _ _ T)). }
  intros [] s2 (h' & -> & Hh). change (p_state x') with (p_state x) in Hh.
  eapply wp_mono; [apply (sched_round_ok _ (requeue (k_task s) l (p_state x) qs))|].
  - split; cbn [k_procs k_task set_heap k_heap k_lock k_scheduler_proc].
    + rewrite Hlock. apply T.
    + done.
    + rewrite Hsched. split; [done|]. rewrite elem_of_requeue. intros [[? _]|?]; congruence.
    + congruence.
    + intros q [[-> Hz]|Hq]%elem_of_requeue; rewrite Hps.
      * exists x'. rewrite lookup_insert_eq. split; [done|]. by apply Hok.
      * rewrite lookup_insert_ne; [by apply T|]. intros <-. by apply (ti_task _ _ _ _ T).
    + rewrite Hsched, Hps, lookup_insert_ne by congruence. by rewrite Hy.
  - intros r s3. cbn [k_procs k_scheduler_proc set_heap]. change (clock (set_heap h' s1)) with (clock s1). rewrite Hps, Hsched, Hclk. by exists fl.
Qed.
(** ** A process that joins *)

Lemma sched_enqueue_keeps s qs l p i x :
  sched_inv s qs l → slot p → p ∉ queued qs → p ≠ k_task s → p ≠ k_scheduler_proc s →
  k_procs s !! p = Some x → runnable (p_state x) → resumable (p_cont x).1 → 0 ≤ i < NUM_PRIORITY_LEVELS →
  wp (sched_enqueue p i) (λ _ s', sched_inv s' (enqueue p i qs) l ∧
    ∃ h', s' = set_heap h' s ∧ q_frame (sched_node p :: ring_of qs i) (k_heap s) h') s.
Proof using QL LO.
  intros I Hp Hq Ht Hs Hx Hrun Hres Hi.
  eapply wp_mono; [apply (sched_enqueue_ok s qs p i (ti_lock _ _ _ _ I) (ti_heap _ _ _ _ I) Hp Hq Hi)|].
  intros [] s' (h' & -> & Hh & Hf). split; [|by exists h'].
  assert (∀ q, q ∈ queued (enqueue p i qs) ↔ q = p ∨ q ∈ queued qs) as Hperm.
  { intros q. by rewrite enqueue_perm, elem_of_cons. }
  split; cbn [k_lock k_heap k_scheduler_proc k_task k_procs set_heap]; try apply I.
  - done.
  - destruct (ti_sched _ _ _ _ I) as (? & ? & ?). rewrite Hperm. naive_solver.
  - destruct (ti_task _ _ _ _ I). rewrite Hperm. naive_solver.
  - intros q [->|Hin]%Hperm; [by exists x|by apply I].
Qed.
End inv.
