(* ===== verification/SchedLive.v ===== *)
(** * Turns of the scheduler

    The ways to give up the processor as one operation, [turn]; the invariant it
    keeps; and the number of turns a queued process waits. *)

From S2P Require Import Prelude Mm Paging64 Context Queue Process Sched SchedSpec SchedInv.

(** How a turn ends.  The stack pointers are those of the process and of the
    scheduler at their switches. *)
Inductive event := Yield (sp ssp : Z) | Exit (sp ssp : Z) | Tick (sp ssp : Z).

(** The state an ending leaves the process in. *)
Definition end_state (e : event) : process_state :=
  match e with Yield _ _ => READY | Exit _ _ => ZOMBIE | Tick _ _ => RUNNING end.

Definition end_point (e : event) : kpoint :=
  match e with Yield _ _ => AtYield | Exit _ _ => AtExit | Tick _ _ => AtTimer end.

(** A tick is counted, and its interrupt acknowledged. *)
Definition end_clock (e : event) (clk : Z * Z) : Z * Z :=
  match e with Tick _ _ => (u32 (clk.1 + 1), clk.2 + 1) | _ => clk end.

Definition end_sp (e : event) : Z :=
  match e with Yield sp _ | Exit sp _ | Tick sp _ => sp end.

(** ** Waiting *)

Fixpoint pos (p : Z) (l : list Z) : nat :=
  match l with
  | [] => 0
  | x :: l => if decide (p = x) then 0 else S (pos p l)
  end.

(** The turns before [p]'s, the running process being from level [l]: those ahead
    of it at its level, and those of the levels above, twice if they must sink two
    levels to be behind it. *)
Definition wait (p l : Z) (qs : levels) : nat :=
  if bool_decide (p ∈ lv0 qs) then pos p (lv0 qs)
  else if bool_decide (p ∈ lv1 qs) then length (lv0 qs) + pos p (lv1 qs)
  else 2 * length (lv0 qs) + length (lv1 qs) + pos p (lv2 qs) + (if l =? 0 then 1 else 0).

Lemma pos_app p l l' : p ∈ l → pos p (l ++ l') = pos p l.
Proof.
  induction l as [|x l IH]; intros Hp; [by apply elem_of_nil in Hp|]. simpl.
  destruct (decide (p = x)); [done|]. f_equal. apply IH. by apply elem_of_cons in Hp as [->|].
Qed.

Lemma pos_cons_ne p x l : p ≠ x → pos p (x :: l) = S (pos p l).
Proof. intros Hne. simpl. by rewrite decide_False. Qed.

Lemma elem_of_snoc_ne p t (l : list Z) : t ≠ p → p ∈ l ++ [t] ↔ p ∈ l.
Proof. intros Ht. rewrite elem_of_app, list_elem_of_singleton. naive_solver. Qed.

(** Putting the running process back costs [p] a turn only if it sinks to the
    level above [p]'s. *)
Lemma wait_requeue p t l st qs :
  p ∈ queued qs → t ≠ p → 0 ≤ l < 3 → (wait p 1 (requeue t l st qs) ≤ wait p l qs)%nat.
Proof.
  intros Hp Ht Hl. destruct (decide (st = ZOMBIE)) as [->|Hz].
  { unfold requeue, wait. change (1 =? 0) with false. destruct (l =? 0); repeat case_bool_decide; lia. }
  assert (requeue t l st qs = if l =? 0 then Levels (lv0 qs) (lv1 qs ++ [t]) (lv2 qs) else Levels (lv0 qs) (lv1 qs) (lv2 qs ++ [t])) as ->
    by (by destruct st).
  destruct qs as [l0 l1 l2]. unfold queued in Hp. cbn [lv0 lv1 lv2] in Hp. rewrite !elem_of_app in Hp.
  unfold wait; change (1 =? 0) with false; destruct (l =? 0); cbn [lv0 lv1 lv2 Z.eqb]; rewrite ?(bool_decide_ext _ _ (elem_of_snoc_ne p t l1 Ht));
    repeat case_bool_decide; rewrite ?pos_app, ?length_app by tauto; cbn [length]; lia.
Qed.

(** Another process taking its turn brings [p] one turn closer. *)
Lemma wait_pick p qs q l qs' :
  pick qs = Some (q, l, qs') → p ∈ queued qs → q ≠ p → (S (wait p l qs') ≤ wait p 1 qs)%nat.
Proof.
  intros Hpick Hp Hne.
  assert (∀ l, bool_decide (p ∈ q :: l) = bool_decide (p ∈ l)) as Hb.
  { intros l'. apply bool_decide_ext. rewrite elem_of_cons. naive_solver. }
  assert (∀ l, pos p (q :: l) = S (pos p l)) as Hpos by (intros; apply pos_cons_ne; congruence).
  destruct qs as [[|a l0] l1 l2]; [destruct l1 as [|b l1]; [destruct l2 as [|c l2]|]|];
    cbn [pick lv0 lv1 lv2] in Hpick; simplify_eq; unfold wait; cbn [lv0 lv1 lv2 Z.eqb];
    rewrite ?Hb, ?Hpos; repeat case_bool_decide; cbn [length]; first [lia|by exfalso; eapply not_elem_of_nil].
Qed.

(** A turn later either it is [p]'s turn or [p] waits for fewer turns. *)
Lemma wait_step p t l st qs q l' qs' :
  p ∈ queued qs → t ≠ p → 0 ≤ l < 3 →
  pick (requeue t l st qs) = Some (q, l', qs') →
  q = p ∨ p ∈ queued qs' ∧ (wait p l' qs' < wait p l qs)%nat.
Proof.
  intros Hp Ht Hl Hpick. destruct (decide (q = p)) as [|Hqp]; [by left|right].
  assert (p ∈ queued (requeue t l st qs)) as Hin by (apply elem_of_requeue; by right).
  pose proof (wait_requeue p t l st qs Hp Ht Hl). pose proof (wait_pick p _ _ _ _ Hpick Hin Hqp).
  split; [|lia]. destruct (pick_perm _ _ _ _ Hpick) as [Hperm _].
  rewrite Hperm in Hin. by apply elem_of_cons in Hin as [->|].
Qed.

Lemma pick_some qs p : p ∈ queued qs → ∃ q l qs', pick qs = Some (q, l, qs').
Proof.
  destruct qs as [[|a l0] [|b l1] [|c l2]]; unfold pick; simpl; eauto.
  by intros ?%elem_of_nil.
Qed.

Section turns.
Context {H : Type} {QO : QueueOps H} {QL : QueueLaws QO} {BI : BootInfo}.
Context {LY : Layout} {LO : LayoutOk LY}.

Definition turn (e : event) : M (kstate H) (option kpoint) :=
  match e with
  | Yield sp ssp => yield sp ssp
  | Exit sp ssp => exit_process sp ssp
  | Tick sp ssp => timer_interrupt_handler_sched sp ssp
  end.

(** What ending a turn that came from level [l] does. *)
Definition turn_post (e : event) (s : kstate H) (qs : levels) (l : Z) (r : option kpoint)
    (s' : kstate H) : Prop :=
  ∃ x fl, k_procs s !! k_task s = Some x ∧
    handed (<[k_task s := with_context (end_sp e) (end_point e, fl) (with_state (end_state e) x)]> (k_procs s))
      (k_scheduler_proc s) (end_clock e (clock s)) (requeue (k_task s) l (end_state e) qs) r s'.

Lemma turn_of_state s qs l x st :
  sched_inv s qs l → k_procs s !! k_task s = Some x →
  turn_of (set_procs (<[k_task s := with_state st x]> (k_procs s)) s) qs l st.
Proof.
  intros [? ? Hs Ht Hq ? Hl] Hx. split; cbn [k_lock k_heap k_scheduler_proc k_task k_procs set_procs]; try done.
  - intros p Hp. rewrite lookup_insert_ne by (intros <-; by apply Ht). by apply Hq.
  - exists (with_state st x). by rewrite lookup_insert_eq.
  - rewrite lookup_insert_ne by (symmetry; apply Hs). done.
Qed.

Lemma sched_inv_mach m s qs l : sched_inv s qs l → sched_inv (set_mach m s) qs l.
Proof. intros [? ? ? ? ? ? ?]. split; assumption. Qed.

Lemma sched_inv_ticks t s qs l : sched_inv s qs l → sched_inv (set_ticks t s) qs l.
Proof. intros [? ? ? ? ? ? ?]. split; assumption. Qed.

Lemma sched_inv_eois n s qs l : sched_inv s qs l → sched_inv (set_eois n s) qs l.
Proof. intros [? ? ? ? ? ? ?]. split; assumption. Qed.

Lemma turn_ok e s qs l : sched_inv s qs l → wp (turn e) (turn_post e s qs l) s.
Proof using QL LO.
  intros I. destruct (ti_running _ _ _ _ I) as (x & Hx & Hst).
  pose proof (proj1 (ti_sched _ _ _ _ I)) as Hsched.
  destruct e as [sp ssp|sp ssp|sp ssp]; unfold turn, turn_post; cbn [end_sp end_point end_state].
  - unfold yield. apply wp_bind. eapply wp_intro; [apply myproc_ok|]. apply wp_bind, wp_gets.
    rewrite (proj2 (Z.eqb_neq _ _) Hsched). apply wp_bind. eapply wp_st_proc; [exact Hx|].
    eapply wp_mono; [apply (to_scheduler_ok _ qs l (with_state READY x))|].
    + by apply turn_of_state.
    + apply lookup_insert_eq.
    + intros _. split; [by left|done].
    + intros r s' [fl Hh]. exists x, fl. split; [done|].
      cbn [k_procs set_procs k_task] in Hh. by rewrite insert_insert_eq in Hh.
  - unfold exit_process. apply wp_bind. eapply wp_intro; [apply myproc_ok|].
    apply wp_bind. eapply wp_st_proc; [exact Hx|].
    eapply wp_mono; [apply (to_scheduler_ok _ qs l (with_state ZOMBIE x))|].
    + by apply turn_of_state.
    + apply lookup_insert_eq.
    + done.
    + intros r s' [fl Hh]. exists x, fl. split; [done|].
      cbn [k_procs set_procs k_task] in Hh. by rewrite insert_insert_eq in Hh.
  - unfold timer_interrupt_handler_sched. apply wp_bind, wp_modify, wp_bind, wp_modify, wp_bind, wp_modify.
    eapply wp_mono; [apply (to_scheduler_ok _ qs l x)|].
    + rewrite Hst. by apply sched_inv_eois, sched_inv_ticks, sched_inv_mach.
    + exact Hx.
    + intros _. split; [by right|done].
    + intros r s' [fl Hh]. exists x, fl. split; [done|].
      cbn [k_procs set_procs k_task set_mach set_ticks set_eois k_scheduler_proc] in Hh. rewrite Hst in Hh.
      assert (with_state RUNNING x = x) as -> by (destruct x; cbn in Hst; by subst). exact Hh.
Qed.
End turns.
