(* ===== verification/SchedProps.v ===== *)
(** * The scheduler theorems

    The properties of the multilevel feedback queue and of the ways to leave and
    enter the processor, for any implementation of the queue interface, each
    with a concrete kernel on the lists of [list.h] that shows its hypotheses can
    hold. *)

From S2P Require Import Prelude ListHead ListHeadOps Mm Paging64 PagingSpec Context Queue Process.
From S2P Require Import Sched SchedSpec SchedInv SchedLive.

(** ** A concrete kernel: the scheduler, a running process, two queued ones,
    a new one *)

Module Ex.
#[local] Existing Instance ex_boot.

Definition layout : Layout := {|
  processes := 0x10000; mlfq := 0x20000; ready := 0x20040;
  bootstrap_proc := 0x20050; forkret_addr := 0xffffffff80001000 |}.
#[export] Existing Instance layout.

Lemma layout_ok : LayoutOk layout.
Proof. split; vm_compute; [done|by right]. Qed.
#[export] Existing Instance layout_ok.

Definition proc_at (i : Z) : Z := processes + sizeof_process * i.

Definition slots : list Z := proc_at <$> seqZ 0 NUM_PROCESSES.

Definition queues : levels := Levels [proc_at 2] [proc_at 3] [].

Definition list_memory : heap :=
  circle (ring_of queues 0) (circle (ring_of queues 1) (circle (ring_of queues 2)
    (foldr (λ p, circle [sched_node p]) (Heap ∅ ∅) slots))).

Definition proc (pid : Z) (st : process_state) (pt : kpoint) : process :=
  Process pid "p" 0 st 0x1000 0 (pt, FL_IF) 0.

Definition kernel : kstate heap :=
  KState (Machine ∅ 0 0x1000 0 true ∅) list_memory
    (<[proc_at 0 := proc 0 RUNNING (AtSched (proc_at 1) 0)]>
     (<[proc_at 1 := proc 1 RUNNING AtYield]>
     (<[proc_at 2 := proc 2 READY AtFresh]>
     (<[proc_at 3 := proc 3 RUNNING AtTimer]>
     (<[proc_at 4 := proc 4 READY AtFresh]> ∅)))))
    ∅ 5 (proc_at 1) (proc_at 0) false 0 0.

Lemma slot_in p : slot p → p ∈ slots.
Proof.
  intros (i & Hi & ->). apply list_elem_of_fmap. exists i. split; [done|]. by apply elem_of_seqZ.
Qed.

Lemma slot_at i : 0 ≤ i < NUM_PROCESSES → slot (proc_at i).
Proof. intros Hi. by exists i. Qed.

Lemma heap_ok_queues : heap_ok list_memory queues.
Proof.
  split.
  - intros i Hi. assert (i = 0 ∨ i = 1 ∨ i = 2) as [->|[->| ->]] by lia; by_decide.
  - by_decide.
  - intros p [->|[->|[]%not_elem_of_nil]%elem_of_cons]%elem_of_cons; by apply slot_at.
  - intros p Hp%slot_in. revert p Hp. apply Forall_forall. by_decide.
Qed.

Lemma inv : sched_inv kernel queues 0.
Proof.
  split; cbn [k_lock k_heap kernel].
  - done.
  - apply heap_ok_queues.
  - by_decide.
  - split; [by apply slot_at|by_decide].
  - intros p [->|[->|[]%not_elem_of_nil]%elem_of_cons]%elem_of_cons.
    + eexists. split; [by vm_compute|]. split; [by left|done].
    + eexists. split; [by vm_compute|]. split; [by right|done].
  - eexists. split; by vm_compute.
  - split; [lia|]. eexists _, _. split; by vm_compute.
Qed.
End Ex.

(** ** Properties *)

Section props.
Context {H : Type} {QO : QueueOps H} {QL : QueueLaws QO} {BI : BootInfo}.
Context {LY : Layout} {LO : LayoutOk LY}.

(** C1: giving up the processor -- [yield], [exit_process] or the timer interrupt --
    implements the abstract multilevel feedback queue.  A process that did not exit
    goes behind the others one level down; the first process of the first non-empty
    level gets the processor and continues where it last stopped; no other process
    changes; with nothing left the scheduler keeps the processor, its queues empty.  One
    level down is the second level from the first and the last level from the others.  The
    timer interrupt, and nothing else, counts one tick and acknowledges one interrupt. *)
Theorem turn_refines_queues e (s : kstate H) qs l :
  sched_inv s qs l →
  wp (turn e) (λ r s', clock s' = end_clock e (clock s) ∧
    match pick (requeue (k_task s) l (end_state e) qs) with
    | Some (p, l', qs') =>
        sched_inv s' qs' l' ∧ k_task s' = p ∧
        (∃ x, k_procs s !! p = Some x ∧
           r = Some (if decide (p = k_task s) then end_point e else (p_cont x).1)) ∧
        (∀ q, q ≠ p → q ≠ k_task s → q ≠ k_scheduler_proc s → k_procs s' !! q = k_procs s !! q)
    | None => r = None ∧ between s' (Levels [] [] [])
    end) s.
Proof using QL LO.
  intros I. eapply wp_mono; [by apply turn_ok|]. intros r s' (x & fl & Hx & Hsc & Hclk & Hh). split; [exact Hclk|].
  destruct (pick _) as [[[p l'] qs']|] eqn:E.
  - destruct Hh as (I' & Hp & (y & Hy & Hr & _) & Hoth). split; [done|]. split; [done|]. split.
    + destruct (decide (p = k_task s)) as [->|Hne].
      * rewrite lookup_insert_eq in Hy. injection Hy as <-. by exists x.
      * rewrite lookup_insert_ne in Hy by congruence. by exists y.
    + intros q H1 H2 H3. rewrite Hoth, lookup_insert_ne by congruence. done.
  - destruct Hh as (-> & B & _). split; [done|].
    by destruct (requeue _ _ _ _) as [[|??] [|??] [|??]].
Qed.

(** A run of the kernel: turns, each ending in the process that is resumed; the
    list is of the processes that have exited. *)
Inductive run (s0 : kstate H) : kstate H → list Z → Prop :=
  | run_start : run s0 s0 []
  | run_turn s dead e pt s' s'' :
      run s0 s dead → turn e s = Ok (Some pt, s') → resume_at pt s' = Ok (tt, s'') →
      run s0 s'' (if decide (end_state e = ZOMBIE) then k_task s :: dead else dead).

Lemma resume_at_mach pt s s' : resume_at pt s = Ok (tt, s') → ∃ m, s' = @set_mach H m s.
Proof.
  destruct s. destruct pt; unfold resume_at, sti, modify, mret, M_ret, panic; intros [=]; subst; by eexists.
Qed.

(** The invariant of a run: the dead are not queued and not running. *)
Lemma run_inv s0 qs0 l0 s dead :
  sched_inv s0 qs0 l0 → run s0 s dead →
  ∃ qs l, sched_inv s qs l ∧ ∀ p, p ∈ dead → p ≠ k_task s ∧ p ∉ queued qs.
Proof using QL LO.
  intros I. induction 1 as [|s dead e pt s' s'' _ IH Ht Hr].
  { exists qs0, l0. split; [done|]. by intros p ?%elem_of_nil. }
  destruct IH as (qs & l & I1 & Hdead).
  destruct (wp_inv _ _ _ (turn_ok e s qs l I1)) as (r & s1 & E & x & fl & _ & Hsc & _ & Hh).
  rewrite Ht in E. injection E as <- <-. destruct (pick _) as [[[p l'] qs']|] eqn:Ep.
  - destruct Hh as (I' & Hp & _ & _). exists qs', l'.
    assert (sched_inv s'' qs' l' ∧ k_task s'' = k_task s') as [I'' Hk].
    { apply resume_at_mach in Hr as [m ->]. split; [by apply sched_inv_mach|done]. }
    split; [done|]. rewrite Hk, Hp. destruct (pick_perm _ _ _ _ Ep) as [Hperm _].
    assert (∀ q, (q ≠ k_task s ∨ end_state e = ZOMBIE) → q ∉ queued qs → q ≠ p ∧ q ∉ queued qs') as Hgo.
    { intros q Hq Hn. apply not_elem_of_cons. rewrite <- Hperm, elem_of_requeue. naive_solver. }
    intros q Hq. destruct (decide (end_state e = ZOMBIE)) as [Hz|Hz].
    + apply elem_of_cons in Hq as [->|Hq]; apply Hgo; [by right|by apply I1|by right|by apply Hdead].
    + apply Hgo; [left|]; by apply Hdead.
  - by destruct Hh.
Qed.

(** C3: a process that has exited never gets the processor again: in every run its
    next holder is none of the dead, the scheduler never resumes a process in
    [exit_process] (whose panic is unreachable), and no turn fails. *)
Theorem zombies_never_run s0 qs0 l0 s dead e :
  sched_inv s0 qs0 l0 → run s0 s dead →
  (k_task s ∉ dead) ∧
  wp (turn e) (λ r s', match r with
    | Some pt => wp (resume_at pt) (λ _ _, True) s' ∧ k_task s' ∉ dead
    | None => True end) s.
Proof using QL LO.
  intros I R. destruct (run_inv _ _ _ _ _ I R) as (qs & l & I1 & Hdead).
  split; [intros Hin; by apply Hdead in Hin as [? _]|].
  eapply wp_mono; [by apply turn_ok|]. intros r s' (x & fl & _ & Hsc & _ & Hh).
  destruct (pick _) as [[[p l'] qs']|] eqn:Ep; [|by destruct Hh as (-> & _)].
  destruct Hh as (_ & Hp & (y & _ & -> & Hres) & _). split; [by destruct (p_cont y).1|].
  rewrite Hp. destruct (pick_perm _ _ _ _ Ep) as [Hperm _].
  intros Hin. assert (p ∈ queued (requeue (k_task s) l (end_state e) qs)) as Hpq by (rewrite Hperm; left).
  apply elem_of_requeue in Hpq as [[-> _]|Hpq]; by apply Hdead in Hin as [? ?].
Qed.

(** Turns until [p] has the processor. *)
Fixpoint run_until (p : Z) (es : list event) : M (kstate H) bool :=
  match es with
  | [] => mret false
  | e :: es =>
      turn e ;;
      t ← gets k_task;
      if t =? p then mret true else run_until p es
  end.

(** C6: no process starves while no new one is queued: whatever way the turns of
    the others end, a queued process has the processor after at most [wait] further
    turns -- its position in its level, plus the processes above it, those two levels
    up counted twice. *)
Theorem no_starvation s qs l p es :
  sched_inv s qs l → p ∈ queued qs → (wait p l qs < length es)%nat →
  wp (run_until p es) (λ r s', r = true ∧ k_task s' = p) s.
Proof using QL LO.
  revert s qs l. induction es as [|e es IH]; intros s qs l I Hp Hw; [simpl in Hw; lia|].
  cbn [run_until length] in *. eapply wp_bind_mono; [by apply turn_ok|].
  intros r s' (x & fl & _ & _ & _ & Hh). apply wp_bind, wp_gets.
  assert (p ∈ queued (requeue (k_task s) l (end_state e) qs)) as Hin by (apply elem_of_requeue; by right).
  destruct (pick_some _ _ Hin) as (q & l' & qs' & E). rewrite E in Hh.
  destruct Hh as (I' & Hq & _ & _).
  assert (k_task s ≠ p) as Hne by (intros <-; by apply (ti_task _ _ _ _ I)).
  destruct (Z.eqb_spec (k_task s') p) as [|Hnp]; [by apply wp_ret|].
  destruct (wait_step _ _ _ _ _ _ _ _ Hp Hne (proj1 (ti_level _ _ _ _ I)) E) as [->|[Hp' Hlt]]; [done|].
  apply (IH s' qs' l'); [done|done|lia].
Qed.

(** [sched_enqueue] of a new process puts it last on the level asked for and
    changes nothing but the queues (the lock is free and the interrupt flag as
    before), so the invariant is kept; a level out of range is a panic. *)
Theorem sched_enqueue_spec s qs l p i x :
  sched_inv s qs l → slot p → p ∉ queued qs → p ≠ k_task s → p ≠ k_scheduler_proc s →
  k_procs s !! p = Some x → runnable (p_state x) → resumable (p_cont x).1 →
  if decide (0 ≤ i < NUM_PRIORITY_LEVELS) then
    wp (sched_enqueue p i)
      (λ _ s', sched_inv s' (enqueue p i qs) l ∧ ∃ h', s' = set_heap h' s) s
  else ∃ msg, sched_enqueue p i s = Panic msg.
Proof using QL LO.
  intros I Hp Hq Ht Hs Hx Hrun Hres. destruct (decide _) as [Hi|Hi].
  - eapply wp_mono; [by eapply sched_enqueue_keeps|]. intros [] s' (? & h' & ? & _). split; [done|by exists h'].
  - unfold sched_enqueue. rewrite (proj2 (orb_true_iff _ _)); [by eexists|].
    destruct (Z.ltb_spec i 0); [by left|right]. apply Z.leb_le. lia.
Qed.

Lemma init_levels_ok n i (s : kstate H) :
  (∀ j, i ≤ j < i + Z.of_nat n → q_mapped (k_heap s) (mlfq_at j)) →
  wp (init_levels i n) (λ _ s', ∃ h', s' = set_heap h' s ∧
    (∀ j, i ≤ j < i + Z.of_nat n → q_ring h' [mlfq_at j]) ∧
    q_frame (mlfq_at <$> seqZ i (Z.of_nat n)) (k_heap s) h') s.
Proof using QL.
  revert i s. induction n as [|n IH]; intros i s Hm; cbn [init_levels].
  - apply wp_ret. exists (k_heap s). split; [by destruct s|]. split; [intros; lia|].
    apply q_frame_refl.
  - apply wp_bind, wp_lists. eapply wp_mono; [apply q_init_spec, Hm; lia|]. intros [] h [Hr Hf].
    eapply wp_mono; [apply IH|].
    { intros j Hj. cbn [k_heap set_heap]. eapply q_mapped_frame; [apply Hm; lia|done]. }
    intros [] s' (h' & -> & Hr' & Hf'). cbn [k_heap set_heap] in Hf'. exists h'. split; [done|].
    rewrite seqZ_cons by lia. replace (Z.pred (Z.of_nat (S n))) with (Z.of_nat n) by lia. split.
    + intros j Hj. destruct (decide (j = i)) as [->|]; [|apply Hr'; lia].
      eapply q_ring_frame; [exact Hr|exact Hf'|].
      intros x ->%list_elem_of_singleton (k & E & Hk%elem_of_seqZ)%list_elem_of_fmap.
      unfold mlfq_at in E. lia.
    + cbn [fmap list_fmap]. eapply q_frame_trans; (eapply q_frame_mono; [|eassumption]).
      * intros x ->%list_elem_of_singleton. left.
      * intros x Hx. by right.
Qed.

(** [init_scheduler] makes the three levels empty queues and frees the lock;
    with the process table's list nodes in memory this establishes the queue
    invariant the other operations rely on. *)
Theorem init_scheduler_correct s :
  q_mapped (k_heap s) ready → (∀ i, 0 ≤ i < NUM_PRIORITY_LEVELS → q_mapped (k_heap s) (mlfq_at i)) →
  (∀ p, slot p → q_mapped (k_heap s) (sched_node p)) →
  wp init_scheduler (λ _ s', heap_ok (k_heap s') (Levels [] [] []) ∧ k_lock s' = false) s.
Proof using QL.
  intros Hr Hm Hs. unfold init_scheduler. apply wp_bind, wp_lists.
  eapply wp_mono; [by apply q_init_spec|]. intros [] h [_ Hf].
  eapply wp_bind_mono; [apply init_levels_ok|].
  { intros j Hj. cbn [k_heap set_heap]. eapply q_mapped_frame; [apply Hm|done]. exact Hj. }
  intros [] s' (h' & -> & Hrings & Hf'). apply wp_modify. split; [|done].
  cbn [k_heap set_lock set_heap] in *. split.
  - intros i Hi. unfold ring_of, lv. assert (i = 0 ∨ i = 1 ∨ i = 2) as [->|[->| ->]] by lia; by apply Hrings.
  - constructor.
  - by intros p ?%elem_of_nil.
  - intros p Hp. do 2 (eapply q_mapped_frame; [|eassumption]). by apply Hs.
Qed.
End props.

(** ** The hypotheses hold in the concrete kernel *)

Section witnesses.
#[local] Existing Instance ex_boot.
Import Ex.

Definition after {A} (m : M (kstate heap) A) (s : kstate heap) : kstate heap :=
  match m s with Ok (_, s') => s' | _ => s end.

Lemma turn_refines_queues_witness :
  wp (turn (Yield 0x900 0x800)) (λ r s', r = Some AtFresh ∧ k_task s' = proc_at 2 ∧
    sched_inv s' (Levels [] [proc_at 3; proc_at 1] []) 0) kernel.
Proof.
  eapply wp_mono; [apply (turn_refines_queues (Yield 0x900 0x800) kernel queues 0), inv|].
  intros r s' (_ & I & Ht & (x & Hx & Hr) & _). split; [|by split]. subst r.
  vm_compute in Hx. injection Hx as <-. reflexivity.
Defined.

Lemma zombies_never_run_witness :
  k_task (after (turn (Exit 0 0)) kernel) ∉ [proc_at 1].
Proof.
  refine (proj1 (zombies_never_run kernel queues 0 _ [proc_at 1] (Yield 0 0) inv _)).
  refine (run_turn kernel kernel [] (Exit 0 0) AtFresh _ _ (run_start kernel) _ _); vm_compute; reflexivity.
Defined.

Lemma no_starvation_witness :
  wp (run_until (proc_at 3) [Yield 0 0; Tick 0 0]) (λ r s', r = true ∧ k_task s' = proc_at 3) kernel.
Proof.
  apply (no_starvation kernel queues 0); [apply inv|right; left|]. vm_compute. lia.
Defined.

Lemma sched_enqueue_spec_witness :
  wp (sched_enqueue (proc_at 4) 0)
    (λ _ s', sched_inv s' (Levels [proc_at 2; proc_at 4] [proc_at 3] []) 0 ∧ ∃ h', s' = set_heap h' kernel)
    kernel.
Proof.
  apply (sched_enqueue_spec kernel queues 0 (proc_at 4) 0 (proc 4 READY AtFresh)).
  - exact inv.
  - by apply slot_at.
  - by_decide.
  - by_decide.
  - by_decide.
  - by vm_compute.
  - by left.
  - exact I.
Defined.

Lemma init_scheduler_correct_witness :
  heap_ok (k_heap (after init_scheduler (set_heap (circle [ready] list_memory) kernel))) (Levels [] [] []).
Proof.
  assert (wp init_scheduler (λ _ s', heap_ok (k_heap s') (Levels [] [] []) ∧ k_lock s' = false)
    (set_heap (circle [ready] list_memory) kernel)) as Hw.
  { apply init_scheduler_correct; cbn [k_heap set_heap].
    - by_decide.
    - intros i Hi.
      assert (i = 0 ∨ i = 1 ∨ i = 2) as [->|[->| ->]] by lia; by_decide.
    - intros p Hp%slot_in. revert p Hp. apply Forall_forall. by_decide. }
  destruct (wp_inv _ _ _ Hw) as (r & s' & E & Hh & _). unfold after. by rewrite E.
Defined.
End witnesses.
