(* ===== verification/ForkProps.v ===== *)
(** * Process creation and the scheduler

    [fork] takes a free slot, gives it a stack and a copy of the parent's frames, and
    queues it: what that does to the process table, the lists and the invariant of the
    scheduler. *)

From S2P Require Import Prelude ListHead ListHeadOps Mm Paging64 PagingWalk PagingSpec PagingMap.
From S2P Require Import Context ContextProps Queue Process.
From S2P Require Import Sched SchedSpec SchedInv SchedLive PagingProps SchedProps.

Section fork.
Context {H : Type} {QO : QueueOps H} {QL : QueueLaws QO} {BI : BootInfo}.
Context {LY : Layout} {LO : LayoutOk LY}.
Implicit Types s : kstate H.

Definition vm_head (p : Z) : Z := p + off_vm_list.

(** ** A free slot *)

(** The process table is there. *)
Definition table_ok s : Prop := ∀ p, slot p → is_Some (k_procs s !! p).

Definition unused s (p : Z) : Prop := ∃ x, k_procs s !! p = Some x ∧ p_state x = UNUSED.

Lemma find_unused_ok n it s :
  (∀ k, 0 ≤ k < Z.of_nat n → is_Some (k_procs s !! (it + sizeof_process * k))) →
  ∃ r, find_unused it n s = Ok (r, s) ∧
    match r with
    | Some p => unused s p ∧ ∃ k, 0 ≤ k < Z.of_nat n ∧ p = it + sizeof_process * k
    | None => ∀ k, 0 ≤ k < Z.of_nat n → ¬ unused s (it + sizeof_process * k)
    end.
Proof.
  revert it. induction n as [|n IH]; intros it Ht; cbn [find_unused].
  { exists None. split; [done|]. intros k Hk. lia. }
  destruct (Ht 0 ltac:(lia)) as [x Hx]. rewrite Z.mul_0_r, Z.add_0_r in Hx.
  assert (ld_proc it s = Ok (x, s)) as E by (unfold ld_proc; by rewrite Hx).
  rewrite (M_bind_Ok _ _ _ _ _ E). destruct (decide (p_state x = UNUSED)) as [Hu|Hu].
  { exists (Some it). split; [done|]. split; [by exists x|]. exists 0. lia. }
  destruct (IH (it + sizeof_process)) as (r & Er & Hr).
  { intros k Hk. replace (it + sizeof_process + sizeof_process * k) with (it + sizeof_process * (k + 1)) by lia.
    apply Ht. lia. }
  exists r. split; [done|]. destruct r as [p|].
  - destruct Hr as (? & k & Hk & ->). split; [done|]. exists (k + 1). lia.
  - intros k Hk. destruct (decide (k = 0)) as [->|].
    + rewrite Z.mul_0_r, Z.add_0_r. intros (y & Hy & ?). congruence.
    + replace (it + sizeof_process * k) with (it + sizeof_process + sizeof_process * (k - 1)) by lia. apply Hr. lia.
Qed.

(** The search through the whole table. *)
Lemma find_slot_ok s :
  table_ok s →
  ∃ r, find_unused processes (Z.to_nat NUM_PROCESSES) s = Ok (r, s) ∧
    match r with Some p => slot p ∧ unused s p | None => ∀ p, slot p → ¬ unused s p end.
Proof.
  intros Ht. destruct (find_unused_ok (Z.to_nat NUM_PROCESSES) processes s) as (r & E & Hr).
  { intros k Hk. apply Ht. exists k. unfold NUM_PROCESSES in *. lia. }
  exists r. split; [done|]. destruct r as [p|].
  - destruct Hr as (? & k & ? & ->). split; [|done]. exists k. unfold NUM_PROCESSES in *. lia.
  - intros p (k & Hk & ->). apply Hr. unfold NUM_PROCESSES in *. lia.
Qed.

Lemma with_if_same s b : if_of s = b → with_if b s = s.
Proof. destruct s as [[mem pl c3 c4 fi tlb] h ps rs pid task sp lk tk eo]. cbn. by intros ->. Qed.

Lemma with_if_twice s b c : with_if b (with_if c s) = with_if b s.
Proof. by destruct s as [[mem pl c3 c4 fi tlb] h ps rs pid task sp lk tk eo]. Qed.

(** The flags saved at the start, restored at the end. *)
Lemma restore_saved s s' :
  if_of s' = false → irq_restore (if if_of s then FL_IF else 0) s' = Ok (tt, with_if (if_of s) s').
Proof.
  intros E. rewrite irq_restore_ok. destruct (if_of s); [done|]. rewrite (with_if_same s' false E). reflexivity.
Qed.

Lemma alloc_full s name :
  table_ok s → (∀ p, slot p → ¬ unused s p) → if_of s = false → alloc_process_no_entry name s = Ok (None, s).
Proof.
  intros Ht Hfull Hif. destruct (find_slot_ok s Ht) as (r & E & Hr). destruct r as [p|].
  { destruct Hr as [Hp Hu]. by destruct (Hfull p Hp). }
  unfold alloc_process_no_entry, claim_slot.
  rewrite (M_bind_Ok _ _ _ _ _ (irq_save_ok s)), (with_if_same s false Hif).
  erewrite M_bind_Ok by (by rewrite (M_bind_Ok _ _ _ _ _ E)).
  cbv beta iota. rewrite (M_bind_Ok _ _ _ _ _ (restore_saved s s Hif)). by rewrite with_if_same.
Qed.

(** C18: with every slot of the process table in use [fork] fails: it returns -1 and leaves
    the kernel exactly as it was, the interrupt flag included. *)
Theorem fork_full s name level frame :
  table_ok s → (∀ p, slot p → ¬ unused s p) → fork name level frame s = Ok (-1, s).
Proof.
  intros Ht Hfull. unfold fork.
  rewrite (M_bind_Ok _ _ _ _ _ (irq_save_ok s)), (M_bind_Ok _ _ _ _ _ (myproc_ok _)).
  rewrite (M_bind_Ok _ _ _ _ _ (alloc_full (with_if false s) name Ht Hfull eq_refl)).
  cbv beta iota. rewrite (M_bind_Ok _ _ _ _ _ (restore_saved s (with_if false s) eq_refl)).
  by rewrite with_if_twice, with_if_same.
Qed.
(** ** A slot is claimed *)

Definition claimed s (name : string) (entry : Z) : process :=
  Process (k_pid s) name 0 READY (cr3_to_pml4_addr (m_cr3 (k_mach s))) 0 (AtFresh, 0) entry.

Lemma claim_slot_ok s name entry p :
  find_unused processes (Z.to_nat NUM_PROCESSES) s = Ok (Some p, s) → is_Some (k_procs s !! p) →
  Z.of_nat (String.length name) < 32 →
  wp (claim_slot name entry) (λ r s', r = Some p ∧ ∃ h',
    s' = set_heap h' (set_procs (<[p := claimed s name entry]> (k_procs s)) (set_pid (u8 (k_pid s + 1)) s)) ∧
    q_ring h' [vm_head p] ∧ q_frame [vm_head p; sched_node p] (k_heap s) h') s.
Proof using QL LO.
  intros E [x Hx] Hn. unfold claim_slot. apply wp_bind. eapply wp_intro; [exact E|].
  apply wp_bind, wp_gets. apply wp_bind, wp_modify.
  rewrite (proj2 (Z.ltb_ge 32 _)) by lia.
  apply wp_bind, wp_mach. apply wp_gets. apply wp_bind, wp_modify.
  apply wp_bind. eapply wp_st_proc; [exact Hx|]. apply wp_bind, wp_lists.
  cbn [k_heap set_procs set_heap set_mach set_pid].
  destruct (q_map_spec (k_heap s) (sched_node p)) as [_ F1].
  destruct (q_map_spec (q_map (sched_node p) (k_heap s)) (vm_head p)) as [M2 F2].
  eapply wp_mono; [apply q_init_spec; exact M2|]. intros [] h' [R F3]. apply wp_ret.
  split; [done|]. exists h'. split; [by destruct s as [[]]|]. split; [exact R|].
  eapply q_frame_trans; [eapply q_frame_mono; [|exact F1]; set_solver|].
  eapply q_frame_trans; [eapply q_frame_mono; [|exact F2]; set_solver|].
  eapply q_frame_mono; [|exact F3]. set_solver.
Qed.

(** ** A stack is allocated *)

(** The machine's part of [alloc_stack]. *)
Definition make_stack : M machine (Z * Z * Z) :=
  stack ← kmalloc_a KSTACK_SIZE;
  vma ← kmalloc sizeof_vm_region;
  cr3 ← read_cr3;
  guard ← unmap_page stack cr3;
  mret (stack, vma, guard).

Definition stack_region (stack : Z) : vm_region :=
  VmRegion (FL_VM_READ .| FL_VM_WRITE) STACK stack (u64 (stack + KSTACK_SIZE)).

Lemma alloc_stack_ok s stack vma guard m' :
  make_stack (k_mach s) = Ok (stack, vma, guard, m') → stack ≠ 0 → vma ≠ 0 → guard ≠ 0 →
  alloc_stack s = Ok (vma, set_mach m' (set_regions (<[vma := stack_region stack]> (k_regions s))
    (set_heap (q_map (vma + off_node) (k_heap s)) s))).
Proof.
  intros E Hs Hv Hg. unfold make_stack in E.
  apply M_bind_inv in E as (a & m1 & E1 & E). apply M_bind_inv in E as (b & m2 & E2 & E).
  apply M_bind_inv in E as (c & m3 & E3 & E). apply M_bind_inv in E as (g & m4 & E4 & E).
  injection E as <- <- <- <-. injection E3 as <- <-.
  unfold alloc_stack. erewrite M_bind_Ok by (unfold mach; by rewrite E1).
  erewrite M_bind_Ok by (unfold mach; cbn [k_mach set_mach]; by rewrite E2).
  erewrite M_bind_Ok by reflexivity.
  rewrite (proj2 (Z.eqb_neq a 0) Hs), (proj2 (Z.eqb_neq b 0) Hv). cbn [orb].
  erewrite M_bind_Ok by reflexivity. erewrite M_bind_Ok by reflexivity.
  erewrite M_bind_Ok by (unfold mach; cbn [k_mach set_mach set_heap set_regions]; by rewrite E4).
  rewrite (proj2 (Z.eqb_neq g 0) Hg). by destruct s.
Qed.

(** ** The machine's part *)

Section machine.
Context {BO : BootOk BI}.
Implicit Types m : machine.

Abbreviation root_of m := (PAGE_GET_ADDR (m_cr3 m)).
Abbreviation stack_of m := (page_up (m_placement m)).

(** A word in use: in no page table and not in the free heap, which ends at [hi]. *)
Definition in_use m (hi a : Z) : Prop :=
  apart (root_of m) (m_mem m) a ∧ ¬ (m_placement m - hhdm_offset ≤ a < hi).

(** Memory for a stack: the tables are sound, the heap has room for the stack, the
    region and the tables of the guard page, and the guard page is mapped. *)
Record stack_room m (hi : Z) : Prop := {
  sr_inv : pg_inv (root_of m) hi m;
  sr_root : 0 ≤ root_of m < dm_size;
  sr_room : next_page m + KSTACK_SIZE + 4 * 0x1000 ≤ hi;
  sr_guard : ∃ fr pm, translate (m_mem m) (root_of m) (stack_of m) = Some (fr, pm) ∧ fr ≠ 0;
}.

(** The stack is there, its lowest page is unmapped, and what was in use is as it was. *)
Record stacked m (hi : Z) (m' : machine) : Prop := {
  sk_translate w : translate (m_mem m') (root_of m) w =
    if decide (page_no w = page_no (stack_of m)) then None else translate (m_mem m) (root_of m) w;
  sk_inv : pg_inv (root_of m) hi m';
  sk_cr3 : m_cr3 m' = m_cr3 m;
  sk_if : m_if m' = m_if m;
  sk_kept a : in_use m hi a → rd (m_mem m') a = rd (m_mem m) a;
  sk_apart a : stack_of m ≤ a + hhdm_offset < stack_of m + KSTACK_SIZE →
    apart (root_of m) (m_mem m') a;
}.

(** Taking memory from the heap keeps the invariant. *)
Lemma pg_inv_placement root hi m x :
  pg_inv root hi m → m_placement m ≤ x → pg_inv root hi (set_placement x m).
Proof using Type.
  intros [Hw Hwf Hhi Hlo] Hx. split; [done| |done|cbn; lia].
  destruct Hwf as [Hp Ht]. split; [|done]. intros v j t Hin. specialize (Hp v j t Hin). cbn. lia.
Qed.

Lemma free_heap_apart root hi m a :
  pg_inv root hi m → m_placement m - hhdm_offset ≤ a < hi → apart root (m_mem m) a.
Proof using Type.
  intros Hinv Ha v j t Hin. pose proof (wf_place _ _ _ _ _ (pi_wf _ _ _ Hinv) _ _ _ Hin). lia.
Qed.

Lemma make_stack_ok m hi :
  stack_room m hi →
  wp make_stack (λ r m', r.1.1 = stack_of m ∧ r.1.2 = stack_of m + KSTACK_SIZE ∧ r.2 ≠ 0 ∧
    stacked m hi m') m.
Proof using BO.
  intros [Hinv Hroot Hroom (fr & pm & Hg & Hfr)].
  pose proof boot_hhdm as Hb1. pose proof boot_image as Hb2.
  destruct (page_up_spec (m_placement m)) as [Hup Hal]. pose proof (pi_lo _ _ _ Hinv) as Hlo.
  pose proof (pi_hi _ _ _ Hinv) as Hhi. unfold next_page, dm_size in *.
  unfold make_stack. change KSTACK_SIZE with 0x21000 in *. set (st := stack_of m) in *.
  apply wp_bind. eapply wp_intro; [apply kmalloc_a_spec; fold st; lia|]. fold st.
  apply wp_bind. eapply wp_intro; [apply kmalloc_spec; cbn; unfold sizeof_vm_region; lia|].
  cbn [m_placement set_placement]. apply wp_bind, wp_gets. cbn [m_cr3 set_placement].
  set (m1 := set_placement _ _). assert (m_mem m1 = m_mem m) as Em by done.
  assert (m_placement m1 = st + 0x21000 + 48) as Ep by done.
  assert (next_page m1 = st + 0x22000 - hhdm_offset) as Hn1.
  { unfold next_page, m1, page_up, sizeof_vm_region. cbn [m_placement set_placement].
    apply Z.mod_divide in Hal as [q Eq]; [|lia]. rewrite Eq.
    assert ((q * 0x1000 + 0x21000 + 48 + 0xFFF) / 0x1000 = q + 0x22) as ->; [|lia].
    symmetry. apply (Z.div_unique _ _ _ 47); lia. }
  assert (pg_inv (root_of m) hi m1) as Hinv1.
  { apply (pg_inv_placement _ hi (set_placement (st + 0x21000) m)); [apply pg_inv_placement; [done|lia]|].
    cbn. unfold sizeof_vm_region. lia. }
  eapply wp_bind_mono; [apply (unmap_page_ok (root_of m) hi m1 st); try done; lia|].
  intros g m' ((Hinv' & Hc3 & Htr) & _ & _ & Hif & Hpl & Hnp & Hframe). apply wp_ret. cbn [fst snd].
  rewrite Em, Hg in Htr. destruct Htr as [-> Htr]. split_and!; [done..|]. split.
  - exact Htr.
  - done.
  - done.
  - done.
  - intros a [Ha Hn]. apply Hframe; [done|]. intros [H1 H2]. apply Hn.
    pose proof (page_up_spec (m_placement m')) as [Hup' _]. unfold next_page in *.
    lia.
  - intros a Ha. fold st in Ha. change KSTACK_SIZE with 0x21000 in Ha. apply Hframe.
    + rewrite Em. apply (free_heap_apart _ hi m); [done|lia].
    + lia.
Qed.

(** A parent's stack, from the frame [clone_parent_base_frame] pushed at [frame] up to [top]:
    words in use, no more than fit above the guard page of a new stack, with the saved
    frame pointers on [chain]. *)
Record parent_stack m (hi frame top : Z) (chain : list Z) : Prop := {
  ps_frame : in_dm frame; ps_top : in_dm (top - 1);
  ps_words : (top - frame) mod 8 = 0;
  ps_size : 48 < top - frame ≤ KSTACK_SIZE - PAGE_SIZE;
  ps_used a : frame ≤ a < top → in_use m hi (a - hhdm_offset);
  ps_chain : fp_chain frame top (m_mem m) (frame + 48) (word (m_mem m) (frame + 40)) chain;
}.

(** Memory after [fork]: above the guard page of the new stack is a copy of the parent's
    stack, with the saved frame pointers moved into the copy; what was in use is as it
    was; the guard page is unmapped and no other translation differs. *)
Record forked m (hi frame top : Z) (chain : list Z) (m' : machine) : Prop := {
  fk_copy i : 0 ≤ i → frame + 8 * i < top →
    word (m_mem m') (stack_of m + KSTACK_SIZE - (top - frame) + 8 * i) =
      if decide (i = FORK_FRAME_FP_SLOT ∨ frame + 8 * i ∈ chain)
      then rebased frame top (stack_of m + KSTACK_SIZE - top) (word (m_mem m) (frame + 8 * i))
      else word (m_mem m) (frame + 8 * i);
  fk_kept v : in_dm v → in_use m hi (v - hhdm_offset) → word (m_mem m') v = word (m_mem m) v;
  fk_translate w : translate (m_mem m') (root_of m) w =
    if decide (page_no w = page_no (stack_of m)) then None else translate (m_mem m) (root_of m) w;
  fk_cr3 : m_cr3 m' = m_cr3 m;
  fk_if : m_if m' = m_if m;
}.

(** Two memories that agree on the tables translate alike. *)
Lemma translate_ext (m1 m2 : gmap Z Z) root w :
  (∀ v j t a, (j, t) ∈ trail m1 3 root v → t ≤ a < t + 0x1000 → rd m2 a = rd m1 a) →
  translate m2 root w = translate m1 root w.
Proof using Type.
  intros Hext. apply walk_ext. intros j t Hin. apply (Hext _ _ _ _ Hin).
  pose proof (index_bound j w). lia.
Qed.

Lemma fork_machine_ok m m1 hi frame top chain :
  stack_room m hi → parent_stack m hi frame top chain → stacked m hi m1 →
  ∃ m2, clone_stack_rebased (u64 (stack_of m + KSTACK_SIZE)) top frame m1 =
      Ok (stack_of m + KSTACK_SIZE - (top - frame), m2) ∧ forked m hi frame top chain m2.
Proof using BO.
  intros [Hinv _ Hroom _] [Hf Ht Hw Hsz Hu Hc] [Ktr Kinv Kc3 Kif Kept Kap].
  pose proof boot_hhdm as Hb1. pose proof boot_image as Hb2.
  destruct (page_up_spec (m_placement m)) as [Hup Hal]. pose proof (pi_lo _ _ _ Hinv) as Hlo.
  pose proof (pi_hi _ _ _ Hinv) as Hhi. unfold next_page, dm_size in *.
  change KSTACK_SIZE with 0x21000 in *. set (st := stack_of m) in *. unfold PAGE_SIZE in *.
  rewrite wrap_small by lia.
  assert (∀ v, in_dm v → in_use m hi (v - hhdm_offset) → word (m_mem m1) v = word (m_mem m) v) as Hkeep.
  { intros v Hv Huse. unfold word. rewrite dm_v2p by done. by apply Kept. }
  assert (∀ v, frame ≤ v < top → in_dm v) as Hdm by (unfold in_dm in *; lia).
  assert (stacks_ok frame top (st + 0x21000)) as Hso.
  { split; try done; try (unfold in_dm in *; lia).
    destruct (decide (top ≤ frame + (st + 0x21000 - top))); [by right|]. left.
    destruct (Z.le_gt_cases (st + 0x21000) frame); [done|]. exfalso.
    destruct (Hu (Z.max frame (st + 0x1000))) as [_ Hn]; [lia|]. apply Hn. lia. }
  destruct (clone_stack_rebased_ok m1 frame top (st + 0x21000) chain Hso) as (mem2 & Hrun & Hcl & Hout).
  { eapply fp_chain_ext; [reflexivity| |].
    - intros a Ha. destruct (fp_chain_bounds _ _ _ _ _ _ _ Hc Ha) as (_ & Hin & _). unfold in_stack in Hin.
      apply Hkeep; [by apply Hdm|by apply Hu].
    - rewrite Hkeep; [exact Hc|apply Hdm; lia|apply Hu; lia]. }
  exists (set_mem (λ _, mem2) m1).
  replace (st + 0x21000 - (top - frame)) with (frame + (st + 0x21000 - top)) by lia. split; [done|].
  split; cbn [m_mem m_cr3 m_if set_mem]; [| | |done|done].
  - intros i Hi Hit. fold st. replace (st + KSTACK_SIZE - (top - frame)) with (frame + (st + 0x21000 - top))
      by (change KSTACK_SIZE with 0x21000; lia).
    rewrite Hcl by done. change KSTACK_SIZE with 0x21000.
    rewrite !Hkeep by (apply Hdm || apply Hu; lia). done.
  - intros v Hv Huse. rewrite Hout; [by apply Hkeep|done|]. intros Hin. destruct Huse as [_ Hn]. apply Hn. lia.
  - intros w. rewrite <- Ktr. apply translate_ext. intros v j t a Hin Hta.
    pose proof (wf_place _ _ _ _ _ (pi_wf _ _ _ Kinv) _ _ _ Hin) as Hpl. unfold dm_size in Hpl.
    assert (¬ (st ≤ a + hhdm_offset < st + 0x21000)) as Hns.
    { intros Hst. by apply (Kap a Hst _ _ _ Hin). }
    specialize (Hout (a + hhdm_offset)). unfold word in Hout. rewrite dm_v2p in Hout by (unfold in_dm; lia).
    replace (a + hhdm_offset - hhdm_offset) with a in Hout by lia. apply Hout; [unfold in_dm; lia|lia].
Qed.

(** The interrupt flag does not matter to the memory code. *)
Lemma stack_room_if m hi : stack_room m hi → stack_room (set_if false m) hi.
Proof using Type. by intros [[????] ???]; split; [split|..]. Qed.

Lemma parent_stack_if m hi frame top chain :
  parent_stack m hi frame top chain → parent_stack (set_if false m) hi frame top chain.
Proof using Type. by intros []. Qed.

Lemma forked_if m hi frame top chain m' :
  forked (set_if false m) hi frame top chain m' → forked m hi frame top chain (set_if (m_if m) m').
Proof using Type. by intros []. Qed.

Lemma stack_addresses m hi :
  stack_room m hi → stack_of m ≠ 0 ∧ stack_of m + KSTACK_SIZE ≠ 0 ∧
    m_placement m ≤ stack_of m + KSTACK_SIZE < hi + hhdm_offset.
Proof using BO.
  intros [Hinv _ Hroom _]. pose proof boot_hhdm. pose proof (pi_lo _ _ _ Hinv).
  destruct (page_up_spec (m_placement m)) as [Hup _]. unfold next_page in *.
  change KSTACK_SIZE with 0x21000 in *. lia.
Qed.
End machine.

(** A new process with an empty stack. *)
Definition born s (name : string) (p vma stack : Z) (m' : machine) (h' : H) : kstate H :=
  set_mach m' (set_regions (<[vma := stack_region stack]> (k_regions s)) (set_heap h'
    (set_procs (<[p := claimed s name 0]> (k_procs s)) (set_pid (u8 (k_pid s + 1)) s)))).

Lemma alloc_no_entry_ok s name p stack vma guard m' :
  find_unused processes (Z.to_nat NUM_PROCESSES) s = Ok (Some p, s) → is_Some (k_procs s !! p) →
  Z.of_nat (String.length name) < 32 → if_of s = false →
  make_stack (k_mach s) = Ok (stack, vma, guard, m') → stack ≠ 0 → vma ≠ 0 → guard ≠ 0 →
  vma + off_node ≠ vm_head p →
  wp (alloc_process_no_entry name) (λ r s', r = Some p ∧ ∃ h', s' = born s name p vma stack m' h' ∧
    q_ring h' [vm_head p; vma + off_node] ∧
    q_frame [vm_head p; sched_node p; vma + off_node] (k_heap s) h') s.
Proof using QL LO.
  intros E Hx Hn Hif Hm Hs Hv Hg Hne. unfold alloc_process_no_entry.
  apply wp_bind. eapply wp_intro; [apply irq_save_ok|]. rewrite with_if_same, Hif by done.
  eapply wp_bind_mono; [by apply claim_slot_ok|]. intros r s1 (-> & h1 & -> & R1 & F1).
  apply wp_bind. eapply wp_intro; [by apply (alloc_stack_ok _ stack vma guard m')|].
  apply wp_bind, wp_lists. cbn [k_heap set_mach set_regions set_heap].
  destruct (q_map_spec h1 (vma + off_node)) as [M2 F2].
  assert (vma + off_node ∉ [vm_head p]) as Hni by set_solver.
  eapply wp_mono; [apply (q_add_spec _ _ (vm_head p) [])|].
  - eapply q_ring_frame; [exact R1|exact F2|set_solver].
  - exact M2.
  - exact Hni.
  - intros [] h' [R3 F3]. apply wp_bind. eapply wp_intro; [apply irq_restore_ok|]. apply wp_ret.
    split; [done|]. exists h'. split; [by destruct s|]. split; [exact R3|].
    eapply q_frame_trans; [eapply q_frame_mono; [|exact F1]; set_solver|].
    eapply q_frame_trans; [eapply q_frame_mono; [|exact F2]; set_solver|].
    eapply q_frame_mono; [|exact F3]. set_solver.
Qed.

Lemma find_stack_ok s p r reg :
  q_ring (k_heap s) [vm_head p; r + off_node] → k_regions s !! r = Some reg → vr_type reg = STACK →
  find_stack 1 p s = Ok (r, s).
Proof using QL LO.
  intros R Hr Ht. pose proof (q_ring_distinct _ _ R) as ND. apply NoDup_cons in ND as [Hne _].
  unfold find_stack. fold (vm_head p). erewrite M_bind_Ok by (unfold lists; by rewrite (q_next_spec _ _ _ R)).
  replace (set_heap (k_heap s) s) with s by by destruct s. cbn [hd find_stack_from].
  rewrite (proj2 (Z.eqb_neq _ _)) by set_solver.
  replace (r + off_node - off_node) with r by lia.
  erewrite M_bind_Ok by (unfold ld_region; by rewrite Hr). by rewrite decide_True.
Qed.

(** ** The lists of the scheduler and a node of another list *)

Lemma heap_ok_frame h h' qs xs :
  heap_ok h qs → q_frame xs h h' → (∀ i, 0 ≤ i < 3 → ring_of qs i ## xs) → heap_ok h' qs.
Proof using QL LO.
  intros Hq Hf Hd. split.
  - intros i Hi. eapply q_ring_frame; [by apply Hq|exact Hf|by apply Hd].
  - apply Hq.
  - apply Hq.
  - intros p Hp. eapply q_mapped_frame; [by apply Hq|exact Hf].
Qed.

(** A node that is neither a queue's head nor in the process table. *)
Definition outside (n : Z) : Prop :=
  (∀ i, 0 ≤ i < 3 → n ≠ mlfq_at i) ∧ ∀ p, slot p → n ≠ sched_node p ∧ n ≠ vm_head p.

Lemma vm_head_not_sched p q : slot p → slot q → vm_head p ≠ sched_node q.
Proof.
  intros (i & Hi & ->) (j & Hj & ->). unfold vm_head, sched_node, off_vm_list, off_sched, sizeof_process. lia.
Qed.

Lemma vm_head_not_queue p i : slot p → 0 ≤ i < 3 → vm_head p ≠ mlfq_at i.
Proof using LO.
  intros (j & Hj & ->) Hi. pose proof lo_disjoint. unfold vm_head, mlfq_at, off_vm_list.
  unfold NUM_PROCESSES, sizeof_process in *. lia.
Qed.

Lemma rings_avoid qs p n i :
  (∀ q, q ∈ queued qs → slot q) → slot p → p ∉ queued qs → outside n → 0 ≤ i < 3 →
  ring_of qs i ## [vm_head p; sched_node p; n].
Proof using LO.
  intros Hq Hp Hnq [Ho1 Ho2] Hi x Hx Hy. unfold ring_of in Hx. apply elem_of_cons in Hx as [->|Hx].
  - rewrite !elem_of_cons, elem_of_nil in Hy. destruct Hy as [E|[E|[E|[]]]].
    + by apply (vm_head_not_queue p i).
    + by apply (sched_node_not_head p i).
    + by apply (Ho1 i).
  - apply list_elem_of_fmap in Hx as (q & -> & Hin). apply elem_of_lv in Hin; [|done].
    rewrite !elem_of_cons, elem_of_nil in Hy. destruct Hy as [E|[E|[E|[]]]].
    + eapply (vm_head_not_sched p q); [done|by apply Hq|done].
    + apply sched_node_inj in E as ->. done.
    + destruct (Ho2 q (Hq q Hin)). done.
Qed.
(** ** [fork] *)

(** The child, back in the parent. *)
Definition child_of s (name : string) (sp : Z) : process :=
  Process (k_pid s) name (k_task s) READY (cr3_to_pml4_addr (m_cr3 (k_mach s))) sp
    (AtFork, if if_of s then FL_IF else 0) 0.

(** A slot that is free is in nobody's hands. *)
Lemma unused_apart s qs l p :
  sched_inv s qs l → (∀ x, k_procs s !! k_scheduler_proc s = Some x → p_state x ≠ UNUSED) → unused s p →
  (p ∉ queued qs) ∧ p ≠ k_task s ∧ p ≠ k_scheduler_proc s.
Proof.
  intros I Hs (x & Hx & Hu). split_and!.
  - intros Hin. destruct (ti_queued _ _ _ _ I p Hin) as (y & Hy & [R|R] & _); congruence.
  - intros ->. destruct (ti_running _ _ _ _ I) as (y & Hy & R). congruence.
  - intros ->. by apply (Hs x).
Qed.

(** The scheduler's invariant does not depend on a process it does not know. *)
Lemma sched_inv_other s s' qs l p :
  sched_inv s qs l → (p ∉ queued qs) → p ≠ k_task s → p ≠ k_scheduler_proc s →
  (∀ q, q ≠ p → k_procs s' !! q = k_procs s !! q) → heap_ok (k_heap s') qs → k_lock s' = k_lock s →
  k_task s' = k_task s → k_scheduler_proc s' = k_scheduler_proc s → sched_inv s' qs l.
Proof.
  intros I Hq Ht Hs Hp Hh El Et Es. split; rewrite ?El, ?Et, ?Es; try apply I.
  - done.
  - intros q Hin. rewrite Hp by congruence. by apply I.
  - rewrite Hp by congruence. apply I.
  - rewrite Hp by congruence. apply I.
Qed.

(** A process's pid is its own. *)
Definition pid_free s (x : Z) : Prop :=
  ∀ q y, k_procs s !! q = Some y → p_state y ≠ UNUSED → p_pid y ≠ x.

(** What [fork] needs: a running kernel with a free slot and a next pid nobody has (the
    counter wraps at 256), the region [pr] of the parent's stack, memory for a stack in a
    heap that ends at [hi] and holds no list node in use, and a parent's stack with the
    saved frame pointers on [chain]. *)
Record fork_ready s (qs : levels) (l : Z) (name : string) (frame pr top hi : Z) (chain : list Z) : Prop := {
  fr_inv : sched_inv s qs l;
  fr_table : table_ok s;
  fr_free : ∃ p, slot p ∧ unused s p;
  fr_sched x : k_procs s !! k_scheduler_proc s = Some x → p_state x ≠ UNUSED;
  fr_pid : k_pid s ≠ 0 ∧ pid_free s (k_pid s);
  fr_name : Z.of_nat (String.length name) < 32;
  fr_parent : q_ring (k_heap s) [vm_head (k_task s); pr + off_node] ∧ outside (pr + off_node);
  fr_region : ∃ fl st, k_regions s !! pr = Some (VmRegion fl STACK st top);
  fr_room : stack_room (k_mach s) hi;
  fr_node n : m_placement (k_mach s) ≤ n < hi + hhdm_offset → outside (n + off_node) ∧ n ≠ pr;
  fr_stack : parent_stack (k_mach s) hi frame top chain;
}.

(** The parent's list of regions is not touched by the birth of a child. *)
Lemma parent_ring h h' parent p pr vma :
  q_ring h [vm_head parent; pr + off_node] → q_frame [vm_head p; sched_node p; vma + off_node] h h' →
  slot parent → slot p → p ≠ parent → outside (pr + off_node) → outside (vma + off_node) → vma ≠ pr →
  q_ring h' [vm_head parent; pr + off_node].
Proof using QL LO.
  intros R F Hpar Hp Hne [_ O1] [_ O2] Hv. eapply q_ring_frame; [exact R|exact F|].
  destruct (O1 p Hp) as [A1 A2]. destruct (O2 parent Hpar) as [_ A4].
  pose proof (vm_head_not_sched parent p Hpar Hp) as A5.
  intros x Hx Hy. rewrite !elem_of_cons, elem_of_nil in Hx. rewrite !elem_of_cons, elem_of_nil in Hy. unfold vm_head in *.
  destruct Hx as [->|[->|[]]]; destruct Hy as [E|[E|[E|[]]]]; (done || lia).
Qed.

(** Nor is the child's by its entry on a queue. *)
Lemma child_ring h h' qs p vma i :
  (∀ q, q ∈ queued qs → slot q) → slot p → p ∉ queued qs → outside (vma + off_node) → 0 ≤ i < 3 →
  q_ring h [vm_head p; vma + off_node] → q_frame (sched_node p :: ring_of qs i) h h' →
  q_ring h' [vm_head p; vma + off_node].
Proof using QL LO.
  intros Hqs Hp Hq Ho Hi R F. eapply q_ring_frame; [exact R|exact F|].
  pose proof (rings_avoid qs p _ i Hqs Hp Hq Ho Hi) as Hav.
  pose proof (vm_head_not_sched p p Hp Hp) as Hne. destruct Ho as [_ Ho]. destruct (Ho p Hp) as [Hn _].
  intros x Hx [->|Hy]%elem_of_cons.
  - rewrite !elem_of_cons, elem_of_nil in Hx. destruct Hx as [E|[E|[]]]; congruence.
  - apply (Hav x Hy). rewrite !elem_of_cons, elem_of_nil in *. tauto.
Qed.

Context {BO : BootOk BI}.

(** C4: [fork] creates a process that can run, and keeps the scheduler's invariant.  The
    child takes a slot that was free; it is a ready process with the caller as its parent
    and a pid that is not 0 and that no other process has, which is also the result; it
    will come out of [fork] with the caller's interrupt flag, and is last on the level
    asked for.  Its stack is new memory whose lowest page is unmapped; at the top is a copy
    of the caller's stack from [frame] up, with the saved frame pointers moved into the
    copy, and [context.sp] is the copy of [frame].  No other process changes, no word that
    was in use changes, and no other page changes its translation.  The caller's stack is
    in the direct map and no larger than a new stack, the heap has room for the child's
    and for three page tables, and the pid counter has not come round to a pid in use. *)
Theorem fork_correct s qs l name level frame pr top hi chain :
  fork_ready s qs l name frame pr top hi chain → 0 ≤ level < NUM_PRIORITY_LEVELS →
  let stack := page_up (m_placement (k_mach s)) in
  let vma := stack + KSTACK_SIZE in
  wp (fork name level frame) (λ r s', ∃ p, slot p ∧ unused s p ∧
    r = k_pid s ∧ r ≠ 0 ∧ (∀ q y, q ≠ p → k_procs s' !! q = Some y → p_state y ≠ UNUSED → p_pid y ≠ r) ∧
    k_procs s' !! p = Some (child_of s name (stack + KSTACK_SIZE - (top - frame))) ∧
    (∀ q, q ≠ p → k_procs s' !! q = k_procs s !! q) ∧
    sched_inv s' (enqueue p level qs) l ∧
    q_ring (k_heap s') [vm_head p; vma + off_node] ∧
    k_regions s' = <[vma := stack_region stack]> (k_regions s) ∧
    forked (k_mach s) hi frame top chain (k_mach s') ∧
    k_pid s' = u8 (k_pid s + 1) ∧ clock s' = clock s) s.
Proof using QL LO BO.
  intros [I Ht Hfree Hsch [Hpid0 Hpid] Hn [Rp Op] (fl & st & Hreg) Hroom Hnode Hps] Hl stack vma.
  destruct (find_slot_ok (with_if false s) Ht) as ([p|] & E & Hr); [|by destruct Hfree as (q & Hq & Hu); destruct (Hr q Hq)].
  destruct Hr as [Hp Hu]. destruct (unused_apart s qs l p I Hsch Hu) as (Hpq & Hpt & Hpsch).
  destruct (ti_task _ _ _ _ I) as [Hts _].
  destruct (stack_addresses _ _ Hroom) as (Hs0 & Hv0 & Hv). fold stack vma in Hs0, Hv0, Hv.
  destruct (Hnode vma Hv) as [Ov Hvpr].
  destruct (wp_inv _ _ _ (make_stack_ok _ _ (stack_room_if _ _ Hroom))) as ([[stk vm] g] & m1 & Hm & E1 & E2 & Hg0 & Hk).
  cbn [fst snd] in E1, E2, Hg0. fold stack vma in E1, E2. subst stk vm.
  destruct (fork_machine_ok _ _ _ _ _ _ (stack_room_if _ _ Hroom) (parent_stack_if _ _ _ _ _ Hps) Hk) as (m2 & Hcl & Hfk).
  pose proof (fk_if _ _ _ _ _ _ Hfk) as Hif. apply forked_if in Hfk.
  unfold fork. apply wp_bind. eapply wp_intro; [apply irq_save_ok|].
  apply wp_bind. eapply wp_intro; [apply myproc_ok|].
  eapply wp_bind_mono; [by eapply (alloc_no_entry_ok (with_if false s) name p stack vma g m1); [done|apply Ht|..|apply Ov]|].
  intros r s1 (-> & h1 & -> & R1 & F1).
  apply wp_bind. eapply wp_st_proc; [apply lookup_insert_eq|].
  set (s2 := set_procs _ _).
  assert (q_ring (k_heap s2) [vm_head (k_task s); pr + off_node]) as R2 by (by eapply parent_ring).
  assert (k_regions s2 !! pr = Some (VmRegion fl STACK st top)) as G1 by (cbn; by rewrite lookup_insert_ne).
  assert (k_regions s2 !! vma = Some (stack_region stack)) as G2 by (cbn; apply lookup_insert_eq).
  apply wp_bind. eapply wp_intro; [by apply (find_stack_ok s2 _ pr _ R2 G1)|].
  apply wp_bind. eapply wp_intro; [unfold ld_region; by rewrite G1|].
  apply wp_bind. eapply wp_intro; [by apply (find_stack_ok s2 p vma _ R1 G2)|].
  apply wp_bind. eapply wp_intro; [unfold ld_region; by rewrite G2|].
  apply wp_bind, wp_mach. eapply wp_intro; [exact Hcl|].
  apply wp_bind. eapply wp_st_proc; [cbn; apply lookup_insert_eq|]. set (s3 := set_procs _ _).
  assert (∀ q, q ≠ p → k_procs s3 !! q = k_procs s !! q) as Hoth.
  { intros q Hq. cbn. by rewrite !lookup_insert_ne. }
  assert (k_procs s3 !! p = Some (child_of s name (stack + KSTACK_SIZE - (top - frame)))) as Hc
    by (cbn; apply lookup_insert_eq).
  assert (sched_inv s3 qs l) as I3.
  { apply (sched_inv_other s s3 qs l p); try done. cbn.
    eapply heap_ok_frame; [apply I|exact F1|]. intros i Hi. apply rings_avoid; [apply I|done..]. }
  eapply wp_bind_mono; [by eapply (sched_enqueue_keeps s3 qs l p level); [..|exact Hc|left|done|done]|].
  intros [] s4 (I4 & h4 & -> & F4).
  assert (q_ring h4 [vm_head p; vma + off_node]) as R4
    by (eapply (child_ring h1 h4 qs p vma level); [apply I|done..]).
  apply wp_bind. eapply wp_intro; [apply (restore_saved s); exact Hif|].
  apply wp_bind. eapply wp_ld_proc; [exact Hc|]. apply wp_ret. exists p.
  split_and!; try done; [|by apply sched_inv_mach].
  intros q y Hq Hy Hyu. apply (Hpid q y); [by rewrite <- Hoth|done].
Qed.
End fork.

(** ** A concrete kernel: the one of [SchedProps] with a stack for the running process,
    the direct map in one huge page, and the last slots free *)

(** The result of a computation, by evaluation; the final state is not written out. *)
Lemma outcome_value {A St} `{EqDecision A} (o : outcome (A * St)) v :
  (match o with Ok (a, _) => bool_decide (a = v) | _ => false end) = true → ∃ s', o = Ok (v, s').
Proof. destruct o as [[a s']| | | |]; [|done..]. intros ->%bool_decide_eq_true. by exists s'. Qed.

Module ExFork.
#[local] Existing Instance ex_boot.
#[local] Existing Instance ex_boot_ok.
#[local] Existing Instance Ex.layout.
#[local] Existing Instance Ex.layout_ok.

Definition region : Z := 0x30000.
Definition top : Z := 0xffff800000050000.

Definition list_memory : heap := circle [vm_head (Ex.proc_at 1); region + off_node] Ex.list_memory.

Definition free_slots (st : process_state) (ps : gmap Z process) : gmap Z process :=
  foldr (λ i, <[Ex.proc_at i := Ex.proc 0 st AtFresh]>) ps [5; 6; 7; 8; 9].

Definition kernel (st : process_state) : kstate heap :=
  KState ex_machine list_memory (free_slots st (k_procs Ex.kernel))
    {[region := VmRegion 0 STACK (top - KSTACK_SIZE) top]} 5 (Ex.proc_at 1) (Ex.proc_at 0) false 0 0.

Lemma table st : table_ok (kernel st).
Proof.
  intros p Hp%Ex.slot_in. revert p Hp. apply Forall_forall. destruct st; by_decide.
Qed.

Lemma heap_fine : heap_ok list_memory Ex.queues.
Proof.
  split.
  - intros i Hi. assert (i = 0 ∨ i = 1 ∨ i = 2) as [->|[->| ->]] by lia; by_decide.
  - by_decide.
  - apply Ex.heap_ok_queues.
  - intros p Hp%Ex.slot_in. revert p Hp. apply Forall_forall. by_decide.
Qed.

Lemma fork_inv : sched_inv (kernel UNUSED) Ex.queues 0.
Proof.
  destruct Ex.inv as [I1 I2 I3 I4 I5 I6 I7]. split; [done|exact heap_fine|exact I3|exact I4| | |].
  - intros p [->|[->|[]%not_elem_of_nil]%elem_of_cons]%elem_of_cons.
    + eexists. split; [by vm_compute|]. split; [by left|done].
    + eexists. split; [by vm_compute|]. split; [by right|done].
  - eexists. split; by vm_compute.
  - split; [lia|]. eexists _, _. split; by vm_compute.
Qed.

Lemma outside_high n : 0x20050 ≤ n → outside n.
Proof.
  intros Hn. split.
  - intros i Hi. unfold mlfq_at, mlfq, Ex.layout. lia.
  - intros p (i & Hi & ->). unfold sched_node, vm_head, processes, Ex.layout, off_sched, off_vm_list,
      sizeof_process, NUM_PROCESSES in *. lia.
Qed.

Lemma room : stack_room ex_machine 0x200000.
Proof.
  split; [exact ex_inv|by vm_compute..|]. eexists 0x100000, _. split; [vm_compute; reflexivity|done].
Qed.

Lemma stack : parent_stack ex_machine 0x200000 (top - 64) top [].
Proof.
  split; [by vm_compute..| |].
  - intros a Ha. unfold top, hhdm_offset, ex_boot in *. split; [|cbn; lia].
    intros v j t [[-> ->]|(-> & -> & _)]%ex_trail; lia.
  - intros [H _]. vm_compute in H. by apply H.
Qed.

Lemma fork_fine : fork_ready (kernel UNUSED) Ex.queues 0 "child" (top - 64) region top 0x200000 [].
Proof.
  split.
  - exact fork_inv.
  - apply table.
  - exists (Ex.proc_at 5). split; [by apply Ex.slot_at|]. eexists. split; by vm_compute.
  - intros x Hx. vm_compute in Hx. by injection Hx as <-.
  - split; [done|]. intros q y Hq Hu E.
    assert (map_Forall (λ _ y, p_state y = UNUSED ∨ p_pid y ≠ 5) (k_procs (kernel UNUSED))) as Hall by by_decide.
    destruct (Hall q y Hq) as [Hy|Hy]; [by apply Hu|by apply Hy].
  - by vm_compute.
  - split; [by_decide|by apply outside_high].
  - eexists _, _. by vm_compute.
  - exact room.
  - intros n Hn. cbn in Hn. split; [apply outside_high; unfold off_node; lia|unfold region; lia].
  - exact stack.
Qed.
End ExFork.

Section witnesses.
#[local] Existing Instance ex_boot.
#[local] Existing Instance ex_boot_ok.
#[local] Existing Instance Ex.layout.
#[local] Existing Instance Ex.layout_ok.

Lemma fork_correct_witness :
  wp (fork "child" 0 (ExFork.top - 64)) (λ r s', r = 5 ∧
    ∃ p, sched_inv s' (enqueue p 0 Ex.queues) 0) (ExFork.kernel UNUSED).
Proof.
  eapply wp_mono.
  - apply (fork_correct _ _ _ _ 0 _ _ _ _ _ ExFork.fork_fine). lia.
  - intros r s' (p & _ & _ & -> & _ & _ & _ & _ & I & _). split; [done|by exists p].
Defined.

Lemma fork_full_witness :
  fork "child" 0 0 (ExFork.kernel ZOMBIE) = Ok (-1, ExFork.kernel ZOMBIE).
Proof.
  apply fork_full; [apply ExFork.table|]. intros p Hp%Ex.slot_in (x & Hx & Hu). revert p Hp x Hx Hu.
  assert (Forall (λ p, p_state <$> k_procs (ExFork.kernel ZOMBIE) !! p ≠ Some UNUSED) Ex.slots) as F by by_decide.
  intros p Hp x Hx Hu. rewrite Forall_forall in F. apply (F p Hp). rewrite Hx. cbn. by rewrite Hu.
Defined.
End witnesses.
