(* ===== verification/CString.v ===== *)
(** * The C string library ([libc/string/string.c])

    Byte memory and the [mem*]/[str*] functions on it.  Pointers into an object do
    not wrap around the address space.  [char] is signed. *)

From S2P Require Import Prelude Loops.

(** A byte per mapped address. *)
Abbreviation bmem := (gmap Z Z).

(** [((unsigned char * ) p)[0]] and its assignment. *)
Definition ldb (p : Z) : M bmem Z := λ m,
  match m !! p with Some b => Ok (b, m) | None => Fault p end.
Definition stb (p v : Z) : M bmem unit := λ m,
  match m !! p with Some _ => Ok (tt, <[p := v]> m) | None => Fault p end.

(** A load through [char *]. *)
Definition ldc (p : Z) : M bmem Z := b ← ldb p; mret (swrap 8 b).

Abbreviation MAX_STRCMP_COMPARISONS := 1000%Z.

(* src/libc/string/string.c 6-17 memcmp *)
Definition memcmp (aptr bptr size : Z) : M bmem Z :=
  r ← for_find (Z.to_nat size) 0 (λ i,
    a ← ldb (aptr + i);
    b ← ldb (bptr + i);
    if a <? b then mret (Some (-1))
    else if b <? a then mret (Some 1)
    else mret None);
  mret (default 0 r).

(* src/libc/string/string.c 19-26 memcpy *)
Definition memcpy (dstptr srcptr size : Z) : M bmem Z :=
  for_up (Z.to_nat size) 0 (λ i, b ← ldb (srcptr + i); stb (dstptr + i) b) ;;
  mret dstptr.

(* src/libc/string/string.c 28-41 memmove *)
Definition memmove (dstptr srcptr size : Z) : M bmem Z :=
  (if dstptr <? srcptr then
     for_up (Z.to_nat size) 0 (λ i, b ← ldb (srcptr + i); stb (dstptr + i) b)
   else
     for_down (Z.to_nat size) (λ i, b ← ldb (srcptr + (i - 1)); stb (dstptr + (i - 1)) b)) ;;
  mret dstptr.

(* src/libc/string/string.c 43-49 memset *)
Definition memset (bufptr value size : Z) : M bmem Z :=
  for_up (Z.to_nat size) 0 (λ i, stb (bufptr + i) (u8 value)) ;;
  mret bufptr.

(** The string is read up to its end, at most [fuel] bytes. *)
Fixpoint strlen_from (fuel : nat) (str len : Z) : M bmem Z :=
  c ← ldc (str + len);
  if c =? 0 then mret len else
  match fuel with
  | O => out_of_fuel
  | S fuel => strlen_from fuel str (len + 1)
  end.

(* src/libc/string/string.c 51-57 strlen *)
Definition strlen (fuel : nat) (str : Z) : M bmem Z := strlen_from fuel str 0.

(* src/libc/string/string.c 59-68 strnlen *)
Definition strnlen (str maxlen : Z) : M bmem Z :=
  r ← for_find (Z.to_nat maxlen) 0 (λ i,
    c ← ldc (str + i);
    mret (if c =? 0 then Some i else None));
  mret (default maxlen r).

(** One step of the two comparison loops. *)
Definition str_step (s1 s2 i : Z) : M bmem (option Z) :=
  a ← ldc (s1 + i);
  if a =? 0 then b ← ldc (s2 + i); mret (Some (a - b)) else
  b ← ldc (s2 + i);
  if b =? 0 then mret (Some (a - b))
  else if negb (a =? b) then mret (Some (a - b))
  else mret None.

(* src/libc/string/string.c 70-80 strncmp *)
Definition strncmp (s1 s2 n : Z) : M bmem Z :=
  r ← for_find (Z.to_nat n) 0 (str_step s1 s2);
  mret (default 0 r).

(* src/libc/string/string.c 82-95 strcmp *)
Definition strcmp (s1 s2 : Z) : M bmem Z :=
  r ← for_find (Z.to_nat MAX_STRCMP_COMPARISONS) 0 (str_step s1 s2);
  match r with
  | Some x => mret x
  | None => panic "strcmp exceeded MAX_STRCMP_COMPARISONS"
  end.

(** The digits [itoa] collects, least significant first; C division truncates. *)
Fixpoint itoa_stack (n : nat) (num : Z) : list Z :=
  match n with
  | O => []
  | S n =>
      let num' := Z.quot num 10 in
      Z.rem num 10 :: (if num' =? 0 then [] else itoa_stack n num')
  end.

(** Consecutive byte stores. *)
Fixpoint stbs (p : Z) (l : list Z) : M bmem unit :=
  match l with
  | [] => mret tt
  | b :: l => stb p b ;; stbs (p + 1) l
  end.

(** An [int] has at most ten digits: the loop ends at its [break]. *)
(* src/libc/string/string.c 97-111 itoa *)
Definition itoa (dest num : Z) : M bmem unit :=
  let stack := itoa_stack 11 num in
  stbs dest ((λ d, u8 (d + 48)) <$> reverse stack) ;;
  stb (dest + Z.of_nat (length stack)) 0.

Definition hex_digit (d : Z) : Z := if d <? 10 then d + 48 else d - 10 + 97.

Fixpoint hex_stack (n : nat) (num : Z) : list Z :=
  match n with
  | O => []
  | S n => if 0 <? num then hex_digit (num mod 16) :: hex_stack n (num / 16) else []
  end.

(* src/libc/string/string.c 113-137 itoa_hex *)
Definition itoa_hex (dest num : Z) : M bmem unit :=
  if num =? 0 then stb dest 48 ;; stb (dest + 1) 0 else
  let stack := hex_stack 8 num in
  stbs dest (reverse stack) ;;
  stb (dest + Z.of_nat (length stack)) 0.

(** * The theorems about the string library *)

(** ** Copying *)

(** [size] bytes at [p] are mapped. *)
Definition mapped (m : bmem) (p size : Z) : Prop := ∀ i, 0 ≤ i < size → is_Some (m !! (p + i)).

(** [m'] is [m] with the [size] bytes at [dst] replaced by those [m] has at [src]. *)
Definition moved (dst src size : Z) (m m' : bmem) : Prop :=
  ∀ a, m' !! a = if (dst <=? a) && (a <? dst + size) then m !! (src + (a - dst)) else m !! a.

Lemma wp_ldb p b (Q : Z → bmem → Prop) m : m !! p = Some b → Q b m → wp (ldb p) Q m.
Proof. unfold wp, ldb. by intros ->. Qed.

Lemma wp_stb p v (Q : unit → bmem → Prop) m :
  is_Some (m !! p) → Q tt (<[p := v]> m) → wp (stb p v) Q m.
Proof. unfold wp, stb. by intros [? ->]. Qed.

(** Copying upwards is right when the destination is not above the source, or does
    not overlap it. *)
Lemma copy_up_ok dst src size m :
  0 ≤ size → mapped m src size → mapped m dst size → dst ≤ src ∨ src + size ≤ dst →
  wp (for_up (Z.to_nat size) 0 (λ i, b ← ldb (src + i); stb (dst + i) b))
    (λ _ m', moved dst src size m m') m.
Proof.
  intros Hs Hsrc Hdst Hov. eapply wp_mono.
  { apply (wp_for_up _ 0 _ (λ i m', moved dst src i m m')).
    - intros a. by rewrite (proj2 (andb_false_iff _ _)) by (destruct (Z.leb_spec dst a); [right|left]; [apply Z.ltb_ge; lia|done]).
    - intros j m' Hj Hm. destruct (Hsrc j ltac:(lia)) as [b Hb].
      assert (m' !! (src + j) = Some b) as Hb'.
      { rewrite Hm. destruct ((dst <=? src + j) && (src + j <? dst + j)) eqn:E; [|done]. bprop. lia. }
      apply wp_bind. eapply wp_ldb; [exact Hb'|]. apply wp_stb.
      + rewrite Hm. destruct (_ && _) eqn:E; [bprop; lia|]. apply Hdst. lia.
      + intros a. destruct (decide (a = dst + j)) as [->|Hne].
        * rewrite lookup_insert_eq. bcase. by replace (dst + j - dst) with j by lia.
        * rewrite lookup_insert_ne, Hm by done. by bcase. }
  intros [] m' Hm. cbv beta in Hm. by replace (0 + Z.of_nat (Z.to_nat size)) with size in Hm by lia.
Qed.

(** Copying downwards, when the destination is not below the source. *)
Lemma copy_down_ok dst src size m :
  0 ≤ size → mapped m src size → mapped m dst size → src ≤ dst →
  wp (for_down (Z.to_nat size) (λ i, b ← ldb (src + (i - 1)); stb (dst + (i - 1)) b))
    (λ _ m', moved dst src size m m') m.
Proof.
  intros Hs Hsrc Hdst Hov. eapply wp_mono.
  { apply (wp_for_down _ _ (λ i m', moved (dst + i) (src + i) (size - i) m m')).
    - intros a. bcase; done.
    - intros j m' Hj Hm. destruct (Hsrc (j - 1) ltac:(lia)) as [b Hb].
      assert (m' !! (src + (j - 1)) = Some b) as Hb'.
      { rewrite Hm. destruct (_ && _) eqn:E; [|done]. bprop. lia. }
      apply wp_bind. eapply wp_ldb; [exact Hb'|]. apply wp_stb.
      + rewrite Hm. destruct (_ && _) eqn:E; [bprop; lia|]. apply Hdst. lia.
      + intros a. destruct (decide (a = dst + (j - 1))) as [->|Hne].
        * rewrite lookup_insert_eq. bcase. rewrite <- Hb. f_equal. lia.
        * rewrite lookup_insert_ne, Hm by done. bcase; try done. f_equal. lia. }
  intros [] m' Hm a. cbv beta in Hm. rewrite Hm. by rewrite !Z.add_0_r, Z.sub_0_r.
Qed.

(** [memmove] copies correctly for every overlap of the two ranges: the
    destination ends up with the bytes the source had before the call, no other byte
    changes, and the destination pointer is returned. *)
Theorem memmove_correct dst src size m :
  0 ≤ size → mapped m src size → mapped m dst size →
  wp (memmove dst src size) (λ r m', r = dst ∧ moved dst src size m m') m.
Proof.
  intros Hs Hsrc Hdst. unfold memmove. destruct (Z.ltb_spec dst src).
  - eapply wp_bind_mono; [apply copy_up_ok; [done..|left; lia]|]. by intros [] m' Hm.
  - eapply wp_bind_mono; [apply copy_down_ok; [done..|lia]|]. by intros [] m' Hm.
Qed.

(** [memcpy] of ranges that do not overlap writes exactly the bytes asked for,
    and [memcmp] of the copied ranges then finds them equal. *)
Theorem memcpy_memcmp dst src size m :
  0 ≤ size → mapped m src size → mapped m dst size → dst + size ≤ src ∨ src + size ≤ dst →
  wp (memcpy dst src size ;; memcmp dst src size) (λ r m', r = 0 ∧ moved dst src size m m') m.
Proof.
  intros Hs Hsrc Hdst Hov. unfold memcpy, memcmp.
  apply (wp_bind_mono _ _ (λ _ m', moved dst src size m m')).
  { eapply wp_bind_mono; [apply copy_up_ok; [done..|lia]|]. intros [] m' Hm. apply wp_ret. exact Hm. }
  intros _ m' Hm. eapply wp_bind_mono.
  { apply (wp_for_find _ 0 _ (λ _ s, s = m') (λ _ _, False)); [done|]. intros j ? Hj ->.
    destruct (Hsrc j ltac:(lia)) as [b Hb].
    assert (m' !! (dst + j) = Some b) as H1.
    { rewrite Hm. bcase. rewrite <- Hb. f_equal. lia. }
    assert (m' !! (src + j) = Some b) as H2.
    { rewrite Hm. destruct (_ && _) eqn:E; [|done]. bprop. lia. }
    apply wp_bind. eapply wp_ldb; [exact H1|]. apply wp_bind. eapply wp_ldb; [exact H2|].
    rewrite Z.ltb_irrefl. by apply wp_ret. }
  intros [?|] m'' Hr; [done|]. subst m''. by apply wp_ret.
Qed.

(** ** Strings *)

(** The string [l] at [p], with its terminator. *)
Fixpoint cstr (m : bmem) (p : Z) (l : list Z) : Prop :=
  match l with
  | [] => m !! p = Some 0
  | b :: l => m !! p = Some b ∧ 0 < b < 256 ∧ cstr m (p + 1) l
  end.

(** The difference [strcmp] computes, on strings of any length. *)
Fixpoint str_diff (l k : list Z) : Z :=
  match l, k with
  | [], [] => 0
  | a :: _, [] => swrap 8 a
  | [], b :: _ => - swrap 8 b
  | a :: l, b :: k => if swrap 8 a =? swrap 8 b then str_diff l k else swrap 8 a - swrap 8 b
  end.

(** The strings agree on [n] characters. *)
Fixpoint agree_for (n : nat) (l k : list Z) : bool :=
  match n, l, k with
  | O, _, _ => true
  | S n, a :: l, b :: k => (a =? b) && agree_for n l k
  | S _, _, _ => false
  end.

Lemma swrap8_eq a b : 0 ≤ a < 256 → 0 ≤ b < 256 → swrap 8 a = swrap 8 b → a = b.
Proof.
  unfold swrap. change (2 ^ 8) with 256. change (2 ^ (8 - 1)) with 128. intros Ha Hb.
  pose proof (Z.div_mod (a + 128) 256 ltac:(lia)). pose proof (Z.div_mod (b + 128) 256 ltac:(lia)).
  pose proof (Z.mod_pos_bound (a + 128) 256 ltac:(lia)). pose proof (Z.mod_pos_bound (b + 128) 256 ltac:(lia)).
  lia.
Qed.

Lemma swrap8_0 a : 0 ≤ a < 256 → (swrap 8 a =? 0) = (a =? 0).
Proof.
  intros Ha. destruct (Z.eqb_spec a 0) as [->|Hn]; [done|]. apply Z.eqb_neq. intros E.
  apply Hn, swrap8_eq; [lia|lia|done].
Qed.

Lemma wp_ldc p b (Q : Z → bmem → Prop) m : m !! p = Some b → Q (swrap 8 b) m → wp (ldc p) Q m.
Proof. intros Hb HQ. apply wp_bind. eapply wp_ldb; [done|]. by apply wp_ret. Qed.

Lemma ldc_ok p b m : m !! p = Some b → ldc p m = Ok (swrap 8 b, m).
Proof. intros Hb. unfold ldc. erewrite M_bind_Ok; [done|]. unfold ldb. by rewrite Hb. Qed.

Lemma str_step_ok s1 s2 i a b m :
  m !! (s1 + i) = Some a → m !! (s2 + i) = Some b → 0 ≤ a < 256 → 0 ≤ b < 256 →
  str_step s1 s2 i m =
    Ok (if (a =? b) && negb (a =? 0) then None else Some (swrap 8 a - swrap 8 b), m).
Proof.
  intros Ha Hb Ha' Hb'. unfold str_step. erewrite M_bind_Ok by (by apply ldc_ok).
  rewrite swrap8_0 by done. destruct (Z.eqb_spec a 0) as [->|Hn].
  { erewrite M_bind_Ok by (by apply ldc_ok). by rewrite andb_false_r. }
  erewrite M_bind_Ok by (by apply ldc_ok). rewrite swrap8_0, andb_true_r by done.
  destruct (Z.eqb_spec a b) as [->|Hne].
  - by rewrite (proj2 (Z.eqb_neq b 0)), Z.eqb_refl by done.
  - destruct (Z.eqb_spec b 0); [done|].
    destruct (Z.eqb_spec (swrap 8 a) (swrap 8 b)) as [E|_]; [|done]. by apply swrap8_eq in E.
Qed.

(** The comparison loop, for [n] rounds. *)
Lemma str_loop_ok n i s1 s2 l k m :
  cstr m (s1 + i) l → cstr m (s2 + i) k →
  for_find n i (str_step s1 s2) m =
    Ok (if agree_for n l k then None else Some (str_diff l k), m).
Proof.
  revert i l k. induction n as [|n IH]; intros i l k Hl Hk; cbn [for_find]; [done|].
  destruct l as [|a l]; [|destruct Hl as (Hla & Ha & Hl)]; (destruct k as [|b k]; [|destruct Hk as (Hkb & Hb & Hk)]);
    cbn [cstr] in *; cbn [agree_for str_diff].
  - erewrite M_bind_Ok by (by apply str_step_ok). done.
  - erewrite M_bind_Ok by (apply str_step_ok; [done|done|lia|lia]).
    by rewrite (proj2 (Z.eqb_neq 0 b)) by lia.
  - erewrite M_bind_Ok by (apply str_step_ok; [done|done|lia|lia]).
    rewrite (proj2 (Z.eqb_neq a 0)) by lia. cbn [andb negb]. change (swrap 8 0) with 0. by rewrite Z.sub_0_r.
  - erewrite M_bind_Ok by (apply str_step_ok; [done|done|lia|lia]).
    rewrite (proj2 (Z.eqb_neq a 0)) by lia. rewrite andb_true_r. destruct (Z.eqb_spec a b) as [->|Hne].
    + rewrite Z.eqb_refl. cbn [andb]. apply IH; by rewrite Z.add_assoc.
    + destruct (Z.eqb_spec (swrap 8 a) (swrap 8 b)) as [E|_]; [apply swrap8_eq in E; lia|]. done.
Qed.

Lemma agree_for_length n l k : agree_for n l k = true → (n ≤ length l)%nat ∧ (n ≤ length k)%nat.
Proof.
  revert l k. induction n as [|n IH]; intros l k E; [simpl; lia|].
  destruct l as [|a l], k as [|b k]; try done. simpl in *. apply andb_true_iff in E as [_ E].
  apply IH in E. lia.
Qed.

Lemma cstr_bytes m p l b : cstr m p l → b ∈ l → 0 < b < 256.
Proof.
  revert p. induction l as [|c l IH]; intros p Hc Hb; [by apply elem_of_nil in Hb|].
  destruct Hc as (_ & Hc & Hl). apply elem_of_cons in Hb as [->|Hb]; [done|by eapply IH].
Qed.

Lemma str_diff_0 l k :
  (∀ b, b ∈ l → 0 < b < 256) → (∀ b, b ∈ k → 0 < b < 256) → str_diff l k = 0 ↔ l = k.
Proof.
  assert (∀ b, 0 < b < 256 → swrap 8 b ≠ 0) as Hnz.
  { intros b Hb E. assert (b = 0) by (apply swrap8_eq; [lia|lia|done]). lia. }
  revert k. induction l as [|a l IH]; intros [|b k] Hl Hk; cbn [str_diff].
  - done.
  - split; [|done]. intros E. exfalso. apply (Hnz b); [apply Hk; left|lia].
  - split; [|done]. intros E. exfalso. apply (Hnz a); [apply Hl; left|lia].
  - assert (0 < a < 256) as Ha by (apply Hl; left). assert (0 < b < 256) as Hb by (apply Hk; left).
    destruct (Z.eqb_spec (swrap 8 a) (swrap 8 b)) as [E|E].
    + apply swrap8_eq in E as ->; [|lia|lia]. rewrite IH by set_solver. naive_solver.
    + split; [lia|]. intros [= -> ->]. done.
Qed.

(** On strings of which one is shorter than [MAX_STRCMP_COMPARISONS], [strcmp]
    returns zero exactly for equal strings and otherwise the difference of the first
    characters that differ (as signed [char]s, the terminator counting as 0); it
    changes nothing and reads neither string past its end.  It panics exactly if the
    strings agree for [MAX_STRCMP_COMPARISONS] characters. *)
Theorem strcmp_correct s1 s2 l k m :
  cstr m s1 l → cstr m s2 k →
  strcmp s1 s2 m =
    (if agree_for (Z.to_nat MAX_STRCMP_COMPARISONS) l k
     then Panic "strcmp exceeded MAX_STRCMP_COMPARISONS" else Ok (str_diff l k, m)) ∧
  (str_diff l k = 0 ↔ l = k) ∧
  ((length l < Z.to_nat MAX_STRCMP_COMPARISONS)%nat →
     agree_for (Z.to_nat MAX_STRCMP_COMPARISONS) l k = false).
Proof.
  intros Hl Hk. split; [|split].
  - unfold strcmp. erewrite M_bind_Ok; [|apply (str_loop_ok _ 0 s1 s2 l k); by rewrite Z.add_0_r].
    by destruct (agree_for _ _ _).
  - apply str_diff_0; intros b; by eapply cstr_bytes.
  - intros Hlen. destruct (agree_for _ _ _) eqn:E; [|done]. apply agree_for_length in E. lia.
Qed.

(** [strlen] returns the number of characters before the terminator. *)
Theorem strlen_correct fuel str l m :
  cstr m str l → (length l ≤ fuel)%nat → strlen fuel str m = Ok (Z.of_nat (length l), m).
Proof.
  intros Hl Hf. unfold strlen.
  assert (∀ i, cstr m (str + i) l → strlen_from fuel str i m = Ok (i + Z.of_nat (length l), m)) as Hgen;
    [|apply (Hgen 0); by rewrite Z.add_0_r].
  clear Hl. revert fuel Hf. induction l as [|b l IH]; intros fuel Hf i Hl.
  - cbn [cstr] in Hl. destruct fuel; cbn [strlen_from]; erewrite M_bind_Ok by (by apply ldc_ok);
      cbn; by rewrite Z.add_0_r.
  - destruct Hl as (Hb & Hb' & Hl). destruct fuel as [|fuel]; cbn [length] in *; [lia|].
    cbn [strlen_from]. erewrite M_bind_Ok by (by apply ldc_ok).
    rewrite swrap8_0, (proj2 (Z.eqb_neq b 0)) by lia. rewrite IH; [|lia|by rewrite Z.add_assoc].
    do 2 f_equal. lia.
Qed.

(** ** Numbers *)

(** The number digits [l], most significant first, stand for in base [b]. *)
Definition value (b : Z) (l : list Z) : Z := foldr (λ d acc, d + b * acc) 0 (reverse l).

Lemma stbs_cstr p l m :
  Forall (λ b, 0 < b < 256) l → mapped m p (Z.of_nat (length l) + 1) →
  wp (stbs p l ;; stb (p + Z.of_nat (length l)) 0)
    (λ _ m', cstr m' p l ∧ ∀ a, a < p ∨ p + Z.of_nat (length l) < a → m' !! a = m !! a) m.
Proof.
  revert p m. induction l as [|b l IH]; intros p m Hl Hm; cbn [stbs length].
  - apply wp_bind, wp_ret, wp_stb; [apply Hm; cbn; lia|]. split.
    + cbn [cstr]. change (Z.of_nat 0) with 0. rewrite Z.add_0_r. apply lookup_insert_eq.
    + intros a Ha. apply lookup_insert_ne. cbn in *. lia.
  - apply Forall_cons in Hl as [Hb Hl]. cbn [length] in Hm.
    assert (wp (stb p b ;; (stbs (p + 1) l ;; stb (p + 1 + Z.of_nat (length l)) 0))
      (λ _ m', cstr m' p (b :: l) ∧ ∀ a, a < p ∨ p + Z.of_nat (S (length l)) < a → m' !! a = m !! a) m) as Hw.
    { apply wp_bind, wp_stb; [replace p with (p + 0) by lia; apply Hm; lia|].
      eapply wp_mono; [apply IH; [done|]|].
      - intros i Hi. destruct (decide (p + 1 + i = p)); [lia|]. rewrite lookup_insert_ne by lia.
        rewrite <- Z.add_assoc. apply Hm. lia.
      - intros [] m' [Hc Hfr]. split.
        + cbn [cstr]. split; [|done]. rewrite Hfr by lia. apply lookup_insert_eq.
        + intros a Ha. rewrite Hfr by lia. apply lookup_insert_ne. lia. }
    replace (p + Z.of_nat (S (length l))) with (p + 1 + Z.of_nat (length l)) by lia.
    unfold wp in *. rewrite M_bind_assoc.
    replace (p + Z.of_nat (S (length l))) with (p + 1 + Z.of_nat (length l)) in Hw by lia. exact Hw.
Qed.

Lemma itoa_stack_value n num :
  0 ≤ num < 10 ^ Z.of_nat n → n ≠ 0%nat →
  foldr (λ d acc, d + 10 * acc) 0 (itoa_stack n num) = num ∧
  Forall (λ d, 0 ≤ d < 10) (itoa_stack n num) ∧ (length (itoa_stack n num) ≤ n)%nat.
Proof.
  revert num. induction n as [|n IH]; intros num Hn Hz; [done|]. cbn [itoa_stack foldr].
  rewrite Z.quot_div_nonneg, Z.rem_mod_nonneg by lia.
  pose proof (Z.div_mod num 10 ltac:(lia)). pose proof (Z.mod_pos_bound num 10 ltac:(lia)).
  destruct (Z.eqb_spec (num / 10) 0) as [E|E].
  - cbn [foldr length]. split; [lia|]. split; [by repeat constructor; lia|lia].
  - assert (n ≠ 0%nat) as Hn0. { intros ->. change (10 ^ Z.of_nat 1) with 10 in Hn. apply E, Z.div_small. lia. }
    rewrite Nat2Z.inj_succ, Z.pow_succ_r in Hn by lia.
    destruct (IH (num / 10)) as (Hv & Hd & Hlen); [|done|].
    { split; [apply Z.div_pos; lia|]. apply Z.div_lt_upper_bound; lia. }
    rewrite Hv. cbn [length]. split; [lia|]. split; [constructor; [lia|done]|lia].
Qed.

Lemma itoa_stack_opp n num : itoa_stack n (- num) = Z.opp <$> itoa_stack n num.
Proof.
  revert num. induction n as [|n IH]; intros num; [done|]. cbn [itoa_stack fmap list_fmap].
  rewrite Z.rem_opp_l', Z.quot_opp_l by lia. f_equal.
  destruct (Z.eqb_spec (Z.quot num 10) 0) as [->|E]; [done|].
  rewrite (proj2 (Z.eqb_neq _ _)) by lia. apply IH.
Qed.

(** [itoa] writes a terminated string of at most eleven characters.  For a
    number that is not negative it is the decimal notation.  For a negative number
    there is no sign, and the characters are the digits of its absolute value
    counted down from '0': -42 is written ",.". *)
Theorem itoa_correct dest num m :
  - 2 ^ 31 ≤ num < 2 ^ 31 → mapped m dest 12 →
  ∃ ds, value 10 ds = Z.abs num ∧ Forall (λ d, 0 ≤ d < 10) ds ∧
    wp (itoa dest num) (λ _ m',
      cstr m' dest ((λ d, if 0 <=? num then 48 + d else 48 - d) <$> ds) ∧
      ∀ a, a < dest ∨ dest + 12 ≤ a → m' !! a = m !! a) m.
Proof.
  intros Hn Hm. exists (reverse (itoa_stack 11 (Z.abs num))).
  destruct (itoa_stack_value 11 (Z.abs num)) as (Hv & Hd & Hlen); [lia|done|].
  unfold value. rewrite reverse_involutive. split; [done|]. split; [by apply Forall_reverse|].
  unfold itoa.
  assert ((λ d, u8 (d + 48)) <$> reverse (itoa_stack 11 num) =
          (λ d, if 0 <=? num then 48 + d else 48 - d) <$> reverse (itoa_stack 11 (Z.abs num))) as E.
  { destruct (Z.leb_spec 0 num) as [Hp|Hneg].
    - rewrite Z.abs_eq in * by lia. apply list_fmap_ext. intros i d Hi.
      rewrite Z.add_comm. apply wrap_small. apply list_elem_of_lookup_2 in Hi. rewrite elem_of_reverse in Hi.
      rewrite Forall_forall in Hd. specialize (Hd d Hi). lia.
    - rewrite <- (Z.opp_involutive num) at 1. rewrite itoa_stack_opp. rewrite Z.abs_neq in * by lia.
      rewrite <- fmap_reverse, <- list_fmap_compose. apply list_fmap_ext. intros i d Hi. cbn.
      apply list_elem_of_lookup_2 in Hi. rewrite elem_of_reverse in Hi.
      rewrite Forall_forall in Hd. specialize (Hd d Hi).
      rewrite wrap_small; lia. }
  assert (length (itoa_stack 11 num) = length (itoa_stack 11 (Z.abs num))) as El.
  { apply (f_equal length) in E. by rewrite !length_fmap, !length_reverse in E. }
  rewrite E, El. set (l := (λ d, if 0 <=? num then 48 + d else 48 - d) <$> _).
  assert (length l = length (itoa_stack 11 (Z.abs num))) as Ell by (unfold l; by rewrite length_fmap, length_reverse).
  rewrite <- Ell. eapply wp_mono; [apply stbs_cstr|].
  - apply Forall_fmap, Forall_reverse. eapply Forall_impl; [exact Hd|]. cbn. intros d. bcase; lia.
  - intros i Hi. apply Hm. lia.
  - intros [] m' [Hc Hfr]. split; [done|]. intros a Ha. apply Hfr. lia.
Qed.

Lemma hex_stack_value n num :
  0 ≤ num < 16 ^ Z.of_nat n →
  ∃ ds, hex_stack n num = hex_digit <$> ds ∧ foldr (λ d acc, d + 16 * acc) 0 ds = num ∧
    Forall (λ d, 0 ≤ d < 16) ds ∧ (length ds ≤ n)%nat.
Proof.
  revert num. induction n as [|n IH]; intros num Hn; cbn [hex_stack].
  { exists []. change (16 ^ Z.of_nat 0) with 1 in Hn. cbn. split_and!; [done|lia|by constructor|lia]. }
  rewrite Nat2Z.inj_succ, Z.pow_succ_r in Hn by lia.
  pose proof (Z.div_mod num 16 ltac:(lia)). pose proof (Z.mod_pos_bound num 16 ltac:(lia)).
  destruct (Z.ltb_spec 0 num).
  - destruct (IH (num / 16)) as (ds & E & Hv & Hd & Hl).
    { split; [apply Z.div_pos; lia|]. apply Z.div_lt_upper_bound; lia. }
    exists (num mod 16 :: ds). cbn [foldr fmap list_fmap length].
    split_and!; [by rewrite E|lia|constructor; [lia|done]|lia].
  - exists []. cbn. split_and!; [done|lia|by constructor|lia].
Qed.

(** [itoa_hex] writes the hexadecimal notation of its argument, in lower case,
    terminated and at most nine bytes long. *)
Theorem itoa_hex_correct dest num m :
  0 ≤ num < 2 ^ 32 → mapped m dest 9 →
  ∃ ds, value 16 ds = num ∧ Forall (λ d, 0 ≤ d < 16) ds ∧
    wp (itoa_hex dest num) (λ _ m', cstr m' dest (hex_digit <$> ds) ∧
      ∀ a, a < dest ∨ dest + 9 ≤ a → m' !! a = m !! a) m.
Proof.
  intros Hn Hm. unfold itoa_hex. destruct (Z.eqb_spec num 0) as [->|Hz].
  - exists [0]. split; [done|]. split; [by repeat constructor|].
    assert (wp (stbs dest [48] ;; stb (dest + Z.of_nat (length [48])) 0)
      (λ _ m', cstr m' dest [48] ∧ ∀ a, a < dest ∨ dest + Z.of_nat (length [48]) < a → m' !! a = m !! a) m) as Hw.
    { apply stbs_cstr; [by repeat constructor|]. intros i Hi. apply Hm. cbn in Hi. lia. }
    unfold wp, mbind, M_bind in *. cbn [stbs length] in Hw. change (Z.of_nat 1) with 1 in Hw.
    unfold mbind, M_bind, mret, M_ret in Hw. destruct (stb dest 48 m) as [[[] m1]| | | |]; [|done..].
    destruct (stb (dest + 1) 0 m1) as [[[] m2]| | | |]; [|done..].
    destruct Hw as [Hc Hfr]. split; [exact Hc|]. intros a Ha. apply Hfr. lia.
  - destruct (hex_stack_value 8 num ltac:(cbn; lia)) as (ds & E & Hv & Hd & Hl).
    exists (reverse ds). unfold value. rewrite reverse_involutive. split; [done|].
    split; [by apply Forall_reverse|]. rewrite E, <- fmap_reverse.
    assert (length (hex_digit <$> ds) = length (hex_digit <$> reverse ds)) as El
      by (by rewrite !length_fmap, length_reverse).
    rewrite El. eapply wp_mono; [apply stbs_cstr|].
    + apply Forall_fmap, Forall_reverse. eapply Forall_impl; [exact Hd|].
      cbn. intros d. unfold hex_digit. bcase; lia.
    + rewrite <- El, length_fmap. intros i Hi. apply Hm. lia.
    + rewrite <- El, length_fmap. intros [] m' [Hc Hfr]. split; [done|]. intros a Ha. apply Hfr. lia.
Qed.

(** ** Concrete memories *)

(** Memory holding the bytes [l] from address [p]. *)
Definition bytes_at (p : Z) (l : list Z) : bmem := list_to_map (zip (seqZ p (Z.of_nat (length l))) l).

Lemma memmove_correct_witness :
  memmove 102 100 4 (bytes_at 100 [1; 2; 3; 4; 5; 6]) = Ok (102, bytes_at 100 [1; 2; 1; 2; 3; 4]).
Proof.
  assert (wp (memmove 102 100 4) (λ r m', r = 102 ∧ moved 102 100 4 (bytes_at 100 [1; 2; 3; 4; 5; 6]) m')
    (bytes_at 100 [1; 2; 3; 4; 5; 6])) as Hw.
  { apply memmove_correct; [lia|intros i Hi..];
      (assert (i = 0 ∨ i = 1 ∨ i = 2 ∨ i = 3) as [->|[->|[->| ->]]] by lia); vm_compute; eauto. }
  destruct (wp_inv _ _ _ Hw) as (r & m' & E & -> & _). rewrite E. vm_compute in E. by injection E as <-.
Defined.

Lemma memcpy_memcmp_witness :
  wp (memcpy 104 100 2 ;; memcmp 104 100 2)
    (λ r m', r = 0 ∧ moved 104 100 2 (bytes_at 100 [1; 2; 3; 4; 5; 6]) m') (bytes_at 100 [1; 2; 3; 4; 5; 6]).
Proof.
  apply memcpy_memcmp; [lia|intros i Hi..|lia];
    (assert (i = 0 ∨ i = 1) as [->| ->] by lia); vm_compute; eauto.
Defined.

Lemma strcmp_correct_witness :
  strcmp 100 103 (bytes_at 100 [97; 98; 0; 97; 99; 0]) = Ok (-1, bytes_at 100 [97; 98; 0; 97; 99; 0]).
Proof.
  pose proof (proj1 (strcmp_correct 100 103 [97; 98] [97; 99] (bytes_at 100 [97; 98; 0; 97; 99; 0])
    ltac:(vm_compute; intuition congruence) ltac:(vm_compute; intuition congruence))) as E.
  rewrite E. reflexivity.
Defined.

Lemma strlen_correct_witness :
  strlen 2 100 (bytes_at 100 [97; 98; 0]) = Ok (2, bytes_at 100 [97; 98; 0]).
Proof. apply (strlen_correct 2 100 [97; 98]); [vm_compute; intuition congruence|simpl; lia]. Defined.

Lemma itoa_correct_witness :
  ∃ ds, value 10 ds = 42 ∧ Forall (λ d, 0 ≤ d < 10) ds ∧
    wp (itoa 100 (-42)) (λ _ m', cstr m' 100 ((λ d, 48 - d) <$> ds) ∧
      ∀ a, a < 100 ∨ 112 ≤ a → m' !! a = bytes_at 100 (replicate 12 0) !! a) (bytes_at 100 (replicate 12 0)).
Proof.
  apply (itoa_correct 100 (-42) (bytes_at 100 (replicate 12 0))); [lia|].
  intros i Hi. apply (Forall_forall (λ i, is_Some (bytes_at 100 (replicate 12 0) !! (100 + i))) (seqZ 0 12)).
  - by_decide.
  - apply elem_of_seqZ. lia.
Defined.

Lemma itoa_hex_correct_witness :
  ∃ ds, value 16 ds = 0xbeef ∧ Forall (λ d, 0 ≤ d < 16) ds ∧
    wp (itoa_hex 100 0xbeef) (λ _ m', cstr m' 100 (hex_digit <$> ds) ∧
      ∀ a, a < 100 ∨ 109 ≤ a → m' !! a = bytes_at 100 (replicate 9 0) !! a) (bytes_at 100 (replicate 9 0)).
Proof.
  apply (itoa_hex_correct 100 0xbeef (bytes_at 100 (replicate 9 0))); [lia|].
  intros i Hi. apply (Forall_forall (λ i, is_Some (bytes_at 100 (replicate 9 0) !! (100 + i))) (seqZ 0 9)).
  - by_decide.
  - apply elem_of_seqZ. lia.
Defined.
