(* ===== verification/Format.v ===== *)
(** * Formatted output

    [console_vprintf] ([include/kernel/console.c]) and [serial_vprintf]
    ([drivers/serial.c]) over anything that takes characters.  They are the same
    code but for the function that converts numbers. *)

From S2P Require Import Prelude Loops CString.

(** A device characters are written to. *)
Class Sink (St : Type) := putc : Z → M St unit.

Abbreviation ch_percent := 37.
Abbreviation ch_l := 108.
Abbreviation ch_d := 100.
Abbreviation ch_u := 117.
Abbreviation ch_x := 120.
Abbreviation ch_p := 112.
Abbreviation ch_s := 115.
Abbreviation ch_c := 99.
Abbreviation ch_0 := 48.
Abbreviation ch_minus := 45.

(** Characters of a literal, and a read-only memory that holds it at address 0. *)
Definition chars (s : string) : list Z := (λ a, Z.of_N (Ascii.N_of_ascii a)) <$> String.list_ascii_of_string s.
Definition rom_of (l : list Z) : gmap Z Z := list_to_map (zip (seqZ 0 (Z.of_nat (length l) + 1)) (l ++ [0])).

Section format.
Context {St : Type} `{SK : Sink St}.

(** Format and argument strings, in memory that printing does not change. *)
Context (rom : gmap Z Z).

(** [*p] for a [const char *p]. *)
Definition ldr (p : Z) : M St Z := λ s,
  match rom !! p with Some b => Ok (swrap 8 b, s) | None => Fault p end.

(** [va_arg]; a call without the argument is undefined. *)
Definition va {A} (args : list Z) (k : Z → list Z → M St A) : M St A :=
  match args with [] => fault 0 | v :: args => k v args end.

Fixpoint puts_from (fuel : nat) (p : Z) : M St unit :=
  c ← ldr p;
  if c =? 0 then mret tt else
  match fuel with
  | O => out_of_fuel
  | S fuel => putc c ;; puts_from fuel (p + 1)
  end.

Fixpoint emit (l : list Z) : M St unit :=
  match l with [] => mret tt | c :: l => putc c ;; emit l end.

(** ** Numbers *)

(* src/include/kernel/console.c 144-144 console_write_uint *)
Definition digit_char (d : Z) : Z := if d <? 10 then ch_0 + d else 97 + d - 10.

(** The buffer, last character written first; it has room for [cap]. *)
Fixpoint fill_buf (fuel : nat) (cap : nat) (val base : Z) (buf : list Z) : M St (list Z) :=
  if val =? 0 then mret buf else
  match fuel with
  | O => out_of_fuel
  | S fuel =>
      if (cap <=? length buf)%nat then fault 0
      else fill_buf fuel cap (val / base) base (digit_char (val mod base) :: buf)
  end.

(* src/include/kernel/console.c 132-150 console_write_uint *)
Definition console_write_uint (val base : Z) : M St unit :=
  if val =? 0 then putc ch_0 else
  buf ← fill_buf 64 21 val base [];
  emit buf.

(** The digits go into the buffer from its end; the loop also stops when it is full. *)
Fixpoint fill_back (i : nat) (val base : Z) (buf : list Z) : list Z :=
  match i with
  | O => buf
  | S i => if val =? 0 then buf else fill_back i (val / base) base (digit_char (val mod base) :: buf)
  end.

(* src/drivers/serial.c 60-78 serial_write_uint *)
Definition serial_write_uint (val base : Z) : M St unit :=
  if val =? 0 then putc ch_0 else emit (fill_back 64 val base []).

Section vprintf.
Context (write_uint : Z → Z → M St unit).

(** Negation of the smallest 64-bit number wraps around. *)
(* src/include/kernel/console.c 152-158 console_write_int *)
Definition write_int (val : Z) : M St unit :=
  if val <? 0 then putc ch_minus ;; write_uint (u64 (s64 (- val))) 10
  else write_uint (u64 val) 10.

(** The text at [p]; strings printed with [%s] are read at most [n] characters. *)
(* src/include/kernel/console.c 160-218 console_vprintf *)
Fixpoint vprintf (n fuel : nat) (p : Z) (args : list Z) : M St unit :=
  c ← ldr p;
  if c =? 0 then mret tt else
  match fuel with
  | O => out_of_fuel
  | S fuel =>
  if negb (c =? ch_percent) then putc c ;; vprintf n fuel (p + 1) args else
  d ← ldr (p + 1);
  if d =? ch_l then
    e ← ldr (p + 2);
    if e =? ch_d then va args (λ v args, write_int (s64 v) ;; vprintf n fuel (p + 3) args)
    else if e =? ch_u then va args (λ v args, write_uint (u64 v) 10 ;; vprintf n fuel (p + 3) args)
    else if e =? ch_x then va args (λ v args, write_uint (u64 v) 16 ;; vprintf n fuel (p + 3) args)
    else putc ch_percent ;; putc ch_l ;; putc e ;; vprintf n fuel (p + 3) args
  else if d =? ch_d then va args (λ v args, write_int (s32 v) ;; vprintf n fuel (p + 2) args)
  else if d =? ch_u then va args (λ v args, write_uint (u32 v) 10 ;; vprintf n fuel (p + 2) args)
  else if d =? ch_x then va args (λ v args, write_uint (u32 v) 16 ;; vprintf n fuel (p + 2) args)
  else if d =? ch_p then
    va args (λ v args, emit [ch_0; ch_x] ;; write_uint (u64 v) 16 ;; vprintf n fuel (p + 2) args)
  else if d =? ch_s then va args (λ v args, puts_from n v ;; vprintf n fuel (p + 2) args)
  else if d =? ch_c then va args (λ v args, putc (swrap 8 v) ;; vprintf n fuel (p + 2) args)
  else if d =? ch_percent then putc ch_percent ;; vprintf n fuel (p + 2) args
  else putc ch_percent ;; putc d ;; vprintf n fuel (p + 2) args
  end.
End vprintf.

(* src/include/kernel/console.c 220-226 console_printf *)
Definition console_vprintf := vprintf console_write_uint.

(* src/include/kernel/console.c 126-130 console_puts *)
Definition console_puts (fuel : nat) (s : Z) : M St unit := puts_from fuel s.

(* src/drivers/serial.c 88-154 serial_vprintf *)
Definition serial_vprintf := vprintf serial_write_uint.

(* src/drivers/serial.c 80-86 serial_write_int *)
Definition serial_write_int := write_int serial_write_uint.

(* src/drivers/serial.c 54-58 serial_write *)
Definition serial_write (fuel : nat) (s : Z) : M St unit := puts_from fuel s.

(** Eight digits of a 32-bit number, [val >> 28] first. *)
Fixpoint hex_buf (i : nat) (val : Z) (buf : list Z) : list Z :=
  match i with
  | O => buf
  | S i => hex_buf i (val .>> 4) (digit_char (val .& 0xF) :: buf)
  end.

(* src/drivers/serial.c 156-169 serial_write_hex *)
Definition serial_write_hex (fuel : nat) (prefix val : Z) : M St unit :=
  serial_write fuel prefix ;;
  emit [ch_0; ch_x] ;;
  emit (hex_buf 8 val []) ;;
  emit [10].
End format.

(** * The theorems about formatted output *)

(** ** Numerals *)

(** The digits of [v] in base [b], least significant first. *)
Fixpoint digits (n : nat) (b v : Z) : list Z :=
  match n with
  | O => []
  | S n => if v =? 0 then [] else v mod b :: digits n b (v / b)
  end.

(** The numeral of a 64-bit number. *)
Definition numeral (b v : Z) : list Z :=
  if v =? 0 then [ch_0] else digit_char <$> reverse (digits 64 b v).

Lemma digits_value n b v :
  2 ≤ b → 0 ≤ v < b ^ Z.of_nat n →
  foldr (λ d acc, d + b * acc) 0 (digits n b v) = v ∧ Forall (λ d, 0 ≤ d < b) (digits n b v).
Proof.
  intros Hb. revert v. induction n as [|n IH]; intros v Hv; cbn [digits].
  { change (b ^ Z.of_nat 0) with 1 in Hv. cbn. split; [lia|constructor]. }
  rewrite Nat2Z.inj_succ, Z.pow_succ_r in Hv by lia.
  pose proof (Z.div_mod v b ltac:(lia)). pose proof (Z.mod_pos_bound v b ltac:(lia)).
  destruct (Z.eqb_spec v 0) as [->|Hz]; [by split; [|constructor]|].
  destruct (IH (v / b)) as [Hval Hd].
  { split; [apply Z.div_pos; lia|]. apply Z.div_lt_upper_bound; lia. }
  cbn [foldr]. rewrite Hval. split; [lia|]. constructor; [lia|done].
Qed.

Lemma digits_length n k b v : 2 ≤ b → 0 ≤ v < b ^ Z.of_nat k → (length (digits n b v) ≤ k)%nat.
Proof.
  intros Hb. revert k v. induction n as [|n IH]; intros k v Hv; cbn [digits]; [simpl; lia|].
  destruct (Z.eqb_spec v 0) as [->|Hz]; [simpl; lia|]. destruct k as [|k].
  { change (b ^ Z.of_nat 0) with 1 in Hv. lia. }
  rewrite Nat2Z.inj_succ, Z.pow_succ_r in Hv by lia. cbn [length].
  assert (length (digits n b (v / b)) ≤ k)%nat; [|lia].
  apply IH. split; [apply Z.div_pos; lia|]. apply Z.div_lt_upper_bound; lia.
Qed.

Lemma pow64 b : 2 ≤ b → 2 ^ 64 ≤ b ^ Z.of_nat 64.
Proof. intros Hb. apply Z.pow_le_mono_l. lia. Qed.

Section numbers.
Context {St : Type} `{SK : Sink St}.

Lemma fill_back_digits i val base buf :
  fill_back i val base buf = (digit_char <$> reverse (digits i base val)) ++ buf.
Proof.
  revert val buf. induction i as [|i IH]; intros val buf; cbn [fill_back digits]; [done|].
  destruct (val =? 0); [done|]. rewrite IH, reverse_cons, fmap_app, <- app_assoc. done.
Qed.

Lemma fill_buf_digits fuel cap val base buf (s : St) :
  2 ≤ base → 0 ≤ val < base ^ Z.of_nat fuel →
  (length (digits fuel base val) + length buf ≤ cap)%nat →
  fill_buf fuel cap val base buf s = Ok ((digit_char <$> reverse (digits fuel base val)) ++ buf, s).
Proof.
  intros Hb. revert val buf. induction fuel as [|fuel IH]; intros val buf Hv Hl; cbn [fill_buf digits] in *.
  { change (base ^ Z.of_nat 0) with 1 in Hv. by rewrite (proj2 (Z.eqb_eq val 0)) by lia. }
  destruct (Z.eqb_spec val 0) as [->|Hz]; [done|]. cbn [length] in Hl.
  rewrite (proj2 (Nat.leb_gt cap (length buf))) by lia.
  rewrite Nat2Z.inj_succ, Z.pow_succ_r in Hv by lia.
  rewrite IH; [|split; [apply Z.div_pos; lia|apply Z.div_lt_upper_bound; lia]|cbn [length]; lia].
  by rewrite reverse_cons, fmap_app, <- app_assoc.
Qed.

Lemma emit_single c (s : St) : emit [c] s = putc c s.
Proof. unfold emit, mbind, M_bind, mret, M_ret. by destruct (putc c s) as [[[] ?]| | | |]. Qed.

(** The two number printers, when the buffer of the first is large enough. *)
Lemma console_write_uint_numeral base val (s : St) :
  2 ≤ base → 0 ≤ val < 2 ^ 64 → 2 ^ 64 ≤ base ^ 21 →
  console_write_uint val base s = emit (numeral base val) s.
Proof.
  intros Hb Hv Hc. unfold console_write_uint, numeral. pose proof (pow64 base Hb).
  destruct (Z.eqb_spec val 0); [by rewrite emit_single|].
  erewrite M_bind_Ok; [|apply fill_buf_digits; [done|lia|]].
  - by rewrite app_nil_r.
  - pose proof (digits_length 64 21 base val Hb ltac:(change (Z.of_nat 21) with 21; lia)). simpl length at 2. lia.
Qed.

Lemma serial_write_uint_numeral base val (s : St) :
  serial_write_uint val base s = emit (numeral base val) s.
Proof.
  unfold serial_write_uint, numeral. destruct (val =? 0); [by rewrite emit_single|].
  by rewrite fill_back_digits, app_nil_r.
Qed.

(** The console and the serial port print a 64-bit number as the same numeral in
    base 10 and 16 -- the one whose value is the number -- and the console's
    21-character buffer never overflows. *)
Theorem write_uint_correct base val (s : St) :
  base = 10 ∨ base = 16 → 0 ≤ val < 2 ^ 64 →
  ∃ ds, value base ds = val ∧ Forall (λ d, 0 ≤ d < base) ds ∧
    console_write_uint val base s = emit (digit_char <$> ds) s ∧
    serial_write_uint val base s = emit (digit_char <$> ds) s.
Proof.
  intros Hb Hv. assert (2 ≤ base) as Hb2 by lia. pose proof (pow64 base Hb2).
  assert (2 ^ 64 ≤ base ^ 21) by (destruct Hb as [-> | ->]; lia).
  destruct (digits_value 64 base val Hb2 ltac:(lia)) as [Hval Hd].
  assert (∃ ds, value base ds = val ∧ Forall (λ d, 0 ≤ d < base) ds ∧ numeral base val = digit_char <$> ds)
    as (ds & ? & ? & E).
  { unfold numeral. destruct (Z.eqb_spec val 0) as [->|].
    - exists [0]. split; [unfold value; simpl; lia|]. split; [repeat constructor; lia|done].
    - exists (reverse (digits 64 base val)). unfold value. rewrite reverse_involutive.
      split; [done|]. split; [by apply Forall_reverse|done]. }
  exists ds. rewrite console_write_uint_numeral, serial_write_uint_numeral, E by done. done.
Qed.
End numbers.

(** ** Format strings *)

Section text.
Context {St : Type} `{SK : Sink St}.
Context (rom : gmap Z Z).

(** The string of (signed) characters [l] at [p]. *)
Fixpoint text_at (p : Z) (l : list Z) : Prop :=
  match l with
  | [] => rom !! p = Some 0
  | c :: l => c ≠ 0 ∧ (∃ b, rom !! p = Some b ∧ swrap 8 b = c) ∧ text_at (p + 1) l
  end.

(** A signed numeral. *)
Definition int_numeral (v : Z) : list Z :=
  if v <? 0 then ch_minus :: numeral 10 (- v) else numeral 10 v.

(** What a format with its arguments stands for; strings have at most [n] characters. *)
Inductive renders (n : nat) : list Z → list Z → list Z → Prop :=
  | r_end args : renders n [] args []
  | r_char c fmt args out :
      c ≠ ch_percent → renders n fmt args out → renders n (c :: fmt) args (c :: out)
  | r_d v fmt args out :
      renders n fmt args out → renders n (ch_percent :: ch_d :: fmt) (v :: args) (int_numeral (s32 v) ++ out)
  | r_u v fmt args out :
      renders n fmt args out → renders n (ch_percent :: ch_u :: fmt) (v :: args) (numeral 10 (u32 v) ++ out)
  | r_x v fmt args out :
      renders n fmt args out → renders n (ch_percent :: ch_x :: fmt) (v :: args) (numeral 16 (u32 v) ++ out)
  | r_ld v fmt args out :
      renders n fmt args out → renders n (ch_percent :: ch_l :: ch_d :: fmt) (v :: args) (int_numeral (s64 v) ++ out)
  | r_lu v fmt args out :
      renders n fmt args out → renders n (ch_percent :: ch_l :: ch_u :: fmt) (v :: args) (numeral 10 (u64 v) ++ out)
  | r_lx v fmt args out :
      renders n fmt args out → renders n (ch_percent :: ch_l :: ch_x :: fmt) (v :: args) (numeral 16 (u64 v) ++ out)
  | r_p v fmt args out :
      renders n fmt args out → renders n (ch_percent :: ch_p :: fmt) (v :: args) ([ch_0; ch_x] ++ numeral 16 (u64 v) ++ out)
  | r_s q str fmt args out :
      text_at q str → (length str ≤ n)%nat → renders n fmt args out →
      renders n (ch_percent :: ch_s :: fmt) (q :: args) (str ++ out)
  | r_c v fmt args out :
      renders n fmt args out → renders n (ch_percent :: ch_c :: fmt) (v :: args) (swrap 8 v :: out)
  | r_percent fmt args out :
      renders n fmt args out → renders n (ch_percent :: ch_percent :: fmt) args (ch_percent :: out).

Lemma bind_ext {A B} (m m' : M St A) (k k' : A → M St B) s :
  m s = m' s → (∀ a s, k a s = k' a s) → (m ≫= k) s = (m' ≫= k') s.
Proof. unfold mbind, M_bind. intros -> Hk. destruct (m' s) as [[a s']| | | |]; auto. Qed.

Lemma emit_app l l' s : emit (l ++ l') s = (emit l ;; emit l') s.
Proof.
  revert s. induction l as [|c l IH]; intros s; cbn [emit app]; [done|].
  rewrite M_bind_assoc. by apply bind_ext.
Qed.

Lemma ldr_char p c l : text_at p (c :: l) → ∀ s : St, ldr rom p s = Ok (c, s).
Proof. intros (_ & (b & Hb & <-) & _) s. unfold ldr. by rewrite Hb. Qed.

Lemma ldr_end p : text_at p [] → ∀ s : St, ldr rom p s = Ok (0, s).
Proof. intros H s. cbn in H. unfold ldr. by rewrite H. Qed.

Lemma puts_from_ok n p str s :
  text_at p str → (length str ≤ n)%nat → puts_from rom n p s = emit str s.
Proof.
  revert n p s. induction str as [|c str IH]; intros n p s Ht Hn.
  - destruct n; cbn [puts_from]; by erewrite M_bind_Ok by (by apply ldr_end).
  - destruct n as [|n]; [simpl in Hn; lia|]. cbn [puts_from emit].
    erewrite M_bind_Ok by (by eapply ldr_char). destruct Ht as (Hc & _ & Ht).
    rewrite (proj2 (Z.eqb_neq c 0) Hc). apply bind_ext; [done|]. intros _ s'. apply IH; [done|simpl in Hn; lia].
Qed.

(** The numbers are printed as their numerals. *)
Context (write_uint : Z → Z → M St unit).
Hypothesis write_uint_ok : ∀ v b s,
  b = 10 ∨ b = 16 → 0 ≤ v < 2 ^ 64 → write_uint v b s = emit (numeral b v) s.

Lemma write_int_ok v s :
  - 2 ^ 63 ≤ v < 2 ^ 63 → write_int write_uint v s = emit (int_numeral v) s.
Proof using write_uint_ok.
  intros Hv. unfold write_int, int_numeral. destruct (Z.ltb_spec v 0).
  - cbn [emit]. apply bind_ext; [done|]. intros _ s'.
    assert (u64 (s64 (- v)) = - v) as ->.
    { unfold swrap. destruct (decide (v = - 2 ^ 63)) as [->|]; [done|].
      rewrite (Z.mod_small (- v + 2 ^ (64 - 1))) by lia. rewrite wrap_small; lia. }
    apply write_uint_ok; [by left|lia].
  - rewrite wrap_small by lia. apply write_uint_ok; [by left|lia].
Qed.

(** Read the directive at [p]: two or three characters of the format. *)
Ltac directive Ht :=
  cbn [vprintf]; erewrite M_bind_Ok by (eapply ldr_char; exact Ht);
  destruct Ht as (_ & _ & Ht); cbn [Z.eqb Pos.eqb negb];
  erewrite M_bind_Ok by (eapply ldr_char; exact Ht);
  destruct Ht as (_ & _ & Ht); rewrite <- Z.add_assoc in Ht; change (1 + 1) with 2 in Ht;
  cbn [Z.eqb Pos.eqb negb].
Ltac directive3 Ht :=
  directive Ht; erewrite M_bind_Ok by (eapply ldr_char; exact Ht);
  destruct Ht as (_ & _ & Ht); rewrite <- Z.add_assoc in Ht; change (2 + 1) with 3 in Ht;
  cbn [Z.eqb Pos.eqb negb].

Lemma vprintf_ok n fmt args out :
  renders n fmt args out → ∀ fuel p s, text_at p fmt → (length fmt ≤ fuel)%nat →
  vprintf rom write_uint n fuel p args s = emit out s.
Proof using write_uint_ok.
  assert (∀ v, 0 ≤ u64 v < 2 ^ 64) as H64 by (intros; apply wrap_bound; lia).
  assert (∀ v, 0 ≤ u32 v < 2 ^ 64) as H32 by (intros v; pose proof (wrap_bound 32 v ltac:(lia)); lia).
  assert (∀ v, - 2 ^ 63 ≤ s64 v < 2 ^ 63) as Hs64 by (intros; apply (swrap_bound 64); lia).
  assert (∀ v, - 2 ^ 63 ≤ s32 v < 2 ^ 63) as Hs32 by (intros v; pose proof (swrap_bound 32 v ltac:(lia)); lia).
  induction 1 as [args|c fmt args out Hc _ IH|v fmt args out _ IH|v fmt args out _ IH|v fmt args out _ IH
    |v fmt args out _ IH|v fmt args out _ IH|v fmt args out _ IH|v fmt args out _ IH
    |q str fmt args out Hq Hl _ IH|v fmt args out _ IH|fmt args out _ IH];
    intros fuel p s Ht Hf; cbn [length] in Hf.
  { destruct fuel; cbn [vprintf]; by erewrite M_bind_Ok by (by apply ldr_end). }
  all: destruct fuel as [|fuel]; [lia|].
  { cbn [vprintf emit]. erewrite M_bind_Ok by (eapply ldr_char; exact Ht). destruct Ht as (Hc0 & _ & Ht).
    rewrite (proj2 (Z.eqb_neq c 0) Hc0), (proj2 (Z.eqb_neq c ch_percent) Hc). cbn [negb].
    apply bind_ext; [done|]. intros [] s'. apply IH; [done|lia]. }
  4-6: directive3 Ht.
  all: try directive Ht.
  all: cbn [va]; rewrite ?emit_app.
  all: try (apply bind_ext; [first [by apply write_int_ok | by apply write_uint_ok; auto | by apply puts_from_ok | done]
    |intros [] s'; apply IH; [done|lia]]).
  apply bind_ext; [done|]. intros [] s'. rewrite emit_app.
  apply bind_ext; [by apply write_uint_ok; auto|]. intros [] s''. apply IH; [done|lia].
Qed.
End text.

(** Both printers, on a format that stands for [out]. *)
Lemma vprintf_both {St} `{SK : Sink St} rom n fuel p fmt args out (s : St) :
  renders rom n fmt args out → text_at rom p fmt → (length fmt ≤ fuel)%nat →
  console_vprintf rom n fuel p args s = emit out s ∧ serial_vprintf rom n fuel p args s = emit out s.
Proof.
  intros Hr Ht Hf. split.
  - apply (vprintf_ok rom console_write_uint) with (fmt := fmt); [|done..].
    intros v b s' Hb Hv. apply console_write_uint_numeral; [lia|lia|]. destruct Hb as [-> | ->]; lia.
  - apply (vprintf_ok rom serial_write_uint) with (fmt := fmt); [|done..].
    intros v b s' Hb Hv. apply serial_write_uint_numeral.
Qed.

(** [console_vprintf] and [serial_vprintf] print the text the format stands for,
    character by character: for every format built from plain characters and the
    directives %d %u %x %ld %lu %lx %p %s %c %% whose arguments are supplied, whatever
    the device. *)
Theorem vprintf_correct {St} `{SK : Sink St} rom n fuel p fmt args out (s : St) :
  renders rom n fmt args out → text_at rom p fmt → (length fmt ≤ fuel)%nat →
  console_vprintf rom n fuel p args s = emit out s ∧ serial_vprintf rom n fuel p args s = emit out s.
Proof. apply vprintf_both. Qed.

(** A format that ends in a single '%' is read past its terminator: both printers
    print '%' and the terminator as a character and go on with the byte after it. *)
Theorem vprintf_overruns {St} `{SK : Sink St} rom n fuel p args (s : St) :
  rom !! p = Some ch_percent → rom !! (p + 1) = Some 0 →
  console_vprintf rom n (S fuel) p args s =
    (putc ch_percent ;; putc 0 ;; console_vprintf rom n fuel (p + 2) args) s.
Proof.
  intros H0 H1. unfold console_vprintf at 1. cbn [vprintf].
  erewrite M_bind_Ok by (unfold ldr; by rewrite H0). cbn [Z.eqb Pos.eqb negb swrap].
  change (swrap 8 ch_percent) with ch_percent. cbn [Z.eqb Pos.eqb negb].
  erewrite M_bind_Ok by (unfold ldr; by rewrite H1). done.
Qed.

(** ** A concrete device: the characters written, last first *)

Module Log.
Definition sink : Sink (list Z) := λ c, modify (cons c).
Definition rom : gmap Z Z := bytes_at 100 [110; 61; 37; 100; 10; 0; 37; 0; 104; 105; 0].
End Log.

Section witnesses.
#[local] Existing Instance Log.sink.

Lemma write_uint_correct_witness :
  console_write_uint 255 16 [] = Ok (tt, [102; 102]) ∧ serial_write_uint 255 16 [] = Ok (tt, [102; 102]).
Proof.
  destruct (write_uint_correct 16 255 ([] : list Z) ltac:(by right) ltac:(lia)) as (ds & _ & _ & E1 & E2).
  split; [vm_compute; reflexivity|]. rewrite E2, <- E1. vm_compute. reflexivity.
Defined.

Lemma vprintf_correct_witness :
  console_vprintf Log.rom 0 5 100 [2 ^ 32 - 7] [] = Ok (tt, [10; 55; 45; 61; 110]).
Proof.
  refine (eq_trans (proj1 (vprintf_correct Log.rom 0 5 100 [110; 61; 37; 100; 10] [2 ^ 32 - 7]
    ([110; 61] ++ int_numeral (s32 (2 ^ 32 - 7)) ++ [10]) [] _ _ _)) _).
  - do 2 (apply r_char; [done|]). apply r_d. apply r_char; [done|]. apply r_end.
  - do 5 (split; [done|split; [by eexists; split; vm_compute; reflexivity|]]). by vm_compute.
  - simpl. lia.
  - vm_compute. reflexivity.
Defined.

Lemma vprintf_overruns_witness :
  console_vprintf Log.rom 0 3 106 [] [] = Ok (tt, [105; 104; 0; 37]).
Proof. rewrite (vprintf_overruns Log.rom 0 2 106 [] []); vm_compute; reflexivity. Defined.
End witnesses.
