(* ===== verification/Gfx.v ===== *)
(** * Graphics and fonts ([drivers/graphics.c], [kernel/fonts/font.c])

    The framebuffer and the backbuffer as arrays of 32-bit pixels; a store outside
    them faults. *)

From S2P Require Import Prelude Loops.

(* src/include/kernel/graphics.h 20-23 gfx_target *)
Inductive gfx_target := GFX_TARGET_BACKBUFFER | GFX_TARGET_FRAMEBUFFER.

#[export] Instance gfx_target_eq_dec : EqDecision gfx_target.
Proof. solve_decision. Defined.

(** [fb], [backbuffer], [screen_size] and [target]; the pixels are indexed from the
    start of their buffer. *)
(* src/include/kernel/graphics.h 6-12 gfx_framebuffer_t *)
Record gfx := Gfx {
  g_pitch : Z; g_width : Z; g_height : Z;
  g_fb : gmap Z Z; g_back : gmap Z Z;
  g_target : gfx_target; g_size : Z;
}.

Definition set_fb (px : gmap Z Z) (g : gfx) : gfx :=
  Gfx (g_pitch g) (g_width g) (g_height g) px (g_back g) (g_target g) (g_size g).
Definition set_back (px : gmap Z Z) (g : gfx) : gfx :=
  Gfx (g_pitch g) (g_width g) (g_height g) (g_fb g) px (g_target g) (g_size g).
Definition set_target (t : gfx_target) (g : gfx) : gfx :=
  Gfx (g_pitch g) (g_width g) (g_height g) (g_fb g) (g_back g) t (g_size g).

(* src/drivers/graphics.c 17-19 gfx_set_target *)
Definition gfx_set_target (t : gfx_target) : M gfx unit := modify (set_target t).

(* src/drivers/graphics.c 20-22 gfx_get_target *)
Definition gfx_get_target : M gfx gfx_target := gets g_target.

(* src/drivers/graphics.c 24-26 draw_buffer *)
Definition draw_buffer (g : gfx) : gmap Z Z :=
  match g_target g with GFX_TARGET_FRAMEBUFFER => g_fb g | GFX_TARGET_BACKBUFFER => g_back g end.
Definition set_draw (px : gmap Z Z) (g : gfx) : gfx :=
  match g_target g with GFX_TARGET_FRAMEBUFFER => set_fb px g | GFX_TARGET_BACKBUFFER => set_back px g end.

(** [draw_buffer()[i] = val], and the same on the framebuffer. *)
Definition st_draw (i val : Z) : M gfx unit := λ g,
  match draw_buffer g !! i with Some _ => Ok (tt, set_draw (<[i := val]> (draw_buffer g)) g) | None => Fault i end.
Definition st_fb (i val : Z) : M gfx unit := λ g,
  match g_fb g !! i with Some _ => Ok (tt, set_fb (<[i := val]> (g_fb g)) g) | None => Fault i end.
Definition ld_fb (i : Z) : M gfx Z := λ g,
  match g_fb g !! i with Some v => Ok (v, g) | None => Fault i end.
Definition ld_back (i : Z) : M gfx Z := λ g,
  match g_back g !! i with Some v => Ok (v, g) | None => Fault i end.

(** A buffer of [n] pixels of value 0. *)
Definition blank (n : Z) : gmap Z Z := list_to_map ((λ i, (i, 0)) <$> seqZ 0 n).

(** The framebuffer passed in is [px]; the backbuffer is allocated and cleared. *)
(* src/drivers/graphics.c 28-35 gfx_init *)
Definition gfx_init (pitch width height : Z) (px : gmap Z Z) : M gfx unit :=
  let size := u32 (pitch * height) in
  modify (λ g, Gfx pitch width height px (blank (size / 4)) (g_target g) size).

(* src/drivers/graphics.c 37-39 rgb *)
Definition rgb (r g b : Z) : Z := (u8 r .<< 16) .| (u8 g .<< 8) .| u8 b.

(* src/drivers/graphics.c 41-46 gfx_put_pixel *)
Definition gfx_put_pixel (x y val : Z) : M gfx unit :=
  g ← get;
  if (g_width g <=? u32 x) || (g_height g <=? u32 y) then mret tt
  else st_draw (u32 (u32 y * (g_pitch g / 4) + u32 x)) val.

(* src/drivers/graphics.c 57-62 gfx_render *)
Definition gfx_render : M gfx unit :=
  g ← get;
  match g_target g with
  | GFX_TARGET_FRAMEBUFFER => mret tt
  | GFX_TARGET_BACKBUFFER => for_up (Z.to_nat (g_size g / 4)) 0 (λ i, v ← ld_back i; st_fb i v)
  end.

(* src/drivers/graphics.c 64-90 gfx_fill_rect *)
Definition gfx_fill_rect (x0 y0 x1 y1 val : Z) : M gfx unit :=
  g ← get;
  let x0 := if x0 <? 0 then 0 else x0 in
  let y0 := if y0 <? 0 then 0 else y0 in
  let x1 := if s32 (g_width g) <=? x1 then s32 (g_width g) - 1 else x1 in
  let y1 := if s32 (g_height g) <=? y1 then s32 (g_height g) - 1 else y1 in
  if (x1 <? x0) || (y1 <? y0) then mret tt else
  let stride := g_pitch g / 4 in
  for_up (Z.to_nat (y1 - y0 + 1)) y0 (λ y,
    for_up (Z.to_nat (x1 - x0 + 1)) x0 (λ x, st_draw (u32 (y * stride) + x) val)).

(* src/drivers/graphics.c 92-101 gfx_clear_screen *)
Definition gfx_clear_screen : M gfx unit :=
  g ← get;
  for_up (Z.to_nat (g_size g / 4)) 0 (λ i, st_draw i 0).

(** ** Fonts *)

(** [GlyphWidth] is the table of widths, or null. *)
(* src/kernel/fonts/fontlibrary.c 2102-2111 fontStyle_t *)
Record fontStyle := FontStyle {
  GlyphCount : Z; FirstAsciiCode : Z; GlyphBytesWidth : Z; GlyphHeight : Z; FixedWidth : Z;
  GlyphWidth : option (list Z); GlyphBitmaps : list Z;
}.

Definition width_at (font : fontStyle) (i : Z) : M gfx Z :=
  match GlyphWidth font ≫= (.!! Z.to_nat i) with Some w => mret w | None => fault i end.

Definition bitmap_at (font : fontStyle) (i : Z) : M gfx Z :=
  match GlyphBitmaps font !! Z.to_nat i with Some b => mret b | None => fault i end.

(* src/kernel/fonts/font.c 7-35 font_draw_char *)
Definition font_draw_char (font : fontStyle) (c x y color : Z) : M gfx Z :=
  let code := u8 c in
  if (code <? FirstAsciiCode font) || (FirstAsciiCode font + GlyphCount font <=? code) then
    if nz (FixedWidth font) then mret (FixedWidth font)
    else match GlyphWidth font with Some _ => width_at font 0 | None => mret 0 end
  else
  let idx := u8 (code - FirstAsciiCode font) in
  adv ← (if nz (FixedWidth font) then mret (FixedWidth font) else width_at font idx);
  let glyph_size := u32 (GlyphBytesWidth font * GlyphHeight font) in
  let bmp := u32 (idx * glyph_size) in
  for_up (Z.to_nat (GlyphHeight font)) 0 (λ row,
    let row_data := bmp + row * GlyphBytesWidth font in
    for_up (Z.to_nat (GlyphBytesWidth font * 8)) 0 (λ col,
      b ← bitmap_at font (row_data + (col .>> 3));
      when (nz (b .& (0x80 .>> (col .& 7)))) (gfx_put_pixel (x + col) (y + row) color))) ;;
  mret adv.

(** [s] is the string up to its terminator. *)
(* src/kernel/fonts/font.c 37-43 font_draw_string *)
Fixpoint font_draw_string (font : fontStyle) (s : list Z) (x y color : Z) : M gfx unit :=
  match s with
  | [] => mret tt
  | c :: s =>
      adv ← font_draw_char font c x y color;
      font_draw_string font s (x + adv) y color
  end.
