(* ===== verification/Console.v ===== *)
(** * The text console ([include/kernel/console.c])

    Cursor, colours and cell grid over the graphics of [Gfx]. *)

From S2P Require Import Prelude Loops Format Gfx.

Record con := Con {
  c_fg : Z; c_bg : Z; c_col : Z; c_row : Z; c_max_cols : Z; c_max_rows : Z;
  c_cell_w : Z; c_cell_h : Z; c_screen_w : Z; c_screen_h : Z;
}.

Record console := Console { c_gfx : gfx; c_con : con; c_if : bool }.

Definition set_cursor (col row : Z) (s : console) : console :=
  let c := c_con s in
  Console (c_gfx s) (Con (c_fg c) (c_bg c) col row (c_max_cols c) (c_max_rows c)
    (c_cell_w c) (c_cell_h c) (c_screen_w c) (c_screen_h c)) (c_if s).
Definition set_colors (fg bg : Z) (s : console) : console :=
  let c := c_con s in
  Console (c_gfx s) (Con fg bg (c_col c) (c_row c) (c_max_cols c) (c_max_rows c)
    (c_cell_w c) (c_cell_h c) (c_screen_w c) (c_screen_h c)) (c_if s).
Definition set_intr (b : bool) (s : console) : console := Console (c_gfx s) (c_con s) b.

(** Graphics operations on the console's screen. *)
Definition gfx_op {A} (m : M gfx A) : M console A := λ s,
  match m (c_gfx s) with
  | Ok (a, g) => Ok (a, Console g (c_con s) (c_if s))
  | Panic msg => Panic msg
  | Halt => Halt
  | Fault a => Fault a
  | OutOfFuel => OutOfFuel
  end.

Section console.
(** [console_font] *)
Context (font : fontStyle).

(* src/include/kernel/console.c 22-44 console_init *)
Definition console_init : M console unit :=
  gfx_op (gfx_set_target GFX_TARGET_FRAMEBUFFER) ;;
  cell_w ← (if nz (FixedWidth font) then mret (FixedWidth font) else gfx_op (width_at font 0));
  modify (λ s,
    let w := g_width (c_gfx s) in
    let h := g_height (c_gfx s) in
    Console (c_gfx s) (Con (rgb 0xCC 0xCC 0xCC) (rgb 0x00 0x00 0x00) 0 0
      (w / cell_w) (h / GlyphHeight font) cell_w (GlyphHeight font) w h) (c_if s)).

(* src/include/kernel/console.c 46-67 scroll_up *)
Definition scroll_up : M console unit :=
  s ← get;
  let c := c_con s in
  let stride := g_pitch (c_gfx s) / 4 in
  let row_pixels := u32 (c_cell_h c * stride) in
  let copy_count := u32 (stride * u32 (c_screen_h c - c_cell_h c)) in
  gfx_op (for_up (Z.to_nat copy_count) 0 (λ i, v ← ld_fb (row_pixels + i); st_fb i v)) ;;
  let last := u32 (stride * u32 (c_screen_h c - c_cell_h c)) in
  gfx_op (for_up (Z.to_nat row_pixels) 0 (λ i, st_fb (last + i) (c_bg c))) ;;
  modify (λ s, set_cursor (c_col (c_con s)) (c_max_rows (c_con s) - 1) s).

(* src/include/kernel/console.c 69-75 newline *)
Definition newline : M console unit :=
  modify (λ s, set_cursor 0 (c_row (c_con s) + 1) s) ;;
  s ← get;
  when (c_max_rows (c_con s) <=? c_row (c_con s)) scroll_up.

(** The pixels of the cell under the cursor. *)
(* src/include/kernel/console.c 120-123 console_backspace *)
Definition clear_cell : M console unit :=
  s ← get;
  let c := c_con s in
  let px := c_col c * c_cell_w c in
  let py := c_row c * c_cell_h c in
  gfx_op (gfx_fill_rect px py (px + c_cell_w c - 1) (py + c_cell_h c - 1) (c_bg c)).

(* src/include/kernel/console.c 95-104 console_putchar *)
Definition put_glyph (ch : Z) : M console unit :=
  s ← get;
  when (c_max_cols (c_con s) <=? c_col (c_con s)) newline ;;
  clear_cell ;;
  s ← get;
  let c := c_con s in
  gfx_op (font_draw_char font ch (c_col c * c_cell_w c) (c_row c * c_cell_h c) (c_fg c)) ;;
  modify (λ s, set_cursor (c_col (c_con s) + 1) (c_row (c_con s)) s).

(* src/include/kernel/console.c 77-108 console_putchar *)
Definition console_putchar (ch : Z) : M console unit :=
  flags ← gets c_if;
  modify (set_intr false) ;;
  (if ch =? 10 then newline
   else if ch =? 9 then
     modify (λ s, set_cursor (Z.land (c_col (c_con s) + 4) (Z.lnot 3)) (c_row (c_con s)) s) ;;
     s ← get;
     when (c_max_cols (c_con s) <=? c_col (c_con s)) newline
   else put_glyph ch) ;;
  when flags (modify (set_intr true)).

#[global] Instance console_sink : Sink console := console_putchar.

(* src/include/kernel/console.c 110-124 console_backspace *)
Definition console_backspace : M console unit :=
  s ← get;
  let c := c_con s in
  if c_col c =? 0 then
    if c_row c =? 0 then mret tt
    else modify (set_cursor (c_max_cols c - 1) (c_row c - 1)) ;; clear_cell
  else modify (set_cursor (c_col c - 1) (c_row c)) ;; clear_cell.

(* src/include/kernel/console.c 228-230 console_set_fg *)
Definition console_set_fg (color : Z) : M console unit :=
  modify (λ s, set_colors color (c_bg (c_con s)) s).

(* src/include/kernel/console.c 231-233 console_set_bg *)
Definition console_set_bg (color : Z) : M console unit :=
  modify (λ s, set_colors (c_fg (c_con s)) color s).

(* src/include/kernel/console.c 235-239 console_clear *)
Definition console_clear : M console unit :=
  gfx_op gfx_clear_screen ;;
  modify (set_cursor 0 0).
End console.
