(* ===== verification/ConsoleProps.v ===== *)
(** * The theorems about the screen and the console *)

From S2P Require Import Prelude Loops CString Format Gfx Console.

(** ** Screens *)

(** The pixels of a buffer with the dimensions of [g]: all there, and no others. *)
Definition full (n : Z) (px : gmap Z Z) : Prop := ∀ i, is_Some (px !! i) ↔ 0 ≤ i < n.

Record screen_ok (g : gfx) : Prop := {
  so_width : 0 < g_width g ≤ g_pitch g / 4;
  so_height : 0 < g_height g;
  so_int : g_width g < 2 ^ 31 ∧ g_height g < 2 ^ 31;
  so_size : g_pitch g / 4 * g_height g < 2 ^ 32;
  so_bytes : g_size g / 4 = g_pitch g / 4 * g_height g;
  so_fb : full (g_pitch g / 4 * g_height g) (g_fb g);
  so_back : full (g_pitch g / 4 * g_height g) (g_back g);
}.

(** What drawing leaves alone. *)
Definition dims (g : gfx) : Z * Z * Z * Z * gfx_target :=
  (g_pitch g, g_width g, g_height g, g_size g, g_target g).

(** Drawing that never leaves the buffers, on a screen with dimensions [d]. *)
Definition safe {A} d (m : M gfx A) : Prop :=
  ∀ g, screen_ok g → dims g = d → wp m (λ _ g', screen_ok g' ∧ dims g' = d) g.

Lemma full_insert n px i v : full n px → 0 ≤ i < n → full n (<[i := v]> px).
Proof.
  intros Hf Hi j. destruct (decide (j = i)) as [->|Hne].
  - rewrite lookup_insert_eq. split; eauto.
  - rewrite lookup_insert_ne by done. apply Hf.
Qed.

Lemma blank_full n : full n (blank n).
Proof.
  intros i. unfold blank. rewrite <- elem_of_dom, dom_list_to_map, elem_of_list_to_set.
  rewrite <- list_fmap_compose, list_elem_of_fmap. split.
  - intros (j & -> & Hj%elem_of_seqZ). cbn. lia.
  - intros Hi. exists i. split; [done|]. apply elem_of_seqZ. lia.
Qed.

Lemma draw_full g : screen_ok g → full (g_pitch g / 4 * g_height g) (draw_buffer g).
Proof. intros Hs. unfold draw_buffer. destruct (g_target g); apply Hs. Qed.

(** One pixel written. *)
Lemma st_draw_ok g i v :
  screen_ok g → 0 ≤ i < g_pitch g / 4 * g_height g →
  wp (st_draw i v) (λ _ g', screen_ok g' ∧ dims g' = dims g ∧ g' = set_draw (<[i := v]> (draw_buffer g)) g) g.
Proof.
  intros Hs Hi. unfold wp, st_draw. destruct (proj2 (draw_full g Hs i) Hi) as [x ->].
  split; [|split; [|done]].
  - pose proof (full_insert _ _ i v (draw_full g Hs) Hi) as Hf. destruct Hs.
    unfold set_draw, draw_buffer in *. destruct (g_target g); by split.
  - unfold set_draw. by destruct (g_target g) eqn:E; unfold dims; cbn; rewrite E.
Qed.

Lemma st_fb_ok g i v :
  screen_ok g → 0 ≤ i < g_pitch g / 4 * g_height g →
  wp (st_fb i v) (λ _ g', screen_ok g' ∧ dims g' = dims g ∧ g' = set_fb (<[i := v]> (g_fb g)) g) g.
Proof.
  intros Hs Hi. unfold wp, st_fb. destruct (proj2 (so_fb g Hs i) Hi) as [x ->].
  split; [|done]. pose proof (full_insert _ _ i v (so_fb g Hs) Hi) as Hf. destruct Hs. by split.
Qed.

Section safe.
Context (d : Z * Z * Z * Z * gfx_target).

Lemma safe_ret {A} (a : A) : safe d (mret a).
Proof. intros g Hs Hd. by apply wp_ret. Qed.

Lemma safe_bind {A B} (m : M gfx A) (k : A → M gfx B) : safe d m → (∀ a, safe d (k a)) → safe d (m ≫= k).
Proof. intros Hm Hk g Hs Hd. eapply wp_bind_mono; [by apply Hm|]. intros a g' [??]. by apply Hk. Qed.

Lemma safe_get {A} (k : gfx → M gfx A) :
  (∀ g, screen_ok g → dims g = d → safe d (k g)) → safe d (g ← get; k g).
Proof. intros Hk g Hs Hd. by apply (Hk g). Qed.

Lemma safe_when b m : (b = true → safe d m) → safe d (when b m).
Proof. destruct b; intros Hm; [by apply Hm|apply safe_ret]. Qed.

Lemma safe_for n i body :
  (∀ j, i ≤ j < i + Z.of_nat n → safe d (body j)) → safe d (for_up n i body).
Proof.
  intros Hb g Hs Hd. apply (wp_for_up n i body (λ _ g', screen_ok g' ∧ dims g' = d)); [done|].
  intros j g' Hj [Hs' Hd']. by apply Hb.
Qed.

Lemma safe_st_draw i v :
  (∀ g, screen_ok g → dims g = d → 0 ≤ i < g_pitch g / 4 * g_height g) → safe d (st_draw i v).
Proof.
  intros Hi g Hs Hd. eapply wp_mono; [apply st_draw_ok; [done|by apply Hi]|].
  intros [] g' (? & E & _). split; [done|congruence].
Qed.
End safe.

(** Row [y] of the screen starts at a pixel of the buffer. *)
Lemma pixel_index g x y :
  screen_ok g → 0 ≤ x < g_width g → 0 ≤ y < g_height g →
  u32 (y * (g_pitch g / 4)) = y * (g_pitch g / 4) ∧
  0 ≤ y * (g_pitch g / 4) + x < g_pitch g / 4 * g_height g.
Proof.
  intros Hs Hx Hy. destruct Hs as [Hw Hh _ Hsz _ _ _].
  assert (0 ≤ y * (g_pitch g / 4)) by nia.
  assert (y * (g_pitch g / 4) + (g_pitch g / 4) ≤ g_pitch g / 4 * g_height g) by nia.
  split; [apply wrap_small; lia|lia].
Qed.

Lemma dims_eq g g' : dims g = dims g' →
  g_pitch g = g_pitch g' ∧ g_width g = g_width g' ∧ g_height g = g_height g' ∧ g_size g = g_size g' ∧
  g_target g = g_target g'.
Proof. unfold dims. naive_solver. Qed.

Lemma put_pixel_safe d x y val : safe d (gfx_put_pixel x y val).
Proof.
  apply safe_get. intros g Hs Hd. destruct (_ || _) eqn:E; [apply safe_ret|]. bprop.
  pose proof (wrap_bound 32 x ltac:(lia)). pose proof (wrap_bound 32 y ltac:(lia)).
  destruct (pixel_index g (u32 x) (u32 y) Hs ltac:(lia) ltac:(lia)) as [_ Hi].
  pose proof (so_size g Hs). apply safe_st_draw. intros g' Hs' Hd'.
  assert (dims g' = dims g) as (-> & _ & -> & _)%dims_eq by congruence.
  rewrite wrap_small; lia.
Qed.

Lemma fill_rect_safe d x0 y0 x1 y1 val : safe d (gfx_fill_rect x0 y0 x1 y1 val).
Proof.
  apply safe_get. intros g Hs Hd. destruct (so_int g Hs). destruct (so_width g Hs). pose proof (so_height g Hs).
  rewrite !(swrap_small 32) by lia.
  set (x0' := if x0 <? 0 then 0 else x0). set (y0' := if y0 <? 0 then 0 else y0).
  set (x1' := if g_width g <=? x1 then g_width g - 1 else x1).
  set (y1' := if g_height g <=? y1 then g_height g - 1 else y1).
  assert (0 ≤ x0' ∧ 0 ≤ y0' ∧ x1' < g_width g ∧ y1' < g_height g) as (? & ? & ? & ?).
  { unfold x0', y0', x1', y1'. split_and!; bcase; lia. }
  destruct (_ || _) eqn:E; [apply safe_ret|]. bprop.
  apply safe_for. intros y Hy. apply safe_for. intros x Hx. apply safe_st_draw. intros g' Hs' Hd'.
  destruct (pixel_index g x y Hs ltac:(lia) ltac:(lia)) as [-> Hi].
  assert (dims g' = dims g) as (-> & _ & -> & _)%dims_eq by congruence. lia.
Qed.

Lemma clear_screen_safe d : safe d gfx_clear_screen.
Proof.
  apply safe_get. intros g Hs Hd. apply safe_for. intros i Hi. apply safe_st_draw. intros g' Hs' Hd'.
  assert (dims g' = dims g) as (-> & _ & -> & _)%dims_eq by congruence.
  rewrite (so_bytes g Hs) in Hi. lia.
Qed.

(** The bitmaps are all there and all glyphs are equally wide. *)
Record font_ok (font : fontStyle) : Prop := {
  fo_bitmaps : GlyphBytesWidth font * GlyphHeight font * GlyphCount font = Z.of_nat (length (GlyphBitmaps font));
  fo_width : 0 < GlyphBytesWidth font < 256;
  fo_height : 0 < GlyphHeight font < 256;
  fo_first : 0 ≤ FirstAsciiCode font;
  fo_count : 0 ≤ GlyphCount font < 256;
  fo_fixed : 0 < FixedWidth font;
}.

Lemma draw_char_safe d font c x y color : font_ok font → safe d (font_draw_char font c x y color).
Proof.
  intros F. unfold font_draw_char. pose proof (wrap_bound 8 c ltac:(lia)) as Hc.
  pose proof (fo_fixed font F) as Hfix. unfold nz. rewrite (proj2 (Z.eqb_neq (FixedWidth font) 0)) by lia. cbn [negb].
  destruct (_ || _) eqn:E; [apply safe_ret|]. bprop. apply safe_bind; [apply safe_ret|]. intros adv.
  pose proof (fo_bitmaps font F) as Hb. destruct F as [_ Hw Hh Hf Hct _].
  set (idx := u8 (u8 c - FirstAsciiCode font)).
  assert (idx = u8 c - FirstAsciiCode font) as Hidx by (apply wrap_small; lia).
  assert (0 ≤ idx < GlyphCount font) as Hidx' by lia. clear Hidx. clearbody idx.
  set (bw := GlyphBytesWidth font) in *. set (gh := GlyphHeight font) in *. set (n := GlyphCount font) in *.
  assert (0 < bw * gh ≤ 255 * 255) as Hgs by (split; [nia|apply Z.mul_le_mono_nonneg; lia]).
  rewrite (wrap_small 32 (bw * gh)) by lia.
  assert (0 ≤ idx * (bw * gh) ≤ 255 * (255 * 255)) as Hr by (split; [nia|apply Z.mul_le_mono_nonneg; lia]).
  rewrite (wrap_small 32 (idx * _)) by lia.
  apply safe_bind; [|intros []; apply safe_ret].
  apply safe_for. intros row Hrow. apply safe_for. intros col Hcol.
  assert (0 ≤ col .>> 3 < bw) as Hcol3.
  { rewrite Z.shiftr_div_pow2 by lia. change (2 ^ 3) with 8. split; [apply Z.div_pos; lia|].
    apply Z.div_lt_upper_bound; lia. }
  assert (0 ≤ idx * (bw * gh) + row * bw + (col .>> 3) < Z.of_nat (length (GlyphBitmaps font))) as Hi.
  { rewrite <- Hb. assert (0 ≤ row * bw ≤ (gh - 1) * bw) by nia.
    assert ((idx + 1) * (bw * gh) ≤ n * (bw * gh)) by (apply Z.mul_le_mono_nonneg_r; lia). lia. }
  unfold bitmap_at.
  destruct (lookup_lt_is_Some_2 (GlyphBitmaps font) (Z.to_nat (idx * (bw * gh) + row * bw + (col .>> 3))))
    as [b ->]; [lia|].
  apply safe_bind; [apply safe_ret|]. intros b'. apply safe_when. intros _. apply put_pixel_safe.
Qed.

(** Drawing stays inside the buffers: [gfx_put_pixel], [gfx_fill_rect],
    [gfx_clear_screen] and [font_draw_char], with any coordinates (also negative or
    beyond the screen), any colour and any character, only write pixels of the
    screen, and leave its dimensions as they are. *)
Theorem drawing_in_bounds font x y x1 y1 val c g :
  screen_ok g → font_ok font →
  wp (gfx_put_pixel x y val ;; gfx_fill_rect x y x1 y1 val ;; font_draw_char font c x y val ;;
      gfx_clear_screen) (λ _ g', screen_ok g' ∧ dims g' = dims g) g.
Proof.
  intros Hs F. assert (safe (dims g) (gfx_put_pixel x y val ;; gfx_fill_rect x y x1 y1 val ;;
    font_draw_char font c x y val ;; gfx_clear_screen)) as Hsafe; [|by apply Hsafe].
  apply safe_bind; [apply put_pixel_safe|intros _]. apply safe_bind; [apply fill_rect_safe|intros _].
  apply safe_bind; [by apply draw_char_safe|intros _]. apply clear_screen_safe.
Qed.

(** ** What a filled rectangle looks like *)

(** The pixel of the current target at column [x] of row [y]. *)
Definition pixel (g : gfx) (x y : Z) : option Z := draw_buffer g !! (y * (g_pitch g / 4) + x).

(** The pixels of the screen, after a change described by [f]. *)
Definition redrawn (g g' : gfx) (f : Z → Z → option Z) : Prop :=
  screen_ok g' ∧ dims g' = dims g ∧
  ∀ x y, 0 ≤ x < g_width g → 0 ≤ y < g_height g → pixel g' x y = f x y.

Lemma draw_buffer_set px g : draw_buffer (set_draw px g) = px.
Proof. destruct g as [? ? ? ? ? [] ?]; done. Qed.

Lemma st_draw_pixel g X Y val :
  screen_ok g → 0 ≤ X < g_width g → 0 ≤ Y < g_height g →
  wp (st_draw (u32 (Y * (g_pitch g / 4)) + X) val) (λ _ g', redrawn g g' (λ x y,
    if (x =? X) && (y =? Y) then Some val else pixel g x y)) g.
Proof.
  intros Hs HX HY. destruct (pixel_index g X Y Hs HX HY) as [-> Hi].
  eapply wp_mono; [by apply st_draw_ok|]. intros [] g' (Hs' & Hd & ->). split; [done|]. split; [done|].
  intros x y Hx Hy. unfold pixel. apply dims_eq in Hd as (-> & _). rewrite draw_buffer_set.
  destruct (so_width g Hs). destruct ((x =? X) && (y =? Y)) eqn:E; bprop.
  - subst. by rewrite lookup_insert_eq.
  - rewrite lookup_insert_ne; [done|]. intros E'. apply andb_false_iff in E.
    assert (y = Y) as -> by nia. destruct E; bprop; lia.
Qed.

Lemma redrawn_refl g : screen_ok g → redrawn g g (pixel g).
Proof. by split. Qed.

Lemma redrawn_ext g g' f f' :
  redrawn g g' f → (∀ x y, 0 ≤ x < g_width g → 0 ≤ y < g_height g → f x y = f' x y) → redrawn g g' f'.
Proof. intros (? & ? & Hf) E. split; [done|]. split; [done|]. intros x y Hx Hy. rewrite <- E by done. by apply Hf. Qed.

(** One more pixel on a screen that has already changed. *)
Lemma st_draw_more g0 g f X Y val :
  redrawn g0 g f → screen_ok g0 → 0 ≤ X < g_width g0 → 0 ≤ Y < g_height g0 →
  wp (st_draw (u32 (Y * (g_pitch g0 / 4)) + X) val) (λ _ g', redrawn g0 g' (λ x y,
    if (x =? X) && (y =? Y) then Some val else f x y)) g.
Proof.
  intros (Hs & Hd & Hf) Hs0 HX HY. pose proof (dims_eq _ _ Hd) as (Hp & Hw & Hh & _).
  rewrite <- Hp. eapply wp_mono; [apply st_draw_pixel; [done|congruence|congruence]|].
  intros [] g' (Hs' & Hd' & Hf'). split; [done|]. split; [congruence|].
  intros x y Hx Hy. rewrite Hf' by congruence. destruct (_ && _); [done|]. by apply Hf.
Qed.

(** [gfx_fill_rect] sets exactly the pixels of the rectangle that are on the
    screen: clipping loses no pixel and adds none. *)
Theorem fill_rect_correct x0 y0 x1 y1 val g :
  screen_ok g →
  wp (gfx_fill_rect x0 y0 x1 y1 val) (λ _ g', redrawn g g' (λ x y,
    if (x0 <=? x) && (x <=? x1) && (y0 <=? y) && (y <=? y1) then Some val else pixel g x y)) g.
Proof.
  intros Hs. unfold gfx_fill_rect. apply wp_bind. eapply wp_intro; [reflexivity|].
  destruct (so_int g Hs). destruct (so_width g Hs). pose proof (so_height g Hs).
  rewrite !(swrap_small 32) by lia.
  set (x0' := if x0 <? 0 then 0 else x0). set (y0' := if y0 <? 0 then 0 else y0).
  set (x1' := if g_width g <=? x1 then g_width g - 1 else x1).
  set (y1' := if g_height g <=? y1 then g_height g - 1 else y1).
  assert (∀ x y, 0 ≤ x < g_width g → 0 ≤ y < g_height g →
    (x0 <=? x) && (x <=? x1) && (y0 <=? y) && (y <=? y1) =
    (x0' <=? x) && (x <=? x1') && (y0' <=? y) && (y <=? y1')) as Hclip.
  { intros x y Hx Hy. apply eq_true_iff_eq. rewrite !andb_true_iff, !Z.leb_le. unfold x0', y0', x1', y1'.
    destruct (Z.ltb_spec x0 0), (Z.ltb_spec y0 0), (Z.leb_spec (g_width g) x1), (Z.leb_spec (g_height g) y1); lia. }
  assert (0 ≤ x0' ∧ 0 ≤ y0' ∧ x1' < g_width g ∧ y1' < g_height g) as (? & ? & ? & ?).
  { unfold x0', y0', x1', y1'. split_and!; bcase; lia. }
  clearbody x0' y0' x1' y1'. destruct (_ || _) eqn:E.
  { apply wp_ret. eapply redrawn_ext; [by apply redrawn_refl|]. intros x y Hx Hy. rewrite Hclip by done.
    apply orb_true_iff in E. destruct (_ && _) eqn:E'; [|done]. bprop. destruct E; bprop; lia. }
  bprop. pose (row_done := λ Y x y, (x0' <=? x) && (x <=? x1') && (y0' <=? y) && (y <? Y)).
  eapply wp_mono.
  { apply (wp_for_up _ _ _ (λ Y g', redrawn g g' (λ x y, if row_done Y x y then Some val else pixel g x y))).
    - eapply redrawn_ext; [by apply redrawn_refl|]. intros x y _ _. unfold row_done. bcase; done.
    - intros Y g1 HY Hr1. eapply wp_mono.
      { apply (wp_for_up _ _ _ (λ X g', redrawn g g' (λ x y,
          if row_done Y x y || ((x0' <=? x) && (x <? X) && (y =? Y)) then Some val else pixel g x y))).
        - eapply redrawn_ext; [exact Hr1|]. intros x y _ _. unfold row_done. bcase; done.
        - intros X g2 HX Hr2. eapply wp_mono; [apply (st_draw_more g g2 _ X Y val Hr2 Hs); lia|].
          intros [] g3 Hr3. eapply redrawn_ext; [exact Hr3|]. intros x y _ _. unfold row_done. bcase; done. }
      intros [] g2 Hr2. eapply redrawn_ext; [exact Hr2|]. intros x y _ _. unfold row_done.
      bcase; try done; lia. }
  intros [] g' Hr. eapply redrawn_ext; [exact Hr|]. intros x y Hx Hy. cbv beta. rewrite Hclip by done.
  unfold row_done. bcase; try done; lia.
Qed.

(** ** The console *)

(** The cell grid fits the screen. *)
Record grid_ok (s : console) : Prop := {
  go_screen : screen_ok (c_gfx s);
  go_cell : 0 < c_cell_w (c_con s) ≤ g_width (c_gfx s) ∧ 0 < c_cell_h (c_con s) ≤ g_height (c_gfx s);
  go_cols : c_max_cols (c_con s) = g_width (c_gfx s) / c_cell_w (c_con s);
  go_rows : c_max_rows (c_con s) = g_height (c_gfx s) / c_cell_h (c_con s);
  go_dims : c_screen_w (c_con s) = g_width (c_gfx s) ∧ c_screen_h (c_con s) = g_height (c_gfx s);
}.

(** The cursor is on a cell, or just past the end of a row. *)
Record con_ok (s : console) : Prop := {
  co_grid : grid_ok s;
  co_col : 0 ≤ c_col (c_con s) ≤ c_max_cols (c_con s);
  co_row : 0 ≤ c_row (c_con s) < c_max_rows (c_con s);
}.

(** What printing leaves alone. *)
Definition same_console (s s' : console) : Prop :=
  dims (c_gfx s') = dims (c_gfx s) ∧ c_fg (c_con s') = c_fg (c_con s) ∧ c_bg (c_con s') = c_bg (c_con s) ∧
  c_cell_w (c_con s') = c_cell_w (c_con s) ∧ c_cell_h (c_con s') = c_cell_h (c_con s) ∧
  c_max_cols (c_con s') = c_max_cols (c_con s) ∧ c_max_rows (c_con s') = c_max_rows (c_con s) ∧
  c_if s' = c_if s.

Lemma max_pos s : grid_ok s → 0 < c_max_cols (c_con s) ∧ 0 < c_max_rows (c_con s).
Proof.
  intros G. rewrite (go_cols s G), (go_rows s G). destruct (go_cell s G).
  split; apply Z.div_str_pos; lia.
Qed.

Lemma wp_gfx_op {A} (m : M gfx A) (Q : A → console → Prop) s :
  wp m (λ a g', Q a (Console g' (c_con s) (c_if s))) (c_gfx s) → wp (gfx_op m) Q s.
Proof. unfold wp, gfx_op. by destruct (m (c_gfx s)) as [[a g]| | | |]. Qed.

(** Safe drawing keeps the grid. *)
Lemma gfx_op_safe {A} (m : M gfx A) s :
  safe (dims (c_gfx s)) m → grid_ok s →
  wp (gfx_op m) (λ _ s', grid_ok s' ∧ c_con s' = c_con s ∧ same_console s s') s.
Proof.
  intros Hm [Hs Hc Hcols Hrows Hd]. apply wp_gfx_op. eapply wp_mono; [by apply Hm|].
  intros a g' [Hs' Hd']. split; [|split; [done|by repeat split]].
  apply dims_eq in Hd' as (? & Hw & Hh & _). split; cbn [c_gfx c_con]; [done|rewrite Hw, Hh; done|congruence|congruence|].
  by rewrite Hw, Hh.
Qed.

(** The framebuffer moved up by [k] pixels, the rest of the [n] set to [bg]. *)
Definition scrolled (k n bg : Z) (px px' : gmap Z Z) : Prop :=
  ∀ j, 0 ≤ j < n → px' !! j = if j <? n - k then px !! (j + k) else Some bg.

Lemma scroll_pixels g k bg :
  screen_ok g → 0 ≤ k ≤ g_pitch g / 4 * g_height g →
  wp (for_up (Z.to_nat (g_pitch g / 4 * g_height g - k)) 0 (λ i, v ← ld_fb (k + i); st_fb i v) ;;
      for_up (Z.to_nat k) 0 (λ i, st_fb (g_pitch g / 4 * g_height g - k + i) bg))
    (λ _ g', screen_ok g' ∧ dims g' = dims g ∧
       scrolled k (g_pitch g / 4 * g_height g) bg (g_fb g) (g_fb g')) g.
Proof.
  intros Hs Hk. set (n := g_pitch g / 4 * g_height g) in *.
  apply (wp_bind_mono _ _ (λ _ g', screen_ok g' ∧ dims g' = dims g ∧
    ∀ j, g_fb g' !! j = if (0 <=? j) && (j <? n - k) then g_fb g !! (j + k) else g_fb g !! j)).
  { eapply wp_mono.
    { apply (wp_for_up _ _ _ (λ i g', screen_ok g' ∧ dims g' = dims g ∧
        ∀ j, g_fb g' !! j = if (0 <=? j) && (j <? i) then g_fb g !! (j + k) else g_fb g !! j)).
      - split; [done|]. split; [done|]. intros j. bcase; done.
      - intros i g1 Hi (Hs1 & Hd1 & Hpx). pose proof (dims_eq _ _ Hd1) as (Hp & _ & Hh & _).
        destruct (proj2 (so_fb g Hs (k + i)) ltac:(lia)) as [v Hv].
        apply wp_bind. eapply wp_intro.
        { unfold ld_fb. rewrite Hpx. destruct (_ && _) eqn:E; [bprop|by rewrite Hv].
          assert (k = 0) as -> by lia. by replace (0 + i + 0) with (0 + i) by lia; rewrite Hv. }
        eapply wp_mono; [apply st_fb_ok; [done|rewrite Hp, Hh; lia]|].
        intros [] g2 (Hs2 & Hd2 & ->). split; [done|]. split; [congruence|]. intros j. cbn [g_fb set_fb].
        destruct (decide (j = i)) as [->|Hne].
        + rewrite lookup_insert_eq. bcase. by rewrite Z.add_comm, Hv.
        + rewrite lookup_insert_ne, Hpx by done. bcase; done. }
    intros [] g1 (? & ? & Hpx). split; [done|]. split; [done|]. intros j. rewrite Hpx.
    by replace (0 + Z.of_nat (Z.to_nat (n - k))) with (n - k) by lia. }
  intros [] g1 (Hs1 & Hd1 & Hpx1). pose proof (dims_eq _ _ Hd1) as (Hp & _ & Hh & _).
  eapply wp_mono.
  { apply (wp_for_up _ _ _ (λ i g', screen_ok g' ∧ dims g' = dims g ∧
      ∀ j, g_fb g' !! j = if (n - k <=? j) && (j <? n - k + i) then Some bg else g_fb g1 !! j)).
    - split; [done|]. split; [done|]. intros j. bcase; done.
    - intros i g2 Hi (Hs2 & Hd2 & Hpx). pose proof (dims_eq _ _ Hd2) as (Hp2 & _ & Hh2 & _).
      eapply wp_mono; [apply st_fb_ok; [done|rewrite Hp2, Hh2; fold n; lia]|].
      intros [] g3 (Hs3 & Hd3 & ->). split; [done|]. split; [congruence|]. intros j. cbn [g_fb set_fb].
      destruct (decide (j = n - k + i)) as [->|Hne].
      + rewrite lookup_insert_eq. bcase. done.
      + rewrite lookup_insert_ne, Hpx by done. bcase; done. }
  intros [] g2 (Hs2 & Hd2 & Hpx2). split; [done|]. split; [done|].
  intros j Hj. rewrite Hpx2, Hpx1. bcase; done.
Qed.

Section printing.
Context (font : fontStyle).

Lemma scroll_up_ok s :
  grid_ok s →
  wp scroll_up (λ _ s', grid_ok s' ∧ same_console s s' ∧
    c_col (c_con s') = c_col (c_con s) ∧ c_row (c_con s') = c_max_rows (c_con s) - 1 ∧
    scrolled (g_pitch (c_gfx s) / 4 * c_cell_h (c_con s)) (g_pitch (c_gfx s) / 4 * g_height (c_gfx s))
      (c_bg (c_con s)) (g_fb (c_gfx s)) (g_fb (c_gfx s'))) s.
Proof.
  intros G. destruct G as [Hs [Hcw Hch] Hcols Hrows [Hsw Hsh]]. unfold scroll_up.
  apply wp_bind. eapply wp_intro; [reflexivity|]. cbv zeta. set (st := g_pitch (c_gfx s) / 4).
  destruct (so_width _ Hs) as [Hw1 Hw2]. fold st in Hw2. pose proof (so_size _ Hs) as Hsz. fold st in Hsz.
  destruct (so_int _ Hs).
  assert (0 ≤ st * c_cell_h (c_con s) ≤ st * g_height (c_gfx s)) as Hk by nia.
  rewrite Hsh, (wrap_small 32 (g_height _ - _)), (Z.mul_comm (c_cell_h _)) by lia.
  rewrite (wrap_small 32 (st * c_cell_h _)), (wrap_small 32 (st * (_ - _))) by nia.
  replace (st * (g_height (c_gfx s) - c_cell_h (c_con s)))
    with (st * g_height (c_gfx s) - st * c_cell_h (c_con s)) by lia.
  pose proof (scroll_pixels _ (st * c_cell_h (c_con s)) (c_bg (c_con s)) Hs Hk) as Hw.
  fold st in Hw. apply wp_inv in Hw as (u & g' & E & Hs' & Hd' & Hscr).
  apply M_bind_inv in E as ([] & g1 & E1 & E2). apply wp_bind, wp_gfx_op.
  eapply wp_intro; [exact E1|]. apply wp_bind, wp_gfx_op. cbn [c_gfx c_con c_if].
  eapply wp_intro; [destruct u; exact E2|]. apply wp_modify.
  pose proof (dims_eq _ _ Hd') as (Hp & Hw & Hh & _).
  split; [|split; [|split; [done|split; [done|exact Hscr]]]].
  - split; cbn; [done|by rewrite Hw, Hh|congruence|congruence|by rewrite Hw, Hh].
  - by repeat split.
Qed.

Lemma same_console_trans s1 s2 s3 : same_console s1 s2 → same_console s2 s3 → same_console s1 s3.
Proof. unfold same_console. intuition congruence. Qed.

Lemma grid_ok_cursor s col row : grid_ok s → grid_ok (set_cursor col row s) ∧ same_console s (set_cursor col row s).
Proof. intros []. split; [by split|by repeat split]. Qed.

(** Printing that keeps the console well formed and the interrupt flag. *)
Definition csafe (m : M console unit) : Prop :=
  ∀ s, con_ok s → wp m (λ _ s', con_ok s' ∧ same_console s s') s.

Lemma newline_ok s :
  grid_ok s → 0 ≤ c_row (c_con s) < c_max_rows (c_con s) →
  wp newline (λ _ s', con_ok s' ∧ same_console s s' ∧ c_col (c_con s') = 0) s.
Proof.
  intros G Hrow. unfold newline. apply wp_bind, wp_modify. apply wp_bind. eapply wp_intro; [reflexivity|].
  destruct (grid_ok_cursor s 0 (c_row (c_con s) + 1) G) as [G' Hsame]. set (s' := set_cursor _ _ s) in *.
  destruct (max_pos s G). unfold when. destruct (Z.leb_spec (c_max_rows (c_con s')) (c_row (c_con s'))).
  - eapply wp_mono; [by apply scroll_up_ok|]. intros [] s2 (G2 & Hs2 & Hcol & Hr & _).
    pose proof (same_console_trans _ _ _ Hsame Hs2) as Hall. destruct Hs2 as (_ & _ & _ & _ & _ & Hmc & Hmr & _).
    cbn in *. split; [|done]. split; [done|rewrite Hcol, Hmc; lia|rewrite Hr, Hmr; lia].
  - apply wp_ret. split; [|done]. cbn in *. split; [done|cbn; lia|cbn; lia].
Qed.

Lemma clear_cell_ok s : grid_ok s → wp clear_cell (λ _ s', grid_ok s' ∧ c_con s' = c_con s ∧ same_console s s') s.
Proof.
  intros G. unfold clear_cell. apply wp_bind. eapply wp_intro; [reflexivity|].
  apply gfx_op_safe; [apply fill_rect_safe|done].
Qed.

Lemma put_glyph_ok ch : font_ok font → csafe (put_glyph font ch).
Proof.
  intros F s [G Hcol Hrow]. unfold put_glyph. apply wp_bind. eapply wp_intro; [reflexivity|].
  apply (wp_bind_mono _ _ (λ _ s', con_ok s' ∧ same_console s s' ∧ c_col (c_con s') < c_max_cols (c_con s))).
  { unfold when. destruct (Z.leb_spec (c_max_cols (c_con s)) (c_col (c_con s))).
    - eapply wp_mono; [by apply newline_ok|]. intros [] s' (? & ? & ->). pose proof (max_pos s G). naive_solver.
    - apply wp_ret. split; [by split|]. split; [by repeat split|done]. }
  intros [] s1 ([G1 Hcol1 Hrow1] & Hsame1 & Hlt). apply (wp_bind_mono _ _ _ _ _ (clear_cell_ok s1 G1)).
  intros [] s2 (G2 & Hc2 & Hsame2). apply wp_bind. eapply wp_intro; [reflexivity|]. cbv zeta.
  apply (wp_bind_mono _ _ _ _ _ (gfx_op_safe _ s2 (draw_char_safe _ font ch _ _ _ F) G2)).
  intros _ s3 (G3 & Hc3 & Hsame3). apply wp_modify.
  pose proof (same_console_trans _ _ _ Hsame1 (same_console_trans _ _ _ Hsame2 Hsame3)) as Hsame.
  destruct (grid_ok_cursor s3 (c_col (c_con s3) + 1) (c_row (c_con s3)) G3) as [G4 Hsame4].
  split; [|by eapply same_console_trans].
  pose proof (proj1 (proj2 (proj2 (proj2 (proj2 (proj2 Hsame1)))))) as Hmc.
  split; [done|..]; cbn; rewrite Hc3, Hc2; lia.
Qed.

Lemma con_ok_intr b s : con_ok s → con_ok (set_intr b s).
Proof. intros [[] ? ?]. split; [split|..]; assumption. Qed.

Lemma putchar_ok ch : font_ok font → csafe (console_putchar font ch).
Proof.
  intros F s Hok. unfold console_putchar. apply wp_bind, wp_gets, wp_bind, wp_modify.
  pose proof (con_ok_intr false s Hok) as Hok'.
  apply (wp_bind_mono _ _ (λ _ s', con_ok s' ∧ same_console (set_intr false s) s')).
  { destruct (ch =? 10); [|destruct (ch =? 9)].
    - destruct Hok' as [G _ Hrow]. eapply wp_mono; [by apply newline_ok|]. naive_solver.
    - destruct Hok' as [G Hcol Hrow]. apply wp_bind, wp_modify, wp_bind. eapply wp_intro; [reflexivity|].
      set (col := Z.land (c_col (c_con (set_intr false s)) + 4) (Z.lnot 3)).
      assert (0 ≤ col) as Hc. { apply Z.land_nonneg. left. lia. }
      destruct (grid_ok_cursor _ col (c_row (c_con (set_intr false s))) G) as [G' Hsame]. unfold when.
      destruct (Z.leb_spec (c_max_cols (c_con (set_cursor col (c_row (c_con (set_intr false s))) (set_intr false s))))
        (c_col (c_con (set_cursor col (c_row (c_con (set_intr false s))) (set_intr false s))))).
      + eapply wp_mono; [by apply newline_ok|]. intros [] s' (? & ? & _). split; [done|]. by eapply same_console_trans.
      + apply wp_ret. split; [|done]. split; [done|cbn in *; lia|done].
    - by apply put_glyph_ok. }
  intros [] s' [Hok2 Hsame]. unfold when. destruct (c_if s) eqn:Ei.
  - apply wp_modify. split; [by apply con_ok_intr|].
    unfold same_console in *. cbn in *. intuition congruence.
  - apply wp_ret. split; [done|]. unfold same_console in *. cbn in *. intuition congruence.
Qed.

Lemma backspace_ok : csafe console_backspace.
Proof.
  intros s [G Hcol Hrow]. unfold console_backspace. apply wp_bind. eapply wp_intro; [reflexivity|]. cbv zeta.
  assert (∀ col row, 0 ≤ col ≤ c_max_cols (c_con s) → 0 ≤ row < c_max_rows (c_con s) →
    wp (modify (set_cursor col row) ;; clear_cell) (λ _ s', con_ok s' ∧ same_console s s') s) as Hgo.
  { intros col row Hc Hr. apply wp_bind, wp_modify. destruct (grid_ok_cursor s col row G) as [G' Hsame].
    eapply wp_mono; [by apply clear_cell_ok|]. intros [] s' (G2 & E & Hsame2).
    split; [|by eapply same_console_trans]. split; [done|..]; rewrite E; cbn; lia. }
  pose proof (max_pos s G). destruct (Z.eqb_spec (c_col (c_con s)) 0); [destruct (Z.eqb_spec (c_row (c_con s)) 0)|].
  - apply wp_ret. split; [by split|by repeat split].
  - apply Hgo; lia.
  - apply Hgo; lia.
Qed.

(** Characters, and backspaces. *)
Fixpoint type_all (l : list (option Z)) : M console unit :=
  match l with
  | [] => mret tt
  | Some ch :: l => console_putchar font ch ;; type_all l
  | None :: l => console_backspace ;; type_all l
  end.

(** C22: printing is safe: whatever characters (newlines, tabs and unprintable ones
    included) and backspaces are sent to the console, every pixel access is inside the
    framebuffer, the cursor stays on the cell grid, and the interrupt flag is as
    before. *)
Theorem console_safe l s :
  con_ok s → font_ok font →
  wp (type_all l) (λ _ s', con_ok s' ∧ same_console s s') s.
Proof.
  intros Hok F. revert s Hok. induction l as [|[ch|] l IH]; intros s Hok; cbn [type_all].
  - apply wp_ret. split; [done|by repeat split].
  - eapply wp_bind_mono; [by apply putchar_ok|]. intros [] s1 [H1 Hs1].
    eapply wp_mono; [by apply IH|]. intros [] s2 [? ?]. split; [done|]. by eapply same_console_trans.
  - eapply wp_bind_mono; [by apply backspace_ok|]. intros [] s1 [H1 Hs1].
    eapply wp_mono; [by apply IH|]. intros [] s2 [? ?]. split; [done|]. by eapply same_console_trans.
Qed.

(** A newline on the last row scrolls the screen by one cell: each pixel takes the
    value of the one a cell height below it, the last cell row is cleared to the
    background, and the cursor is at the start of the last row. *)
Theorem newline_scrolls s :
  con_ok s → c_row (c_con s) = c_max_rows (c_con s) - 1 → g_target (c_gfx s) = GFX_TARGET_FRAMEBUFFER →
  wp newline (λ _ s', con_ok s' ∧ c_row (c_con s') = c_row (c_con s) ∧ c_col (c_con s') = 0 ∧
    ∀ x y, 0 ≤ x < g_width (c_gfx s) → 0 ≤ y < g_height (c_gfx s) →
      pixel (c_gfx s') x y =
        if y <? g_height (c_gfx s) - c_cell_h (c_con s) then pixel (c_gfx s) x (y + c_cell_h (c_con s))
        else Some (c_bg (c_con s))) s.
Proof.
  intros [G Hcol Hrow] Hlast Ht. unfold newline. apply wp_bind, wp_modify. apply wp_bind.
  eapply wp_intro; [reflexivity|].
  destruct (grid_ok_cursor s 0 (c_row (c_con s) + 1) G) as [G' Hsame]. set (s1 := set_cursor _ _ s) in *.
  assert ((c_max_rows (c_con s1) <=? c_row (c_con s1)) = true) as -> by (apply Z.leb_le; cbn; lia).
  eapply wp_mono; [by apply scroll_up_ok|]. intros [] s2 (G2 & Hs2 & Hcol2 & Hr2 & Hscr).
  destruct Hs2 as (Hd2 & _ & _ & _ & _ & Hmc & Hmr & _). cbn in Hcol2, Hr2, Hscr, Hmc, Hmr, Hd2.
  pose proof (max_pos s G). split; [|split; [lia|split; [done|]]].
  { split; [done|rewrite Hcol2, Hmc; lia|rewrite Hr2, Hmr; lia]. }
  intros x y Hx Hy. pose proof (dims_eq _ _ Hd2) as (Hp & _ & _ & _ & Ht2).
  unfold pixel, draw_buffer. rewrite Ht2, Ht, Hp.
  destruct (pixel_index _ x y (go_screen s G) Hx Hy) as [_ Hi]. rewrite Hscr by done.
  pose proof (so_width _ (go_screen s G)). destruct (go_cell s G) as [_ Hch].
  set (st := g_pitch (c_gfx s) / 4) in *.
  destruct (Z.ltb_spec y (g_height (c_gfx s) - c_cell_h (c_con s))).
  - rewrite (proj2 (Z.ltb_lt _ _)) by nia. f_equal. lia.
  - rewrite (proj2 (Z.ltb_ge _ _)) by nia. done.
Qed.

(** [gfx_init] on a framebuffer and then [console_init] set the console up so that
    printing is safe, with the cursor in the upper left corner. *)
Theorem console_init_correct pitch width height px s :
  0 < width → 4 * width ≤ pitch → pitch mod 4 = 0 → 0 < height → pitch * height < 2 ^ 32 →
  full (pitch / 4 * height) px → font_ok font → FixedWidth font ≤ width → GlyphHeight font ≤ height →
  wp (gfx_op (gfx_init pitch width height px) ;; console_init font)
    (λ _ s', con_ok s' ∧ c_col (c_con s') = 0 ∧ c_row (c_con s') = 0) s.
Proof.
  intros Hw Hp Hp4 Hh Hsz Hpx F Hfw Hfh. pose proof (fo_fixed font F). pose proof (fo_height font F).
  assert (pitch = 4 * (pitch / 4)) as Hpd by (apply Z.div_exact; lia).
  assert (u32 (pitch * height) = pitch * height) as Hu by (apply wrap_small; nia).
  assert (u32 (pitch * height) / 4 = pitch / 4 * height) as Hsize.
  { rewrite Hu, Hpd at 1. rewrite <- Z.mul_assoc, (Z.mul_comm 4). by apply Z.div_mul. }
  pose proof (blank_full (pitch / 4 * height)) as Hblank.
  apply wp_bind, wp_gfx_op. eapply wp_intro; [reflexivity|]. unfold console_init.
  apply wp_bind, wp_gfx_op. eapply wp_intro; [reflexivity|].
  unfold nz. rewrite (proj2 (Z.eqb_neq (FixedWidth font) 0)) by lia. cbn [negb].
  apply wp_bind, wp_ret, wp_modify. cbn [c_gfx c_con c_col c_row]. split; [|done].
  assert (screen_ok (set_target GFX_TARGET_FRAMEBUFFER (Gfx pitch width height px (blank (u32 (pitch * height) / 4))
    (g_target (c_gfx s)) (u32 (pitch * height))))) as Hs.
  { rewrite Hsize. split; cbn; try done; try nia. }
  split; [|cbn..].
  - split; cbn; try done; try lia.
  - pose proof (Z.div_pos width (FixedWidth font)). lia.
  - pose proof (Z.div_str_pos height (GlyphHeight font)). lia.
Qed.
End printing.

(** ** A concrete console: two rows of three cells, one glyph *)

Module ExConsole.
Definition font : fontStyle := FontStyle 1 65 1 2 2 None [0xC0; 0x80].
Definition px : gmap Z Z := blank 24.

Lemma font_fine : font_ok font.
Proof. split; cbn; try lia; done. Qed.

Lemma px_full : full 24 px.
Proof. apply blank_full. Qed.

Definition screen : gfx := Gfx 24 6 4 px px GFX_TARGET_FRAMEBUFFER 96.

Lemma screen_fine : screen_ok screen.
Proof. split; cbn; try lia; try done; apply px_full. Qed.

Definition start (row : Z) : console := Console screen (Con 0xCCCCCC 7 1 row 3 2 2 2 6 4) true.

Lemma start_fine row : 0 ≤ row < 2 → con_ok (start row).
Proof. intros Hr. split; cbn; [|lia..]. split; cbn; [apply screen_fine|lia|done..]. Qed.
End ExConsole.

Lemma drawing_in_bounds_witness :
  wp (gfx_put_pixel (-1) 2 9 ;; gfx_fill_rect (-1) 2 90 80 9 ;; font_draw_char ExConsole.font 65 (-1) 2 9 ;;
      gfx_clear_screen) (λ _ g', screen_ok g' ∧ dims g' = dims ExConsole.screen) ExConsole.screen.
Proof. apply drawing_in_bounds; [apply ExConsole.screen_fine|apply ExConsole.font_fine]. Defined.

Lemma fill_rect_correct_witness :
  wp (gfx_fill_rect (-2) 1 3 9 5) (λ _ g', redrawn ExConsole.screen g' (λ x y,
    if (-2 <=? x) && (x <=? 3) && (1 <=? y) && (y <=? 9) then Some 5 else pixel ExConsole.screen x y))
    ExConsole.screen.
Proof. apply fill_rect_correct, ExConsole.screen_fine. Defined.

Lemma console_safe_witness :
  wp (type_all ExConsole.font [Some 65; Some 10; Some 9; None; Some 200])
    (λ _ s', con_ok s' ∧ same_console (ExConsole.start 1) s') (ExConsole.start 1).
Proof. apply console_safe; [apply ExConsole.start_fine; lia|apply ExConsole.font_fine]. Defined.

Lemma newline_scrolls_witness :
  wp newline (λ _ s', con_ok s' ∧ c_row (c_con s') = 1) (ExConsole.start 1).
Proof.
  eapply wp_mono; [apply (newline_scrolls (ExConsole.start 1)); [apply ExConsole.start_fine; lia|done|done]|].
  intros [] s' (? & ? & _). done.
Defined.

Lemma console_init_correct_witness :
  wp (gfx_op (gfx_init 24 6 4 ExConsole.px) ;; console_init ExConsole.font)
    (λ _ s', con_ok s' ∧ c_col (c_con s') = 0 ∧ c_row (c_con s') = 0) (ExConsole.start 0).
Proof.
  apply console_init_correct; cbn; try lia; [done|apply ExConsole.px_full|apply ExConsole.font_fine].
Defined.
