(* ===== verification/Keyboard.v ===== *)
(** * The keyboard ([arch/x86_64/include/keyboard.c], [arch/x86_64/drivers/ps2k.c])

    Interrupts translate scan codes to events; every registered listener has a
    ring buffer of them, which it polls or waits on. *)

From S2P Require Import Prelude Loops Gfx Console.

Abbreviation RING_BUFFER_SIZE := 100%Z.
Abbreviation KEYBOARD_QUEUE_LEVELS := 10%Z.
(* src/arch/x86_64/include/keyboard.h 32-36 key_event_type *)
Definition KEY_EVENT_DOWN : Z := 1.

(** The members are [int8_t]. *)
(* src/arch/x86_64/include/keyboard.h 48-53 key_event_t *)
Record key_event := KeyEvent { ev_type : Z; ev_scan_code : Z; ev_value : Z; ev_timestamp : Z }.

(* src/arch/x86_64/include/keyboard.h 71-75 keyboard_queue_state *)
Record queue_state := QueueState { q_head : Z; q_tail : Z; q_used : Z }.

(** The queues by level, the pressed keys, the modifiers, what is echoed on the
    serial line, the scan codes still to arrive, and the ends of interrupts. *)
Record kbd := Kbd {
  kb_queue : gmap Z (list key_event);
  kb_state : gmap Z queue_state;
  kb_pressed : gmap Z Z;
  kb_shift : bool;
  kb_e0 : bool;
  kb_serial : list Z;
  kb_irqs : list Z;
  kb_eois : Z;                     (* writes to the end-of-interrupt register *)
}.

Definition with_queue (l : Z) (q : list key_event) (s : kbd) : kbd :=
  Kbd (<[l := q]> (kb_queue s)) (kb_state s) (kb_pressed s) (kb_shift s) (kb_e0 s) (kb_serial s) (kb_irqs s) (kb_eois s).
Definition with_qstate (l : Z) (st : queue_state) (s : kbd) : kbd :=
  Kbd (kb_queue s) (<[l := st]> (kb_state s)) (kb_pressed s) (kb_shift s) (kb_e0 s) (kb_serial s) (kb_irqs s) (kb_eois s).
Definition with_pressed (i v : Z) (s : kbd) : kbd :=
  Kbd (kb_queue s) (kb_state s) (<[i := v]> (kb_pressed s)) (kb_shift s) (kb_e0 s) (kb_serial s) (kb_irqs s) (kb_eois s).
Definition with_shift (b : bool) (s : kbd) : kbd :=
  Kbd (kb_queue s) (kb_state s) (kb_pressed s) b (kb_e0 s) (kb_serial s) (kb_irqs s) (kb_eois s).
Definition with_e0 (b : bool) (s : kbd) : kbd :=
  Kbd (kb_queue s) (kb_state s) (kb_pressed s) (kb_shift s) b (kb_serial s) (kb_irqs s) (kb_eois s).
Definition with_serial (l : list Z) (s : kbd) : kbd :=
  Kbd (kb_queue s) (kb_state s) (kb_pressed s) (kb_shift s) (kb_e0 s) l (kb_irqs s) (kb_eois s).
Definition with_irqs (l : list Z) (s : kbd) : kbd :=
  Kbd (kb_queue s) (kb_state s) (kb_pressed s) (kb_shift s) (kb_e0 s) (kb_serial s) l (kb_eois s).
Definition with_eois (n : Z) (s : kbd) : kbd :=
  Kbd (kb_queue s) (kb_state s) (kb_pressed s) (kb_shift s) (kb_e0 s) (kb_serial s) (kb_irqs s) n.

(** Array accesses; the level is in range or the access faults. *)
Definition ld_qstate (l : Z) : M kbd queue_state := λ s,
  match kb_state s !! l with Some st => Ok (st, s) | None => Fault l end.
Definition ld_event (l i : Z) : M kbd key_event := λ s,
  match kb_queue s !! l ≫= (.!! Z.to_nat i) with Some e => Ok (e, s) | None => Fault i end.
Definition st_event (l i : Z) (e : key_event) : M kbd unit := λ s,
  match kb_queue s !! l with
  | Some q => if decide (Z.to_nat i < length q)%nat then Ok (tt, with_queue l (<[Z.to_nat i := e]> q) s) else Fault i
  | None => Fault l
  end.

(* src/arch/x86_64/include/keyboard.c 23-40 keyboard_push *)
Definition keyboard_push (level : Z) (entry : key_event) : M kbd unit :=
  st ← ld_qstate level;
  let next := (q_head st + 1) mod RING_BUFFER_SIZE in
  when (next =? q_tail st)
    (modify (with_qstate level (QueueState (q_head st) ((q_tail st + 1) mod RING_BUFFER_SIZE) (q_used st)))) ;;
  st_event level (q_head st) entry ;;
  st ← ld_qstate level;
  modify (with_qstate level (QueueState next (q_tail st) (q_used st))).

(* src/arch/x86_64/include/keyboard.c 50-66 keyboard_poll *)
Definition keyboard_poll (level : Z) : M kbd (option key_event) :=
  st ← ld_qstate level;
  if q_tail st =? q_head st then mret None else
  out ← ld_event level (q_tail st);
  modify (with_qstate level (QueueState (q_head st) ((q_tail st + 1) mod RING_BUFFER_SIZE) (q_used st))) ;;
  mret (Some out).

(** ** Interrupts *)

(* src/arch/x86_64/drivers/ps2k.c 57-64 scancode_to_ascii *)
Definition scancode_to_ascii : list Z :=
  [ 0; 27; 49; 50; 51; 52; 53; 54; 55; 56; 57; 48;
    45; 61; 8; 9; 113; 119; 101; 114; 116; 121; 117; 105;
    111; 112; 91; 93; 10; 1; 97; 115; 100; 102; 103; 104;
    106; 107; 108; 59; 39; 96; 2; 92; 122; 120; 99; 118;
    98; 110; 109; 44; 46; 47; 3; 42; 4; 32 ].

(* src/arch/x86_64/drivers/ps2k.c 66-73 scancode_to_ascii_uppercase *)
Definition scancode_to_ascii_uppercase : list Z :=
  [ 0; 27; 33; 64; 35; 36; 37; 94; 38; 42; 40; 41;
    95; 43; 8; 9; 81; 87; 69; 82; 84; 89; 85; 73;
    79; 80; 123; 125; 10; 1; 65; 83; 68; 70; 71; 72;
    74; 75; 76; 58; 34; 126; 2; 124; 90; 88; 67; 86;
    66; 78; 77; 60; 62; 63; 3; 42; 4; 32 ].

(* src/arch/x86_64/drivers/ps2k.c 81-83 is_key_pressed *)
Definition is_key_pressed (code : Z) : M kbd Z := λ s,
  match kb_pressed s !! code with Some v => Ok (v, s) | None => Fault code end.

Definition press (index v : Z) : M kbd unit := λ s,
  match kb_pressed s !! index with Some _ => Ok (tt, with_pressed index v s) | None => Fault index end.

(** [keyboard_push] to every level in use. *)
Definition push_all (ev : key_event) : M kbd unit :=
  for_up (Z.to_nat KEYBOARD_QUEUE_LEVELS) 0 (λ lvl,
    st ← ld_qstate lvl;
    when (nz (q_used st)) (keyboard_push lvl ev)).

(** The write of [apic_send_eoi]. *)
Definition send_eoi : M kbd unit := modify (λ s, with_eois (kb_eois s + 1) s).

(** The handler for the scan code in the controller's data register; [ticks] is the
    timer. *)
(* src/arch/x86_64/drivers/ps2k.c 107-155 ps2k_irq_handler *)
Definition ps2k_irq_handler (ticks scancode : Z) : M kbd unit :=
  if scancode =? 0xE0 then modify (with_e0 true) ;; send_eoi else
  e0 ← gets kb_e0;
  let index := if (e0 : bool) then (scancode .& 0x7F) .| 0x80 else scancode .& 0x7F in
  (if nz (scancode .& 0x80) then
     press index 0 ;;
     when ((index =? 0x2A) || (index =? 0x36)) (modify (with_shift false))
   else
     press index 1 ;;
     if (index =? 0x2A) || (index =? 0x36) then modify (with_shift true)
     else
     shift ← gets kb_shift;
     match (if (shift : bool) then scancode_to_ascii_uppercase else scancode_to_ascii) !! Z.to_nat index with
     | Some c =>
         if c =? 0 then mret tt else
         modify (λ s, with_serial (kb_serial s ++ [c]) s) ;;
         push_all (KeyEvent KEY_EVENT_DOWN (s8 index) (s8 c) (s8 ticks))
     | None => mret tt
     end) ;;
  modify (with_e0 false) ;;
  send_eoi.

(** The handler registered for the keyboard's interrupt; waiting for a key depends on
    nothing else of the driver. *)
Class IrqHandler := irq_handler : Z → Z → M kbd unit.
#[export] Instance ps2k_handler : IrqHandler := ps2k_irq_handler.

Section wait.
Context `{IRQ : IrqHandler}.

(** [hlt] waits for the next interrupt; without one the processor stays halted. *)
Definition hlt (ticks : Z) : M kbd unit :=
  irqs ← gets kb_irqs;
  match irqs with
  | [] => halt
  | sc :: rest => modify (with_irqs rest) ;; irq_handler ticks sc
  end.

(** The loop ends when an event arrives, at most [fuel] interrupts later. *)
(* src/arch/x86_64/include/keyboard.c 71-77 keyboard_block_read *)
Fixpoint keyboard_block_read (fuel : nat) (ticks level : Z) : M kbd key_event :=
  r ← keyboard_poll level;
  match r with
  | Some e => mret e
  | None =>
      match fuel with
      | O => out_of_fuel
      | S fuel => hlt ticks ;; keyboard_block_read fuel ticks level
      end
  end.
End wait.

(* src/arch/x86_64/include/keyboard.c 89-100 register_keyboard_listener *)
Definition register_keyboard_listener : M kbd Z :=
  r ← for_find (Z.to_nat KEYBOARD_QUEUE_LEVELS) 0 (λ level,
    st ← ld_qstate level;
    if nz (q_used st) then mret None
    else modify (with_qstate level (QueueState (q_head st) (q_tail st) 1)) ;; mret (Some level));
  match r with
  | Some level => mret level
  | None => panic "keyboard multiqueue full"
  end.

(* src/arch/x86_64/include/keyboard.c 148-153 remove_keyboard_listener *)
Definition remove_keyboard_listener (level : Z) : M kbd unit :=
  st ← ld_qstate level;
  modify (with_qstate level (QueueState 0 0 0)).

(** ** Reading a line *)

Record tty := Tty { t_kbd : kbd; t_con : console }.

Definition on_kbd {A} (m : M kbd A) : M tty A := λ s,
  match m (t_kbd s) with
  | Ok (a, k) => Ok (a, Tty k (t_con s))
  | Panic msg => Panic msg | Halt => Halt | Fault a => Fault a | OutOfFuel => OutOfFuel
  end.
Definition on_con {A} (m : M console A) : M tty A := λ s,
  match m (t_con s) with
  | Ok (a, c) => Ok (a, Tty (t_kbd s) c)
  | Panic msg => Panic msg | Halt => Halt | Fault a => Fault a | OutOfFuel => OutOfFuel
  end.

Section readline.
Context `{IRQ : IrqHandler}.

(** The loop of [readline] with [pos] characters in the buffer [buf], an array of
    [len] bytes; a store outside it faults.  [fuel] bounds the events read and the
    interrupts waited for. *)
(* src/arch/x86_64/include/keyboard.c 109-138 readline *)
Fixpoint readline_loop (font : fontStyle) (fuel : nat) (ticks level len pos : Z) (buf : list Z) : M tty (Z * list Z) :=
  match fuel with
  | O => out_of_fuel
  | S fuel' =>
      ev ← on_kbd (keyboard_block_read fuel' ticks level);
      if negb (ev_type ev =? KEY_EVENT_DOWN) then readline_loop font fuel' ticks level len pos buf else
      let c := s8 (ev_value ev) in
      if c =? 10 then
        on_con (console_putchar font 10) ;;
        if decide (Z.to_nat pos < length buf)%nat then mret (pos, <[Z.to_nat pos := 0]> buf) else fault pos
      else if c =? 8 then
        if 0 <? pos then on_con console_backspace ;; readline_loop font fuel' ticks level len (pos - 1) buf
        else readline_loop font fuel' ticks level len pos buf
      else if (32 <=? c) && (c <? 127) then
        if pos <? len - 1 then
          if decide (Z.to_nat pos < length buf)%nat then
            on_con (console_putchar font c) ;;
            readline_loop font fuel' ticks level len (pos + 1) (<[Z.to_nat pos := c]> buf)
          else fault pos
        else readline_loop font fuel' ticks level len pos buf
      else readline_loop font fuel' ticks level len pos buf
  end.

Definition readline (font : fontStyle) (fuel : nat) (ticks level len : Z) (buf : list Z) : M tty (Z * list Z) :=
  if len <=? 0 then mret (0, buf) else readline_loop font fuel ticks level len 0 buf.
End readline.
