(* ===== verification/KeyboardProps.v ===== *)
(** * The theorems about the keyboard

    The ring buffers refine queues that drop their oldest entry when full; the
    interrupt handler refines a decoder of scan codes; reading a line refines line
    editing on the characters decoded. *)

From S2P Require Import Prelude Loops Gfx Console Format ConsoleProps Keyboard.

(** ** The abstract queues *)

(** Room for one entry less than the buffer has slots. *)
Definition push (q : list key_event) (e : key_event) : list key_event :=
  (if decide (length q = 99%nat) then tail q else q) ++ [e].

(** Level [l] of [s] has the used flag [u] and holds the events [q], oldest first. *)
Definition holds (s : kbd) (l u : Z) (q : list key_event) : Prop :=
  ∃ buf hd tl,
    kb_queue s !! l = Some buf ∧ kb_state s !! l = Some (QueueState hd tl u) ∧
    length buf = 100%nat ∧ 0 ≤ tl < 100 ∧ (length q ≤ 99)%nat ∧
    hd = (tl + Z.of_nat (length q)) mod 100 ∧
    ∀ i e, q !! i = Some e → buf !! Z.to_nat ((tl + Z.of_nat i) mod 100) = Some e.

(** Only level [l] of the queues changed. *)
Definition only_level (l : Z) (s s' : kbd) : Prop :=
  (∀ l', l' ≠ l → kb_queue s' !! l' = kb_queue s !! l' ∧ kb_state s' !! l' = kb_state s !! l') ∧
  kb_pressed s' = kb_pressed s ∧ kb_shift s' = kb_shift s ∧ kb_e0 s' = kb_e0 s ∧
  kb_serial s' = kb_serial s ∧ kb_irqs s' = kb_irqs s ∧ kb_eois s' = kb_eois s.

Lemma wp_ld_qstate l st (Q : queue_state → kbd → Prop) s :
  kb_state s !! l = Some st → Q st s → wp (ld_qstate l) Q s.
Proof. unfold wp, ld_qstate. by intros ->. Qed.

Lemma mod100_ne a b : 0 ≤ a < 100 → 0 ≤ b < 100 → a ≠ b → ∀ t, (t + a) mod 100 ≠ (t + b) mod 100.
Proof.
  intros Ha Hb Hne t E. pose proof (Z.div_mod (t + a) 100 ltac:(lia)). pose proof (Z.div_mod (t + b) 100 ltac:(lia)).
  lia.
Qed.

(** Storing at the head does not touch the entries in between. *)
Lemma store_at_head (buf q : list key_event) tl e hd :
  length buf = 100%nat → 0 ≤ tl < 100 → (length q ≤ 98)%nat → hd = (tl + Z.of_nat (length q)) mod 100 →
  (∀ i x, q !! i = Some x → buf !! Z.to_nat ((tl + Z.of_nat i) mod 100) = Some x) →
  ∀ i x, (q ++ [e]) !! i = Some x →
    <[Z.to_nat hd := e]> buf !! Z.to_nat ((tl + Z.of_nat i) mod 100) = Some x.
Proof.
  intros Hb Ht Hq -> Hents i x Hi.
  pose proof (Z.mod_pos_bound (tl + Z.of_nat (length q)) 100 ltac:(lia)).
  pose proof (Z.mod_pos_bound (tl + Z.of_nat i) 100 ltac:(lia)).
  apply lookup_app_Some in Hi as [Hi|[Hge Hi]].
  - pose proof (lookup_lt_Some _ _ _ Hi). rewrite list_lookup_insert_ne; [by apply Hents|].
    intros E. apply (mod100_ne (Z.of_nat (length q)) (Z.of_nat i) ltac:(lia) ltac:(lia) ltac:(lia) tl). lia.
  - assert (i = length q) as ->.
    { apply lookup_lt_Some in Hi. simpl in Hi. lia. }
    rewrite Nat.sub_diag in Hi. injection Hi as <-. apply list_lookup_insert_eq. lia.
Qed.

Lemma mod100_succ t n : 0 ≤ n → ((t + n) mod 100 + 1) mod 100 = (t + (n + 1)) mod 100.
Proof. intros. rewrite Zplus_mod_idemp_l. f_equal. lia. Qed.

Lemma keyboard_push_ok s l u q e :
  holds s l u q → wp (keyboard_push l e) (λ _ s', holds s' l u (push q e) ∧ only_level l s s') s.
Proof.
  intros (buf & hd & tl & Hbuf & Hst & Hlen & Ht & Hq & Hhd & Hents).
  unfold keyboard_push. apply wp_bind. eapply wp_ld_qstate; [exact Hst|]. cbn [q_head q_tail q_used].
  pose proof (Z.mod_pos_bound (tl + Z.of_nat (length q)) 100 ltac:(lia)) as Hhb. rewrite <- Hhd in Hhb.
  assert ((hd + 1) mod 100 = (tl + (Z.of_nat (length q) + 1)) mod 100) as Hnext by (rewrite Hhd; apply mod100_succ; lia).
  (* the state after the store, for a queue [q0] behind tail [tl0] *)
  assert (∀ s0 tl0 q0, kb_queue s0 !! l = Some buf → kb_state s0 !! l = Some (QueueState hd tl0 u) →
    only_level l s s0 → 0 ≤ tl0 < 100 → (length q0 ≤ 98)%nat → hd = (tl0 + Z.of_nat (length q0)) mod 100 →
    (∀ i x, q0 !! i = Some x → buf !! Z.to_nat ((tl0 + Z.of_nat i) mod 100) = Some x) →
    wp (st_event l hd e ;; st ← ld_qstate l; modify (with_qstate l (QueueState ((hd + 1) mod 100) (q_tail st) (q_used st))))
      (λ _ s', holds s' l u (q0 ++ [e]) ∧ only_level l s s') s0) as Hstore.
  { intros s0 tl0 q0 Hb0 Hst0 Honly Ht0 Hq0 Hhd0 Hents0. apply wp_bind. eapply wp_intro.
    { unfold st_event. rewrite Hb0, decide_True by lia. reflexivity. }
    apply wp_bind. eapply wp_ld_qstate; [exact Hst0|]. apply wp_modify. split.
    - exists (<[Z.to_nat hd := e]> buf), ((hd + 1) mod 100), tl0. cbn.
      rewrite !lookup_insert_eq, length_insert, length_app. cbn [length].
      split_and!; try done; [lia|lia|lia|rewrite Hhd0, mod100_succ by lia; f_equal; lia|].
      by apply store_at_head.
    - destruct Honly as (Ho & ?). split; [|done]. intros l' Hl'. cbn.
      rewrite !lookup_insert_ne by done. by apply Ho. }
  unfold push. destruct (decide (length q = 99%nat)) as [E|E].
  - assert ((hd + 1) mod 100 = tl) as Htl.
    { rewrite Hnext, E. replace (tl + (Z.of_nat 99 + 1)) with (tl + 1 * 100) by lia.
      rewrite Z.mod_add, Z.mod_small by lia. done. }
    rewrite (proj2 (Z.eqb_eq _ _) Htl). unfold when. apply wp_bind, wp_modify.
    destruct q as [|x q]; [done|]. cbn [tail length] in *. apply (Hstore _ ((tl + 1) mod 100) q); cbn.
    + done.
    + by rewrite lookup_insert_eq.
    + split; [|done]. intros l' Hl'. cbn. by rewrite lookup_insert_ne.
    + apply Z.mod_pos_bound. lia.
    + lia.
    + rewrite Hhd, Zplus_mod_idemp_l. f_equal. lia.
    + intros i y Hi. rewrite Zplus_mod_idemp_l.
      replace (tl + 1 + Z.of_nat i) with (tl + Z.of_nat (S i)) by lia. by apply Hents.
  - assert ((hd + 1) mod 100 ≠ tl) as Hne.
    { rewrite Hnext. replace tl with ((tl + 0) mod 100) at 2 by (rewrite Z.add_0_r; apply Z.mod_small; lia).
      apply mod100_ne; lia. }
    rewrite (proj2 (Z.eqb_neq _ _) Hne). unfold when. apply wp_bind, wp_ret.
    apply (Hstore _ tl q); try done. lia.
Qed.

Lemma keyboard_poll_ok s l u q :
  holds s l u q →
  wp (keyboard_poll l) (λ r s', match q with
    | [] => r = None ∧ s' = s
    | e :: q' => r = Some e ∧ holds s' l u q' ∧ only_level l s s' end) s.
Proof.
  intros (buf & hd & tl & Hbuf & Hst & Hlen & Ht & Hq & Hhd & Hents).
  unfold keyboard_poll. apply wp_bind. eapply wp_ld_qstate; [exact Hst|]. cbn [q_head q_tail q_used].
  destruct q as [|e q].
  - cbn [length] in Hhd. rewrite Z.add_0_r, Z.mod_small in Hhd by lia. subst hd. by rewrite Z.eqb_refl.
  - cbn [length] in *. assert (tl ≠ hd) as Hne.
    { rewrite Hhd. replace tl with ((tl + 0) mod 100) at 1 by (rewrite Z.add_0_r; apply Z.mod_small; lia).
      apply mod100_ne; lia. }
    rewrite (proj2 (Z.eqb_neq _ _) Hne). apply wp_bind.
    pose proof (Hents 0%nat e eq_refl) as He. rewrite Z.add_0_r, Z.mod_small in He by lia.
    eapply wp_intro; [unfold ld_event; rewrite Hbuf; cbn; by rewrite He|].
    apply wp_bind, wp_modify, wp_ret. split; [done|]. split.
    + exists buf, hd, ((tl + 1) mod 100). cbn. rewrite lookup_insert_eq.
      pose proof (Z.mod_pos_bound (tl + 1) 100 ltac:(lia)). split_and!; try done; try lia.
      * rewrite Hhd, Zplus_mod_idemp_l. f_equal. lia.
      * intros i y Hi. rewrite Zplus_mod_idemp_l.
        replace (tl + 1 + Z.of_nat i) with (tl + Z.of_nat (S i)) by lia. by apply Hents.
    + split; [|done]. intros l' Hl'. cbn. by rewrite lookup_insert_ne.
Qed.

(** ** The whole keyboard *)

(** The levels hold the queues [a], with their used flags, and every key has a state. *)
Record kbd_ok (s : kbd) (a : Z → Z * list key_event) : Prop := {
  ko_level l : 0 ≤ l < KEYBOARD_QUEUE_LEVELS → holds s l (a l).1 (a l).2;
  ko_keys i : 0 ≤ i < 256 → is_Some (kb_pressed s !! i);
}.

(** An event for everyone who listens. *)
Definition deliver (e : key_event) (a : Z → Z * list key_event) : Z → Z * list key_event :=
  λ l, ((a l).1, if (a l).1 =? 0 then (a l).2 else push (a l).2 e).

Lemma holds_frame l s s' k u q :
  only_level l s s' → k ≠ l → holds s k u q → holds s' k u q.
Proof.
  intros [Ho _] Hne (buf & hd & tl & H1 & H2 & Hrest). exists buf, hd, tl.
  destruct (Ho k Hne) as [-> ->]. done.
Qed.

Definition same_keys (s s' : kbd) : Prop :=
  kb_pressed s' = kb_pressed s ∧ kb_shift s' = kb_shift s ∧ kb_e0 s' = kb_e0 s ∧ kb_irqs s' = kb_irqs s ∧
  kb_eois s' = kb_eois s.

Lemma holds_used s l u q : holds s l u q → ∃ hd tl, kb_state s !! l = Some (QueueState hd tl u).
Proof. intros (buf & hd & tl & _ & H & _). eauto. Qed.

Lemma push_all_ok s a e :
  kbd_ok s a → wp (push_all e) (λ _ s', kbd_ok s' (deliver e a) ∧ same_keys s s') s.
Proof.
  intros K. unfold push_all. eapply wp_mono.
  { apply (wp_for_up _ 0 _ (λ j s', kbd_ok s' (λ l, if l <? j then deliver e a l else a l) ∧ same_keys s s')).
    - split; [|done]. destruct K as [Hl Hk]. split; [|done]. intros l Hlv.
      rewrite (proj2 (Z.ltb_ge l 0)) by lia. exact (Hl l Hlv).
    - intros j s1 Hj [[Hl Hk] Hsame]. change (Z.of_nat (Z.to_nat KEYBOARD_QUEUE_LEVELS)) with 10 in Hj.
      assert (0 ≤ j < KEYBOARD_QUEUE_LEVELS) as Hj' by (lia).
      pose proof (Hl j Hj') as Hold. cbv beta in Hold. rewrite Z.ltb_irrefl in Hold.
      destruct (holds_used _ _ _ _ Hold) as (hd & tl & Hst).
      apply wp_bind. eapply wp_ld_qstate; [exact Hst|]. cbn [q_used]. unfold when, nz.
      destruct (Z.eqb_spec (a j).1 0) as [E|E]; cbn [negb].
      + apply wp_ret. split; [|done]. split; [|done]. intros l Hlv. specialize (Hl l Hlv).
        destruct (Z.ltb_spec l j), (Z.ltb_spec l (j + 1)); try lia; [exact Hl| |exact Hl].
        assert (l = j) as -> by lia. unfold deliver. cbn [fst snd].
        rewrite (proj2 (Z.eqb_eq _ _) E). exact Hold.
      + eapply wp_mono; [apply keyboard_push_ok; exact Hold|]. intros [] s2 [Hnew Honly].
        pose proof Honly as (_ & Hp & Hsh & He & _ & Hirq & Heoi). split.
        * split; [|intros i Hi; rewrite Hp; by apply Hk]. intros l Hlv. destruct (decide (l = j)) as [->|Hne].
          -- rewrite (proj2 (Z.ltb_lt j (j + 1))) by lia. unfold deliver. cbn [fst snd].
             rewrite (proj2 (Z.eqb_neq _ _) E). exact Hnew.
          -- eapply holds_frame; [exact Honly|done|]. specialize (Hl l Hlv).
             destruct (Z.ltb_spec l j), (Z.ltb_spec l (j + 1)); try lia; exact Hl.
        * destruct Hsame as (?&?&?&?&?). split_and!; congruence. }
  intros [] s' [[Hl Hk] Hsame]. split; [|done]. split; [|done]. intros l Hlv. specialize (Hl l Hlv).
  cbv beta in Hl. rewrite (proj2 (Z.ltb_lt _ _)) in Hl; [exact Hl|]. lia.
Qed.

(** ** Decoding scan codes *)

(** The key a scan code is for. *)
Definition key_index (e0 : bool) (sc : Z) : Z := if e0 then (sc .& 0x7F) .| 0x80 else sc .& 0x7F.

Definition is_shift (i : Z) : bool := (i =? 0x2A) || (i =? 0x36).

(** The character of a key, if it has one. *)
Definition key_char (shift : bool) (i : Z) : option Z :=
  c ← (if shift then scancode_to_ascii_uppercase else scancode_to_ascii) !! Z.to_nat i;
  if c =? 0 then None else Some c.

(** One scan code, in a state of the modifiers: the new state, and the key pressed with
    its character. *)
Definition decode1 (shift e0 : bool) (sc : Z) : bool * bool * option (Z * Z) :=
  if sc =? 0xE0 then (shift, true, None) else
  let i := key_index e0 sc in
  if nz (sc .& 0x80) then (if is_shift i then false else shift, false, None)
  else if is_shift i then (true, false, None)
  else (shift, false, (λ c, (i, c)) <$> key_char shift i).

Definition event_of (ticks : Z) (ic : Z * Z) : key_event :=
  KeyEvent KEY_EVENT_DOWN (s8 ic.1) (s8 ic.2) (s8 ticks).

(** A decoder of single scan codes, and the events of a sequence of them. *)
Definition decoder : Type := bool → bool → Z → bool * bool * option (Z * Z).

Fixpoint decode (dec : decoder) (ticks : Z) (shift e0 : bool) (scs : list Z) : list key_event :=
  match scs with
  | [] => []
  | sc :: scs =>
      let '(shift', e0', r) := dec shift e0 sc in
      match r with
      | Some ic => event_of ticks ic :: decode dec ticks shift' e0' scs
      | None => decode dec ticks shift' e0' scs
      end
  end.

Definition deliver_opt (ticks : Z) (r : option (Z * Z)) (a : Z → Z * list key_event) :=
  match r with Some ic => deliver (event_of ticks ic) a | None => a end.

Lemma key_index_range e0 sc : 0 ≤ sc < 256 → 0 ≤ key_index e0 sc < 256.
Proof.
  intros Hsc. assert (0 ≤ sc .& 0x7F < 2 ^ 7) as Hl.
  { change 0x7F with (Z.ones 7). rewrite Z.land_ones by lia. apply Z.mod_pos_bound. lia. }
  unfold key_index. destruct e0; [|lia]. change 256 with (2 ^ 8).
  apply lor_bound; lia.
Qed.

Lemma kbd_ok_shift b s a : kbd_ok s a → kbd_ok (with_shift b s) a.
Proof. intros [? ?]. by split. Qed.
Lemma kbd_ok_eois n s a : kbd_ok s a → kbd_ok (with_eois n s) a.
Proof. intros [? ?]. by split. Qed.

Lemma kbd_ok_e0 b s a : kbd_ok s a → kbd_ok (with_e0 b s) a.
Proof. intros [? ?]. by split. Qed.
Lemma kbd_ok_serial l s a : kbd_ok s a → kbd_ok (with_serial l s) a.
Proof. intros [? ?]. by split. Qed.
Lemma kbd_ok_irqs l s a : kbd_ok s a → kbd_ok (with_irqs l s) a.
Proof. intros [? ?]. by split. Qed.

Lemma press_ok i v s a (Q : unit → kbd → Prop) :
  kbd_ok s a → 0 ≤ i < 256 →
  (kbd_ok (with_pressed i v s) a → Q tt (with_pressed i v s)) → wp (press i v) Q s.
Proof.
  intros [Hl Hk] Hi HQ. unfold wp, press. destruct (Hk i Hi) as [x ->]. apply HQ. split; [done|].
  intros j Hj. cbn. destruct (decide (j = i)) as [->|]; [rewrite lookup_insert_eq; eauto|].
  rewrite lookup_insert_ne by done. by apply Hk.
Qed.

(** What a handler promises to those who wait for keys: it is a decoder, with its result
    for every listener. *)
Class IrqDecodes (IRQ : IrqHandler) (dec : decoder) : Prop := irq_decodes s a ticks sc :
  kbd_ok s a → 0 ≤ sc < 256 →
  wp (irq_handler ticks sc) (λ _ s',
    let '(shift', e0', r) := dec (kb_shift s) (kb_e0 s) sc in
    kbd_ok s' (deliver_opt ticks r a) ∧ kb_shift s' = shift' ∧ kb_e0 s' = e0' ∧ kb_irqs s' = kb_irqs s ∧
    (sc ≠ 0xE0 → kb_pressed s' !! key_index (kb_e0 s) sc = Some (if nz (sc .& 0x80) then 0 else 1)) ∧
    kb_eois s' = kb_eois s + 1) s.

#[export] Instance ps2k_decodes : IrqDecodes ps2k_handler decode1.
Proof.
  intros s a ticks sc K Hsc. unfold irq_handler, ps2k_handler. unfold ps2k_irq_handler, decode1. destruct (Z.eqb_spec sc 0xE0) as [->|Hn].
  { apply wp_bind, wp_modify, wp_modify. split; [by apply kbd_ok_eois, kbd_ok_e0|done]. }
  apply wp_bind, wp_gets. fold (key_index (kb_e0 s) sc). pose proof (key_index_range (kb_e0 s) sc Hsc) as Hi.
  set (i := key_index (kb_e0 s) sc) in *. fold (is_shift i). destruct (nz (sc .& 0x80)).
  - apply wp_bind, wp_bind. eapply press_ok; [exact K|done|]. intros K'. unfold when.
    destruct (is_shift i).
    + apply wp_modify, wp_bind, wp_modify, wp_modify. split; [by apply kbd_ok_eois, kbd_ok_e0, kbd_ok_shift|]. cbn. by rewrite lookup_insert_eq.
    + apply wp_ret, wp_bind, wp_modify, wp_modify. split; [by apply kbd_ok_eois, kbd_ok_e0|]. cbn. by rewrite lookup_insert_eq.
  - apply wp_bind, wp_bind. eapply press_ok; [exact K|done|]. intros K'.
    destruct (is_shift i).
    { apply wp_modify, wp_bind, wp_modify, wp_modify. split; [by apply kbd_ok_eois, kbd_ok_e0, kbd_ok_shift|]. cbn. by rewrite lookup_insert_eq. }
    apply wp_bind, wp_gets. cbn [kb_shift with_pressed]. unfold key_char.
    destruct ((if kb_shift s then scancode_to_ascii_uppercase else scancode_to_ascii) !! Z.to_nat i) as [c|] eqn:Ec.
    + cbn [mbind option_bind]. destruct (c =? 0).
      * apply wp_ret, wp_bind, wp_modify, wp_modify. split; [by apply kbd_ok_eois, kbd_ok_e0|]. cbn. by rewrite lookup_insert_eq.
      * apply wp_bind, wp_modify. eapply wp_mono; [apply push_all_ok; by apply kbd_ok_serial|].
        intros [] s' [K2 (Hp & Hs & He & Hq & Hn')]. apply wp_bind, wp_modify, wp_modify. split; [by apply kbd_ok_eois, kbd_ok_e0|].
        cbn in *. rewrite Hp, Hs, Hq, Hn'. by rewrite lookup_insert_eq.
    + apply wp_ret, wp_bind, wp_modify, wp_modify. split; [by apply kbd_ok_eois, kbd_ok_e0|]. cbn. by rewrite lookup_insert_eq.
Qed.

(** ** Waiting for events *)

Section wait.
Context {IRQ : IrqHandler} {dec : decoder} {ID : IrqDecodes IRQ dec}.

(** What a listener at [l] will read: what is queued, then what the scan codes still to
    come decode to. *)
Definition stream (ticks l : Z) (s : kbd) (a : Z → Z * list key_event) : list key_event :=
  (a l).2 ++ decode dec ticks (kb_shift s) (kb_e0 s) (kb_irqs s).

(** Level [l] has a listener, and the scan codes are bytes. *)
Record listening (l : Z) (s : kbd) (a : Z → Z * list key_event) : Prop := {
  li_ok : kbd_ok s a;
  li_level : 0 ≤ l < KEYBOARD_QUEUE_LEVELS;
  li_used : (a l).1 ≠ 0;
  li_irqs : Forall (λ sc, 0 ≤ sc < 256) (kb_irqs s);
}.

Lemma hlt_ok ticks l s a :
  listening l s a → (a l).2 = [] → kb_irqs s ≠ [] →
  wp (hlt ticks) (λ _ s', ∃ a', listening l s' a' ∧ stream ticks l s' a' = stream ticks l s a ∧
    S (length (kb_irqs s')) = length (kb_irqs s)) s.
Proof using ID.
  intros [K Hl Hu Hirq] Hq Hne. unfold hlt. apply wp_bind, wp_gets.
  unfold stream. rewrite Hq. destruct (kb_irqs s) as [|sc scs] eqn:E; [done|].
  apply Forall_cons in Hirq as [Hsc Hirq]. apply wp_bind, wp_modify.
  eapply wp_mono; [apply (irq_decodes _ a ticks sc); [by apply kbd_ok_irqs|done]|].
  cbn [kb_shift kb_e0 kb_irqs with_irqs decode app]. destruct (dec (kb_shift s) (kb_e0 s) sc) as [[sh e0] r].
  intros [] s' (K' & Hsh & He & Hq' & _). exists (deliver_opt ticks r a). rewrite Hsh, He, Hq'. split.
  - split; [done|done| |by rewrite Hq']. by destruct r.
  - split; [|done]. destruct r as [ic|]; cbn [deliver_opt]; [|by rewrite Hq].
    unfold deliver. cbn [fst snd]. by rewrite (proj2 (Z.eqb_neq _ _) Hu), Hq.
Qed.

Lemma poll_listening l s a x q :
  listening l s a → (a l).2 = x :: q →
  wp (keyboard_poll l) (λ r s', r = Some x ∧ ∃ a', listening l s' a' ∧ (a' l).2 = q ∧ same_keys s s') s.
Proof.
  intros L Eq. pose proof (li_ok _ _ _ L) as K. pose proof (ko_level _ _ K l (li_level _ _ _ L)) as Hh.
  rewrite Eq in Hh. eapply wp_mono; [by apply keyboard_poll_ok|]. intros r s' (-> & Hh' & Honly).
  split; [done|]. pose proof Honly as (_ & Hp & Hs & He & _ & Hi & Heoi).
  exists (λ k, if decide (k = l) then ((a l).1, q) else a k). split; [|by rewrite decide_True].
  split; [|apply L|rewrite decide_True by done; apply L|rewrite Hi; apply L].
  split; [|intros i Hi'; rewrite Hp; by apply K].
  intros k Hk. destruct (decide (k = l)) as [->|Hne]; [exact Hh'|].
  eapply holds_frame; [exact Honly|done|by apply K].
Qed.

Lemma poll_empty l s a : listening l s a → (a l).2 = [] → wp (keyboard_poll l) (λ r s', r = None ∧ s' = s) s.
Proof.
  intros L Eq. pose proof (ko_level _ _ (li_ok _ _ _ L) l (li_level _ _ _ L)) as Hh. rewrite Eq in Hh.
  by apply keyboard_poll_ok in Hh.
Qed.

Lemma block_read_ok fuel ticks l s a e rest :
  listening l s a → stream ticks l s a = e :: rest → (length (kb_irqs s) ≤ fuel)%nat →
  wp (keyboard_block_read fuel ticks l) (λ e' s', e' = e ∧ ∃ a', listening l s' a' ∧
    stream ticks l s' a' = rest ∧ (length (kb_irqs s') ≤ length (kb_irqs s))%nat) s.
Proof using ID.
  revert s a. induction fuel as [|fuel IH]; intros s a L Hstr Hf; cbn [keyboard_block_read];
    destruct (a l).2 as [|x q] eqn:Eq.
  2,4: eapply wp_bind_mono; [by eapply poll_listening|]; intros r s' (-> & a' & L' & Eq' & _ & Hs & He & Hi & _);
    apply wp_ret; unfold stream in *; rewrite Eq in Hstr; injection Hstr as <- Hrest; split; [done|];
    exists a'; rewrite Eq', Hs, He, Hi; split_and!; [done|exact Hrest|lia].
  - unfold stream in Hstr. assert (kb_irqs s = []) as Ei by (by apply nil_length_inv; lia).
    by rewrite Eq, Ei in Hstr.
  - eapply wp_bind_mono; [by eapply poll_empty|]. intros r s' [-> ->]. assert (kb_irqs s ≠ []) as Ei.
    { intros Ei. unfold stream in Hstr. by rewrite Eq, Ei in Hstr. }
    eapply wp_bind_mono; [by apply (hlt_ok ticks l s a)|]. intros [] s1 (a1 & L1 & Hs1 & Hlen).
    eapply wp_mono; [apply (IH s1 a1); [done|congruence|lia]|].
    intros e' s2 (-> & a2 & ? & ? & ?). split; [done|]. exists a2. split_and!; [done|done|lia].
Qed.

End wait.

(** ** Line editing *)

(** The line after one more event, or [None] when it is complete; at most [n] characters. *)
Definition edit1 (n : nat) (line : list Z) (e : key_event) : option (list Z) :=
  if negb (ev_type e =? KEY_EVENT_DOWN) then Some line else
  let c := s8 (ev_value e) in
  if c =? 10 then None
  else if c =? 8 then Some (take (length line - 1) line)
  else if (32 <=? c) && (c <? 127) && bool_decide (length line < n)%nat then Some (line ++ [c])
  else Some line.

(** The line typed by the events, up to the first newline. *)
Fixpoint edit (n : nat) (line : list Z) (es : list key_event) : option (list Z) :=
  match es with
  | [] => None
  | e :: es => match edit1 n line e with None => Some line | Some line => edit n line es end
  end.

Lemma wp_on_kbd {A} (m : M kbd A) (Q : A → tty → Prop) s :
  wp m (λ a k, Q a (Tty k (t_con s))) (t_kbd s) → wp (on_kbd m) Q s.
Proof. unfold wp, on_kbd. by destruct (m (t_kbd s)) as [[a k]| | | |]. Qed.

Lemma wp_on_con {A} (m : M console A) (Q : A → tty → Prop) s :
  wp m (λ a c, Q a (Tty (t_kbd s) c)) (t_con s) → wp (on_con m) Q s.
Proof. unfold wp, on_con. by destruct (m (t_con s)) as [[a c]| | | |]. Qed.

(** [readline] gave back the line, terminated, in a buffer of the same size. *)
Definition line_read (line : list Z) (len : Z) (r : Z * list Z) : Prop :=
  r.1 = Z.of_nat (length line) ∧ take (length line) r.2 = line ∧
  r.2 !! length line = Some 0 ∧ Z.of_nat (length r.2) = len.

Lemma readline_loop_ok {IRQ : IrqHandler} {dec : decoder} {ID : IrqDecodes IRQ dec} font fuel ticks l len line pos buf s a es result :
  font_ok font → listening l (t_kbd s) a → con_ok (t_con s) →
  stream (dec:=dec) ticks l (t_kbd s) a = es → edit (Z.to_nat (len - 1)) line es = Some result →
  Z.of_nat (length buf) = len → take (length line) buf = line → pos = Z.of_nat (length line) → pos < len →
  (length es + length (kb_irqs (t_kbd s)) < fuel)%nat →
  wp (readline_loop font fuel ticks l len pos buf)
    (λ r s', line_read result len r ∧ con_ok (t_con s') ∧ ∃ a', listening l (t_kbd s') a') s.
Proof.
  intros F. revert fuel line pos buf s a. induction es as [|e es IH];
    intros fuel line pos buf s a L C Hstr Hed Hlen Htake -> Hpos Hf; [done|].
  destruct fuel as [|fuel]; [lia|]. cbn [length] in Hf. cbn [readline_loop].
  apply wp_bind, wp_on_kbd. eapply wp_mono; [apply (block_read_ok fuel ticks l _ a e es L Hstr); lia|].
  intros e' k (-> & a' & L' & Hstr' & Hirq). cbn [edit] in Hed. unfold edit1 in Hed.
  (* going on with line [line'] in buffer [buf'] *)
  assert (∀ line' buf' c, con_ok c → edit (Z.to_nat (len - 1)) line' es = Some result →
    Z.of_nat (length buf') = len → take (length line') buf' = line' → Z.of_nat (length line') < len →
    wp (readline_loop font fuel ticks l len (Z.of_nat (length line')) buf')
      (λ r s', line_read result len r ∧ con_ok (t_con s') ∧ ∃ a', listening l (t_kbd s') a') (Tty k c)) as Hgo.
  { intros line' buf' c Hc He' Hl' Ht' Hp'. eapply (IH fuel line' _ buf' (Tty k c) a'); try done. cbn. lia. }
  destruct (negb (ev_type e =? KEY_EVENT_DOWN)); [by apply Hgo|]. cbv zeta in *.
  set (c := s8 (ev_value e)) in *. destruct (Z.eqb_spec c 10).
  - injection Hed as <-. apply wp_bind, wp_on_con. eapply wp_mono; [by apply putchar_ok|].
    intros [] con' [C' _]. rewrite decide_True by lia. apply wp_ret. split; [|split; [done|by exists a']].
    split_and!; cbn; [done| |rewrite Nat2Z.id; apply list_lookup_insert_eq; lia|by rewrite length_insert].
    rewrite Nat2Z.id, take_insert_ge by lia. done.
  - destruct (Z.eqb_spec c 8).
    + destruct (Z.ltb_spec 0 (Z.of_nat (length line))).
      * apply wp_bind, wp_on_con. eapply wp_mono; [by apply backspace_ok|]. intros [] con' [C' _].
        replace (Z.of_nat (length line) - 1) with (Z.of_nat (length (take (length line - 1) line)))
          by (rewrite length_take; lia).
        apply Hgo; [done|done|done| |rewrite length_take; lia].
        rewrite length_take, Nat.min_l by lia. transitivity (take (length line - 1) (take (length line) buf)).
        -- by rewrite take_take, Nat.min_l by lia.
        -- by rewrite Htake.
      * assert (line = []) as -> by (apply nil_length_inv; lia). by apply Hgo.
    + destruct ((32 <=? c) && (c <? 127)) eqn:Ep; [|by apply Hgo].
      destruct (Z.ltb_spec (Z.of_nat (length line)) (len - 1)).
      * rewrite bool_decide_eq_true_2 in Hed by lia. cbn [andb] in Hed. rewrite decide_True by lia.
        apply wp_bind, wp_on_con. eapply wp_mono; [by apply putchar_ok|]. intros [] con' [C' _].
        replace (Z.of_nat (length line) + 1) with (Z.of_nat (length (line ++ [c]))) by (rewrite length_app; cbn; lia).
        apply Hgo; [done|done|by rewrite length_insert| |rewrite length_app; cbn; lia].
        rewrite length_app, Nat2Z.id. cbn [length].
        rewrite Nat.add_1_r, (take_S_r _ _ c) by (apply list_lookup_insert_eq; lia).
        by rewrite take_insert_ge, Htake by lia.
      * rewrite bool_decide_eq_false_2 in Hed by lia. by apply Hgo.
Qed.

(** ** Properties *)

(** Operations on one level. *)
Inductive queue_op := Push (e : key_event) | Poll.

Fixpoint run_ops (l : Z) (ops : list queue_op) : M kbd (list (option key_event)) :=
  match ops with
  | [] => mret []
  | Push e :: ops => keyboard_push l e ;; run_ops l ops
  | Poll :: ops => r ← keyboard_poll l; rs ← run_ops l ops; mret (r :: rs)
  end.

(** The same on a queue: the results of the polls, and what is left. *)
Fixpoint run_queue (q : list key_event) (ops : list queue_op) : list (option key_event) * list key_event :=
  match ops with
  | [] => ([], q)
  | Push e :: ops => run_queue (push q e) ops
  | Poll :: ops => let '(rs, q') := run_queue (tail q) ops in (head q :: rs, q')
  end.

(** C20: a level's ring buffer is a queue of 99 events, one less than its
    [RING_BUFFER_SIZE] slots: every sequence of pushes and polls gives the events in
    the order they were pushed; a push while 99 events are queued drops the oldest
    one; nothing outside the level changes. *)
Theorem keyboard_queue_refines s l u q ops :
  holds s l u q →
  wp (run_ops l ops) (λ rs s',
    rs = (run_queue q ops).1 ∧ holds s' l u (run_queue q ops).2 ∧ only_level l s s') s.
Proof.
  assert (∀ s1 s2 s3, only_level l s1 s2 → only_level l s2 s3 → only_level l s1 s3) as Htrans.
  { intros s1 s2 s3 (H1 & ?) (H2 & ?). split; [|intuition congruence]. intros l' Hl'.
    destruct (H1 l' Hl'), (H2 l' Hl'). split; congruence. }
  revert s q. induction ops as [|[e|] ops IH]; intros s q Hh; cbn [run_ops run_queue].
  - apply wp_ret. split; [done|]. split; [exact Hh|by repeat split].
  - eapply wp_bind_mono; [by apply keyboard_push_ok|]. intros [] s1 [H1 Ho].
    eapply wp_mono; [by apply IH|]. intros rs s2 (-> & ? & ?). split_and!; [done|done|by eapply Htrans].
  - eapply wp_bind_mono; [by apply keyboard_poll_ok|]. intros r s1 Hr.
    assert (r = head q ∧ holds s1 l u (tail q) ∧ only_level l s s1) as (-> & H1 & Ho).
    { destruct q as [|e q]; [|by destruct Hr as (-> & ? & ?)]. destruct Hr as [-> ->].
      split; [done|]. split; [exact Hh|by repeat split]. }
    eapply wp_bind_mono; [by apply IH|]. intros rs s2 (-> & H2 & Ho2). apply wp_ret.
    destruct (run_queue (tail q) ops) as [rs q']. split_and!; [done|done|by eapply Htrans].
Qed.

(** C21: the interrupt handler decodes scan codes as a keyboard of set 1 sends them
    (0xE0 prefixes, bit 7 for releases, shift), keeps the state of every key, and puts
    the event of a key with a character into the queue of each registered listener and
    no other; on every path it ends the interrupt at the controller, once. *)
Theorem irq_handler_correct s a ticks sc :
  kbd_ok s a → 0 ≤ sc < 256 →
  wp (ps2k_irq_handler ticks sc) (λ _ s',
    let '(shift', e0', r) := decode1 (kb_shift s) (kb_e0 s) sc in
    kb_shift s' = shift' ∧ kb_e0 s' = e0' ∧ kb_eois s' = kb_eois s + 1 ∧
    (sc ≠ 0xE0 → kb_pressed s' !! key_index (kb_e0 s) sc = Some (if nz (sc .& 0x80) then 0 else 1)) ∧
    ∀ l, 0 ≤ l < KEYBOARD_QUEUE_LEVELS →
      holds s' l (a l).1 (match r with
        | Some ic => if (a l).1 =? 0 then (a l).2 else push (a l).2 (event_of ticks ic)
        | None => (a l).2 end)) s.
Proof.
  intros K Hsc. eapply wp_mono; [by apply (irq_decodes (IRQ:=ps2k_handler) s a ticks sc)|]. intros [] s'.
  destruct (decode1 _ _ _) as [[sh e0] r]. intros (K' & ? & ? & _ & ? & ?). split_and!; [done..|].
  intros l Hl. pose proof (ko_level _ _ K' l Hl) as Hh. by destruct r.
Qed.

(** C19: [readline] returns the line typed: the characters the scan codes decode to, with
    backspaces applied, up to the first newline and cut to the size of the buffer.  The
    buffer is terminated and never overrun; the console stays well formed. *)
Theorem readline_correct font fuel ticks l len buf s a line :
  font_ok font → listening l (t_kbd s) a → con_ok (t_con s) →
  0 < len → Z.of_nat (length buf) = len →
  edit (Z.to_nat (len - 1)) [] (stream (dec:=decode1) ticks l (t_kbd s) a) = Some line →
  (length (stream (dec:=decode1) ticks l (t_kbd s) a) + length (kb_irqs (t_kbd s)) < fuel)%nat →
  wp (readline font fuel ticks l len buf)
    (λ r s', line_read line len r ∧ con_ok (t_con s')) s.
Proof.
  intros F L C Hl Hlen He Hf. unfold readline. rewrite (proj2 (Z.leb_gt len 0)) by lia.
  eapply wp_mono; [eapply (readline_loop_ok font fuel ticks l len [] 0 buf s a); try done|].
  intros r s' (? & ? & _). done.
Qed.

(** [register_keyboard_listener] gives out a level no one uses, with its queue as it
    was, and panics exactly if all levels are in use; [remove_keyboard_listener] makes
    the level free again, and empty. *)
Theorem listener_correct s a :
  kbd_ok s a →
  ((∃ l, 0 ≤ l < KEYBOARD_QUEUE_LEVELS ∧ (a l).1 = 0) →
    wp register_keyboard_listener (λ l s', 0 ≤ l < KEYBOARD_QUEUE_LEVELS ∧ (a l).1 = 0 ∧
      holds s' l 1 (a l).2 ∧ only_level l s s' ∧
      wp (remove_keyboard_listener l) (λ _ s'', holds s'' l 0 [] ∧ only_level l s' s'') s') s) ∧
  ((∀ l, 0 ≤ l < KEYBOARD_QUEUE_LEVELS → (a l).1 ≠ 0) →
    register_keyboard_listener s = Panic "keyboard multiqueue full").
Proof.
  intros K.
  assert (wp (for_find (Z.to_nat KEYBOARD_QUEUE_LEVELS) 0 (λ level,
      st ← ld_qstate level;
      if nz (q_used st) then mret None
      else modify (with_qstate level (QueueState (q_head st) (q_tail st) 1)) ;; mret (Some level)))
    (λ r s', match r with
      | Some l => (0 ≤ l < 10 ∧ (a l).1 = 0) ∧ holds s' l 1 (a l).2 ∧ only_level l s s'
      | None => s' = s ∧ ∀ l, 0 ≤ l < 0 + Z.of_nat (Z.to_nat KEYBOARD_QUEUE_LEVELS) → (a l).1 ≠ 0 end) s) as Hw.
  { apply (wp_for_find _ 0 _ (λ j s', s' = s ∧ ∀ l, 0 ≤ l < j → (a l).1 ≠ 0)
      (λ l s', (0 ≤ l < 10 ∧ (a l).1 = 0) ∧ holds s' l 1 (a l).2 ∧ only_level l s s')); [split; [done|lia]|].
    intros j s' Hj [-> Hbelow]. change (Z.of_nat (Z.to_nat KEYBOARD_QUEUE_LEVELS)) with 10 in Hj.
    pose proof (ko_level _ _ K j ltac:(lia)) as (buf & hd & tl & Hb & Hst & Hrest).
    apply wp_bind. eapply wp_ld_qstate; [exact Hst|]. cbn [q_used q_head q_tail]. unfold nz.
    destruct (Z.eqb_spec (a j).1 0) as [E|E]; cbn [negb].
    - apply wp_bind, wp_modify, wp_ret. split; [split; [lia|done]|]. split.
      + exists buf, hd, tl. cbn. by rewrite lookup_insert_eq.
      + split; [|done]. intros l' Hl'. cbn. by rewrite lookup_insert_ne.
    - apply wp_ret. split; [done|]. intros l Hl. destruct (decide (l = j)) as [->|]; [done|]. apply Hbelow. lia. }
  change (Z.of_nat (Z.to_nat KEYBOARD_QUEUE_LEVELS)) with 10 in Hw.
  destruct (wp_inv _ _ _ Hw) as (r & s' & E & Hr). unfold register_keyboard_listener. split.
  - intros (l & Hl & Hu). apply wp_bind. eapply wp_intro; [exact E|]. destruct r as [l'|].
    + destruct Hr as ([Hl' Hu'] & Hh & Ho). apply wp_ret. split_and!; try done; try lia.
      destruct Hh as (buf & hd & tl & Hb & Hst & Hlen & Hrest).
      unfold remove_keyboard_listener. apply wp_bind. eapply wp_ld_qstate; [exact Hst|].
      apply wp_modify. split.
      * exists buf, 0, 0. cbn. rewrite lookup_insert_eq. split_and!; try done; lia.
      * split; [|done]. intros k Hk. cbn. by rewrite lookup_insert_ne.
    + destruct Hr as [_ Hall]. exfalso. by apply (Hall l); [lia|].
  - intros Hall. rewrite (M_bind_Ok _ _ _ _ _ E). destruct r as [l|]; [|done].
    destruct Hr as [[Hl Hu] _]. exfalso. by apply (Hall l); [lia|].
Qed.

(** ** A concrete keyboard: one listener *)

Module ExKbd.
Definition event : key_event := KeyEvent 1 30 97 0.
Definition empty_kbd (irqs : list Z) : kbd := Kbd
  (list_to_map ((λ l, (l, replicate 100 event)) <$> seqZ 0 10))
  (list_to_map ((λ l, (l, QueueState 0 0 (if l =? 0 then 1 else 0))) <$> seqZ 0 10))
  (list_to_map ((λ i, (i, 0)) <$> seqZ 0 256)) false false [] irqs 0.

Definition queues (l : Z) : Z * list key_event := (if l =? 0 then 1 else 0, []).

Lemma fine irqs : kbd_ok (empty_kbd irqs) queues.
Proof.
  split.
  - intros l Hl. exists (replicate 100 event), 0, 0.
    assert (l ∈ seqZ 0 10) as Hin by (apply elem_of_seqZ; lia). clear Hl. revert l Hin.
    assert (Forall (λ l, kb_queue (empty_kbd []) !! l = Some (replicate 100 event) ∧
      kb_state (empty_kbd []) !! l = Some (QueueState 0 0 (queues l).1)) (seqZ 0 10)) as Hall.
    { repeat (apply Forall_cons; split; [by vm_compute|]). by apply Forall_nil. }
    intros l Hin. rewrite Forall_forall in Hall. destruct (Hall l Hin). cbn [queues snd length].
    split_and!; try done; lia.
  - intros i Hi. apply (Forall_forall (λ i, is_Some (kb_pressed (empty_kbd irqs) !! i)) (seqZ 0 256)).
    + by_decide.
    + apply elem_of_seqZ. lia.
Qed.

Lemma listens irqs : Forall (λ sc, 0 ≤ sc < 256) irqs → listening 0 (empty_kbd irqs) queues.
Proof. intros Hirq. by split; [apply fine| | |]. Qed.
End ExKbd.

Lemma keyboard_queue_refines_witness :
  wp (run_ops 0 [Push ExKbd.event; Poll; Poll]) (λ rs s', rs = [Some ExKbd.event; None]) (ExKbd.empty_kbd []).
Proof.
  eapply wp_mono; [apply (keyboard_queue_refines (ExKbd.empty_kbd []) 0 1 [])|].
  - exact (ko_level _ _ (ExKbd.fine []) 0 ltac:(done)).
  - intros rs s' (-> & _). done.
Defined.

Lemma irq_handler_correct_witness :
  wp (ps2k_irq_handler 0 0x1E) (λ _ s', holds s' 0 1 [ExKbd.event] ∧ holds s' 1 0 []) (ExKbd.empty_kbd []).
Proof.
  eapply wp_mono; [apply (irq_handler_correct _ _ 0 0x1E (ExKbd.fine [])); lia|].
  intros [] s' (_ & _ & _ & _ & Hh). split; [exact (Hh 0 ltac:(done))|exact (Hh 1 ltac:(done))].
Defined.

(** Shift, h, shift released, i, x, backspace, enter. *)
Lemma readline_correct_witness :
  wp (readline ExConsole.font 20 0 0 4 [1; 1; 1; 1])
    (λ r s', line_read [72; 105] 4 r ∧ con_ok (t_con s'))
    (Tty (ExKbd.empty_kbd [0x2A; 0x23; 0xAA; 0x17; 0x2D; 0x0E; 0x1C]) (ExConsole.start 0)).
Proof.
  eapply (readline_correct _ 20 0 0 4 [1; 1; 1; 1] _ ExKbd.queues).
  - apply ExConsole.font_fine.
  - apply ExKbd.listens. repeat constructor; lia.
  - apply ExConsole.start_fine. lia.
  - lia.
  - done.
  - by vm_compute.
  - vm_compute. lia.
Defined.

Lemma listener_correct_witness :
  wp register_keyboard_listener (λ l s', 0 ≤ l < KEYBOARD_QUEUE_LEVELS ∧ (ExKbd.queues l).1 = 0 ∧
      holds s' l 1 (ExKbd.queues l).2 ∧ only_level l (ExKbd.empty_kbd []) s' ∧
      wp (remove_keyboard_listener l) (λ _ s'', holds s'' l 0 [] ∧ only_level l s' s'') s') (ExKbd.empty_kbd []).
Proof. apply (proj1 (listener_correct _ _ (ExKbd.fine []))). exists 1. done. Defined.
