(* ===== verification/Ps2k.v ===== *)
(** * Port devices: the PS/2 controller and the serial line
      ([arch/x86_64/drivers/ps2k.c], [drivers/serial.c])

    The devices behind the I/O ports are a parameter: what the [n]-th [inb] returns
    may be anything.  Writes are recorded. *)

From S2P Require Import Prelude Loops CString Format.

Record ports := Ports { io_reads : nat; io_log : list (Z * Z) }.

(** Values a device returns: the number of the read, and the port. *)
Class Device := dev_read : nat → Z → Z.

Abbreviation COM1_PORT := 0x3F8%Z.

Section ports.
Context `{DV : Device}.

Definition inb (port : Z) : M ports Z := λ s,
  Ok (u8 (dev_read (io_reads s) port), Ports (S (io_reads s)) (io_log s)).
Definition outb (port v : Z) : M ports unit := modify (λ s, Ports (io_reads s) (io_log s ++ [(port, u8 v)])).

(** ** The keyboard controller *)

(* src/arch/x86_64/drivers/ps2k.c 45-55 ps2k_resources_t *)
Record ps2k_resources := Ps2kResources { port_data : Z; port_cmd : Z; irq : Z }.

Section ps2k.
Context (res : ps2k_resources).

Definition TIMEOUT : nat := Z.to_nat 100000.

(* src/arch/x86_64/drivers/ps2k.c 88-95 wait_for_kbd_input *)
Definition wait_for_kbd_input : M ports unit :=
  r ← for_find TIMEOUT 0 (λ _, v ← inb (port_cmd res); mret (if (v .& 0x02) =? 0 then Some tt else None));
  mret tt.

(* src/arch/x86_64/drivers/ps2k.c 97-105 wait_for_kbd_output *)
Definition wait_for_kbd_output : M ports bool :=
  r ← for_find TIMEOUT 0 (λ _, v ← inb (port_cmd res); mret (if nz (v .& 0x01) then Some tt else None));
  mret (match r with Some _ => true | None => false end).

Definition command (port v : Z) : M ports unit := wait_for_kbd_input ;; outb port v.

(** Read the answer and check it. *)
Definition expect (ok : Z → bool) : M ports unit :=
  v ← inb (port_data res);
  if ok v then mret tt else panic "ps2k controller failure".

(* src/arch/x86_64/drivers/ps2k.c 157-272 init_ps2k_driver *)
Definition init_ps2k_driver : M ports unit :=
  command (port_cmd res) 0xAD ;;
  command (port_cmd res) 0xA7 ;;
  inb (port_data res) ;;
  command (port_cmd res) 0x20 ;;
  o ← wait_for_kbd_output;
  when o (
    config ← inb (port_data res);
    command (port_cmd res) 0x60 ;;
    command (port_data res) ((config .| 0x01) .| 0x40)) ;;
  command (port_cmd res) 0xAA ;;
  o ← wait_for_kbd_output;
  when o (expect (λ v, v =? 0x55)) ;;
  command (port_cmd res) 0xAB ;;
  o ← wait_for_kbd_output;
  when o (inb (port_data res) ;; mret tt) ;;
  command (port_cmd res) 0xAE ;;
  command (port_data res) 0xFF ;;
  o ← wait_for_kbd_output;
  when o (
    expect (λ v, v =? 0xFA) ;;
    o ← wait_for_kbd_output;
    when o (expect (λ v, v =? 0xAA))) ;;
  command (port_data res) 0xF4 ;;
  o ← wait_for_kbd_output;
  when o (expect (λ v, v =? 0xFA)).
End ps2k.

(** Resources of an ACPI device, in the order of its [_CRS]. *)
Inductive resource := RFixedIo (address : Z) | RIo (minimum : Z) | RIrq (first : Z) | RExtendedIrq (first : Z) | REndTag | ROther.

Definition add_port (p : Z) (res : ps2k_resources) : ps2k_resources :=
  if port_data res =? 0 then Ps2kResources p (port_cmd res) (irq res)
  else Ps2kResources (port_data res) p (irq res).

(** The members written are 16 and 8 bits wide; the result says whether to go on. *)
(* src/arch/x86_64/drivers/ps2k.c 292-327 ps2k_handle_resource *)
Definition ps2k_handle_resource (r : resource) (res : ps2k_resources) : ps2k_resources * bool :=
  match r with
  | RFixedIo a => (add_port (u16 a) res, true)
  | RIo a => (add_port (u16 a) res, true)
  | RIrq i => (Ps2kResources (port_data res) (port_cmd res) (u8 i), true)
  | RExtendedIrq i => (Ps2kResources (port_data res) (port_cmd res) (u8 i), true)
  | REndTag => (res, false)
  | ROther => (res, true)
  end.

(** The iteration over the resources, which calls back for each until told to stop. *)
(* src/arch/x86_64/drivers/ps2k.c 341-342 ps2k_probe *)
Fixpoint handle_resources (rs : list resource) (res : ps2k_resources) : ps2k_resources :=
  match rs with
  | [] => res
  | r :: rs => let '(res', go) := ps2k_handle_resource r res in
      if (go : bool) then handle_resources rs res' else res'
  end.

(** ** The serial line *)


(* src/drivers/serial.c 19-42 init_serial *)
Definition init_serial : M ports unit :=
  outb (COM1_PORT + 1) 0x00 ;;
  outb (COM1_PORT + 3) 0x80 ;;
  outb (COM1_PORT + 0) 0x03 ;;
  outb (COM1_PORT + 1) 0x00 ;;
  outb (COM1_PORT + 3) 0x03 ;;
  outb (COM1_PORT + 2) 0xC7 ;;
  outb (COM1_PORT + 4) 0x0B.

(* src/drivers/serial.c 44-46 serial_transmit_empty *)
Definition serial_transmit_empty : M ports Z := v ← inb (COM1_PORT + 5); mret (v .& 0x20).

(** The loop polls until the transmitter is ready, at most [fuel] more times. *)
Fixpoint serial_wait (fuel : nat) : M ports unit :=
  v ← serial_transmit_empty;
  if v =? 0 then match fuel with O => out_of_fuel | S fuel => serial_wait fuel end else mret tt.

(* src/drivers/serial.c 48-52 serial_putchar *)
Definition serial_putchar (fuel : nat) (c : Z) : M ports unit :=
  serial_wait fuel ;;
  outb COM1_PORT c.
End ports.

(** * The theorems about the port devices *)

Section props.
Context `{DV : Device}.

(** Computations that only read, and return. *)
Definition reads {A} (m : M ports A) : Prop :=
  ∀ s, wp m (λ _ s', io_log s' = io_log s) s.

Lemma inb_reads p : reads (inb p).
Proof. by intros s. Qed.

Lemma reads_bind {A B} (m : M ports A) (k : A → M ports B) : reads m → (∀ a, reads (k a)) → reads (m ≫= k).
Proof. intros Hm Hk s. eapply wp_bind_mono; [apply Hm|]. intros a s' E. eapply wp_mono; [apply Hk|]. cbn. congruence. Qed.

Lemma reads_ret {A} (a : A) : reads (mret a).
Proof. by intros s. Qed.

Lemma for_find_reads {A} n i (body : Z → M ports (option A)) : (∀ j, reads (body j)) → reads (for_find n i body).
Proof.
  intros Hb s. eapply wp_mono.
  { apply (wp_for_find n i body (λ _ s', io_log s' = io_log s) (λ _ s', io_log s' = io_log s)); [done|].
    intros j s' _ E. eapply wp_mono; [apply Hb|]. intros [a|] s'' E'; congruence. }
  by intros [a|] s' E.
Qed.

Context (res : ps2k_resources).

Lemma wait_input_reads : reads (wait_for_kbd_input res).
Proof.
  apply reads_bind; [|intros; apply reads_ret]. apply for_find_reads. intros j.
  apply reads_bind; [apply inb_reads|]. intros v. apply reads_ret.
Qed.

Lemma wait_output_reads : reads (wait_for_kbd_output res).
Proof.
  apply reads_bind; [|intros r; apply reads_ret]. apply for_find_reads. intros j.
  apply reads_bind; [apply inb_reads|]. intros v. apply reads_ret.
Qed.

(** The computation writes [l], or gives up with the controller's panic. *)
Definition writes {A} (m : M ports A) (P : list (Z * Z) → Prop) : Prop :=
  ∀ s, match m s with
       | Ok (_, s') => ∃ l, P l ∧ io_log s' = io_log s ++ l
       | Panic msg => msg = "ps2k controller failure"%string
       | _ => False
       end.

Lemma reads_writes {A} (m : M ports A) : reads m → writes m (λ l, l = []).
Proof.
  intros Hm s. pose proof (Hm s) as H. unfold wp in H. destruct (m s) as [[a s']| | | |]; try done.
  exists []. by rewrite app_nil_r.
Qed.

Lemma writes_bind {A B} (m : M ports A) (k : A → M ports B) P Q :
  writes m P → (∀ a, writes (k a) Q) → writes (m ≫= k) (λ l, ∃ l1 l2, l = l1 ++ l2 ∧ P l1 ∧ Q l2).
Proof.
  intros Hm Hk s. specialize (Hm s). unfold mbind, M_bind. destruct (m s) as [[a s1]| | | |]; try done.
  destruct Hm as (l1 & HP & E1). specialize (Hk a s1). destruct (k a s1) as [[b s2]| | | |]; try done.
  destruct Hk as (l2 & HQ & E2). exists (l1 ++ l2). split; [by exists l1, l2|].
  by rewrite E2, E1, <- app_assoc.
Qed.

Lemma writes_mono {A} (m : M ports A) P Q : writes m P → (∀ l, P l → Q l) → writes m Q.
Proof. intros Hm HPQ s. specialize (Hm s). destruct (m s) as [[a s']| | | |]; naive_solver. Qed.

Lemma command_writes p v : writes (command res p v) (λ l, l = [(p, u8 v)]).
Proof.
  eapply writes_mono; [apply (writes_bind _ _ (λ l, l = []) (λ l, l = [(p, u8 v)])); [apply reads_writes, wait_input_reads|]|].
  - intros [] s. by exists [(p, u8 v)].
  - by intros l (l1 & l2 & -> & -> & ->).
Qed.

Lemma expect_writes ok : writes (expect res ok) (λ l, l = []).
Proof.
  intros s. unfold expect, mbind, M_bind, inb. cbv beta iota. destruct (ok _); cbn; [|done].
  exists []. by rewrite app_nil_r.
Qed.

Lemma when_writes b m : writes m (λ l, l = []) → writes (when b m) (λ l, l = []).
Proof. destruct b; [done|]. intros _ s. exists []. by rewrite app_nil_r. Qed.

(** A step that writes exactly [l1], then the rest. *)
Lemma writes_step {A B} (m : M ports A) (k : A → M ports B) l1 (Q : list (Z * Z) → Prop) :
  writes m (λ l, l = l1) → (∀ a, writes (k a) (λ l, Q (l1 ++ l))) → writes (m ≫= k) Q.
Proof.
  intros Hm Hk. eapply writes_mono; [by apply writes_bind|]. by intros l (? & l2 & -> & -> & ?).
Qed.

(** The bytes sent when the configuration was read. *)
Definition config_bytes (c : option Z) : list (Z * Z) :=
  match c with
  | Some c => [(port_cmd res, 0x60); (port_data res, u8 ((c .| 0x01) .| 0x40))]
  | None => []
  end.

Lemma config_writes (b : bool) :
  writes (when b (config ← inb (port_data res); command res (port_cmd res) 0x60 ;;
    command res (port_data res) ((config .| 0x01) .| 0x40))) (λ l, ∃ c, l = config_bytes c).
Proof.
  destruct b; cbn [when].
  - apply (writes_step _ _ []); [apply reads_writes, inb_reads|]. intros c.
    apply (writes_step _ _ [(port_cmd res, 0x60)]); [apply command_writes|]. intros [].
    eapply writes_mono; [apply command_writes|]. intros l ->. by exists (Some c).
  - intros s. exists []. split; [by exists None|by rewrite app_nil_r].
Qed.

(** One step of the initialisation: a command, or something that only reads or checks. *)
Ltac wr_cmd p v := apply (writes_step _ _ [(p, v)]); [apply command_writes|]; intros [].
Ltac wr_out := apply (writes_step _ _ []); [apply reads_writes, wait_output_reads|]; intros ?o.
Ltac wr_chk := apply (writes_step _ _ []); [apply when_writes, expect_writes|]; intros [].

(** The commands after the configuration. *)
Lemma tests_writes :
  writes (command res (port_cmd res) 0xAA ;;
    o ← wait_for_kbd_output res;
    when o (expect res (λ v, v =? 0x55)) ;;
    command res (port_cmd res) 0xAB ;;
    o ← wait_for_kbd_output res;
    when o (inb (port_data res) ;; mret tt) ;;
    command res (port_cmd res) 0xAE ;;
    command res (port_data res) 0xFF ;;
    o ← wait_for_kbd_output res;
    when o (
      expect res (λ v, v =? 0xFA) ;;
      o ← wait_for_kbd_output res;
      when o (expect res (λ v, v =? 0xAA))) ;;
    command res (port_data res) 0xF4 ;;
    o ← wait_for_kbd_output res;
    when o (expect res (λ v, v =? 0xFA)))
  (λ l, l = [(port_cmd res, 0xAA); (port_cmd res, 0xAB); (port_cmd res, 0xAE); (port_data res, 0xFF); (port_data res, 0xF4)]).
Proof.
  wr_cmd (port_cmd res) 0xAA. wr_out. wr_chk. wr_cmd (port_cmd res) 0xAB. wr_out.
  apply (writes_step _ _ []); [|intros []].
  { apply when_writes, reads_writes, reads_bind; [apply inb_reads|intros; apply reads_ret]. }
  wr_cmd (port_cmd res) 0xAE. wr_cmd (port_data res) 0xFF. wr_out.
  apply (writes_step _ _ []); [|intros []].
  { apply when_writes. apply (writes_step _ _ []); [apply expect_writes|intros []]. wr_out.
    apply when_writes, expect_writes. }
  wr_cmd (port_data res) 0xF4. wr_out. eapply writes_mono; [apply when_writes, expect_writes|]. by intros l ->.
Qed.

(** Whatever the keyboard controller answers, [init_ps2k_driver] comes to an end: it
    returns or panics because a self-test failed.  When it returns it has sent, in this
    order: both ports off, read configuration, (if that was answered) the configuration
    with the interrupt and translation bits set, controller test, port test, port on,
    reset, scanning on -- and nothing else. *)
Theorem init_ps2k_driver_correct s :
  match init_ps2k_driver res s with
  | Ok (_, s') => ∃ c, io_log s' = io_log s ++
      [(port_cmd res, 0xAD); (port_cmd res, 0xA7); (port_cmd res, 0x20)] ++ config_bytes c ++
      [(port_cmd res, 0xAA); (port_cmd res, 0xAB); (port_cmd res, 0xAE); (port_data res, 0xFF); (port_data res, 0xF4)]
  | Panic msg => msg = "ps2k controller failure"%string
  | _ => False
  end.
Proof.
  assert (writes (init_ps2k_driver res) (λ l, ∃ c, l =
      [(port_cmd res, 0xAD); (port_cmd res, 0xA7); (port_cmd res, 0x20)] ++ config_bytes c ++
      [(port_cmd res, 0xAA); (port_cmd res, 0xAB); (port_cmd res, 0xAE); (port_data res, 0xFF); (port_data res, 0xF4)]))
    as Hw.
  { unfold init_ps2k_driver. wr_cmd (port_cmd res) 0xAD. wr_cmd (port_cmd res) 0xA7.
    apply (writes_step _ _ []); [apply reads_writes, inb_reads|]. intros _. wr_cmd (port_cmd res) 0x20. wr_out.
    eapply writes_mono; [apply writes_bind; [apply config_writes|intros []; apply tests_writes]|].
    intros l (l1 & l2 & -> & [c ->] & ->). by exists c. }
  specialize (Hw s). destruct (init_ps2k_driver res s) as [[[] s']| | | |]; try done.
  destruct Hw as (l & [c ->] & E). by exists c.
Qed.

(** A character goes out on the serial line once the transmitter is ready: if one of
    the next [fuel]+1 status reads says so, [serial_putchar] returns after writing exactly
    the character to the data port. *)
Theorem serial_putchar_correct fuel c s n :
  (n ≤ fuel)%nat → nz (u8 (dev_read (io_reads s + n) (COM1_PORT + 5)) .& 0x20) = true →
  wp (serial_putchar fuel c) (λ _ s', io_log s' = io_log s ++ [(COM1_PORT, u8 c)]) s.
Proof.
  intros Hn Hready. unfold serial_putchar. apply (wp_bind_mono _ _ (λ _ s', io_log s' = io_log s)).
  - revert s n Hn Hready. induction fuel as [|fuel IH]; intros s n Hn Hready; cbn [serial_wait];
      apply wp_bind; (eapply wp_intro; [reflexivity|]); unfold nz in Hready.
    + assert (n = 0%nat) as -> by lia. rewrite Nat.add_0_r in Hready.
      apply negb_true_iff in Hready. by rewrite Hready.
    + destruct (Z.eqb_spec (u8 (dev_read (io_reads s) (COM1_PORT + 5)) .& 0x20) 0) as [E|E]; [|done].
      destruct n as [|n]. { rewrite Nat.add_0_r, E in Hready. done. }
      eapply wp_mono; [apply (IH _ n); [lia|]|done]. cbn [io_reads].
      by rewrite Nat.add_succ_comm in *.
  - intros [] s' E. apply wp_modify. cbn. by rewrite E.
Qed.
End props.

(** The resources of a keyboard device give the two ports in the order they are
    listed, data before command, and the interrupt, whatever other resources are in
    between; resources after the end tag are ignored. *)
Theorem handle_resources_correct d c i others :
  0 < d < 2 ^ 16 → 0 ≤ c < 2 ^ 16 → 0 ≤ i < 2 ^ 8 →
  handle_resources ([RIo d; ROther; RIo c; RIrq i; REndTag] ++ others) (Ps2kResources 0 0 0) = Ps2kResources d c i ∧
  handle_resources ([RIrq i; RFixedIo d; RFixedIo c; REndTag] ++ others) (Ps2kResources 0 0 0) = Ps2kResources d c i.
Proof.
  intros Hd Hc Hi. cbn [handle_resources app ps2k_handle_resource]. unfold add_port. cbn [port_data port_cmd irq].
  rewrite !wrap_small by lia. rewrite Z.eqb_refl. cbn [handle_resources port_data port_cmd irq].
  by rewrite (proj2 (Z.eqb_neq d 0)) by lia.
Qed.

Module ExDevice.
(** A device that is always ready. *)
Definition always_ready : Device := λ _ _, 0x20.
End ExDevice.

Lemma serial_putchar_correct_witness :
  wp (@serial_putchar ExDevice.always_ready 0 65) (λ _ s', io_log s' = [(COM1_PORT, 65)]) (Ports 0 []).
Proof. apply (@serial_putchar_correct ExDevice.always_ready 0 65 (Ports 0 []) 0); [lia|done]. Defined.

Lemma handle_resources_correct_witness :
  handle_resources ([RIo 0x60; ROther; RIo 0x64; RIrq 1; REndTag] ++ []) (Ps2kResources 0 0 0) = Ps2kResources 0x60 0x64 1.
Proof. apply (handle_resources_correct 0x60 0x64 1 []); lia. Defined.
