(* ===== verification/Acpi.v ===== *)
(** * ACPI tables and the interrupt controllers
      ([kernel/apic/rsdp.c], [madt.c], [apic.c])

    The firmware's tables are bytes of memory, read through the page tables: finding the MADT and
    parsing it, on any memory that can be read and mapped. *)

From S2P Require Import Prelude Loops CString.

(** Memory as the code sees it: the byte at a virtual address, if that is mapped, and [map_physical_range] of a range
    for the kernel, writable, in the tables that [cr3] points to. *)
Class Memory (X : Type) := {
  view : X → Z → option Z;
  map_range : Z → Z → M X unit;
}.

(** The static variables of [madt.c]. *)
Record irq_override := IrqOverride { source_irq : Z; global_irq : Z; ov_flags : Z }.
Record madt := Madt {
  lapic_address : Z; ioapic_address : Z; ioapic_irq_base : Z; ioapic_id : Z;
  irq_overrides : list irq_override;
}.

Record platform (X : Type) := Platform { pl_mem : X; pl_madt : madt }.
Arguments Platform {X}.
Arguments pl_mem {X}.
Arguments pl_madt {X}.

Section acpi.
Context {X : Type} `{MX : Memory X}.

Definition on_mem {A} (m : M X A) : M (platform X) A := λ s,
  r ← m (pl_mem s); Ok (r.1, Platform r.2 (pl_madt s)).
Definition on_madt {A} (m : M madt A) : M (platform X) A := λ s,
  r ← m (pl_madt s); Ok (r.1, Platform (pl_mem s) r.2).

(** Loads; one from an address that is not mapped faults. *)
Definition load8 (a : Z) : M X Z := λ m, match view m a with Some b => Ok (b, m) | None => Fault a end.
Definition load16 (a : Z) : M X Z := lo ← load8 a; hi ← load8 (a + 1); mret (lo + 2 ^ 8 * hi).
Definition load32 (a : Z) : M X Z := lo ← load16 a; hi ← load16 (a + 2); mret (lo + 2 ^ 16 * hi).
Definition load64 (a : Z) : M X Z := lo ← load32 a; hi ← load32 (a + 4); mret (lo + 2 ^ 32 * hi).

(** [strncmp(p, sig, n) == 0] for a literal [sig] of [n] characters: it stops at the first difference. *)
Fixpoint same_chars (p : Z) (sig : list Z) : M X bool :=
  match sig with
  | [] => mret true
  | c :: sig => b ← load8 p; if b =? c then same_chars (p + 1) sig else mret false
  end.

Definition sig_rsdp : list Z := [82; 83; 68; 32; 80; 84; 82; 32].   (* "RSD PTR " *)
Definition sig_apic : list Z := [65; 80; 73; 67].                   (* "APIC" *)

(** ** The root pointer *)

(** The members of [struct rsdp_t] and [struct xsdp_t]. *)
(* src/kernel/apic/rsdp.h 10-16 rsdp_t *)
Definition rsdp_revision (a : Z) : M X Z := load8 (a + 15).
Definition rsdp_rsdt_addr (a : Z) : M X Z := load32 (a + 16).
(* src/kernel/apic/rsdp.h 19-29 xsdp_t *)
Definition xsdp_length (a : Z) : M X Z := load32 (a + 20).
Definition xsdp_xsdt_addr (a : Z) : M X Z := load64 (a + 24).

(** [checksum += bytes[i]] for [n] bytes, in eight bits. *)
Fixpoint sum8 (n : nat) (a acc : Z) : M X Z :=
  match n with
  | O => mret acc
  | S n => b ← load8 a; sum8 n (a + 1) (u8 (acc + b))
  end.

(* src/kernel/apic/rsdp.c 73-124 validate_rsdp_checksum *)
Definition validate_rsdp_checksum (rsdp_addr : Z) : M X Z :=
  if rsdp_addr =? 0 then mret 1 else
  checksum ← sum8 20 rsdp_addr 0;
  if negb (checksum =? 0) then mret 2 else
  revision ← rsdp_revision rsdp_addr;
  if negb (2 <=? revision) then mret 0 else
  length ← xsdp_length rsdp_addr;
  extended_checksum ← sum8 (Z.to_nat length) rsdp_addr 0;
  mret (if extended_checksum =? 0 then 0 else 3).

(** A search over [n] addresses from [a], 16 apart. *)
Fixpoint scan (n : nat) (a : Z) : M X (option Z) :=
  match n with
  | O => mret None
  | S n =>
      b ← same_chars a sig_rsdp;
      c ← (if (b : bool) then validate_rsdp_checksum a else mret 1);
      if c =? 0 then mret (Some a) else scan n (a + 16)
  end.

(* src/kernel/apic/rsdp.c 40-71 find_rsdp *)
Definition find_rsdp : M X Z :=
  ebda ← load16 0x40E;
  r ← scan (Z.to_nat (1024 / 16)) (ebda .<< 4);
  match r with
  | Some a => mret a
  | None => r ← scan (Z.to_nat ((0x100000 - 0xE0000) / 16)) 0xE0000; mret (default 0 r)
  end.

(** ** The table of tables *)

(** The [length] of [struct apic_header], and its size. *)
(* src/kernel/apic/madt.h 13-23 apic_header *)
Definition header_length (a : Z) : M X Z := load32 (a + 4).
Definition sizeof_apic_header : Z := 36.

(** Entries of the XSDT are eight bytes wide, those of the RSDT four. *)
Definition entry_ptr (w a : Z) : M X Z := if w =? 8 then load64 a else load32 a.

(** The tables listed at [a], [i] counting the entries.  Each is mapped, then its signature read
    through the direct map at [hhdm]. *)
Definition find_table (hhdm a w n : Z) : M X (option Z) :=
  for_find (Z.to_nat n) 0 (λ i,
    table_phys ← entry_ptr w (a + sizeof_apic_header + w * i);
    map_range table_phys 4096 ;;
    let table := u64 (table_phys + hhdm) in
    b ← same_chars table sig_apic;
    mret (if (b : bool) then Some table else None)).

(* src/kernel/apic/rsdp.c 126-305 find_madt *)
Definition find_madt (hhdm rsdp_addr : Z) : M X Z :=
  if rsdp_addr =? 0 then mret 0 else
  revision ← rsdp_revision rsdp_addr;
  if 2 <=? revision then
    xsdt_phys ← xsdp_xsdt_addr rsdp_addr;
    map_range xsdt_phys 4096 ;;
    let xsdt := u64 (xsdt_phys + hhdm) in
    length ← header_length xsdt;
    let num_entries := u32 (u64 (length - sizeof_apic_header) / 8) in
    r ← find_table hhdm xsdt 8 num_entries;
    mret (default 0 r)
  else
    rsdt_phys ← rsdp_rsdt_addr rsdp_addr;
    map_range rsdt_phys 4096 ;;
    let rsdt := u64 (rsdt_phys + hhdm) in
    length ← header_length rsdt;
    let num_entries := u32 (u64 (length - sizeof_apic_header) / 4) in
    r ← find_table hhdm rsdt 4 num_entries;
    mret (default 0 r).

(** ** The MADT *)

(** Room for overrides. *)
Definition MAX_OVERRIDES : nat := 16.

(** The members that are only logged are read all the same. *)
Definition logged (l : list (M X Z)) : M (platform X) unit := on_mem (foldr (λ m k, m ;; k) (mret tt) l).

(** One record. *)
(* src/kernel/apic/madt.c 43-147 parse_madt *)
Definition parse_entry (e : Z) : M (platform X) unit :=
  t ← on_mem (load8 e);
  let entry_type := swrap 8 t in
  if entry_type =? 0 then logged [load8 (e + 2); load8 (e + 3); load32 (e + 4)] else
  if entry_type =? 1 then
    id ← on_mem (load8 (e + 2));
    addr ← on_mem (load32 (e + 4));
    base ← on_mem (load32 (e + 8));
    on_madt (modify (λ s,
      if ioapic_address s =? 0 then Madt (lapic_address s) addr base id (irq_overrides s) else s)) else
  if entry_type =? 2 then
    flags ← on_mem (load16 (e + 8));
    logged [load8 (e + 2)] ;;
    src ← on_mem (load8 (e + 3));
    gsi ← on_mem (load32 (e + 4));
    on_madt (modify (λ s,
      if decide (length (irq_overrides s) < MAX_OVERRIDES)%nat then
        Madt (lapic_address s) (ioapic_address s) (ioapic_irq_base s) (ioapic_id s)
          (irq_overrides s ++ [IrqOverride src gsi flags])
      else s)) else
  if entry_type =? 3 then logged [load8 (e + 2); load32 (e + 6)] else
  if entry_type =? 4 then logged [load8 (e + 2); load8 (e + 5)] else
  if entry_type =? 5 then logged [load32 (e + 8); load32 (e + 4)] else
  if entry_type =? 9 then logged [load32 (e + 4); load32 (e + 8); load32 (e + 12)] else
  mret tt.

(** [while (entry < end)]; a record moves on by its length. *)
Fixpoint parse_entries (fuel : nat) (entry en : Z) : M (platform X) unit :=
  if en <=? entry then mret tt else
  match fuel with
  | O => out_of_fuel
  | S fuel =>
      entry_length ← on_mem (load8 (entry + 1));
      parse_entry entry ;;
      parse_entries fuel (entry + entry_length) en
  end.

Definition sizeof_madt_header : Z := 44.

(** The address is cut to 32 bits before the table is mapped. *)
(* src/kernel/apic/madt.c 22-151 parse_madt *)
Definition parse_madt (fuel : nat) (madt_addr : Z) : M (platform X) unit :=
  on_mem (map_range (u32 madt_addr) 0x4000) ;;
  length ← on_mem (header_length madt_addr);
  lapic ← on_mem (load32 (madt_addr + sizeof_apic_header));
  on_madt (modify (λ s, Madt lapic (ioapic_address s) (ioapic_irq_base s) (ioapic_id s) (irq_overrides s))) ;;
  parse_entries fuel (madt_addr + sizeof_madt_header) (madt_addr + length).

(** On x86_64 the boot loader gives the root pointer; errors are only logged. *)
(* src/kernel/apic/rsdp.c 307-360 initialize_apic *)
Definition initialize_apic (fuel : nat) (hhdm rsdp : Z) : M (platform X) unit :=
  if rsdp =? 0 then mret tt else
  rsdp_result ← on_mem (validate_rsdp_checksum rsdp);
  if negb (rsdp_result =? 0) then mret tt else
  madt ← on_mem (find_madt hhdm rsdp);
  if madt =? 0 then mret tt else
  parse_madt fuel madt.
End acpi.

(* src/kernel/apic/madt.c 154-156 get_lapic_address *)
Definition get_lapic_address : M madt Z := gets lapic_address.
(* src/kernel/apic/madt.c 158-160 get_ioapic_address *)
Definition get_ioapic_address : M madt Z := gets ioapic_address.
(* src/kernel/apic/madt.c 162-164 get_ioapic_id *)
Definition get_ioapic_id : M madt Z := gets ioapic_id.

(** The first override of IRQ 1. *)
Definition keyboard_override (s : madt) : option irq_override :=
  snd <$> list_find (λ o, source_irq o = 1) (irq_overrides s).

(* src/kernel/apic/madt.c 166-175 get_keyboard_global_irq *)
Definition get_keyboard_global_irq : M madt Z := gets (λ s, default 1 (global_irq <$> keyboard_override s)).
(* src/kernel/apic/madt.c 177-186 get_keyboard_irq_flags *)
Definition get_keyboard_irq_flags : M madt Z := gets (λ s, default 0 (ov_flags <$> keyboard_override s)).

(** ** Interrupt controllers *)

(** Registers of the I/O APIC, reached through a select and a data window; those of the
    local APIC, by offset; the APIC base MSR. *)
Record apic := Apic { io_select : Z; io_regs : gmap Z Z; lapic_regs : gmap Z Z; msr_apic_base : Z }.

(* src/kernel/apic/apic.c 56-59 ioapic_read *)
Definition ioapic_read (reg : Z) : M apic Z :=
  modify (λ s, Apic (reg .& 0xff) (io_regs s) (lapic_regs s) (msr_apic_base s)) ;;
  gets (λ s, default 0 (io_regs s !! io_select s)).

(* src/kernel/apic/apic.c 62-65 ioapic_write *)
Definition ioapic_write (reg value : Z) : M apic unit :=
  modify (λ s, Apic (reg .& 0xff) (io_regs s) (lapic_regs s) (msr_apic_base s)) ;;
  modify (λ s, Apic (io_select s) (<[io_select s := value]> (io_regs s)) (lapic_regs s) (msr_apic_base s)).

(** The arguments are eight bits wide, [flags] sixteen. *)
(* src/kernel/apic/apic.c 92-132 configure_ioapic_irq_with_flags *)
Definition configure_ioapic_irq_with_flags (irq vector dest_apic_id flags : Z) : M apic unit :=
  let low_reg := 0x10 + irq * 2 in
  let high_reg := 0x10 + irq * 2 + 1 in
  let low_val := vector in
  let low_val := if nz (flags .& 0x02) then low_val .| (1 .<< 13) else low_val in
  let low_val := if nz (flags .& 0x08) then low_val .| (1 .<< 15) else low_val in
  let high_val := u32 (dest_apic_id .<< 24) in
  ioapic_write high_reg high_val ;;
  ioapic_write low_reg low_val.

(* src/kernel/apic/apic.c 135-138 configure_ioapic_irq *)
Definition configure_ioapic_irq (irq vector dest_apic_id : Z) : M apic unit :=
  configure_ioapic_irq_with_flags irq vector dest_apic_id 0.

(* src/kernel/apic/apic.c 40-45 enable_api_hardware *)
Definition enable_api_hardware : M apic unit :=
  modify (λ s, Apic (io_select s) (io_regs s) (lapic_regs s) (u32 (msr_apic_base s) .| (1 .<< 11))).

Definition lapic_reg (off : Z) (s : apic) : Z := default 0 (lapic_regs s !! off).
Definition set_lapic (off v : Z) (s : apic) : apic :=
  Apic (io_select s) (io_regs s) (<[off := v]> (lapic_regs s)) (msr_apic_base s).

(* src/kernel/apic/apic.c 48-52 enable_apic_software *)
Definition enable_apic_software : M apic unit :=
  modify (λ s, set_lapic 0xF0 (lapic_reg 0xF0 s .| (1 .<< 8)) s) ;;
  modify (λ s, set_lapic 0xF0 (lapic_reg 0xF0 s .| 0xFF) s).

(* src/kernel/apic/apic.c 84-89 get_local_apic_id *)
Definition get_local_apic_id : M apic Z := gets (λ s, (lapic_reg 0x20 s .>> 24) .& 0xFF).

(* src/kernel/apic/apic.c 142-146 apic_send_eoi *)
Definition apic_send_eoi : M apic unit := modify (set_lapic 0xB0 0).

(** * The theorems about the ACPI tables and the interrupt controllers *)

(** ** Numbers in tables *)

(** [n] bytes of [v], least significant first. *)
Fixpoint le (n : nat) (v : Z) : list Z :=
  match n with O => [] | S n => v mod 256 :: le n (v / 256) end.

Lemma le_length n v : length (le n v) = n.
Proof. revert v. induction n as [|n IH]; intros v; [done|]. cbn. by rewrite IH. Qed.

Section tables.
(** The bytes of the tables, by virtual address. *)
Context (mem : Z → Z).

Definition rd16 (a : Z) : Z := mem a + 2 ^ 8 * mem (a + 1).
Definition rd32 (a : Z) : Z := rd16 a + 2 ^ 16 * rd16 (a + 2).
Definition rd64 (a : Z) : Z := rd32 a + 2 ^ 32 * rd32 (a + 4).

Fixpoint sig_eq (p : Z) (sig : list Z) : bool :=
  match sig with
  | [] => true
  | c :: sig => (mem p =? c) && sig_eq (p + 1) sig
  end.

(** The bytes [l] are at [a]. *)
Definition bytes_in (a : Z) (l : list Z) : Prop := ∀ i b, l !! i = Some b → mem (a + Z.of_nat i) = b.

Lemma bytes_in_cons a b l : bytes_in a (b :: l) ↔ mem a = b ∧ bytes_in (a + 1) l.
Proof.
  split.
  - intros H. split; [rewrite <- (H 0%nat b) by done; f_equal; lia|].
    intros i c Hi. rewrite <- (H (S i) c) by done. f_equal. lia.
  - intros [Hb Hl] [|i] c Hi; [injection Hi as <-; by rewrite Z.add_0_r|].
    rewrite <- (Hl i c) by done. f_equal. lia.
Qed.

Lemma bytes_in_app a l l' : bytes_in a (l ++ l') ↔ bytes_in a l ∧ bytes_in (a + Z.of_nat (length l)) l'.
Proof.
  revert a. induction l as [|b l IH]; intros a.
  - cbn [app length]. rewrite Z.add_0_r. split; [by split|by intros [_ ?]].
  - cbn [app length]. rewrite !bytes_in_cons, IH.
    replace (a + Z.of_nat (S (length l))) with (a + 1 + Z.of_nat (length l)) by lia. tauto.
Qed.

Lemma rd16_le a v : bytes_in a (le 2 v) → 0 ≤ v < 2 ^ 16 → rd16 a = v.
Proof.
  cbn [le]. rewrite !bytes_in_cons. intros (H0 & H1 & _) Hv. unfold rd16. rewrite H0, H1.
  pose proof (Z.div_mod v 256 ltac:(lia)). rewrite (Z.mod_small (v / 256)); [lia|].
  split; [apply Z.div_pos; lia|apply Z.div_lt_upper_bound; lia].
Qed.

Lemma rd32_le a v : bytes_in a (le 4 v) → 0 ≤ v < 2 ^ 32 → rd32 a = v.
Proof.
  change (le 4 v) with (le 2 v ++ le 2 (v / 256 / 256)). rewrite bytes_in_app. intros [H1 H2] Hv.
  cbn [length le] in H2. change (Z.of_nat 2) with 2 in H2. unfold rd32.
  rewrite (rd16_le (a + 2) (v / 256 / 256)); [|done|].
  - assert (rd16 a = v mod 2 ^ 16) as ->.
    { apply rd16_le; [|apply Z.mod_pos_bound; lia]. cbn [le] in *. rewrite !bytes_in_cons in *.
      destruct H1 as (-> & -> & ?). split; [|split; [|done]].
      - change (2 ^ 16) with (256 * 256). rewrite Z.rem_mul_r by lia.
        rewrite (Z.mul_comm 256), Z.mod_add, Z.mod_mod by lia. done.
      - change (2 ^ 16) with (256 * 256). rewrite Z.rem_mul_r by lia.
        rewrite (Z.mul_comm 256), Z.div_add, (Z.div_small (v mod 256)), Z.add_0_l, Z.mod_mod; try lia.
        apply Z.mod_pos_bound. lia. }
    rewrite Z.div_div by lia. change (256 * 256) with (2 ^ 16).
    pose proof (Z.div_mod v (2 ^ 16) ltac:(lia)). lia.
  - rewrite Z.div_div by lia. split; [apply Z.div_pos; lia|apply Z.div_lt_upper_bound; lia].
Qed.

(** ** Checksums *)

(** The sum of [n] bytes. *)
Fixpoint byte_sum (n : nat) (a : Z) : Z :=
  match n with O => 0 | S n => mem a + byte_sum n (a + 1) end.

(** The checks of the root pointer at [a]: a non-null pointer whose first 20 bytes add up to 0 modulo 256 and, from
    revision 2, whose [length] bytes do too, has none of the three error codes. *)
Definition checksum_code (a : Z) : Z :=
  if decide (a = 0) then 1
  else if decide (byte_sum 20 a mod 256 ≠ 0) then 2
  else if decide (2 ≤ mem (a + 15) ∧ byte_sum (Z.to_nat (rd32 (a + 20))) a mod 256 ≠ 0) then 3
  else 0.

(** ** The MADT *)

(** Records as the ACPI specification has them; those the kernel does not use are a type
    and a payload. *)
Inductive record :=
  | RecIoApic (id addr base : Z)
  | RecOverride (bus src gsi flags : Z)
  | RecOther (t : Z) (payload : list Z).

Definition byte (b : Z) : Prop := 0 ≤ b < 256.

Definition record_ok (r : record) : Prop :=
  match r with
  | RecIoApic id addr base => byte id ∧ 0 ≤ addr < 2 ^ 32 ∧ 0 ≤ base < 2 ^ 32
  | RecOverride bus src gsi flags => byte bus ∧ byte src ∧ 0 ≤ gsi < 2 ^ 32 ∧ 0 ≤ flags < 2 ^ 16
  | RecOther t payload => byte t ∧ t ≠ 1 ∧ t ≠ 2 ∧ (length payload < 254)%nat
  end.

(** The bytes of a record. *)
Definition encode (r : record) : list Z :=
  match r with
  | RecIoApic id addr base => [1; 12; id; 0] ++ le 4 addr ++ le 4 base
  | RecOverride bus src gsi flags => [2; 10; bus; src] ++ le 4 gsi ++ le 2 flags
  | RecOther t payload => [t; 2 + Z.of_nat (length payload)] ++ payload
  end.

(** What the kernel remembers of a record: the first I/O APIC, the first 16 overrides. *)
Definition remember (s : madt) (r : record) : madt :=
  match r with
  | RecIoApic id addr base =>
      if ioapic_address s =? 0 then Madt (lapic_address s) addr base id (irq_overrides s) else s
  | RecOverride bus src gsi flags =>
      Madt (lapic_address s) (ioapic_address s) (ioapic_irq_base s) (ioapic_id s)
        (take MAX_OVERRIDES (irq_overrides s ++ [IrqOverride src gsi flags]))
  | RecOther _ _ => s
  end.

Lemma encode_length r : record_ok r → (2 ≤ length (encode r) < 256)%nat.
Proof. destruct r; cbn; intros Hr; rewrite ?length_app, ?le_length; cbn; lia. Qed.

Lemma remember_overrides s r :
  (length (irq_overrides s) ≤ MAX_OVERRIDES)%nat → (length (irq_overrides (remember s r)) ≤ MAX_OVERRIDES)%nat.
Proof.
  intros Hs. destruct r; cbn [remember]; [by destruct (ioapic_address s =? 0)| |done].
  cbn [irq_overrides]. rewrite length_take. lia.
Qed.

(** ** Finding the MADT *)

Definition entry (w a : Z) : Z := if w =? 8 then rd64 a else rd32 a.

(** The tables listed at [a]: their physical addresses, with entries of [w] bytes. *)
Definition listed (a w : Z) (n : nat) : list Z := (λ i, entry w (a + sizeof_apic_header + w * i)) <$> seqZ 0 (Z.of_nat n).

(** The first of them, at its virtual address, with the signature of the MADT. *)
Definition first_madt (hhdm : Z) (l : list Z) : option Z :=
  head (filter (λ t, sig_eq t sig_apic = true) ((λ p, u64 (p + hhdm)) <$> l)).
End tables.

(** ** Reading *)

Section reading.
Context {X : Type} `{MX : Memory X} (mem : Z → Z).

(** The [n] bytes at [a] are mapped, and are those of [mem]. *)
Definition seen (m : X) (a n : Z) : Prop := ∀ x, a ≤ x < a + n → view m x = Some (mem x).

Lemma seen_part m a n b k : seen m a n → a ≤ b → b + k ≤ a + n → seen m b k.
Proof using Type. intros H ?? x Hx. apply H. lia. Qed.

Lemma load8_ok m a n x : seen m a n → a ≤ x < a + n → load8 x m = Ok (mem x, m).
Proof using Type. intros H Hx. unfold load8. by rewrite H. Qed.
Lemma load16_ok m a n x : seen m a n → a ≤ x → x + 2 ≤ a + n → load16 x m = Ok (rd16 mem x, m).
Proof using Type.
  intros H ??. unfold load16. rewrite (M_bind_Ok _ _ m _ m) by (eapply load8_ok; [done|lia]).
  by rewrite (M_bind_Ok _ _ m _ m) by (eapply load8_ok; [done|lia]).
Qed.
Lemma load32_ok m a n x : seen m a n → a ≤ x → x + 4 ≤ a + n → load32 x m = Ok (rd32 mem x, m).
Proof using Type.
  intros H ??. unfold load32. rewrite (M_bind_Ok _ _ m _ m) by (eapply load16_ok; [done|lia|lia]).
  by rewrite (M_bind_Ok _ _ m _ m) by (eapply load16_ok; [done|lia|lia]).
Qed.
Lemma load64_ok m a n x : seen m a n → a ≤ x → x + 8 ≤ a + n → load64 x m = Ok (rd64 mem x, m).
Proof using Type.
  intros H ??. unfold load64. rewrite (M_bind_Ok _ _ m _ m) by (eapply load32_ok; [done|lia|lia]).
  by rewrite (M_bind_Ok _ _ m _ m) by (eapply load32_ok; [done|lia|lia]).
Qed.

Lemma same_chars_ok m a n p sig :
  seen m a n → a ≤ p → p + Z.of_nat (length sig) ≤ a + n → same_chars p sig m = Ok (sig_eq mem p sig, m).
Proof using Type.
  intros H. revert p. induction sig as [|c sig IH]; intros p Hp Hl; cbn [same_chars sig_eq length] in *; [done|].
  rewrite (M_bind_Ok _ _ m _ m) by (eapply load8_ok; [done|lia]). destruct (mem p =? c); [|done]. apply IH; lia.
Qed.

Lemma sum8_ok m a n k x acc :
  seen m a n → a ≤ x → x + Z.of_nat k ≤ a + n → 0 ≤ acc < 256 →
  sum8 k x acc m = Ok ((acc + byte_sum mem k x) mod 256, m).
Proof using Type.
  intros H. revert x acc. induction k as [|k IH]; intros x acc Hx Hl Ha; cbn [sum8 byte_sum].
  - by rewrite Z.add_0_r, Z.mod_small.
  - rewrite (M_bind_Ok _ _ m _ m) by (eapply load8_ok; [done|lia]).
    rewrite IH by first [lia|apply (wrap_bound 8); lia].
    change (u8 (acc + mem x)) with ((acc + mem x) mod 256). rewrite Zplus_mod_idemp_l. do 3 f_equal. lia.
Qed.

(** [validate_rsdp_checksum] returns the code of the first check that fails. *)
Theorem validate_rsdp_checksum_correct m a :
  (a ≠ 0 → seen m a 20) → (2 ≤ mem (a + 15) → seen m a (Z.max 24 (rd32 mem (a + 20)))) →
  validate_rsdp_checksum a m = Ok (checksum_code mem a, m).
Proof using Type.
  intros H1 H2. unfold validate_rsdp_checksum, checksum_code. destruct (Z.eqb_spec a 0) as [->|Ha]; [done|].
  rewrite decide_False by done. specialize (H1 Ha).
  rewrite (M_bind_Ok _ _ m _ m) by (eapply sum8_ok; [done|lia..]). rewrite Z.add_0_l.
  destruct (Z.eqb_spec (byte_sum mem 20 a mod 256) 0) as [E|E]; cbn [negb]; [rewrite decide_False by tauto|by rewrite decide_True].
  unfold rsdp_revision. rewrite (M_bind_Ok _ _ m _ m) by (eapply load8_ok; [done|lia]).
  destruct (Z.leb_spec 2 (mem (a + 15))) as [Hr|Hr]; cbn [negb]; [|by rewrite decide_False by lia]. specialize (H2 Hr).
  unfold xsdp_length. rewrite (M_bind_Ok _ _ m _ m) by (eapply load32_ok; [done|lia..]).
  destruct (Z.le_gt_cases 0 (rd32 mem (a + 20))) as [Hl|Hl].
  - rewrite (M_bind_Ok _ _ m _ m) by (eapply sum8_ok; [done|lia..]). rewrite Z.add_0_l.
    destruct (Z.eqb_spec (byte_sum mem (Z.to_nat (rd32 mem (a + 20))) a mod 256) 0); [by rewrite decide_False by tauto|by rewrite decide_True].
  - replace (Z.to_nat (rd32 mem (a + 20))) with O by lia. rewrite decide_False by (cbn; tauto). done.
Qed.

(** ** Parsing *)

(** Steps of the parser. *)
Lemma on_mem_ok {A} (l : M X A) m v s : l m = Ok (v, m) → on_mem l (Platform m s) = Ok (v, Platform m s).
Proof using Type. intros E. unfold on_mem. cbn. by rewrite E. Qed.

Lemma logged_ok m l s : Forall (λ f : M X Z, ∃ v, f m = Ok (v, m)) l → logged l (Platform m s) = Ok (tt, Platform m s).
Proof using Type.
  intros H. apply on_mem_ok. induction H as [|f l [v E] _ IH]; cbn [foldr]; [done|]. by rewrite (M_bind_Ok _ _ _ _ _ E).
Qed.

Ltac ld8 := match goal with H : seen ?m ?a ?n |- context [on_mem (load8 ?x)] =>
  rewrite (M_bind_Ok _ _ _ _ _ (on_mem_ok _ _ _ _ (load8_ok m a n x H ltac:(lia)))) end.
Ltac ld16 := match goal with H : seen ?m ?a ?n |- context [on_mem (load16 ?x)] =>
  rewrite (M_bind_Ok _ _ _ _ _ (on_mem_ok _ _ _ _ (load16_ok m a n x H ltac:(lia) ltac:(lia)))) end.
Ltac ld32 := match goal with H : seen ?m ?a ?n |- context [on_mem (load32 ?x)] =>
  rewrite (M_bind_Ok _ _ _ _ _ (on_mem_ok _ _ _ _ (load32_ok m a n x H ltac:(lia) ltac:(lia)))) end.
(** The members that are logged can be read. *)
Ltac readable := repeat (apply Forall_cons; split; [eexists; first [eapply load8_ok; [eassumption|lia]|eapply load32_ok; [eassumption|lia|lia]]|]); apply Forall_nil_2.

Lemma parse_record m e r s :
  record_ok r → bytes_in mem e (encode r) → seen m e 16 → (length (irq_overrides s) ≤ MAX_OVERRIDES)%nat →
  parse_entry e (Platform m s) = Ok (tt, Platform m (remember s r)) ∧ mem (e + 1) = Z.of_nat (length (encode r)).
Proof using Type.
  intros Hr Hb Hseen Hs. unfold parse_entry. ld8.
  destruct r as [id addr base|bus src gsi flags|t payload]; cbn [encode] in Hb; rewrite bytes_in_app in Hb;
    destruct Hb as [Hh Hb]; rewrite !bytes_in_cons in Hh; cbn [length] in Hb.
  - destruct Hh as (H0 & H1 & H2 & _). rewrite bytes_in_app, le_length in Hb. destruct Hb as [Ha Hbase].
    rewrite H0, H1. change (swrap 8 1) with 1. cbn [Z.eqb]. cbn [Pos.eqb]. ld8. do 2 ld32. cbn [remember encode].
    rewrite (rd32_le mem (e + 4) addr), (rd32_le mem (e + 8) base) by (try apply Hr; try exact Ha;
      replace (e + 8) with (e + Z.of_nat 4 + Z.of_nat 4) by lia; exact Hbase).
    replace (mem (e + 2)) with id by (rewrite <- H2; f_equal; lia). done.
  - destruct Hh as (H0 & H1 & H2 & H3 & _). rewrite bytes_in_app, le_length in Hb. destruct Hb as [Ha Hfl].
    rewrite H0, H1. change (swrap 8 2) with 2. cbn [Z.eqb Pos.eqb]. ld16.
    rewrite (M_bind_Ok _ _ _ tt (Platform m s)) by (apply logged_ok; readable). ld8. ld32.
    cbn [remember encode]. rewrite length_app, length_app, !le_length.
    rewrite (rd32_le mem (e + 4) gsi), (rd16_le mem (e + 8) flags) by (try apply Hr; try exact Ha;
      replace (e + 8) with (e + Z.of_nat 4 + Z.of_nat 4) by lia; exact Hfl).
    replace (mem (e + 3)) with src by (rewrite <- H3; f_equal; lia). split; [|done].
    unfold on_madt, modify. cbn. do 3 f_equal. unfold MAX_OVERRIDES in *. destruct (decide _) as [Hlt|Hge].
    + by rewrite take_ge by (rewrite length_app; cbn; lia).
    + rewrite take_app_le by lia. rewrite take_ge by lia. by destruct s.
  - destruct Hh as (H0 & H1 & _). destruct Hr as (Ht & Ht1 & Ht2 & Hlen). rewrite H0, H1.
    assert (∀ k, byte k → t ≠ k → (swrap 8 t =? swrap 8 k) = false) as Hne.
    { intros k Hk Hne. apply Z.eqb_neq. intros E. apply Hne. by apply swrap8_eq. }
    rewrite (Hne 1 ltac:(unfold byte; lia) Ht1 : (swrap 8 t =? 1) = false).
    rewrite (Hne 2 ltac:(unfold byte; lia) Ht2 : (swrap 8 t =? 2) = false).
    split; [|cbn [encode app length]; lia]. cbn [remember].
    repeat case_match; first [apply logged_ok; readable|done].
Qed.

Lemma parse_entries_ok fuel m e rs s :
  Forall record_ok rs → bytes_in mem e (mjoin (encode <$> rs)) → (length (irq_overrides s) ≤ MAX_OVERRIDES)%nat →
  seen m e (Z.of_nat (length (mjoin (encode <$> rs))) + 14) → (length rs ≤ fuel)%nat →
  parse_entries fuel e (e + Z.of_nat (length (mjoin (encode <$> rs)))) (Platform m s) = Ok (tt, Platform m (foldl remember s rs)).
Proof using Type.
  revert fuel e s. induction rs as [|r rs IH]; intros fuel e s Hrs Hb Hs Hseen Hf; cbn [fmap list_fmap mjoin list_join foldl] in *.
  - cbn [length]. rewrite Z.add_0_r. destruct fuel; cbn [parse_entries]; by rewrite Z.leb_refl.
  - apply Forall_cons in Hrs as [Hr Hrs]. rewrite bytes_in_app in Hb. destruct Hb as [Hbr Hb].
    destruct fuel as [|fuel]; [simpl in Hf; lia|]. cbn [parse_entries].
    pose proof (encode_length r Hr) as Hlen. rewrite length_app in *. rewrite (proj2 (Z.leb_gt _ _)) by lia.
    assert (seen m e 16) as Hs16 by (eapply seen_part; [done|lia|lia]).
    destruct (parse_record m e r s Hr Hbr Hs16 Hs) as [E1 E2].
    ld8. rewrite (M_bind_Ok _ _ _ _ _ E1), E2. rewrite Nat2Z.inj_add, Z.add_assoc.
    apply IH; [done|done|by apply remember_overrides| |simpl in Hf; lia]. eapply seen_part; [exact Hseen|lia|]. rewrite Nat2Z.inj_add, <- !Z.add_assoc. reflexivity.
Qed.

Lemma parse_madt_ok fuel a lapic rs m m' s :
  map_range (u32 a) 0x4000 m = Ok (tt, m') →
  seen m' a (44 + Z.of_nat (length (mjoin (encode <$> rs))) + 14) →
  bytes_in mem (a + 4) (le 4 (44 + Z.of_nat (length (mjoin (encode <$> rs))))) →
  bytes_in mem (a + 36) (le 4 lapic) → bytes_in mem (a + 44) (mjoin (encode <$> rs)) →
  44 + Z.of_nat (length (mjoin (encode <$> rs))) < 2 ^ 32 → 0 ≤ lapic < 2 ^ 32 → Forall record_ok rs →
  (length (irq_overrides s) ≤ MAX_OVERRIDES)%nat → (length rs ≤ fuel)%nat →
  parse_madt fuel a (Platform m s) =
    Ok (tt, Platform m' (foldl remember (Madt lapic (ioapic_address s) (ioapic_irq_base s) (ioapic_id s) (irq_overrides s)) rs)).
Proof using Type.
  intros Hmap Hseen Hlen Hla Hrs Hlt Hl Hok Hs Hf. unfold parse_madt, header_length, sizeof_madt_header, sizeof_apic_header.
  rewrite (M_bind_Ok _ _ _ tt (Platform m' s)) by (unfold on_mem; cbn; by rewrite Hmap). do 2 ld32.
  rewrite (rd32_le mem (a + 4) _ Hlen), (rd32_le mem (a + 36) _ Hla) by lia.
  rewrite (M_bind_Ok _ _ _ tt (Platform m' (Madt lapic (ioapic_address s) (ioapic_irq_base s) (ioapic_id s) (irq_overrides s)))) by done.
  rewrite Z.add_assoc. apply parse_entries_ok; try done. eapply seen_part; [done|lia|lia].
Qed.

(** C39: [parse_madt] reads back what a table encodes, on any memory: once the table has been mapped, and if the bytes of
    the table and the 14 behind it can then be read, for any list of well-formed records (also of types it does not know)
    it remembers the local APIC address of the header, the first I/O APIC, and the first 16 interrupt overrides in their
    order. *)
Theorem parse_madt_correct fuel a lapic rs m m' s :
  map_range (u32 a) 0x4000 m = Ok (tt, m') →
  seen m' a (44 + Z.of_nat (length (mjoin (encode <$> rs))) + 14) →
  bytes_in mem (a + 4) (le 4 (44 + Z.of_nat (length (mjoin (encode <$> rs))))) →
  bytes_in mem (a + 36) (le 4 lapic) → bytes_in mem (a + 44) (mjoin (encode <$> rs)) →
  44 + Z.of_nat (length (mjoin (encode <$> rs))) < 2 ^ 32 → 0 ≤ lapic < 2 ^ 32 → Forall record_ok rs →
  (length (irq_overrides s) ≤ MAX_OVERRIDES)%nat → (length rs ≤ fuel)%nat →
  parse_madt fuel a (Platform m s) =
    Ok (tt, Platform m' (foldl remember (Madt lapic (ioapic_address s) (ioapic_irq_base s) (ioapic_id s) (irq_overrides s)) rs)).
Proof using Type. apply parse_madt_ok. Qed.

(** A record of length 0 before the end of the table makes [parse_madt] loop for
    ever: it does not end whatever the fuel. *)
Theorem parse_madt_loops fuel a m m' s :
  map_range (u32 a) 0x4000 m = Ok (tt, m') → seen m' a 60 →
  mem (a + 44) = 0 → mem (a + 45) = 0 → 44 < rd32 mem (a + 4) → parse_madt fuel a (Platform m s) = OutOfFuel.
Proof using Type.
  intros Hmap Hseen H0 H1 Hlt. unfold parse_madt, header_length, sizeof_apic_header.
  rewrite (M_bind_Ok _ _ _ tt (Platform m' s)) by (unfold on_mem; cbn; by rewrite Hmap). do 2 ld32.
  rewrite (M_bind_Ok _ _ _ tt (Platform m' (Madt (rd32 mem (a + 36)) (ioapic_address s) (ioapic_irq_base s) (ioapic_id s) (irq_overrides s)))) by done.
  change sizeof_madt_header with 44. generalize (Madt (rd32 mem (a + 36)) (ioapic_address s) (ioapic_irq_base s) (ioapic_id s) (irq_overrides s)).
  induction fuel as [|fuel IH]; intros s'; cbn [parse_entries]; rewrite (proj2 (Z.leb_gt _ _)) by lia; [done|]. ld8.
  replace (a + 44 + 1) with (a + 45) by lia. rewrite H1, Z.add_0_r.
  rewrite (M_bind_Ok _ _ _ tt (Platform m' s')); [apply IH|]. unfold parse_entry. ld8. rewrite H0. cbn [swrap].
  change (swrap 8 0 =? 0) with true. cbn iota. apply logged_ok. readable.
Qed.
End reading.

(** ** Finding the tables *)

(** The firmware's memory: its virtual addresses [firm], the bytes there, the physical ranges that [can_map] says can be
    mapped, and the address [at_virt] at which they are reached then. *)
Class Layout := {
  firm : Z → Prop;
  bytes_of : Z → Z;
  at_virt : Z → Z;
  can_map : Z → Z → Prop;
}.

(** What the code that looks for the tables relies on: memory whose mappings can be extended, [good k] while there is room
    for [k] more.  The firmware's bytes do not change; what is mapped is reached, and what was mapped stays so. *)
Class Mapper (X : Type) `{MX : Memory X} `{LA : Layout} (good : nat → X → Prop) : Prop := {
  good_less k m : good (S k) m → good k m;
  good_view k m x b : good k m → firm x → view m x = Some b → b = bytes_of x;
  good_map k m p size : good (S k) m → can_map p size →
    wp (map_range p size) (λ _ m', good k m' ∧ (∀ x, at_virt p ≤ x < at_virt p + size → is_Some (view m' x)) ∧
      ∀ x, is_Some (view m x) → is_Some (view m' x)) m;
}.

(** The firmware's bytes from [a] to [a + n]. *)
Definition in_firm `{Layout} (a n : Z) : Prop := ∀ x, a ≤ x < a + n → firm x.

(** The tables that the root pointer at [rsdp] leads to: an XSDT that lists [n] tables, the first MADT among them at [a],
    with the local APIC's address and the records [rs].  The tables are where the direct map at [hhdm] reaches them, and
    so is the MADT from the lower half of its address. *)
Record firmware `{Layout} (hhdm rsdp a lapic : Z) (rs : list record) (n : nat) : Prop := {
  fw_rsdp : rsdp ≠ 0;
  fw_rsdp_length : 32 ≤ rd32 bytes_of (rsdp + 20) ≤ 4096;
  fw_rsdp_firm : in_firm rsdp (rd32 bytes_of (rsdp + 20));
  fw_checksum : checksum_code bytes_of rsdp = 0;
  fw_revision : 2 ≤ bytes_of (rsdp + 15);
  fw_direct p : at_virt p = u64 (p + hhdm);
  fw_xsdt_map : can_map (rd64 bytes_of (rsdp + 24)) 4096;
  fw_xsdt_firm : in_firm (u64 (rd64 bytes_of (rsdp + 24) + hhdm)) (36 + 8 * Z.of_nat n);
  fw_length : rd32 bytes_of (u64 (rd64 bytes_of (rsdp + 24) + hhdm) + 4) = 36 + 8 * Z.of_nat n;
  fw_page : 36 + 8 * Z.of_nat n ≤ 4096;
  fw_tables : Forall (λ p, can_map p 4096 ∧ in_firm (u64 (p + hhdm)) 4)
    (listed bytes_of (u64 (rd64 bytes_of (rsdp + 24) + hhdm)) 8 n);
  fw_madt : first_madt bytes_of hhdm (listed bytes_of (u64 (rd64 bytes_of (rsdp + 24) + hhdm)) 8 n) = Some a;
  fw_madt_addr : a ≠ 0;
  fw_madt_map : can_map (u32 a) 0x4000;
  fw_madt_virt : at_virt (u32 a) = a;
  fw_madt_firm : in_firm a (44 + Z.of_nat (length (mjoin (encode <$> rs))) + 14);
  fw_madt_length : bytes_in bytes_of (a + 4) (le 4 (44 + Z.of_nat (length (mjoin (encode <$> rs)))));
  fw_lapic : bytes_in bytes_of (a + 36) (le 4 lapic);
  fw_records : bytes_in bytes_of (a + 44) (mjoin (encode <$> rs));
  fw_size : 44 + Z.of_nat (length (mjoin (encode <$> rs))) + 14 ≤ 0x4000;
  fw_lapic_range : 0 ≤ lapic < 2 ^ 32;
  fw_records_ok : Forall record_ok rs;
}.

Section finding.
Context {X : Type} `{MX : Memory X} `{LA : Layout} (good : nat → X → Prop) `{MP : !Mapper X good}.

Definition more (m m' : X) : Prop := ∀ x, is_Some (view m x) → is_Some (view m' x).

Lemma good_some n k m : good (n + k) m → good k m.
Proof using MP. induction n as [|n IH]; [done|]. intros G. apply IH, (good_less (n + k)), G. Qed.

Lemma mapped_seen k m a n :
  good k m → in_firm a n → (∀ x, a ≤ x < a + n → is_Some (view m x)) → seen bytes_of m a n.
Proof using MP. intros Hg Hf Hm x Hx. destruct (Hm x Hx) as [b E]. rewrite E. f_equal. eapply good_view; [done|by apply Hf|done]. Qed.

Lemma seen_more k m m' a n : good k m' → in_firm a n → more m m' → seen bytes_of m a n → seen bytes_of m' a n.
Proof using MP. intros Hg Hf Hm Hs. eapply mapped_seen; [done|done|]. intros x Hx. apply Hm. rewrite Hs by done. eauto. Qed.

Lemma entry_ptr_ok m a n w x :
  seen bytes_of m a n → w = 8 ∨ w = 4 → a ≤ x → x + w ≤ a + n → entry_ptr w x m = Ok (entry bytes_of w x, m).
Proof using Type.
  intros H Hw ??. unfold entry_ptr, entry. destruct (Z.eqb_spec w 8) as [->|]; [by eapply load64_ok|eapply load32_ok; [done|lia|lia]].
Qed.

(** Mapping a range whose first [n] bytes are the firmware's makes those readable. *)
Lemma map_seen k m p size n :
  good (S k) m → can_map p size → n ≤ size → in_firm (at_virt p) n →
  wp (map_range p size) (λ _ m', good k m' ∧ more m m' ∧ seen bytes_of m' (at_virt p) n) m.
Proof using MP.
  intros Hg Hc Hn Hf. eapply wp_mono; [by apply (good_map k)|]. cbv beta. intros _ m' (G & V & K). split; [done|]. split; [done|].
  eapply mapped_seen; [done|done|]. intros x Hx. apply V. lia.
Qed.

Lemma find_table_ok hhdm a w n k m :
  (∀ p, at_virt p = u64 (p + hhdm)) → w = 8 ∨ w = 4 → good (n + k) m →
  in_firm (a + sizeof_apic_header) (w * Z.of_nat n) → seen bytes_of m (a + sizeof_apic_header) (w * Z.of_nat n) →
  Forall (λ p, can_map p 4096 ∧ in_firm (u64 (p + hhdm)) 4) (listed bytes_of a w n) →
  wp (find_table hhdm a w (Z.of_nat n)) (λ r m',
    r = first_madt bytes_of hhdm (listed bytes_of a w n) ∧ good k m' ∧ more m m') m.
Proof using MP.
  intros Hv Hw Hg Hf Hs Hall. unfold find_table. rewrite Nat2Z.id. unfold listed, first_madt in *. remember 0 as i eqn:Ei.
  assert (0 ≤ i) as Hi by lia. assert (Z.of_nat n + i ≤ Z.of_nat n) as Hle by lia. clear Ei.
  remember (w * Z.of_nat n) as len eqn:El. assert (w * (Z.of_nat n + i) ≤ len) as Hlen by nia. clear Hle El.
  revert m i Hg Hs Hall Hi Hlen. induction n as [|n IH]; intros m i Hg Hs Hall Hi Hlen; cbn [for_find].
  { apply wp_ret. split; [done|]. split; [done|]. by intros x. }
  rewrite seqZ_cons in * by lia. replace (Z.pred (Z.of_nat (S n))) with (Z.of_nat n) in * by lia.
  replace (Z.succ i) with (i + 1) in * by lia. cbn [fmap list_fmap] in *.
  apply Forall_cons in Hall as [[Hc Hf4] Hall]. set (p := entry bytes_of w (a + sizeof_apic_header + w * i)) in *.
  apply wp_bind, wp_bind. eapply wp_intro; [eapply entry_ptr_ok; [exact Hs|done|nia|nia]|]. fold p.
  apply wp_bind. eapply wp_mono; [apply (map_seen (n + k) m p 4096 4); [done|done|lia|by rewrite Hv]|]. cbv beta.
  intros _ m' (G & K & S). rewrite Hv in S. apply wp_bind. eapply wp_intro; [eapply same_chars_ok; [exact S|lia|cbn; lia]|].
  apply wp_ret. rewrite filter_cons. destruct (sig_eq bytes_of (u64 (p + hhdm)) sig_apic) eqn:E.
  - rewrite decide_True by done. apply wp_ret. split; [done|]. split; [by apply (good_some n)|done].
  - rewrite decide_False by done. eapply wp_mono; [apply (IH m' (i + 1)); [done|by eapply seen_more|done|lia|lia]|]. cbv beta.
    intros r m'' (-> & G' & K'). split; [done|]. split; [done|]. intros x Hx. by apply K', K.
Qed.

(** From an ACPI 2 root pointer [find_madt] returns the first table the XSDT lists whose signature is "APIC", at its
    address in the direct map: every table is mapped before it is looked at, so that no load faults. *)
Theorem find_madt_correct hhdm rsdp a lapic rs n k m :
  firmware hhdm rsdp a lapic rs n → good (S n + k) m → seen bytes_of m rsdp (rd32 bytes_of (rsdp + 20)) →
  wp (find_madt hhdm rsdp) (λ r m', r = a ∧ good k m' ∧ more m m') m.
Proof using MP.
  intros [] Hg Hs. unfold find_madt, rsdp_revision, xsdp_xsdt_addr, header_length. rewrite (proj2 (Z.eqb_neq rsdp 0)) by done.
  apply wp_bind. eapply wp_intro; [eapply load8_ok; [exact Hs|lia]|]. rewrite (proj2 (Z.leb_le 2 _)) by done.
  apply wp_bind. eapply wp_intro; [eapply load64_ok; [exact Hs|lia|lia]|].
  set (p := rd64 bytes_of (rsdp + 24)) in *. apply wp_bind.
  eapply wp_mono; [apply (map_seen (n + k) m p 4096 (36 + 8 * Z.of_nat n)); [done|done|lia|by rewrite fw_direct0]|]. cbv beta.
  intros _ m1 (G1 & K1 & S1). rewrite fw_direct0 in S1. set (x := u64 (p + hhdm)) in *.
  apply wp_bind. eapply wp_intro; [eapply load32_ok; [exact S1|lia|lia]|]. rewrite fw_length0. unfold sizeof_apic_header at 1.
  assert (u32 (u64 (36 + 8 * Z.of_nat n - 36) / 8) = Z.of_nat n) as ->.
  { replace (36 + 8 * Z.of_nat n - 36) with (Z.of_nat n * 8) by lia.
    rewrite (wrap_small 64), Z.div_mul by lia. apply wrap_small. lia. }
  eapply wp_bind_mono; [apply (find_table_ok hhdm x 8 n k); [done|by left|done| | |done]|].
  - intros y Hy. apply fw_xsdt_firm0. unfold sizeof_apic_header in Hy. lia.
  - eapply seen_part; [exact S1|unfold sizeof_apic_header; lia..].
  - cbv beta. intros r m' (-> & G & K). apply wp_ret. rewrite fw_madt0. split; [done|]. split; [done|]. intros y Hy. by apply K, K1.
Qed.

Lemma wp_on_mem {A} (l : M X A) (Q : A → platform X → Prop) m s :
  wp l (λ a x, Q a (Platform x s)) m → wp (on_mem l) Q (Platform m s).
Proof using Type. unfold wp, on_mem. cbn. destruct (l m) as [[a x]| | | |]; cbn; tauto. Qed.
Lemma wp_on_madt {A} (l : M madt A) (Q : A → platform X → Prop) m s :
  wp l (λ a x, Q a (Platform m x)) s → wp (on_madt l) Q (Platform m s).
Proof using Type. unfold wp, on_madt. cbn. destruct (l s) as [[a x]| | | |]; cbn; tauto. Qed.

Lemma initialize_apic_ok fuel hhdm rsdp a lapic rs n k m s :
  firmware hhdm rsdp a lapic rs n → good (S (S n + k)) m → seen bytes_of m rsdp (rd32 bytes_of (rsdp + 20)) →
  (length rs ≤ fuel)%nat → irq_overrides s = [] →
  wp (initialize_apic fuel hhdm rsdp) (λ _ s',
    pl_madt s' = foldl remember (Madt lapic (ioapic_address s) (ioapic_irq_base s) (ioapic_id s) []) rs ∧
    good k (pl_mem s') ∧ more m (pl_mem s')) (Platform m s).
Proof using MP.
  intros Hfw Hg Hs Hf Ho. pose proof Hfw as []. unfold initialize_apic. rewrite (proj2 (Z.eqb_neq _ _)) by done.
  apply wp_bind, wp_on_mem. eapply wp_intro; [apply (validate_rsdp_checksum_correct bytes_of)|].
  { intros _. eapply seen_part; [exact Hs|lia|lia]. } { intros _. eapply seen_part; [exact Hs|lia|lia]. }
  rewrite fw_checksum0. cbn [Z.eqb negb]. apply wp_bind, wp_on_mem.
  eapply wp_mono; [apply (find_madt_correct hhdm rsdp a lapic rs n (S k)); [done|by rewrite Nat.add_succ_r|done]|]. cbv beta.
  intros r m1 (-> & G1 & K1). rewrite (proj2 (Z.eqb_neq _ _)) by done.
  destruct (wp_inv _ _ _ (map_seen k m1 (u32 a) 0x4000 (44 + Z.of_nat (length (mjoin (encode <$> rs))) + 14) G1 fw_madt_map0
    fw_size0 ltac:(by rewrite fw_madt_virt0))) as ([] & m2 & E & G2 & K2 & S2). rewrite fw_madt_virt0 in S2.
  eapply wp_intro; [apply (parse_madt_ok bytes_of fuel a lapic rs m1 m2); try done; [lia|rewrite Ho; cbn; lia]|].
  cbn [pl_madt pl_mem]. rewrite Ho. split; [done|]. split; [done|]. intros x Hx. by apply K2, K1.
Qed.
End finding.

Lemma lapic_remembered rs s : lapic_address (foldl remember s rs) = lapic_address s.
Proof.
  revert s. induction rs as [|x rs IH]; intros s; [done|]. cbn [foldl]. rewrite IH. destruct x; cbn; [|done|done]. by case_match.
Qed.

(** ** The I/O APIC *)

(** [configure_ioapic_irq_with_flags] writes exactly the two registers of the
    interrupt's redirection entry: the vector, active-low and level-triggered as the
    flags say, not masked, and the destination in the upper register. *)
Theorem configure_ioapic_correct irq vector dest flags s :
  0 ≤ irq < 120 → 0 ≤ vector < 256 → 0 ≤ dest < 256 →
  wp (configure_ioapic_irq_with_flags irq vector dest flags) (λ _ s', ∃ low,
    io_regs s' !! (0x10 + irq * 2) = Some low ∧ io_regs s' !! (0x11 + irq * 2) = Some (dest * 2 ^ 24) ∧
    low mod 256 = vector ∧ Z.testbit low 13 = Z.testbit flags 1 ∧ Z.testbit low 15 = Z.testbit flags 3 ∧
    Z.testbit low 16 = false ∧
    (∀ r, r ≠ 0x10 + irq * 2 → r ≠ 0x11 + irq * 2 → io_regs s' !! r = io_regs s !! r) ∧
    lapic_regs s' = lapic_regs s ∧ msr_apic_base s' = msr_apic_base s) s.
Proof.
  intros Hi Hv Hd. unfold configure_ioapic_irq_with_flags, ioapic_write.
  assert (∀ r, 0 ≤ r < 256 → r .& 0xff = r) as Hreg.
  { intros r Hr. change 0xff with (Z.ones 8). rewrite Z.land_ones by lia. by apply Z.mod_small. }
  apply wp_bind, wp_bind, wp_modify, wp_modify, wp_bind, wp_modify, wp_modify. cbn [io_regs io_select].
  rewrite !Hreg by lia. replace (0x10 + irq * 2 + 1) with (0x11 + irq * 2) by lia.
  set (low := if nz (flags .& 8) then _ else _). exists low.
  assert (u32 (dest .<< 24) = dest * 2 ^ 24) as ->.
  { rewrite Z.shiftl_mul_pow2 by lia. apply wrap_small. lia. }
  rewrite lookup_insert_eq, lookup_insert_ne, lookup_insert_eq by lia.
  assert (∀ k, 8 ≤ k → Z.testbit vector k = false) as Hvk by (intros k Hk; apply (testbit_high 8); lia).
  assert (nz (flags .& 8) = Z.testbit flags 3) as E3 by (apply (land_testbit_pow2 flags 3); lia).
  assert (nz (flags .& 2) = Z.testbit flags 1) as E1 by (apply (land_testbit_pow2 flags 1); lia).
  assert (low = vector .| (if Z.testbit flags 1 then 2 ^ 13 else 0) .| (if Z.testbit flags 3 then 2 ^ 15 else 0)) as ->.
  { unfold low. rewrite E1, E3. by destruct (Z.testbit flags 1), (Z.testbit flags 3); rewrite ?Z.lor_0_r. }
  split_and!; [done|done| | | | | |done|done].
  - rewrite <- (Z.land_ones _ 8) by lia. rewrite !Z.land_lor_distr_l.
    replace ((if Z.testbit flags 1 then 2 ^ 13 else 0) .& Z.ones 8) with 0 by (by destruct (Z.testbit flags 1)).
    replace ((if Z.testbit flags 3 then 2 ^ 15 else 0) .& Z.ones 8) with 0 by (by destruct (Z.testbit flags 3)).
    rewrite !Z.lor_0_r, Z.land_ones by lia. by apply Z.mod_small.
  - rewrite !Z.lor_spec, Hvk by lia. by destruct (Z.testbit flags 1), (Z.testbit flags 3).
  - rewrite !Z.lor_spec, Hvk by lia. by destruct (Z.testbit flags 1), (Z.testbit flags 3).
  - rewrite !Z.lor_spec, Hvk by lia. by destruct (Z.testbit flags 1), (Z.testbit flags 3).
  - intros r H1 H2. by rewrite !lookup_insert_ne by congruence.
Qed.

(** The two switches of the local APIC. *)
Lemma enable_api_hardware_ok s :
  wp enable_api_hardware (λ _ s', Z.testbit (msr_apic_base s') 11 = true ∧ lapic_regs s' = lapic_regs s ∧ io_regs s' = io_regs s) s.
Proof. apply wp_modify. cbn [msr_apic_base lapic_regs io_regs]. split; [|done]. rewrite Z.lor_spec. change (Z.testbit (1 .<< 11) 11) with true. apply orb_true_r. Qed.

Lemma enable_apic_software_ok s :
  wp enable_apic_software (λ _ s', Z.testbit (lapic_reg 0xF0 s') 8 = true ∧ msr_apic_base s' = msr_apic_base s ∧ io_regs s' = io_regs s ∧
    ∀ off, off ≠ 0xF0 → lapic_reg off s' = lapic_reg off s) s.
Proof.
  apply wp_bind, wp_modify, wp_modify. unfold lapic_reg, set_lapic. cbn [lapic_regs]. rewrite !lookup_insert_eq. cbn [default from_option id msr_apic_base io_regs].
  split; [rewrite !Z.lor_spec; change (Z.testbit (1 .<< 8) 8) with true; by rewrite orb_true_r|]. split; [done|]. split; [done|].
  intros off Ho. by rewrite !lookup_insert_ne by done.
Qed.

(** ** Concrete tables *)

Module ExAcpi.
(** Memory holding the given bytes, and zeros. *)
Definition image (parts : list (Z * list Z)) (a : Z) : Z :=
  default 0 ((list_to_map (mjoin ((λ p, zip (seqZ p.1 (Z.of_nat (length p.2))) p.2) <$> parts)) : gmap Z Z) !! a).

Definition recs : list record := [RecOther 0 [0; 0; 1; 0; 0; 0]; RecIoApic 2 0xFEC00000 0; RecOverride 0 1 9 5].
Definition table : Z → Z := image
  [(0x1000, sig_apic); (0x1004, le 4 (44 + 8 + 12 + 10)); (0x1000 + 36, le 4 0xFEE00000);
   (0x1000 + 44, mjoin (encode <$> recs))].
(** Memory that is all mapped. *)
Definition flat : Memory (Z → Z) := {| view m a := Some (m a); map_range _ _ := mret tt |}.
Definition empty : madt := Madt 0 0 0 0 [].
End ExAcpi.

Lemma bytes_in_check mem a l :
  forallb (λ ib, mem (a + Z.of_nat ib.1) =? ib.2) (imap pair l) = true → bytes_in mem a l.
Proof.
  intros H i b Hi. rewrite forallb_forall in H. apply Z.eqb_eq. apply (H (i, b)).
  apply list_elem_of_In, (list_elem_of_lookup_2 _ i). by rewrite list_lookup_imap, Hi.
Qed.

#[local] Existing Instance ExAcpi.flat.

Lemma parse_madt_correct_witness :
  parse_madt 3 0x1000 (Platform ExAcpi.table ExAcpi.empty) =
    Ok (tt, Platform ExAcpi.table (Madt 0xFEE00000 0xFEC00000 0 2 [IrqOverride 1 9 5])).
Proof.
  rewrite (parse_madt_correct ExAcpi.table 3 0x1000 0xFEE00000 ExAcpi.recs ExAcpi.table ExAcpi.table ExAcpi.empty).
  - reflexivity.
  - reflexivity.
  - intros x _. reflexivity.
  - apply bytes_in_check. by vm_compute.
  - apply bytes_in_check. by vm_compute.
  - apply bytes_in_check. by vm_compute.
  - by vm_compute.
  - lia.
  - repeat constructor; cbn; unfold byte; lia.
  - cbn. lia.
  - cbn. lia.
Defined.

Lemma configure_ioapic_correct_witness :
  wp (configure_ioapic_irq_with_flags 9 33 1 0xA) (λ _ s', io_regs s' !! 0x23 = Some (2 ^ 24)) (Apic 0 ∅ ∅ 0).
Proof.
  eapply wp_mono; [apply (configure_ioapic_correct 9 33 1 0xA); lia|].
  intros [] s' (low & _ & H & _). exact H.
Defined.
