(* ===== verification/Shell.v ===== *)
(** * The shell ([arch/x86_64/include/shell.c])

    A command line is split in place, compared with the names of the commands and the
    command is run.  Memory is bytes; text goes to the device [Format] writes to. *)

From S2P Require Import Prelude Loops CString Format.

Definition virt_bits : Z := 64.

(** Memory, and the device characters are written to. *)
Record shell (St : Type) := Sh { sh_mem : bmem; sh_out : St }.
Arguments Sh {St} _ _.
Arguments sh_mem {St} _.
Arguments sh_out {St} _.

(** The addresses of the literals a line is compared with. *)
Record names := Names { n_help : Z; n_clear : Z; n_echo : Z; n_uptime : Z; n_pong : Z; n_peek : Z }.

Section shell.
Context {St : Type} `{SK : Sink St}.

Definition on_mem {A} (m : M bmem A) : M (shell St) A := λ s,
  match m (sh_mem s) with
  | Ok (a, b) => Ok (a, Sh b (sh_out s))
  | Panic msg => Panic msg | Halt => Halt | Fault a => Fault a | OutOfFuel => OutOfFuel
  end.
Definition on_out {A} (m : M St A) : M (shell St) A := λ s,
  match m (sh_out s) with
  | Ok (a, o) => Ok (a, Sh (sh_mem s) o)
  | Panic msg => Panic msg | Halt => Halt | Fault a => Fault a | OutOfFuel => OutOfFuel
  end.

(** [console_puts] and [console_printf] of a literal. *)
Definition say (l : list Z) : M (shell St) unit :=
  on_out (console_puts (rom_of l) (length l) 0).
Definition sayf (l : list Z) (args : list Z) : M (shell St) unit :=
  on_out (console_vprintf (rom_of l) 0 (length l) 0 args).

(** [console_puts] of a string in memory. *)
Definition puts (fuel : nat) (p : Z) : M (shell St) unit :=
  m ← gets sh_mem; on_out (console_puts m fuel p).

(* src/arch/x86_64/include/shell.c 14-16 cmd_help *)
Definition cmd_help : M (shell St) unit :=
  say (chars "commands: help, clear, echo, uptime, peek, pong" ++ [10]).

(* src/arch/x86_64/include/shell.c 22-25 cmd_echo *)
Definition cmd_echo (fuel : nat) (args : Z) : M (shell St) unit :=
  puts fuel args ;; on_out (putc 10).

(* src/arch/x86_64/include/shell.c 27-29 cmd_uptime *)
Definition cmd_uptime (ticks : Z) : M (shell St) unit :=
  sayf (chars "uptime: ms since boot: %d" ++ [10]) [ticks].

(** The value of a hexadecimal digit. *)
(* src/arch/x86_64/include/shell.c 39-48 parse_hex *)
Definition nibble (c : Z) : option Z :=
  if (48 <=? c) && (c <=? 57) then Some (c - 48)
  else if (97 <=? c) && (c <=? 102) then Some (c - 97 + 10)
  else if (65 <=? c) && (c <=? 70) then Some (c - 65 + 10)
  else None.

(** The loop; the terminator is no digit. *)
(* src/arch/x86_64/include/shell.c 38-51 parse_hex *)
Fixpoint parse_digits (fuel : nat) (s val : Z) : M bmem (Z * Z) :=
  c ← ldc s;
  if c =? 0 then mret (val, s) else
  match nibble c with
  | None => mret (val, s)
  | Some d =>
      match fuel with
      | O => out_of_fuel
      | S fuel => parse_digits fuel (s + 1) (wrap virt_bits (val .<< 4) .| d)
      end
  end.

(** The number, and the address where it ends. *)
(* src/arch/x86_64/include/shell.c 31-56 parse_hex *)
Definition parse_hex (fuel : nat) (s : Z) : M bmem (Z * Z) :=
  c0 ← ldc s;
  s' ← (if c0 =? 48 then
          c1 ← ldc (s + 1);
          mret (if (c1 =? 120) || (c1 =? 88) then s + 2 else s)
        else mret s);
  parse_digits fuel s' 0.

(** [while (p( *s)) s++] *)
Fixpoint skip_while (fuel : nat) (p : Z → bool) (s : Z) : M bmem Z :=
  c ← ldc s;
  if p c then match fuel with O => out_of_fuel | S fuel => skip_while fuel p (s + 1) end
  else mret s.

(** One row of the display, [i] bytes after [addr]. *)
(* src/arch/x86_64/include/shell.c 79-101 cmd_peek *)
Definition peek_row (addr len i : Z) : M (shell St) unit :=
  let row := wrap virt_bits (addr + i) in
  sayf (chars "%08x%08x  ") [u32 (row .>> 32); u32 row] ;;
  for_up 16 0 (λ j,
    (if i + j <? len then
       b ← on_mem (ldb (wrap virt_bits (addr + (i + j)))); sayf (chars "%02x ") [b]
     else say (chars "   ")) ;;
    when (j =? 7) (on_out (putc 32))) ;;
  say (chars " |") ;;
  for_up 16 0 (λ j,
    when (i + j <? len)
      (c ← on_mem (ldb (wrap virt_bits (addr + (i + j))));
       on_out (putc (if (0x20 <=? c) && (c <? 0x7f) then c else 46)))) ;;
  say (chars "|" ++ [10]).

(** [for (i = 0; i < len; i += 16)] *)
Fixpoint peek_rows (n : nat) (addr len i : Z) : M (shell St) unit :=
  match n with
  | O => if i <? len then out_of_fuel else mret tt
  | S n => if i <? len then peek_row addr len i ;; peek_rows n addr len (i + 16) else mret tt
  end.

(** At most 512 bytes are shown: 32 rows. *)
(* src/arch/x86_64/include/shell.c 58-102 cmd_peek *)
Definition cmd_peek (fuel : nat) (args : Z) : M (shell St) unit :=
  none ← (if args =? 0 then mret true else c ← on_mem (ldc args); mret (c =? 0));
  if (none : bool) then say (chars "usage: peek <addr> [len]" ++ [10]) else
  '(addr, en) ← on_mem (parse_hex fuel args);
  en ← on_mem (skip_while fuel (λ c, c =? 32) en);
  c ← on_mem (ldc en);
  len ← (if negb (c =? 0) then '(len, _) ← on_mem (parse_hex fuel en); mret len else mret 64);
  let len := if (len =? 0) || (512 <? len) then 64 else len in
  peek_rows 32 addr len 0.

(** The console's [console_clear], the game, and the timer. *)
Context (clear pong_start : M St unit) (ticks : Z).

(* src/arch/x86_64/include/shell.c 18-20 cmd_clear *)
Definition cmd_clear : M (shell St) unit := on_out clear.

(** The comparisons, in order; [args] is the rest of the line. *)
(* src/arch/x86_64/include/shell.c 125-141 parse_and_dispatch *)
Definition dispatch (fuel : nat) (nm : names) (line args : Z) : M (shell St) unit :=
  r ← on_mem (strcmp line (n_help nm)); if r =? 0 then cmd_help else
  r ← on_mem (strcmp line (n_clear nm)); if r =? 0 then cmd_clear else
  r ← on_mem (strcmp line (n_echo nm)); if r =? 0 then cmd_echo fuel args else
  r ← on_mem (strcmp line (n_uptime nm)); if r =? 0 then cmd_uptime ticks else
  r ← on_mem (strcmp line (n_pong nm)); if r =? 0 then on_out pong_start else
  r ← on_mem (strcmp line (n_peek nm)); if r =? 0 then cmd_peek fuel args else
  say (chars "unknown command: ") ;; puts fuel line ;; on_out (putc 10).

(* src/arch/x86_64/include/shell.c 109-145 parse_and_dispatch *)
Definition parse_and_dispatch (fuel : nat) (nm : names) (line : Z) : M (shell St) unit :=
  c ← on_mem (ldc line);
  if c =? 0 then mret tt else
  args ← on_mem (skip_while fuel (λ c, negb (c =? 0) && negb (c =? 32)) line);
  c ← on_mem (ldc args);
  args ← (if c =? 32 then on_mem (stb args 0) ;; on_mem (skip_while fuel (λ c, c =? 32) (args + 1))
          else mret args);
  dispatch fuel nm line args.
End shell.

(** * The theorems about the shell *)

(** ** Numbers *)

(** A line without its [0x]. *)
Definition strip0x (l : list Z) : list Z :=
  match l with
  | a :: c :: l' => if (a =? 48) && ((c =? 120) || (c =? 88)) then l' else l
  | _ => l
  end.

(** The digits a line starts with. *)
Fixpoint hex_digits (l : list Z) : list Z :=
  match l with
  | [] => []
  | c :: l => match nibble c with Some d => d :: hex_digits l | None => [] end
  end.

Lemma nibble_swrap b : 0 < b < 256 → nibble (swrap 8 b) = nibble b.
Proof.
  intros Hb. destruct (Z.lt_ge_cases b 128) as [H|H].
  - by rewrite swrap_small by lia.
  - assert (swrap 8 b = b - 256) as ->.
    { unfold swrap. change (2 ^ 8) with 256. change (2 ^ (8 - 1)) with 128.
      rewrite (Z.mod_eq (b + 128)) by lia. replace ((b + 128) / 256) with 1; [lia|].
      apply (Z.div_unique_pos _ _ _ (b + 128 - 256)); lia. }
    unfold nibble. by repeat match goal with |- context [?a <=? ?b] => destruct (Z.leb_spec a b); try lia end.
Qed.

Lemma nibble_bound c d : nibble c = Some d → 0 ≤ d < 16.
Proof.
  unfold nibble.
  repeat match goal with |- context [?a <=? ?b] => destruct (Z.leb_spec a b); simpl end; intros [= <-]; lia.
Qed.

(** One more digit, modulo the width of an address. *)
Lemma hex_step v d : 0 ≤ d < 16 → wrap virt_bits (v .<< 4) .| d = wrap virt_bits (v * 16 + d).
Proof.
  intros Hd. unfold wrap, virt_bits. rewrite Z.shiftl_mul_pow2 by lia. change (2 ^ 4) with 16.
  assert ((v * 16) mod 2 ^ 64 = (v mod 2 ^ 60) * 2 ^ 4) as E.
  { change (2 ^ 64) with (2 ^ 60 * 16). rewrite Z.mul_mod_distr_r by lia. done. }
  rewrite E, lor_add_aligned by lia. rewrite <- (Z.mod_small (v mod 2 ^ 60 * 2 ^ 4 + d) (2 ^ 64)).
  - rewrite <- E. by rewrite Zplus_mod_idemp_l.
  - pose proof (Z.mod_pos_bound v (2 ^ 60) ltac:(lia)). lia.
Qed.

Lemma parse_digits_ok fuel p l val m :
  cstr m p l → (length l ≤ fuel)%nat →
  parse_digits fuel p (wrap virt_bits val) m =
    Ok (wrap virt_bits (foldl (λ v d, v * 16 + d) val (hex_digits l)), p + Z.of_nat (length (hex_digits l)), m).
Proof.
  revert fuel p val. induction l as [|b l IH]; intros fuel p val Hc Hf.
  - destruct fuel; cbn [parse_digits]; rewrite (M_bind_Ok _ _ _ _ _ (ldc_ok _ _ _ Hc)); cbn; by rewrite Z.add_0_r.
  - destruct Hc as (Hb & Hr & Hc). destruct fuel as [|fuel]; [simpl in Hf; lia|]. cbn [parse_digits hex_digits].
    rewrite (M_bind_Ok _ _ _ _ _ (ldc_ok _ _ _ Hb)), swrap8_0, (proj2 (Z.eqb_neq b 0)), nibble_swrap by lia.
    destruct (nibble b) as [d|] eqn:E; [|cbn; by rewrite Z.add_0_r].
    rewrite hex_step by (by eapply nibble_bound).
    replace (wrap virt_bits (wrap virt_bits val * 16 + d)) with (wrap virt_bits (val * 16 + d)).
    + rewrite IH by (done || (simpl in Hf; lia)). cbn [length foldl]. do 3 f_equal. lia.
    + unfold wrap. rewrite <- (Zplus_mod_idemp_l (val mod _ * 16)), Zmult_mod_idemp_l. by rewrite Zplus_mod_idemp_l.
Qed.

Lemma swrap8_is b k : 0 ≤ b < 256 → 0 ≤ k < 128 → (swrap 8 b =? k) = (b =? k).
Proof.
  intros Hb Hk. destruct (Z.eqb_spec b k) as [->|Hn].
  - by rewrite swrap_small, Z.eqb_refl by lia.
  - apply Z.eqb_neq. intros E. apply Hn, swrap8_eq; [lia|lia|]. by rewrite (swrap_small 8 k) by lia.
Qed.

Lemma value_foldl l : foldl (λ v d, v * 16 + d) 0 l = value 16 l.
Proof.
  unfold value. induction l as [|d l IH] using rev_ind; [done|].
  rewrite foldl_app, reverse_snoc. cbn [foldl foldr]. rewrite IH. lia.
Qed.

(** The first byte of a string, its terminator included. *)
Lemma cstr_hd m p l : cstr m p l → m !! p = Some (hd 0 l) ∧ 0 ≤ hd 0 l < 256.
Proof. destruct l as [|b l]; [by intros ->|]. intros (-> & ? & _). split; [done|simpl; lia]. Qed.

(** [parse_hex] reads the longest run of hexadecimal digits after an optional [0x]
    or [0X]: it returns the number they denote, modulo the width of an address, and the
    address just after the last digit. *)
Theorem parse_hex_correct fuel s l m :
  cstr m s l → (length l ≤ fuel)%nat →
  parse_hex fuel s m =
    Ok (wrap virt_bits (value 16 (hex_digits (strip0x l))),
        s + Z.of_nat (length l - length (strip0x l)) + Z.of_nat (length (hex_digits (strip0x l))), m).
Proof.
  intros Hc Hf. unfold parse_hex. rewrite <- value_foldl.
  destruct (cstr_hd _ _ _ Hc) as [H0 R0]. rewrite (M_bind_Ok _ _ _ _ _ (ldc_ok _ _ _ H0)), swrap8_is by lia.
  assert (parse_digits fuel s 0 m = Ok (wrap virt_bits (foldl (λ v d, v * 16 + d) 0 (hex_digits l)),
    s + Z.of_nat (length (hex_digits l)), m)) as Hplain by (by apply (parse_digits_ok fuel s l 0)).
  destruct l as [|a l]; [cbn [hd Z.eqb]; rewrite (M_bind_Ok _ _ _ _ _ eq_refl), Hplain; cbn; by rewrite !Z.add_0_r|].
  destruct Hc as (_ & _ & Hl). destruct (cstr_hd _ _ _ Hl) as [H1 R1]. cbn [hd].
  assert ((if a =? 48 then c1 ← ldc (s + 1); mret (if (c1 =? 120) || (c1 =? 88) then s + 2 else s) else mret s) m =
    Ok (if (a =? 48) && ((hd 0 l =? 120) || (hd 0 l =? 88)) then s + 2 else s, m)) as E.
  { destruct (a =? 48); [|done]. rewrite (M_bind_Ok _ _ _ _ _ (ldc_ok _ _ _ H1)), !swrap8_is by lia. done. }
  rewrite (M_bind_Ok _ _ _ _ _ E). destruct l as [|c l].
  { cbn [hd Z.eqb orb strip0x]. rewrite andb_false_r, Hplain, Nat.sub_diag. by rewrite Z.add_0_r. }
  cbn [hd strip0x]. destruct ((a =? 48) && ((c =? 120) || (c =? 88))).
  - destruct Hl as (_ & _ & Hl). replace (s + 1 + 1) with (s + 2) in Hl by lia.
    etransitivity; [apply (parse_digits_ok fuel (s + 2) l 0 m Hl); simpl in Hf; lia|].
    do 3 f_equal. cbn [length]. lia.
  - rewrite Hplain, Nat.sub_diag. by rewrite Z.add_0_r.
Qed.

(** ** Splitting a line *)

Lemma skip_while_ok fuel f p w l m :
  cstr m p (w ++ l) → Forall (λ b, f (swrap 8 b) = true) w → f (swrap 8 (hd 0 l)) = false → (length w ≤ fuel)%nat →
  skip_while fuel f p m = Ok (p + Z.of_nat (length w), m).
Proof.
  revert fuel p. induction w as [|b w IH]; intros fuel p Hc Hw Hl Hf.
  - destruct (cstr_hd _ _ _ Hc) as [H0 _]. cbn [app] in H0.
    destruct fuel; cbn [skip_while]; rewrite (M_bind_Ok _ _ _ _ _ (ldc_ok _ _ _ H0)), Hl; cbn; by rewrite Z.add_0_r.
  - destruct Hc as (Hb & _ & Hc). apply Forall_cons in Hw as [Hfb Hw]. destruct fuel as [|fuel]; [simpl in Hf; lia|].
    cbn [skip_while]. rewrite (M_bind_Ok _ _ _ _ _ (ldc_ok _ _ _ Hb)), Hfb, IH by (done || (simpl in Hf; lia)).
    do 2 f_equal. cbn [length]. lia.
Qed.

Lemma cstr_app m p l k : cstr m p (l ++ k) → cstr m (p + Z.of_nat (length l)) k.
Proof.
  revert p. induction l as [|b l IH]; intros p Hc; [by rewrite Z.add_0_r|].
  destruct Hc as (_ & _ & Hc). apply IH in Hc. cbn [length]. by replace (p + Z.of_nat (S (length l))) with (p + 1 + Z.of_nat (length l)) by lia.
Qed.

Lemma cstr_outside m p l q v : q < p ∨ p + Z.of_nat (length l) < q → cstr m p l → cstr (<[q := v]> m) p l.
Proof.
  revert p. induction l as [|b l IH]; intros p Hq; cbn [cstr length] in *.
  - intros Hp. by rewrite lookup_insert_ne by lia.
  - intros (Hb & ? & Hc). rewrite lookup_insert_ne by lia. split_and!; [done|lia|lia|]. apply IH; [lia|done].
Qed.

(** A terminator written after [l]. *)
Lemma cstr_cut m p l k : cstr m p (l ++ k) → cstr (<[p + Z.of_nat (length l) := 0]> m) p l.
Proof.
  revert p. induction l as [|b l IH]; intros p; cbn [cstr length app].
  - intros _. by rewrite Z.add_0_r, lookup_insert_eq.
  - intros (Hb & ? & Hc). rewrite lookup_insert_ne by lia. split_and!; [done|lia|lia|].
    replace (p + Z.of_nat (S (length l))) with (p + 1 + Z.of_nat (length l)) by lia. by apply IH.
Qed.

(** The word of a line ends at its first space, or at the end. *)
Lemma skip_word fuel line w k rest m :
  cstr m line (w ++ replicate k 32 ++ rest) → 32 ∉ w → (k = 0%nat → rest = []) →
  (length (w ++ replicate k 32%Z ++ rest) ≤ fuel)%nat →
  skip_while fuel (λ c, negb (c =? 0) && negb (c =? 32)) line m = Ok (line + Z.of_nat (length w), m).
Proof.
  intros Hc Hw Hk Hf. rewrite length_app in Hf.
  apply (skip_while_ok _ _ _ _ (replicate k 32 ++ rest)); [done| | |lia].
  - apply Forall_forall. intros b Hin.
    pose proof (cstr_bytes m line _ b Hc ltac:(apply elem_of_app; by left)).
    rewrite swrap8_0, swrap8_is by lia. apply andb_true_iff. split; apply negb_true_iff, Z.eqb_neq; [lia|].
    by intros ->.
  - destruct k; [by rewrite (Hk eq_refl)|done].
Qed.

(** Cut a line at its first space, and skip the others. *)
Lemma split_line fuel line w k rest m :
  cstr m line (w ++ replicate (S k) 32 ++ rest) → hd 0 rest ≠ 32 → (k ≤ fuel)%nat →
  let p := line + Z.of_nat (length w) in
  let m' := <[p := 0]> m in
  stb p 0 m = Ok (tt, m') ∧
  skip_while fuel (λ c, c =? 32) (p + 1) m' = Ok (line + Z.of_nat (length w + S k), m') ∧
  cstr m' line w ∧ cstr m' (line + Z.of_nat (length w + S k)) rest.
Proof.
  intros Hc Hr Hk p m'. pose proof (cstr_app _ _ _ _ Hc) as Hcs. fold p in Hcs. destruct Hcs as (Hp & _ & Hcs).
  assert (cstr m' (p + 1) (replicate k 32 ++ rest)) as Hcs' by (apply cstr_outside; [lia|done]).
  assert (p + 1 + Z.of_nat (length (replicate k 32)) = line + Z.of_nat (length w + S k)) as E
    by (rewrite length_replicate; lia).
  pose proof (cstr_app _ _ _ _ Hcs') as Hrest. rewrite E in Hrest. destruct (cstr_hd _ _ _ Hrest) as [_ R].
  split_and!; [unfold stb; by rewrite Hp| |by eapply cstr_cut|done].
  rewrite <- E. apply (skip_while_ok _ _ _ _ rest); [done| | |by rewrite length_replicate].
  - apply Forall_forall. intros b Hb. by apply elem_of_replicate in Hb as [-> _].
  - rewrite swrap8_is by lia. by apply Z.eqb_neq.
Qed.

(** ** Dispatch *)

(** The literals are in memory, away from the [n] bytes of the line. *)
Definition literal (m : bmem) (line n q : Z) (name : string) : Prop :=
  cstr m q (chars name) ∧ (q + Z.of_nat (length (chars name)) < line ∨ line + n ≤ q).

Definition literals (m : bmem) (line n : Z) (nm : names) : Prop :=
  literal m line n (n_help nm) "help" ∧ literal m line n (n_clear nm) "clear" ∧
  literal m line n (n_echo nm) "echo" ∧ literal m line n (n_uptime nm) "uptime" ∧
  literal m line n (n_pong nm) "pong" ∧ literal m line n (n_peek nm) "peek".

Section dispatch.
Context {St : Type} `{SK : Sink St}.
Context (clear pong_start : M St unit) (ticks : Z).

(** The command a word names, run on the rest of the line. *)
Definition run_command (fuel : nat) (word : list Z) (line args : Z) : M (shell St) unit :=
  if decide (word = chars "help") then cmd_help
  else if decide (word = chars "clear") then cmd_clear clear
  else if decide (word = chars "echo") then cmd_echo fuel args
  else if decide (word = chars "uptime") then cmd_uptime ticks
  else if decide (word = chars "pong") then on_out pong_start
  else if decide (word = chars "peek") then cmd_peek fuel args
  else say (chars "unknown command: ") ;; puts fuel line ;; on_out (putc 10).

Lemma on_mem_Ok {A} (c : M bmem A) a m m' (o : St) : c m = Ok (a, m') → on_mem c (Sh m o) = Ok (a, Sh m' o).
Proof. unfold on_mem. cbn [sh_mem sh_out]. by intros ->. Qed.

(** A line is compared with a command's name: the names are short. *)
Lemma strcmp_name m p q w name :
  cstr m p w → cstr m q (chars name) → (length (chars name) < 1000)%nat →
  ∃ r, strcmp p q m = Ok (r, m) ∧ (r =? 0) = bool_decide (w = chars name).
Proof.
  intros Hp Hq Hn. exists (str_diff w (chars name)). unfold strcmp. change (Z.to_nat MAX_STRCMP_COMPARISONS) with 1000%nat.
  pose proof (str_loop_ok 1000 0 p q w (chars name) m) as E. rewrite !Z.add_0_r in E. specialize (E Hp Hq).
  destruct (agree_for 1000 w (chars name)) eqn:G; [apply agree_for_length in G; lia|].
  rewrite (M_bind_Ok _ _ _ _ _ E). split; [done|].
  apply eq_bool_prop_intro. rewrite bool_decide_spec, Is_true_true, Z.eqb_eq.
  apply str_diff_0; intros b; [by apply (cstr_bytes m p)|by apply (cstr_bytes m q)].
Qed.

Lemma compare_name {A} m p q w name (o : St) (a b : M (shell St) A) :
  cstr m p w → cstr m q (chars name) → (length (chars name) < 1000)%nat →
  (r ← on_mem (strcmp p q); if r =? 0 then a else b) (Sh m o) =
    (if decide (w = chars name) then a else b) (Sh m o).
Proof.
  intros Hp Hq Hn. destruct (strcmp_name m p q w name Hp Hq Hn) as (r & E & Hr).
  rewrite (M_bind_Ok _ _ _ _ _ (on_mem_Ok _ _ _ _ o E)), Hr.
  case_bool_decide as Hd; destruct (decide (w = chars name)); done.
Qed.

(** Compare with the next name; done if it is that one. *)
Ltac name_case Hw H :=
  rewrite (compare_name _ _ _ _ _ _ _ _ Hw H) by (vm_compute; lia); destruct (decide _); [done|].

Lemma dispatch_ok fuel nm line n args w m (o : St) :
  cstr m line w → literals m line n nm →
  dispatch clear pong_start ticks fuel nm line args (Sh m o) = run_command fuel w line args (Sh m o).
Proof.
  intros Hw ([H1 _] & [H2 _] & [H3 _] & [H4 _] & [H5 _] & [H6 _]). unfold dispatch, run_command.
  name_case Hw H1. name_case Hw H2. name_case Hw H3. name_case Hw H4. name_case Hw H5. name_case Hw H6. done.
Qed.

Lemma literals_after m line n nm q v :
  literals m line n nm → line ≤ q < line + n → literals (<[q := v]> m) line n nm.
Proof.
  intros (H1 & H2 & H3 & H4 & H5 & H6) Hq. unfold literals.
  split_and!; match goal with |- literal _ _ _ ?a ?x => assert (literal m line n a x) as [Hc Hd] by done end;
    (split; [apply cstr_outside; [lia|done]|done]).
Qed.

(** C37: a command line -- a word, spaces, and the rest -- runs the command the word names
    on the rest of the line, and anything else is reported as unknown.  The only byte
    written is the terminator after the word, so that the word and the rest are
    strings of their own; an empty line does nothing. *)
Theorem parse_and_dispatch_correct fuel nm line w k rest m (o : St) :
  cstr m line (w ++ replicate k 32 ++ rest) → 32 ∉ w → hd 0 rest ≠ 32 → (k = 0%nat → rest = []) →
  literals m line (Z.of_nat (length (w ++ replicate k 32 ++ rest)) + 1) nm →
  (length (w ++ replicate k 32%Z ++ rest) ≤ fuel)%nat →
  let args := line + Z.of_nat (length w + k) in
  let m' := if decide (k = 0%nat) then m else <[line + Z.of_nat (length w) := 0]> m in
  (w = [] → k = 0%nat → parse_and_dispatch clear pong_start ticks fuel nm line (Sh m o) = Ok (tt, Sh m o)) ∧
  (w ≠ [] ∨ k ≠ 0%nat →
    parse_and_dispatch clear pong_start ticks fuel nm line (Sh m o) = run_command fuel w line args (Sh m' o) ∧
    cstr m' line w ∧ cstr m' args rest).
Proof.
  intros Hc Hw Hr Hk Hlit Hf args m'. pose proof (cstr_hd _ _ _ Hc) as [H0 R0].
  unfold parse_and_dispatch. rewrite (M_bind_Ok _ _ _ _ _ (on_mem_Ok _ _ _ _ o (ldc_ok _ _ _ H0))), swrap8_0 by done.
  split; [intros -> ->; by rewrite (Hk eq_refl)|]. intros Hne.
  assert (hd 0 (w ++ replicate k 32 ++ rest) ≠ 0) as Hn0.
  { destruct w as [|b w]; [destruct k; [naive_solver|done]|]. destruct Hc as (_ & ? & _). cbn. lia. }
  rewrite (proj2 (Z.eqb_neq _ 0) Hn0).
  rewrite (M_bind_Ok _ _ _ _ _ (on_mem_Ok _ _ _ _ o (skip_word fuel line w k rest m Hc Hw Hk Hf))).
  pose proof (cstr_app _ _ _ _ Hc) as Hcs. destruct (cstr_hd _ _ _ Hcs) as [H1 R1].
  rewrite (M_bind_Ok _ _ _ _ _ (on_mem_Ok _ _ _ _ o (ldc_ok _ _ _ H1))), swrap8_is by lia.
  rewrite !length_app, length_replicate in Hlit, Hf.
  unfold m', args in *. destruct k as [|k].
  - rewrite (Hk eq_refl) in *. cbn [replicate app hd Z.eqb] in *. rewrite app_nil_r in Hc. rewrite Nat.add_0_r.
    split_and!; [|done|done]. by eapply dispatch_ok.
  - destruct (split_line fuel line w k rest m Hc Hr ltac:(lia)) as (Hst & Hsk & Hword & Hrest).
    cbn [replicate app hd Z.eqb Pos.eqb decide]. rewrite M_bind_assoc.
    rewrite (M_bind_Ok _ _ _ _ _ (on_mem_Ok _ _ _ _ o Hst)), (M_bind_Ok _ _ _ _ _ (on_mem_Ok _ _ _ _ o Hsk)).
    split_and!; [|done|done]. eapply dispatch_ok; [done|]. apply literals_after; [exact Hlit|lia].
Qed.
End dispatch.

(** ** The memory display *)

Section peek.
Context {St : Type} `{SK : Sink St}.
Implicit Types s : shell St.

(** Only writes the text [l]. *)
Definition prints (c : M (shell St) unit) (l : list Z) s : Prop := c s = on_out (emit l) s.

Lemma prints_bind (c d : M (shell St) unit) l k m (o : St) :
  prints c l (Sh m o) → (∀ o', prints d k (Sh m o')) → prints (c ;; d) (l ++ k) (Sh m o).
Proof.
  unfold prints. intros Hc Hd. unfold mbind, M_bind at 1. rewrite Hc. unfold on_out. cbn [sh_out sh_mem].
  rewrite emit_app. unfold mbind, M_bind. destruct (emit l o) as [[[] o']| | | |]; [|done..].
  rewrite Hd. done.
Qed.

Lemma prints_for_up n i body f m (o : St) :
  (∀ j o', i ≤ j < i + Z.of_nat n → prints (body j) (f j) (Sh m o')) →
  prints (for_up n i body) (concat (f <$> seqZ i (Z.of_nat n))) (Sh m o).
Proof.
  revert i o. induction n as [|n IH]; intros i o Hb; cbn [for_up]; [done|].
  rewrite seqZ_cons by lia. cbn [fmap list_fmap concat]. replace (Z.pred (Z.of_nat (S n))) with (Z.of_nat n) by lia.
  apply prints_bind; [apply Hb; lia|]. intros o'. replace (Z.succ i) with (i + 1) by lia. apply IH. intros j o'' Hj. apply Hb. lia.
Qed.

Lemma prints_putc c m (o : St) : prints (on_out (putc c)) [c] (Sh m o).
Proof. unfold prints, on_out. by rewrite emit_single. Qed.

Lemma prints_when b c l m (o : St) : prints c l (Sh m o) → prints (when b c) (if b then l else []) (Sh m o).
Proof. by destruct b. Qed.

(** The formats of the display have a width, which the console does not know. *)
Lemma prints_hex b m (o : St) : prints (sayf (chars "%02x ") [b]) (chars "%02x ") (Sh m o).
Proof. unfold prints, sayf, on_out. cbn [sh_out sh_mem]. vm_compute. reflexivity. Qed.

Lemma prints_address a b m (o : St) : prints (sayf (chars "%08x%08x  ") [a; b]) (chars "%08x%08x  ") (Sh m o).
Proof. unfold prints, sayf, on_out. cbn [sh_out sh_mem]. vm_compute. reflexivity. Qed.

Lemma prints_say l m (o : St) :
  l ∈ [chars "   "; chars " |"; chars "|" ++ [10]] → prints (say l) l (Sh m o).
Proof. rewrite !elem_of_cons, elem_of_nil. by intros [-> | [-> | [-> | []]]]; vm_compute. Qed.

Lemma prints_load p b c l m (o : St) :
  m !! p = Some b → prints (c b) l (Sh m o) → prints (b ← on_mem (ldb p); c b) l (Sh m o).
Proof.
  intros Hb Hc. unfold prints. rewrite <- Hc. apply M_bind_Ok, on_mem_Ok. unfold ldb. by rewrite Hb.
Qed.

Definition shown (b : Z) : Z := if (0x20 <=? b) && (b <? 0x7f) then b else 46.

(** The columns of a row with [k] bytes [bs]: the byte columns do not depend on them. *)
Definition byte_column (k j : Z) : list Z :=
  (if j <? k then chars "%02x " else chars "   ") ++ (if j =? 7 then [32] else []).
Definition char_column (k : Z) (bs : Z → Z) (j : Z) : list Z := if j <? k then [shown (bs j)] else [].

(** A row of [peek] does not show memory: the address column and the byte columns are
    the texts of their formats, "%08x%08x" and "%02x", because the console's printf has
    no field widths.  Only the character column shows the bytes. *)
Theorem peek_row_shows_no_bytes addr len i bs m (o : St) :
  (∀ j, 0 ≤ j < 16 → i + j < len → m !! wrap virt_bits (addr + (i + j)) = Some (bs j)) →
  peek_row addr len i (Sh m o) =
    on_out (emit (chars "%08x%08x  " ++ concat (byte_column (len - i) <$> seqZ 0 16) ++ chars " |" ++
      concat (char_column (len - i) bs <$> seqZ 0 16) ++ chars "|" ++ [10])) (Sh m o).
Proof.
  intros Hm. unfold peek_row.
  apply prints_bind; [apply prints_address|]. intros o1. apply prints_bind.
  { apply (prints_for_up 16 0). intros j o' Hj. unfold byte_column. apply prints_bind.
    - destruct (Z.ltb_spec (i + j) len), (Z.ltb_spec j (len - i)); try lia.
      + eapply prints_load; [by apply Hm|]. apply prints_hex.
      + apply prints_say. set_solver.
    - intros o2. apply prints_when, prints_putc. }
  intros o2. apply prints_bind; [apply prints_say; set_solver|]. intros o3. apply prints_bind.
  { apply (prints_for_up 16 0). intros j o' Hj. unfold char_column.
    destruct (Z.ltb_spec (i + j) len), (Z.ltb_spec j (len - i)); try lia; [|done].
    eapply prints_load; [by apply Hm|]. apply prints_putc. }
  intros o4. apply prints_say. set_solver.
Qed.
End peek.

(** ** A concrete shell: the line at 200, the literals from 300 on *)

Module ExShell.
Definition nm : names := Names 300 310 320 330 340 350.
Definition mem (line : list Z) : bmem :=
  bytes_at 200 (line ++ [0]) ∪ bytes_at 300 (chars "help" ++ [0]) ∪ bytes_at 310 (chars "clear" ++ [0]) ∪
  bytes_at 320 (chars "echo" ++ [0]) ∪ bytes_at 330 (chars "uptime" ++ [0]) ∪ bytes_at 340 (chars "pong" ++ [0]) ∪
  bytes_at 350 (chars "peek" ++ [0]).
End ExShell.

Section witnesses.
#[local] Existing Instance Log.sink.

(** A closed statement about strings, by evaluation. *)
Ltac strings := vm_compute; intuition congruence.

Lemma parse_hex_correct_witness :
  parse_hex 8 200 (ExShell.mem (chars "0xbEEf 1")) = Ok (0xbeef, 206, ExShell.mem (chars "0xbEEf 1")).
Proof.
  refine (eq_trans (parse_hex_correct 8 200 (chars "0xbEEf 1") _ _ _) _); [strings|vm_compute; lia|].
  vm_compute. reflexivity.
Defined.

Lemma parse_and_dispatch_correct_witness :
  parse_and_dispatch (mret tt) (mret tt) 0 8 ExShell.nm 200 (Sh (ExShell.mem (chars "echo  hi")) []) =
    Ok (tt, Sh (<[204 := 0]> (ExShell.mem (chars "echo  hi"))) [10; 105; 104]).
Proof.
  refine (eq_trans (proj1 (proj2 (parse_and_dispatch_correct (mret tt) (mret tt) 0 8 ExShell.nm 200
    (chars "echo") 2 (chars "hi") (ExShell.mem (chars "echo  hi")) [] _ _ _ _ _ _) _)) _).
  - strings.
  - by_decide.
  - done.
  - done.
  - unfold literals, literal. split_and!; solve [strings | right; vm_compute; congruence].
  - vm_compute. lia.
  - by left.
  - vm_compute. reflexivity.
Defined.

Lemma peek_row_shows_no_bytes_witness :
  peek_row 200 2 0 (Sh (ExShell.mem (chars "hi")) []) = peek_row 350 2 0 (Sh (bytes_at 350 [104; 105]) []) ≫= λ r,
    Ok (r.1, Sh (ExShell.mem (chars "hi")) (sh_out r.2)).
Proof.
  rewrite (peek_row_shows_no_bytes 200 2 0 (λ j, if j =? 0 then 104 else 105)).
  - vm_compute. reflexivity.
  - intros j Hj Hlt. assert (j = 0 ∨ j = 1) as [-> | ->] by lia; vm_compute; reflexivity.
Defined.
End witnesses.
