(* ===== verification/Log.v ===== *)
(** * The kernel log ([kernel/log.c])

    [printk] writes a tag and a formatted message to the console, in the colours of
    the level, and to the serial port. *)

From S2P Require Import Prelude Loops CString Format Gfx.

(* src/include/kernel/log.h 15-23 log_level *)
Inductive log_level := KERN_RAW | KERN_DEBUG | KERN_INFO | KERN_OK | KERN_WARN | KERN_ERROR | KERN_FATAL.

(** The enumerators' values. *)
Definition level_no (l : log_level) : Z :=
  match l with
  | KERN_RAW => 0 | KERN_DEBUG => 1 | KERN_INFO => 2 | KERN_OK => 3 | KERN_WARN => 4 | KERN_ERROR => 5 | KERN_FATAL => 6
  end.

(* src/include/kernel/log.h 6-12 INFO_FG *)
Definition INFO_FG : Z := rgb 0xCC 0xCC 0xCC.
Definition DEBUG_FG : Z := rgb 0x87 0xCE 0xFA.
Definition WARN_FG : Z := rgb 0xFF 0xFF 0x00.
Definition ERROR_FG : Z := rgb 0xFF 0x00 0x00.
Definition FATAL_FG : Z := rgb 0xFF 0xFF 0xFF.
Definition OK_FG : Z := rgb 0x00 0xCC 0x00.
Definition FATAL_BG : Z := rgb 0xCC 0x00 0x00.

(** A device with colours. *)
Class Screen (C : Type) := { screen_sink :: Sink C; set_fg : Z → M C unit; set_bg : Z → M C unit }.

(** The threshold and the two devices. *)
Record log (C D : Type) := LogState { lg_level : log_level; lg_con : C; lg_ser : D }.
Arguments LogState {C D} _ _ _.
Arguments lg_level {C D} _.
Arguments lg_con {C D} _.
Arguments lg_ser {C D} _.

Section log.
Context {C D : Type} `{SC : Screen C} `{SD : Sink D}.

Definition on_screen {A} (m : M C A) : M (log C D) A := λ s,
  match m (lg_con s) with
  | Ok (a, c) => Ok (a, LogState (lg_level s) c (lg_ser s))
  | Panic msg => Panic msg | Halt => Halt | Fault a => Fault a | OutOfFuel => OutOfFuel
  end.
Definition on_serial {A} (m : M D A) : M (log C D) A := λ s,
  match m (lg_ser s) with
  | Ok (a, d) => Ok (a, LogState (lg_level s) (lg_con s) d)
  | Panic msg => Panic msg | Halt => Halt | Fault a => Fault a | OutOfFuel => OutOfFuel
  end.

(* src/kernel/log.c 8-10 set_log_level *)
Definition set_log_level (l : log_level) : M (log C D) unit :=
  modify (λ s, LogState l (lg_con s) (lg_ser s)).

(** The switch: colours are set on the way, and the tag is the result.  The case of
    [KERN_WARN] goes on into that of [KERN_FATAL]. *)
(* src/kernel/log.c 22-52 printk *)
Definition level_tag (l : log_level) : M (log C D) (list Z) :=
  let fatal := on_screen (set_fg FATAL_FG) ;; on_screen (set_bg FATAL_BG) ;; mret (chars "[FATAL]:") in
  match l with
  | KERN_RAW => on_screen (set_fg INFO_FG) ;; mret []
  | KERN_DEBUG => on_screen (set_fg DEBUG_FG) ;; mret (chars "[DBUG]:")
  | KERN_INFO => on_screen (set_fg INFO_FG) ;; mret (chars "[INFO]:")
  | KERN_OK => on_screen (set_fg OK_FG) ;; mret (chars "[ OK ]:")
  | KERN_ERROR => on_screen (set_fg ERROR_FG) ;; mret (chars "[ERROR]:")
  | KERN_WARN => on_screen (set_fg WARN_FG) ;; fatal
  | KERN_FATAL => fatal
  end.

(** The format and its arguments' strings are in [rom]; [n] and [fuel] bound their
    lengths. *)
(* src/kernel/log.c 12-69 printk *)
Definition printk (rom : gmap Z Z) (n fuel : nat) (level : log_level) (fmt : Z) (args : list Z) : M (log C D) unit :=
  threshold ← gets lg_level;
  if level_no level <? level_no threshold then mret tt else
  tag ← level_tag level;
  on_screen (console_puts (rom_of tag) (length tag) 0) ;;
  on_serial (serial_write (rom_of tag) (length tag) 0) ;;
  on_screen (console_vprintf rom n fuel fmt args) ;;
  on_serial (serial_vprintf rom n fuel fmt args) ;;
  on_screen (set_fg INFO_FG) ;;
  on_screen (set_bg (rgb 0x00 0x00 0x00)).
End log.

(** * The theorems about the kernel log *)

(** A screen that records every character with the colours it is drawn in, and a
    serial line that records the characters. *)
Record trace := Trace { tr_fg : Z; tr_bg : Z; tr_cells : list (Z * Z * Z) }.

Definition trace_putc (c : Z) : M trace unit :=
  modify (λ t, Trace (tr_fg t) (tr_bg t) (tr_cells t ++ [(c, tr_fg t, tr_bg t)])).
#[export] Instance trace_screen : Screen trace := {|
  screen_sink := trace_putc;
  set_fg := λ v, modify (λ t, Trace v (tr_bg t) (tr_cells t));
  set_bg := λ v, modify (λ t, Trace (tr_fg t) v (tr_cells t)) |}.

Record line := Line { ln_chars : list Z }.
#[export] Instance line_sink : Sink line := λ c, modify (λ d, Line (ln_chars d ++ [c])).

(** Tag, text and background colour of a level; a warning looks like a fatal error. *)
Definition tag_of (l : log_level) : list Z :=
  match l with
  | KERN_RAW => [] | KERN_DEBUG => chars "[DBUG]:" | KERN_INFO => chars "[INFO]:" | KERN_OK => chars "[ OK ]:"
  | KERN_ERROR => chars "[ERROR]:" | KERN_WARN | KERN_FATAL => chars "[FATAL]:"
  end.
Definition fg_of (l : log_level) : Z :=
  match l with
  | KERN_RAW | KERN_INFO => INFO_FG | KERN_DEBUG => DEBUG_FG | KERN_OK => OK_FG
  | KERN_ERROR => ERROR_FG | KERN_WARN | KERN_FATAL => FATAL_FG
  end.
Definition bg_of (l : log_level) (bg : Z) : Z :=
  match l with KERN_WARN | KERN_FATAL => FATAL_BG | _ => bg end.

Lemma emit_trace l fg bg cells :
  emit l (Trace fg bg cells) = Ok (tt, Trace fg bg (cells ++ ((λ c, (c, fg, bg)) <$> l))).
Proof.
  revert cells. induction l as [|c l IH]; intros cells; cbn [emit fmap list_fmap]; [by rewrite app_nil_r|].
  erewrite M_bind_Ok; [|reflexivity]. cbn [tr_fg tr_bg tr_cells]. by rewrite IH, <- app_assoc.
Qed.

Lemma emit_line l cs : emit l (Line cs) = Ok (tt, Line (cs ++ l)).
Proof.
  revert cs. induction l as [|c l IH]; intros cs; cbn [emit]; [by rewrite app_nil_r|].
  erewrite M_bind_Ok; [|reflexivity]. cbn [ln_chars]. by rewrite IH, <- app_assoc.
Qed.

Lemma on_screen_Ok {A} (m : M trace A) a lv c c' (d : line) :
  m c = Ok (a, c') → on_screen m (LogState lv c d) = Ok (a, LogState lv c' d).
Proof. unfold on_screen. cbn [lg_con lg_level lg_ser]. by intros ->. Qed.

Lemma on_serial_Ok {A} (m : M line A) a lv (c : trace) d d' :
  m d = Ok (a, d') → on_serial m (LogState lv c d) = Ok (a, LogState lv c d').
Proof. unfold on_serial. cbn [lg_con lg_level lg_ser]. by intros ->. Qed.

Lemma level_tag_ok l lv fg bg cells (d : line) :
  level_tag l (LogState lv (Trace fg bg cells) d) =
    Ok (tag_of l, LogState lv (Trace (fg_of l) (bg_of l bg) cells) d).
Proof. by destruct l. Qed.

(** A tag is a string of its own. *)
Lemma text_at_tag l : text_at (rom_of (tag_of l)) 0 (tag_of l).
Proof. destruct l; cbn [tag_of]; repeat (split; [done|split; [by eexists; split; vm_compute; reflexivity|]]); by vm_compute. Qed.

(** [printk] below the threshold does nothing.  Otherwise the tag and the text the
    format stands for appear on the serial line and on the console, there in the level's
    colours, and the default colours are back afterwards.  A warning has the tag and the
    colours of a fatal error. *)
Theorem printk_correct rom n fuel level p fmt args out lv fg bg cells cs :
  renders rom n fmt args out → text_at rom p fmt → (length fmt ≤ fuel)%nat →
  printk rom n fuel level p args (LogState lv (Trace fg bg cells) (Line cs)) =
    if level_no level <? level_no lv then Ok (tt, LogState lv (Trace fg bg cells) (Line cs))
    else Ok (tt, LogState lv
      (Trace INFO_FG (rgb 0 0 0)
        (cells ++ ((λ c, (c, fg_of level, bg_of level bg)) <$> tag_of level ++ out)))
      (Line (cs ++ tag_of level ++ out))).
Proof.
  intros Hr Ht Hf. unfold printk. erewrite M_bind_Ok; [|reflexivity]. cbn [lg_level].
  destruct (level_no level <? level_no lv); [done|].
  rewrite (M_bind_Ok _ _ _ _ _ (level_tag_ok _ _ _ _ _ _)).
  unfold console_puts, serial_write.
  erewrite M_bind_Ok by (apply on_screen_Ok; rewrite (puts_from_ok _ _ _ (tag_of level)) by (apply text_at_tag || done); apply emit_trace).
  erewrite M_bind_Ok by (apply on_serial_Ok; rewrite (puts_from_ok _ _ _ (tag_of level)) by (apply text_at_tag || done); apply emit_line).
  erewrite M_bind_Ok by (apply on_screen_Ok; rewrite (proj1 (vprintf_both _ _ _ _ _ _ _ _ Hr Ht Hf)); apply emit_trace).
  erewrite M_bind_Ok by (apply on_serial_Ok; rewrite (proj2 (vprintf_both _ _ _ _ _ _ _ _ Hr Ht Hf)); apply emit_line).
  erewrite M_bind_Ok by (by apply on_screen_Ok). unfold on_screen. cbn.
  by rewrite fmap_app, <- !app_assoc.
Qed.

Lemma printk_correct_witness :
  printk (rom_of (chars "n=%d")) 0 4 KERN_WARN 0 [7] (LogState KERN_DEBUG (Trace 0 0 []) (Line [])) =
    Ok (tt, LogState KERN_DEBUG
      (Trace INFO_FG (rgb 0 0 0) ((λ c, (c, FATAL_FG, FATAL_BG)) <$> chars "[FATAL]:n=7")) (Line (chars "[FATAL]:n=7"))).
Proof.
  refine (eq_trans (printk_correct (rom_of (chars "n=%d")) 0 4 KERN_WARN 0 (chars "n=%d") [7]
    ([110; 61] ++ int_numeral (s32 7) ++ []) KERN_DEBUG 0 0 [] [] _ _ _) _).
  - do 2 (apply r_char; [done|]). apply r_d, r_end.
  - do 4 (split; [done|split; [by eexists; split; vm_compute; reflexivity|]]). by vm_compute.
  - vm_compute. lia.
  - vm_compute. reflexivity.
Defined.
