(* ===== verification/Rand.v ===== *)
(** * Random numbers ([libc/rand.c])

    The xorshift generator, the processor's generator as a parameter, and ranges. *)

From S2P Require Import Prelude Loops.

Record rng := Rng { has_rdrand : bool; rng_state : Z; rd_count : nat }.

Section rand.
(** The processor: what [cpuid] leaf 1 leaves in ECX, the time stamp's two halves, and
    the [n]-th [rdrand], [None] where it fails. *)
Context (cpuid_ecx tsc_lo tsc_hi : Z) (rdrand : nat → option Z).

(* src/libc/rand.c 6-28 init_rand *)
Definition init_rand : M rng Z :=
  let has := nz ((cpuid_ecx .>> 30) .& 1) in
  modify (λ s, Rng has (rng_state s) (rd_count s)) ;;
  when (negb has) (modify (λ s,
    let seed := (u64 (tsc_hi .<< 32)) .| tsc_lo in
    Rng has (if seed =? 0 then 1 else seed) (rd_count s))) ;;
  mret 0.

(* src/libc/rand.c 30-32 srand *)
Definition srand (seed : Z) : M rng unit :=
  modify (λ s, Rng (has_rdrand s) (if nz seed then seed else 1) (rd_count s)).

(** One step of the generator. *)
Definition xorshift (x : Z) : Z :=
  let x := x .^ u64 (x .<< 13) in
  let x := x .^ (x .>> 7) in
  x .^ u64 (x .<< 17).

(* src/libc/rand.c 34-42 xorshift64 *)
Definition xorshift64 : M rng Z :=
  x ← gets (λ s, xorshift (rng_state s));
  modify (λ s, Rng (has_rdrand s) x (rd_count s)) ;; mret x.

(* src/libc/rand.c 44-58 rdrand64 *)
Definition rdrand64 : M rng Z :=
  r ← for_find 10 0 (λ _,
    k ← gets rd_count;
    modify (λ s, Rng (has_rdrand s) (rng_state s) (S k)) ;;
    mret (rdrand k));
  match r with Some v => mret v | None => xorshift64 end.

(* src/libc/rand.c 60-62 randul *)
Definition randul : M rng Z := h ← gets has_rdrand; if (h : bool) then rdrand64 else xorshift64.
(* src/libc/rand.c 64-66 randu *)
Definition randu : M rng Z := x ← randul; mret (u32 x).
(* src/libc/rand.c 68-70 randl *)
Definition randl : M rng Z := x ← randul; mret (s64 x).
(* src/libc/rand.c 72-74 rand *)
Definition rand : M rng Z := x ← randu; mret (s32 x).

(* src/libc/rand.c 76-81 rand_range *)
Definition rand_range (min max : Z) : M rng Z :=
  if max <=? min then mret min else
  x ← randu; mret (u32 (min + x mod u32 (max - min))).
End rand.

(** ** The generator does not get stuck *)

Lemma testbit_bounded x i : 0 ≤ x < 2 ^ 64 → 64 ≤ i → Z.testbit x i = false.
Proof. intros Hx Hi. apply (testbit_high 64); lia. Qed.

(** [x ^ (x << a)] and [x ^ (x >> a)] are zero only for zero. *)
Lemma shl_step_0 x a : 0 < a → 0 ≤ x < 2 ^ 64 → x .^ u64 (x .<< a) = 0 → x = 0.
Proof.
  intros Ha Hx E. apply Z.lxor_eq in E. apply Z.bits_inj'. intros i Hi. rewrite Z.bits_0.
  revert i Hi. apply (Zlt_0_ind (λ i, Z.testbit x i = false)). intros i IH Hi.
  destruct (Z.lt_ge_cases i 64) as [Hlt|]; [|by apply testbit_bounded].
  rewrite E. unfold wrap. rewrite Z.mod_pow2_bits_low, Z.shiftl_spec by lia.
  destruct (Z.lt_ge_cases i a); [by apply Z.testbit_neg_r; lia|]. apply IH. lia.
Qed.

Lemma shr_step_0 x a : 0 < a → 0 ≤ x < 2 ^ 64 → x .^ (x .>> a) = 0 → x = 0.
Proof.
  intros Ha Hx E. apply Z.lxor_eq in E. apply Z.bits_inj'. intros i Hi. rewrite Z.bits_0.
  destruct (Z.lt_ge_cases i 64) as [Hlt|]; [|by apply testbit_bounded].
  remember (64 - i) as k eqn:Hk. assert (0 ≤ k) as Hk0 by lia. revert i Hi Hlt Hk.
  revert k Hk0. apply (Zlt_0_ind (λ k, ∀ i, 0 ≤ i → i < 64 → k = 64 - i → Z.testbit x i = false)).
  intros k IH Hk0 i Hi Hlt ->. rewrite E, Z.shiftr_spec by lia.
  destruct (Z.lt_ge_cases (i + a) 64); [|by apply testbit_bounded]. apply (IH (64 - (i + a))); lia.
Qed.

Lemma lxor_bound x y : 0 ≤ x < 2 ^ 64 → 0 ≤ y < 2 ^ 64 → 0 ≤ x .^ y < 2 ^ 64.
Proof.
  intros Hx Hy. assert ((x .^ y) mod 2 ^ 64 = x .^ y) as <-; [|apply Z.mod_pos_bound; lia].
  apply Z.bits_inj'. intros i Hi. destruct (Z.lt_ge_cases i 64); [by rewrite Z.mod_pow2_bits_low by lia|].
  by rewrite Z.mod_pow2_bits_high, Z.lxor_spec, !testbit_bounded by lia.
Qed.

Lemma shr_bound x a : 0 ≤ a → 0 ≤ x < 2 ^ 64 → 0 ≤ x .>> a < 2 ^ 64.
Proof.
  intros Ha Hx. rewrite Z.shiftr_div_pow2 by done. pose proof (Z.pow_pos_nonneg 2 a ltac:(lia) Ha).
  split; [apply Z.div_pos; lia|]. apply Z.div_lt_upper_bound; nia.
Qed.

(** The state is a positive 64-bit number. *)
Definition live (x : Z) : Prop := 0 < x < 2 ^ 64.

Lemma xorshift_live x : live x → live (xorshift x).
Proof.
  unfold live, xorshift. intros Hx.
  set (y := x .^ u64 (x .<< 13)). set (z := y .^ (y .>> 7)).
  assert (0 ≤ y < 2 ^ 64) as Hy by (apply lxor_bound; [lia|apply wrap_bound; lia]).
  assert (0 ≤ z < 2 ^ 64) as Hz by (apply lxor_bound; [lia|apply shr_bound; lia]).
  assert (0 ≤ z .^ u64 (z .<< 17) < 2 ^ 64) as Hr by (apply lxor_bound; [lia|apply wrap_bound; lia]).
  assert (z .^ u64 (z .<< 17) ≠ 0); [|lia]. intros E.
  apply shl_step_0, shr_step_0, shl_step_0 in E; lia.
Qed.

Section ranges.
Context (rdrand : nat → option Z).

Lemma xorshift64_ok s : live (rng_state s) → wp xorshift64 (λ _ s', live (rng_state s')) s.
Proof. intros Hl. by apply xorshift_live. Qed.

Lemma randul_ok s : live (rng_state s) → wp (randul rdrand) (λ _ s', live (rng_state s')) s.
Proof.
  intros Hl. unfold randul. wstep. destruct (has_rdrand s); [|by apply xorshift64_ok]. unfold rdrand64.
  eapply wp_bind_mono.
  - apply (wp_for_find 10 0 _ (λ _ s', live (rng_state s')) (λ _ s', live (rng_state s'))); [done|].
    intros j s' _ Hs. repeat wstep. by destruct (rdrand (rd_count s')).
  - intros [v|] s' Hs; [by apply wp_ret|by apply xorshift64_ok].
Qed.

(** A random number of a range is in the range, whichever generator is used and whether
    or not the processor's fails, and the generator's state stays nonzero, where it
    would be stuck.  An empty range gives its lower end. *)
Theorem rand_range_correct lo hi s :
  live (rng_state s) → 0 ≤ lo < 2 ^ 32 → 0 ≤ hi < 2 ^ 32 →
  wp (rand_range rdrand lo hi) (λ r s', live (rng_state s') ∧ if hi <=? lo then r = lo else lo ≤ r < hi) s.
Proof.
  intros Hl Hlo Hhi. unfold rand_range. destruct (Z.leb_spec hi lo); [by apply wp_ret|].
  unfold randu. apply wp_bind. eapply wp_bind_mono; [by apply randul_ok|]. intros x s' Hs. apply wp_ret, wp_ret.
  split; [done|]. rewrite (wrap_small 32 (hi - lo)) by lia.
  pose proof (Z.mod_pos_bound (u32 x) (hi - lo) ltac:(lia)). rewrite wrap_small; lia.
Qed.
End ranges.

Lemma rand_range_correct_witness :
  wp (rand_range (λ _, None) 10 20) (λ r s', live (rng_state s') ∧ 10 ≤ r < 20) (Rng true 1 0).
Proof. apply (rand_range_correct (λ _, None) 10 20 (Rng true 1 0)); unfold live; cbn [rng_state]; lia. Defined.
