(* ===== verification/Sort.v ===== *)
(** * Sorting and searching ([libc/include/algorithms])

    An [int] array is the state; an access outside it faults. *)

From S2P Require Import Prelude Loops Arrays.

(* src/libc/include/algorithms/swap.h 1-5 swap *)
Definition swap (i j : Z) : M (list Z) unit :=
  tmp ← ld i;
  y ← ld j;
  st i y ;;
  st j tmp.

(** ** Bubble sort *)

Definition bubble_step (j : Z) : M (list Z) unit :=
  x ← ld j;
  y ← ld (j + 1);
  when (y <? x) (swap j (j + 1)).

(** The bounds are of type [size_t]: for an empty array they wrap around. *)
(* src/libc/include/algorithms/bubble.h 1-9 bubble_sort *)
Definition bubble_sort (size : Z) : M (list Z) unit :=
  for_up (Z.to_nat (u64 (size - 1))) 0 (λ i,
    for_up (Z.to_nat (u64 (size - (i + 1)))) 0 bubble_step).

(** ** Insertion sort *)

(** Larger elements move up; the result is where the loop stops. *)
Fixpoint shift_up (fuel : nat) (j key : Z) : M (list Z) Z :=
  if j <? 0 then mret j else
  v ← ld j;
  if negb (key <? v) then mret j else
  match fuel with
  | O => out_of_fuel
  | S fuel => st (j + 1) v ;; shift_up fuel (j - 1) key
  end.

(* src/libc/include/algorithms/insertion.h 1-11 insertion_sort *)
Definition insertion_sort (size : Z) : M (list Z) unit :=
  for_up (Z.to_nat (size - 1)) 1 (λ i,
    key ← ld i;
    j ← shift_up (Z.to_nat i) (i - 1) key;
    st (j + 1) key).

(** ** Selection sort *)

Fixpoint min_from (n : nat) (i ret val : Z) : M (list Z) Z :=
  match n with
  | O => mret ret
  | S n =>
      v ← ld i;
      if v <? val then min_from n (i + 1) i v else min_from n (i + 1) ret val
  end.

(* src/libc/include/algorithms/selection.h 1-11 min_index *)
Definition min_index (low high : Z) : M (list Z) Z :=
  val ← ld low;
  min_from (Z.to_nat (high - low)) low low val.

(* src/libc/include/algorithms/selection.h 13-17 selection_sort *)
Definition selection_sort (size : Z) : M (list Z) unit :=
  for_up (Z.to_nat size) 0 (λ i, m ← min_index i size; swap i m).

(** ** Quicksort *)

Fixpoint partition_loop (n : nat) (i ei p : Z) : M (list Z) Z :=
  match n with
  | O => mret ei
  | S n =>
      v ← ld i;
      if v <=? p then swap (ei + 1) i ;; partition_loop n (i + 1) (ei + 1) p
      else partition_loop n (i + 1) ei p
  end.

(* src/libc/include/algorithms/quicksort.h 1-13 partition *)
Definition partition (l h : Z) : M (list Z) Z :=
  p ← ld h;
  ei ← partition_loop (Z.to_nat (h - l)) l (l - 1) p;
  swap (ei + 1) h ;;
  mret (ei + 1).

(* src/libc/include/algorithms/quicksort.h 15-21 _quick_sort *)
Fixpoint quick_sort_ (fuel : nat) (l h : Z) : M (list Z) unit :=
  if negb (l <? h) then mret tt else
  match fuel with
  | O => out_of_fuel
  | S fuel =>
      pi ← partition l h;
      quick_sort_ fuel l (pi - 1) ;;
      quick_sort_ fuel (pi + 1) h
  end.

(** [len - 1], of type [size_t], is passed as an [int]; the depth is at most [len]. *)
(* src/libc/include/algorithms/quicksort.h 23-25 quick_sort *)
Definition quick_sort (len : Z) : M (list Z) unit :=
  quick_sort_ (Z.to_nat len) 0 (s32 (len - 1)).

(** ** Searching *)

(* src/libc/include/algorithms/linear.c 1-9 linear_search *)
Definition linear_search (n elem : Z) : M (list Z) Z :=
  r ← for_find (Z.to_nat n) 0 (λ i, v ← ld i; mret (if v =? elem then Some i else None));
  mret (default (-1) r).

Fixpoint binary_loop (fuel : nat) (low high elem : Z) : M (list Z) Z :=
  if negb (low <? high) then mret (-1) else
  match fuel with
  | O => out_of_fuel
  | S fuel =>
      let mid := Z.quot (s32 (low + high)) 2 in
      v ← ld mid;
      if v =? elem then mret mid
      else if v <? elem then binary_loop fuel mid high elem
      else binary_loop fuel low mid elem
  end.

(* src/libc/include/algorithms/binary.c 2-16 binary_search *)
Definition binary_search (fuel : nat) (n elem : Z) : M (list Z) Z := binary_loop fuel 0 n elem.

(** ** Merge sort *)

(** The array and the two buffers. *)
Record mbufs := MBufs { mb_arr : list Z; mb_left : list Z; mb_right : list Z }.

Definition on_arr {A} (m : M (list Z) A) : M mbufs A := λ s,
  match m (mb_arr s) with
  | Ok (x, a) => Ok (x, MBufs a (mb_left s) (mb_right s))
  | Panic msg => Panic msg | Halt => Halt | Fault i => Fault i | OutOfFuel => OutOfFuel
  end.
Definition on_left {A} (m : M (list Z) A) : M mbufs A := λ s,
  match m (mb_left s) with
  | Ok (x, a) => Ok (x, MBufs (mb_arr s) a (mb_right s))
  | Panic msg => Panic msg | Halt => Halt | Fault i => Fault i | OutOfFuel => OutOfFuel
  end.
Definition on_right {A} (m : M (list Z) A) : M mbufs A := λ s,
  match m (mb_right s) with
  | Ok (x, a) => Ok (x, MBufs (mb_arr s) (mb_left s) a)
  | Panic msg => Panic msg | Halt => Halt | Fault i => Fault i | OutOfFuel => OutOfFuel
  end.

(** The first [while] loop: the indices it ends with. *)
Fixpoint merge_main (fuel : nat) (a b c n1 n2 : Z) : M mbufs (Z * Z * Z) :=
  if (a <? n1) && (b <? n2) then
    match fuel with
    | O => out_of_fuel
    | S fuel =>
        x ← on_left (ld a);
        y ← on_right (ld b);
        if x <=? y then on_arr (st c x) ;; merge_main fuel (a + 1) b (c + 1) n1 n2
        else on_arr (st c y) ;; merge_main fuel a (b + 1) (c + 1) n1 n2
    end
  else mret (a, b, c).

(* src/libc/include/algorithms/merge.h 1-39 merge *)
Definition merge (l m r : Z) : M mbufs unit :=
  let n1 := m - l + 1 in
  let n2 := r - m in
  for_up (Z.to_nat n1) 0 (λ i, x ← on_arr (ld (l + i)); on_left (st i x)) ;;
  for_up (Z.to_nat n2) 0 (λ j, y ← on_arr (ld (m + 1 + j)); on_right (st j y)) ;;
  '(a, b, c) ← merge_main (Z.to_nat (n1 + n2)) 0 0 l n1 n2;
  for_up (Z.to_nat (n1 - a)) a (λ i, x ← on_left (ld i); on_arr (st (c + (i - a)) x)) ;;
  let c := c + Z.max 0 (n1 - a) in
  for_up (Z.to_nat (n2 - b)) b (λ j, y ← on_right (ld j); on_arr (st (c + (j - b)) y)).

(* src/libc/include/algorithms/merge.h 41-50 _merge_sort *)
Fixpoint merge_sort_ (fuel : nat) (l r : Z) : M mbufs unit :=
  if negb (l <? r) then mret tt else
  match fuel with
  | O => out_of_fuel
  | S fuel =>
      let m := l + Z.quot (r - l) 2 in
      merge_sort_ fuel l m ;;
      merge_sort_ fuel (m + 1) r ;;
      merge l m r
  end.

(* src/libc/include/algorithms/merge.h 52-54 merge_sort *)
Definition merge_sort (len : Z) : M mbufs unit := merge_sort_ (Z.to_nat len) 0 (s32 len).
