(* ===== verification/SortProps.v ===== *)
(** * The theorems about sorting and searching *)

From Stdlib Require Import Sorting.Sorted.
From S2P Require Import Prelude Loops Arrays Sort.

(** ** Exchanges and order *)

(** [a] with two elements exchanged. *)
Definition swapped (a : list Z) (i j : Z) : list Z := upd (upd a i (at_ a j)) j (at_ a i).

Lemma wp_swap i j (Q : unit → list Z → Prop) a :
  0 ≤ i < len a → 0 ≤ j < len a → Q tt (swapped a i j) → wp (swap i j) Q a.
Proof.
  intros Hi Hj HQ. unfold swap. apply wp_bind, wp_ld; [done|]. apply wp_bind, wp_ld; [done|].
  apply wp_bind, wp_st; [done|]. apply wp_st; [by rewrite length_upd|]. exact HQ.
Qed.

Lemma length_swapped a i j : length (swapped a i j) = length a.
Proof. unfold swapped. by rewrite !length_upd. Qed.

Lemma at_swapped a i j k :
  0 ≤ i < len a → 0 ≤ j < len a → 0 ≤ k →
  at_ (swapped a i j) k = if k =? j then at_ a i else if k =? i then at_ a j else at_ a k.
Proof. intros. unfold swapped. rewrite !at_upd by (rewrite ?length_upd; lia). done. Qed.

Lemma swapped_perm a i j : 0 ≤ i < len a → 0 ≤ j < len a → swapped a i j ≡ₚ a.
Proof.
  intros Hi Hj. pose proof (upd_perm a i (at_ a j) Hi) as P1.
  pose proof (upd_perm (upd a i (at_ a j)) j (at_ a i) ltac:(rewrite length_upd; lia)) as P2.
  fold (swapped a i j) in P2. rewrite at_upd in P2 by lia.
  assert ((if j =? i then at_ a j else at_ a j) = at_ a j) as E by (by destruct (j =? i)).
  rewrite E in P2. rewrite P1 in P2. by apply (Permutation_cons_inv (a := at_ a j)).
Qed.

(** Sorted between two indices. *)
Definition sorted_on (a : list Z) (lo hi : Z) : Prop := ∀ i j, lo ≤ i → i < j → j < hi → at_ a i ≤ at_ a j.

Lemma sorted_all a : sorted_on a 0 (len a) → StronglySorted Z.le a.
Proof.
  induction a as [|x a IH]; intros Hs; [constructor|]. constructor.
  - apply IH. intros i j Hi Hij Hj. specialize (Hs (i + 1) (j + 1) ltac:(lia) ltac:(lia) ltac:(simpl length; lia)).
    unfold at_ in *. by rewrite !Z2Nat.inj_add, !Nat.add_1_r in Hs by lia.
  - apply Forall_lookup. intros k y Hk. pose proof (lookup_lt_Some _ _ _ Hk) as Hlt.
    specialize (Hs 0 (Z.of_nat (S k)) ltac:(lia) ltac:(lia) ltac:(simpl length; lia)). unfold at_ in Hs.
    rewrite Nat2Z.id, (list_lookup_total_correct (x :: a) (S k) y Hk) in Hs. exact Hs.
Qed.

Lemma all_sorted a : StronglySorted Z.le a → sorted_on a 0 (len a).
Proof.
  intros Hs i j Hi Hij Hj. pose proof (lookup_at a i ltac:(lia)) as Ei.
  pose proof (lookup_at a j ltac:(lia)) as Ej. revert Ei Ej.
  assert (Z.to_nat i < Z.to_nat j)%nat as Hlt by lia. revert Hlt. clear -Hs.
  generalize (at_ a i) (at_ a j) (Z.to_nat i) (Z.to_nat j). intros x y k m. revert k m.
  induction Hs as [|z a Hs IH Hz]; intros k m Hlt Ek Em; [done|].
  destruct m as [|m]; [lia|]. destruct k as [|k]; [|by apply (IH k m); [lia|..]].
  simplify_eq/=. by apply (Forall_lookup_1 _ _ _ _ Hz Em).
Qed.

(** [a'] is a sorted version of [a]. *)
Definition sorts (a a' : list Z) : Prop := a' ≡ₚ a ∧ StronglySorted Z.le a'.

(** ** Rearranging a range *)

(** [a'] is [a] with its elements between [lo] and [hi] in some other order. *)
Record rearr (lo hi : Z) (a a' : list Z) : Prop := {
  ra_len : length a' = length a;
  ra_perm : a' ≡ₚ a;
  ra_out : ∀ i, 0 ≤ i → i < lo ∨ hi ≤ i → at_ a' i = at_ a i;
  ra_in : ∀ i, lo ≤ i < hi → ∃ j, lo ≤ j < hi ∧ at_ a' i = at_ a j;
}.

Lemma rearr_refl lo hi a : rearr lo hi a a.
Proof. split; eauto. Qed.

Lemma rearr_trans lo hi a b c : rearr lo hi a b → rearr lo hi b c → rearr lo hi a c.
Proof.
  intros [] []. split; [congruence|by etrans| |].
  - intros i Hi Ho. by rewrite ra_out1, ra_out0.
  - intros i Hi. destruct (ra_in1 i Hi) as (j & Hj & ->). by apply ra_in0.
Qed.

Lemma rearr_mono lo hi lo' hi' a b : 0 ≤ lo' → lo' ≤ lo → hi ≤ hi' → rearr lo hi a b → rearr lo' hi' a b.
Proof.
  intros H0 Hl Hh []. split; [done|done| |].
  - intros i Hi Ho. apply ra_out0; lia.
  - intros i Hi. destruct (decide (lo ≤ i < hi)) as [Hin|Hout].
    + destruct (ra_in0 i Hin) as (j & Hj & ->). exists j. lia.
    + exists i. split; [done|]. apply ra_out0; lia.
Qed.

Lemma rearr_swapped lo hi a i j :
  0 ≤ lo → hi ≤ len a → lo ≤ i < hi → lo ≤ j < hi → rearr lo hi a (swapped a i j).
Proof.
  intros H0 Hh Hi Hj. split.
  - apply length_swapped.
  - apply swapped_perm; lia.
  - intros k Hk Ho. rewrite at_swapped by lia. bcase; lia || done.
  - intros k Hk. rewrite at_swapped by lia. bcase; eauto.
Qed.

(** A property of all the elements of a range is kept. *)
Lemma rearr_Forall lo hi a a' (P : Z → Prop) lo' hi' :
  rearr lo hi a a' → lo' ≤ lo → hi ≤ hi' → 0 ≤ lo' →
  (∀ i, lo' ≤ i < hi' → P (at_ a i)) → ∀ i, lo' ≤ i < hi' → P (at_ a' i).
Proof.
  intros Hr Hl Hh H0 Ha i Hi. apply (rearr_mono _ _ lo' hi') in Hr; [|lia..].
  destruct (ra_in _ _ _ _ Hr i Hi) as (j & Hj & ->). by apply Ha.
Qed.

(** A range that is rearranged keeps its elements. *)
Lemma slice_rearr lo hi a a' : rearr lo hi a a' → 0 ≤ lo ≤ hi → hi ≤ len a → slice a' lo hi ≡ₚ slice a lo hi.
Proof.
  intros [Hl Hp Ho _] Hlo Hhi. rewrite <- (slice_all a), <- (slice_all a'), Hl in Hp.
  rewrite !(slice_app _ 0 lo (len a)), !(slice_app _ lo hi (len a)) in Hp by lia.
  rewrite (slice_ext a a' 0 lo), (slice_ext a a' hi (len a)) in Hp by (intros; apply Ho; lia).
  by apply Permutation_app_inv_l, Permutation_app_inv_r in Hp.
Qed.

Lemma sorted_on_frame a a' lo hi :
  sorted_on a lo hi → (∀ i, lo ≤ i < hi → at_ a' i = at_ a i) → sorted_on a' lo hi.
Proof. intros Hs He i j Hi Hij Hj. rewrite !He by lia. by apply Hs. Qed.

(** Two sorted ranges with the elements of the first below those of the second. *)
Lemma sorted_on_app a lo mid hi :
  sorted_on a lo mid → sorted_on a mid hi →
  (∀ i j, lo ≤ i < mid → mid ≤ j < hi → at_ a i ≤ at_ a j) → sorted_on a lo hi.
Proof.
  intros H1 H2 H i j Hi Hij Hj. destruct (decide (j < mid)); [by apply H1|].
  destruct (decide (i < mid)); [apply H; lia|apply H2; lia].
Qed.

Lemma sorts_all a a' : length a' = length a → a' ≡ₚ a → sorted_on a' 0 (len a) → sorts a a'.
Proof. intros Hl Hp Hs. split; [done|]. apply sorted_all. by rewrite Hl. Qed.

(** ** Quicksort *)

Lemma partition_loop_ok l h p n : ∀ i ei a,
  0 ≤ l → l - 1 ≤ ei < i → i + Z.of_nat n = h → h < len a →
  (∀ k, l ≤ k ≤ ei → at_ a k ≤ p) → (∀ k, ei < k < i → p < at_ a k) →
  wp (partition_loop n i ei p) (λ e a', rearr l h a a' ∧ l - 1 ≤ e < h ∧
    (∀ k, l ≤ k ≤ e → at_ a' k ≤ p) ∧ (∀ k, e < k < h → p < at_ a' k)) a.
Proof.
  induction n as [|n IH]; intros i ei a H0 Hei Hn Hh Hlo Hhi; cbn [partition_loop].
  - apply wp_ret. split; [apply rearr_refl|]. split; [lia|]. split; [done|]. intros k Hk. apply Hhi. lia.
  - apply wp_bind, wp_ld; [lia|]. destruct (Z.leb_spec (at_ a i) p) as [Hle|Hgt].
    + apply wp_bind, wp_swap; [lia..|].
      eapply wp_mono; [apply (IH (i + 1) (ei + 1)); rewrite ?length_swapped; try lia|].
      * intros k Hk. rewrite at_swapped by lia. bcase; [by replace (ei + 1) with i by lia|apply Hlo; lia].
      * intros k Hk. rewrite at_swapped by lia. bcase; apply Hhi; lia.
      * intros e a' (Hr & He). split; [|done]. eapply rearr_trans; [|exact Hr]. apply rearr_swapped; lia.
    + eapply wp_mono; [apply (IH (i + 1) ei); try lia; try done|done].
      intros k Hk. destruct (decide (k = i)) as [->|]; [done|]. apply Hhi. lia.
Qed.

Lemma partition_ok l h a :
  0 ≤ l ≤ h → h < len a →
  wp (partition l h) (λ pi a', rearr l (h + 1) a a' ∧ l ≤ pi ≤ h ∧
    (∀ k, l ≤ k < pi → at_ a' k ≤ at_ a' pi) ∧ (∀ k, pi < k < h + 1 → at_ a' pi < at_ a' k)) a.
Proof.
  intros H0 Hh. unfold partition. apply wp_bind, wp_ld; [lia|].
  eapply wp_bind_mono; [apply (partition_loop_ok l h); lia|].
  cbv beta. intros e a1 (Hr & He & Hlo & Hhi). pose proof (ra_len _ _ _ _ Hr) as Hl.
  pose proof (ra_out _ _ _ _ Hr h ltac:(lia) ltac:(lia)) as Hp.
  apply wp_bind, wp_swap; [lia..|]. apply wp_ret.
  split; [eapply rearr_trans; [eapply rearr_mono, Hr; lia|apply rearr_swapped; lia]|].
  assert (at_ (swapped a1 (e + 1) h) (e + 1) = at_ a h) as ->.
  { rewrite at_swapped by lia. bcase; by replace (e + 1) with h by lia. }
  split; [lia|]. split; intros k Hk; rewrite at_swapped by lia; bcase; (apply Hlo; lia) || (apply Hhi; lia).
Qed.

Lemma quick_sort_ok fuel : ∀ l h a,
  0 ≤ l → h < len a → h - l ≤ Z.of_nat fuel →
  wp (quick_sort_ fuel l h) (λ _ a', rearr l (h + 1) a a' ∧ sorted_on a' l (h + 1)) a.
Proof.
  induction fuel as [|fuel IH]; intros l h a H0 Hh Hf; cbn [quick_sort_];
    (destruct (Z.ltb_spec l h) as [Hlt|Hge]; cbn [negb];
      [|apply wp_ret; split; [apply rearr_refl|intros i j ???; lia]]); [lia|].
  eapply wp_bind_mono; [apply partition_ok; lia|]. cbv beta. intros p a1 (R1 & Hp & Hlo & Hhi).
  pose proof (ra_len _ _ _ _ R1) as L1.
  eapply wp_bind_mono; [apply (IH l (p - 1)); lia|]. cbv beta. intros _ a2 [R2 S2].
  pose proof (ra_len _ _ _ _ R2) as L2. replace (p - 1 + 1) with p in * by lia.
  eapply wp_mono; [apply (IH (p + 1) h); lia|]. cbv beta. intros _ a3 [R3 S3].
  assert (at_ a3 p = at_ a1 p) as Ep.
  { rewrite (ra_out _ _ _ _ R3), (ra_out _ _ _ _ R2) by lia. done. }
  split.
  { eapply rearr_trans; [exact R1|]. eapply rearr_trans; eapply rearr_mono; [| | |exact R2| | | |exact R3]; lia. }
  assert (∀ k, l ≤ k < p → at_ a3 k ≤ at_ a3 p) as Below.
  { intros k Hk. rewrite Ep, (ra_out _ _ _ _ R3) by lia.
    apply (rearr_Forall _ _ _ _ (λ v, v ≤ at_ a1 p) l p R2); try lia. done. }
  assert (∀ k, p + 1 ≤ k < h + 1 → at_ a3 p < at_ a3 k) as Above.
  { intros k Hk. rewrite Ep.
    apply (rearr_Forall _ _ _ _ (λ v, at_ a1 p < v) (p + 1) (h + 1) R3); try lia.
    intros i Hi. rewrite (ra_out _ _ _ _ R2) by lia. apply Hhi. lia. }
  apply (sorted_on_app _ _ p).
  - apply (sorted_on_frame a2); [done|]. intros i Hi. apply (ra_out _ _ _ _ R3); lia.
  - apply (sorted_on_app _ _ (p + 1)); [intros i j ???; lia|done|].
    intros i j Hi Hj. assert (i = p) as -> by lia. specialize (Above j ltac:(lia)). lia.
  - intros i j Hi Hj. specialize (Below i ltac:(lia)).
    destruct (decide (j = p)) as [->|]; [done|]. specialize (Above j ltac:(lia)). lia.
Qed.

(** Sizes that an [int] can count. *)
Abbreviation int_size a := (len a < 2 ^ 31).

(** [quick_sort] ends on every array an [int] can index and leaves its elements in ascending
    order. *)
Lemma quick_sort_correct a :
  int_size a → wp (quick_sort (len a)) (λ _ a', sorts a a') a.
Proof.
  intros Hn. unfold quick_sort.
  assert (s32 (len a - 1) = len a - 1) as -> by (apply swrap_small; lia).
  eapply wp_mono; [apply quick_sort_ok; lia|]. cbv beta. intros _ a' [R S].
  replace (len a - 1 + 1) with (len a) in S by lia. by apply sorts_all; destruct R.
Qed.

(** ** Selection sort *)

Lemma min_from_ok low high n : ∀ i ret a,
  0 ≤ low → low ≤ ret < high → low ≤ i → i + Z.of_nat n = high → high ≤ len a →
  (∀ k, low ≤ k < i → at_ a ret ≤ at_ a k) →
  wp (min_from n i ret (at_ a ret)) (λ m a', a' = a ∧ low ≤ m < high ∧
    ∀ k, low ≤ k < high → at_ a m ≤ at_ a k) a.
Proof.
  induction n as [|n IH]; intros i ret a H0 Hr Hi Hn Hh Hm; cbn [min_from].
  - apply wp_ret. split; [done|]. split; [done|]. intros k Hk. apply Hm. lia.
  - apply wp_bind, wp_ld; [lia|].
    destruct (Z.ltb_spec (at_ a i) (at_ a ret)) as [Hlt|Hge]; apply IH; try lia; intros k Hk;
      (destruct (decide (k = i)) as [->|]; [lia|]); specialize (Hm k ltac:(lia)); lia.
Qed.

Lemma min_index_ok low high a :
  0 ≤ low < high → high ≤ len a →
  wp (min_index low high) (λ m a', a' = a ∧ low ≤ m < high ∧
    ∀ k, low ≤ k < high → at_ a m ≤ at_ a k) a.
Proof. intros. unfold min_index. apply wp_bind, wp_ld; [lia|]. apply min_from_ok; lia. Qed.

(** [selection_sort] leaves the elements of every array in ascending order. *)
Lemma selection_sort_correct a : wp (selection_sort (len a)) (λ _ a', sorts a a') a.
Proof.
  unfold selection_sort.
  eapply wp_mono; [apply (wp_for_up _ 0 _ (λ i a', length a' = length a ∧ a' ≡ₚ a ∧
    sorted_on a' 0 i ∧ ∀ k j, 0 ≤ k < i → i ≤ j < len a → at_ a' k ≤ at_ a' j))|].
  - split; [done|]. split; [done|]. split; intros i j; lia.
  - intros i b Hi (Hl & Hp & Hs & Hb).
    eapply wp_bind_mono; [apply min_index_ok; lia|]. cbv beta. intros m ? (-> & Hm & Hmin).
    apply wp_swap; [lia..|]. split; [by rewrite length_swapped|].
    split; [rewrite swapped_perm by lia; done|].
    assert (∀ k j, 0 ≤ k < i + 1 → k < j < len a → at_ (swapped b i m) k ≤ at_ (swapped b i m) j) as Hall.
    { intros k j Hk Hj. rewrite !at_swapped by lia. destruct (decide (k = i)) as [->|].
      - rewrite Z.eqb_refl. assert ((if i =? m then at_ b i else at_ b m) = at_ b m) as ->
          by (bcase; congruence). bcase; apply Hmin; lia.
      - destruct (decide (j < i)); [bcase; apply Hs; lia|bcase; apply Hb; lia]. }
    split; [intros k j ???|intros k j ??]; apply Hall; lia.
  - cbv beta. intros _ a' (Hl & Hp & Hs & _). apply sorts_all; [done|done|].
    by replace (0 + Z.of_nat (Z.to_nat (len a))) with (len a) in Hs by lia.
Qed.

(** ** Bubble sort *)

Lemma bubble_step_ok n j a b :
  0 ≤ j → j + 1 < n → n ≤ len a → rearr 0 n a b → (∀ k, 0 ≤ k < j → at_ b k ≤ at_ b j) →
  wp (bubble_step j) (λ _ b', rearr 0 n a b' ∧ ∀ k, 0 ≤ k < j + 1 → at_ b' k ≤ at_ b' (j + 1)) b.
Proof.
  intros H0 Hj Hn Hr Hm. pose proof (ra_len _ _ _ _ Hr) as Hl. unfold bubble_step.
  apply wp_bind, wp_ld; [lia|]. apply wp_bind, wp_ld; [lia|].
  destruct (Z.ltb_spec (at_ b (j + 1)) (at_ b j)) as [Hlt|Hge]; cbn [when].
  - apply wp_swap; [lia..|]. split; [eapply rearr_trans; [exact Hr|apply rearr_swapped; lia]|].
    intros k Hk. rewrite !at_swapped by lia. bcase; apply Hm; lia.
  - apply wp_ret. split; [done|]. intros k Hk.
    destruct (decide (k = j)) as [->|]; [done|]. specialize (Hm k ltac:(lia)). lia.
Qed.

(** [bubble_sort] leaves the elements of every non-empty array in ascending order. *)
Lemma bubble_sort_correct a :
  1 ≤ len a < 2 ^ 31 → wp (bubble_sort (len a)) (λ _ a', sorts a a') a.
Proof.
  intros Hn. unfold bubble_sort. rewrite wrap_small by lia.
  eapply wp_mono; [apply (wp_for_up _ 0 _ (λ i a', length a' = length a ∧ a' ≡ₚ a ∧
    sorted_on a' (len a - i) (len a) ∧
    ∀ k j, 0 ≤ k < len a - i → len a - i ≤ j < len a → at_ a' k ≤ at_ a' j))|].
  - split; [done|]. split; [done|]. split; intros i j; lia.
  - intros i b Hi (Hl & Hp & Hs & Hb). rewrite wrap_small by lia.
    eapply wp_mono; [apply (wp_for_up _ 0 _ (λ j b', rearr 0 (len a - i) b b' ∧
      ∀ k, 0 ≤ k < j → at_ b' k ≤ at_ b' j))|].
    + split; [apply rearr_refl|lia].
    + intros j b' Hj [Hr Hm]. apply bubble_step_ok; try lia; done.
    + cbv beta. intros _ b' [Hr Hm].
      replace (0 + Z.of_nat (Z.to_nat (len a - (i + 1)))) with (len a - (i + 1)) in Hm by lia.
      assert (∀ k j, 0 ≤ k < len a - i → len a - i ≤ j < len a → at_ b' k ≤ at_ b' j) as Hb'.
      { intros k j Hk Hj. rewrite (ra_out _ _ _ _ Hr j) by lia.
        apply (rearr_Forall _ _ _ _ (λ v, v ≤ at_ b j) 0 (len a - i) Hr); try lia.
        intros k' Hk'. by apply Hb. }
      split; [rewrite (ra_len _ _ _ _ Hr); done|]. split; [rewrite (ra_perm _ _ _ _ Hr); done|]. split.
      * apply (sorted_on_app _ _ (len a - i)); [intros ?????; lia| |intros k j ??; apply Hb'; lia].
        apply (sorted_on_frame b); [done|]. intros k Hk. apply (ra_out _ _ _ _ Hr); lia.
      * intros k j Hk Hj. destruct (decide (j = len a - (i + 1))) as [->|]; [apply Hm; lia|apply Hb'; lia].
  - cbv beta. intros _ a' (Hl & Hp & Hs & Hb). apply sorts_all; [done|done|].
    replace (len a - (0 + Z.of_nat (Z.to_nat (len a - 1)))) with 1 in * by lia.
    apply (sorted_on_app _ _ 1); [intros i j ???; lia|done|done].
Qed.

Lemma for_up_first {St} n i (body : Z → M St unit) s :
  (0 < n)%nat → for_up n i body s = (body i ;; for_up (pred n) (i + 1) body) s.
Proof. destruct n; [lia|done]. Qed.

(** On an empty array [size - 1] wraps around, and [bubble_sort] reads [arr[0]]. *)
Theorem bubble_sort_empty : bubble_sort 0 [] = Fault 0.
Proof.
  unfold bubble_sort. assert (0 < u64 (0 - 1)) as Hw by done.
  rewrite for_up_first by lia. unfold mbind, M_bind. change (0 - (0 + 1)) with (0 - 1).
  rewrite for_up_first by lia. done.
Qed.

(** ** Insertion sort *)

Lemma shift_perm a j key :
  0 ≤ j → j + 1 < len a → upd (upd a (j + 1) (at_ a j)) j key ≡ₚ upd a (j + 1) key.
Proof.
  intros Hj Hl.
  pose proof (upd_perm a (j + 1) (at_ a j) ltac:(lia)) as P1.
  pose proof (upd_perm a (j + 1) key ltac:(lia)) as P2.
  pose proof (upd_perm (upd a (j + 1) (at_ a j)) j key ltac:(rewrite length_upd; lia)) as P3.
  rewrite at_upd in P3 by lia. rewrite (proj2 (Z.eqb_neq j (j + 1))) in P3 by lia.
  apply (Permutation_app_inv_l [at_ a j; at_ a (j + 1)]). cbn [app].
  rewrite P2. etrans; [apply perm_swap|]. rewrite P3. etrans; [apply perm_swap|]. rewrite P1.
  apply perm_swap.
Qed.

Lemma shift_up_ok key fuel : ∀ j a,
  -1 ≤ j → j + 1 < len a → j < Z.of_nat fuel →
  wp (shift_up fuel j key) (λ j' a',
    length a' = length a ∧ -1 ≤ j' ≤ j ∧ upd a' (j' + 1) key ≡ₚ upd a (j + 1) key ∧
    (∀ k, 0 ≤ k → k ≤ j' ∨ j + 1 < k → at_ a' k = at_ a k) ∧
    (∀ k, j' + 1 < k ≤ j + 1 → at_ a' k = at_ a (k - 1) ∧ key < at_ a (k - 1)) ∧
    (0 ≤ j' → at_ a j' ≤ key)) a.
Proof.
  induction fuel as [|fuel IH]; intros j a Hj Hl Hf; cbn [shift_up];
    (destruct (Z.ltb_spec j 0); [apply wp_ret; repeat split; intros; lia || done|]); [lia|].
  apply wp_bind, wp_ld; [lia|]. destruct (Z.ltb_spec key (at_ a j)) as [Hlt|Hge]; cbn [negb].
  2: { apply wp_ret; repeat split; intros; lia || done. }
  apply wp_bind, wp_st; [lia|].
  eapply wp_mono; [apply IH; rewrite ?length_upd; lia|]. cbv beta.
  intros j' a' (Hl' & Hj' & Hp & Hsame & Hup & Hle). rewrite length_upd in Hl'.
  replace (j - 1 + 1) with j in * by lia.
  split; [done|]. split; [lia|]. split; [rewrite Hp; by apply shift_perm|]. split; [|split].
  - intros k Hk Ho. rewrite Hsame, at_upd by lia. by bcase.
  - intros k Hk. destruct (decide (k = j + 1)) as [->|].
    + rewrite Hsame, at_upd by lia. bcase. replace (j + 1 - 1) with j by lia. done.
    + destruct (Hup k ltac:(lia)) as [E1 E2]. rewrite at_upd in E1, E2 by lia.
      rewrite (proj2 (Z.eqb_neq (k - 1) (j + 1))) in E1, E2 by lia. done.
  - intros H0. specialize (Hle H0). rewrite at_upd in Hle by lia.
    by rewrite (proj2 (Z.eqb_neq j' (j + 1))) in Hle by lia.
Qed.

(** One round of the loop. *)
Lemma insert_round i a :
  0 < i < len a → sorted_on a 0 i →
  wp (key ← ld i; j ← shift_up (Z.to_nat i) (i - 1) key; st (j + 1) key)
    (λ _ a', length a' = length a ∧ a' ≡ₚ a ∧ sorted_on a' 0 (i + 1)) a.
Proof.
  intros Hi Hs. apply wp_bind, wp_ld; [lia|].
  eapply wp_bind_mono; [apply shift_up_ok; lia|]. cbv beta.
  intros j b (Hl & Hj & Hp & Hsame & Hup & Hle). replace (i - 1 + 1) with i in * by lia.
  apply wp_st; [lia|]. split; [by rewrite length_upd|]. split.
  { rewrite Hp. apply (Permutation_cons_inv (a := at_ a i)). apply upd_perm. lia. }
  assert (∀ k, 0 ≤ k ≤ i → at_ (upd b (j + 1) (at_ a i)) k =
    if k =? j + 1 then at_ a i else if k <=? j then at_ a k else at_ a (k - 1)) as E.
  { intros k Hk. rewrite at_upd by lia. bcase; (apply Hsame; lia) || (apply Hup; lia). }
  intros x y Hx Hxy Hy. rewrite !E by lia.
  assert (∀ k, 0 ≤ k ≤ j → at_ a k ≤ at_ a i) as Hlow.
  { intros k Hk. specialize (Hle ltac:(lia)). destruct (decide (k = j)) as [->|]; [done|].
    specialize (Hs k j ltac:(lia) ltac:(lia) ltac:(lia)). lia. }
  bcase; try (apply Hlow; lia); try (apply Hs; lia). specialize (Hup y ltac:(lia)). lia.
Qed.

(** [insertion_sort] leaves the elements of every array in ascending order. *)
Lemma insertion_sort_correct a : wp (insertion_sort (len a)) (λ _ a', sorts a a') a.
Proof.
  unfold insertion_sort.
  eapply wp_mono; [apply (wp_for_up _ 1 _ (λ i a', length a' = length a ∧ a' ≡ₚ a ∧ sorted_on a' 0 i))|].
  - split; [done|]. split; [done|]. intros i j; lia.
  - intros i b Hi (Hl & Hp & Hs). eapply wp_mono; [apply insert_round; [lia|done]|].
    cbv beta. intros _ b' (Hl' & Hp' & Hs'). split; [congruence|]. split; [by etrans|done].
  - cbv beta. intros _ a' (Hl & Hp & Hs). apply sorts_all; [done|done|].
    intros i j Hi Hij Hj. apply Hs; lia.
Qed.

(** ** Searching *)

(** [linear_search] returns the first index that holds the element, or [-1] when none does. *)
Lemma linear_search_correct a elem :
  wp (linear_search (len a) elem) (λ r a', a' = a ∧
    ((0 ≤ r < len a ∧ at_ a r = elem ∧ ∀ k, 0 ≤ k < r → at_ a k ≠ elem) ∨
     (r = -1 ∧ ∀ k, 0 ≤ k < len a → at_ a k ≠ elem))) a.
Proof.
  unfold linear_search. eapply wp_bind_mono.
  - apply (wp_for_find _ 0 _ (λ i b, b = a ∧ ∀ k, 0 ≤ k < i → at_ a k ≠ elem)
      (λ i b, b = a ∧ 0 ≤ i < len a ∧ at_ a i = elem ∧ ∀ k, 0 ≤ k < i → at_ a k ≠ elem)).
    + split; [done|lia].
    + intros i b Hi [-> Hk]. apply wp_bind, wp_ld; [lia|]. apply wp_ret.
      destruct (Z.eqb_spec (at_ a i) elem) as [E|E]; (split; [done|]); [split; [lia|done]|].
      intros k Hk'. destruct (decide (k = i)) as [->|]; [done|]. apply Hk. lia.
  - cbv beta. intros [r|] b Hb; apply wp_ret; cbn [default]; [tauto|].
    destruct Hb as [-> Hk]. split; [done|]. right. split; [done|]. intros k Hk'. apply Hk. lia.
Qed.

Lemma mid_between low high : 0 ≤ low < high → high < 2 ^ 30 →
  low ≤ Z.quot (s32 (low + high)) 2 < high ∧ (low + 1 < high → low < Z.quot (s32 (low + high)) 2).
Proof.
  intros ??. rewrite swrap_small, Z.quot_div_nonneg by lia.
  pose proof (Z.div_mod (low + high) 2). pose proof (Z.mod_pos_bound (low + high) 2). lia.
Qed.

Lemma binary_loop_ok a elem p fuel : ∀ low high,
  StronglySorted Z.le a → at_ a p = elem → 0 ≤ low ≤ p → p < high → high ≤ len a → high < 2 ^ 30 →
  high - low ≤ Z.of_nat fuel →
  wp (binary_loop fuel low high elem) (λ r a', a' = a ∧ 0 ≤ r < len a ∧ at_ a r = elem) a.
Proof.
  induction fuel as [|fuel IH]; intros low high Hs Hp Hl Hh Hn Hb Hf; cbn [binary_loop];
    rewrite (proj2 (Z.ltb_lt low high)) by lia; cbn [negb]; [lia|].
  destruct (mid_between low high) as [Hm Hm']; [lia..|]. set (mid := Z.quot _ _) in *.
  apply wp_bind, wp_ld; [lia|]. destruct (Z.eqb_spec (at_ a mid) elem) as [E|E].
  { apply wp_ret. split; [done|]. split; [lia|done]. }
  assert (∀ i j, 0 ≤ i < j → j < len a → at_ a i ≤ at_ a j) as Hle.
  { intros i j Hi Hj. apply all_sorted; [done|lia..]. }
  destruct (Z.ltb_spec (at_ a mid) elem) as [Hlt|Hge]; apply IH; try done; try lia.
  - destruct (decide (p < mid)) as [Hpm|]; [specialize (Hle p mid); lia|lia].
  - destruct (decide (p = mid)) as [->|]; [lia|]. lia.
  - destruct (decide (mid < p)) as [Hpm|]; [specialize (Hle mid p); lia|].
    destruct (decide (p = mid)) as [->|]; lia.
Qed.

Lemma binary_loop_stuck a elem fuel : ∀ low high,
  elem ∉ a → 0 ≤ low < high → high ≤ len a → high < 2 ^ 30 → at_ a low < elem →
  binary_loop fuel low high elem a = OutOfFuel.
Proof.
  induction fuel as [|fuel IH]; intros low high Hne Hl Hn Hb Hlow; cbn [binary_loop];
    rewrite (proj2 (Z.ltb_lt low high)) by lia; cbn [negb]; [done|].
  destruct (mid_between low high) as [Hm _]; [lia..|]. set (mid := Z.quot _ _) in *.
  unfold mbind, M_bind, ld. rewrite (proj2 (Z.ltb_ge mid 0)), lookup_at by lia.
  destruct (Z.eqb_spec (at_ a mid) elem) as [E|E].
  { exfalso. apply Hne. rewrite <- E. apply (list_elem_of_lookup_2 _ (Z.to_nat mid)), lookup_at. lia. }
  destruct (Z.ltb_spec (at_ a mid) elem) as [Hlt|Hge]; apply IH; try done; try lia.
  destruct (decide (mid = low)) as [E'|]; [rewrite E' in *; lia|lia].
Qed.

Lemma binary_loop_below a elem fuel : ∀ high,
  (∀ k, 0 ≤ k < len a → elem < at_ a k) → 0 ≤ high ≤ len a → high < 2 ^ 30 → high ≤ Z.of_nat fuel →
  wp (binary_loop fuel 0 high elem) (λ r a', a' = a ∧ r = -1) a.
Proof.
  induction fuel as [|fuel IH]; intros high Hlt Hh Hb Hf; cbn [binary_loop];
    (destruct (Z.ltb_spec 0 high); cbn [negb]; [|by apply wp_ret]); [lia|].
  destruct (mid_between 0 high) as [Hm _]; [lia..|]. set (mid := Z.quot _ _) in *.
  apply wp_bind, wp_ld; [lia|]. specialize (Hlt mid ltac:(lia)) as Hmid. bcase. apply IH; try done; lia.
Qed.

(** [binary_search] on a sorted array.  An element of the array is found within [len a] rounds.
    When the first element is already above the one searched for, the result is [-1].  In the
    remaining case, an absent element above the first one, the loop never ends: no number of rounds
    is enough. *)
Theorem binary_search_correct a elem :
  StronglySorted Z.le a → 0 < len a < 2 ^ 30 →
  (elem ∈ a → wp (binary_search (length a) (len a) elem)
     (λ r a', a' = a ∧ 0 ≤ r < len a ∧ at_ a r = elem) a) ∧
  (elem < at_ a 0 → wp (binary_search (length a) (len a) elem) (λ r a', a' = a ∧ r = -1) a) ∧
  (elem ∉ a → at_ a 0 < elem → ∀ fuel, binary_search fuel (len a) elem a = OutOfFuel).
Proof.
  intros Hs Hn. pose proof (all_sorted a Hs) as Hso. split; [|split].
  - intros [p Hp]%list_elem_of_lookup. pose proof (lookup_lt_Some _ _ _ Hp).
    apply (binary_loop_ok a elem (Z.of_nat p)); try lia; [done|].
    unfold at_. rewrite Nat2Z.id. by apply list_lookup_total_correct.
  - intros Hlt. apply binary_loop_below; try lia. intros k Hk.
    destruct (decide (k = 0)) as [->|]; [done|]. specialize (Hso 0 k). lia.
  - intros Hne Hlt fuel. apply binary_loop_stuck; try done; lia.
Qed.

Lemma binary_search_correct_witness :
  wp (binary_search 4 4 20) (λ r a', a' = [3; 8; 20; 25] ∧ 0 ≤ r < 4 ∧ at_ [3; 8; 20; 25] r = 20) [3; 8; 20; 25] ∧
  binary_search 1000 4 9 [3; 8; 20; 25] = OutOfFuel.
Proof.
  assert (StronglySorted Z.le [3; 8; 20; 25]) as Hs by (repeat constructor; lia).
  assert (0 < len [3; 8; 20; 25] < 2 ^ 30) as Hn by (cbn; lia). split.
  - destruct (binary_search_correct [3; 8; 20; 25] 20 Hs Hn) as (H & _). apply H. by_decide.
  - destruct (binary_search_correct [3; 8; 20; 25] 9 Hs Hn) as (_ & _ & H). refine (H _ _ 1000%nat); [by_decide|by vm_compute].
Defined.
