(* ===== verification/MergeProps.v ===== *)
(** * The theorems about merge sort *)

From Stdlib Require Import Sorting.Sorted.
From stdpp Require Import sorting.
From S2P Require Import Prelude Loops Arrays Sort SortProps.

(** ** The three arrays *)

Lemma wp_on_arr {A} (m : M (list Z) A) Q s :
  wp m (λ x a, Q x (MBufs a (mb_left s) (mb_right s))) (mb_arr s) → wp (on_arr m) Q s.
Proof. unfold wp, on_arr. by destruct (m (mb_arr s)) as [[]| | | |]. Qed.

Lemma wp_on_left {A} (m : M (list Z) A) Q s :
  wp m (λ x a, Q x (MBufs (mb_arr s) a (mb_right s))) (mb_left s) → wp (on_left m) Q s.
Proof. unfold wp, on_left. by destruct (m (mb_left s)) as [[]| | | |]. Qed.

Lemma wp_on_right {A} (m : M (list Z) A) Q s :
  wp m (λ x a, Q x (MBufs (mb_arr s) (mb_left s) a)) (mb_right s) → wp (on_right m) Q s.
Proof. unfold wp, on_right. by destruct (m (mb_right s)) as [[]| | | |]. Qed.

(** ** Slices *)

Lemma rearr_slice lo hi a a' :
  0 ≤ lo ≤ hi → hi ≤ len a → length a' = length a →
  (∀ i, 0 ≤ i → i < lo ∨ hi ≤ i → at_ a' i = at_ a i) →
  slice a' lo hi ≡ₚ slice a lo hi → rearr lo hi a a'.
Proof.
  intros Hlo Hhi Hl Ho Hp. split; [done| |done|].
  - rewrite <- (slice_all a'), <- (slice_all a), Hl.
    rewrite (slice_app a' 0 lo), (slice_app a' lo hi), (slice_app a 0 lo), (slice_app a lo hi), Hp by lia.
    by rewrite (slice_ext a a' 0 lo), (slice_ext a a' hi) by (intros; apply Ho; lia).
  - intros i Hi. assert (at_ a' i ∈ slice a' lo hi) as Hin by (apply elem_of_slice; eauto).
    rewrite Hp in Hin. by apply elem_of_slice in Hin.
Qed.

(** ** Merging *)

Section merge.
Context (arr0 L R : list Z) (l n1 n2 : Z).
Hypotheses (Hl : 0 ≤ l) (Hn1 : 0 ≤ n1 ≤ len L) (Hn2 : 0 ≤ n2 ≤ len R) (Hfit : l + n1 + n2 ≤ len arr0).
Hypotheses (SL : sorted_on L 0 n1) (SR : sorted_on R 0 n2).

(** [a] elements of the left half and [b] of the right one are written back. *)
Record merged (arr : list Z) (a b : Z) : Prop := {
  mg_len : length arr = length arr0;
  mg_a : 0 ≤ a ≤ n1;
  mg_b : 0 ≤ b ≤ n2;
  mg_out : ∀ i, 0 ≤ i → i < l ∨ l + a + b ≤ i → at_ arr i = at_ arr0 i;
  mg_perm : slice arr l (l + a + b) ≡ₚ slice L 0 a ++ slice R 0 b;
  mg_sorted : sorted_on arr l (l + a + b);
  mg_left : ∀ i k, l ≤ i < l + a + b → a ≤ k < n1 → at_ arr i ≤ at_ L k;
  mg_right : ∀ i k, l ≤ i < l + a + b → b ≤ k < n2 → at_ arr i ≤ at_ R k;
}.

Lemma merged_start : merged arr0 0 0.
Proof using All.
  split; try done; try lia.
  - by rewrite !Z.add_0_r, !slice_nil.
  - intros i j; lia.
Qed.

(** What writing one more element does, from whichever half. *)
Lemma merged_write arr a b v a' b' :
  merged arr a b → 0 ≤ a' ≤ n1 → 0 ≤ b' ≤ n2 → a' + b' = a + b + 1 →
  slice L 0 a' ++ slice R 0 b' ≡ₚ v :: slice L 0 a ++ slice R 0 b →
  (∀ i, l ≤ i < l + a + b → at_ arr i ≤ v) →
  a ≤ a' → b ≤ b' →
  (∀ k, a' ≤ k < n1 → v ≤ at_ L k) → (∀ k, b' ≤ k < n2 → v ≤ at_ R k) →
  merged (upd arr (l + a + b) v) a' b'.
Proof using All.
  intros [] Ha' Hb' Hsum Hp Hv Haa Hbb HL HR.
  assert (∀ i, 0 ≤ i → at_ (upd arr (l + a + b) v) i = if i =? l + a + b then v else at_ arr i) as E
    by (intros; apply at_upd; lia).
  replace (l + a' + b') with (l + a + b + 1) by lia.
  split; replace (l + a' + b') with (l + a + b + 1) by lia; rewrite ?length_upd; try done.
  - intros i Hi Ho. rewrite E by lia. bcase; apply mg_out0; lia.
  - rewrite slice_snoc, E, Z.eqb_refl by lia. rewrite (slice_ext arr) by (intros; rewrite E by lia; by bcase).
    rewrite Hp, mg_perm0. symmetry. apply Permutation_cons_append.
  - intros i j Hi Hij Hj. rewrite !E by lia. bcase; [apply Hv; lia|apply mg_sorted0; lia].
  - intros i k Hi Hk. rewrite E by lia. bcase; [by apply HL|apply mg_left0; lia].
  - intros i k Hi Hk. rewrite E by lia. bcase; [by apply HR|apply mg_right0; lia].
Qed.

Lemma merged_take_left arr a b :
  merged arr a b → a < n1 → (b < n2 → at_ L a ≤ at_ R b) → merged (upd arr (l + a + b) (at_ L a)) (a + 1) b.
Proof using All.
  intros Hm Ha Hle. destruct (Hm) as []. eapply merged_write; [exact Hm|lia..| | |lia|lia| |].
  - rewrite slice_snoc by lia. rewrite <- app_assoc. cbn. symmetry. apply Permutation_middle.
  - intros i Hi. apply mg_left0; lia.
  - intros k Hk. apply SL; lia.
  - intros k Hk. destruct (decide (k = b)) as [->|]; [apply Hle; lia|].
    specialize (SR b k). specialize (Hle ltac:(lia)). lia.
Qed.

Lemma merged_take_right arr a b :
  merged arr a b → b < n2 → (a < n1 → at_ R b ≤ at_ L a) → merged (upd arr (l + a + b) (at_ R b)) a (b + 1).
Proof using All.
  intros Hm Hb Hle. destruct (Hm) as []. eapply merged_write; [exact Hm|lia..| | |lia|lia| |].
  - rewrite slice_snoc by lia. rewrite app_assoc. symmetry. apply Permutation_cons_append.
  - intros i Hi. apply mg_right0; lia.
  - intros k Hk. destruct (decide (k = a)) as [->|]; [apply Hle; lia|].
    specialize (SL a k). specialize (Hle ltac:(lia)). lia.
  - intros k Hk. apply SR; lia.
Qed.

(** The buffers hold the halves and stay; the array is merged so far. *)
Definition at_step (a b : Z) (s : mbufs) : Prop :=
  mb_left s = L ∧ mb_right s = R ∧ merged (mb_arr s) a b.

Lemma write_left a b s :
  at_step a b s → a < n1 → (b < n2 → at_ L a ≤ at_ R b) →
  wp (on_arr (st (l + a + b) (at_ L a))) (λ _ s', at_step (a + 1) b s') s.
Proof using All.
  intros (HL & HR & Hm) Ha Hle. apply wp_on_arr, wp_st; [destruct Hm; lia|].
  split; [done|]. split; [done|]. by apply merged_take_left.
Qed.

Lemma write_right a b s :
  at_step a b s → b < n2 → (a < n1 → at_ R b ≤ at_ L a) →
  wp (on_arr (st (l + a + b) (at_ R b))) (λ _ s', at_step a (b + 1) s') s.
Proof using All.
  intros (HL & HR & Hm) Ha Hle. apply wp_on_arr, wp_st; [destruct Hm; lia|].
  split; [done|]. split; [done|]. by apply merged_take_right.
Qed.

Lemma read_left {A} a b s (k : Z → M mbufs A) Q :
  at_step a b s → a < n1 → wp (k (at_ L a)) Q s → wp (x ← on_left (ld a); k x) Q s.
Proof using All.
  intros (HL & HR & Hm) Ha HQ. apply wp_bind, wp_on_left, wp_ld; [rewrite HL; destruct Hm; lia|].
  destruct s. cbn in *. by subst.
Qed.

Lemma read_right {A} a b s (k : Z → M mbufs A) Q :
  at_step a b s → b < n2 → wp (k (at_ R b)) Q s → wp (x ← on_right (ld b); k x) Q s.
Proof using All.
  intros (HL & HR & Hm) Ha HQ. apply wp_bind, wp_on_right, wp_ld; [rewrite HR; destruct Hm; lia|].
  destruct s. cbn in *. by subst.
Qed.

Lemma merge_main_ok fuel : ∀ a b s,
  at_step a b s → n1 + n2 - (a + b) ≤ Z.of_nat fuel →
  wp (merge_main fuel a b (l + a + b) n1 n2)
    (λ '(a', b', c') s', at_step a' b' s' ∧ c' = l + a' + b' ∧ (a' = n1 ∨ b' = n2)) s.
Proof using All.
  induction fuel as [|fuel IH]; intros a b s Hs Hf; pose proof Hs as (_ & _ & []); cbn [merge_main];
    (destruct (Z.ltb_spec a n1); [destruct (Z.ltb_spec b n2)|]; cbn [andb];
      [|apply wp_ret; split; [done|split; [done|lia]]..]); [lia|].
  eapply read_left; [done..|]. eapply read_right; [done..|].
  destruct (Z.leb_spec (at_ L a) (at_ R b)) as [Hle|Hgt]; (eapply wp_bind_mono;
    [(apply write_left || apply write_right); [done|done|lia]|]); cbv beta; intros _ s' Hs'.
  - replace (l + a + b + 1) with (l + (a + 1) + b) by lia. apply IH; [done|lia].
  - replace (l + a + b + 1) with (l + a + (b + 1)) by lia. apply IH; [done|lia].
Qed.

(** The loops that write back what is left of one half. *)
Lemma drain_left a b s :
  at_step a b s → a = n1 ∨ b = n2 →
  wp (for_up (Z.to_nat (n1 - a)) a (λ i, x ← on_left (ld i); on_arr (st (l + a + b + (i - a)) x)))
    (λ _ s', at_step n1 b s') s.
Proof using All.
  intros Hs Hend. pose proof Hs as (_ & _ & []).
  eapply wp_mono; [apply (wp_for_up _ a _ (λ i s, at_step i b s)); [done|]|cbv beta; intros _ s' Hs';
    by replace (a + Z.of_nat (Z.to_nat (n1 - a))) with n1 in Hs' by lia]. intros i s' Hi Hs'.
  eapply read_left; [done|lia|]. replace (l + a + b + (i - a)) with (l + i + b) by lia.
  apply write_left; [done|lia..].
Qed.

Lemma drain_right b c s :
  at_step n1 b s → c = l + n1 + b →
  wp (for_up (Z.to_nat (n2 - b)) b (λ j, y ← on_right (ld j); on_arr (st (c + (j - b)) y)))
    (λ _ s', at_step n1 n2 s') s.
Proof using All.
  intros Hs ->. pose proof Hs as (_ & _ & []).
  eapply wp_mono; [apply (wp_for_up _ b _ (λ j s, at_step n1 j s)); [done|]|cbv beta; intros _ s' Hs';
    by replace (b + Z.of_nat (Z.to_nat (n2 - b))) with n2 in Hs' by lia]. intros j s' Hj Hs'.
  eapply read_right; [done|lia|]. replace (l + n1 + b + (j - b)) with (l + n1 + j) by lia.
  apply write_right; [done|lia..].
Qed.
End merge.

(** Copying a half into its buffer. *)
Lemma copy_left l n s :
  0 ≤ l → 0 ≤ n → l + n ≤ len (mb_arr s) → n ≤ len (mb_left s) →
  wp (for_up (Z.to_nat n) 0 (λ i, x ← on_arr (ld (l + i)); on_left (st i x)))
    (λ _ s', mb_arr s' = mb_arr s ∧ mb_right s' = mb_right s ∧
      length (mb_left s') = length (mb_left s) ∧
      ∀ i, 0 ≤ i < n → at_ (mb_left s') i = at_ (mb_arr s) (l + i)) s.
Proof.
  intros Hl Hn Hf Hb. eapply wp_mono; [apply (wp_for_up _ 0 _ (λ k s', mb_arr s' = mb_arr s ∧
    mb_right s' = mb_right s ∧ length (mb_left s') = length (mb_left s) ∧
    ∀ i, 0 ≤ i < k → at_ (mb_left s') i = at_ (mb_arr s) (l + i)))|].
  - repeat split; lia.
  - intros k s' Hk (E1 & E2 & E3 & E4). apply wp_bind, wp_on_arr, wp_ld; [rewrite E1; lia|].
    apply wp_on_left, wp_st; cbn [mb_left mb_arr mb_right]; [lia|].
    split; [done|]. split; [done|]. split; [by rewrite length_upd|].
    intros i Hi. rewrite at_upd by lia. bcase; [by subst; rewrite E1|apply E4; lia].
  - cbv beta. intros _ s' (E1 & E2 & E3 & E4). repeat split; try done. intros i Hi. apply E4. lia.
Qed.

Lemma copy_right m n s :
  0 ≤ m → 0 ≤ n → m + n ≤ len (mb_arr s) → n ≤ len (mb_right s) →
  wp (for_up (Z.to_nat n) 0 (λ j, y ← on_arr (ld (m + j)); on_right (st j y)))
    (λ _ s', mb_arr s' = mb_arr s ∧ mb_left s' = mb_left s ∧
      length (mb_right s') = length (mb_right s) ∧
      ∀ i, 0 ≤ i < n → at_ (mb_right s') i = at_ (mb_arr s) (m + i)) s.
Proof.
  intros Hl Hn Hf Hb. eapply wp_mono; [apply (wp_for_up _ 0 _ (λ k s', mb_arr s' = mb_arr s ∧
    mb_left s' = mb_left s ∧ length (mb_right s') = length (mb_right s) ∧
    ∀ i, 0 ≤ i < k → at_ (mb_right s') i = at_ (mb_arr s) (m + i)))|].
  - repeat split; lia.
  - intros k s' Hk (E1 & E2 & E3 & E4). apply wp_bind, wp_on_arr, wp_ld; [rewrite E1; lia|].
    apply wp_on_right, wp_st; cbn [mb_left mb_arr mb_right]; [lia|].
    split; [done|]. split; [done|]. split; [by rewrite length_upd|].
    intros i Hi. rewrite at_upd by lia. bcase; [by subst; rewrite E1|apply E4; lia].
  - cbv beta. intros _ s' (E1 & E2 & E3 & E4). repeat split; try done. intros i Hi. apply E4. lia.
Qed.

(** The buffers keep their sizes; the array is rearranged and sorted between [l] and [r]. *)
Definition range_sorted (l r : Z) (s s' : mbufs) : Prop :=
  rearr l (r + 1) (mb_arr s) (mb_arr s') ∧ sorted_on (mb_arr s') l (r + 1) ∧
  length (mb_left s') = length (mb_left s) ∧ length (mb_right s') = length (mb_right s).

Lemma sorted_on_shift a b lo hi d :
  (∀ i, 0 ≤ i < hi - lo → at_ b i = at_ a (d + i)) → d = lo → sorted_on a lo hi → sorted_on b 0 (hi - lo).
Proof. intros E -> Hs i j Hi Hij Hj. rewrite !E by lia. apply Hs; lia. Qed.

Lemma merge_ok l m r s :
  0 ≤ l ≤ m → m < r → r < len (mb_arr s) →
  r - l + 1 ≤ len (mb_left s) → r - l + 1 ≤ len (mb_right s) →
  sorted_on (mb_arr s) l (m + 1) → sorted_on (mb_arr s) (m + 1) (r + 1) →
  wp (merge l m r) (λ _ s', range_sorted l r s s') s.
Proof.
  intros Hl Hm Hr HL HR S1 S2. unfold merge.
  eapply wp_bind_mono; [apply copy_left; lia|]. cbv beta. intros _ s1 (A1 & R1 & L1 & C1).
  eapply wp_bind_mono; [apply copy_right; rewrite ?A1, ?R1; lia|]. cbv beta.
  rewrite A1, R1. intros _ s2 (A2 & L2 & R2 & C2).
  assert (sorted_on (mb_left s2) 0 (m - l + 1)) as SL.
  { replace (m - l + 1) with (m + 1 - l) by lia. apply (sorted_on_shift (mb_arr s) _ _ _ l); [|done..].
    intros i Hi. rewrite L2. apply C1. lia. }
  assert (sorted_on (mb_right s2) 0 (r - m)) as SR.
  { replace (r - m) with (r + 1 - (m + 1)) by lia. apply (sorted_on_shift (mb_arr s) _ _ _ (m + 1)); [|done..].
    intros i Hi. apply C2. lia. }
  assert (length (mb_left s2) = length (mb_left s)) as LL by congruence.
  set (step := at_step (mb_arr s) (mb_left s2) (mb_right s2) l (m - l + 1) (r - m)).
  assert (step 0 0 s2) as Hs2.
  { split; [done|]. split; [done|]. rewrite A2. apply merged_start; first [done|lia]. }
  replace l with (l + 0 + 0) at 2 by lia.
  eapply wp_bind_mono; [apply (merge_main_ok (mb_arr s) (mb_left s2) (mb_right s2));
    first [done|lia]|].
  cbv beta. intros [[a b] c] s3 (H3 & -> & Hend). pose proof H3 as (_ & _ & []).
  eapply wp_bind_mono; [apply (drain_left (mb_arr s) (mb_left s2) (mb_right s2) l (m - l + 1) (r - m)); first [done|lia]|].
  cbv beta. intros _ s4 H4.
  eapply wp_mono; [apply (drain_right (mb_arr s) (mb_left s2) (mb_right s2) l (m - l + 1)); first [done|lia]|].
  cbv beta. intros _ s5 (E1 & E2 & []). replace (l + (m - l + 1) + (r - m)) with (r + 1) in * by lia.
  split; [|split; [done|split; congruence]].
  apply rearr_slice; try done; try lia. rewrite mg_perm1, (slice_app (mb_arr s) l (m + 1)) by lia.
  rewrite <- (slice_shift (mb_left s2) (mb_arr s) 0 (m - l + 1) l) by
    (intros; rewrite L2, C1 by lia; f_equal; lia).
  rewrite <- (slice_shift (mb_right s2) (mb_arr s) 0 (r - m) (m + 1)) by
    (intros; rewrite C2 by lia; f_equal; lia).
  by replace (0 + l) with l by lia; replace (m - l + 1 + l) with (m + 1) by lia;
    replace (0 + (m + 1)) with (m + 1) by lia; replace (r - m + (m + 1)) with (r + 1) by lia.
Qed.

(** ** The recursion *)

Lemma mid_of l r : l < r → l ≤ l + Z.quot (r - l) 2 < r.
Proof.
  intros H. rewrite Z.quot_div_nonneg by lia.
  pose proof (Z.div_mod (r - l) 2). pose proof (Z.mod_pos_bound (r - l) 2). lia.
Qed.

Lemma merge_sort_ok fuel : ∀ l r s,
  0 ≤ l → r < len (mb_arr s) → r - l + 1 ≤ len (mb_left s) → r - l + 1 ≤ len (mb_right s) →
  r - l ≤ Z.of_nat fuel →
  wp (merge_sort_ fuel l r) (λ _ s', range_sorted l r s s') s.
Proof.
  induction fuel as [|fuel IH]; intros l r s Hl Hr HL HR Hf; cbn [merge_sort_];
    (destruct (Z.ltb_spec l r) as [Hlt|Hge]; cbn [negb];
      [|apply wp_ret; split; [apply rearr_refl|split; [intros i j ???; lia|done]]]); [lia|].
  pose proof (mid_of l r Hlt) as Hm. set (m := l + Z.quot (r - l) 2) in *.
  eapply wp_bind_mono; [apply (IH l m); lia|]. cbv beta. intros _ s1 (R1 & S1 & L1 & B1).
  pose proof (ra_len _ _ _ _ R1) as E1.
  eapply wp_bind_mono; [apply (IH (m + 1) r); lia|]. cbv beta. intros _ s2 (R2 & S2 & L2 & B2).
  pose proof (ra_len _ _ _ _ R2) as E2.
  eapply wp_mono; [apply merge_ok; try lia; [|done]|].
  - apply (sorted_on_frame (mb_arr s1)); [done|]. intros i Hi. apply (ra_out _ _ _ _ R2); lia.
  - cbv beta. intros _ s3 (R3 & S3 & L3 & B3). split; [|split; [done|split; congruence]].
    eapply rearr_trans; [|exact R3]. eapply rearr_trans; eapply rearr_mono; [| | |exact R1| | | |exact R2]; lia.
Qed.

(** [_merge_sort] on the inclusive range of a whole array, with buffers as long as the array,
    leaves its elements in ascending order. *)
Lemma merge_sort_range_correct fuel a left right :
  length left = length a → length right = length a →
  len a - 1 ≤ Z.of_nat fuel →
  wp (merge_sort_ fuel 0 (len a - 1)) (λ _ s', sorts a (mb_arr s')) (MBufs a left right).
Proof.
  intros HL HR Hf. eapply wp_mono; [apply merge_sort_ok; cbn [mb_arr mb_left mb_right]; lia|].
  cbv beta. cbn [mb_arr]. intros _ s' (R & S & _). replace (len a - 1 + 1) with (len a) in S by lia.
  by apply sorts_all; destruct R.
Qed.

(** A copy that runs into the end of the array. *)
Lemma copy_right_faults n s :
  (0 < n)%nat → for_up n 0 (λ j, y ← on_arr (ld (len (mb_arr s) + j)); on_right (st j y)) s =
    Fault (len (mb_arr s)).
Proof.
  intros Hn. rewrite for_up_first by done. unfold mbind, M_bind, on_arr, ld.
  rewrite Z.add_0_r, (proj2 (Z.ltb_ge _ 0)), Nat2Z.id, lookup_ge_None_2 by lia. done.
Qed.

Lemma merge_sort_past fuel : ∀ l s,
  0 ≤ l < len (mb_arr s) → len (mb_arr s) - l + 1 ≤ len (mb_left s) →
  len (mb_arr s) - l + 1 ≤ len (mb_right s) → len (mb_arr s) - l ≤ Z.of_nat fuel →
  merge_sort_ fuel l (len (mb_arr s)) s = Fault (len (mb_arr s)).
Proof.
  induction fuel as [|fuel IH]; intros l s Hl HL HR Hf; cbn [merge_sort_]; [lia|].
  rewrite (proj2 (Z.ltb_lt l _)) by lia. cbn [negb].
  pose proof (mid_of l (len (mb_arr s)) ltac:(lia)) as Hm. set (m := l + Z.quot _ 2) in *.
  pose proof (merge_sort_ok fuel l m s) as Hw. apply wp_inv in Hw as ([] & s1 & E1 & R1 & _ & L1 & B1); [|lia..].
  rewrite (M_bind_Ok _ _ _ _ _ E1). pose proof (ra_len _ _ _ _ R1) as A1.
  destruct (decide (m + 1 < len (mb_arr s))) as [Hin|Hlast].
  { unfold mbind, M_bind. rewrite <- A1. rewrite IH by lia. done. }
  rewrite (M_bind_Ok _ _ s1 tt s1).
  2: { destruct fuel; cbn [merge_sort_]; by rewrite (proj2 (Z.ltb_ge (m + 1) _)) by lia. }
  pose proof (copy_left l (m - l + 1) s1) as Hw. apply wp_inv in Hw as ([] & s2 & E2 & A2 & B2 & _); [|lia..].
  unfold merge. rewrite (M_bind_Ok _ _ _ _ _ E2). unfold mbind at 1, M_bind at 1.
  replace (m + 1) with (len (mb_arr s2)) by (rewrite A2; lia). rewrite copy_right_faults by lia.
  by rewrite A2, A1.
Qed.

(** [merge_sort] passes the length where [_merge_sort] takes the last index: with buffers one
    longer than a non-empty array it reads [arr[len]]. *)
Theorem merge_sort_reads_past a left right :
  a ≠ [] → int_size a → length left = S (length a) → length right = S (length a) →
  merge_sort (len a) (MBufs a left right) = Fault (len a).
Proof.
  intros Ha Hn HL HR. unfold merge_sort. rewrite swrap_small by lia.
  assert (0 < length a)%nat by (destruct a; simpl; [done|lia]).
  apply (merge_sort_past _ 0 (MBufs a left right)); cbn [mb_arr mb_left mb_right]; lia.
Qed.

Lemma merge_sort_reads_past_witness :
  merge_sort 3 (MBufs [7; 2; 5] [0; 0; 0; 0] [0; 0; 0; 0]) = Fault 3.
Proof. apply (merge_sort_reads_past [7; 2; 5]); by_decide || done. Defined.

(** ** The sorting functions agree *)

Lemma sorts_unique a b c : sorts a b → sorts a c → b = c.
Proof.
  intros [Pb Sb] [Pc Sc]. apply (Sorted_unique Z.le); [by apply StronglySorted_Sorted..|]. by rewrite Pb.
Qed.

Lemma wp_sorts {St} (m : M St unit) (f : St → list Z) s a b :
  sorts a b → wp m (λ _ s', sorts a (f s')) s → ∃ s', m s = Ok (tt, s') ∧ f s' = b.
Proof.
  intros Hb ([] & s' & E & Hs)%wp_inv. exists s'. split; [done|]. by apply (sorts_unique a).
Qed.

(** C36: on every non-empty array an [int] can index [bubble_sort], [insertion_sort], [selection_sort] and
    [quick_sort], given its length, end and leave the same array: the ascending rearrangement of the
    elements.  So does [merge_sort] given one less than the length, with buffers as long as the array: what
    it passes on as the last index is its argument. *)
Theorem sorts_agree a left right :
  1 ≤ len a < 2 ^ 31 → length left = length a → length right = length a →
  ∃ b, sorts a b ∧
    bubble_sort (len a) a = Ok (tt, b) ∧ insertion_sort (len a) a = Ok (tt, b) ∧
    selection_sort (len a) a = Ok (tt, b) ∧ quick_sort (len a) a = Ok (tt, b) ∧
    ∃ s, merge_sort (len a - 1) (MBufs a left right) = Ok (tt, s) ∧ mb_arr s = b.
Proof.
  intros Hn HL HR.
  pose proof (selection_sort_correct a) as ([] & b & E & Hb)%wp_inv. exists b.
  assert (∀ m : M (list Z) unit, wp m (λ _ a', sorts a a') a → m a = Ok (tt, b)) as Hsame.
  { intros m Hm. destruct (wp_sorts m id a a b Hb Hm) as (s' & Hs' & <-). done. }
  split; [done|]. split; [by apply Hsame, bubble_sort_correct|].
  split; [apply Hsame, insertion_sort_correct|]. split; [done|].
  split; [apply Hsame, quick_sort_correct; lia|].
  apply (wp_sorts _ mb_arr _ a); [done|]. unfold merge_sort. rewrite swrap_small by lia.
  by apply merge_sort_range_correct; [..|lia].
Qed.

Lemma sorts_agree_witness :
  ∃ b, sorts [5; -1; 5; 0] b ∧
    bubble_sort 4 [5; -1; 5; 0] = Ok (tt, b) ∧ insertion_sort 4 [5; -1; 5; 0] = Ok (tt, b) ∧
    selection_sort 4 [5; -1; 5; 0] = Ok (tt, b) ∧ quick_sort 4 [5; -1; 5; 0] = Ok (tt, b) ∧
    ∃ s, merge_sort 3 (MBufs [5; -1; 5; 0] [0; 0; 0; 0] [0; 0; 0; 0]) = Ok (tt, s) ∧ mb_arr s = b.
Proof. apply (sorts_agree [5; -1; 5; 0] [0; 0; 0; 0] [0; 0; 0; 0]); [by_decide|done..]. Defined.
