(* ===== verification/I386Paging.v ===== *)
(** * Two-level paging and the frame bitmap of the 32-bit port ([arch/i386/memory/paging.c])

    Physical memory is a map of 32-bit words; the kernel is identity mapped, so that a pointer is
    the address of its word.  The frame bitmap, the page directory and the page tables all live in
    that memory, at the addresses the boot allocator gives out. *)

From S2P Require Import Prelude Loops Mm.

(** ** The machine *)

Record m32 := M32 {
  x_mem : gmap Z Z;                     (* 32-bit words by address *)
  x_placement : Z;                      (* placement_address *)
  x_frames : Z;                         (* frames *)
  x_nframes : Z;
  x_kernel_dir : Z;
  x_current_dir : Z;
  x_cr0 : Z;
  x_cr3 : Z;
  x_tlb : gmap Z (Z * bool * bool);     (* page -> frame address, writable, user *)
  x_handlers : gmap Z string;           (* interrupt handlers, by name *)
  x_out : list (string * list Z);       (* messages: the format, without its new lines, and the arguments *)
}.

Definition set_xmem (f : gmap Z Z → gmap Z Z) (s : m32) : m32 :=
  M32 (f (x_mem s)) (x_placement s) (x_frames s) (x_nframes s) (x_kernel_dir s) (x_current_dir s)
    (x_cr0 s) (x_cr3 s) (x_tlb s) (x_handlers s) (x_out s).
Definition set_xplacement (v : Z) (s : m32) : m32 :=
  M32 (x_mem s) v (x_frames s) (x_nframes s) (x_kernel_dir s) (x_current_dir s)
    (x_cr0 s) (x_cr3 s) (x_tlb s) (x_handlers s) (x_out s).
Definition set_bitmap (fr n : Z) (s : m32) : m32 :=
  M32 (x_mem s) (x_placement s) fr n (x_kernel_dir s) (x_current_dir s)
    (x_cr0 s) (x_cr3 s) (x_tlb s) (x_handlers s) (x_out s).
Definition set_dirs (k c : Z) (s : m32) : m32 :=
  M32 (x_mem s) (x_placement s) (x_frames s) (x_nframes s) k c
    (x_cr0 s) (x_cr3 s) (x_tlb s) (x_handlers s) (x_out s).
Definition set_xcr0 (v : Z) (s : m32) : m32 :=
  M32 (x_mem s) (x_placement s) (x_frames s) (x_nframes s) (x_kernel_dir s) (x_current_dir s)
    v (x_cr3 s) (x_tlb s) (x_handlers s) (x_out s).
(** Loading [cr3] drops every cached translation. *)
Definition set_xcr3 (v : Z) (s : m32) : m32 :=
  M32 (x_mem s) (x_placement s) (x_frames s) (x_nframes s) (x_kernel_dir s) (x_current_dir s)
    (x_cr0 s) v ∅ (x_handlers s) (x_out s).
Definition set_xtlb (f : gmap Z (Z * bool * bool) → gmap Z (Z * bool * bool)) (s : m32) : m32 :=
  M32 (x_mem s) (x_placement s) (x_frames s) (x_nframes s) (x_kernel_dir s) (x_current_dir s)
    (x_cr0 s) (x_cr3 s) (f (x_tlb s)) (x_handlers s) (x_out s).
Definition set_xhandler (n : Z) (h : string) (s : m32) : m32 :=
  M32 (x_mem s) (x_placement s) (x_frames s) (x_nframes s) (x_kernel_dir s) (x_current_dir s)
    (x_cr0 s) (x_cr3 s) (x_tlb s) (<[n := h]> (x_handlers s)) (x_out s).
Definition add_out (o : string * list Z) (s : m32) : m32 :=
  M32 (x_mem s) (x_placement s) (x_frames s) (x_nframes s) (x_kernel_dir s) (x_current_dir s)
    (x_cr0 s) (x_cr3 s) (x_tlb s) (x_handlers s) (x_out s ++ [o]).

Definition ld32 (p : Z) : M m32 Z := gets (λ s, rd (x_mem s) p).
Definition st32 (p v : Z) : M m32 unit := modify (set_xmem <[p := v]>).

(** Read, change and write back a word. *)
Definition upd32 (p : Z) (f : Z → Z) : M m32 unit := v ← ld32 p; st32 p (f v).

(** [memset(p, 0, 4 * n)] on an aligned buffer. *)
Definition memset0_32 (p : Z) (n : nat) : M m32 unit := for_up n 0 (λ i, st32 (u32 (p + 4 * i)) 0).

Definition say (fmt : string) (args : list Z) : M m32 unit := modify (add_out (fmt, args)).

(** ** The boot allocator, with 32-bit addresses *)

(* src/mm/kheap.c 9-18 kmalloc_a *)
Definition kmalloc_a (sz : Z) : M m32 Z :=
  pa ← gets x_placement;
  when (nz (pa .& 0xFFF)) (modify (set_xplacement (u32 ((pa .& unot 32 0xFFF) + 0x1000)))) ;;
  ret ← gets x_placement;
  modify (λ s, set_xplacement (u32 (x_placement s + sz)) s) ;;
  mret ret.

(* src/mm/kheap.c 35-39 kmalloc *)
Definition kmalloc (sz : Z) : M m32 Z :=
  ret ← gets x_placement;
  modify (λ s, set_xplacement (u32 (x_placement s + sz)) s) ;;
  mret ret.

(** ** Entries *)

Definition PDE_PRESENT : Z := 1.
Definition PDE_READ_WRITE : Z := 2.
Definition PDE_PAGE_TABLE_BASE_MASK : Z := 0xFFFFF000.
Definition CR0_PG : Z := 2 ^ 31.
Definition PTE_PRESENT : Z := 1.
Definition PTE_READ_WRITE : Z := 2.
Definition PTE_USER_SUPERVISOR : Z := 4.
Definition PTE_FRAME_MASK : Z := 0xFFFFF000.

(* src/arch/i386/memory/paging.h 144-146 PTE_SET_PRESENT *)
Definition PTE_SET_PRESENT (pte : Z) : Z := pte .| PTE_PRESENT.
(* src/arch/i386/memory/paging.h 148-150 PTE_SET_WRITABLE *)
Definition PTE_SET_WRITABLE (pte : Z) : Z := pte .| PTE_READ_WRITE.
Definition PTE_CLEAR_WRITABLE (pte : Z) : Z := pte .& unot 32 PTE_READ_WRITE.
(* src/arch/i386/memory/paging.h 152-154 PTE_SET_USER *)
Definition PTE_SET_USER (pte : Z) : Z := pte .| PTE_USER_SUPERVISOR.
Definition PTE_CLEAR_USER (pte : Z) : Z := pte .& unot 32 PTE_USER_SUPERVISOR.
(* src/arch/i386/memory/paging.h 156-156 PTE_GET_FRAME *)
Definition PTE_GET_FRAME (pte : Z) : Z := (pte .& PTE_FRAME_MASK) .>> 12.
(* src/arch/i386/memory/paging.h 157-158 PTE_SET_FRAME *)
Definition PTE_SET_FRAME (pte frame : Z) : Z :=
  (pte .& unot 32 PTE_FRAME_MASK) .| u32 ((frame .& 0xFFFFF) .<< 12).

(* src/arch/i386/memory/paging.h 191-193 cr3_to_directory *)
Definition cr3_to_directory (cr3 : Z) : Z := cr3 .& PDE_PAGE_TABLE_BASE_MASK.

(* src/arch/i386/memory/paging.h 185-189 read_cr3 *)
Definition read_cr3 : M m32 Z := gets x_cr3.

(* src/arch/i386/memory/paging.h 181-183 invalidate_page *)
Definition invalidate_page (virt_addr : Z) : M m32 unit :=
  modify (set_xtlb (base.delete (virt_addr / 0x1000 * 0x1000))).

(** ** The frame bitmap *)

(* src/arch/i386/memory/paging.c 18-18 BITSET_INDEX *)
Definition BITSET_INDEX (a : Z) : Z := a / 32.
(* src/arch/i386/memory/paging.c 19-19 BITSET_OFFSET *)
Definition BITSET_OFFSET (a : Z) : Z := a mod 32.

(** The word of [frames] that holds the bit of a frame. *)
Definition frame_word (frames frame : Z) : Z := u32 (frames + 4 * BITSET_INDEX frame).

(* src/arch/i386/memory/paging.c 21-27 set_frame *)
Definition set_frame (frame_addr : Z) : M m32 unit :=
  let frame := frame_addr / 0x1000 in
  frames ← gets x_frames;
  upd32 (frame_word frames frame) (λ w, w .| 2 ^ BITSET_OFFSET frame).

(* src/arch/i386/memory/paging.c 29-35 clear_frame *)
Definition clear_frame (frame_addr : Z) : M m32 unit :=
  let frame := frame_addr / 0x1000 in
  frames ← gets x_frames;
  upd32 (frame_word frames frame) (λ w, w .& unot 32 (2 ^ BITSET_OFFSET frame)).

(* src/arch/i386/memory/paging.c 37-42 test_frame *)
Definition test_frame (frame_addr : Z) : M m32 Z :=
  let frame := frame_addr / 0x1000 in
  frames ← gets x_frames;
  w ← ld32 (frame_word frames frame);
  mret (w .& 2 ^ BITSET_OFFSET frame).

(* src/arch/i386/memory/paging.c 44-60 first_frame *)
Definition first_frame : M m32 Z :=
  nframes ← gets x_nframes;
  frames ← gets x_frames;
  r ← for_find (Z.to_nat (BITSET_INDEX nframes)) 0 (λ i,
    w ← ld32 (u32 (frames + 4 * i));
    if w =? 0xFFFFFFFF then mret None else
    for_find 32 0 (λ j,
      w ← ld32 (u32 (frames + 4 * i));
      mret (if negb (nz (w .& 2 ^ j)) then Some (u32 (i * 32 + j)) else None)));
  mret (default (2 ^ 32 - 1) r).

(* src/arch/i386/memory/paging.c 62-83 alloc_frame *)
Definition alloc_frame (page : Z) (iskernel writeable : bool) : M m32 unit :=
  e ← ld32 page;
  if nz (PTE_GET_FRAME e) then mret tt else
  idx ← first_frame;
  if idx =? 2 ^ 32 - 1 then
    say "kernel panic: no free frames! :O" [] ;; halt
  else
  set_frame (u32 (idx * 0x1000)) ;;
  upd32 page PTE_SET_PRESENT ;;
  when writeable (upd32 page PTE_SET_WRITABLE) ;;
  when (negb iskernel) (upd32 page PTE_SET_USER) ;;
  upd32 page (λ e, PTE_SET_FRAME e idx).

(* src/arch/i386/memory/paging.c 85-92 free_frame *)
Definition free_frame (page : Z) : M m32 unit :=
  e ← ld32 page;
  let frame := PTE_GET_FRAME e in
  if frame =? 0 then mret tt else
  clear_frame (u32 (frame * 0x1000)) ;;
  st32 page 0.

(** ** The page tables *)

(** The address of the directory's entry for an address. *)
Definition pde_at (dir addr : Z) : Z := u32 (dir + 4 * (addr .>> 22)).

(* src/arch/i386/memory/paging.c 158-194 get_page *)
Definition get_page (addr : Z) (make : bool) (cr3 : Z) : M m32 Z :=
  let dir := cr3_to_directory cr3 in
  let page_dir_index := addr .>> 22 in
  pde ← ld32 (pde_at dir addr);
  ok ← (if nz (pde .& PDE_PRESENT) then mret true else
        if negb make then mret false else
        page_table_phys ← kmalloc_a 4096;
        memset0_32 page_table_phys 1024 ;;
        st32 (pde_at dir addr) (page_table_phys .| PDE_PRESENT .| PDE_READ_WRITE) ;;
        mret true);
  if negb ok then mret 0 else
  pde ← ld32 (pde_at dir addr);
  let page_table := pde .& PDE_PAGE_TABLE_BASE_MASK in
  let page_table_index := (addr .>> 12) .& 0x3FF in
  mret (u32 (page_table + 4 * page_table_index)).

(** The body of the loop of [map_physical_range]. *)
(* src/arch/i386/memory/paging.c 251-284 map_physical_range *)
Definition map_physical_page (iskernel writeable : bool) (cr3 addr : Z) : M m32 unit :=
  let dir := cr3_to_directory cr3 in
  when writeable (upd32 (pde_at dir addr) (λ e, e .| PDE_READ_WRITE)) ;;
  page ← get_page addr true cr3;
  when (nz page) (
    let frame := addr / 0x1000 in
    upd32 page PTE_SET_PRESENT ;;
    (if writeable then upd32 page PTE_SET_WRITABLE else upd32 page PTE_CLEAR_WRITABLE) ;;
    (if negb iskernel then upd32 page PTE_SET_USER else upd32 page PTE_CLEAR_USER) ;;
    upd32 page (λ e, PTE_SET_FRAME e frame) ;;
    set_frame addr ;;
    invalidate_page addr).

(** [end] is a page boundary, so that [addr] reaches it without a wrap-around. *)
(* src/arch/i386/memory/paging.c 236-285 map_physical_range *)
Definition map_physical_range (phys_start length : Z) (iskernel writeable : bool) (cr3 : Z) : M m32 unit :=
  let start := phys_start .& 0xFFFFF000 in
  let end_ := u32 (phys_start + length + 0xFFF) .& 0xFFFFF000 in
  say "mapping physical range 0x%x to 0x%x (length: %d bytes)" [start; end_; u32 (end_ - start)] ;;
  for_up (Z.to_nat ((end_ - start) / 0x1000)) 0 (λ i,
    map_physical_page iskernel writeable cr3 (start + 0x1000 * i)).

(* src/arch/i386/memory/paging.c 289-322 map_page *)
Definition map_page (virt_addr phys_addr : Z) (iskernel writeable : bool) (cr3 : Z) : M m32 unit :=
  let virt_addr := virt_addr .& 0xFFFFF000 in
  let phys_addr := phys_addr .& 0xFFFFF000 in
  page ← get_page virt_addr true cr3;
  if page =? 0 then say "[paging]: Failed to get page for 0x%x" [virt_addr] else
  let frame := phys_addr / 0x1000 in
  upd32 page (λ e, PTE_SET_FRAME e frame) ;;
  upd32 page PTE_SET_PRESENT ;;
  (if writeable then upd32 page PTE_SET_WRITABLE else upd32 page PTE_CLEAR_WRITABLE) ;;
  when (negb iskernel) (upd32 page PTE_SET_USER) ;;
  set_frame phys_addr ;;
  invalidate_page virt_addr.

(* src/arch/i386/memory/paging.c 324-354 unmap_page *)
Definition unmap_page (virt_addr cr3 : Z) : M m32 Z :=
  let virt_addr := virt_addr .& 0xFFFFF000 in
  page ← get_page virt_addr false cr3;
  if page =? 0 then mret 0 else
  e ← ld32 page;
  if negb (nz (e .& PTE_PRESENT)) then mret 0 else
  let frame := e .& PTE_FRAME_MASK in
  st32 page 0 ;;
  cur ← read_cr3;
  when (cur =? cr3) (invalidate_page virt_addr) ;;
  mret frame.

(* src/arch/i386/memory/paging.c 357-360 is_page_mapped *)
Definition is_page_mapped (virt_addr cr3 : Z) : M m32 bool :=
  page ← get_page virt_addr false cr3;
  if page =? 0 then mret false else
  e ← ld32 page;
  mret (nz (e .& PTE_PRESENT)).

(* src/arch/i386/memory/paging.c 144-156 switch_page_directory *)
Definition switch_page_directory (dir : Z) : M m32 unit :=
  modify (λ s, set_dirs (x_kernel_dir s) dir s) ;;
  modify (set_xcr3 dir) ;;
  modify (λ s, set_xcr0 (x_cr0 s .| CR0_PG) s).

(** The loop that maps the kernel; its counter stops at the last frame at the latest, well below
    a wrap-around. *)
(* src/arch/i386/memory/paging.c 111-119 init_paging *)
Definition identity_map_kernel (cr3 : Z) : M m32 unit :=
  placement ← gets x_placement;
  let identity_map_end := u32 (placement + 0x800000) in
  for_up (Z.to_nat ((identity_map_end + 0xFFF) / 0x1000)) 0 (λ k,
    page ← get_page (0x1000 * k) true cr3;
    alloc_frame page true true).

(* src/arch/i386/memory/paging.c 94-142 init_paging *)
Definition init_paging : M m32 unit :=
  let nframes := 0x4000000 / 0x1000 in
  frames ← kmalloc (BITSET_INDEX nframes * 4);
  modify (set_bitmap frames nframes) ;;
  memset0_32 frames (Z.to_nat (BITSET_INDEX nframes)) ;;
  kernel_directory ← kmalloc_a 4096;
  memset0_32 kernel_directory 1024 ;;
  modify (set_dirs kernel_directory kernel_directory) ;;
  let cr3 := kernel_directory in
  identity_map_kernel cr3 ;;
  map_physical_range 0x80000 0x80000 true true cr3 ;;
  map_physical_range 0x7fe0000 0x20000 true true cr3 ;;
  map_physical_range 0xE0000 0x20000 true true cr3 ;;
  map_physical_range 0xFEC00000 0x1000 true true cr3 ;;
  map_physical_range 0xFEE00000 0x1000 true true cr3 ;;
  modify (set_xhandler 14 "page_fault") ;;
  switch_page_directory kernel_directory.

(** The handler prints the cause and stops. *)
(* src/arch/i386/memory/paging.c 196-234 page_fault *)
Definition page_fault (cr2 err_code eip : Z) : M m32 unit :=
  say "page fault! ( " [] ;;
  when (negb (nz (err_code .& 0x1))) (say "not present " []) ;;
  when (nz (err_code .& 0x2)) (say "read-only " []) ;;
  when (nz (err_code .& 0x4)) (say "user-mode " []) ;;
  when (nz (err_code .& 0x8)) (say "reserved " []) ;;
  when (nz (err_code .& 0x10)) (say "instruction-fetch " []) ;;
  say ") at 0x%x" [cr2] ;;
  say "EIP: 0x%x" [eip] ;;
  say "system halted. oh neuwr..." [] ;;
  say "welp. that ain't good chief" [] ;;
  say "uh oh. ya done fucked up you goofball" [] ;;
  halt.
