(* ===== verification/I386Walk.v ===== *)
(** * The two-level walk and the state it runs on

    The translation the processor derives from a directory, the invariant of the memory that holds
    the directory, its tables and the frame bitmap, and how single stores change the translation. *)

From S2P Require Import Prelude Loops Mm I386Paging.

(** ** Entries, bit by bit *)

Definition is32 (x : Z) : Prop := 0 ≤ x < 2 ^ 32.

(** The frame address of an entry, and its flags. *)
Definition frame_of (e : Z) : Z := e .& 0xFFFFF000.

Lemma testbit_mask i : 0 ≤ i → Z.testbit 0xFFFFF000 i = (12 <=? i) && (i <? 32).
Proof.
  intros Hi. change 0xFFFFF000 with (Z.ldiff (Z.ones 32) (Z.ones 12)).
  rewrite Z.ldiff_spec, !Z.testbit_ones_nonneg by lia. bcase; done.
Qed.

Lemma testbit32 e i : is32 e → 32 ≤ i → Z.testbit e i = false.
Proof. intros. apply (testbit_high 32); [done|lia]. Qed.

Lemma is32_bits e : 0 ≤ e → (∀ i, 32 ≤ i → Z.testbit e i = false) → is32 e.
Proof.
  intros H0 Hb. split; [done|]. assert (e mod 2 ^ 32 = e) as <-; [|by apply Z.mod_pos_bound].
  apply Z.bits_inj'. intros i Hi. destruct (Z.lt_ge_cases i 32).
  - by rewrite Z.mod_pow2_bits_low.
  - by rewrite Z.mod_pow2_bits_high, Hb by lia.
Qed.

Lemma frame_of_arith e : is32 e → frame_of e = e / 0x1000 * 0x1000.
Proof.
  intros He. apply (land_unot_ones 32 e 12); [lia|done].
Qed.

Lemma frame_of_spec e : is32 e → frame_of e mod 0x1000 = 0 ∧ 0 ≤ frame_of e ≤ 0xFFFFF000.
Proof.
  intros He. rewrite frame_of_arith by done. split; [apply Z.mod_mul; lia|].
  destruct He. pose proof (Z.div_mod e 0x1000 ltac:(lia)). pose proof (Z.mod_pos_bound e 0x1000 ltac:(lia)). lia.
Qed.

Lemma set_bit_is32 e k : is32 e → 0 ≤ k < 32 → is32 (e .| 2 ^ k).
Proof.
  intros He Hk. apply (lor_bound 32); [lia|done|]. split; [lia|]. apply Z.pow_lt_mono_r; lia.
Qed.

Lemma testbit_set_bit e k i : 0 ≤ k → 0 ≤ i → Z.testbit (e .| 2 ^ k) i = (i =? k) || Z.testbit e i.
Proof.
  intros. rewrite Z.lor_spec, Z.pow2_bits_eqb by lia. rewrite (Z.eqb_sym k i). apply orb_comm.
Qed.

Lemma clear_bit_is32 e k : is32 e → 0 ≤ k < 32 → is32 (e .& unot 32 (2 ^ k)).
Proof.
  intros He Hk. assert (2 ^ k < 2 ^ 32) by (apply Z.pow_lt_mono_r; lia).
  assert (0 ≤ unot 32 (2 ^ k)) by (unfold unot; lia).
  pose proof (land_bound_r e (unot 32 (2 ^ k)) ltac:(lia)) as Hb. unfold is32. unfold unot in *.
  pose proof (Z.pow_pos_nonneg 2 k ltac:(lia) ltac:(lia)). lia.
Qed.

Lemma testbit_clear_bit e k i :
  is32 e → 0 ≤ k < 32 → 0 ≤ i → Z.testbit (e .& unot 32 (2 ^ k)) i = negb (i =? k) && Z.testbit e i.
Proof.
  intros He Hk Hi. assert (2 ^ k < 2 ^ 32) by (apply Z.pow_lt_mono_r; lia).
  pose proof (Z.pow_pos_nonneg 2 k ltac:(lia) ltac:(lia)).
  rewrite Z.land_spec, testbit_unot by lia. rewrite Z.pow2_bits_eqb, (Z.eqb_sym k i) by lia.
  destruct (Z.ltb_spec i 32) as [|Hge]; [by rewrite andb_comm|].
  rewrite (testbit32 e i He Hge). by destruct (i =? k).
Qed.

Lemma frame_set_bit e k : 0 ≤ k < 12 → frame_of (e .| 2 ^ k) = frame_of e.
Proof.
  intros Hk. apply Z.bits_inj'. intros i Hi. unfold frame_of.
  rewrite !Z.land_spec, testbit_set_bit, testbit_mask by lia. bcase; by rewrite ?andb_true_r, ?andb_false_r.
Qed.

Lemma frame_clear_bit e k : is32 e → 0 ≤ k < 12 → frame_of (e .& unot 32 (2 ^ k)) = frame_of e.
Proof.
  intros He Hk. apply Z.bits_inj'. intros i Hi. unfold frame_of.
  rewrite (Z.land_spec e 0xFFFFF000), (Z.land_spec (e .& _)), testbit_clear_bit, testbit_mask by (done || lia).
  bcase; by rewrite ?andb_true_r, ?andb_false_r.
Qed.

(** [PTE_SET_FRAME] replaces the frame and keeps the flags. *)
Lemma set_frame_value e f :
  is32 e → 0 ≤ f < 2 ^ 20 → PTE_SET_FRAME e f = (f * 0x1000) + e mod 0x1000.
Proof.
  intros He Hf. unfold PTE_SET_FRAME.
  change 0xFFFFF with (Z.ones 20). rewrite Z.land_ones, (Z.mod_small f) by lia.
  rewrite Z.shiftl_mul_pow2 by lia. change (2 ^ 12) with 0x1000. rewrite (wrap_small 32) by lia.
  assert (e .& unot 32 PTE_FRAME_MASK = e mod 0x1000) as ->.
  { change (unot 32 PTE_FRAME_MASK) with (Z.ones 12). by rewrite Z.land_ones. }
  rewrite Z.lor_comm. apply (lor_add_aligned 12); [lia|]. apply Z.mod_pos_bound. lia.
Qed.

Lemma set_frame_is32 e f : is32 e → 0 ≤ f < 2 ^ 20 → is32 (PTE_SET_FRAME e f).
Proof.
  intros He Hf. rewrite set_frame_value by done. unfold is32.
  pose proof (Z.mod_pos_bound e 0x1000 ltac:(lia)). lia.
Qed.

Lemma set_frame_frame e f : is32 e → 0 ≤ f < 2 ^ 20 → frame_of (PTE_SET_FRAME e f) = f * 0x1000.
Proof.
  intros He Hf. rewrite frame_of_arith by (by apply set_frame_is32). rewrite set_frame_value by done.
  rewrite Z.div_add_l, Z.div_small by (apply Z.mod_pos_bound || lia; lia). lia.
Qed.

Lemma set_frame_flag e f i :
  is32 e → 0 ≤ f < 2 ^ 20 → 0 ≤ i < 12 → Z.testbit (PTE_SET_FRAME e f) i = Z.testbit e i.
Proof.
  intros He Hf Hi. rewrite set_frame_value by done. change 0x1000 with (2 ^ 12).
  rewrite <- (lor_add_aligned 12) by (try lia; apply Z.mod_pos_bound; lia).
  rewrite Z.lor_spec, Z.mul_pow2_bits_low, Z.mod_pow2_bits_low by lia. done.
Qed.

(** ** The walk *)

Definition di (va : Z) : Z := va / 2 ^ 22.
Definition ti (va : Z) : Z := va / 0x1000 mod 1024.

Lemma di_bound va : is32 va → 0 ≤ di va < 1024.
Proof. intros [H0 H1]. unfold di. split; [apply Z.div_pos; lia|apply Z.div_lt_upper_bound; lia]. Qed.

Lemma ti_bound va : 0 ≤ ti va < 1024.
Proof. apply Z.mod_pos_bound. lia. Qed.

(** An address is in the page its two indices name. *)
Lemma page_split va : va / 0x1000 = 1024 * di va + ti va.
Proof.
  unfold di, ti. change (2 ^ 22) with (0x1000 * 1024). rewrite <- Z.div_div by lia.
  apply Z.div_mod. lia.
Qed.

Lemma same_page va w : va / 0x1000 = w / 0x1000 ↔ di va = di w ∧ ti va = ti w.
Proof.
  rewrite !page_split. pose proof (ti_bound va). pose proof (ti_bound w).
  split; [|by intros [-> ->]]. intros. lia.
Qed.

(** The entry for [va] of the table a directory entry points to. *)
Definition pte_at (pde va : Z) : Z := frame_of pde + 4 * ti va.

(** The table's entry for [va]; zero when there is no table. *)
Definition pte (m : gmap Z Z) (dir va : Z) : Z :=
  let pde := rd m (dir + 4 * di va) in
  if Z.testbit pde 0 then rd m (pte_at pde va) else 0.

(** The translation of a page: its frame, and whether writes and user accesses are allowed. *)
Definition walk (m : gmap Z Z) (dir va : Z) : option (Z * bool * bool) :=
  let pde := rd m (dir + 4 * di va) in
  if negb (Z.testbit pde 0) then None else
  let pte := rd m (pte_at pde va) in
  if negb (Z.testbit pte 0) then None else
  Some (frame_of pte, Z.testbit pde 1 && Z.testbit pte 1, Z.testbit pde 2 && Z.testbit pte 2).

Lemma rd_insert (m : gmap Z Z) a b v : rd (<[a := v]> m) b = if b =? a then v else rd m b.
Proof.
  unfold rd. destruct (Z.eqb_spec b a) as [->|Hn]; [by rewrite lookup_insert_eq|].
  by rewrite lookup_insert_ne by congruence.
Qed.

Lemma pte_ext m m' dir va :
  rd m' (dir + 4 * di va) = rd m (dir + 4 * di va) →
  (Z.testbit (rd m (dir + 4 * di va)) 0 = true →
     rd m' (pte_at (rd m (dir + 4 * di va)) va) = rd m (pte_at (rd m (dir + 4 * di va)) va)) →
  pte m' dir va = pte m dir va.
Proof. intros E1 E2. unfold pte. rewrite E1. destruct (Z.testbit _ 0) eqn:E; [by apply E2|done]. Qed.

(** ** The invariant *)

(** The number of words of the frame bitmap. *)
Definition bm_words (s : m32) : Z := BITSET_INDEX (x_nframes s).

(** [dir] is a directory whose present entries point to tables of their own, writable and closed to
    user accesses.  Bitmap, directory and tables lie in this order below the placement address. *)
Record inv32 (dir : Z) (s : m32) : Prop := {
  i_words : ∀ a, is32 (rd (x_mem s) a);
  i_nframes : 0 ≤ x_nframes s ≤ 2 ^ 20;
  i_bitmap : 0 ≤ x_frames s ∧ x_frames s mod 4 = 0 ∧ x_frames s + 4 * bm_words s ≤ dir;
  i_dir : dir mod 0x1000 = 0 ∧ dir + 0x1000 ≤ x_placement s < 2 ^ 32;
  i_tables : ∀ i, 0 ≤ i < 1024 → Z.testbit (rd (x_mem s) (dir + 4 * i)) 0 = true →
    dir < frame_of (rd (x_mem s) (dir + 4 * i)) ∧
    frame_of (rd (x_mem s) (dir + 4 * i)) + 0x1000 ≤ x_placement s ∧
    Z.testbit (rd (x_mem s) (dir + 4 * i)) 1 = true ∧ Z.testbit (rd (x_mem s) (dir + 4 * i)) 2 = false;
  i_apart : ∀ i j, 0 ≤ i < 1024 → 0 ≤ j < 1024 → i ≠ j →
    Z.testbit (rd (x_mem s) (dir + 4 * i)) 0 = true → Z.testbit (rd (x_mem s) (dir + 4 * j)) 0 = true →
    frame_of (rd (x_mem s) (dir + 4 * i)) ≠ frame_of (rd (x_mem s) (dir + 4 * j));
}.

(** Words of different pages have different addresses. *)
Lemma pages_apart p q x y :
  p mod 0x1000 = 0 → q mod 0x1000 = 0 → p ≠ q → 0 ≤ x < 0x1000 → 0 ≤ y < 0x1000 → p + x ≠ q + y.
Proof.
  intros Hp Hq Hne Hx Hy E. apply Hne.
  pose proof (Z.div_mod p 0x1000 ltac:(lia)). pose proof (Z.div_mod q 0x1000 ltac:(lia)). lia.
Qed.

Lemma pde_at_eq dir s va : inv32 dir s → is32 va → pde_at dir va = dir + 4 * di va.
Proof.
  intros [] Hva. unfold pde_at. rewrite Z.shiftr_div_pow2 by lia. fold (di va).
  pose proof (di_bound va Hva). destruct i_bitmap0 as (? & _ & ?). assert (0 ≤ bm_words s) by (apply Z.div_pos; lia). apply wrap_small. lia.
Qed.

Lemma cr3_dir dir s cr3 : inv32 dir s → is32 cr3 → cr3 / 0x1000 = dir / 0x1000 → cr3_to_directory cr3 = dir.
Proof.
  intros [] Hc E. unfold cr3_to_directory. change (_ .& _) with (frame_of cr3).
  rewrite frame_of_arith, E by done. destruct i_dir0 as (Hm & _).
  pose proof (Z.div_mod dir 0x1000 ltac:(lia)). lia.
Qed.

Lemma table_index va : is32 va → (va .>> 12) .& 0x3FF = ti va.
Proof.
  intros. rewrite Z.shiftr_div_pow2 by lia. change 0x3FF with (Z.ones 10). by rewrite Z.land_ones by lia.
Qed.

(** ** Stores *)

(** Stores outside the directory keep the invariant. *)
Lemma inv32_store dir s a v :
  inv32 dir s → is32 v → (a < dir ∨ dir + 0x1000 ≤ a) → inv32 dir (set_xmem <[a := v]> s).
Proof.
  intros [] Hv Ha.
  assert (∀ i, 0 ≤ i < 1024 → rd (<[a := v]> (x_mem s)) (dir + 4 * i) = rd (x_mem s) (dir + 4 * i)) as E.
  { intros i Hi. rewrite rd_insert. by bcase. }
  split; cbn [x_mem x_placement x_frames x_nframes set_xmem]; try done.
  - intros b. rewrite rd_insert. by bcase.
  - intros i Hi. rewrite E by done. by apply i_tables0.
  - intros i j Hi Hj. rewrite !E by done. by apply i_apart0.
Qed.

(** Stores to the bitmap, to the gap behind it and to memory not given out yet change no
    translation. *)
Definition no_table (dir : Z) (s : m32) (a : Z) : Prop := a < dir ∨ x_placement s ≤ a.

Lemma pte_store_free dir s a v w :
  inv32 dir s → no_table dir s a → is32 w → pte (<[a := v]> (x_mem s)) dir w = pte (x_mem s) dir w.
Proof.
  intros [] Ha Hw. pose proof (di_bound w Hw) as Hd. pose proof (ti_bound w) as Ht.
  apply pte_ext; [|intros Hp]; rewrite rd_insert; unfold no_table, pte_at in *; bcase; [lia..|].
  specialize (i_tables0 (di w) Hd Hp). lia.
Qed.

(** A table's entry is in no bitmap and no directory. *)
Lemma pte_place dir s va :
  inv32 dir s → is32 va → Z.testbit (rd (x_mem s) (dir + 4 * di va)) 0 = true →
  let p := pte_at (rd (x_mem s) (dir + 4 * di va)) va in
  dir + 0x1000 ≤ p < x_placement s ∧ p mod 4 = 0.
Proof.
  intros Hi Hva Hp p. pose proof (ti_bound va) as Ht. pose proof (di_bound va Hva) as Hd.
  destruct (i_tables _ _ Hi (di va) Hd Hp) as (H1 & H2 & _).
  destruct (frame_of_spec _ (i_words _ _ Hi (dir + 4 * di va))) as [Hm _].
  destruct (i_dir _ _ Hi) as [Hdm _]. subst p. unfold pte_at in *.
  set (t := frame_of _) in *. pose proof (Z.div_mod t 0x1000 ltac:(lia)).
  pose proof (Z.div_mod dir 0x1000 ltac:(lia)). split; [lia|].
  replace (t + 4 * ti va) with ((t / 0x1000 * 0x400 + ti va) * 4) by lia. apply Z.mod_mul. lia.
Qed.

(** A store to the table's entry for [va] changes the entry of that page and of no other. *)
Lemma pte_store dir s va v w :
  inv32 dir s → is32 va → is32 w → Z.testbit (rd (x_mem s) (dir + 4 * di va)) 0 = true →
  pte (<[pte_at (rd (x_mem s) (dir + 4 * di va)) va := v]> (x_mem s)) dir w =
  if w / 0x1000 =? va / 0x1000 then v else pte (x_mem s) dir w.
Proof.
  intros Hi Hva Hw Hp. pose proof (pte_place dir s va Hi Hva Hp) as [Hpl _].
  pose proof (ti_bound va) as Ht. pose proof (di_bound va Hva) as Hd.
  pose proof (ti_bound w) as Htw. pose proof (di_bound w Hw) as Hdw.
  set (pde := rd (x_mem s) (dir + 4 * di va)) in *. set (p := pte_at pde va) in *. cbv zeta in Hpl.
  destruct (Z.eqb_spec (w / 0x1000) (va / 0x1000)) as [E|E].
  - apply same_page in E as [E1 E2]. unfold pte. rewrite E1. rewrite rd_insert.
    rewrite (proj2 (Z.eqb_neq _ _)) by lia. fold pde. rewrite Hp.
    assert (pte_at pde w = p) as -> by (unfold pte_at, p; by rewrite E2).
    by rewrite rd_insert, Z.eqb_refl.
  - apply pte_ext; [|intros Hpw]; rewrite rd_insert; rewrite (proj2 (Z.eqb_neq _ _)); try done; [lia|].
    subst p pde. unfold pte_at. destruct (decide (di w = di va)) as [Ed|Ed].
    + rewrite Ed. assert (ti w ≠ ti va) by (intros Et; apply E; by apply same_page). lia.
    + apply pages_apart; [apply frame_of_spec, (i_words _ _ Hi)..| |lia|lia].
      by apply (i_apart _ _ Hi).
Qed.

Lemma pte_is32 dir s va : inv32 dir s → is32 (pte (x_mem s) dir va).
Proof. intros Hi. unfold pte. destruct (Z.testbit _ 0); [apply (i_words _ _ Hi)|done]. Qed.

(** Under the invariant the translation is read off the table's entry. *)
Definition decode (e : Z) : option (Z * bool * bool) :=
  if Z.testbit e 0 then Some (frame_of e, Z.testbit e 1, false) else None.

Lemma walk_pte dir s va : inv32 dir s → is32 va → walk (x_mem s) dir va = decode (pte (x_mem s) dir va).
Proof.
  intros Hi Hva. unfold walk, decode, pte. destruct (Z.testbit (rd (x_mem s) (dir + 4 * di va)) 0) eqn:E; [|done].
  cbn [negb]. destruct (Z.testbit (rd _ (pte_at _ _)) 0) eqn:E'; [|done]. cbn [negb].
  by destruct (i_tables _ _ Hi (di va) (di_bound va Hva) E) as (_ & _ & -> & ->).
Qed.

(** ** The frame bitmap *)

Definition used (s : m32) (f : Z) : bool :=
  Z.testbit (rd (x_mem s) (x_frames s + 4 * BITSET_INDEX f)) (BITSET_OFFSET f).

(** A frame the bitmap has a bit for. *)
Definition known (s : m32) (f : Z) : Prop := 0 ≤ f < 32 * bm_words s.

Lemma known_word dir s f : inv32 dir s → known s f →
  0 ≤ BITSET_INDEX f < bm_words s ∧ x_frames s ≤ x_frames s + 4 * BITSET_INDEX f < dir.
Proof.
  intros [] [H0 H1]. unfold BITSET_INDEX in *. assert (f / 32 < bm_words s) by (apply Z.div_lt_upper_bound; lia).
  pose proof (Z.div_pos f 32). lia.
Qed.

Lemma frame_word_eq dir s f : inv32 dir s → known s f →
  frame_word (x_frames s) f = x_frames s + 4 * BITSET_INDEX f.
Proof.
  intros Hi Hf. destruct (known_word dir s f Hi Hf). destruct Hi. unfold frame_word. apply wrap_small. lia.
Qed.

(** Stores outside the bitmap keep it; a store to a word of it changes the bits of that word. *)
Lemma used_store_off dir s a v f :
  inv32 dir s → dir ≤ a → known s f → used (set_xmem <[a := v]> s) f = used s f.
Proof.
  intros Hi Ha Hf. destruct (known_word dir s f Hi Hf). unfold used. cbn [x_mem x_frames set_xmem].
  rewrite rd_insert. by bcase.
Qed.

Lemma used_store_on s f g v :
  used (set_xmem <[x_frames s + 4 * BITSET_INDEX f := v]> s) g =
  if BITSET_INDEX g =? BITSET_INDEX f then Z.testbit v (BITSET_OFFSET g) else used s g.
Proof. unfold used. cbn [x_mem x_frames set_xmem]. rewrite rd_insert. by bcase. Qed.

Lemma frame_split f : f = 32 * BITSET_INDEX f + BITSET_OFFSET f ∧ 0 ≤ BITSET_OFFSET f < 32.
Proof. unfold BITSET_INDEX, BITSET_OFFSET. split; [apply Z.div_mod; lia|apply Z.mod_pos_bound; lia]. Qed.

(** ** An example *)

(** A cleared bitmap of 512 words at 1 MiB, a directory behind it and one empty table. *)
Definition ex32 : m32 :=
  M32 {[0x101000 := 0x102003]} 0x103000 0x100000 0x4000 0x101000 0x101000 0 0x101000 ∅ ∅ [].

Lemma ex32_rd a : rd (x_mem ex32) a = if a =? 0x101000 then 0x102003 else 0.
Proof.
  unfold ex32. cbn [x_mem]. rewrite <- insert_empty, rd_insert. unfold rd. by rewrite lookup_empty.
Qed.

Lemma ex32_inv : inv32 0x101000 ex32.
Proof.
  split; [|done..| |].
  - intros a. rewrite ex32_rd. by destruct (_ =? _).
  - intros i Hi. rewrite ex32_rd. destruct (Z.eqb_spec (0x101000 + 4 * i) 0x101000); [done|by rewrite Z.bits_0].
  - intros i j Hi Hj Hne. rewrite !ex32_rd. bcase; try (rewrite Z.bits_0; done). lia.
Qed.
