(* ===== verification/I386Ops.v ===== *)
(** * What each operation of the 32-bit paging code does

    Every operation is described by its effect on two views of the state: the table entry of each
    page, and the bit of each frame. *)

From S2P Require Import Prelude Loops Mm I386Paging I386Walk.

(** ** Views *)

(** Everything but memory, the placement address, the TLB and the messages. *)
Definition regs (s : m32) : Z * Z * Z * Z * Z * Z * gmap Z string :=
  (x_frames s, x_nframes s, x_kernel_dir s, x_current_dir s, x_cr0 s, x_cr3 s, x_handlers s).

(** The present bit of the directory's entry for an address. *)
Definition has_table (dir : Z) (s : m32) (va : Z) : Prop :=
  Z.testbit (rd (x_mem s) (dir + 4 * di va)) 0 = true.

#[export] Instance has_table_dec dir s va : Decision (has_table dir s va).
Proof. unfold has_table. apply _. Defined.

(** Memory differs only from the bitmap up, below the placement address and the last word that [set_frame] can reach. *)
Definition only_above (s s' : m32) : Prop :=
  x_placement s ≤ x_placement s' ∧
  ∀ a, a < x_frames s ∨ x_placement s' ≤ a ∧ x_frames s + 0x20000 ≤ a → rd (x_mem s') a = rd (x_mem s) a.

Lemma only_above_trans s1 s2 s3 : x_frames s2 = x_frames s1 → only_above s1 s2 → only_above s2 s3 → only_above s1 s3.
Proof.
  intros E [P1 K1] [P2 K2]. rewrite E in K2. split; [lia|]. intros a Ha. rewrite K2 by lia. apply K1. lia.
Qed.

Lemma only_above_store s a v :
  x_frames s ≤ a → a < x_placement s ∨ a < x_frames s + 0x20000 → only_above s (set_xmem <[a := v]> s).
Proof.
  intros H1 H2. split; [done|]. intros b Hb. cbn [x_mem set_xmem x_placement] in *. rewrite rd_insert. by bcase.
Qed.

Record becomes (dir : Z) (s s' : m32) (E : Z → Z) (U : Z → bool) : Prop := {
  b_inv : inv32 dir s';
  b_regs : regs s' = regs s;
  b_pte : ∀ w, is32 w → pte (x_mem s') dir w = E w;
  b_used : ∀ g, known s g → used s' g = U g;
  b_tables : ∀ va, is32 va → has_table dir s va →
    rd (x_mem s') (dir + 4 * di va) = rd (x_mem s) (dir + 4 * di va);
  b_frame : only_above s s';
}.

Definition entries (dir : Z) (s : m32) (w : Z) : Z := pte (x_mem s) dir w.
Definition set_entry (E : Z → Z) (va e w : Z) : Z := if w / 0x1000 =? va / 0x1000 then e else E w.
Definition set_used (U : Z → bool) (f : Z) (b : bool) (g : Z) : bool := if g =? f then b else U g.

Lemma regs_bitmap s s' : regs s' = regs s → x_frames s' = x_frames s ∧ x_nframes s' = x_nframes s.
Proof. unfold regs. by intros [=]. Qed.

Lemma regs_known s s' g : regs s' = regs s → known s g → known s' g.
Proof. intros [_ E]%regs_bitmap. unfold known, bm_words. by rewrite E. Qed.

Lemma becomes_refl dir s : inv32 dir s → becomes dir s s (entries dir s) (used s).
Proof. by intros Hi; split; try done; split. Qed.

Lemma becomes_trans dir s s1 s2 E U :
  becomes dir s s1 (entries dir s1) (used s1) → becomes dir s1 s2 E U → becomes dir s s2 E U.
Proof.
  intros [] []. split; [done|congruence|done| | |].
  3: { apply (only_above_trans s s1 s2); [by apply regs_bitmap in b_regs0 as [? _]|done|done]. }
  - intros g Hg. apply b_used1. by apply (regs_known s).
  - intros va Hva Ht. rewrite b_tables1; [by apply b_tables0|done|]. unfold has_table. by rewrite b_tables0.
Qed.

Lemma becomes_ext dir s s' E E' U U' :
  becomes dir s s' E U → (∀ w, is32 w → E w = E' w) → (∀ g, known s g → U g = U' g) →
  becomes dir s s' E' U'.
Proof. intros [] HE HU. split; [done|done| | |done|done]; intros; rewrite <- ?HE, <- ?HU; auto. Qed.

(** Tables stay where they are. *)
Lemma becomes_has_table dir s s' E U va : becomes dir s s' E U → is32 va → has_table dir s va → has_table dir s' va.
Proof. intros [] Hva Ht. unfold has_table. by rewrite b_tables0. Qed.

(** ** Loads and stores *)

Lemma wp_upd32 p f (Q : unit → m32 → Prop) s :
  Q tt (set_xmem <[p := f (rd (x_mem s) p)]> s) → wp (upd32 p f) Q s.
Proof. done. Qed.

Lemma set_xmem_twice a v v' s : set_xmem <[a := v']> (set_xmem <[a := v]> s) = set_xmem <[a := v']> s.
Proof. destruct s. unfold set_xmem. cbn. by rewrite insert_insert_eq. Qed.

(** A run of updates of one word is one store. *)
Lemma wp_upd32_more p f v (Q : unit → m32 → Prop) s :
  Q tt (set_xmem <[p := f v]> s) → wp (upd32 p f) Q (set_xmem <[p := v]> s).
Proof.
  intros HQ. apply wp_upd32. rewrite set_xmem_twice. cbn [x_mem set_xmem]. by rewrite rd_insert, Z.eqb_refl.
Qed.

(** Merge a run of updates of one word into one store. *)
Ltac upd_run :=
  repeat match goal with
  | |- wp (mbind _ (upd32 _ _)) _ _ => apply wp_bind, wp_upd32_more
  | |- wp (mbind _ (mret _)) _ _ => apply wp_bind, wp_ret
  | |- wp (upd32 _ _) _ _ => apply wp_upd32_more
  end.

(** The address of the table's entry. *)
Definition slot (dir : Z) (s : m32) (va : Z) : Z := pte_at (rd (x_mem s) (dir + 4 * di va)) va.

Lemma becomes_slot dir s s' E U va : becomes dir s s' E U → is32 va → has_table dir s va → slot dir s' va = slot dir s va.
Proof. intros [] Hva Ht. unfold slot. by rewrite b_tables0. Qed.

Lemma slot_value dir s va : has_table dir s va → rd (x_mem s) (slot dir s va) = entries dir s va.
Proof. unfold has_table, slot, entries, pte. by intros ->. Qed.

Lemma bm_words_range dir s : inv32 dir s → 0 ≤ bm_words s ≤ 2 ^ 15.
Proof. intros []. split; [apply Z.div_pos|apply Z.div_le_upper_bound]; lia. Qed.

Lemma store_slot dir s va e :
  inv32 dir s → is32 va → is32 e → has_table dir s va →
  becomes dir s (set_xmem <[slot dir s va := e]> s) (set_entry (entries dir s) va e) (used s).
Proof.
  intros Hi Hva He Ht. pose proof (pte_place dir s va Hi Hva Ht) as [Hp _].
  split; [apply inv32_store; [done..|right; unfold slot; lia]|done|..].
  - intros w Hw. by apply pte_store.
  - intros g Hg. apply (used_store_off dir); [done| |done]. unfold slot. lia.
  - intros w Hw _. pose proof (di_bound w Hw). cbn [x_mem set_xmem]. rewrite rd_insert. unfold slot. by bcase.
  - pose proof (bm_words_range dir s Hi). destruct (i_bitmap _ _ Hi) as (_ & _ & ?).
    apply only_above_store; unfold slot; lia.
Qed.

(** ** The frame bitmap *)

Lemma set_bitmap_word dir s f v :
  inv32 dir s → known s f → is32 v →
  becomes dir s (set_xmem <[x_frames s + 4 * BITSET_INDEX f := v]> s) (entries dir s)
    (λ g, if BITSET_INDEX g =? BITSET_INDEX f then Z.testbit v (BITSET_OFFSET g) else used s g).
Proof.
  intros Hi Hf Hv. destruct (known_word dir s f Hi Hf) as [_ Hw].
  split; [apply inv32_store; [done..|left; lia]|done|..].
  - intros w Hw'. apply (pte_store_free dir s); [done|left; lia|done].
  - intros g Hg. apply used_store_on.
  - intros w Hw' _. pose proof (di_bound w Hw'). cbn [x_mem set_xmem]. rewrite rd_insert. by bcase.
  - pose proof (bm_words_range dir s Hi). destruct (known_word dir s f Hi Hf) as [? _]. apply only_above_store; lia.
Qed.

Lemma same_frame f g : BITSET_INDEX g = BITSET_INDEX f → (BITSET_OFFSET g =? BITSET_OFFSET f) = (g =? f).
Proof. intros E. pose proof (frame_split f). pose proof (frame_split g). bcase; lia. Qed.

Lemma wp_set_frame dir s addr (Q : unit → m32 → Prop) :
  inv32 dir s → known s (addr / 0x1000) →
  (∀ s', becomes dir s s' (entries dir s) (set_used (used s) (addr / 0x1000) true) →
     x_placement s' = x_placement s → x_tlb s' = x_tlb s → x_out s' = x_out s → Q tt s') →
  wp (set_frame addr) Q s.
Proof.
  intros Hi Hf HQ. unfold set_frame. apply wp_bind, wp_gets, wp_upd32.
  rewrite (frame_word_eq dir s _ Hi Hf). apply HQ; [|done..].
  pose proof (frame_split (addr / 0x1000)) as [_ Ho].
  eapply becomes_ext; [apply (set_bitmap_word dir s (addr / 0x1000)); [done..|]|done|].
  - apply set_bit_is32; [apply (i_words _ _ Hi)|lia].
  - intros g Hg. unfold set_used, used. pose proof (frame_split g) as [_ Hg'].
    destruct (Z.eqb_spec (BITSET_INDEX g) (BITSET_INDEX (addr / 0x1000))) as [E|E].
    + rewrite testbit_set_bit, same_frame, E by lia. by destruct (g =? addr / 0x1000).
    + by rewrite (proj2 (Z.eqb_neq _ _)) by congruence.
Qed.

Lemma wp_clear_frame dir s addr (Q : unit → m32 → Prop) :
  inv32 dir s → known s (addr / 0x1000) →
  (∀ s', becomes dir s s' (entries dir s) (set_used (used s) (addr / 0x1000) false) →
     x_placement s' = x_placement s → x_tlb s' = x_tlb s → Q tt s') →
  wp (clear_frame addr) Q s.
Proof.
  intros Hi Hf HQ. unfold clear_frame. apply wp_bind, wp_gets, wp_upd32.
  rewrite (frame_word_eq dir s _ Hi Hf). apply HQ; [|done..].
  pose proof (frame_split (addr / 0x1000)) as [_ Ho].
  eapply becomes_ext; [apply (set_bitmap_word dir s (addr / 0x1000)); [done..|]|done|].
  - apply clear_bit_is32; [apply (i_words _ _ Hi)|lia].
  - intros g Hg. unfold set_used, used. pose proof (frame_split g) as [_ Hg'].
    destruct (Z.eqb_spec (BITSET_INDEX g) (BITSET_INDEX (addr / 0x1000))) as [E|E].
    + rewrite testbit_clear_bit, same_frame, E by (lia || apply (i_words _ _ Hi)). by destruct (g =? addr / 0x1000).
    + by rewrite (proj2 (Z.eqb_neq _ _)) by congruence.
Qed.

(** A word with a clear bit is not all ones. *)
Lemma full_word w j : is32 w → w = 0xFFFFFFFF → 0 ≤ j < 32 → Z.testbit w j = true.
Proof. intros _ -> Hj. change 0xFFFFFFFF with (Z.ones 32). by apply Z.ones_spec_low. Qed.

Lemma frame_at i j : 0 ≤ j < 32 → BITSET_INDEX (i * 32 + j) = i ∧ BITSET_OFFSET (i * 32 + j) = j.
Proof.
  intros Hj. unfold BITSET_INDEX, BITSET_OFFSET. split.
  - rewrite Z.div_add_l, Z.div_small by lia. lia.
  - rewrite Z.add_comm, Z.mod_add, Z.mod_small by lia. done.
Qed.

(** The lowest free frame, or [-1] when every frame is used. *)
Definition least_free (s : m32) (r : Z) : Prop :=
  (known s r ∧ used s r = false ∧ ∀ g, 0 ≤ g < r → used s g = true) ∨
  (r = 2 ^ 32 - 1 ∧ ∀ g, known s g → used s g = true).

Lemma first_frame_ok dir s :
  inv32 dir s → wp first_frame (λ r s', s' = s ∧ least_free s r) s.
Proof.
  intros Hi. unfold first_frame. apply wp_bind, wp_gets, wp_bind, wp_gets. destruct (Hi) as [].
  assert (0 ≤ bm_words s ≤ 2 ^ 15) as Hb by (split; [apply Z.div_pos|apply Z.div_le_upper_bound]; lia).
  assert (∀ i, 0 ≤ i < bm_words s → u32 (x_frames s + 4 * i) = x_frames s + 4 * i) as Haddr.
  { intros i Hi'. apply wrap_small. lia. }
  eapply wp_bind_mono.
  - apply (wp_for_find _ 0 _ (λ i t, t = s ∧ ∀ g, 0 ≤ g < 32 * i → used s g = true)
      (λ r t, t = s ∧ known s r ∧ used s r = false ∧ ∀ g, 0 ≤ g < r → used s g = true)); [split; [done|lia]|].
    intros i t Hi' [-> Hlow]. fold (bm_words s) in Hi'. apply wp_bind, wp_gets. rewrite Haddr by lia.
    set (w := rd (x_mem s) (x_frames s + 4 * i)).
    assert (∀ j, 0 ≤ j < 32 → used s (i * 32 + j) = Z.testbit w j) as Hbit.
    { intros j Hj. unfold used. by destruct (frame_at i j Hj) as [-> ->]. }
    destruct (Z.eqb_spec w 0xFFFFFFFF) as [Ew|Ew].
    + apply wp_ret. split; [done|]. intros g Hg. destruct (decide (g < 32 * i)); [apply Hlow; lia|].
      replace g with (i * 32 + (g - 32 * i)) by lia. rewrite Hbit by lia. apply full_word; [apply i_words|done|lia].
    + eapply wp_mono; [apply (wp_for_find _ 0 _ (λ j t, t = s ∧ ∀ g, 0 ≤ g < 32 * i + j → used s g = true)
        (λ r t, t = s ∧ known s r ∧ used s r = false ∧ ∀ g, 0 ≤ g < r → used s g = true))|].
      * split; [done|]. intros g Hg. apply Hlow. lia.
      * intros j t Hj [-> Hlow']. apply wp_bind, wp_gets. fold w. apply wp_ret.
        rewrite land_testbit_pow2, <- Hbit by lia. destruct (used s (i * 32 + j)) eqn:E; cbn [negb].
        -- split; [done|]. intros g Hg. destruct (decide (g = i * 32 + j)) as [->|]; [done|apply Hlow'; lia].
        -- unfold known. rewrite wrap_small by lia. split; [done|].
           split; [lia|]. split; [done|]. intros g Hg. apply Hlow'. lia.
      * cbv beta. intros [r|] t; [done|]. intros [-> H]. split; [done|]. intros g Hg. apply H. lia.
  - cbv beta. intros [r|] t H; apply wp_ret; cbn [default].
    + destruct H as (-> & H). split; [done|]. by left.
    + destruct H as [-> H]. split; [done|]. right. split; [done|]. intros g Hg. apply H.
      unfold known, bm_words in *. lia.
Qed.

(** ** The allocator *)

Lemma align_placement32 pa :
  0 ≤ pa → page_up pa < 2 ^ 32 →
  (if nz (pa .& 0xFFF) then u32 ((pa .& unot 32 0xFFF) + 0x1000) else pa) = page_up pa.
Proof.
  intros H0 Hb. pose proof (page_up_spec pa) as [Hup _].
  assert (pa .& unot 32 0xFFF = pa / 0x1000 * 0x1000) as -> by (apply (land_unot_ones 32 pa 12); lia).
  rewrite land_FFF. unfold nz, page_up in *.
  pose proof (Z.div_mod pa 0x1000 ltac:(lia)). pose proof (Z.mod_pos_bound pa 0x1000 ltac:(lia)).
  destruct (Z.eqb_spec (pa mod 0x1000) 0) as [E|E]; simpl.
  - assert ((pa + 0xFFF) / 0x1000 = pa / 0x1000) as ->; [|lia].
    symmetry. apply (Z.div_unique _ _ _ 0xFFF); lia.
  - assert ((pa + 0xFFF) / 0x1000 = pa / 0x1000 + 1) as Hq.
    { symmetry. apply (Z.div_unique _ _ _ (pa mod 0x1000 - 1)); lia. }
    rewrite Hq in *. rewrite wrap_small; lia.
Qed.

Lemma wp_kmalloc_a sz (Q : Z → m32 → Prop) s :
  0 ≤ x_placement s → 0 ≤ sz → page_up (x_placement s) + sz < 2 ^ 32 →
  Q (page_up (x_placement s)) (set_xplacement (page_up (x_placement s) + sz) s) →
  wp (kmalloc_a sz) Q s.
Proof.
  intros H0 Hsz Hb HQ. pose proof (page_up_spec (x_placement s)) as [Hup _].
  pose proof (align_placement32 (x_placement s) H0 ltac:(lia)) as Ha.
  unfold kmalloc_a. apply wp_bind, wp_gets. destruct (nz _) eqn:E; cbn [when];
    repeat (apply wp_bind; first [apply wp_modify|apply wp_gets|apply wp_ret]); apply wp_ret;
    cbn [x_placement set_xplacement]; rewrite <- Ha in HQ; rewrite (wrap_small 32 (_ + sz)) by lia;
    by destruct s.
Qed.

(** A block of words set to zero. *)
Lemma wp_memset0 p n (Q : unit → m32 → Prop) s :
  0 ≤ p → p + 4 * Z.of_nat n ≤ 2 ^ 32 →
  (∀ m, (∀ j, 0 ≤ j < Z.of_nat n → rd m (p + 4 * j) = 0) →
     (∀ a, a < p ∨ p + 4 * Z.of_nat n ≤ a → rd m a = rd (x_mem s) a) →
     (∀ a, rd m a = 0 ∨ rd m a = rd (x_mem s) a) →
     Q tt (set_xmem (λ _, m) s)) →
  wp (memset0_32 p n) Q s.
Proof.
  intros H0 Hb HQ. unfold memset0_32. eapply wp_mono.
  - apply (wp_for_up _ 0 _ (λ i t, ∃ m, t = set_xmem (λ _, m) s ∧
      (∀ j, 0 ≤ j < i → rd m (p + 4 * j) = 0) ∧
      (∀ a, a < p ∨ p + 4 * i ≤ a → rd m a = rd (x_mem s) a) ∧
      (∀ a, rd m a = 0 ∨ rd m a = rd (x_mem s) a))).
    + exists (x_mem s). split; [by destruct s|]. split; [lia|]. split; [done|]. by right.
    + intros i t Hi (m & -> & Hz & Ho & Hv). rewrite wrap_small by lia. apply wp_modify.
      exists (<[p + 4 * i := 0]> m). split; [done|]. split; [|split]; intros; rewrite rd_insert; bcase;
        first [by left|apply Hz; lia|apply Ho; lia|apply Hv].
  - cbv beta. intros [] t (m & -> & Hz & Ho & Hv). apply HQ; [done..|]. exact Hv.
Qed.

(** ** [get_page] *)

(** There is room for one more table. *)
Definition room (s : m32) : Prop := page_up (x_placement s) + 0x1000 < 2 ^ 32.

Lemma get_page_found dir s va make cr3 :
  inv32 dir s → is32 va → cr3_to_directory cr3 = dir → has_table dir s va →
  get_page va make cr3 s = Ok (slot dir s va, s).
Proof.
  intros Hi Hva Hc Ht. unfold get_page. rewrite Hc. rewrite (pde_at_eq dir s va Hi Hva).
  rewrite (M_bind_Ok _ _ s _ s) by reflexivity. cbv beta iota.
  replace (nz (rd (x_mem s) (dir + 4 * di va) .& PDE_PRESENT)) with true
    by (symmetry; by rewrite (land_testbit_pow2 _ 0)).
  do 2 (rewrite (M_bind_Ok _ _ s _ s) by reflexivity; cbv beta iota; cbn [negb]).
  pose proof (pte_place dir s va Hi Hva Ht) as [Hp _]. unfold mret, M_ret, slot, pte_at, frame_of in *.
  rewrite table_index by done. destruct Hi. rewrite wrap_small; [done|]. cbv zeta in Hp. unfold PDE_PAGE_TABLE_BASE_MASK.
  assert (0 ≤ bm_words s) by (apply Z.div_pos; lia). lia.
Qed.

Lemma get_page_missing dir s va cr3 :
  inv32 dir s → is32 va → cr3_to_directory cr3 = dir → ¬ has_table dir s va →
  get_page va false cr3 s = Ok (0, s).
Proof.
  intros Hi Hva Hc Ht. unfold get_page. rewrite Hc. rewrite (pde_at_eq dir s va Hi Hva).
  rewrite (M_bind_Ok _ _ s _ s) by reflexivity. cbv beta iota.
  replace (nz (rd (x_mem s) (dir + 4 * di va) .& PDE_PRESENT)) with false; [done|].
  symmetry. change PDE_PRESENT with (2 ^ 0). rewrite land_testbit_pow2 by lia. by apply not_true_is_false.
Qed.

(** A directory entry for a new table. *)
Lemma new_pde t :
  is32 t → t mod 0x1000 = 0 →
  let e := t .| PDE_PRESENT .| PDE_READ_WRITE in
  is32 e ∧ frame_of e = t ∧ Z.testbit e 0 = true ∧ Z.testbit e 1 = true ∧ Z.testbit e 2 = false.
Proof.
  intros Ht Hm e. subst e. change PDE_PRESENT with (2 ^ 0). change PDE_READ_WRITE with (2 ^ 1).
  split; [by repeat apply set_bit_is32|]. split.
  { rewrite !frame_set_bit by lia. rewrite frame_of_arith by done. pose proof (Z.div_mod t 0x1000). lia. }
  rewrite !testbit_set_bit by lia. split; [done|]. split; [done|]. cbn [Z.eqb orb].
  apply Z.mod_divide in Hm as [q ->]; [|lia]. change 0x1000 with (2 ^ 12). by apply Z.mul_pow2_bits_low.
Qed.

Section new_table.
Context (dir : Z) (s : m32) (va : Z) (m : gmap Z Z).
Context (Hi : inv32 dir s) (Hva : is32 va) (Hroom : room s).
Context (Hno : Z.testbit (rd (x_mem s) (dir + 4 * di va)) 0 = false).
Local Abbreviation t := (page_up (x_placement s)).
Context (Hz : ∀ j, 0 ≤ j < 1024 → rd m (t + 4 * j) = 0).
Context (Hsame : ∀ a, a < t ∨ t + 0x1000 ≤ a → rd m a = rd (x_mem s) a).
Context (Hval : ∀ a, rd m a = 0 ∨ rd m a = rd (x_mem s) a).

Definition with_table : m32 :=
  set_xmem <[dir + 4 * di va := t .| PDE_PRESENT .| PDE_READ_WRITE]>
    (set_xmem (λ _, m) (set_xplacement (t + 0x1000) s)).

Lemma nt_above : dir + 0x1000 ≤ x_placement s ≤ t ∧ t mod 0x1000 = 0 ∧ is32 t ∧ 0 ≤ dir.
Proof using Hi Hroom.
  pose proof (page_up_spec (x_placement s)) as [Hu Hm]. destruct (i_dir _ _ Hi) as [_ Hd].
  destruct (i_bitmap _ _ Hi) as (? & _ & ?). pose proof (i_nframes _ _ Hi).
  assert (0 ≤ bm_words s) by (apply Z.div_pos; lia). unfold room, is32 in *. lia.
Qed.

Lemma nt_pde i : 0 ≤ i < 1024 →
  rd (x_mem with_table) (dir + 4 * i) =
  if i =? di va then t .| PDE_PRESENT .| PDE_READ_WRITE else rd (x_mem s) (dir + 4 * i).
Proof using Hi Hroom Hsame.
  intros H. pose proof nt_above as (Ha & _). unfold with_table. cbn [x_mem set_xmem]. rewrite rd_insert.
  bcase; apply Hsame; lia.
Qed.

Lemma nt_low a : a < t → (a < dir ∨ dir + 0x1000 ≤ a) → rd (x_mem with_table) a = rd (x_mem s) a.
Proof using Hsame Hva.
  intros H Ha. pose proof (di_bound va Hva). unfold with_table. cbn [x_mem set_xmem]. rewrite rd_insert.
  bcase. apply Hsame. lia.
Qed.

Lemma nt_inv : inv32 dir with_table.
Proof using All.
  pose proof nt_above as (Ha & Hm & H32 & H0).
  destruct (new_pde t H32 Hm) as (E1 & E2 & E3 & E4 & E5). pose proof (di_bound va Hva) as Hd.
  destruct (Hi) as []. unfold room in Hroom.
  split; try done.
  - intros a. unfold with_table. cbn [x_mem set_xmem]. rewrite rd_insert. bcase; [done|].
    destruct (Hval a) as [->| ->]; [done|apply i_words].
  - cbn [x_placement with_table set_xmem set_xplacement]. lia.
  - intros i Hr. rewrite nt_pde by done. cbn [x_placement with_table set_xmem set_xplacement].
    bcase; [rewrite E2; intros _; lia || (repeat split; try done; lia)|].
    intros Hp. destruct (i_tables i Hr Hp) as (? & ? & ? & ?). repeat split; try done. lia.
  - intros i j Hri Hrj Hne. rewrite !nt_pde by done. bcase; rewrite ?E2; try (intros; lia).
    + intros _ Hp. destruct (i_tables j Hrj Hp). lia.
    + intros Hp _. destruct (i_tables i Hri Hp). lia.
    + intros. by apply i_apart.
Qed.

Lemma nt_becomes : becomes dir s with_table (entries dir s) (used s).
Proof using All.
  pose proof nt_above as (Ha & Hm & H32 & H0). destruct (new_pde t H32 Hm) as (E1 & E2 & E3 & _).
  pose proof (di_bound va Hva) as Hd. split; [apply nt_inv|done|..].
  - intros w Hw. pose proof (di_bound w Hw) as Hdw. pose proof (ti_bound w) as Htw.
    unfold entries, pte. rewrite nt_pde by done. destruct (Z.eqb_spec (di w) (di va)) as [E|E].
    + rewrite E, Hno, E3. unfold pte_at. rewrite E2. unfold with_table. cbn [x_mem set_xmem].
      rewrite rd_insert. bcase. apply Hz. lia.
    + cbv iota. destruct (Z.testbit (rd (x_mem s) (dir + 4 * di w)) 0) eqn:Hp; [|done].
      destruct (pte_place dir s w Hi Hw Hp) as [Hpl _]. apply nt_low; lia.
  - intros g Hg. destruct (known_word dir s g Hi Hg) as [_ Hk]. unfold used.
    change (x_frames with_table) with (x_frames s). rewrite nt_low by lia. done.
  - intros w Hw Ht. pose proof (di_bound w Hw). rewrite nt_pde by done. destruct (Z.eqb_spec (di w) (di va)) as [E|]; [|done].
    unfold has_table in Ht. rewrite E in Ht. congruence.
  - split; [cbn; lia|]. pose proof (bm_words_range dir s Hi). destruct (i_bitmap _ _ Hi) as (_ & _ & ?).
    intros a Hab. cbn [x_placement with_table set_xmem set_xplacement] in Hab. unfold with_table. cbn [x_mem set_xmem].
    rewrite rd_insert. bcase. apply Hsame. lia.
Qed.
End new_table.

Lemma get_page_make dir s va cr3 (Q : Z → m32 → Prop) :
  inv32 dir s → is32 va → cr3_to_directory cr3 = dir → room s →
  (∀ s', becomes dir s s' (entries dir s) (used s) → has_table dir s' va →
     x_tlb s' = x_tlb s → x_placement s ≤ x_placement s' →
     (has_table dir s va ∧ x_placement s' = x_placement s ∨
      ¬ has_table dir s va ∧ x_placement s' = page_up (x_placement s) + 0x1000) →
     x_out s' = x_out s → Q (slot dir s' va) s') →
  wp (get_page va true cr3) Q s.
Proof.
  intros Hi Hva Hc Hroom HQ. destruct (Z.testbit (rd (x_mem s) (dir + 4 * di va)) 0) eqn:E.
  { eapply wp_intro; [by apply (get_page_found dir)|]. apply HQ; try done. by left. }
  unfold get_page. rewrite Hc, (pde_at_eq dir s va Hi Hva). apply wp_bind, wp_gets.
  replace (nz (rd (x_mem s) (dir + 4 * di va) .& PDE_PRESENT)) with false
    by (symmetry; by rewrite (land_testbit_pow2 _ 0)). cbn [negb].
  pose proof (nt_above dir s Hi Hroom) as (Ha & Hm & H32 & H0). unfold room in Hroom.
  apply wp_bind, wp_bind, wp_kmalloc_a; [lia..|]. apply wp_bind, wp_memset0; [lia|lia|].
  intros m Hz Hsame Hval. apply wp_bind, wp_modify, wp_ret. cbn [negb]. apply wp_bind, wp_gets.
  set (s' := set_xmem _ _).
  assert (becomes dir s s' (entries dir s) (used s)) as Hb by (by apply nt_becomes).
  assert (has_table dir s' va) as Ht.
  { unfold has_table, s'. cbn [x_mem set_xmem]. rewrite rd_insert, Z.eqb_refl. by apply new_pde. }
  pose proof (pte_place dir s' va (b_inv _ _ _ _ _ Hb) Hva Ht) as [Hp _].
  pose proof (i_dir _ _ (b_inv _ _ _ _ _ Hb)) as [_ Hpl].
  rewrite table_index by done. apply wp_ret.
  change PDE_PAGE_TABLE_BASE_MASK with 0xFFFFF000. fold (frame_of (rd (x_mem s') (dir + 4 * di va))).
  fold (pte_at (rd (x_mem s') (dir + 4 * di va)) va). fold (slot dir s' va). fold (slot dir s' va) in Hp.
  rewrite wrap_small by lia. apply HQ; try done; [cbn; lia|right]. split; [|done].
  unfold has_table. by rewrite E.
Qed.
