(* ===== verification/I386PagingProps.v ===== *)
(** * The theorems about 32-bit paging *)

From S2P Require Import Prelude Loops Mm I386Paging I386Walk I386Ops.

(** ** Mapping one page *)

Lemma frame_of_page va : is32 va → is32 (frame_of va) ∧ frame_of va / 0x1000 = va / 0x1000.
Proof.
  intros Hva. destruct (frame_of_spec va Hva) as [_ Hb]. split; [unfold is32; lia|].
  by rewrite frame_of_arith, Z.div_mul by (done || lia).
Qed.

(** The entry [map_page] makes of an old one. *)
Definition mapped_entry (iskernel writeable : bool) (f e : Z) : Z :=
  let e := PTE_SET_PRESENT (PTE_SET_FRAME e f) in
  let e := if writeable then PTE_SET_WRITABLE e else PTE_CLEAR_WRITABLE e in
  if iskernel then e else PTE_SET_USER e.

Lemma mapped_entry_spec iskernel writeable f e :
  is32 e → 0 ≤ f < 2 ^ 20 →
  is32 (mapped_entry iskernel writeable f e) ∧
  decode (mapped_entry iskernel writeable f e) = Some (f * 0x1000, writeable, false).
Proof.
  intros He Hf. unfold mapped_entry, PTE_SET_PRESENT, PTE_SET_WRITABLE, PTE_CLEAR_WRITABLE, PTE_SET_USER.
  change PTE_PRESENT with (2 ^ 0). change PTE_READ_WRITE with (2 ^ 1). change PTE_USER_SUPERVISOR with (2 ^ 2).
  pose proof (set_frame_is32 e f He Hf) as H1. pose proof (set_frame_frame e f He Hf) as F1.
  set (e1 := PTE_SET_FRAME e f) in *. pose proof (set_bit_is32 e1 0 H1 ltac:(lia)) as H2.
  assert (∀ x, is32 x → is32 (if iskernel then x else x .| 2 ^ 2) ∧
    decode (if iskernel then x else x .| 2 ^ 2) = decode x) as Hk.
  { intros x Hx. destruct iskernel; [done|]. split; [by apply set_bit_is32|].
    unfold decode. rewrite !testbit_set_bit, frame_set_bit by lia. done. }
  destruct writeable.
  - destruct (Hk (e1 .| 2 ^ 0 .| 2 ^ 1)) as [Ha Hb]; [by apply set_bit_is32|]. split; [done|].
    rewrite Hb. unfold decode. rewrite !testbit_set_bit, !frame_set_bit by lia. by rewrite F1.
  - destruct (Hk ((e1 .| 2 ^ 0) .& unot 32 (2 ^ 1))) as [Ha Hb]; [by apply clear_bit_is32|]. split; [done|].
    rewrite Hb. unfold decode. rewrite !testbit_clear_bit, !testbit_set_bit, frame_clear_bit, frame_set_bit by (done || lia).
    by rewrite F1.
Qed.

Lemma page_pos dir s va : inv32 dir s → is32 va → has_table dir s va → slot dir s va ≠ 0.
Proof.
  intros Hi Hva Ht. pose proof (pte_place dir s va Hi Hva Ht) as [Hp _]. destruct Hi.
  assert (0 ≤ bm_words s) by (apply Z.div_pos; lia). unfold slot. cbv zeta in Hp. lia.
Qed.

Lemma becomes_tlb dir s s' f E U : becomes dir s s' E U → becomes dir s (set_xtlb f s') E U.
Proof. intros [[] ? ? ? ? []]. split; [split|..|split]; assumption. Qed.

(** Writing the entry of a page, then marking a frame. *)
Lemma becomes_entry_used dir s s1 s2 va e f :
  becomes dir s s1 (set_entry (entries dir s) va e) (used s) →
  becomes dir s1 s2 (entries dir s1) (set_used (used s1) f true) →
  becomes dir s s2 (set_entry (entries dir s) va e) (set_used (used s) f true).
Proof.
  intros H1 H2. eapply becomes_ext; [eapply becomes_trans, H2|..].
  - by destruct H1.
  - intros w Hw. apply (b_pte _ _ _ _ _ H1 w Hw).
  - intros g Hg. unfold set_used. by rewrite (b_used _ _ _ _ _ H1 g Hg).
Qed.

Lemma map_page32_ok dir s va pa iskernel writeable cr3 :
  inv32 dir s → is32 va → is32 pa → cr3_to_directory cr3 = dir → room s → known s (pa / 0x1000) →
  wp (map_page va pa iskernel writeable cr3) (λ _ s',
    (∃ e, becomes dir s s' (set_entry (entries dir s) va e) (set_used (used s) (pa / 0x1000) true) ∧
       decode e = Some (frame_of pa, writeable, false)) ∧
    x_tlb s' = base.delete (va / 0x1000 * 0x1000) (x_tlb s) ∧
    x_placement s ≤ x_placement s' ≤ page_up (x_placement s) + 0x1000 ∧ x_out s' = x_out s) s.
Proof.
  intros Hi Hva Hpa Hc Hroom Hk. unfold map_page.
  change (va .& 0xFFFFF000) with (frame_of va). change (pa .& 0xFFFFF000) with (frame_of pa).
  destruct (frame_of_page va Hva) as [Hfv Ev]. destruct (frame_of_page pa Hpa) as [Hfp Ep].
  apply wp_bind, (get_page_make dir); [done..|]. intros s1 Hb1 Ht1 Htlb1 Hle Hpl Hout1.
  assert (x_placement s ≤ x_placement s1 ≤ page_up (x_placement s) + 0x1000) as Hp1.
  { pose proof (page_up_spec (x_placement s)). lia. }
  pose proof (b_inv _ _ _ _ _ Hb1) as Hi1.
  rewrite (proj2 (Z.eqb_neq _ _)) by (by apply page_pos).
  set (e0 := entries dir s1 (frame_of va)).
  set (e := mapped_entry iskernel writeable (frame_of pa / 0x1000) e0).
  assert (0 ≤ pa / 0x1000 < 2 ^ 20) as Hf.
  { destruct Hpa. split; [apply Z.div_pos; lia|apply Z.div_lt_upper_bound; lia]. }
  destruct (mapped_entry_spec iskernel writeable (frame_of pa / 0x1000) e0) as [He Hdec];
    [by apply (pte_is32 dir)|by rewrite Ep|]. fold e in He, Hdec.
  assert (∀ s2 : m32, becomes dir s1 s2 (set_entry (entries dir s1) (frame_of va) e) (used s1) → x_tlb s2 = x_tlb s →
    x_placement s2 = x_placement s1 → x_out s2 = x_out s1 →
    wp (set_frame (frame_of pa) ;; invalidate_page (frame_of va)) (λ _ s',
      (∃ e, becomes dir s s' (set_entry (entries dir s) va e) (set_used (used s) (pa / 0x1000) true) ∧
         decode e = Some (frame_of pa, writeable, false)) ∧
      x_tlb s' = base.delete (va / 0x1000 * 0x1000) (x_tlb s) ∧
      x_placement s ≤ x_placement s' ≤ page_up (x_placement s) + 0x1000 ∧ x_out s' = x_out s) s2) as Hend.
  { intros s2 Hb2 Htlb2 Hpl2 Hout2. apply wp_bind, (wp_set_frame dir); [by destruct Hb2|..].
    { rewrite Ep. apply (regs_known s); [|done]. rewrite (b_regs _ _ _ _ _ Hb2). by destruct Hb1. }
    intros s3 Hb3 Hpl3 Htlb3 Hout3. apply wp_modify. rewrite Ep in Hb3.
    split; [|cbn; rewrite Ev, Htlb3, Htlb2, Hpl3, Hpl2, Hout3, Hout2; done].
    exists e. split; [|by rewrite Hdec, Ep, frame_of_arith by done].
    apply becomes_tlb. eapply becomes_ext; [eapply becomes_trans; [|by eapply becomes_entry_used]; by destruct Hb1|..].
    - intros w Hw. unfold set_entry. rewrite Ev. case_match; [done|]. apply (b_pte _ _ _ _ _ Hb1 w Hw).
    - intros g Hg. unfold set_used. by rewrite (b_used _ _ _ _ _ Hb1 g Hg). }
  assert (becomes dir s1 (set_xmem <[slot dir s1 (frame_of va) := e]> s1)
    (set_entry (entries dir s1) (frame_of va) e) (used s1)) as Hb2 by (by apply store_slot).
  apply wp_bind, wp_upd32. rewrite slot_value by done. fold e0.
  apply wp_bind, wp_upd32_more.
  destruct iskernel, writeable; cbn [negb when];
    upd_run; (apply Hend; [exact Hb2|done..]).
Qed.

(** ** Translations *)

(** Every cached translation is the one the tables give. *)
Definition tlb_ok (dir : Z) (s : m32) : Prop :=
  ∀ w t, x_tlb s !! w = Some t → is32 w ∧ w mod 0x1000 = 0 ∧ walk (x_mem s) dir w = Some t.

Lemma becomes_walk dir s s' E U w : becomes dir s s' E U → is32 w → walk (x_mem s') dir w = decode (E w).
Proof. intros [] Hw. by rewrite (walk_pte dir), b_pte. Qed.

Lemma becomes_walk_entry dir s s' va e U w :
  inv32 dir s → becomes dir s s' (set_entry (entries dir s) va e) U → is32 w →
  walk (x_mem s') dir w = if w / 0x1000 =? va / 0x1000 then decode e else walk (x_mem s) dir w.
Proof.
  intros Hi Hb Hw. rewrite (becomes_walk _ _ _ _ _ _ Hb Hw). unfold set_entry.
  rewrite (walk_pte dir s) by done. by case_match.
Qed.

(** A changed entry whose page is dropped from the TLB leaves no stale translation. *)
Lemma tlb_ok_entry dir s s' va e U :
  inv32 dir s → becomes dir s s' (set_entry (entries dir s) va e) U →
  x_tlb s' = base.delete (va / 0x1000 * 0x1000) (x_tlb s) → tlb_ok dir s → tlb_ok dir s'.
Proof.
  intros Hi Hb Ht Hok w t. rewrite Ht. intros [Hne Hw]%lookup_delete_Some.
  destruct (Hok w t Hw) as (Hw32 & Hm & Hwalk). split; [done|]. split; [done|].
  rewrite (becomes_walk_entry dir s s' va e U w Hi Hb Hw32). rewrite (proj2 (Z.eqb_neq _ _)); [done|].
  intros E. apply Hne. rewrite <- E. pose proof (Z.div_mod w 0x1000). lia.
Qed.

(** C26: [map_page] on 32-bit paging, for a physical address below the end of the memory the frame
    bitmap covers (64 MiB; [set_frame] does not check, and a larger address would make it write
    behind the bitmap), with room in the heap for a page table.  Afterwards the page translates to the frame with the write
    right asked for, no other translation changes, the frame is marked used and no other, and the
    TLB holds no stale translation.  The page is closed to user accesses whatever [iskernel] says,
    because the directory entries [get_page] makes never allow them. *)
Theorem map_page32_correct dir s va pa iskernel writeable cr3 :
  inv32 dir s → is32 va → is32 pa → cr3_to_directory cr3 = dir → room s → known s (pa / 0x1000) →
  wp (map_page va pa iskernel writeable cr3) (λ _ s',
    inv32 dir s' ∧
    (∀ w, is32 w → walk (x_mem s') dir w =
       if w / 0x1000 =? va / 0x1000 then Some (frame_of pa, writeable, false)
       else walk (x_mem s) dir w) ∧
    (∀ g, known s g → used s' g = (g =? pa / 0x1000) || used s g) ∧
    (tlb_ok dir s → tlb_ok dir s')) s.
Proof.
  intros Hi Hva Hpa Hc Hroom Hk. eapply wp_mono; [by apply (map_page32_ok dir)|]. cbv beta.
  intros _ s' ((e & Hb & Hd) & Ht & _). split; [by destruct Hb|]. split; [|split].
  - intros w Hw. rewrite (becomes_walk_entry dir s s' va e _ w Hi Hb Hw). by rewrite Hd.
  - intros g Hg. rewrite (b_used _ _ _ _ _ Hb g Hg). unfold set_used. by case_match.
  - by eapply tlb_ok_entry.
Qed.

(** ** Looking up and unmapping *)

Lemma mapped_iff dir s va :
  inv32 dir s → is32 va → is_Some (walk (x_mem s) dir va) ↔
    has_table dir s va ∧ Z.testbit (entries dir s va) 0 = true.
Proof.
  intros Hi Hva. rewrite (walk_pte dir) by done. unfold has_table, entries, decode, pte.
  destruct (Z.testbit (rd (x_mem s) (dir + 4 * di va)) 0) eqn:E.
  - set (e := rd (x_mem s) (pte_at _ _)). destruct (Z.testbit e 0); unfold is_Some; naive_solver.
  - rewrite Z.bits_0. unfold is_Some; naive_solver.
Qed.

(** [is_page_mapped] tells whether the processor finds a translation, and changes nothing. *)
Theorem is_page_mapped_correct dir s va cr3 :
  inv32 dir s → is32 va → cr3_to_directory cr3 = dir →
  is_page_mapped va cr3 s = Ok (bool_decide (is_Some (walk (x_mem s) dir va)), s).
Proof.
  intros Hi Hva Hc. unfold is_page_mapped. destruct (decide (has_table dir s va)) as [Ht|Ht].
  - rewrite (M_bind_Ok _ _ _ _ _ (get_page_found dir s va false cr3 Hi Hva Hc Ht)).
    rewrite (proj2 (Z.eqb_neq _ _)) by (by apply page_pos). rewrite (M_bind_Ok _ _ s _ s) by reflexivity.
    rewrite slot_value by done. change PTE_PRESENT with (2 ^ 0). rewrite land_testbit_pow2 by lia.
    unfold mret, M_ret. do 2 f_equal. pose proof (mapped_iff dir s va Hi Hva) as Hm.
    destruct (Z.testbit _ 0); symmetry; [apply bool_decide_eq_true_2|apply bool_decide_eq_false_2]; naive_solver.
  - rewrite (M_bind_Ok _ _ _ _ _ (get_page_missing dir s va cr3 Hi Hva Hc Ht)).
    unfold mret, M_ret. rewrite bool_decide_eq_false_2; [done|]. rewrite (mapped_iff dir) by done. naive_solver.
Qed.

(** [unmap_page] on the directory in [cr3] returns the frame the page was mapped to, or 0 when
    it was not mapped; afterwards the page has no translation, every other one is unchanged, the
    frame keeps its mark, the TLB holds no stale translation, and nothing else changes. *)
Theorem unmap_page32_correct dir s va cr3 :
  inv32 dir s → is32 va → cr3_to_directory cr3 = dir → x_cr3 s = cr3 →
  wp (unmap_page va cr3) (λ r s',
    r = (if walk (x_mem s) dir va is Some (f, _, _) then f else 0) ∧
    inv32 dir s' ∧
    (∀ w, is32 w → walk (x_mem s') dir w =
       if w / 0x1000 =? va / 0x1000 then None else walk (x_mem s) dir w) ∧
    (∀ g, known s g → used s' g = used s g) ∧
    (tlb_ok dir s → tlb_ok dir s') ∧
    regs s' = regs s ∧ x_placement s' = x_placement s ∧ x_out s' = x_out s) s.
Proof.
  intros Hi Hva Hc Hcr. unfold unmap_page. change (va .& 0xFFFFF000) with (frame_of va).
  destruct (frame_of_page va Hva) as [Hfv Ev].
  assert (walk (x_mem s) dir va = walk (x_mem s) dir (frame_of va)) as Esame.
  { unfold walk, pte_at, ti. apply same_page in Ev as [-> Et]. unfold ti in Et. by rewrite Et. }
  assert (walk (x_mem s) dir va = None → ∀ w, is32 w → walk (x_mem s) dir w =
    if w / 0x1000 =? va / 0x1000 then None else walk (x_mem s) dir w) as Hnone.
  { intros Hn w Hw. destruct (Z.eqb_spec (w / 0x1000) (va / 0x1000)) as [E|]; [|done]. rewrite <- Hn.
    apply same_page in E as [E1 E2]. unfold walk, pte_at. by rewrite E1, E2. }
  pose proof (mapped_iff dir s (frame_of va) Hi Hfv) as Hm. rewrite <- Esame in Hm.
  destruct (decide (has_table dir s (frame_of va))) as [Ht|Ht].
  2: { apply wp_bind. eapply wp_intro; [by apply (get_page_missing dir)|]. apply wp_ret.
    destruct (walk (x_mem s) dir va) as [p|] eqn:E; [naive_solver|].
    split; [done|]. split; [done|]. split; [by apply Hnone|done]. }
  apply wp_bind. eapply wp_intro; [by apply (get_page_found dir)|].
  rewrite (proj2 (Z.eqb_neq _ _)) by (by apply page_pos). apply wp_bind, wp_gets.
  rewrite slot_value by done. change PTE_PRESENT with (2 ^ 0). rewrite land_testbit_pow2 by lia.
  destruct (Z.testbit (entries dir s (frame_of va)) 0) eqn:Hp; cbn [negb].
  2: { apply wp_ret. destruct (walk (x_mem s) dir va) as [p|] eqn:E; [naive_solver|].
    split; [done|]. split; [done|]. split; [by apply Hnone|done]. }
  apply wp_bind, wp_modify, wp_bind, wp_gets. cbn [x_cr3 set_xmem]. rewrite Hcr, Z.eqb_refl. cbn [when].
  apply wp_bind, wp_modify, wp_ret. pose proof (store_slot dir s (frame_of va) 0 Hi Hfv ltac:(done) Ht) as Hb.
  set (s1 := set_xmem _ s) in *.
  apply (becomes_tlb _ _ _ (base.delete (frame_of va / 0x1000 * 0x1000))) in Hb.
  split; [|split; [by destruct Hb|split; [|split]]].
  - rewrite Esame, (walk_pte dir) by done. unfold decode, entries in *. by rewrite Hp.
  - intros w Hw. rewrite (becomes_walk_entry _ _ _ _ _ _ _ Hi Hb Hw), Ev. done.
  - apply (b_used _ _ _ _ _ Hb).
  - split; [eapply tlb_ok_entry; done|done].
Qed.

(** ** Allocating and freeing frames *)

Lemma get_frame_value e : is32 e → PTE_GET_FRAME e = frame_of e / 0x1000 ∧ frame_of e = PTE_GET_FRAME e * 0x1000.
Proof.
  intros He. unfold PTE_GET_FRAME. change (e .& PTE_FRAME_MASK) with (frame_of e).
  rewrite Z.shiftr_div_pow2 by lia. change (2 ^ 12) with 0x1000. split; [done|].
  destruct (frame_of_spec e He) as [Hm _]. pose proof (Z.div_mod (frame_of e) 0x1000). lia.
Qed.

Lemma known_small dir s f : inv32 dir s → known s f → 0 ≤ f < 2 ^ 20.
Proof.
  intros Hi [H0 H1]. destruct (i_nframes _ _ Hi). unfold bm_words, BITSET_INDEX in *.
  pose proof (Z.mul_div_le (x_nframes s) 32). lia.
Qed.

(** The entry [alloc_frame] makes of an old one. *)
Definition alloc_entry (iskernel writeable : bool) (f e : Z) : Z :=
  let e := PTE_SET_PRESENT e in
  let e := if writeable then PTE_SET_WRITABLE e else e in
  PTE_SET_FRAME (if iskernel then e else PTE_SET_USER e) f.

Lemma alloc_entry_spec iskernel writeable f e :
  is32 e → 0 ≤ f < 2 ^ 20 →
  is32 (alloc_entry iskernel writeable f e) ∧
  decode (alloc_entry iskernel writeable f e) = Some (f * 0x1000, writeable || Z.testbit e 1, false).
Proof.
  intros He Hf. unfold alloc_entry, PTE_SET_PRESENT, PTE_SET_WRITABLE, PTE_SET_USER.
  change PTE_PRESENT with (2 ^ 0). change PTE_READ_WRITE with (2 ^ 1). change PTE_USER_SUPERVISOR with (2 ^ 2).
  match goal with |- is32 (PTE_SET_FRAME ?x f) ∧ _ => set (x' := x) end.
  assert (is32 x' ∧ Z.testbit x' 0 = true ∧ Z.testbit x' 1 = writeable || Z.testbit e 1) as (Hx & H0 & H1).
  { subst x'. destruct writeable, iskernel; (split; [by repeat apply set_bit_is32|]);
      by rewrite !testbit_set_bit by lia. }
  split; [by apply set_frame_is32|]. unfold decode.
  by rewrite !set_frame_flag, set_frame_frame, H0, H1 by (done || lia).
Qed.

Lemma alloc_frame_ok dir s va iskernel writeable f :
  inv32 dir s → is32 va → has_table dir s va → frame_of (entries dir s va) = 0 →
  known s f → used s f = false → (∀ g, 0 ≤ g < f → used s g = true) →
  wp (alloc_frame (slot dir s va) iskernel writeable) (λ _ s',
    becomes dir s s' (set_entry (entries dir s) va (alloc_entry iskernel writeable f (entries dir s va)))
      (set_used (used s) f true) ∧
    slot dir s' va = slot dir s va ∧ x_tlb s' = x_tlb s ∧ x_placement s' = x_placement s ∧ has_table dir s' va) s.
Proof.
  intros Hi Hva Ht He Hk Hu Hl. pose proof (known_small dir s f Hi Hk) as Hf. unfold alloc_frame.
  apply wp_bind, wp_gets. rewrite slot_value by done. set (e := entries dir s va) in *.
  assert (is32 e) as He32 by (by apply (pte_is32 dir)).
  destruct (get_frame_value e He32) as [-> _]. rewrite He. change (nz (0 / 0x1000)) with false. cbv iota.
  eapply wp_bind_mono; [by apply (first_frame_ok dir)|]. cbv beta. intros idx s0 [-> [(Hk' & Hu' & Hl')|[-> Hall]]].
  2: { rewrite Hall in Hu by done. done. }
  assert (idx = f) as ->.
  { destruct (Z.lt_trichotomy idx f) as [|[|]]; [|done|].
    - rewrite Hl in Hu' by (unfold known in *; lia). done.
    - rewrite Hl' in Hu by (unfold known in *; lia). done. }
  rewrite (proj2 (Z.eqb_neq f _)) by lia. rewrite (wrap_small 32) by lia.
  apply wp_bind, (wp_set_frame dir); [done|by rewrite Z.div_mul by lia|].
  rewrite Z.div_mul by lia. intros s1 Hb1 Hpl1 Htlb1 _. pose proof (b_inv _ _ _ _ _ Hb1) as Hi1.
  pose proof (becomes_has_table _ _ _ _ _ va Hb1 Hva Ht) as Ht1.
  pose proof (becomes_slot _ _ _ _ _ va Hb1 Hva Ht) as Hs1.
  assert (entries dir s1 va = e) as He1 by (by apply (b_pte _ _ _ _ _ Hb1)).
  destruct (alloc_entry_spec iskernel writeable f e He32 Hf) as [Hv _]. set (v := alloc_entry _ _ f e) in *.
  pose proof (store_slot dir s1 va v Hi1 Hva Hv Ht1) as Hb2. rewrite Hs1 in Hb2.
  assert (becomes dir s (set_xmem <[slot dir s va := v]> s1) (set_entry (entries dir s) va v) (set_used (used s) f true)) as Hb.
  { eapply becomes_ext; [eapply becomes_trans, Hb2; by destruct Hb1|..].
    - intros w Hw. unfold set_entry. case_match; [done|]. apply (b_pte _ _ _ _ _ Hb1 w Hw).
    - apply (b_used _ _ _ _ _ Hb1). }
  assert (rd (x_mem s1) (slot dir s va) = e) as Hrd by (rewrite <- Hs1, <- He1; by apply slot_value).
  apply wp_bind, wp_upd32. rewrite Hrd.
  destruct iskernel, writeable; cbn [negb when];
    upd_run;
    (split; [exact Hb|]); (split; [by apply (becomes_slot _ _ _ _ _ va Hb)|]);
    (split; [done|]); (split; [done|]); by apply (becomes_has_table _ _ _ _ _ va Hb).
Qed.

(** The outcomes of [alloc_frame].  A page that has a frame is left alone.  Without a free frame
    the processor is stopped.  Otherwise the page gets the lowest free frame, which is marked used;
    every other page and frame stays as it was. *)
Theorem alloc_frame_correct dir s va iskernel writeable :
  inv32 dir s → is32 va → has_table dir s va →
  let e := entries dir s va in
  let page := slot dir s va in
  (frame_of e ≠ 0 → alloc_frame page iskernel writeable s = Ok (tt, s)) ∧
  (frame_of e = 0 → (∀ g, known s g → used s g = true) → alloc_frame page iskernel writeable s = Halt) ∧
  (∀ f, frame_of e = 0 → known s f → used s f = false → (∀ g, 0 ≤ g < f → used s g = true) →
     wp (alloc_frame page iskernel writeable) (λ _ s',
       inv32 dir s' ∧
       (∀ w, is32 w → walk (x_mem s') dir w =
          if w / 0x1000 =? va / 0x1000 then Some (f * 0x1000, writeable || Z.testbit e 1, false)
          else walk (x_mem s) dir w) ∧
       ∀ g, known s g → used s' g = (g =? f) || used s g) s).
Proof.
  intros Hi Hva Ht e page. assert (is32 e) as He by (by apply (pte_is32 dir)).
  destruct (get_frame_value e He) as [E1 E2]. subst page.
  assert (alloc_frame (slot dir s va) iskernel writeable s =
    (if nz (PTE_GET_FRAME e) then mret tt else
     idx ← first_frame;
     if idx =? 2 ^ 32 - 1 then say "kernel panic: no free frames! :O" [] ;; halt
     else set_frame (u32 (idx * 0x1000)) ;; upd32 (slot dir s va) PTE_SET_PRESENT ;;
       when writeable (upd32 (slot dir s va) PTE_SET_WRITABLE) ;;
       when (negb iskernel) (upd32 (slot dir s va) PTE_SET_USER) ;;
       upd32 (slot dir s va) (λ e, PTE_SET_FRAME e idx)) s) as Estep.
  { unfold alloc_frame. rewrite (M_bind_Ok _ _ s _ s) by reflexivity. by rewrite slot_value. }
  split; [|split].
  - intros Hne. rewrite Estep. unfold nz. by rewrite (proj2 (Z.eqb_neq _ _)) by lia.
  - intros H0 Hall. rewrite Estep. unfold nz. rewrite (proj2 (Z.eqb_eq _ _)) by lia. cbn [negb].
    pose proof (first_frame_ok dir s Hi) as (r & s' & Hr & -> & Hf)%wp_inv.
    rewrite (M_bind_Ok _ _ _ _ _ Hr). destruct Hf as [(Hk & Hu & _)|[-> _]]; [|done].
    rewrite Hall in Hu by done. done.
  - intros f H0 Hk Hu Hl. eapply wp_mono; [by apply (alloc_frame_ok dir s va iskernel writeable f)|].
    cbv beta. intros _ s' (Hb & _). split; [by destruct Hb|].
    destruct (alloc_entry_spec iskernel writeable f e He (known_small dir s f Hi Hk)) as [_ Hd]. split.
    + intros w Hw. rewrite (becomes_walk_entry dir s s' va _ _ w Hi Hb Hw). fold e. by rewrite Hd.
    + intros g Hg. rewrite (b_used _ _ _ _ _ Hb g Hg). unfold set_used. by case_match.
Qed.

Lemma free_frame_ok dir s va :
  inv32 dir s → is32 va → has_table dir s va → frame_of (entries dir s va) ≠ 0 →
  known s (frame_of (entries dir s va) / 0x1000) →
  wp (free_frame (slot dir s va)) (λ _ s',
    becomes dir s s' (set_entry (entries dir s) va 0)
      (set_used (used s) (frame_of (entries dir s va) / 0x1000) false)) s.
Proof.
  intros Hi Hva Ht Hne Hk. unfold free_frame. apply wp_bind, wp_gets. rewrite slot_value by done.
  set (e := entries dir s va) in *. assert (is32 e) as He by (by apply (pte_is32 dir)).
  destruct (get_frame_value e He) as [E1 E2]. destruct (frame_of_spec e He) as [_ Hb].
  rewrite (proj2 (Z.eqb_neq _ _)) by lia. rewrite (wrap_small 32) by lia. rewrite <- E2.
  apply wp_bind, (wp_clear_frame dir); [done..|]. intros s1 Hb1 _ _. apply wp_modify.
  pose proof (becomes_has_table _ _ _ _ _ va Hb1 Hva Ht) as Ht1.
  rewrite <- (becomes_slot _ _ _ _ _ va Hb1 Hva Ht).
  eapply becomes_ext; [eapply becomes_trans; [|apply (store_slot dir s1 va 0); try done]|..].
  - by destruct Hb1.
  - by destruct Hb1.
  - intros w Hw. unfold set_entry. case_match; [done|]. apply (b_pte _ _ _ _ _ Hb1 w Hw).
  - apply (b_used _ _ _ _ _ Hb1).
Qed.

(** Allocating a frame for an empty page and freeing it again restores every translation and
    every mark, except for frame 0, which [free_frame] takes for no frame: it stays mapped and
    used. *)
Theorem alloc_free_roundtrip dir s va iskernel writeable f :
  inv32 dir s → is32 va → has_table dir s va → entries dir s va = 0 →
  known s f → used s f = false → (∀ g, 0 ≤ g < f → used s g = true) →
  wp (alloc_frame (slot dir s va) iskernel writeable ;; free_frame (slot dir s va)) (λ _ s',
    inv32 dir s' ∧
    (∀ w, is32 w → walk (x_mem s') dir w =
       if (f =? 0) && (w / 0x1000 =? va / 0x1000) then Some (0, writeable, false)
       else walk (x_mem s) dir w) ∧
    (∀ g, known s g → used s' g = (f =? 0) && (g =? 0) || used s g)) s.
Proof.
  intros Hi Hva Ht H0 Hk Hu Hl. pose proof (known_small dir s f Hi Hk) as Hf.
  eapply wp_bind_mono; [apply (alloc_frame_ok dir s va iskernel writeable f); rewrite ?H0; done|].
  rewrite H0. destruct (alloc_entry_spec iskernel writeable f 0 ltac:(done) Hf) as [Hv Hd].
  set (v := alloc_entry _ _ f 0) in *. cbv beta. intros _ s1 (Hb & Hs & _ & _ & Ht1).
  rewrite <- Hs. pose proof (b_inv _ _ _ _ _ Hb) as Hi1.
  assert (entries dir s1 va = v) as Ev.
  { unfold entries. rewrite (b_pte _ _ _ _ _ Hb va Hva). unfold set_entry. by rewrite Z.eqb_refl. }
  assert (frame_of v = f * 0x1000) as Ef by (unfold decode in Hd; destruct (Z.testbit v 0); by simplify_eq).
  destruct (Z.eqb_spec f 0) as [->|Hne].
  - eapply wp_intro; [unfold free_frame; rewrite (M_bind_Ok _ _ s1 _ s1) by reflexivity;
      rewrite slot_value, Ev by done; destruct (get_frame_value v Hv) as [-> _]; by rewrite Ef|].
    split; [done|]. split.
    + intros w Hw. rewrite (becomes_walk_entry _ _ _ _ _ _ w Hi Hb Hw), Hd. cbn [andb]. by rewrite orb_false_r.
    + intros g Hg. rewrite (b_used _ _ _ _ _ Hb g Hg). unfold set_used. cbn [andb]. by case_match.
  - assert (frame_of (entries dir s1 va) / 0x1000 = f) as Efr by (rewrite Ev, Ef; by apply Z.div_mul).
    eapply wp_mono; [apply (free_frame_ok dir s1 va); try done; [rewrite Ev, Ef; lia|]|].
    { rewrite Efr. apply (regs_known s); [by destruct Hb|done]. }
    cbv beta. rewrite Efr. intros _ s2 Hb2. split; [by destruct Hb2|]. cbn [andb orb]. split.
    + intros w Hw. rewrite (becomes_walk_entry _ _ _ _ _ _ w Hi1 Hb2 Hw).
      rewrite (becomes_walk_entry _ _ _ _ _ _ w Hi Hb Hw).
      destruct (Z.eqb_spec (w / 0x1000) (va / 0x1000)) as [E|]; [|done].
      rewrite (walk_pte dir s w Hi Hw). apply same_page in E as [E1 E2].
      assert (pte (x_mem s) dir w = entries dir s va) as -> by (unfold pte, entries, pte, pte_at; by rewrite E1, E2).
      by rewrite H0.
    + intros g Hg. rewrite (b_used _ _ _ _ _ Hb2 g (regs_known _ _ g (b_regs _ _ _ _ _ Hb) Hg)).
      unfold set_used. rewrite (b_used _ _ _ _ _ Hb g Hg). unfold set_used.
      destruct (Z.eqb_spec g f) as [->|]; [by rewrite Hu|done].
Qed.

(** ** The theorems at an example *)

Lemma ex32_known f : 0 ≤ f < 0x4000 → known ex32 f.
Proof. done. Qed.

Lemma map_page32_correct_witness :
  wp (map_page 0xA0000123 0x500000 false true 0x101000) (λ _ s',
    inv32 0x101000 s' ∧
    (∀ w, is32 w → walk (x_mem s') 0x101000 w =
       if w / 0x1000 =? 0xA0000 then Some (0x500000, true, false) else walk (x_mem ex32) 0x101000 w) ∧
    (∀ g, known ex32 g → used s' g = (g =? 0x500) || used ex32 g) ∧
    (tlb_ok 0x101000 ex32 → tlb_ok 0x101000 s')) ex32.
Proof.
  apply (map_page32_correct 0x101000 ex32 0xA0000123 0x500000 false true 0x101000);
    [apply ex32_inv|done|done|done|done|done].
Defined.

Lemma is_page_mapped_correct_witness :
  is_page_mapped 0x2000 0x101000 ex32 =
    Ok (bool_decide (is_Some (walk (x_mem ex32) 0x101000 0x2000)), ex32).
Proof. apply is_page_mapped_correct; [apply ex32_inv|done|done]. Defined.

Lemma unmap_page32_correct_witness :
  wp (unmap_page 0x2000 0x101000) (λ r s',
    r = (if walk (x_mem ex32) 0x101000 0x2000 is Some (f, _, _) then f else 0) ∧
    inv32 0x101000 s' ∧
    (∀ w, is32 w → walk (x_mem s') 0x101000 w =
       if w / 0x1000 =? 2 then None else walk (x_mem ex32) 0x101000 w) ∧
    (∀ g, known ex32 g → used s' g = used ex32 g) ∧
    (tlb_ok 0x101000 ex32 → tlb_ok 0x101000 s') ∧
    regs s' = regs ex32 ∧ x_placement s' = x_placement ex32 ∧ x_out s' = x_out ex32) ex32.
Proof. apply (unmap_page32_correct 0x101000 ex32 0x2000 0x101000); [apply ex32_inv|done|done|done]. Defined.

Lemma alloc_frame_correct_witness :
  wp (alloc_frame 0x102008 true true) (λ _ s',
    inv32 0x101000 s' ∧
    (∀ w, is32 w → walk (x_mem s') 0x101000 w =
       if w / 0x1000 =? 2 then Some (0, true, false) else walk (x_mem ex32) 0x101000 w) ∧
    ∀ g, known ex32 g → used s' g = (g =? 0) || used ex32 g) ex32.
Proof.
  apply (proj2 (proj2 (alloc_frame_correct 0x101000 ex32 0x2000 true true ex32_inv ltac:(done) ltac:(done))) 0);
    [done|done|done|]. intros g Hg. lia.
Defined.

Lemma alloc_free_roundtrip_witness :
  wp (alloc_frame 0x102008 true true ;; free_frame 0x102008) (λ _ s',
    inv32 0x101000 s' ∧
    (∀ w, is32 w → walk (x_mem s') 0x101000 w =
       if (0 =? 0) && (w / 0x1000 =? 2) then Some (0, true, false) else walk (x_mem ex32) 0x101000 w) ∧
    (∀ g, known ex32 g → used s' g = (0 =? 0) && (g =? 0) || used ex32 g)) ex32.
Proof.
  apply (alloc_free_roundtrip 0x101000 ex32 0x2000 true true 0); [apply ex32_inv|done..|]. intros g Hg. lia.
Defined.
