(* ===== verification/I386RangeProps.v ===== *)
(** * Identity mapping of ranges, and the boot of 32-bit paging *)

From S2P Require Import Prelude Loops Mm I386Paging I386Walk I386Ops I386PagingProps.

(** ** Marking frames the bitmap has no bit for *)

Definition mark_word (s : m32) (f : Z) : Z := x_frames s + 4 * BITSET_INDEX f.

(** Marking [f] is harmless: the bitmap has a bit for it, or the word [set_frame] changes instead lies
    between the bitmap and the directory, or in memory above [limit], where no table is. *)
Definition harmless (dir : Z) (s : m32) (limit f : Z) : Prop :=
  known s f ∨
  (32 * bm_words s ≤ f ∧ (mark_word s f < dir ∨ limit ≤ mark_word s f) ∧ mark_word s f < 2 ^ 32).

Lemma harmless_regs dir s s' limit f : regs s' = regs s → harmless dir s limit f → harmless dir s' limit f.
Proof. intros [E1 E2]%regs_bitmap. unfold harmless, known, mark_word, bm_words. by rewrite E1, E2. Qed.

(** Beyond the last frame [set_frame] has no bit to set: it writes a word behind the end of the
    bitmap.  The bitmap stays as it was. *)
Theorem set_frame_past_end dir s addr :
  inv32 dir s → 0 ≤ addr → 32 * bm_words s ≤ addr / 0x1000 → mark_word s (addr / 0x1000) < 2 ^ 32 →
  set_frame addr s = Ok (tt, set_xmem
    <[mark_word s (addr / 0x1000) :=
        rd (x_mem s) (mark_word s (addr / 0x1000)) .| 2 ^ BITSET_OFFSET (addr / 0x1000)]> s) ∧
  x_frames s + 4 * bm_words s ≤ mark_word s (addr / 0x1000).
Proof.
  intros Hi Ha Hf Hb. destruct Hi. assert (bm_words s ≤ BITSET_INDEX (addr / 0x1000)).
  { apply Z.div_le_lower_bound; lia. }
  assert (0 ≤ bm_words s) by (apply Z.div_pos; lia).
  split; [|unfold mark_word; lia]. unfold set_frame, frame_word. rewrite (M_bind_Ok _ _ s _ s) by reflexivity.
  cbv beta. rewrite wrap_small by (unfold mark_word in *; lia). done.
Qed.

Lemma wp_set_frame_any dir s addr (Q : unit → m32 → Prop) :
  inv32 dir s → is32 addr → harmless dir s (x_placement s) (addr / 0x1000) →
  (∀ s', becomes dir s s' (entries dir s) (set_used (used s) (addr / 0x1000) true) →
     x_placement s' = x_placement s → x_tlb s' = x_tlb s → Q tt s') →
  wp (set_frame addr) Q s.
Proof.
  intros Hi Ha [Hk|(Hf & Hno & Hb)] HQ; [apply (wp_set_frame dir); [done..|]; intros; by apply HQ|].
  destruct (Hi) as []. assert (bm_words s ≤ BITSET_INDEX (addr / 0x1000)) by (apply Z.div_le_lower_bound; lia).
  assert (0 ≤ bm_words s) by (apply Z.div_pos; lia). destruct Ha as [Ha0 Ha1].
  assert (BITSET_INDEX (addr / 0x1000) < 2 ^ 15) by (do 2 (apply Z.div_lt_upper_bound; [lia|]); lia).
  unfold set_frame. apply wp_bind, wp_gets, wp_upd32. unfold frame_word.
  rewrite wrap_small by (unfold mark_word in *; lia). fold (mark_word s (addr / 0x1000)).
  set (a := mark_word s (addr / 0x1000)) in *. pose proof (frame_split (addr / 0x1000)) as [_ Ho].
  apply HQ; [|done..]. split; [apply inv32_store; [done|apply set_bit_is32; [apply i_words|lia]|lia]|done|..].
  - intros w Hw. by apply (pte_store_free dir s).
  - intros g Hg. unfold set_used, used. cbn [x_mem x_frames set_xmem]. rewrite rd_insert.
    destruct (known_word dir s g Hi Hg). unfold a, mark_word, known in *. bcase. done.
  - intros w Hw _. pose proof (di_bound w Hw). cbn [x_mem set_xmem]. rewrite rd_insert. by bcase.
  - apply only_above_store; unfold a, mark_word; lia.
Qed.

(** ** Relaxing a directory entry *)

Lemma set_bit_same e k : 0 ≤ k → Z.testbit e k = true → e .| 2 ^ k = e.
Proof.
  intros Hk He. apply Z.bits_inj'. intros i Hi. rewrite testbit_set_bit by lia.
  destruct (Z.eqb_spec i k) as [->|]; [by rewrite He|done].
Qed.

Lemma relax_pde dir s va :
  inv32 dir s → is32 va →
  becomes dir s (set_xmem <[dir + 4 * di va := rd (x_mem s) (dir + 4 * di va) .| PDE_READ_WRITE]> s)
    (entries dir s) (used s).
Proof.
  intros Hi Hva. pose proof (di_bound va Hva) as Hd. change PDE_READ_WRITE with (2 ^ 1).
  set (old := rd (x_mem s) (dir + 4 * di va)). set (s' := set_xmem _ s).
  assert (is32 old) as Hold by apply (i_words _ _ Hi).
  assert (∀ i, 0 ≤ i < 1024 → Z.testbit (rd (x_mem s') (dir + 4 * i)) 0 =
    Z.testbit (rd (x_mem s) (dir + 4 * i)) 0) as Hbit.
  { intros i Hr. unfold s'. cbn [x_mem set_xmem]. rewrite rd_insert. destruct (Z.eqb_spec (dir + 4 * i) (dir + 4 * di va)); [|done].
    assert (i = di va) as -> by lia. by rewrite testbit_set_bit. }
  assert (∀ i, 0 ≤ i < 1024 → Z.testbit (rd (x_mem s) (dir + 4 * i)) 0 = true →
    rd (x_mem s') (dir + 4 * i) = rd (x_mem s) (dir + 4 * i)) as Hsame.
  { intros i Hr Hp. unfold s'. cbn [x_mem set_xmem]. rewrite rd_insert. destruct (Z.eqb_spec (dir + 4 * i) (dir + 4 * di va)); [|done].
    assert (i = di va) as -> by lia. apply set_bit_same; [lia|]. by apply (i_tables _ _ Hi). }
  assert (∀ a, a < dir ∨ dir + 0x1000 ≤ a → rd (x_mem s') a = rd (x_mem s) a) as Hout.
  { intros a Ha. unfold s'. cbn [x_mem set_xmem]. rewrite rd_insert. by bcase. }
  destruct (Hi) as []. split; [split; try done|done|..].
  - intros a. unfold s'. cbn [x_mem set_xmem]. rewrite rd_insert. destruct (a =? _); [by apply set_bit_is32|done].
  - intros i Hr. rewrite Hbit by done. intros Hp. rewrite Hsame by done. by apply i_tables.
  - intros i j Hr Hr' Hne. rewrite !Hbit by done. intros Hp Hp'. rewrite !Hsame by done. by apply i_apart.
  - intros w Hw. pose proof (di_bound w Hw) as Hdw. unfold entries, pte. rewrite Hbit by done.
    destruct (Z.testbit (rd (x_mem s) (dir + 4 * di w)) 0) eqn:Hp; [|done].
    rewrite Hsame by done. apply Hout. right. apply (pte_place dir s w Hi Hw Hp).
  - intros g Hg. destruct (known_word dir s g Hi Hg). unfold used. change (x_frames s') with (x_frames s).
    rewrite Hout by lia. done.
  - intros w Hw Ht. apply Hsame; [by apply di_bound|done].
  - assert (0 ≤ bm_words s) by (apply Z.div_pos; lia). apply only_above_store; lia.
Qed.

(** ** One page of a range *)

(** The entry [map_physical_range] makes of an old one. *)
Definition phys_entry (iskernel writeable : bool) (f e : Z) : Z :=
  let e := PTE_SET_PRESENT e in
  let e := if writeable then PTE_SET_WRITABLE e else PTE_CLEAR_WRITABLE e in
  PTE_SET_FRAME (if iskernel then PTE_CLEAR_USER e else PTE_SET_USER e) f.

Lemma phys_entry_spec iskernel writeable f e :
  is32 e → 0 ≤ f < 2 ^ 20 →
  is32 (phys_entry iskernel writeable f e) ∧
  decode (phys_entry iskernel writeable f e) = Some (f * 0x1000, writeable, false).
Proof.
  intros He Hf.
  unfold phys_entry, PTE_SET_PRESENT, PTE_SET_WRITABLE, PTE_CLEAR_WRITABLE, PTE_SET_USER, PTE_CLEAR_USER.
  change PTE_PRESENT with (2 ^ 0). change PTE_READ_WRITE with (2 ^ 1). change PTE_USER_SUPERVISOR with (2 ^ 2).
  match goal with |- is32 (PTE_SET_FRAME ?x f) ∧ _ => set (x' := x) end.
  assert (is32 x' ∧ Z.testbit x' 0 = true ∧ Z.testbit x' 1 = writeable) as (Hx & H0 & H1).
  { subst x'. pose proof (set_bit_is32 e 0 He ltac:(lia)) as H0.
    pose proof (set_bit_is32 _ 1 H0 ltac:(lia)) as H1. pose proof (clear_bit_is32 _ 1 H0 ltac:(lia)) as H2.
    destruct writeable, iskernel; (split; [by apply set_bit_is32 || by apply clear_bit_is32|]);
      repeat first [rewrite testbit_set_bit by lia|rewrite testbit_clear_bit by (done || lia)]; done. }
  split; [by apply set_frame_is32|]. unfold decode.
  by rewrite !set_frame_flag, set_frame_frame, H0, H1 by (done || lia).
Qed.

Lemma map_physical_page_ok dir s addr iskernel writeable cr3 :
  inv32 dir s → is32 addr → addr mod 0x1000 = 0 → cr3_to_directory cr3 = dir → room s →
  harmless dir s (page_up (x_placement s) + 0x1000) (addr / 0x1000) →
  wp (map_physical_page iskernel writeable cr3 addr) (λ _ s',
    (∃ e, becomes dir s s' (set_entry (entries dir s) addr e) (set_used (used s) (addr / 0x1000) true) ∧
       decode e = Some (addr, writeable, false)) ∧
    x_tlb s' = base.delete addr (x_tlb s) ∧ has_table dir s' addr ∧
    (has_table dir s addr ∧ x_placement s' = x_placement s ∨
     ¬ has_table dir s addr ∧ x_placement s' = page_up (x_placement s) + 0x1000)) s.
Proof.
  intros Hi Ha Hm Hc Hroom Hh. unfold map_physical_page. rewrite Hc, (pde_at_eq dir s addr Hi Ha).
  assert (addr / 0x1000 * 0x1000 = addr) as Eaddr by (pose proof (Z.div_mod addr 0x1000); lia).
  set (old := rd (x_mem s) (dir + 4 * di addr)).
  assert (∃ s0, (if writeable then set_xmem <[dir + 4 * di addr := old .| PDE_READ_WRITE]> s else s) = s0) as [s0 E0]
    by eauto.
  apply wp_bind, (wp_intro _ _ _ tt s0). { subst s0. by destruct writeable. }
  assert (becomes dir s s0 (entries dir s) (used s)) as Hb0.
  { subst s0. destruct writeable; [by apply relax_pde|done]. }
  assert (x_placement s0 = x_placement s ∧ x_tlb s0 = x_tlb s) as [P0 T0] by (subst s0; by destruct writeable).
  assert (has_table dir s0 addr ↔ has_table dir s addr) as Hback.
  { subst s0. destruct writeable; [|done]. unfold has_table. cbn [x_mem set_xmem]. rewrite rd_insert, Z.eqb_refl.
    change PDE_READ_WRITE with (2 ^ 1). by rewrite testbit_set_bit. }
  clear E0. pose proof (b_inv _ _ _ _ _ Hb0) as Hi0.
  apply wp_bind, (get_page_make dir); [done..|unfold room; by rewrite P0|].
  rewrite P0. intros s1 Hb1 Ht1 T1 _ Hp1 _. pose proof (b_inv _ _ _ _ _ Hb1) as Hi1.
  unfold nz. rewrite (proj2 (Z.eqb_neq _ _)) by (by apply page_pos). cbn [negb when].
  assert (becomes dir s s1 (entries dir s) (used s)) as Hb01.
  { eapply becomes_ext; [eapply becomes_trans, Hb1; by destruct Hb0|..]; by destruct Hb0. }
  set (e0 := entries dir s1 addr). assert (0 ≤ addr / 0x1000 < 2 ^ 20) as Hf.
  { destruct Ha. split; [apply Z.div_pos; lia|apply Z.div_lt_upper_bound; lia]. }
  destruct (phys_entry_spec iskernel writeable (addr / 0x1000) e0) as [He Hdec]; [by apply (pte_is32 dir)|done|].
  set (e := phys_entry iskernel writeable (addr / 0x1000) e0) in *.
  pose proof (store_slot dir s1 addr e Hi1 Ha He Ht1) as Hb2. set (s2 := set_xmem _ s1) in *.
  assert (wp (set_frame addr ;; invalidate_page addr) (λ _ s',
    (∃ e, becomes dir s s' (set_entry (entries dir s) addr e) (set_used (used s) (addr / 0x1000) true) ∧
       decode e = Some (addr, writeable, false)) ∧
    x_tlb s' = base.delete addr (x_tlb s) ∧ has_table dir s' addr ∧
    (has_table dir s addr ∧ x_placement s' = x_placement s ∨
     ¬ has_table dir s addr ∧ x_placement s' = page_up (x_placement s) + 0x1000)) s2) as Hend.
  { apply wp_bind, (wp_set_frame_any dir); [by destruct Hb2|done|..].
    { assert (regs s2 = regs s) as Hr by (rewrite (b_regs _ _ _ _ _ Hb2); by destruct Hb01).
      apply (harmless_regs dir s); [done|]. pose proof (page_up_spec (x_placement s)) as [Hu _].
      change (x_placement s2) with (x_placement s1).
      destruct Hh as [?|(? & Hh & ?)]; [by left|right]. split; [done|]. split; [|done]. lia. }
    intros s3 Hb3 P3 T3. apply wp_modify. cbn [x_tlb set_xtlb]. rewrite Eaddr.
    split; [|split; [by rewrite T3, <- T0, <- T1|split]].
    - exists e. split; [|by rewrite Hdec, Eaddr]. apply becomes_tlb.
      eapply becomes_ext; [eapply becomes_trans; [|by eapply becomes_entry_used]; by destruct Hb01|..].
      + intros w Hw. unfold set_entry. case_match; [done|]. apply (b_pte _ _ _ _ _ Hb01 w Hw).
      + intros g Hg. unfold set_used. by rewrite (b_used _ _ _ _ _ Hb01 g Hg).
    - apply (becomes_has_table _ _ _ _ _ addr Hb3 Ha), (becomes_has_table _ _ _ _ _ addr Hb2 Ha Ht1).
    - cbn [x_placement set_xtlb]. rewrite P3. change (x_placement s2) with (x_placement s1). naive_solver. }
  apply wp_bind, wp_upd32. rewrite slot_value by done. fold e0.
  destruct iskernel, writeable; cbn [negb when]; upd_run; exact Hend.
Qed.

(** ** Ranges *)

Lemma page_up_least x c : x ≤ c → c mod 0x1000 = 0 → page_up x ≤ c.
Proof.
  intros Hx Hc. unfold page_up. pose proof (Z.div_mod c 0x1000).
  assert ((x + 0xFFF) / 0x1000 < c / 0x1000 + 1) by (apply Z.div_lt_upper_bound; lia). lia.
Qed.

Lemma di_mono a b : a ≤ b → di a ≤ di b.
Proof. intros. unfold di. apply Z.div_le_mono; lia. Qed.

Lemma di_next a : di (a + 0x1000) ≤ di a + 1.
Proof.
  unfold di. assert ((a + 0x1000) / 2 ^ 22 ≤ (a + 1 * 2 ^ 22) / 2 ^ 22) as H by (apply Z.div_le_mono; lia).
  rewrite Z.div_add in H by lia. lia.
Qed.

(** One more page than the tables for addresses up to [last] need. *)
Definition limit_for (s : m32) (start last : Z) : Z :=
  page_up (x_placement s) + 0x1000 * (di last - di start + 2).

(** The state after [k] pages from [start] are identity mapped. *)
Record range_done (dir : Z) (s : m32) (writeable : bool) (start k : Z) (t : m32) : Prop := {
  rd_inv : inv32 dir t;
  rd_regs : regs t = regs s;
  rd_walk : ∀ w, is32 w → walk (x_mem t) dir w =
    if (start <=? w) && (w <? start + 0x1000 * k) then Some (w / 0x1000 * 0x1000, writeable, false)
    else walk (x_mem s) dir w;
  rd_used : ∀ g, known s g → used t g = (start / 0x1000 <=? g) && (g <? start / 0x1000 + k) || used s g;
  rd_tlb : tlb_ok dir s → tlb_ok dir t;
  rd_place : x_placement s ≤ x_placement t ∧
    (k = 0 ∧ x_placement t = x_placement s ∨
     0 < k ∧ has_table dir t (start + 0x1000 * (k - 1)) ∧
     x_placement t ≤ page_up (x_placement s) + 0x1000 * (di (start + 0x1000 * (k - 1)) - di start + 1));
  rd_frame : only_above s t;
}.

Lemma range_done_limit dir s writeable start k n t :
  0 ≤ k < n → range_done dir s writeable start k t →
  page_up (x_placement t) + 0x1000 ≤ limit_for s start (start + 0x1000 * (n - 1)).
Proof.
  intros Hk [_ _ _ _ _ [_ Hp] _]. pose proof (page_up_spec (x_placement s)) as [Hu Hm]. unfold limit_for.
  assert (di start ≤ di (start + 0x1000 * (n - 1))) by (apply di_mono; lia).
  destruct Hp as [[_ ->]|(H0 & _ & Hp)]; [lia|].
  assert (di (start + 0x1000 * (k - 1)) ≤ di (start + 0x1000 * (n - 1))) by (apply di_mono; lia).
  apply page_up_least in Hp; [lia|]. rewrite Z.mul_comm, Z.mod_add by lia. done.
Qed.

(** One more page. *)
Lemma range_done_step dir s writeable start k t t' e :
  start mod 0x1000 = 0 → 0 ≤ k → is32 (start + 0x1000 * k) → 0 ≤ start →
  range_done dir s writeable start k t →
  becomes dir t t' (set_entry (entries dir t) (start + 0x1000 * k) e)
    (set_used (used t) ((start + 0x1000 * k) / 0x1000) true) →
  decode e = Some (start + 0x1000 * k, writeable, false) →
  x_tlb t' = base.delete (start + 0x1000 * k) (x_tlb t) → has_table dir t' (start + 0x1000 * k) →
  (has_table dir t (start + 0x1000 * k) ∧ x_placement t' = x_placement t ∨
   ¬ has_table dir t (start + 0x1000 * k) ∧ x_placement t' = page_up (x_placement t) + 0x1000) →
  range_done dir s writeable start (k + 1) t'.
Proof.
  intros Hm Hk Ha H0 [Hi Hr Hw Hu Ht Hp Hfr] Hb Hd Htlb Htab Hpl.
  assert ((start + 0x1000 * k) / 0x1000 = start / 0x1000 + k) as Ediv.
  { replace (start + 0x1000 * k) with (start + k * 0x1000) by lia. apply Z.div_add. lia. }
  pose proof (Z.div_mod start 0x1000 ltac:(lia)) as Hs. pose proof (page_up_spec (x_placement t)) as [Hut _].
  split; [by destruct Hb|rewrite (b_regs _ _ _ _ _ Hb); done|..].
  - intros w Hw32. rewrite (becomes_walk_entry _ _ _ _ _ _ w Hi Hb Hw32), Hw, Hd, Ediv by done.
    pose proof (Z.div_mod w 0x1000 ltac:(lia)). pose proof (Z.mod_pos_bound w 0x1000 ltac:(lia)).
    destruct (Z.eqb_spec (w / 0x1000) (start / 0x1000 + k)) as [E|E]; bcase; try done.
    f_equal. f_equal. f_equal. lia.
  - intros g Hg. rewrite (b_used _ _ _ _ _ Hb g (regs_known _ _ g Hr Hg)). unfold set_used.
    rewrite Hu, Ediv by done. bcase; done.
  - intros Hok. apply (tlb_ok_entry dir t t' (start + 0x1000 * k) e _ Hi Hb); [|by apply Ht].
    rewrite Htlb. f_equal. rewrite Ediv. lia.
  - split; [lia|]. right. split; [lia|]. replace (k + 1 - 1) with k by lia. split; [done|].
    pose proof (page_up_spec (x_placement s)) as [Hus Hms].
    destruct Hp as [Hge [[-> E]|(Hk0 & Htk & Hp)]].
    + replace (start + 0x1000 * 0) with start in * by lia. rewrite E in *. lia.
    + pose proof (di_next (start + 0x1000 * (k - 1))) as Hn.
      replace (start + 0x1000 * (k - 1) + 0x1000) with (start + 0x1000 * k) in Hn by lia.
      assert (di (start + 0x1000 * (k - 1)) ≤ di (start + 0x1000 * k)) as Hmono by (apply di_mono; lia).
      destruct Hpl as [[_ E]|[Hno E]]; [lia|].
      assert (di (start + 0x1000 * (k - 1)) ≠ di (start + 0x1000 * k)) as Hne.
      { intros Ed. apply Hno. unfold has_table in *. by rewrite <- Ed. }
      apply page_up_least in Hp; [lia|]. rewrite Z.mul_comm, Z.mod_add by lia. done.
  - apply (only_above_trans s t t'); [by apply regs_bitmap in Hr as [? _]|done|by destruct Hb].
Qed.

Lemma becomes_out dir s s' o E U : becomes dir s s' E U → becomes dir s (add_out o s') E U.
Proof. intros [[] ? ? ? ? []]. split; [split|..|split]; assumption. Qed.

Lemma map_pages_ok dir s start n iskernel writeable cr3 :
  inv32 dir s → 0 ≤ start → start mod 0x1000 = 0 → start + 0x1000 * Z.of_nat n ≤ 2 ^ 32 →
  cr3_to_directory cr3 = dir →
  limit_for s start (start + 0x1000 * (Z.of_nat n - 1)) < 2 ^ 32 →
  (∀ f, start / 0x1000 ≤ f < start / 0x1000 + Z.of_nat n →
     harmless dir s (limit_for s start (start + 0x1000 * (Z.of_nat n - 1))) f) →
  wp (for_up n 0 (λ i, map_physical_page iskernel writeable cr3 (start + 0x1000 * i)))
    (λ _ t, range_done dir s writeable start (Z.of_nat n) t) s.
Proof.
  intros Hi H0 Hm Hend Hc Hlim Hh.
  apply (wp_for_up n 0 _ (λ k t, range_done dir s writeable start k t)).
  - split; try done.
    + intros w Hw. rewrite Z.mul_0_r, Z.add_0_r. bcase; done.
    + intros g Hg. rewrite Z.add_0_r. bcase; done.
    + split; [lia|]. by left.
  - intros k t Hk Ht. pose proof (range_done_limit dir s writeable start k (Z.of_nat n) t ltac:(lia) Ht) as Hl.
    assert (is32 (start + 0x1000 * k)) as Ha by (unfold is32; lia).
    assert ((start + 0x1000 * k) / 0x1000 = start / 0x1000 + k) as Ediv.
    { replace (start + 0x1000 * k) with (start + k * 0x1000) by lia. apply Z.div_add. lia. }
    eapply wp_mono; [apply (map_physical_page_ok dir)|].
    + by destruct Ht. + done.
    + replace (start + 0x1000 * k) with (start + k * 0x1000) by lia. by rewrite Z.mod_add.
    + done. + unfold room. lia.
    + apply (harmless_regs dir s); [by destruct Ht|].
      rewrite Ediv. destruct (Hh (start / 0x1000 + k) ltac:(lia)) as [?|(? & ? & ?)]; [by left|right].
      split; [done|]. split; [|done]. lia.
    + cbv beta. intros _ t' ((e & Hb & Hd) & Htlb & Htab & Hpl). eapply range_done_step; [done|lia|done|done|exact Ht|exact Hb|done..].
Qed.

Lemma range_ok dir s phys_start length iskernel writeable cr3 :
  let start := frame_of phys_start in
  let end_ := frame_of (phys_start + length + 0xFFF) in
  inv32 dir s → 0 ≤ phys_start → 0 < length → phys_start + length + 0xFFF < 2 ^ 32 →
  cr3_to_directory cr3 = dir → limit_for s start (end_ - 0x1000) < 2 ^ 32 →
  (∀ f, start / 0x1000 ≤ f < end_ / 0x1000 → harmless dir s (limit_for s start (end_ - 0x1000)) f) →
  wp (map_physical_range phys_start length iskernel writeable cr3)
    (λ _ t, range_done dir s writeable start ((end_ - start) / 0x1000) t) s.
Proof.
  intros start end_ Hi H0 Hlen Hwrap Hc Hlim Hh. unfold map_physical_range.
  rewrite (wrap_small 32) by lia. fold (frame_of phys_start) (frame_of (phys_start + length + 0xFFF)). fold start end_.
  assert (is32 phys_start) as H1 by (unfold is32; lia). assert (is32 (phys_start + length + 0xFFF)) as H2 by (unfold is32; lia).
  destruct (frame_of_spec _ H1) as [Hm1 Hb1]. destruct (frame_of_spec _ H2) as [Hm2 Hb2]. fold start in Hm1, Hb1.
  fold end_ in Hm2, Hb2. pose proof (frame_of_arith _ H1) as E1. pose proof (frame_of_arith _ H2) as E2.
  fold start in E1. fold end_ in E2.
  pose proof (Z.div_mod start 0x1000 ltac:(lia)). pose proof (Z.div_mod end_ 0x1000 ltac:(lia)).
  pose proof (Z.div_mod phys_start 0x1000 ltac:(lia)). pose proof (Z.mod_pos_bound phys_start 0x1000 ltac:(lia)).
  pose proof (Z.div_mod (phys_start + length + 0xFFF) 0x1000 ltac:(lia)).
  pose proof (Z.mod_pos_bound (phys_start + length + 0xFFF) 0x1000 ltac:(lia)).
  assert ((end_ - start) / 0x1000 = end_ / 0x1000 - start / 0x1000) as En.
  { replace (end_ - start) with ((end_ / 0x1000 - start / 0x1000) * 0x1000) by lia. apply Z.div_mul. lia. }
  set (n := (end_ - start) / 0x1000) in *.
  apply wp_bind, wp_modify. set (s0 := add_out _ s).
  assert (becomes dir s s0 (entries dir s) (used s)) as Hb by (by apply becomes_out).
  eapply wp_mono; [apply (map_pages_ok dir s0); try done|].
  - by destruct Hb.
  - lia.
  - lia.
  - replace (start + 0x1000 * (Z.of_nat (Z.to_nat n) - 1)) with (end_ - 0x1000) by lia. exact Hlim.
  - replace (start + 0x1000 * (Z.of_nat (Z.to_nat n) - 1)) with (end_ - 0x1000) by lia.
    intros f Hf. apply (Hh f). lia.
  - cbv beta. intros _ t Ht. replace (Z.of_nat (Z.to_nat n)) with n in Ht by lia. by destruct Ht.
Qed.

(** [map_physical_range] identity maps every page that meets the range, with the write right
    asked for and closed to user accesses, changes no other translation, marks exactly those frames
    and leaves no stale translation in the TLB. *)
Theorem map_physical_range32_correct dir s phys_start length iskernel writeable cr3 :
  let start := frame_of phys_start in
  let end_ := frame_of (phys_start + length + 0xFFF) in
  inv32 dir s → 0 ≤ phys_start → 0 < length → phys_start + length + 0xFFF < 2 ^ 32 →
  cr3_to_directory cr3 = dir → limit_for s start (end_ - 0x1000) < 2 ^ 32 →
  (∀ f, start / 0x1000 ≤ f < end_ / 0x1000 → harmless dir s (limit_for s start (end_ - 0x1000)) f) →
  wp (map_physical_range phys_start length iskernel writeable cr3) (λ _ t,
    inv32 dir t ∧
    (∀ w, is32 w → walk (x_mem t) dir w =
       if (start <=? w) && (w <? end_) then Some (w / 0x1000 * 0x1000, writeable, false)
       else walk (x_mem s) dir w) ∧
    (∀ g, known s g → used t g = (start / 0x1000 <=? g) && (g <? end_ / 0x1000) || used s g) ∧
    (tlb_ok dir s → tlb_ok dir t)) s.
Proof.
  intros start end_ Hi H0 Hlen Hwrap Hc Hlim Hh.
  eapply wp_mono; [by apply (range_ok dir)|]. cbv beta. fold start end_. intros _ t [].
  assert (is32 phys_start) as H1 by (unfold is32; lia). assert (is32 (phys_start + length + 0xFFF)) as H2 by (unfold is32; lia).
  destruct (frame_of_spec _ H1) as [Hm1 _]. destruct (frame_of_spec _ H2) as [Hm2 _]. fold start in Hm1. fold end_ in Hm2.
  pose proof (Z.div_mod start 0x1000 ltac:(lia)). pose proof (Z.div_mod end_ 0x1000 ltac:(lia)).
  assert ((end_ - start) / 0x1000 = end_ / 0x1000 - start / 0x1000) as En.
  { replace (end_ - start) with ((end_ / 0x1000 - start / 0x1000) * 0x1000) by lia. apply Z.div_mul. lia. }
  split; [done|]. split; [|split; [|done]].
  - intros w Hw. rewrite rd_walk0 by done. rewrite En.
    by replace (start + 0x1000 * (end_ / 0x1000 - start / 0x1000)) with end_ by lia.
  - intros g Hg. rewrite rd_used0 by done. rewrite En.
    by replace (start / 0x1000 + (end_ / 0x1000 - start / 0x1000)) with (end_ / 0x1000) by lia.
Qed.

(** A range whose rounded end does not fit 32 bits is not mapped at all: the end wraps around
    to a low address and the loop has nothing to do. *)
Theorem map_physical_range_wraps s phys_start length iskernel writeable cr3 :
  is32 phys_start → is32 length → 2 ^ 32 ≤ phys_start + length + 0xFFF →
  phys_start + length + 0xFFF - 2 ^ 32 < phys_start →
  ∃ o, map_physical_range phys_start length iskernel writeable cr3 s = Ok (tt, add_out o s).
Proof.
  intros [] [] Hw Hlow. unfold map_physical_range.
  set (v := u32 (phys_start + length + 0xFFF)).
  assert (v = phys_start + length + 0xFFF - 2 ^ 32) as Ev.
  { unfold v, wrap. symmetry. apply (Z.mod_unique _ _ 1); lia. }
  change (phys_start .& 0xFFFFF000) with (frame_of phys_start). change (v .& 0xFFFFF000) with (frame_of v).
  rewrite !frame_of_arith by (unfold is32; lia).
  assert (v / 0x1000 ≤ phys_start / 0x1000) by (apply Z.div_le_mono; lia).
  eexists. unfold say. rewrite (M_bind_Ok _ _ s tt _) by reflexivity.
  replace (Z.to_nat _) with O; [done|].
  assert ((v / 0x1000 * 0x1000 - phys_start / 0x1000 * 0x1000) / 0x1000 ≤ 0); [|lia].
  apply Z.div_le_upper_bound; lia.
Qed.

Lemma map_physical_range_wraps_witness :
  ∃ o, map_physical_range 0xFFFFF000 0x1000 true true 0x5000 (M32 ∅ 0 0 0 0 0 0 0 ∅ ∅ []) =
    Ok (tt, add_out o (M32 ∅ 0 0 0 0 0 0 0 ∅ ∅ [])).
Proof. apply map_physical_range_wraps; by_decide. Defined.

Lemma set_frame_past_end_witness :
  set_frame 0xFEC00000 ex32 = Ok (tt, set_xmem
    <[0x11FD80 := rd (x_mem ex32) 0x11FD80 .| 2 ^ 0]> ex32) ∧
  0x100000 + 4 * 512 ≤ 0x11FD80.
Proof. apply (set_frame_past_end 0x101000 ex32 0xFEC00000); [apply ex32_inv|done..]. Defined.

Lemma map_physical_range32_correct_witness :
  wp (map_physical_range 0x80123 0x1000 true true 0x101000) (λ _ t,
    inv32 0x101000 t ∧
    (∀ w, is32 w → walk (x_mem t) 0x101000 w =
       if (0x80000 <=? w) && (w <? 0x82000) then Some (w / 0x1000 * 0x1000, true, false)
       else walk (x_mem ex32) 0x101000 w) ∧
    (∀ g, known ex32 g → used t g = (0x80 <=? g) && (g <? 0x82) || used ex32 g) ∧
    (tlb_ok 0x101000 ex32 → tlb_ok 0x101000 t)) ex32.
Proof.
  apply (map_physical_range32_correct 0x101000 ex32 0x80123 0x1000 true true 0x101000);
    [apply ex32_inv|done..|]. change (frame_of 0x80123 / 0x1000) with 0x80.
  change (frame_of (0x80123 + 0x1000 + 0xFFF) / 0x1000) with 0x82. intros f Hf. left.
  apply ex32_known. lia.
Defined.
