(* ===== verification/I386BootProps.v ===== *)
(** * The boot of 32-bit paging

    [init_paging] from the state the loader leaves, up to the load of [cr3]. *)

From S2P Require Import Prelude Loops Mm I386Paging I386Walk I386Ops I386PagingProps I386RangeProps.

(** The pages up to [k], identity mapped; the rest unmapped. *)
Definition ident (k w : Z) : option (Z * bool * bool) :=
  if w / 0x1000 <? k then Some (w / 0x1000 * 0x1000, true, false) else None.

(** ** The kernel's identity map *)

(** The state after [k] rounds of the loop over the kernel's pages. *)
Record kernel_done (dir : Z) (s : m32) (k : Z) (t : m32) : Prop := {
  kd_inv : inv32 dir t;
  kd_regs : regs t = regs s;
  kd_entries : ∀ w, is32 w → entries dir t w = if w / 0x1000 <? k then alloc_entry true true (w / 0x1000) 0 else 0;
  kd_used : ∀ g, known s g → used t g = (g <? k);
  kd_tlb : x_tlb t = x_tlb s;
  kd_place : k = 0 ∧ x_placement t = x_placement s ∨
    0 < k ∧ has_table dir t (0x1000 * (k - 1)) ∧
    x_placement t ≤ page_up (x_placement s) + 0x1000 * (di (0x1000 * (k - 1)) + 1);
  kd_frame : only_above s t;
}.

Lemma kernel_done_limit dir s k t :
  0 ≤ k ≤ 0x4000 → kernel_done dir s k t → page_up (x_placement t) ≤ page_up (x_placement s) + 0x1000 * 16.
Proof.
  intros Hk [_ _ _ _ _ Hp _]. pose proof (page_up_spec (x_placement s)) as [_ Hm].
  destruct Hp as [[_ ->]|(H0 & _ & Hp)]; [lia|].
  assert (di (0x1000 * (k - 1)) < 16) by (apply Z.div_lt_upper_bound; lia).
  apply page_up_least in Hp; [lia|]. rewrite Z.mul_comm, Z.mod_add by lia. done.
Qed.

Lemma alloc_step dir s k t t1 :
  0 ≤ k < 0x4000 → known s k → kernel_done dir s k t →
  becomes dir t t1 (entries dir t) (used t) → has_table dir t1 (0x1000 * k) → x_tlb t1 = x_tlb t →
  (has_table dir t (0x1000 * k) ∧ x_placement t1 = x_placement t ∨
   ¬ has_table dir t (0x1000 * k) ∧ x_placement t1 = page_up (x_placement t) + 0x1000) →
  wp (alloc_frame (slot dir t1 (0x1000 * k)) true true) (λ _ t', kernel_done dir s (k + 1) t') t1.
Proof.
  intros Hk Hkn [Hi Hr He Hu Htlb Hp Hfr] Hb Ht Ht1 Hpl.
  assert (is32 (0x1000 * k)) as Ha by (unfold is32; lia).
  assert (0x1000 * k / 0x1000 = k) as Ediv by (rewrite Z.mul_comm; apply Z.div_mul; lia).
  assert (∀ w, is32 w → entries dir t1 w = entries dir t w) as E1 by apply (b_pte _ _ _ _ _ Hb).
  assert (entries dir t1 (0x1000 * k) = 0) as E0 by (rewrite E1, He, Ediv by done; by bcase).
  assert (∀ g, known s g → used t1 g = (g <? k)) as U1.
  { intros g Hg. rewrite (b_used _ _ _ _ _ Hb g (regs_known _ _ g Hr Hg)). by apply Hu. }
  assert (regs t1 = regs s) as Hr1 by (rewrite (b_regs _ _ _ _ _ Hb); done).
  eapply wp_mono; [apply (alloc_frame_ok dir t1 (0x1000 * k) true true k); try done|].
  - by destruct Hb. - by rewrite E0. - by apply (regs_known s).
  - rewrite U1 by done. by bcase.
  - intros g Hg. rewrite U1 by (unfold known in *; lia). by bcase.
  - cbv beta. rewrite E0. intros _ t' (Hb' & _ & Ht' & Hp' & Htab').
    split; [by destruct Hb'|rewrite (b_regs _ _ _ _ _ Hb'); done|..].
    + intros w Hw. unfold entries at 1. rewrite (b_pte _ _ _ _ _ Hb' w Hw). unfold set_entry.
      rewrite Ediv, E1, He by done. destruct (Z.eqb_spec (w / 0x1000) k) as [->|]; bcase; done.
    + intros g Hg. rewrite (b_used _ _ _ _ _ Hb' g (regs_known _ _ g Hr1 Hg)). unfold set_used.
      rewrite U1 by done. bcase; done.
    + congruence.
    + right. split; [lia|]. replace (k + 1 - 1) with k by lia. split; [done|]. rewrite Hp'.
      pose proof (page_up_spec (x_placement s)) as [Hus Hms]. pose proof (page_up_spec (x_placement t)) as [Hut _].
      destruct Hp as [[-> E]|(Hk0 & Htk & Hp)]; [rewrite E in *; change (di (0x1000 * 0)) with 0; lia|].
      pose proof (di_next (0x1000 * (k - 1))) as Hn. replace (0x1000 * (k - 1) + 0x1000) with (0x1000 * k) in Hn by lia.
      assert (di (0x1000 * (k - 1)) ≤ di (0x1000 * k)) by (apply di_mono; lia).
      destruct Hpl as [[_ E]|[Hno E]]; [lia|].
      assert (di (0x1000 * (k - 1)) ≠ di (0x1000 * k)).
      { intros Ed. apply Hno. unfold has_table in *. by rewrite <- Ed. }
      apply page_up_least in Hp; [lia|]. rewrite Z.mul_comm, Z.mod_add by lia. done.
    + apply (only_above_trans s t t'); [by apply regs_bitmap in Hr as [? _]|done|].
      apply (only_above_trans t t1 t'); [|by destruct Hb|by destruct Hb'].
      exact (proj1 (regs_bitmap _ _ (b_regs _ _ _ _ _ Hb))).
Qed.

(** Pages of the kernel: those up to 8 MiB above the placement address. *)
Definition kernel_pages (placement : Z) : Z := (placement + 0x800000 + 0xFFF) / 0x1000.

Lemma identity_map_ok dir s cr3 :
  inv32 dir s → cr3_to_directory cr3 = dir → bm_words s = 512 → x_placement s + 0x800000 ≤ 0x4000000 →
  0 ≤ x_placement s → (∀ w, is32 w → entries dir s w = 0) → (∀ g, known s g → used s g = false) →
  wp (identity_map_kernel cr3) (λ _ t, kernel_done dir s (kernel_pages (x_placement s)) t) s.
Proof.
  intros Hi Hc Hbm HP H0 He Hu. unfold identity_map_kernel. apply wp_bind, wp_gets.
  rewrite (wrap_small 32) by lia. fold (kernel_pages (x_placement s)).
  assert (0 ≤ kernel_pages (x_placement s) ≤ 0x4000) as Hn.
  { unfold kernel_pages. split; [apply Z.div_pos; lia|]. apply Z.lt_succ_r, Z.div_lt_upper_bound; lia. }
  pose proof (page_up_spec (x_placement s)) as [Hus _].
  apply (wp_for_up_to _ _ (λ k t, kernel_done dir s k t)); [lia|..].
  - split; try done; [..|by left].
    + intros w Hw. rewrite He by done. destruct Hw. assert (0 ≤ w / 0x1000) by (apply Z.div_pos; lia). by bcase.
    + intros g Hg. rewrite Hu by done. unfold known in Hg. by bcase.
  - intros k t Hk Ht. pose proof (kernel_done_limit dir s k t ltac:(lia) Ht) as Hl.
    apply wp_bind, (get_page_make dir).
    + by destruct Ht. + unfold is32; lia. + done. + unfold room. lia.
    + intros t1 Hb Htab Htlb _ Hpl _. eapply alloc_step; try done; [lia|]. unfold known. lia.
Qed.

(** What the processor sees of the identity map. *)
Lemma kernel_done_walk dir s k t w :
  0 ≤ k ≤ 0x4000 → kernel_done dir s k t → is32 w → walk (x_mem t) dir w = ident k w.
Proof.
  intros Hk [Hi _ He _ _ _ _] Hw. rewrite (walk_pte dir) by done. fold (entries dir t w). rewrite He by done.
  unfold ident. destruct (Z.ltb_spec (w / 0x1000) k); [|done].
  destruct Hw. assert (0 ≤ w / 0x1000) by (apply Z.div_pos; lia).
  by apply alloc_entry_spec; [|lia].
Qed.

(** ** The ranges mapped at boot *)

(** A state of the boot: the translations so far and a bound on the memory given out. *)
Record boot_at (s : m32) (dir : Z) (r : Z * Z * Z * Z * Z * Z * gmap Z string) (bound : Z)
    (W : Z → option (Z * bool * bool)) (t : m32) : Prop := {
  ba_inv : inv32 dir t;
  ba_regs : regs t = r;
  ba_place : x_placement t ≤ bound;
  ba_walk : ∀ w, is32 w → walk (x_mem t) dir w = W w;
  ba_base : x_frames t = x_frames s;
  ba_frame : only_above s t;
}.

Definition over_range (start stop : Z) (W : Z → option (Z * bool * bool)) (w : Z) : option (Z * bool * bool) :=
  if (start <=? w) && (w <? stop) then Some (w / 0x1000 * 0x1000, true, false) else W w.

Lemma frame_of_up x d : x mod 0x1000 = 0 → 0 ≤ d < 0x1000 → is32 (x + d) → frame_of (x + d) = x.
Proof.
  intros Hm Hd Hx. rewrite frame_of_arith by done. pose proof (Z.div_mod x 0x1000 ltac:(lia)) as E.
  replace (x + d) with (x / 0x1000 * 0x1000 + d) by lia. rewrite Z.div_add_l, (Z.div_small d) by lia. lia.
Qed.

(** A range of whole pages under one directory entry. *)
Lemma boot_range s dir r bound W t start length :
  boot_at s dir r bound W t → bound mod 0x1000 = 0 → start mod 0x1000 = 0 → length mod 0x1000 = 0 →
  0 ≤ start → 0 < length → start + length + 0xFFF < 2 ^ 32 → di start = di (start + length - 0x1000) →
  bound + 0x2000 < 2 ^ 32 →
  (∀ f, start / 0x1000 ≤ f < (start + length) / 0x1000 → harmless dir t (bound + 0x2000) f) →
  wp (map_physical_range start length true true dir)
    (λ _ t', boot_at s dir r (bound + 0x1000) (over_range start (start + length) W) t') t.
Proof.
  intros [Hi Hr Hp HW Hbase Hfr] Hbm Hsm Hlm H0 Hl Hwrap Hd Hb Hh.
  assert ((start + length) mod 0x1000 = 0) as Hem by (rewrite Z.add_mod, Hsm, Hlm by lia; done).
  pose proof (frame_of_up start 0 Hsm ltac:(lia) ltac:(unfold is32; lia)) as Es. rewrite Z.add_0_r in Es.
  pose proof (frame_of_up (start + length) 0xFFF Hem ltac:(lia) ltac:(unfold is32; lia)) as Ee.
  pose proof (page_up_least _ _ Hp Hbm) as Hpu. pose proof (page_up_spec (x_placement t)) as [Hut _].
  assert (limit_for t start (start + length - 0x1000) ≤ bound + 0x2000) as Hlim by (unfold limit_for; lia).
  assert (dir ≤ x_placement t) as Hdp by (destruct (i_dir _ _ Hi); lia).
  assert (is32 dir) as Hdir.
  { destruct (i_bitmap _ _ Hi) as (? & _ & ?). destruct (i_nframes _ _ Hi). destruct (i_dir _ _ Hi).
    assert (0 ≤ bm_words t) by (apply Z.div_pos; lia). unfold is32. lia. }
  eapply wp_mono; [apply (range_ok dir); rewrite ?Es, ?Ee; try done|].
  - by apply (cr3_dir dir t).
  - lia.
  - intros f Hf. destruct (Hh f Hf) as [?|(? & ? & ?)]; [by left|right]. split; [done|]. split; [|done]. lia.
  - cbv beta. rewrite Es, Ee. intros _ t' [Ri Rr Rw _ _ [_ Rp] Rf].
    pose proof (Z.div_mod length 0x1000 ltac:(lia)) as El.
    replace (start + length - start) with (length / 0x1000 * 0x1000) in * by lia.
    rewrite Z.div_mul in * by lia. replace (start + 0x1000 * (length / 0x1000 - 1)) with (start + length - 0x1000) in * by lia.
    split; [done|congruence|lia| |by apply regs_bitmap in Rr as [-> _]|by apply (only_above_trans s t t')].
    intros w Hw. rewrite Rw by done. unfold over_range.
    replace (start + 0x1000 * (length / 0x1000)) with (start + length) by lia. by rewrite HW.
Qed.

(** ** The whole of [init_paging] *)

(** The state the bitmap and the directory are set up in, with everything cleared. *)
Lemma fresh_directory p s :
  p mod 0x1000 = 0 → 0 < p → p + 0x2000 < 2 ^ 32 →
  x_frames s = p → x_nframes s = 0x4000 → x_placement s = p + 0x2000 →
  (∀ a, is32 (rd (x_mem s) a)) → (∀ j, 0 ≤ j < 512 → rd (x_mem s) (p + 4 * j) = 0) →
  (∀ j, 0 ≤ j < 1024 → rd (x_mem s) (p + 0x1000 + 4 * j) = 0) →
  inv32 (p + 0x1000) s ∧ (∀ w, is32 w → entries (p + 0x1000) s w = 0) ∧ (∀ g, known s g → used s g = false).
Proof.
  intros Hm Hp Hb Hfr Hnf Hpl Hw Hz Hd. assert (bm_words s = 512) as Hbm by (unfold bm_words; by rewrite Hnf).
  pose proof (Z.div_mod p 0x1000 ltac:(lia)) as Hdiv.
  split; [split|split].
  - done.
  - by rewrite Hnf.
  - rewrite Hfr, Hbm. split; [lia|]. split; [|lia].
    replace p with (p / 0x1000 * 0x400 * 4) by lia. apply Z.mod_mul. lia.
  - rewrite Hpl. split; [|lia]. rewrite Z.add_mod, Hm by lia. done.
  - intros i Hi. rewrite Hd by done. by rewrite Z.bits_0.
  - intros i j Hi Hj _. rewrite Hd by done. by rewrite Z.bits_0.
  - intros w Hw'. unfold entries, pte. rewrite Hd by (by apply di_bound). by rewrite Z.bits_0.
  - intros g Hg. unfold used. rewrite Hfr, Hz by (unfold known, BITSET_INDEX in *; rewrite Hbm in Hg;
      split; [apply Z.div_pos; lia|apply Z.div_lt_upper_bound; lia]). apply Z.bits_0.
Qed.

(** The translations after boot: the kernel and 8 MiB more, the top of the first 128 MiB, and the
    pages of the interrupt controllers. *)
Definition boot_map (p w : Z) : option (Z * bool * bool) :=
  over_range 0xFEE00000 0xFEE01000 (over_range 0xFEC00000 0xFEC01000 (over_range 0xE0000 0x100000
    (over_range 0x7fe0000 0x8000000 (over_range 0x80000 0x100000 (ident (kernel_pages p)))))) w.

Section ranges.
Context (p : Z) (s : m32) (r : Z * Z * Z * Z * Z * Z * gmap Z string).
Context (Hm : p mod 0x1000 = 0) (Hp : 0 < p) (Hb : p ≤ 0x3800000).
Context (Hfr : x_frames s = p) (Hnf : x_nframes s = 0x4000) (Hr : regs s = r).

Lemma bound_aligned k : (p + 0x1000 * k) mod 0x1000 = 0.
Proof using Hm. by rewrite Z.mul_comm, Z.mod_add by lia. Qed.

Lemma low_known t f : regs t = r → 0 ≤ f < 0x4000 → known t f.
Proof using Hnf Hr.
  intros Ht Hf. rewrite <- Hr in Ht. apply regs_bitmap in Ht as [_ E]. unfold known, bm_words.
  rewrite E, Hnf. exact Hf.
Qed.

Lemma high_word t f : regs t = r → mark_word t f = p + 4 * (f / 32) ∧ bm_words t = 512.
Proof using Hfr Hnf Hr.
  intros Ht. rewrite <- Hr in Ht. apply regs_bitmap in Ht as [E1 E2]. unfold mark_word, bm_words.
  by rewrite E1, E2, Hfr, Hnf.
Qed.

Lemma boot_ranges {A} (rest : M m32 A) Q t :
  boot_at s (p + 0x1000) r (p + 0x1000 * 0x12) (ident (kernel_pages (p + 0x2000))) t →
  (∀ t', boot_at s (p + 0x1000) r (p + 0x1000 * 0x17) (boot_map (p + 0x2000)) t' → wp rest Q t') →
  wp (map_physical_range 0x80000 0x80000 true true (p + 0x1000) ;;
      map_physical_range 0x7fe0000 0x20000 true true (p + 0x1000) ;;
      map_physical_range 0xE0000 0x20000 true true (p + 0x1000) ;;
      map_physical_range 0xFEC00000 0x1000 true true (p + 0x1000) ;;
      map_physical_range 0xFEE00000 0x1000 true true (p + 0x1000) ;; rest) Q t.
Proof using All.
  assert (∀ k W t start length, 0x12 ≤ k ≤ 0x16 → start mod 0x1000 = 0 → length mod 0x1000 = 0 → 0 ≤ start →
    0 < length → start + length + 0xFFF < 2 ^ 32 → di start = di (start + length - 0x1000) →
    (∀ f, start / 0x1000 ≤ f < (start + length) / 0x1000 →
       0 ≤ f < 0x4000 ∨ 0x7fe0 ≤ f < 0x8000 ∨ f = 0xFEC00 ∨ f = 0xFEE00) →
    boot_at s (p + 0x1000) r (p + 0x1000 * k) W t →
    wp (map_physical_range start length true true (p + 0x1000))
      (λ _ t', boot_at s (p + 0x1000) r (p + 0x1000 * (k + 1)) (over_range start (start + length) W) t') t) as Hrange.
  { intros k W t0 start length Hk Hs Hl H0 Hl0 Hw Hd Hf Ht.
    replace (p + 0x1000 * (k + 1)) with (p + 0x1000 * k + 0x1000) by lia.
    apply boot_range; try done; [apply bound_aligned|lia|]. destruct Ht as [_ Hrt _ _ _ _].
    intros f Hin. destruct (high_word t0 f Hrt) as [Ew Ebm]. unfold harmless. rewrite Ew, Ebm.
    destruct (Hf f Hin) as [Hlow|[Hmid|[->| ->]]]; [left; by apply low_known|right..].
    - assert (f / 32 = 1023) as -> by (symmetry; apply (Z.div_unique _ _ _ (f - 32736)); lia). lia.
    - change (0xFEC00 / 32) with 32608. lia.
    - change (0xFEE00 / 32) with 32624. lia. }
  intros Ht Hrest. unfold boot_map in Hrest.
  eapply wp_bind_mono; [apply (Hrange 0x12); [lia|done|done|lia|lia|lia|done| |exact Ht]|cbv beta; intros _ t1 Ht1].
  { intros f. change (0x80000 / 0x1000) with 0x80. change ((0x80000 + 0x80000) / 0x1000) with 0x100. lia. }
  eapply wp_bind_mono; [apply (Hrange 0x13); [lia|done|done|lia|lia|lia|done| |exact Ht1]|cbv beta; intros _ t2 Ht2].
  { intros f. change (0x7fe0000 / 0x1000) with 0x7fe0. change ((0x7fe0000 + 0x20000) / 0x1000) with 0x8000. lia. }
  eapply wp_bind_mono; [apply (Hrange 0x14); [lia|done|done|lia|lia|lia|done| |exact Ht2]|cbv beta; intros _ t3 Ht3].
  { intros f. change (0xE0000 / 0x1000) with 0xE0. change ((0xE0000 + 0x20000) / 0x1000) with 0x100. lia. }
  eapply wp_bind_mono; [apply (Hrange 0x15); [lia|done|done|lia|lia|lia|done| |exact Ht3]|cbv beta; intros _ t4 Ht4].
  { intros f. change (0xFEC00000 / 0x1000) with 0xFEC00. change ((0xFEC00000 + 0x1000) / 0x1000) with 0xFEC01. lia. }
  eapply wp_bind_mono; [apply (Hrange 0x16); [lia|done|done|lia|lia|lia|done| |exact Ht4]|cbv beta; intros _ t5 Ht5].
  { intros f. change (0xFEE00000 / 0x1000) with 0xFEE00. change ((0xFEE00000 + 0x1000) / 0x1000) with 0xFEE01. lia. }
  by apply Hrest.
Qed.
End ranges.

Lemma init_paging_ok s :
  let p := x_placement s in
  (∀ a, is32 (rd (x_mem s) a)) → p mod 0x1000 = 0 → 0 < p → p + 0x802000 ≤ 0x4000000 →
  wp init_paging (λ _ t,
    inv32 (p + 0x1000) t ∧
    (∀ w, is32 w → walk (x_mem t) (p + 0x1000) w = boot_map (p + 0x2000) w) ∧
    x_cr3 t = p + 0x1000 ∧ x_current_dir t = p + 0x1000 ∧ Z.testbit (x_cr0 t) 31 = true ∧
    x_handlers t !! 14 = Some "page_fault"%string ∧ x_tlb t = ∅ ∧
    x_nframes t = 0x4000 ∧ x_placement t ≤ p + 0x17000 ∧
    x_frames t = p ∧ (∀ a, a < p ∨ p + 0x20000 ≤ a → rd (x_mem t) a = rd (x_mem s) a)) s.
Proof.
  intros p Hw Hm Hp Hend. unfold init_paging.
  change (0x4000000 / 0x1000) with 0x4000. change (BITSET_INDEX 0x4000 * 4) with 0x800. change (BITSET_INDEX 0x4000) with 512.
  assert (page_up (p + 0x800) = p + 0x1000) as Hup.
  { unfold page_up. pose proof (Z.div_mod p 0x1000 ltac:(lia)).
    replace (p + 0x800 + 0xFFF) with ((p / 0x1000 + 1) * 0x1000 + 0x7FF) by lia.
    rewrite Z.div_add_l by lia. change (0x7FF / 0x1000) with 0. lia. }
  unfold kmalloc. apply wp_bind, wp_bind, wp_gets, wp_bind, wp_modify, wp_ret. fold p.
  rewrite (wrap_small 32) by lia. apply wp_bind, wp_modify.
  apply wp_bind, wp_memset0; [lia|lia|]. intros m1 Z1 O1 V1.
  apply wp_bind, wp_kmalloc_a; cbn [x_placement set_xmem set_bitmap set_xplacement]; rewrite ?Hup; [lia..|].
  apply wp_bind, wp_memset0; [lia|lia|]. cbn [x_mem set_xmem set_bitmap set_xplacement] in *. intros m2 Z2 O2 V2.
  apply wp_bind, wp_modify. set (s1 := set_dirs _ _ _).
  destruct (fresh_directory p s1) as (Hi & He & Hu); try done.
  { lia. } { cbn. lia. }
  { intros a. cbn. destruct (V2 a) as [->| ->]; [done|]. destruct (V1 a) as [->| ->]; done. }
  { intros j Hj. cbn. rewrite O2 by lia. by apply Z1. }
  assert (cr3_to_directory (p + 0x1000) = p + 0x1000) as Hc.
  { apply (cr3_dir _ s1); [done|unfold is32; lia|done]. }
  assert (x_placement s1 = p + 0x2000) as Hpl by (cbn; lia).
  eapply wp_bind_mono; [apply (identity_map_ok (p + 0x1000)); try done; lia|]. rewrite Hpl.
  cbv beta. intros _ t1 Hk.
  assert (0 ≤ kernel_pages (p + 0x2000) ≤ 0x4000) as Hn.
  { unfold kernel_pages. split; [apply Z.div_pos; lia|]. apply Z.lt_succ_r, Z.div_lt_upper_bound; lia. }
  pose proof (kernel_done_limit _ _ _ _ Hn Hk) as Hl. rewrite Hpl in Hl.
  pose proof (page_up_spec (x_placement t1)) as [Hu1 _].
  assert (page_up (p + 0x2000) ≤ p + 0x2000) as Hu2.
  { apply page_up_least; [lia|]. rewrite Z.add_mod, Hm by lia. done. }
  apply (boot_ranges p s1 (regs s1)); try done; [lia|..].
  - split; [by destruct Hk|by destruct Hk|lia| |by destruct Hk as [_ [? _]%regs_bitmap _ _ _ _ _]|by destruct Hk].
    intros w Hw'. by apply (kernel_done_walk _ s1).
  - intros t [Ti Tr Tp Tw Tb [_ Tf]]. apply wp_bind, wp_modify. repeat (apply wp_bind, wp_modify). apply wp_modify.
    split; [by destruct Ti; split|]. split; [done|]. split; [done|]. split; [done|].
    split; [cbn [x_cr0 set_xcr0]; change CR0_PG with (2 ^ 31); by rewrite testbit_set_bit|].
    split; [apply lookup_insert_eq|]. split; [done|].
    split; [apply regs_bitmap in Tr as [_ Tr]; exact Tr|]. split; [cbn; lia|]. split; [exact Tb|].
    intros a Ha. cbn [x_mem set_xcr0 set_xcr3 set_dirs set_xhandler]. rewrite Tf by (cbn; lia).
    cbn [s1 x_mem set_dirs set_xmem]. rewrite O2, O1 by lia. done.
Qed.

(** C24: [init_paging], from a page-aligned placement address low enough for the 64 MiB of frames:
    it returns with paging on and [cr3] at a directory that identity maps, writable for the kernel
    and closed to user code, the kernel image with 8 MiB of heap, the firmware areas and the two
    interrupt controllers, and maps nothing else; the page fault handler is registered. *)
Theorem init_paging_correct s :
  let p := x_placement s in
  (∀ a, is32 (rd (x_mem s) a)) → p mod 0x1000 = 0 → 0 < p → p + 0x802000 ≤ 0x4000000 →
  wp init_paging (λ _ t,
    inv32 (p + 0x1000) t ∧
    (∀ w, is32 w → walk (x_mem t) (p + 0x1000) w = boot_map (p + 0x2000) w) ∧
    x_cr3 t = p + 0x1000 ∧ x_current_dir t = p + 0x1000 ∧ Z.testbit (x_cr0 t) 31 = true ∧
    x_handlers t !! 14 = Some "page_fault"%string ∧ x_tlb t = ∅) s.
Proof.
  intros p Hw Hm Hp Hend. eapply wp_mono; [by apply init_paging_ok|]. cbv beta.
  intros _ t (H1 & H2 & H3 & H4 & H5 & H6 & H7 & _). by split_and!.
Qed.

(** A loader state: 1.5 MiB of kernel, all memory clear. *)
Definition ex_boot_state : m32 := M32 ∅ 0x180000 0 0 0 0 0 0 ∅ ∅ [].

Lemma init_paging_correct_witness :
  wp init_paging (λ _ t,
    inv32 (0x180000 + 0x1000) t ∧
    (∀ w, is32 w → walk (x_mem t) (0x180000 + 0x1000) w = boot_map (0x180000 + 0x2000) w) ∧
    x_cr3 t = 0x180000 + 0x1000 ∧ x_current_dir t = 0x180000 + 0x1000 ∧ Z.testbit (x_cr0 t) 31 = true ∧
    x_handlers t !! 14 = Some "page_fault"%string ∧ x_tlb t = ∅) ex_boot_state.
Proof.
  apply (init_paging_correct ex_boot_state); [|done|done|done].
  intros a. unfold rd, ex_boot_state. cbn [x_mem]. rewrite lookup_empty. done.
Defined.
