(* ===== verification/I386VmTest.v ===== *)
(** * The virtual memory tests of the 32-bit port ([arch/i386/jury/test_paging.c], [test_vm.c])

    The tests run with paging on, so that their loads and stores go through the processor's
    translation: the TLB first, and the tables when it has no entry. *)

From S2P Require Import Prelude Loops Mm I386Paging I386Walk I386Ops I386PagingProps I386RangeProps I386BootProps.

(** ** Access to virtual memory *)

(** The physical address of [va].  The kernel may write to every present page, as [CR0.WP] is
    clear. *)
Definition mmu (va : Z) : M m32 Z :=
  cr0 ← gets x_cr0;
  if negb (Z.testbit cr0 31) then mret va else
  let page := va / 0x1000 * 0x1000 in
  tlb ← gets x_tlb;
  match tlb !! page with
  | Some t => mret (t.1.1 + va mod 0x1000)
  | None =>
      mem ← gets x_mem;
      cr3 ← gets x_cr3;
      match walk mem (cr3_to_directory cr3) va with
      | Some t => modify (set_xtlb <[page := t]>) ;; mret (t.1.1 + va mod 0x1000)
      | None => fault va
      end
  end.

Definition vld32 (va : Z) : M m32 Z := pa ← mmu va; ld32 pa.
Definition vst32 (va v : Z) : M m32 unit := pa ← mmu va; st32 pa v.

(** ** The tests *)

(** Without the messages of a debugging build. *)
(* src/arch/i386/jury/test_paging.c 9-57 test_paging *)
Definition test_paging : M m32 unit :=
  mem_test_addr ← (pa ← gets x_placement; mret (u32 (pa + 0x100)));
  vst32 mem_test_addr 0xDEADBEEF ;;
  v ← vld32 mem_test_addr;
  if negb (v =? 0xDEADBEEF) then
    say "Paging test failed: " [] ;;
    v ← vld32 mem_test_addr;
    say "got 0x%x, expected 0xDEADBEEF" [v]
  else
  mem_test_addr ← (pa ← gets x_placement; mret (u32 (pa + 0x100)));
  vst32 mem_test_addr 0xDEADBEEF ;;
  v ← vld32 mem_test_addr;
  if negb (v =? 0xDEADBEEF) then
    say "Paging test failed: second memory location write failed" []
  else
  say "[paging]: all paging tests passed" [].

(* src/arch/i386/jury/test_vm.c 8-65 test_vm *)
Definition test_vm : M m32 unit :=
  let test_virt := 0xA0000000 in
  let test_phys := 0x500000 in
  (cr3 ← read_cr3; map_page test_virt test_phys true true cr3) ;;
  vst32 test_virt 0xDEADBEEF ;;
  phys_value ← vld32 test_phys;
  when (negb (phys_value =? 0xDEADBEEF)) (
    say "[vm_test]: Test 1 FAILED" [] ;;
    say " - got 0x%x, expected 0xDEADBEEF" [phys_value] ;;
    halt) ;;
  (cr3 ← read_cr3; unmap_page test_virt cr3) ;;
  let test_phys2 := 0x600000 in
  (cr3 ← read_cr3; map_page test_virt test_phys2 true true cr3) ;;
  vst32 test_virt 0xCAFEBABE ;;
  phys2_value ← vld32 test_phys2;
  when (negb (phys2_value =? 0xCAFEBABE)) (say "[vm_test]: Test 2 FAILED" [] ;; halt) ;;
  mapped ← (cr3 ← read_cr3; is_page_mapped test_virt cr3);
  ok ← (if (mapped : bool) then
          other ← (cr3 ← read_cr3; is_page_mapped 0xC0000000 cr3); mret (negb other)
        else mret false);
  when (negb ok) (say "[vm_test]: Test 3 FAILED" [] ;; halt) ;;
  say "[vm_test]: all tests passed" [].

(** ** What an access does *)

(** The state of a machine that runs on the directory [dir], without stale translations. *)
Record running (dir : Z) (s : m32) : Prop := {
  run_inv : inv32 dir s;
  run_cr3 : x_cr3 s = dir;
  run_tlb : tlb_ok dir s;
  run_paging : Z.testbit (x_cr0 s) 31 = true;
}.

Lemma running_dir dir s : running dir s → cr3_to_directory dir = dir ∧ is32 dir.
Proof.
  intros [Hi _ _ _]. assert (is32 dir) as Hd.
  { destruct (i_bitmap _ _ Hi) as (? & _ & ?). destruct (i_nframes _ _ Hi). destruct (i_dir _ _ Hi).
    assert (0 ≤ bm_words s) by (apply Z.div_pos; lia). unfold is32. lia. }
  split; [by apply (cr3_dir dir s)|done].
Qed.

(** A page and its addresses have the same translation. *)
Lemma walk_page m dir va : walk m dir (va / 0x1000 * 0x1000) = walk m dir va.
Proof.
  assert (va / 0x1000 * 0x1000 / 0x1000 = va / 0x1000) as E by (by rewrite Z.div_mul).
  apply same_page in E as [E1 E2]. unfold walk, pte_at. by rewrite E1, E2.
Qed.

(** An access changes nothing but the TLB. *)
Lemma wp_mmu dir s va f w u (Q : Z → m32 → Prop) :
  running dir s → is32 va → walk (x_mem s) dir va = Some (f, w, u) →
  (∀ g, running dir (set_xtlb g s) → Q (f + va mod 0x1000) (set_xtlb g s)) → wp (mmu va) Q s.
Proof.
  intros Hrun Hva Hw HQ. destruct (running_dir _ _ Hrun) as [Hc _]. destruct Hrun as [Hi Hcr Ht Hpg].
  unfold mmu. apply wp_bind, wp_gets. rewrite Hpg. cbn [negb]. apply wp_bind, wp_gets. destruct (x_tlb s !! _) as [t|] eqn:E.
  - destruct (Ht _ _ E) as (_ & _ & Hw'). rewrite walk_page, Hw in Hw'. injection Hw' as <-. apply wp_ret.
    specialize (HQ id). replace (set_xtlb id s) with s in HQ by (by destruct s). by apply HQ.
  - apply wp_bind, wp_gets, wp_bind, wp_gets. rewrite Hcr, Hc, Hw. apply wp_bind, wp_modify, wp_ret. apply HQ.
    split; [by destruct Hi; split|done| |done]. intros p t. cbn [x_tlb set_xtlb]. intros [[<- <-]|[_ Hp]]%lookup_insert_Some; [|by apply Ht].
    destruct Hva. pose proof (Z.div_mod va 0x1000 ltac:(lia)). pose proof (Z.mod_pos_bound va 0x1000 ltac:(lia)).
    split; [unfold is32; lia|]. split; [by rewrite Z.mod_mul|]. cbn [x_mem set_xtlb]. by rewrite walk_page.
Qed.

(** A store to memory that holds no table. *)
Lemma running_store dir s a v :
  running dir s → is32 v → dir + 0x1000 ≤ a → no_table dir s a →
  running dir (set_xmem <[a := v]> s) ∧
  (∀ w, is32 w → walk (<[a := v]> (x_mem s)) dir w = walk (x_mem s) dir w).
Proof.
  intros [Hi Hcr Ht Hpg] Hv Ha Hno. pose proof (inv32_store dir s a v Hi Hv ltac:(lia)) as Hi'.
  assert (∀ w, is32 w → walk (<[a := v]> (x_mem s)) dir w = walk (x_mem s) dir w) as Hw.
  { intros w Hw. pose proof (walk_pte dir _ w Hi' Hw) as E. cbn [x_mem set_xmem] in E. rewrite E.
    rewrite (pte_store_free dir s) by done. by rewrite (walk_pte dir s). }
  split; [|done]. split; [done|done| |done]. intros p t Hp. destruct (Ht p t Hp) as (H1 & H2 & H3).
  split; [done|]. split; [done|]. cbn [x_mem set_xmem]. by rewrite Hw.
Qed.

(** Everything but memory and the TLB. *)
Definition rest (s s' : m32) : Prop := x_placement s' = x_placement s ∧ x_out s' = x_out s ∧ regs s' = regs s.

(** A value stored at an address of free memory is read back at any address of the same place. *)
Lemma wp_store_load {B} dir s va f w u va' f' w' u' v (k : Z → M m32 B) (Q : B → m32 → Prop) :
  running dir s → is32 va → is32 va' → is32 v →
  walk (x_mem s) dir va = Some (f, w, u) → walk (x_mem s) dir va' = Some (f', w', u') →
  f' + va' mod 0x1000 = f + va mod 0x1000 → x_placement s ≤ f + va mod 0x1000 →
  (∀ s', running dir s' → (∀ a, is32 a → walk (x_mem s') dir a = walk (x_mem s) dir a) → rest s s' → wp (k v) Q s') →
  wp (vst32 va v ;; x ← vld32 va'; k x) Q s.
Proof.
  intros Hrun Hva Hva' Hv Hw Hw' Ea Hno HQ. unfold vst32, vld32.
  apply wp_bind, wp_bind, (wp_mmu dir s va f w u); [done..|]. intros g Hg. apply wp_modify.
  destruct (running_store dir (set_xtlb g s) (f + va mod 0x1000) v Hg Hv) as [Hrun1 Hw1].
  { destruct (i_dir _ _ (run_inv _ _ Hrun)). lia. } { by right. }
  apply wp_bind, wp_bind, (wp_mmu dir _ va' f' w' u'); [done|done|by rewrite <- Hw'; apply Hw1|].
  intros g' Hg'. apply wp_gets. cbn [x_mem set_xmem set_xtlb]. rewrite rd_insert, Ea, Z.eqb_refl. by apply HQ.
Qed.

Lemma wp_map_running dir s va pa (Q : unit → m32 → Prop) :
  running dir s → is32 va → is32 pa → room s → known s (pa / 0x1000) →
  (∀ s', running dir s' →
     (∀ w, is32 w → walk (x_mem s') dir w =
        if w / 0x1000 =? va / 0x1000 then Some (frame_of pa, true, false) else walk (x_mem s) dir w) →
     x_placement s ≤ x_placement s' ≤ page_up (x_placement s) + 0x1000 → x_out s' = x_out s → regs s' = regs s → Q tt s') →
  wp (cr3 ← read_cr3; map_page va pa true true cr3) Q s.
Proof.
  intros Hrun Hva Hpa Hr Hk HQ. destruct (running_dir _ _ Hrun) as [Hc _]. destruct Hrun as [Hi Hcr Ht Hpg].
  apply wp_bind, wp_gets. rewrite Hcr. eapply wp_mono; [by apply (map_page32_ok dir)|]. cbv beta.
  intros [] s' ((e & Hb & Hd) & Htlb & Hp & Ho). pose proof (b_regs _ _ _ _ _ Hb) as Hreg. apply HQ; try done.
  - unfold regs in Hreg. injection Hreg as _ _ _ _ Ec0 Ec3 _.
    split; [by destruct Hb|congruence|by eapply tlb_ok_entry|by rewrite Ec0].
  - intros w Hw. rewrite (becomes_walk_entry dir s s' va e _ w Hi Hb Hw). by rewrite Hd.
Qed.

(** ** The tests pass *)

(** A machine that runs on [dir] with the translations [W], has given out memory up to [P] at most and printed [o]. *)
Record vm (dir : Z) (W : Z → option (Z * bool * bool)) (P : Z) (o : list (string * list Z)) (s : m32) : Prop := {
  vm_running : running dir s;
  vm_nframes : x_nframes s = 0x4000;
  vm_walk : ∀ w, is32 w → walk (x_mem s) dir w = W w;
  vm_placement : x_placement s ≤ P;
  vm_out : x_out s = o;
}.

Definition vmap (va : Z) (e : option (Z * bool * bool)) (W : Z → option (Z * bool * bool)) (w : Z) : option (Z * bool * bool) :=
  if w / 0x1000 =? va / 0x1000 then e else W w.

Section steps.
Context (dir : Z) (W : Z → option (Z * bool * bool)) (P : Z) (o : list (string * list Z)) (s : m32).
Context (Hvm : vm dir W P o s).

Lemma vm_store_load {B} va f w u va' f' w' u' v (k : Z → M m32 B) (Q : B → m32 → Prop) :
  is32 va → is32 va' → is32 v → W va = Some (f, w, u) → W va' = Some (f', w', u') →
  f' + va' mod 0x1000 = f + va mod 0x1000 → P ≤ f + va mod 0x1000 →
  (∀ s', vm dir W P o s' → x_placement s' = x_placement s → wp (k v) Q s') → wp (vst32 va v ;; x ← vld32 va'; k x) Q s.
Proof using Hvm.
  destruct Hvm as [Hr Hn Hw Hp Ho]. intros Hva Hva' Hv H H' E HP HQ.
  eapply (wp_store_load dir); [done..|by rewrite Hw|by rewrite Hw|done|lia|].
  intros s' Hr' Hw' (Ep & Eo & Er). apply HQ; [|done]. apply regs_bitmap in Er as [_ En].
  split; [done|congruence| |lia|congruence]. intros a Ha. rewrite Hw' by done. by apply Hw.
Qed.

Lemma vm_map va pa (Q : unit → m32 → Prop) :
  is32 va → 0 ≤ pa < 0x4000000 → P mod 0x1000 = 0 → P + 0x1000 < 2 ^ 32 →
  (∀ s', vm dir (vmap va (Some (frame_of pa, true, false)) W) (P + 0x1000) o s' → Q tt s') →
  wp (cr3 ← read_cr3; map_page va pa true true cr3) Q s.
Proof using Hvm.
  destruct Hvm as [Hr Hn Hw Hp Ho]. intros Hva Hpa Hm HP HQ.
  assert (page_up (x_placement s) ≤ P) as Hup by (by apply page_up_least).
  apply (wp_map_running dir); [done|done|unfold is32; lia|unfold room; lia| |].
  { unfold known, bm_words. rewrite Hn. change (32 * _) with 0x4000.
    split; [apply Z.div_pos; lia|apply Z.div_lt_upper_bound; lia]. }
  intros s' Hr' Hw' Ep Eo Er. apply HQ. apply regs_bitmap in Er as [_ En].
  split; [done|congruence| |lia|congruence]. intros a Ha. rewrite Hw' by done. unfold vmap. by rewrite Hw.
Qed.

Lemma vm_unmap va (Q : Z → m32 → Prop) :
  is32 va → (∀ r s', vm dir (vmap va None W) P o s' → Q r s') → wp (cr3 ← read_cr3; unmap_page va cr3) Q s.
Proof using Hvm.
  destruct Hvm as [Hr Hn Hw Hp Ho]. intros Hva HQ. destruct (running_dir _ _ Hr) as [Hc _]. destruct Hr as [Hi Hcr Ht Hpg].
  apply wp_bind, wp_gets. rewrite Hcr. eapply wp_mono; [by apply (unmap_page32_correct dir)|]. cbv beta.
  intros r s' (_ & Hi' & Hw' & _ & Ht' & Er & Ep & Eo). apply HQ. pose proof (proj2 (regs_bitmap _ _ Er)) as En.
  unfold regs in Er. injection Er as _ _ _ _ Ec0 Ec3 _.
  split; [|congruence| |lia|congruence].
  - split; [done|congruence|by apply Ht'|by rewrite Ec0].
  - intros a Ha. rewrite Hw' by done. unfold vmap. by rewrite Hw.
Qed.

Lemma vm_mapped va : is32 va → (cr3 ← read_cr3; is_page_mapped va cr3) s = Ok (bool_decide (is_Some (W va)), s).
Proof using Hvm.
  destruct Hvm as [Hr Hn Hw Hp Ho]. intros Hva. destruct (running_dir _ _ Hr) as [Hc _]. destruct Hr as [Hi Hcr Ht Hpg].
  rewrite (M_bind_Ok _ _ s (x_cr3 s) s) by reflexivity. rewrite Hcr, (is_page_mapped_correct dir) by done. by rewrite Hw.
Qed.

End steps.

(** Low memory up to 7 MiB is identity mapped, and the page the tests expect to be unmapped is. *)
Definition tests_map (W : Z → option (Z * bool * bool)) : Prop :=
  (∀ w, 0 ≤ w < 0x700000 → W w = Some (w / 0x1000 * 0x1000, true, false)) ∧ W 0xC0000000 = None.

Lemma vm_say dir W P o s msg args (Q : unit → m32 → Prop) :
  vm dir W P o s → (∀ s', vm dir W P (o ++ [(msg, args)]) s' → Q tt s') → wp (say msg args) Q s.
Proof.
  intros [[Hi Hc Ht Hpg] Hn Hw Hp Ho] HQ. apply wp_modify, HQ. split; [|done|done|done|].
  - split; [by destruct Hi; split|done|done|done].
  - cbn. by rewrite Ho.
Qed.

Lemma test_paging_ok dir W P o s :
  vm dir W P o s → tests_map W → P ≤ 0x500000 →
  wp test_paging (λ _ t, vm dir W P (o ++ [("[paging]: all paging tests passed"%string, [])]) t) s.
Proof.
  intros Hvm [Hlow _] HP. set (p := x_placement s).
  assert (0 ≤ p ≤ P) as Hp.
  { destruct (i_dir _ _ (run_inv _ _ (vm_running _ _ _ _ _ Hvm))), (running_dir _ _ (vm_running _ _ _ _ _ Hvm)) as [_ []].
    destruct Hvm. unfold p. lia. }
  assert (vm dir W p o s) as Hvm0 by (by destruct Hvm; split).
  assert (∀ t B (k : Z → M m32 B) Q, vm dir W p o t →
    (∀ t', vm dir W p o t' → x_placement t' = x_placement t → wp (k 0xDEADBEEF) Q t') →
    wp (vst32 (p + 0x100) 0xDEADBEEF ;; x ← vld32 (p + 0x100); k x) Q t) as Hround.
  { intros t B k Q Ht Hk. pose proof (Z.div_mod (p + 0x100) 0x1000 ltac:(lia)).
    assert (W (p + 0x100) = Some ((p + 0x100) / 0x1000 * 0x1000, true, false)) by (apply Hlow; lia).
    eapply (vm_store_load dir W p o t Ht); [unfold is32; lia..|done|done|done|lia|done]. }
  unfold test_paging. apply wp_bind, wp_bind, wp_gets, wp_ret. fold p. rewrite wrap_small by lia.
  apply Hround; [done|]. intros s1 H1 P1. cbn [negb Z.eqb Pos.eqb].
  apply wp_bind, wp_bind, wp_gets, wp_ret. rewrite P1. fold p. rewrite wrap_small by lia.
  apply Hround; [done|]. intros s2 H2 P2. cbn [negb Z.eqb Pos.eqb].
  eapply vm_say; [done|]. intros s3 H3. destruct H3; split; [done..|lia|done].
Qed.

Lemma test_vm_ok dir W P o s :
  vm dir W P o s → tests_map W → P mod 0x1000 = 0 → P + 0x2000 ≤ 0x500000 →
  wp test_vm (λ _ t, vm dir (vmap 0xA0000000 (Some (0x600000, true, false)) W) (P + 0x2000)
                       (o ++ [("[vm_test]: all tests passed"%string, [])]) t) s.
Proof.
  intros Hvm [Hlow Hhole] Hm HP. unfold test_vm. cbv zeta.
  apply wp_bind, (vm_map dir W P o s Hvm); [done|lia|done|lia|]. intros s1 H1.
  eapply (vm_store_load _ _ _ _ _ H1); [done..|reflexivity|by apply (Hlow 0x500000)|done|transitivity 0x500000; [lia|done]|].
  intros s2 H2 _. cbn [Z.eqb Pos.eqb negb when]. apply wp_bind, wp_ret.
  apply wp_bind, (vm_unmap _ _ _ _ _ H2); [done|]. intros _ s3 H3.
  apply wp_bind, (vm_map _ _ _ _ s3 H3); [done|lia| |lia|].
  { by rewrite Z.add_mod, Hm by lia. }
  intros s4 H4.
  eapply (vm_store_load _ _ _ _ _ H4); [done..|reflexivity|by apply (Hlow 0x600000)|done|transitivity 0x600000; [lia|done]|].
  intros s5 H5 _. cbn [Z.eqb Pos.eqb negb when]. apply wp_bind, wp_ret.
  apply wp_bind. eapply wp_intro; [by apply (vm_mapped _ _ _ _ _ H5)|].
  rewrite bool_decide_eq_true_2 by (by eexists). apply wp_bind, wp_bind.
  eapply wp_intro; [by apply (vm_mapped _ _ _ _ _ H5)|]. apply wp_ret.
  rewrite bool_decide_eq_false_2; [|by unfold vmap; cbn [Z.div Z.eqb]; rewrite Hhole; intros []].
  cbn [negb when]. apply wp_bind, wp_ret. eapply vm_say; [done|]. intros s6 [H61 H62 H63 H64 H65].
  split; [done|done| |lia|done]. intros w Hw. rewrite H63 by done. unfold vmap. by case_match.
Qed.

(** ** From boot *)

Lemma boot_map_low p w : 0 ≤ p → 0 ≤ w < 0x700000 → boot_map p w = Some (w / 0x1000 * 0x1000, true, false).
Proof.
  intros Hp Hw. unfold boot_map, over_range, ident. assert (w / 0x1000 < kernel_pages p) as Hk.
  { unfold kernel_pages. apply Z.div_lt_upper_bound; [lia|].
    pose proof (Z.div_mod (p + 0x800000 + 0xFFF) 0x1000 ltac:(lia)).
    pose proof (Z.mod_pos_bound (p + 0x800000 + 0xFFF) 0x1000 ltac:(lia)). lia. }
  apply Z.ltb_lt in Hk. rewrite Hk. by repeat case_match.
Qed.

Lemma boot_map_hole p : p ≤ 0x3802000 → boot_map p 0xC0000000 = None.
Proof.
  intros Hp. unfold boot_map, over_range, ident. cbn [Z.leb Z.ltb Z.compare Pos.compare Pos.compare_cont andb].
  rewrite (proj2 (Z.ltb_ge _ _)); [done|]. unfold kernel_pages. apply Z.lt_le_incl, Z.div_lt_upper_bound; [lia|].
  change (0xC0000000 / 0x1000) with 0xC0000. lia.
Qed.

(** C25: the boot sequence of the 32-bit port up to its memory tests.  From a page-aligned placement address of which
    the kernel's tables fit below 5 MiB, [init_paging] followed by [test_paging] and [test_vm], whose loads and stores go
    through the TLB and the tables, prints that all tests passed and returns: no access faults, and no test halts the
    machine.  The tests leave 0xA0000000 mapped to the frame at 6 MiB, and every other translation as [init_paging] made
    it. *)
Theorem vm_tests_pass s :
  let p := x_placement s in
  (∀ a, is32 (rd (x_mem s) a)) → p mod 0x1000 = 0 → 0 < p → p + 0x19000 ≤ 0x500000 →
  wp (init_paging ;; test_paging ;; test_vm) (λ _ t,
    (∃ boot_messages, x_out t = boot_messages ++
       [("[paging]: all paging tests passed"%string, []); ("[vm_test]: all tests passed"%string, [])]) ∧
    inv32 (p + 0x1000) t ∧ x_cr3 t = p + 0x1000 ∧ tlb_ok (p + 0x1000) t ∧
    ∀ w, is32 w → walk (x_mem t) (p + 0x1000) w =
      if w / 0x1000 =? 0xA0000 then Some (0x600000, true, false) else boot_map (p + 0x2000) w) s.
Proof.
  intros p Hw Hm Hp Hend. eapply wp_bind_mono; [apply init_paging_ok; [done..|fold p; lia]|]. cbv beta. fold p.
  intros _ s1 (Hi & Hwalk & Hcr & _ & Hpg & _ & Htlb & Hn & Hpl & _).
  assert (vm (p + 0x1000) (boot_map (p + 0x2000)) (p + 0x17000) (x_out s1) s1) as H1.
  { split; [|done|done|done|done]. split; [done|done| |done]. intros w t. by rewrite Htlb, lookup_empty. }
  assert (tests_map (boot_map (p + 0x2000))) as Hmap.
  { split; [|apply boot_map_hole; lia]. intros w Hw'. by apply boot_map_low; [lia|]. }
  eapply wp_bind_mono; [by apply (test_paging_ok _ _ _ _ _ H1); [|lia]|]. cbv beta. intros _ s2 H2.
  eapply wp_mono; [apply (test_vm_ok _ _ _ _ _ H2 Hmap); [|lia]|].
  { by rewrite Z.add_mod, Hm by lia. }
  cbv beta. intros _ t [[Hi' Hc' Ht' _] _ Hw' _ Ho]. split; [exists (x_out s1); by rewrite Ho, <- app_assoc|].
  split_and!; done.
Qed.

Lemma vm_tests_pass_witness :
  wp (init_paging ;; test_paging ;; test_vm) (λ _ t,
    (∃ boot_messages, x_out t = boot_messages ++
       [("[paging]: all paging tests passed"%string, []); ("[vm_test]: all tests passed"%string, [])]) ∧
    inv32 (0x180000 + 0x1000) t ∧ x_cr3 t = 0x180000 + 0x1000 ∧ tlb_ok (0x180000 + 0x1000) t ∧
    ∀ w, is32 w → walk (x_mem t) (0x180000 + 0x1000) w =
      if w / 0x1000 =? 0xA0000 then Some (0x600000, true, false) else boot_map (0x180000 + 0x2000) w) ex_boot_state.
Proof.
  apply (vm_tests_pass ex_boot_state); [|done|done|done].
  intros a. unfold rd, ex_boot_state. cbn [x_mem]. rewrite lookup_empty. done.
Defined.
