(* ===== verification/Vga.v ===== *)
(** * The VGA text terminal of the 32-bit port ([arch/i386/drivers/tty.c])

    The 80 by 25 cells of video memory, each a character with its colours, the position of the next
    character, and the writes to the ports of the hardware cursor.  A write outside the video memory
    faults. *)

From S2P Require Import Prelude Loops Arrays.

Definition VGA_WIDTH : Z := 80.
Definition VGA_HEIGHT : Z := 25.

Record vga := Vga {
  v_buf : list Z;              (* terminal_buffer *)
  v_row : Z;                   (* terminal_row *)
  v_col : Z;                   (* terminal_column *)
  v_color : Z;                 (* terminal_color *)
  v_out : list (Z * Z);        (* port writes *)
}.

Definition set_buf (b : list Z) (s : vga) : vga := Vga b (v_row s) (v_col s) (v_color s) (v_out s).
Definition set_cursor (r c : Z) (s : vga) : vga := Vga (v_buf s) r c (v_color s) (v_out s).
Definition set_color (k : Z) (s : vga) : vga := Vga (v_buf s) (v_row s) (v_col s) k (v_out s).
Definition add_port (p v : Z) (s : vga) : vga :=
  Vga (v_buf s) (v_row s) (v_col s) (v_color s) (v_out s ++ [(p, v)]).

Definition on_buf {A} (m : M (list Z) A) : M vga A := λ s,
  match m (v_buf s) with
  | Ok (x, b) => Ok (x, set_buf b s)
  | Panic msg => Panic msg | Halt => Halt | Fault i => Fault i | OutOfFuel => OutOfFuel
  end.

(* src/include/kernel/vga.h 25-27 vga_entry_color *)
Definition vga_entry_color (fg bg : Z) : Z := u8 (fg .| (bg .<< 4)).

(* src/include/kernel/vga.h 29-31 vga_entry *)
Definition vga_entry (uc color : Z) : Z := u16 (uc .| (color .<< 8)).

Definition VGA_COLOR_BLACK : Z := 0.
Definition VGA_COLOR_RED : Z := 4.
Definition VGA_COLOR_LIGHT_GREY : Z := 7.
Definition VGA_COLOR_WHITE : Z := 15.

Definition outb (port v : Z) : M vga unit := modify (add_port port (u8 v)).

(** ** The terminal *)

(* src/arch/i386/drivers/tty.c 44-54 update_hardware_cursor *)
Definition update_hardware_cursor : M vga unit :=
  row ← gets v_row;
  col ← gets v_col;
  let cursor_location := u16 (row * VGA_WIDTH + col) in
  outb 0x3D4 0x0E ;;
  outb 0x3D5 (cursor_location .>> 8) ;;
  outb 0x3D4 0x0F ;;
  outb 0x3D5 (cursor_location .& 0xFF).

(** Blank cells of row [y]. *)
Definition clear_row (y : Z) : M vga unit :=
  for_up (Z.to_nat VGA_WIDTH) 0 (λ x,
    color ← gets v_color;
    on_buf (st (y * VGA_WIDTH + x) (vga_entry 32 color))).

(* src/arch/i386/drivers/tty.c 26-38 terminal_initialize *)
Definition terminal_initialize : M vga unit :=
  modify (set_cursor 0 0) ;;
  modify (set_color (vga_entry_color VGA_COLOR_WHITE VGA_COLOR_BLACK)) ;;
  for_up (Z.to_nat VGA_HEIGHT) 0 clear_row ;;
  update_hardware_cursor.

(* src/arch/i386/drivers/tty.c 40-42 terminal_setcolor *)
Definition terminal_setcolor (color : Z) : M vga unit := modify (set_color color).

(* src/arch/i386/drivers/tty.c 56-60 terminal_set_cursor *)
Definition terminal_set_cursor (x y : Z) : M vga unit :=
  modify (set_cursor y x) ;;
  update_hardware_cursor.

(* src/arch/i386/drivers/tty.c 62-72 terminal_putentryat_visual_debug *)
Definition terminal_putentryat_visual_debug (c color x y : Z) : M vga unit :=
  if (VGA_WIDTH <=? x) || (VGA_HEIGHT <=? y) then
    on_buf (st 0 (vga_entry 33 (vga_entry_color VGA_COLOR_WHITE VGA_COLOR_RED)))
  else on_buf (st (y * VGA_WIDTH + x) (vga_entry c color)).

(** Out of bounds the word BUGBUGBUG is shown and the processor stopped. *)
(* src/arch/i386/drivers/tty.c 84-99 terminal_putentryat *)
Definition terminal_putentryat (c color x y : Z) : M vga unit :=
  if (VGA_WIDTH <=? x) || (VGA_HEIGHT <=? y) then
    color ← gets v_color;
    on_buf (st 0 (vga_entry 66 color)) ;; on_buf (st 1 (vga_entry 85 color)) ;;
    on_buf (st 2 (vga_entry 71 color)) ;; on_buf (st 3 (vga_entry 66 color)) ;;
    on_buf (st 4 (vga_entry 85 color)) ;; on_buf (st 5 (vga_entry 71 color)) ;;
    on_buf (st 6 (vga_entry 66 color)) ;; on_buf (st 7 (vga_entry 85 color)) ;;
    on_buf (st 8 (vga_entry 71 color)) ;; halt
  else on_buf (st (y * VGA_WIDTH + x) (vga_entry c color)).

(** Row [r] becomes what row [r + rows] is. *)
Definition copy_row (rows r : Z) : M vga unit :=
  for_up (Z.to_nat VGA_WIDTH) 0 (λ c,
    v ← on_buf (ld ((r + rows) * VGA_WIDTH + c));
    on_buf (st (r * VGA_WIDTH + c) v)).

(* src/arch/i386/drivers/tty.c 101-112 terminal_scroll *)
Definition terminal_scroll : M vga unit :=
  for_up (Z.to_nat (VGA_HEIGHT - 1)) 0 (copy_row 1) ;;
  clear_row (VGA_HEIGHT - 1).

(* src/arch/i386/drivers/tty.c 114-140 terminal_scrolln *)
Definition terminal_scrolln (rows : Z) : M vga unit :=
  if rows =? 0 then mret tt else
  if VGA_HEIGHT <=? rows then
    for_up (Z.to_nat (VGA_WIDTH * VGA_HEIGHT)) 0 (λ i,
      color ← gets v_color; on_buf (st i (vga_entry 32 color)))
  else
  for_up (Z.to_nat (VGA_HEIGHT - rows)) 0 (copy_row rows) ;;
  for_up (Z.to_nat rows) (VGA_HEIGHT - rows) clear_row.

(* src/arch/i386/drivers/tty.c 142-185 terminal_putchar *)
Definition terminal_putchar (c : Z) : M vga unit :=
  let uc := u8 c in
  if c =? 8 then
    col ← gets v_col;
    when (0 <? col) (
      modify (λ s, set_cursor (v_row s) (v_col s - 1) s) ;;
      row ← gets v_row; col ← gets v_col; color ← gets v_color;
      terminal_putentryat 32 color col row ;;
      update_hardware_cursor)
  else if c =? 10 then
    row ← gets v_row;
    (if VGA_HEIGHT - 1 <=? row then
       terminal_scroll ;; modify (λ s, set_cursor (VGA_HEIGHT - 1) (v_col s) s)
     else modify (λ s, set_cursor (v_row s + 1) (v_col s) s)) ;;
    modify (λ s, set_cursor (v_row s) 0 s) ;;
    update_hardware_cursor
  else
  row ← gets v_row; col ← gets v_col; color ← gets v_color;
  terminal_putentryat uc color col row ;;
  modify (λ s, set_cursor (v_row s) (v_col s + 1) s) ;;
  col ← gets v_col;
  when (VGA_WIDTH <=? col) (
    modify (λ s, set_cursor (v_row s + 1) 0 s) ;;
    row ← gets v_row;
    when (VGA_HEIGHT <=? row) (
      terminal_scroll ;; modify (λ s, set_cursor (VGA_HEIGHT - 1) (v_col s) s))) ;;
  update_hardware_cursor.

(* src/arch/i386/drivers/tty.c 187-194 terminal_putchar_at *)
Definition terminal_putchar_at (c x y : Z) : M vga unit :=
  if (x <? 0) || (y <? 0) || (VGA_WIDTH <=? x) || (VGA_HEIGHT <=? y) then halt else
  color ← gets v_color;
  terminal_putentryat (u8 c) color x y.

(* src/arch/i386/drivers/tty.c 196-200 terminal_write *)
Fixpoint terminal_write (data : list Z) : M vga unit :=
  match data with
  | [] => mret tt
  | c :: data => terminal_putchar c ;; terminal_write data
  end.

(** The digits of [n], the last one first; [tmp] has room for eleven. *)
Fixpoint dec_digits (fuel : nat) (n : Z) : list Z :=
  match fuel with
  | O => []
  | S fuel => n mod 10 :: (if nz (n / 10) then dec_digits fuel (n / 10) else [])
  end.

(* src/arch/i386/drivers/tty.c 202-214 terminal_write_dec *)
Definition terminal_write_dec (n : Z) : M vga unit :=
  terminal_write ((λ d, 48 + d) <$> reverse (dec_digits 11 n)).

(** The string without its terminator. *)
(* src/arch/i386/drivers/tty.c 216-218 terminal_writestring *)
Definition terminal_writestring (data : list Z) : M vga unit := terminal_write data.

(* src/arch/i386/drivers/tty.c 220-225 print_colored *)
Definition print_colored (str : list Z) (fg bg : Z) : M vga unit :=
  old_color ← gets v_color;
  modify (set_color (vga_entry_color fg bg)) ;;
  terminal_writestring str ;;
  modify (set_color old_color).
