(* ===== verification/Tty64.v ===== *)
(** * The VGA text terminal of the 64-bit port ([arch/x86_64/drivers/tty.c])

    The same screen without a hardware cursor; after the last row the output starts over at the
    first. *)

From S2P Require Import Prelude Loops Arrays Vga.

(* src/arch/x86_64/drivers/tty.c 18-29 terminal_initialize *)
Definition terminal_initialize : M vga unit :=
  modify (set_cursor 0 0) ;;
  modify (set_color (vga_entry_color VGA_COLOR_LIGHT_GREY VGA_COLOR_BLACK)) ;;
  for_up (Z.to_nat VGA_HEIGHT) 0 clear_row.

(* src/arch/x86_64/drivers/tty.c 35-38 terminal_putentryat *)
Definition terminal_putentryat (c color x y : Z) : M vga unit :=
  on_buf (st (y * VGA_WIDTH + x) (vga_entry c color)).

(** Advance to the next row, after the last one to the first. *)
Definition next_row (s : vga) : vga :=
  set_cursor (if v_row s + 1 =? VGA_HEIGHT then 0 else v_row s + 1) 0 s.

(* src/arch/x86_64/drivers/tty.c 40-56 terminal_putchar *)
Definition terminal_putchar (c : Z) : M vga unit :=
  let uc := u8 c in
  if c =? 10 then modify next_row else
  row ← gets v_row; col ← gets v_col; color ← gets v_color;
  terminal_putentryat uc color col row ;;
  modify (λ s, if v_col s + 1 =? VGA_WIDTH then next_row s else set_cursor (v_row s) (v_col s + 1) s).

(* src/arch/x86_64/drivers/tty.c 58-62 terminal_write *)
Fixpoint terminal_write (data : list Z) : M vga unit :=
  match data with
  | [] => mret tt
  | c :: data => terminal_putchar c ;; terminal_write data
  end.

(* src/arch/x86_64/drivers/tty.c 68-73 print_colored *)
Definition print_colored (str : list Z) (fg bg : Z) : M vga unit :=
  old_color ← gets v_color;
  modify (set_color (vga_entry_color fg bg)) ;;
  terminal_write str ;;
  modify (set_color old_color).
