(* ===== verification/VgaProps.v ===== *)
(** * The theorems about the text terminals *)

From S2P Require Import Prelude Loops Arrays Format Vga.

Definition CELLS : Z := 2000.

(** The screen is whole and the next character is on it. *)
Record vga_ok (s : vga) : Prop := {
  vo_buf : len (v_buf s) = CELLS;
  vo_row : 0 ≤ v_row s < VGA_HEIGHT;
  vo_col : 0 ≤ v_col s < VGA_WIDTH;
}.

Lemma wp_on_buf {A} (m : M (list Z) A) Q s :
  wp m (λ x b, Q x (set_buf b s)) (v_buf s) → wp (on_buf m) Q s.
Proof. unfold wp, on_buf. by destruct (m (v_buf s)) as [[]| | | |]. Qed.

(** ** Rows *)

Definition blank (color : Z) : Z := vga_entry 32 color.

(** A loop over the columns of row [r] that sets each cell to a value taken from the screen as it was. *)
Lemma row_loop r (body : Z → M vga unit) (f : Z → Z) s :
  len (v_buf s) = CELLS → 0 ≤ r < VGA_HEIGHT →
  (∀ c t, 0 ≤ c < VGA_WIDTH → (∃ b, t = set_buf b s ∧ len b = CELLS ∧
     ∀ i, 0 ≤ i → (i < r * VGA_WIDTH ∨ r * VGA_WIDTH + c ≤ i) → at_ b i = at_ (v_buf s) i) →
     body c t = on_buf (st (r * VGA_WIDTH + c) (f c)) t) →
  wp (for_up (Z.to_nat VGA_WIDTH) 0 body) (λ _ t, ∃ b, t = set_buf b s ∧ len b = CELLS ∧
    ∀ i, 0 ≤ i → at_ b i = if (r * VGA_WIDTH <=? i) && (i <? (r + 1) * VGA_WIDTH)
                            then f (i - r * VGA_WIDTH) else at_ (v_buf s) i) s.
Proof.
  unfold VGA_WIDTH, VGA_HEIGHT, CELLS. intros Hl Hr Hbody. eapply wp_mono.
  - apply (wp_for_up_to _ _ (λ c t, ∃ b, t = set_buf b s ∧ len b = 2000 ∧
      ∀ i, 0 ≤ i → at_ b i = if (r * 80 <=? i) && (i <? r * 80 + c) then f (i - r * 80) else at_ (v_buf s) i)); [lia|..].
    + exists (v_buf s). split; [by destruct s|]. split; [done|]. intros i Hi. bcase; done.
    + intros c t Hc (b & -> & Hb & Hat). unfold wp. rewrite Hbody; [|done|].
      2: { exists b. split; [done|]. split; [done|]. intros i Hi Ho. rewrite Hat by done. bcase; done. }
      apply wp_on_buf, wp_st; cbn [v_buf set_buf]; [lia|]. exists (upd b (r * 80 + c) (f c)). split; [done|].
      split; [by rewrite length_upd|]. intros i Hi. rewrite at_upd, Hat by lia. bcase; try done; f_equal; lia.
  - cbv beta. intros _ t (b & -> & Hb & Hat). exists b. split; [done|]. split; [done|]. intros i Hi. rewrite Hat by done.
    by replace ((r + 1) * 80) with (r * 80 + 80) by lia.
Qed.

Lemma clear_row_ok r s :
  len (v_buf s) = CELLS → 0 ≤ r < VGA_HEIGHT →
  wp (clear_row r) (λ _ t, ∃ b, t = set_buf b s ∧ len b = CELLS ∧
    ∀ i, 0 ≤ i → at_ b i = if (r * VGA_WIDTH <=? i) && (i <? (r + 1) * VGA_WIDTH)
                            then blank (v_color s) else at_ (v_buf s) i) s.
Proof. intros Hl Hr. apply (row_loop r _ (λ _, blank (v_color s))); [done|done|]. by intros c t Hc (b & -> & _). Qed.

Lemma copy_row_ok k r s :
  len (v_buf s) = CELLS → 0 < k → 0 ≤ r → r + k < VGA_HEIGHT →
  wp (copy_row k r) (λ _ t, ∃ b, t = set_buf b s ∧ len b = CELLS ∧
    ∀ i, 0 ≤ i → at_ b i = if (r * VGA_WIDTH <=? i) && (i <? (r + 1) * VGA_WIDTH)
                            then at_ (v_buf s) (i + k * VGA_WIDTH) else at_ (v_buf s) i) s.
Proof.
  unfold VGA_WIDTH, VGA_HEIGHT, CELLS. intros Hl Hk Hr Hrk.
  eapply wp_mono; [apply (row_loop r _ (λ c, at_ (v_buf s) ((r + k) * 80 + c))); unfold VGA_WIDTH, VGA_HEIGHT, CELLS; [done|lia|]|].
  - intros c t Hc (b & -> & Hb & Hat). rewrite (M_bind_Ok _ _ _ (at_ b ((r + k) * 80 + c)) (set_buf b s)).
    + by rewrite Hat by lia.
    + unfold on_buf, ld. cbn [v_buf set_buf]. rewrite (proj2 (Z.ltb_ge _ 0)), lookup_at by lia. done.
  - cbv beta. unfold VGA_WIDTH, CELLS. intros _ t (b & -> & Hb & Hat). exists b. split; [done|]. split; [done|].
    intros i Hi. rewrite Hat by done. bcase; try done. f_equal. lia.
Qed.

(** ** Scrolling *)

(** The screen moved up by [n] rows. *)
Definition scrolled (n color : Z) (b : list Z) : list Z :=
  drop (Z.to_nat (n * VGA_WIDTH)) b ++ replicate (Z.to_nat (n * VGA_WIDTH)) (blank color).

Lemma at_scrolled n color b i :
  len b = CELLS → 0 ≤ n ≤ VGA_HEIGHT → 0 ≤ i < CELLS →
  at_ (scrolled n color b) i = if i <? CELLS - n * VGA_WIDTH then at_ b (i + n * VGA_WIDTH) else blank color.
Proof.
  unfold CELLS, VGA_WIDTH, VGA_HEIGHT, scrolled, VGA_WIDTH, at_. intros Hb Hn Hi.
  rewrite list_lookup_total_alt. bcase.
  - rewrite lookup_app_l by (rewrite length_drop; lia). rewrite lookup_drop, list_lookup_total_alt.
    do 2 f_equal. lia.
  - rewrite lookup_app_r by (rewrite length_drop; lia). rewrite lookup_replicate_2; [done|]. rewrite length_drop. lia.
Qed.

Lemma length_scrolled n color b : len b = CELLS → 0 ≤ n ≤ VGA_HEIGHT → len (scrolled n color b) = CELLS.
Proof.
  unfold CELLS, VGA_HEIGHT, scrolled, VGA_WIDTH. intros Hb Hn. rewrite length_app, length_drop, length_replicate. lia.
Qed.

Lemma scrolled_add n m color b :
  len b = CELLS → 0 ≤ n → 0 ≤ m → n + m ≤ VGA_HEIGHT →
  scrolled m color (scrolled n color b) = scrolled (n + m) color b.
Proof.
  intros Hb Hn Hm Hnm. pose proof (length_scrolled n color b Hb ltac:(lia)) as L1.
  pose proof (length_scrolled m color _ L1 ltac:(lia)) as L2.
  pose proof (length_scrolled (n + m) color b Hb ltac:(lia)) as L3.
  apply at_eq; [lia|]. intros i Hi. rewrite L2 in Hi.
  rewrite (at_scrolled m), (at_scrolled (n + m)) by (done || lia). unfold CELLS, VGA_WIDTH in *. destruct (Z.ltb_spec i (2000 - m * 80)).
  - rewrite at_scrolled by (unfold CELLS; done || lia). unfold CELLS, VGA_WIDTH. bcase; try done; f_equal; lia.
  - bcase; done.
Qed.

(** Moving [n] rows up by [k], one after the other. *)
Lemma copy_rows_ok k n s :
  len (v_buf s) = CELLS → 0 < k → 0 ≤ n → n + k ≤ VGA_HEIGHT →
  wp (for_up (Z.to_nat n) 0 (copy_row k)) (λ _ t, ∃ b, t = set_buf b s ∧ len b = CELLS ∧
    ∀ i, 0 ≤ i → at_ b i = if i <? n * VGA_WIDTH then at_ (v_buf s) (i + k * VGA_WIDTH) else at_ (v_buf s) i) s.
Proof.
  unfold VGA_WIDTH, VGA_HEIGHT, CELLS. intros Hl Hk Hn Hnk.
  apply (wp_for_up_to _ _ (λ r t, ∃ b, t = set_buf b s ∧ len b = 2000 ∧
    ∀ i, 0 ≤ i → at_ b i = if i <? r * 80 then at_ (v_buf s) (i + k * 80) else at_ (v_buf s) i)); [lia|..].
  - exists (v_buf s). split; [by destruct s|]. split; [done|]. intros i Hi. by bcase.
  - intros r t Hr (b & -> & Hb & Hat). eapply wp_mono; [apply copy_row_ok; unfold VGA_HEIGHT, CELLS; cbn [v_buf set_buf]; lia|].
    cbv beta. unfold VGA_WIDTH, CELLS. cbn [v_buf set_buf]. intros _ t (b' & -> & Hb' & Hat').
    exists b'. split; [done|]. split; [done|]. intros i Hi. rewrite Hat', !Hat by lia. bcase; done.
Qed.

Lemma clear_rows_ok y n s :
  len (v_buf s) = CELLS → 0 ≤ y → 0 ≤ n → y + n ≤ VGA_HEIGHT →
  wp (for_up (Z.to_nat n) y clear_row) (λ _ t, ∃ b, t = set_buf b s ∧ len b = CELLS ∧
    ∀ i, 0 ≤ i → at_ b i = if (y * VGA_WIDTH <=? i) && (i <? (y + n) * VGA_WIDTH)
                            then blank (v_color s) else at_ (v_buf s) i) s.
Proof.
  unfold VGA_WIDTH, VGA_HEIGHT, CELLS. intros Hl Hy Hn Hyn. eapply wp_mono.
  - apply (wp_for_up _ y _ (λ r t, ∃ b, t = set_buf b s ∧ len b = 2000 ∧
      ∀ i, 0 ≤ i → at_ b i = if (y * 80 <=? i) && (i <? r * 80) then blank (v_color s) else at_ (v_buf s) i)).
    + exists (v_buf s). split; [by destruct s|]. split; [done|]. intros i Hi. bcase; done.
    + intros r t Hr (b & -> & Hb & Hat). eapply wp_mono; [apply clear_row_ok; unfold VGA_HEIGHT, CELLS; cbn [v_buf set_buf]; lia|].
      cbv beta. unfold VGA_WIDTH, CELLS. cbn [v_buf v_color set_buf]. intros _ t (b' & -> & Hb' & Hat').
      exists b'. split; [done|]. split; [done|]. intros i Hi. rewrite Hat', Hat by lia. bcase; done.
  - cbv beta. intros _ t (b & -> & Hb & Hat). exists b. split; [done|]. split; [done|]. intros i Hi.
    rewrite Hat by done. replace (y + Z.of_nat (Z.to_nat n)) with (y + n) by lia. done.
Qed.

Lemma scrolln_ok n s :
  len (v_buf s) = CELLS → 0 < n < VGA_HEIGHT →
  (for_up (Z.to_nat (VGA_HEIGHT - n)) 0 (copy_row n) ;; for_up (Z.to_nat n) (VGA_HEIGHT - n) clear_row) s =
    Ok (tt, set_buf (scrolled n (v_color s) (v_buf s)) s).
Proof.
  intros Hl Hn. unfold VGA_HEIGHT in *.
  pose proof (copy_rows_ok n (25 - n) s Hl ltac:(lia) ltac:(lia) ltac:(unfold VGA_HEIGHT; lia)) as ([] & t & E & b & -> & Hb & Hat)%wp_inv.
  rewrite (M_bind_Ok _ _ _ _ _ E).
  pose proof (clear_rows_ok (25 - n) n (set_buf b s) Hb ltac:(lia) ltac:(lia) ltac:(unfold VGA_HEIGHT; lia))
    as ([] & t & E' & b' & -> & Hb' & Hat')%wp_inv.
  rewrite E'. cbn [v_buf v_color set_buf] in *. replace b' with (scrolled n (v_color s) (v_buf s)); [done|].
  pose proof (length_scrolled n (v_color s) _ Hl ltac:(unfold VGA_HEIGHT; lia)) as Hls.
  apply at_eq; [lia|]. rewrite Hls. intros i Hi. rewrite at_scrolled by (unfold VGA_HEIGHT; lia).
  rewrite Hat', Hat by lia. unfold VGA_WIDTH, CELLS in *. bcase; done.
Qed.

Lemma scroll_ok s :
  len (v_buf s) = CELLS → terminal_scroll s = Ok (tt, set_buf (scrolled 1 (v_color s) (v_buf s)) s).
Proof.
  intros Hl. rewrite <- (scrolln_ok 1 s Hl ltac:(done)). unfold terminal_scroll, mbind, M_bind.
  destruct (for_up _ 0 (copy_row 1) s) as [[[] t]| | | |]; [|done..].
  change (Z.to_nat 1) with 1%nat. cbn [for_up]. unfold mbind, M_bind.
  by destruct (clear_row (VGA_HEIGHT - 1) t) as [[[] t']| | | |].
Qed.

(** Scrolled off altogether. *)
Lemma scrolled_full color b : len b = CELLS → scrolled VGA_HEIGHT color b = replicate 2000 (blank color).
Proof.
  unfold CELLS, scrolled, VGA_HEIGHT, VGA_WIDTH. intros Hb. change (Z.to_nat (25 * 80)) with 2000%nat.
  by rewrite drop_ge by lia.
Qed.

Fixpoint scroll_times (n : nat) : M vga unit :=
  match n with
  | O => mret tt
  | S n => terminal_scroll ;; scroll_times n
  end.

Lemma scroll_times_ok n : ∀ s,
  len (v_buf s) = CELLS →
  scroll_times n s = Ok (tt, set_buf (scrolled (Z.min (Z.of_nat n) VGA_HEIGHT) (v_color s) (v_buf s)) s).
Proof.
  induction n as [|n IH]; intros s Hl; cbn [scroll_times].
  - change (Z.min (Z.of_nat 0) VGA_HEIGHT) with 0. unfold scrolled. cbn. rewrite drop_0, app_nil_r. by destruct s.
  - pose proof (length_scrolled 1 (v_color s) _ Hl ltac:(done)) as L1.
    rewrite (M_bind_Ok _ _ _ _ _ (scroll_ok s Hl)). rewrite IH by done.
    cbn [v_buf v_color set_buf]. do 2 f_equal. unfold set_buf. f_equal. cbn.
    destruct (decide (Z.of_nat n < VGA_HEIGHT)) as [Hn|Hn].
    + rewrite scrolled_add by (done || unfold VGA_HEIGHT in *; lia). f_equal. unfold VGA_HEIGHT in *. lia.
    + rewrite !Z.min_r by lia. by rewrite !scrolled_full.
Qed.

Lemma fill_all_ok s :
  len (v_buf s) = CELLS →
  for_up (Z.to_nat (VGA_WIDTH * VGA_HEIGHT)) 0 (λ i,
    color ← gets v_color; on_buf (st i (vga_entry 32 color))) s =
  Ok (tt, set_buf (scrolled VGA_HEIGHT (v_color s) (v_buf s)) s).
Proof.
  intros Hl. rewrite scrolled_full by done. unfold CELLS in Hl.
  assert (wp (for_up (Z.to_nat 2000) 0 (λ i, color ← gets v_color; on_buf (st i (vga_entry 32 color))))
    (λ _ t, ∃ b, t = set_buf b s ∧ len b = 2000 ∧ ∀ i, 0 ≤ i < 2000 → at_ b i = blank (v_color s)) s)
    as ([] & t & E & b & -> & Hb & Hat)%wp_inv.
  - apply (wp_for_up_to _ _ (λ k t, ∃ b, t = set_buf b s ∧ len b = 2000 ∧
      ∀ i, 0 ≤ i < k → at_ b i = blank (v_color s))); [lia|..].
    + exists (v_buf s). split; [by destruct s|]. split; [done|lia].
    + intros k t Hk (b & -> & Hb & Hat). apply wp_bind, wp_gets, wp_on_buf, wp_st; cbn [v_buf set_buf]; [lia|].
      exists (upd b k (blank (v_color s))). split; [done|]. split; [by rewrite length_upd|].
      intros i Hi. rewrite at_upd by lia. bcase; apply Hat; lia.
  - change (VGA_WIDTH * VGA_HEIGHT) with 2000. rewrite E. do 3 f_equal.
    apply at_eq; [rewrite length_replicate; lia|]. rewrite Hb. intros i Hi. rewrite Hat by done.
    unfold at_. by rewrite lookup_total_replicate_2 by lia.
Qed.

(** [terminal_scrolln n] does what [n] calls of [terminal_scroll] do, for every [n]. *)
Theorem terminal_scrolln_equiv n s :
  len (v_buf s) = CELLS → terminal_scrolln (Z.of_nat n) s = scroll_times n s.
Proof.
  intros Hl. rewrite scroll_times_ok by done. unfold terminal_scrolln. destruct (Z.eqb_spec (Z.of_nat n) 0) as [E|E].
  - rewrite E. change (Z.min 0 VGA_HEIGHT) with 0. unfold scrolled. cbn. rewrite drop_0, app_nil_r. by destruct s.
  - destruct (Z.leb_spec VGA_HEIGHT (Z.of_nat n)) as [Hn|Hn].
    + rewrite Z.min_r by lia. by apply fill_all_ok.
    + rewrite Z.min_l by lia. apply scrolln_ok; [done|]. lia.
Qed.

Definition ex_vga : vga := Vga (replicate 2000 (vga_entry 65 7)) 24 79 7 [].

Lemma terminal_scrolln_equiv_witness : terminal_scrolln 3 ex_vga = scroll_times 3 ex_vga.
Proof. apply (terminal_scrolln_equiv 3); vm_compute; reflexivity. Defined.

(** ** Characters *)

(** The port writes that show the cursor. *)
Definition cursor_ports (r c : Z) : list (Z * Z) :=
  let loc := r * VGA_WIDTH + c in [(0x3D4, 0x0E); (0x3D5, loc / 256); (0x3D4, 0x0F); (0x3D5, loc mod 256)].

Definition move (r c : Z) (s : vga) : vga :=
  Vga (v_buf s) r c (v_color s) (v_out s ++ cursor_ports r c).

(** What a character does to the terminal. *)
Definition put (s : vga) (c : Z) : vga :=
  let here := v_row s * VGA_WIDTH + v_col s in
  if c =? 8 then
    if 0 <? v_col s then move (v_row s) (v_col s - 1) (set_buf (upd (v_buf s) (here - 1) (blank (v_color s))) s)
    else s
  else if c =? 10 then
    if v_row s =? 24 then move 24 0 (set_buf (scrolled 1 (v_color s) (v_buf s)) s)
    else move (v_row s + 1) 0 s
  else
    let b := upd (v_buf s) here (vga_entry (u8 c) (v_color s)) in
    if v_col s <? 79 then move (v_row s) (v_col s + 1) (set_buf b s)
    else if v_row s <? 24 then move (v_row s + 1) 0 (set_buf b s)
    else move 24 0 (set_buf (scrolled 1 (v_color s) b) s).

Lemma update_cursor_ok s :
  0 ≤ v_row s < VGA_HEIGHT → 0 ≤ v_col s < VGA_WIDTH →
  update_hardware_cursor s = Ok (tt, move (v_row s) (v_col s) s).
Proof.
  unfold VGA_HEIGHT, VGA_WIDTH. intros Hr Hc. unfold update_hardware_cursor, outb, move, cursor_ports.
  set (loc := v_row s * VGA_WIDTH + v_col s). assert (0 ≤ loc < 2000) as Hl by (unfold loc, VGA_WIDTH; lia).
  assert (u16 loc = loc) as E by (apply wrap_small; lia).
  assert (u8 (loc .>> 8) = loc / 256) as E1.
  { rewrite Z.shiftr_div_pow2 by lia. apply wrap_small. split; [apply Z.div_pos; lia|apply Z.div_lt_upper_bound; lia]. }
  assert (u8 (loc .& 0xFF) = loc mod 256) as E2.
  { change 0xFF with (Z.ones 8). rewrite Z.land_ones by lia. apply wrap_small, Z.mod_pos_bound. lia. }
  rewrite !(M_bind_Ok _ _ s _ s) by reflexivity. cbv zeta. fold loc. rewrite E.
  unfold modify, mbind, M_bind. rewrite E1, E2. unfold add_port. cbn [v_buf v_row v_col v_color v_out].
  by rewrite <- !app_assoc.
Qed.

Lemma putentryat_ok c color x y s :
  len (v_buf s) = CELLS → 0 ≤ x < VGA_WIDTH → 0 ≤ y < VGA_HEIGHT →
  terminal_putentryat c color x y s = Ok (tt, set_buf (upd (v_buf s) (y * VGA_WIDTH + x) (vga_entry c color)) s).
Proof.
  unfold CELLS, VGA_WIDTH, VGA_HEIGHT. intros Hb Hx Hy. unfold terminal_putentryat, VGA_WIDTH, VGA_HEIGHT.
  rewrite (proj2 (Z.leb_gt 80 x)), (proj2 (Z.leb_gt 25 y)) by lia. cbn [orb]. unfold on_buf, st.
  rewrite (proj2 (Z.ltb_ge _ 0)), lookup_at by lia. done.
Qed.

Lemma put_ok s c : vga_ok s → vga_ok (put s c).
Proof.
  intros [Hb Hr Hc]. unfold put. unfold CELLS, VGA_HEIGHT, VGA_WIDTH in *.
  assert (∀ b r c, len b = 2000 → 0 ≤ r < 25 → 0 ≤ c < 80 → vga_ok (move r c (set_buf b s))) as Hm by done.
  assert (∀ b, len b = 2000 → len (scrolled 1 (v_color s) b) = 2000) as Hs by (intros; by apply length_scrolled).
  bcase; try (apply Hm; rewrite ?length_upd; try apply Hs; rewrite ?length_upd; lia); split; unfold CELLS, VGA_HEIGHT, VGA_WIDTH; cbn; lia.
Qed.

Section putchar.
Context (s : vga) (Hok : vga_ok s).

Lemma putchar_back : terminal_putchar 8 s = Ok (tt, put s 8).
Proof using Hok.
  destruct Hok as [Hb Hr Hc]. unfold terminal_putchar, put. cbn [Z.eqb Pos.eqb].
  rewrite (M_bind_Ok _ _ s _ s) by reflexivity. destruct (Z.ltb_spec 0 (v_col s)) as [Hp|]; cbn [when]; [|done].
  unfold modify. rewrite (M_bind_Ok _ _ s tt _) by reflexivity. set (s1 := set_cursor _ _ s).
  do 3 rewrite (M_bind_Ok _ _ s1 _ s1) by reflexivity.
  rewrite (M_bind_Ok _ _ _ _ _ (putentryat_ok 32 (v_color s) (v_col s - 1) (v_row s) s1 Hb ltac:(lia) Hr)).
  rewrite update_cursor_ok by (unfold s1; cbn; lia).
  by replace (v_row s * VGA_WIDTH + v_col s - 1) with (v_row s * VGA_WIDTH + (v_col s - 1)) by lia.
Qed.

Lemma putchar_newline : terminal_putchar 10 s = Ok (tt, put s 10).
Proof using Hok.
  destruct Hok as [Hb Hr Hc]. unfold terminal_putchar, put. cbn [Z.eqb Pos.eqb].
  rewrite (M_bind_Ok _ _ s _ s) by reflexivity. change (VGA_HEIGHT - 1) with 24. unfold VGA_HEIGHT in Hr.
  destruct (Z.leb_spec 24 (v_row s)); destruct (Z.eqb_spec (v_row s) 24); try lia.
  - rewrite (M_bind_Ok _ _ s tt (set_cursor 24 (v_col s) (set_buf (scrolled 1 (v_color s) (v_buf s)) s))).
    2: { rewrite (M_bind_Ok _ _ _ _ _ (scroll_ok s Hb)). done. }
    unfold modify. rewrite (M_bind_Ok _ _ _ tt _) by reflexivity. by rewrite update_cursor_ok.
  - unfold modify. rewrite (M_bind_Ok _ _ s tt _) by reflexivity. rewrite (M_bind_Ok _ _ _ tt _) by reflexivity.
    rewrite update_cursor_ok by (cbn; unfold VGA_HEIGHT, VGA_WIDTH; lia). done.
Qed.

Lemma putchar_print c : c ≠ 8 → c ≠ 10 → terminal_putchar c s = Ok (tt, put s c).
Proof using Hok.
  intros H8 H10. destruct Hok as [Hb Hr Hc]. unfold terminal_putchar, put.
  rewrite (proj2 (Z.eqb_neq c 8)), (proj2 (Z.eqb_neq c 10)) by done.
  do 3 rewrite (M_bind_Ok _ _ s _ s) by reflexivity.
  rewrite (M_bind_Ok _ _ _ _ _ (putentryat_ok (u8 c) (v_color s) (v_col s) (v_row s) s Hb Hc Hr)).
  set (b := upd _ _ _). assert (len b = CELLS) as Hlb by (unfold b; by rewrite length_upd).
  unfold modify. rewrite (M_bind_Ok _ _ _ tt _) by reflexivity. rewrite (M_bind_Ok _ _ _ _ _) by reflexivity.
  cbn [v_col v_row set_cursor set_buf]. unfold VGA_HEIGHT, VGA_WIDTH in Hr, Hc.
  destruct (Z.leb_spec VGA_WIDTH (v_col s + 1)) as [Hw|Hw]; destruct (Z.ltb_spec (v_col s) 79);
    unfold VGA_WIDTH in Hw; try lia; cbn [when].
  2: { rewrite (M_bind_Ok _ _ _ tt _) by reflexivity.
    rewrite update_cursor_ok by (cbn; unfold VGA_HEIGHT, VGA_WIDTH; lia). done. }
  set (s1 := set_cursor (v_row s + 1) 0 (set_buf b s)).
  destruct (Z.ltb_spec (v_row s) 24).
  - rewrite (M_bind_Ok _ _ _ tt s1).
    2: { rewrite (M_bind_Ok _ _ _ tt s1) by reflexivity. rewrite (M_bind_Ok _ _ s1 _ s1) by reflexivity.
      cbn [v_row s1 set_cursor]. by rewrite (proj2 (Z.leb_gt VGA_HEIGHT _)) by (unfold VGA_HEIGHT; lia). }
    rewrite update_cursor_ok by (unfold s1, VGA_HEIGHT, VGA_WIDTH; cbn; lia). done.
  - rewrite (M_bind_Ok _ _ _ tt (set_cursor 24 0 (set_buf (scrolled 1 (v_color s) b) s))).
    2: { rewrite (M_bind_Ok _ _ _ tt s1) by reflexivity. rewrite (M_bind_Ok _ _ s1 _ s1) by reflexivity.
      cbn [v_row s1 set_cursor]. rewrite (proj2 (Z.leb_le VGA_HEIGHT _)) by (unfold VGA_HEIGHT; lia). cbn [when].
      rewrite (M_bind_Ok _ _ _ _ _ (scroll_ok s1 Hlb)). done. }
    by rewrite update_cursor_ok.
Qed.
End putchar.

Lemma vga_putchar_ok s c : vga_ok s → terminal_putchar c s = Ok (tt, put s c).
Proof.
  intros Hok. destruct (decide (c = 8)) as [->|]; [by apply putchar_back|].
  destruct (decide (c = 10)) as [->|]; [by apply putchar_newline|by apply putchar_print].
Qed.

(** The cursor on the screen is where the next character goes. *)
Definition cursor_shown (s : vga) : Prop := ∃ before, v_out s = before ++ cursor_ports (v_row s) (v_col s).

Lemma put_cursor s c : cursor_shown s → cursor_shown (put s c).
Proof.
  intros Hs. unfold put. assert (∀ r c t, cursor_shown (move r c t)) as Hm by (intros; by eexists).
  repeat case_match; done || apply Hm.
Qed.

(** Writing any text to the terminal character by character has the effect [put] describes:
    characters fill the rows, a full screen scrolls, a newline starts a row and a backspace rubs out
    on its row.  Every access is within the screen, the bounds check never stops the processor, and
    the hardware cursor stays where the next character goes. *)
Theorem terminal_write_correct data s :
  vga_ok s →
  terminal_write data s = Ok (tt, foldl put s data) ∧ vga_ok (foldl put s data) ∧
  (cursor_shown s → cursor_shown (foldl put s data)).
Proof.
  revert s. induction data as [|c data IH]; intros s Hok; [done|]. cbn [terminal_write foldl].
  rewrite (M_bind_Ok _ _ _ _ _ (vga_putchar_ok s c Hok)). destruct (IH (put s c) (put_ok s c Hok)) as (E & Ho & Hc).
  split; [done|]. split; [done|]. intros Hs. by apply Hc, put_cursor.
Qed.

Lemma terminal_write_correct_witness :
  terminal_write [72; 105; 10] ex_vga = Ok (tt, foldl put ex_vga [72; 105; 10]) ∧
  vga_ok (foldl put ex_vga [72; 105; 10]) ∧ (cursor_shown ex_vga → cursor_shown (foldl put ex_vga [72; 105; 10])).
Proof. apply terminal_write_correct. by split; vm_compute. Defined.

(** [terminal_initialize] clears the screen. *)
Lemma terminal_initialize_ok s :
  len (v_buf s) = CELLS →
  wp terminal_initialize (λ _ t, vga_ok t ∧ cursor_shown t ∧ v_row t = 0 ∧ v_col t = 0 ∧
    ∀ i, 0 ≤ i < CELLS → at_ (v_buf t) i = blank (vga_entry_color VGA_COLOR_WHITE VGA_COLOR_BLACK)) s.
Proof.
  intros Hl. unfold terminal_initialize. apply wp_bind, wp_modify, wp_bind, wp_modify.
  eapply wp_bind_mono; [apply (clear_rows_ok 0 VGA_HEIGHT); done|]. cbv beta. cbn [v_buf v_color set_color set_cursor].
  intros _ t (b & -> & Hb & Hat). eapply wp_intro; [by apply update_cursor_ok|].
  split; [by split|]. split; [by eexists|]. split; [done|]. split; [done|]. intros i Hi. cbn [v_buf move set_buf].
  rewrite Hat by lia. unfold CELLS, VGA_WIDTH, VGA_HEIGHT in *. bcase; done.
Qed.

(** [terminal_write_dec] writes the decimal numeral of a 32-bit number. *)
Lemma dec_digits_eq fuel n : 0 < n < 10 ^ Z.of_nat fuel → dec_digits fuel n = digits fuel 10 n.
Proof.
  revert n. induction fuel as [|fuel IH]; intros n Hn; cbn [dec_digits digits]; [lia|].
  rewrite (proj2 (Z.eqb_neq n 0)) by lia. f_equal. rewrite Nat2Z.inj_succ, Z.pow_succ_r in Hn by lia.
  unfold nz. destruct (Z.eqb_spec (n / 10) 0) as [E|E]; cbn [negb].
  - rewrite E. by destruct fuel.
  - apply IH. split; [|apply Z.div_lt_upper_bound; lia]. assert (0 ≤ n / 10) by (apply Z.div_pos; lia). lia.
Qed.

Lemma digits_more k b n v : 2 ≤ b → 0 ≤ v < b ^ Z.of_nat n → digits (n + k) b v = digits n b v.
Proof.
  intros Hb. revert v. induction n as [|n IH]; intros v Hv; cbn [digits Nat.add].
  - assert (v = 0) as -> by lia. by destruct k.
  - case_match; [done|]. f_equal. apply IH. rewrite Nat2Z.inj_succ, Z.pow_succ_r in Hv by lia.
    split; [apply Z.div_pos; lia|apply Z.div_lt_upper_bound; lia].
Qed.

Lemma terminal_write_dec_ok n s : 0 ≤ n < 2 ^ 32 → terminal_write_dec n s = terminal_write (numeral 10 n) s.
Proof.
  intros Hn. unfold terminal_write_dec, numeral. f_equal. destruct (Z.eqb_spec n 0) as [->|]; [done|].
  rewrite dec_digits_eq by lia. change 64%nat with (11 + 53)%nat. rewrite digits_more by lia.
  apply list_fmap_ext. intros i d Hd.
  destruct (digits_value 11 10 n ltac:(lia) ltac:(lia)) as [_ Hf]. rewrite Forall_forall in Hf.
  assert (d ∈ digits 11 10 n) as Hin by (apply elem_of_reverse; by eapply list_elem_of_lookup_2).
  specialize (Hf d Hin). unfold digit_char. by rewrite (proj2 (Z.ltb_lt d 10)) by lia.
Qed.
