(* ===== verification/Hush.v ===== *)
(** * The shell of the 32-bit port ([arch/i386/drivers/shell/hush.c])

    Its state is the struct of fixed-size buffers a command line is split into, the registry of
    commands and what has been shown.  The commands that run other parts of the system are recorded
    with their arguments. *)

From S2P Require Import Prelude Loops Arrays Format.

(* src/arch/i386/drivers/shell/hush.h 15-21 COMMAND_NAME_LEN *)
Definition COMMAND_NAME_LEN : Z := 10.
Definition MAX_COMMAND_LEN : Z := 80.
Definition MAX_ARGS : Z := 10.
Definition ARG_LEN : Z := 30.
Definition MAX_COMMANDS : Z := 20.

(* src/arch/i386/drivers/shell/hush.h 23-23 HUSH_STATE *)
Inductive HUSH_STATE := OK | ERROR | INVALID_COMMAND | COMMAND_NOT_FOUND.

(** The commands, by their handlers. *)
(* src/arch/i386/drivers/shell/hush.c 76-96 builtin_help *)
Inductive builtin := Help | Echo | Clear | PagingTest | VmTest | Display | Solve | Pong | Peek.

#[export] Instance builtin_eq_dec : EqDecision builtin.
Proof. solve_decision. Defined.

Definition b_name (b : builtin) : list Z :=
  chars match b with
  | Help => "help" | Echo => "echo" | Clear => "clear" | PagingTest => "test-paging"
  | VmTest => "test-vm" | Display => "display" | Solve => "solve" | Pong => "pong" | Peek => "peek"
  end.

Definition b_description (b : builtin) : list Z :=
  chars match b with
  | Help => "show available commands" | Echo => "echo" | Clear => "clear the screen"
  | PagingTest => "run the paging tests" | VmTest => "run the vm tests"
  | Display => "display the current maze" | Solve => "solve the current maze" | Pong => "play pong"
  | Peek => "hexdump memory: peek <addr> [len]"
  end.

(** What the shell shows, and what it runs with which arguments. *)
Inductive event :=
  | Text (l : list Z)
  | ClearScreen
  | Ran (b : builtin) (argv : list (list Z)).

(* src/arch/i386/drivers/shell/hush.h 29-44 hush_state *)
Record hush := Hush {
  h_name : list Z;            (* char name[COMMAND_NAME_LEN] *)
  h_argc : Z;
  h_args : list (list Z);     (* char args[MAX_ARGS][ARG_LEN] *)
  h_cmd : list Z;             (* char command_buffer[MAX_COMMAND_LEN] *)
  h_len : Z;                  (* command_len *)
  h_running : Z;
  h_registry : list builtin;  (* hush_registry[0 .. num_commands) *)
  h_out : list event;
}.

Definition set_name (x : list Z) (s : hush) : hush :=
  Hush x (h_argc s) (h_args s) (h_cmd s) (h_len s) (h_running s) (h_registry s) (h_out s).
Definition set_argc (x : Z) (s : hush) : hush :=
  Hush (h_name s) x (h_args s) (h_cmd s) (h_len s) (h_running s) (h_registry s) (h_out s).
Definition set_args (x : list (list Z)) (s : hush) : hush :=
  Hush (h_name s) (h_argc s) x (h_cmd s) (h_len s) (h_running s) (h_registry s) (h_out s).
Definition set_cmd (x : list Z) (n : Z) (s : hush) : hush :=
  Hush (h_name s) (h_argc s) (h_args s) x n (h_running s) (h_registry s) (h_out s).
Definition set_registry (x : list builtin) (s : hush) : hush :=
  Hush (h_name s) (h_argc s) (h_args s) (h_cmd s) (h_len s) (h_running s) x (h_out s).
Definition add_event (e : event) (s : hush) : hush :=
  Hush (h_name s) (h_argc s) (h_args s) (h_cmd s) (h_len s) (h_running s) (h_registry s) (h_out s ++ [e]).

Definition show (l : list Z) : M hush unit := modify (add_event (Text l)).

(** ** Strings

    A string is the bytes of its array up to the first zero. *)

Fixpoint cstr (a : list Z) : list Z :=
  match a with
  | [] => []
  | c :: a => if c =? 0 then [] else c :: cstr a
  end.

(** [strnlen] and [strncmp] of [libc], on arrays. *)
Definition strnlen (a : list Z) (maxlen : nat) : nat := Nat.min (length (cstr a)) maxlen.

Fixpoint strncmp (a b : list Z) (n : nat) : Z :=
  match n with
  | O => 0
  | S n =>
      let c1 := default 0 (head a) in
      let c2 := default 0 (head b) in
      if (c1 =? 0) || (c2 =? 0) then c1 - c2
      else if negb (c1 =? c2) then c1 - c2
      else strncmp (tail a) (tail b) n
  end.

(* src/arch/i386/common/ctype.c 8-10 iswhitespace *)
Definition iswhitespace (c : Z) : bool := (c =? 32) || (c =? 9) || (c =? 10) || (c =? 13).

(** ** Commands *)

(* src/arch/i386/drivers/shell/hush.c 24-32 cmd_help *)
Definition cmd_help : M hush unit :=
  show (chars "available commands:" ++ [10]) ;;
  cmds ← gets h_registry;
  modify (λ s, foldl (λ s b, add_event (Text (chars "  " ++ b_name b ++ chars " - " ++ b_description b ++ [10])) s) s cmds).

(* src/arch/i386/drivers/shell/hush.c 34-42 cmd_echo *)
Fixpoint cmd_echo (argv : list (list Z)) : M hush unit :=
  match argv with
  | [] => show [10]
  | a :: rest => show (cstr a) ;; when (nz (Z.of_nat (length rest))) (show [32]) ;; cmd_echo rest
  end.

(** The handler of a command. *)
(* src/arch/i386/drivers/shell/hush.c 44-74 cmd_clear *)
Definition handler (b : builtin) (argv : list (list Z)) : M hush unit :=
  match b with
  | Help => cmd_help
  | Echo => cmd_echo argv
  | Clear => modify (add_event ClearScreen)
  | _ => modify (add_event (Ran b (cstr <$> argv)))
  end.

(* src/arch/i386/drivers/shell/hush.c 98-102 hush_register_command *)
Definition hush_register_command (cmd : builtin) : M hush unit :=
  cmds ← gets h_registry;
  when (Z.of_nat (length cmds) <? MAX_COMMANDS) (modify (set_registry (cmds ++ [cmd]))).

(** The first command of a list that has the name. *)
Fixpoint lookup_in (cmds : list builtin) (name : list Z) : option builtin :=
  match cmds with
  | [] => None
  | b :: cmds =>
      let name_len := strnlen name (Z.to_nat COMMAND_NAME_LEN) in
      if (strncmp (b_name b) name name_len =? 0) &&
         (strnlen (b_name b) (Z.to_nat COMMAND_NAME_LEN) =? name_len)%nat
      then Some b else lookup_in cmds name
  end.

(* src/arch/i386/drivers/shell/hush.c 104-127 hush_lookup_registry *)
Definition hush_lookup_registry (name : list Z) : M hush (option builtin) :=
  cmds ← gets h_registry;
  match lookup_in cmds name with
  | Some b => mret (Some b)
  | None => show (chars "[hush]: no match found" ++ [10]) ;; mret None
  end.

(** ** Splitting a line *)

(** [*it], an access to the command buffer. *)
Definition ld_cmd (it : Z) : M hush Z := λ s,
  if it <? 0 then Fault it else match h_cmd s !! Z.to_nat it with Some c => Ok (c, s) | None => Fault it end.

(** A store to the name, and to an argument. *)
Definition st_name (i v : Z) : M hush unit := λ s,
  match st i v (h_name s) with
  | Ok (_, a) => Ok (tt, set_name a s)
  | Panic m => Panic m | Halt => Halt | Fault j => Fault j | OutOfFuel => OutOfFuel
  end.
Definition st_arg (k i v : Z) : M hush unit := λ s,
  match h_args s !! Z.to_nat k with
  | None => Fault k
  | Some a =>
      match st i v a with
      | Ok (_, a) => Ok (tt, set_args (<[Z.to_nat k := a]> (h_args s)) s)
      | Panic m => Panic m | Halt => Halt | Fault j => Fault j | OutOfFuel => OutOfFuel
      end
  end.

(** The loops advance [it] towards the end of the buffer, which bounds them. *)
(* src/arch/i386/drivers/shell/hush.c 198-200 parse_command_buffer *)
Fixpoint skip_space (fuel : nat) (it : Z) : M hush Z :=
  c ← ld_cmd it;
  if nz c && iswhitespace c && (it <? MAX_COMMAND_LEN) then
    match fuel with O => out_of_fuel | S fuel => skip_space fuel (it + 1) end
  else mret it.

(** [n] characters are copied so far, at most [cap] go to the buffer [put] writes. *)
(* src/arch/i386/drivers/shell/hush.c 207-214 parse_command_buffer *)
Fixpoint copy_word (put : Z → Z → M hush unit) (cap : Z) (fuel : nat) (it n : Z) : M hush (Z * Z) :=
  c ← ld_cmd it;
  if nz c && negb (iswhitespace c) && (it <? MAX_COMMAND_LEN) && (n <? cap) then
    match fuel with
    | O => out_of_fuel
    | S fuel => put n c ;; copy_word put cap fuel (it + 1) (n + 1)
    end
  else put n 0 ;; mret (it, n).

(* src/arch/i386/drivers/shell/hush.c 221-245 parse_command_buffer *)
Fixpoint parse_args (fuel : nat) (it argc : Z) : M hush unit :=
  c ← ld_cmd it;
  if nz c && (it <? MAX_COMMAND_LEN) then
    it ← skip_space (Z.to_nat MAX_COMMAND_LEN) it;
    c ← ld_cmd it;
    if negb (nz c) then modify (set_argc argc) else
    if MAX_ARGS <=? argc then modify (set_argc argc) else
    match fuel with
    | O => out_of_fuel
    | S fuel =>
        '(it, _) ← copy_word (st_arg argc) (ARG_LEN - 1) (Z.to_nat MAX_COMMAND_LEN) it 0;
        parse_args fuel it (argc + 1)
    end
  else modify (set_argc argc).

(* src/arch/i386/drivers/shell/hush.c 190-246 parse_command_buffer *)
Definition parse_command_buffer : M hush Z :=
  it ← skip_space (Z.to_nat MAX_COMMAND_LEN) 0;
  c ← ld_cmd it;
  if negb (nz c) || (MAX_COMMAND_LEN <=? it) then modify (set_argc (-1)) ;; mret (-1) else
  '(it, _) ← copy_word st_name (COMMAND_NAME_LEN - 1) (Z.to_nat MAX_COMMAND_LEN) it 0;
  c ← ld_cmd it;
  if negb (nz c) || (MAX_COMMAND_LEN <=? it) then modify (set_argc 0) ;; mret 0 else
  parse_args (Z.to_nat MAX_ARGS) it 0 ;;
  mret 0.

(* src/arch/i386/drivers/shell/hush.c 169-188 hush_execute_command *)
Definition hush_execute_command : M hush HUSH_STATE :=
  argc ← gets h_argc;
  if argc <? 0 then mret INVALID_COMMAND else
  name ← gets h_name;
  command ← hush_lookup_registry name;
  match command with
  | None => mret COMMAND_NOT_FOUND
  | Some b =>
      args ← gets h_args;
      handler b (take (Z.to_nat argc) args) ;;
      mret OK
  end.

(** ** The shell's loop *)

(* src/arch/i386/drivers/shell/hush.c 129-145 hush_init *)
Definition hush_start : M hush unit :=
  modify (λ s, Hush (replicate 10 0) 0 (replicate 10 (replicate 30 0)) (replicate 80 0) 0 1 (h_registry s) (h_out s)) ;;
  hush_register_command Help ;; hush_register_command Echo ;; hush_register_command Clear ;;
  hush_register_command PagingTest ;; hush_register_command VmTest ;; hush_register_command Display ;;
  hush_register_command Solve ;; hush_register_command Pong ;; hush_register_command Peek ;;
  show (chars "Horizon Utility Shell (hush)" ++ [10]) ;;
  show (chars "try 'help' for available commands" ++ [10]).

(** One round, for the line [readline] returned; an empty one is not run. *)
(* src/arch/i386/drivers/shell/hush.c 150-163 hush_init *)
Definition hush_round (line : list Z) : M hush (option HUSH_STATE) :=
  show (chars "$ ") ;;
  let len := Z.of_nat (length line) in
  if 0 <? len then
    let copy_len := if len <? MAX_COMMAND_LEN - 1 then len else MAX_COMMAND_LEN - 1 in
    modify (λ s, set_cmd (take (Z.to_nat copy_len) line ++ 0 :: drop (S (Z.to_nat copy_len)) (h_cmd s)) copy_len s) ;;
    parse_command_buffer ;;
    r ← hush_execute_command;
    mret (Some r)
  else mret None.

(** * The theorems about the shell of the 32-bit port *)

(** ** Splitting a line, as a function of its characters *)

Fixpoint skip (l : list Z) : list Z :=
  match l with
  | [] => []
  | c :: r => if iswhitespace c then skip r else l
  end.

(** The characters up to the next space, at most [cap] of them, and the rest of the line. *)
Fixpoint split_word (cap : nat) (l : list Z) : list Z * list Z :=
  match cap, l with
  | S cap, c :: r => if iswhitespace c then ([], l) else let '(w, r) := split_word cap r in (c :: w, r)
  | _, _ => ([], l)
  end.

Fixpoint args_of (n : nat) (l : list Z) : list (list Z) :=
  match n, skip l with
  | S n, c :: r => let '(w, r) := split_word 29 (c :: r) in w :: args_of n r
  | _, _ => []
  end.

Lemma skip_suffix l : ∃ p, l = p ++ skip l.
Proof.
  induction l as [|c l [p IH]]; cbn [skip]; [by exists []|].
  destruct (iswhitespace c); [exists (c :: p); cbn; by rewrite <- IH|by exists []].
Qed.

Lemma split_word_app cap l : (split_word cap l).1 ++ (split_word cap l).2 = l.
Proof.
  revert l. induction cap as [|cap IH]; intros [|c l]; cbn; [done..|]. destruct (iswhitespace c); [done|].
  specialize (IH l). destruct (split_word cap l). cbn in *. by rewrite IH.
Qed.

Lemma split_word_length cap l : (length (split_word cap l).1 ≤ cap)%nat.
Proof.
  revert l. induction cap as [|cap IH]; intros [|c l]; cbn; [lia..|]. destruct (iswhitespace c); [cbn; lia|].
  specialize (IH l). destruct (split_word cap l). cbn in *. lia.
Qed.

Lemma hcstr_app w post : Forall (λ c, c ≠ 0) w → cstr (w ++ 0 :: post) = w.
Proof. induction 1 as [|c w Hc Hw IH]; cbn; [done|]. by rewrite (proj2 (Z.eqb_neq c 0)), IH. Qed.

(** ** Reading the command buffer *)

(** From index [it] on the buffer holds the string [l]. *)
Definition at_line (s : hush) (it : Z) (l : list Z) : Prop :=
  (∃ pre post, h_cmd s = pre ++ l ++ 0 :: post ∧ len pre = it) ∧ Forall (λ c, c ≠ 0) l ∧ len (h_cmd s) = 80.

Lemma at_line_cmd s s' it l : h_cmd s' = h_cmd s → at_line s it l → at_line s' it l.
Proof. unfold at_line. by intros ->. Qed.

Lemma at_line_bound s it l : at_line s it l → 0 ≤ it ∧ it + len l < 80.
Proof.
  intros [(pre & post & E & Hi) [_ Hl]]. rewrite E, !length_app in Hl. cbn in Hl. lia.
Qed.

Lemma ld_cmd_at s it l : at_line s it l → ld_cmd it s = Ok (List.hd 0 l, s).
Proof.
  intros H. pose proof (at_line_bound s it l H). destruct H as [(pre & post & E & Hi) _].
  unfold ld_cmd. rewrite (proj2 (Z.ltb_ge it 0)) by lia.
  rewrite E, lookup_app_r, <- Hi, Nat2Z.id, Nat.sub_diag by lia. by destruct l.
Qed.

Lemma at_line_next s it p l : at_line s it (p ++ l) → at_line s (it + len p) l.
Proof.
  intros [(pre & post & E & Hi) [Hf Hl]]. apply Forall_app in Hf as [_ Hf]. split; [|done].
  exists (pre ++ p), post. rewrite E, !app_assoc, length_app. split; [done|]. lia.
Qed.

Lemma at_line_head s it c l : at_line s it (c :: l) → c ≠ 0.
Proof. intros [_ [Hf _]]. by inversion Hf. Qed.

Lemma skip_space_ok s it l fuel :
  at_line s it l → (length l ≤ fuel)%nat →
  ∃ it', skip_space fuel it s = Ok (it', s) ∧ at_line s it' (skip l).
Proof.
  revert it l. induction fuel as [|fuel IH]; intros it l Hat Hf; cbn [skip_space];
    rewrite (M_bind_Ok _ _ _ _ _ (ld_cmd_at s it l Hat)); destruct l as [|c l]; cbn [List.hd skip];
    try (by exists it).
  - cbn in Hf. lia.
  - pose proof (at_line_head _ _ _ _ Hat) as Hc. pose proof (at_line_bound _ _ _ Hat).
    unfold nz, MAX_COMMAND_LEN. rewrite (proj2 (Z.eqb_neq c 0)), (proj2 (Z.ltb_lt it 80)) by (done || lia).
    cbn [negb andb]. rewrite andb_true_r. destruct (iswhitespace c) eqn:E; [|by exists it].
    apply IH; [|cbn in Hf; lia]. by apply (at_line_next s it [c] l).
Qed.

(** ** Copying a word *)

Section copy.
(** The array written, as a part of the state. *)
Context (put : Z → Z → M hush unit) (get : hush → list Z) (set : list Z → hush → hush) (good : hush → Prop).
Context (Hput : ∀ i v s, good s → 0 ≤ i < len (get s) → put i v s = Ok (tt, set (upd (get s) i v) s)).
Context (Hget : ∀ a s, good s → get (set a s) = a).
Context (Hset : ∀ a b s, good s → set a (set b s) = set a s).
Context (Hgood : ∀ a s, good s → good (set a s)).
Context (Hcmd : ∀ a s, h_cmd (set a s) = h_cmd s).
Context (Hself : ∀ s, good s → set (get s) s = s).

(** Writing behind a prefix that is already in place. *)
Lemma upd_behind (w orig : list Z) v :
  (length w < length orig)%nat →
  upd (w ++ drop (length w) orig) (len w) v = (w ++ [v]) ++ drop (S (length w)) orig.
Proof.
  intros Hl. unfold upd. rewrite Nat2Z.id.
  destruct (drop (length w) orig) as [|x r] eqn:E.
  { apply (f_equal length) in E. rewrite length_drop in E. cbn in E. lia. }
  rewrite insert_app_r_alt, Nat.sub_diag by lia. cbn. rewrite <- app_assoc. cbn. do 2 f_equal.
  replace (S (length w)) with (length w + 1)%nat by lia. by rewrite <- drop_drop, E.
Qed.

Lemma copy_word_ok cap fuel orig : ∀ it l s w,
  good s → get s = w ++ drop (length w) orig → (cap < length orig)%nat → (length w ≤ cap)%nat →
  at_line s it l → (length l ≤ fuel)%nat →
  let '(u, r) := split_word (cap - length w) l in
  ∃ it', copy_word put (Z.of_nat cap) fuel it (len w) s =
    Ok ((it', len (w ++ u)), set ((w ++ u) ++ 0 :: drop (S (length (w ++ u))) orig) s) ∧ at_line s it' r.
Proof using All.
  induction fuel as [|fuel IH]; intros it l s w Hg Hs Ho Hw Hat Hf.
  all: assert (put (len w) 0 s = Ok (tt, set (w ++ 0 :: drop (S (length w)) orig) s)) as Hend
    by (rewrite Hput by (rewrite ?Hs, ?length_app, ?length_drop; done || lia);
        rewrite Hs, upd_behind, <- app_assoc by lia; done).
  all: cbn [copy_word]; rewrite (M_bind_Ok _ _ _ _ _ (ld_cmd_at s it l Hat)); destruct l as [|c l]; cbn [List.hd].
  1, 3: cbn [nz negb Z.eqb andb]; rewrite (M_bind_Ok _ _ _ _ _ Hend);
    assert (split_word (cap - length w) [] = ([], [])) as -> by (by destruct (cap - length w)%nat);
    exists it; by rewrite app_nil_r.
  { cbn in Hf. lia. }
  pose proof (at_line_head _ _ _ _ Hat) as Hc. pose proof (at_line_bound _ _ _ Hat).
  unfold nz, MAX_COMMAND_LEN. rewrite (proj2 (Z.eqb_neq c 0)), (proj2 (Z.ltb_lt it 80)) by (done || lia).
  cbn [negb andb]. rewrite andb_true_r.
  destruct (Z.ltb_spec (len w) (Z.of_nat cap)) as [Hlt|Hge].
  2: { rewrite andb_false_r, (M_bind_Ok _ _ _ _ _ Hend). replace (cap - length w)%nat with 0%nat by lia.
    cbn [split_word]. exists it. by rewrite app_nil_r. }
  destruct (cap - length w)%nat as [|k] eqn:Ek; [lia|]. cbn [split_word]. destruct (iswhitespace c); cbn [negb andb].
  { rewrite (M_bind_Ok _ _ _ _ _ Hend). exists it. by rewrite app_nil_r. }
  rewrite (M_bind_Ok _ _ s tt (set ((w ++ [c]) ++ drop (S (length w)) orig) s)).
  2: { rewrite Hput by (rewrite ?Hs, ?length_app, ?length_drop; done || lia). by rewrite Hs, upd_behind by lia. }
  set (s1 := set _ s). assert (length (w ++ [c]) = S (length w)) as Hl1 by (rewrite length_app; cbn; lia).
  specialize (IH (it + 1) l s1 (w ++ [c])). rewrite Hl1 in IH. replace (cap - S (length w))%nat with k in IH by lia.
  destruct (split_word k l) as [u r]. cbn [fst snd].
  destruct IH as (it' & E & Hr); [by apply Hgood|by apply Hget|lia|lia| |cbn in Hf; lia|].
  { apply (at_line_cmd s); [apply Hcmd|]. by apply (at_line_next s it [c] l). }
  exists it'. replace (len w + 1) with (Z.of_nat (S (length w))) by lia. rewrite E.
  split; [|by apply (at_line_cmd s1); [symmetry; apply Hcmd|]].
  rewrite <- !(app_assoc w [c] u). cbn [app]. unfold s1. by rewrite Hset.
Qed.
End copy.

(** ** The parser *)

Record hush_ok (s : hush) : Prop := {
  ho_name : length (h_name s) = 10%nat;
  ho_args : length (h_args s) = 10%nat;
  ho_arg : Forall (λ a, length a = 30%nat) (h_args s);
  ho_cmd : len (h_cmd s) = 80;
}.

Lemma copy_name_ok it l s :
  length (h_name s) = 10%nat → at_line s it l →
  let '(u, r) := split_word 9 l in
  ∃ it' n, copy_word st_name 9 80 it 0 s = Ok ((it', n), set_name (u ++ 0 :: drop (S (length u)) (h_name s)) s) ∧
    at_line s it' r.
Proof.
  intros Hn Hat. pose proof (at_line_bound _ _ _ Hat).
  pose proof (copy_word_ok st_name h_name set_name (λ s, length (h_name s) = length (h_name s)) ) as Hc.
  specialize (Hc ltac:(intros i v t _ Hi; unfold st_name, st; by rewrite (proj2 (Z.ltb_ge i 0)), lookup_at by lia)
    ltac:(done) ltac:(done) ltac:(done) ltac:(done) ltac:(by intros []) 9%nat 80%nat (h_name s) it l s []).
  cbn [length Nat.sub app drop] in Hc. rewrite Hn in Hc. change (9 - 0)%nat with 9%nat in Hc. destruct (split_word 9 l) as [u r].
  destruct Hc as (it' & E & Hr); [done|done|lia|lia|done|lia|]. by exists it', (len u).
Qed.

Definition set_arg (k : nat) (a : list Z) (s : hush) : hush := set_args (<[k := a]> (h_args s)) s.

Lemma copy_arg_ok k it l s :
  (k < length (h_args s))%nat → length (h_args s !!! k) = 30%nat → at_line s it l →
  let '(u, r) := split_word 29 l in
  ∃ it' n, copy_word (st_arg (Z.of_nat k)) 29 80 it 0 s =
    Ok ((it', n), set_arg k (u ++ 0 :: drop (S (length u)) (h_args s !!! k)) s) ∧ at_line s it' r.
Proof.
  intros Hk Hn Hat. pose proof (at_line_bound _ _ _ Hat).
  assert (∀ t : hush, (k < length (h_args t))%nat → h_args t !! k = Some (h_args t !!! k)) as Hlk
    by (intros; by apply list_lookup_lookup_total_lt).
  pose proof (copy_word_ok (st_arg (Z.of_nat k)) (λ s, h_args s !!! k) (set_arg k) (λ s, k < length (h_args s))%nat) as Hc.
  specialize (Hc ltac:(intros i v t Ht Hi; unfold st_arg, st; rewrite Nat2Z.id, (Hlk t Ht);
    by rewrite (proj2 (Z.ltb_ge i 0)), lookup_at by lia)).
  specialize (Hc ltac:(intros a t Ht; cbn; by apply list_lookup_total_insert_eq)).
  specialize (Hc ltac:(intros a b t Ht; unfold set_arg, set_args; cbn; by rewrite list_insert_insert_eq)).
  specialize (Hc ltac:(intros a t Ht; cbn; by rewrite length_insert)).
  specialize (Hc ltac:(done)).
  specialize (Hc ltac:(intros t Ht; unfold set_arg, set_args; rewrite list_insert_id by (by apply Hlk); by destruct t)).
  specialize (Hc 29%nat 80%nat (h_args s !!! k) it l s []). cbn [length app drop] in Hc.
  rewrite Hn in Hc. change (29 - 0)%nat with 29%nat in Hc. destruct (split_word 29 l) as [u r].
  destruct Hc as (it' & E & Hr); [done|done|lia|lia|done|lia|]. by exists it', (len u).
Qed.

Lemma split_word_nonzero cap l : Forall (λ c, c ≠ 0) l → Forall (λ c, c ≠ 0) (split_word cap l).1.
Proof. intros H. rewrite <- (split_word_app cap l) in H. by apply Forall_app in H as [H _]. Qed.

(** What the loop over the arguments leaves: [ws] are stored behind the first [k] arguments. *)
Definition args_stored (s : hush) (k : nat) (ws : list (list Z)) (s' : hush) : Prop :=
  ∃ args, s' = set_argc (Z.of_nat (k + length ws)) (set_args args s) ∧
    length args = 10%nat ∧ Forall (λ a, length a = 30%nat) args ∧
    take k args = take k (h_args s) ∧ cstr <$> take (length ws) (drop k args) = ws.

Lemma args_stored_nil s k : hush_ok s → (k ≤ 10)%nat → args_stored s k [] (set_argc (Z.of_nat k) s).
Proof.
  intros [] Hk. exists (h_args s). rewrite Nat.add_0_r. split; [by destruct s|]. done.
Qed.

Lemma args_stored_cons s k w ws a s' :
  hush_ok s → (k < 10)%nat → length a = 30%nat → cstr a = w →
  args_stored (set_arg k a s) (S k) ws s' → args_stored s k (w :: ws) s'.
Proof.
  intros [] Hk Ha Hw (args & -> & Hl & Hf & Ht & Hws). exists args. cbn [length].
  split; [by replace (k + S (length ws))%nat with (S k + length ws)%nat by lia|]. split; [done|]. split; [done|].
  cbn [h_args set_arg set_args] in Ht. assert (args !! k = Some a) as Hk'.
  { rewrite <- (lookup_take_lt args (S k)), Ht, lookup_take_lt by lia. apply list_lookup_insert_eq. lia. }
  split.
  - apply (f_equal (take k)) in Ht. rewrite !take_take in Ht. rewrite Nat.min_l in Ht by lia.
    by rewrite Ht, take_insert_ge.
  - rewrite (drop_S args a k Hk'). cbn. by rewrite Hws, Hw.
Qed.

Lemma parse_args_ok s it l : ∀ k n,
  hush_ok s → (k + n = 10)%nat → at_line s it l →
  wp (parse_args n it (Z.of_nat k)) (λ _ s', args_stored s k (args_of n l) s') s.
Proof.
  intros k n. revert s it l k. induction n as [|n IH]; intros s it l k Hok Hk Hat; cbn [parse_args args_of].
  all: apply wp_bind; eapply wp_intro; [by apply ld_cmd_at|]; cbv beta.
  all: pose proof (at_line_bound _ _ _ Hat).
  all: unfold MAX_COMMAND_LEN; rewrite (proj2 (Z.ltb_lt it 80)), andb_true_r by lia.
  all: destruct l as [|c0 l0] eqn:El; cbn [List.hd];
    [apply wp_modify, args_stored_nil; [done|lia]|].
  all: rewrite <- El in *; pose proof (at_line_head s it c0 l0 ltac:(by rewrite <- El)) as Hc0.
  all: unfold nz at 1; rewrite (proj2 (Z.eqb_neq c0 0)) by done; cbn [negb].
  all: destruct (skip_space_ok s it l 80 Hat ltac:(lia)) as (it1 & E1 & Hat1).
  all: apply wp_bind; eapply wp_intro; [exact E1|]; cbv beta.
  all: apply wp_bind; eapply wp_intro; [by apply ld_cmd_at|]; cbv beta.
  all: destruct (skip l) as [|c r] eqn:Es; cbn [List.hd nz Z.eqb negb]; [apply wp_modify, args_stored_nil; [done|lia]|].
  all: pose proof (at_line_head _ _ _ _ Hat1) as Hc; unfold nz; rewrite (proj2 (Z.eqb_neq c 0)) by done; cbn [negb].
  - assert (k = 10)%nat as -> by lia. apply wp_modify, args_stored_nil; [done|lia].
  - unfold MAX_ARGS. rewrite (proj2 (Z.leb_gt 10 _)) by lia. destruct (Hok) as [Hon Hoa Hof Hoc].
    assert (length (h_args s !!! k) = 30%nat) as Hlk.
    { rewrite Forall_lookup in Hof. apply (Hof k), list_lookup_lookup_total_lt. lia. }
    pose proof (copy_arg_ok k it1 (c :: r) s ltac:(lia) Hlk Hat1) as Hc'.
    pose proof (split_word_length 29 (c :: r)) as Hul. pose proof (split_word_nonzero 29 (c :: r) ltac:(by destruct Hat1 as (_ & ? & _))) as Hun.
    destruct (split_word 29 (c :: r)) as [u r']. destruct Hc' as (it2 & m & E2 & Hat2). cbn [fst] in *.
    apply wp_bind. eapply wp_intro; [exact E2|]. cbv beta iota.
    set (a := u ++ 0 :: drop (S (length u)) (h_args s !!! k)) in *.
    assert (length a = 30%nat) as Ha by (unfold a; rewrite length_app; cbn; rewrite length_drop; lia).
    replace (Z.of_nat k + 1) with (Z.of_nat (S k)) by lia.
    eapply wp_mono; [apply (IH (set_arg k a s)); [|lia|by apply (at_line_cmd s)]|].
    + split; cbn; [done|by rewrite length_insert|by apply Forall_insert|done].
    + cbv beta. intros _ s'. apply args_stored_cons; [done|lia|done|]. by apply hcstr_app.
Qed.

(** The name and the arguments of a line, if it has any. *)
Definition command_of (l : list Z) : option (list Z * list (list Z)) :=
  match skip l with
  | [] => None
  | c :: r => let '(name, rest) := split_word 9 (c :: r) in Some (name, args_of 10 rest)
  end.

(** The struct holds the command. *)
Definition holds_command (s : hush) (cmd : option (list Z * list (list Z))) : Prop :=
  match cmd with
  | None => h_argc s = -1
  | Some (name, args) =>
      cstr (h_name s) = name ∧ h_argc s = len args ∧ cstr <$> take (length args) (h_args s) = args
  end.

Lemma args_of_nil n : args_of n [] = [].
Proof. by destruct n. Qed.

Lemma parse_ok s l :
  hush_ok s → at_line s 0 l →
  wp parse_command_buffer (λ _ s', hush_ok s' ∧ holds_command s' (command_of l) ∧
    h_registry s' = h_registry s ∧ h_out s' = h_out s) s.
Proof.
  intros Hok Hat. unfold parse_command_buffer, command_of.
  change (Z.to_nat MAX_COMMAND_LEN) with 80%nat. pose proof (at_line_bound _ _ _ Hat).
  destruct (skip_space_ok s 0 l 80 Hat ltac:(lia)) as (it & E & Hat1).
  apply wp_bind. eapply wp_intro; [exact E|]. cbv beta. apply wp_bind. eapply wp_intro; [by apply ld_cmd_at|]. cbv beta.
  pose proof (at_line_bound _ _ _ Hat1). unfold MAX_COMMAND_LEN.
  rewrite (proj2 (Z.leb_gt 80 it)), orb_false_r by lia. destruct (Hok) as [Hon Hoa Hof Hoc].
  destruct (skip l) as [|c r] eqn:Es; cbn [List.hd].
  { cbn [nz Z.eqb negb]. apply wp_bind, wp_modify, wp_ret. by split. }
  pose proof (at_line_head _ _ _ _ Hat1) as Hc. unfold nz at 1. rewrite (proj2 (Z.eqb_neq c 0)) by done. cbn [negb].
  change (COMMAND_NAME_LEN - 1) with 9. pose proof (copy_name_ok it (c :: r) s Hon Hat1) as Hcopy.
  pose proof (split_word_length 9 (c :: r)) as Hul.
  pose proof (split_word_nonzero 9 (c :: r) ltac:(by destruct Hat1 as (_ & ? & _))) as Hun.
  destruct (split_word 9 (c :: r)) as [u rest]. destruct Hcopy as (it2 & m & E2 & Hat2). cbn [fst] in *.
  apply wp_bind. eapply wp_intro; [exact E2|]. cbv beta iota.
  set (nm := u ++ 0 :: drop (S (length u)) (h_name s)) in *.
  assert (cstr nm = u) as Hnm by (by apply hcstr_app).
  assert (hush_ok (set_name nm s)) as Hok2.
  { split; cbn; [|done..]. unfold nm. rewrite length_app. cbn. rewrite length_drop. lia. }
  assert (at_line (set_name nm s) it2 rest) as Hat3 by (by apply (at_line_cmd s)).
  pose proof (at_line_bound _ _ _ Hat3).
  apply wp_bind. eapply wp_intro; [by apply ld_cmd_at|]. cbv beta.
  rewrite (proj2 (Z.leb_gt 80 it2)), orb_false_r by lia. destruct rest as [|c2 rest2] eqn:Er.
  { cbn [List.hd nz Z.eqb negb]. apply wp_bind, wp_modify, wp_ret. rewrite args_of_nil. by split; [destruct Hok2; split|]. }
  rewrite <- Er in *. pose proof (at_line_head (set_name nm s) it2 c2 rest2 ltac:(by rewrite <- Er)) as Hc2.
  rewrite Er at 1. cbn [List.hd]. unfold nz. rewrite (proj2 (Z.eqb_neq c2 0)) by done. cbn [negb].
  eapply wp_bind_mono; [apply (parse_args_ok (set_name nm s) it2 rest 0 10); done|].
  cbv beta. intros _ s' (args & -> & Hl & Hf & _ & Hws). apply wp_ret. rewrite drop_0 in Hws.
  split; [by split; cbn; [destruct Hok2|..]|]. split; [|done]. split; [done|]. split; [done|]. exact Hws.
Qed.

(** ** Looking a command up *)

Lemma strncmp_prefix a b n :
  Forall (λ c, c ≠ 0) a → Forall (λ c, c ≠ 0) b → length b = n → strncmp a b n = 0 ↔ take n a = b.
Proof.
  intros Ha Hb <-. revert a Ha. induction Hb as [|y b Hy Hb IH]; intros a Ha; cbn; [done|].
  rewrite (proj2 (Z.eqb_neq y 0)), orb_false_r by done. destruct Ha as [|x a Hx Ha]; cbn.
  - split; [lia|done].
  - rewrite (proj2 (Z.eqb_neq x 0)) by done. destruct (Z.eqb_spec x y) as [->|Hne]; cbn [negb].
    + rewrite IH by done. split; [by intros ->|by intros [=]].
    + split; [lia|by intros [=]].
Qed.

Lemma strncmp_cstr a b n : (n ≤ length (cstr b))%nat → strncmp a b n = strncmp a (cstr b) n.
Proof.
  revert a b. induction n as [|n IH]; intros a b Hn; [done|]. destruct b as [|c b]; cbn in *; [lia|].
  destruct (Z.eqb_spec c 0) as [->|Hc]; cbn in *; [lia|]. rewrite IH by lia.
  by rewrite (proj2 (Z.eqb_neq c 0)).
Qed.

Lemma chars_nonzero b : Forall (λ c, c ≠ 0) (b_name b).
Proof. by destruct b; repeat constructor. Qed.

Lemma cstr_id l : Forall (λ c, c ≠ 0) l → cstr l = l.
Proof. induction 1 as [|c l Hc Hl IH]; cbn; [done|]. by rewrite (proj2 (Z.eqb_neq c 0)), IH. Qed.

Lemma cstr_nonzero l : Forall (λ c, c ≠ 0) (cstr l).
Proof. induction l as [|c l IH]; cbn; [done|]. destruct (Z.eqb_spec c 0); by constructor. Qed.

Definition named (name : list Z) (b : builtin) : bool := bool_decide (b_name b = name).

Lemma lookup_in_named cmds a :
  (length (cstr a) ≤ 9)%nat → lookup_in cmds a = List.find (named (cstr a)) cmds.
Proof.
  intros Hl. induction cmds as [|b cmds IH]; cbn [lookup_in List.find]; [done|]. rewrite IH.
  unfold strnlen. rewrite (Nat.min_l (length (cstr a))) by (unfold COMMAND_NAME_LEN; lia).
  rewrite (cstr_id (b_name b)) by apply chars_nonzero. unfold COMMAND_NAME_LEN. change (Z.to_nat 10) with 10%nat.
  rewrite strncmp_cstr by done. unfold named.
  pose proof (strncmp_prefix (b_name b) (cstr a) (length (cstr a)) (chars_nonzero b) (cstr_nonzero a) eq_refl) as Hp.
  assert ((strncmp (b_name b) (cstr a) (length (cstr a)) =? 0) &&
    (Nat.min (length (b_name b)) 10 =? length (cstr a))%nat = bool_decide (b_name b = cstr a)) as ->; [|done].
  destruct (bool_decide_reflect (b_name b = cstr a)) as [E|E].
  - rewrite (proj2 Hp) by (rewrite E; apply take_ge; lia). rewrite E. cbn [Z.eqb andb]. apply Nat.eqb_eq. lia.
  - apply andb_false_iff. destruct (Nat.eqb_spec (Nat.min (length (b_name b)) 10) (length (cstr a))) as [El|]; [left|by right].
    apply Z.eqb_neq. intros H0. apply E. rewrite <- (proj1 Hp H0). symmetry. apply take_ge. lia.
Qed.

(** ** Running commands *)

(** What [echo] shows. *)
Fixpoint echo_events (args : list (list Z)) : list event :=
  match args with
  | [] => [Text [10]]
  | a :: rest => Text a :: (if nz (len rest) then [Text [32]] else []) ++ echo_events rest
  end.

(** What a command shows and runs. *)
Definition command_events (cmds : list builtin) (b : builtin) (args : list (list Z)) : list event :=
  match b with
  | Help => Text (chars "available commands:" ++ [10]) ::
      ((λ b, Text (chars "  " ++ b_name b ++ chars " - " ++ b_description b ++ [10])) <$> cmds)
  | Echo => echo_events args
  | Clear => [ClearScreen]
  | _ => [Ran b args]
  end.

Definition add_events (es : list event) (s : hush) : hush :=
  Hush (h_name s) (h_argc s) (h_args s) (h_cmd s) (h_len s) (h_running s) (h_registry s) (h_out s ++ es).

Lemma add_events_app es es' s : add_events es' (add_events es s) = add_events (es ++ es') s.
Proof. unfold add_events. cbn. by rewrite app_assoc. Qed.

Lemma cmd_echo_ok argv s : cmd_echo argv s = Ok (tt, add_events (echo_events (cstr <$> argv)) s).
Proof.
  revert s. induction argv as [|a argv IH]; intros s; [done|]. cbn [cmd_echo].
  unfold show, modify. rewrite (M_bind_Ok _ _ s tt (add_events [Text (cstr a)] s)) by reflexivity.
  cbn. rewrite length_fmap. destruct (nz (Z.of_nat (length argv))); cbn [when].
  - rewrite (M_bind_Ok _ _ _ tt (add_events [Text [32]] (add_events [Text (cstr a)] s))) by reflexivity.
    by rewrite IH, !add_events_app.
  - rewrite (M_bind_Ok _ _ _ tt (add_events [Text (cstr a)] s)) by reflexivity. by rewrite IH, add_events_app.
Qed.

Lemma foldl_events {A} (f : A → event) l s :
  foldl (λ s b, add_event (f b) s) s l = add_events (f <$> l) s.
Proof.
  revert s. induction l as [|x l IH]; intros s; cbn; [unfold add_events; by destruct s; rewrite app_nil_r|].
  rewrite IH. change (add_event (f x) s) with (add_events [f x] s). by rewrite add_events_app.
Qed.

Lemma hush_handler_ok b argv s :
  handler b argv s = Ok (tt, add_events (command_events (h_registry s) b (cstr <$> argv)) s).
Proof.
  destruct b; cbn [handler command_events]; try done; [|apply cmd_echo_ok].
  unfold cmd_help, show, modify. rewrite (M_bind_Ok _ _ s tt _) by reflexivity.
  rewrite (M_bind_Ok _ _ _ _ _) by reflexivity. rewrite foldl_events.
  change (add_event ?e s) with (add_events [e] s). by rewrite add_events_app.
Qed.

(** The outcome of a command on the console. *)
Definition outcome_of (cmds : list builtin) (cmd : option (list Z * list (list Z))) : HUSH_STATE * list event :=
  match cmd with
  | None => (INVALID_COMMAND, [])
  | Some (name, args) =>
      match List.find (named name) cmds with
      | None => (COMMAND_NOT_FOUND, [Text (chars "[hush]: no match found" ++ [10])])
      | Some b => (OK, command_events cmds b args)
      end
  end.

Lemma execute_ok s cmd :
  holds_command s cmd → (if cmd is Some (name, _) then length name ≤ 9 else True)%nat →
  hush_execute_command s =
    Ok ((outcome_of (h_registry s) cmd).1, add_events (outcome_of (h_registry s) cmd).2 s).
Proof.
  intros Hc Hn. unfold hush_execute_command. rewrite (M_bind_Ok _ _ s _ s) by reflexivity.
  destruct cmd as [[name args]|]; cbn [holds_command outcome_of] in *.
  2: { rewrite Hc. cbn. unfold add_events. by destruct s; rewrite app_nil_r. }
  destruct Hc as (Hname & Hargc & Hargs). rewrite Hargc, (proj2 (Z.ltb_ge _ 0)) by lia.
  rewrite (M_bind_Ok _ _ s _ s) by reflexivity. unfold hush_lookup_registry, mbind, M_bind, gets.
  rewrite lookup_in_named by (by rewrite Hname). rewrite Hname.
  destruct (List.find (named name) (h_registry s)) as [b|]; [|done].
  cbn [fst snd mret M_ret]. rewrite Nat2Z.id, hush_handler_ok, Hargs. done.
Qed.

Lemma command_name_short l : if command_of l is Some (name, _) then (length name ≤ 9)%nat else True.
Proof.
  unfold command_of. destruct (skip l) as [|c r]; [done|]. pose proof (split_word_length 9 (c :: r)).
  by destruct (split_word 9 (c :: r)).
Qed.

Lemma hush_round_ok line s :
  hush_ok s → (0 < length line ≤ 79)%nat → Forall (λ c, c ≠ 0) line →
  wp (hush_round line) (λ r s',
    let '(code, events) := outcome_of (h_registry s) (command_of line) in
    r = Some code ∧ h_out s' = h_out s ++ Text (chars "$ ") :: events ∧
    h_registry s' = h_registry s ∧ hush_ok s') s.
Proof.
  intros Hok Hl Hf. unfold hush_round. apply wp_bind, wp_modify. rewrite (proj2 (Z.ltb_lt 0 _)) by lia.
  set (n := if _ <? _ then _ else _). assert (Z.to_nat n = length line) as Hn.
  { unfold n, MAX_COMMAND_LEN. bcase; lia. }
  rewrite Hn, take_ge by lia. apply wp_bind, wp_modify.
  set (s1 := set_cmd _ _ _). destruct (Hok) as [Hon Hoa Hof Hoc].
  assert (len (h_cmd s1) = 80) as Hc1.
  { unfold s1. cbn [h_cmd set_cmd add_event]. rewrite length_app. cbn [length]. rewrite length_drop. lia. }
  assert (hush_ok s1) as Hok1 by done.
  assert (at_line s1 0 line) as Hat by (split; [by eexists [], _|done]).
  eapply wp_bind_mono; [by apply (parse_ok s1 line)|]. cbv beta. intros _ s2 (Hok2 & Hh & Hr & Ho).
  pose proof (execute_ok s2 (command_of line) Hh (command_name_short line)) as E. rewrite Hr in E.
  change (h_registry s1) with (h_registry s) in *.
  apply wp_bind. eapply wp_intro; [exact E|]. apply wp_ret.
  destruct (outcome_of (h_registry s) (command_of line)) as [code events]. cbn [fst snd].
  split; [done|]. split; [|split; [done|by destruct Hok2]]. cbn [h_out add_events]. rewrite Ho.
  unfold s1. cbn [h_out set_cmd add_event]. by rewrite <- app_assoc.
Qed.

(** A round of the shell on a line of at most 79 characters.  The first word, cut after nine
    characters, is looked up among the names of the registered commands; the command with exactly
    that name runs on the remaining words, cut after 29 characters and at most ten.  Every access to
    the fixed-size buffers is in bounds. *)
Theorem hush_round_correct line s :
  hush_ok s → (0 < length line ≤ 79)%nat → Forall (λ c, c ≠ 0) line →
  wp (hush_round line) (λ r s',
    let '(code, events) := outcome_of (h_registry s) (command_of line) in
    r = Some code ∧ h_out s' = h_out s ++ Text (chars "$ ") :: events ∧
    h_registry s' = h_registry s ∧ hush_ok s') s.
Proof. apply hush_round_ok. Qed.

(** No line runs the paging tests: the name of that command has eleven characters, and a name is
    cut after nine. *)
Theorem test_paging_unreachable line s :
  hush_ok s → (0 < length line ≤ 79)%nat → Forall (λ c, c ≠ 0) line →
  wp (hush_round line) (λ _ s', ∀ argv, Ran PagingTest argv ∈ h_out s' → Ran PagingTest argv ∈ h_out s) s.
Proof.
  intros Hok Hl Hf. eapply wp_mono; [by apply hush_round_ok|]. cbv beta. intros r s'.
  pose proof (command_name_short line) as Hs. destruct (command_of line) as [[name args]|]; cbn [outcome_of].
  2: { intros (_ & -> & _) argv. rewrite elem_of_app, elem_of_cons. set_solver. }
  destruct (List.find (named name) (h_registry s)) as [b|] eqn:E.
  2: { intros (_ & -> & _) argv. rewrite elem_of_app, !elem_of_cons. set_solver. }
  apply List.find_some in E as [_ Hb]. apply bool_decide_eq_true in Hb. subst name.
  intros (_ & -> & _) argv. rewrite elem_of_app, elem_of_cons.
  assert (Ran PagingTest argv ∉ command_events (h_registry s) b args) as Hno; [|naive_solver].
  destruct b; cbn [command_events]; try (by rewrite list_elem_of_singleton; intros [=]).
  - rewrite elem_of_cons. intros [[=]|Hin]. apply list_elem_of_fmap in Hin as (? & [=] & _).
  - clear. induction args as [|a args IH]; cbn; [by rewrite list_elem_of_singleton; intros [=]|].
    rewrite elem_of_cons, elem_of_app. intros [[=]|[Hin|Hin]]; [|done].
    destruct (nz _); [|by apply elem_of_nil in Hin]. by apply list_elem_of_singleton in Hin as [=].
  - cbn in Hs. lia.
Qed.

(** ** At an example *)

Definition ex_hush : hush :=
  Hush (replicate 10 0) 0 (replicate 10 (replicate 30 0)) (replicate 80 0) 0 1 [Help; Echo; PagingTest] [].

Lemma ex_hush_ok : hush_ok ex_hush.
Proof. split; try done. by apply Forall_replicate. Qed.

Lemma hush_round_correct_witness :
  wp (hush_round (chars " echo one  two")) (λ r s',
    let '(code, events) := outcome_of [Help; Echo; PagingTest] (command_of (chars " echo one  two")) in
    r = Some code ∧ h_out s' = [] ++ Text (chars "$ ") :: events ∧
    h_registry s' = [Help; Echo; PagingTest] ∧ hush_ok s') ex_hush.
Proof. apply (hush_round_correct _ ex_hush ex_hush_ok); [by_decide|by repeat constructor]. Defined.

Lemma test_paging_unreachable_witness :
  wp (hush_round (chars "test-paging")) (λ _ s', ∀ argv, Ran PagingTest argv ∈ h_out s' → Ran PagingTest argv ∈ []) ex_hush.
Proof. apply (test_paging_unreachable _ ex_hush ex_hush_ok); [by_decide|by repeat constructor]. Defined.
