(* ===== verification/I386Keyboard.v ===== *)
(** * The keyboard driver of the 32-bit port ([drivers/keyboard/keyboard.c])

    It has the controller at fixed ports and its own scan code tables, interrupt handler
    and copy of the event queues. *)

From S2P Require Import Prelude Loops CString Format Gfx Console ConsoleProps Keyboard KeyboardProps Ps2k.

(** ** Characters *)

Module SCANCODE.
Abbreviation int := Z.

(* src/drivers/keyboard/keyboard.c 19-111 SCANCODE *)
Inductive SCANCODE :=
  | ESCAPE | ONE | TWO | THREE | FOUR | FIVE | SIX | SEVEN | EIGHT | NINE | ZERO | HYPHEN | EQUALS
  | BACKSPACE | TAB
  | q | w | e | r | t | y | u | i | o | p | Q | W | E | R | T | Y | U | I | O | P
  | OPEN_BRACKET | CLOSE_BRACKET | OPEN_BRACE | CLOSE_BRACE | ENTER | LEFT_CTRL
  | a | s | d | f | g | h | j | k | l | A | S | D | F | G | H | J | K | L
  | SEMICOLON | COLON | SINGLE_QUOTE | DOUBLE_QUOTE | BACKTICK | TILDE | LEFT_SHIFT | BACK_SLASH | PIPE
  | z | x | c | v | b | n | m | Z | X | C | V | B | N | M
  | COMMA | LESS_THAN | PERIOD | GREATER_THAN | FORWARD_SLASH | QUESTION_MARK
  | RIGHT_SHIFT | KEYPAD_ASTERISK | LEFT_ALT | SPACE.

(** The value of an enumerator. *)
Definition value (key : SCANCODE) : int :=
  match key with
  | ESCAPE => 27
  | ONE => 49 | TWO => 50 | THREE => 51 | FOUR => 52 | FIVE => 53 | SIX => 54 | SEVEN => 55
  | EIGHT => 56 | NINE => 57 | ZERO => 48 | HYPHEN => 45 | EQUALS => 61 | BACKSPACE => 8 | TAB => 9
  | q => 113 | w => 119 | e => 101 | r => 114 | t => 116 | y => 121 | u => 117 | i => 105 | o => 111 | p => 112
  | Q => 81 | W => 87 | E => 69 | R => 82 | T => 84 | Y => 89 | U => 85 | I => 73 | O => 79 | P => 80
  | OPEN_BRACKET => 91 | CLOSE_BRACKET => 93 | OPEN_BRACE => 123 | CLOSE_BRACE => 125
  | ENTER => 10 | LEFT_CTRL => 1
  | a => 97 | s => 115 | d => 100 | f => 102 | g => 103 | h => 104 | j => 106 | k => 107 | l => 108
  | A => 65 | S => 83 | D => 68 | F => 70 | G => 71 | H => 72 | J => 74 | K => 75 | L => 76
  | SEMICOLON => 59 | COLON => 58 | SINGLE_QUOTE => 39 | DOUBLE_QUOTE => 34 | BACKTICK => 96 | TILDE => 126
  | LEFT_SHIFT => 2 | BACK_SLASH => 92 | PIPE => 124
  | z => 122 | x => 120 | c => 99 | v => 118 | b => 98 | n => 110 | m => 109
  | Z => 90 | X => 88 | C => 67 | V => 86 | B => 66 | N => 78 | M => 77
  | COMMA => 44 | LESS_THAN => 60 | PERIOD => 46 | GREATER_THAN => 62 | FORWARD_SLASH => 47 | QUESTION_MARK => 63
  | RIGHT_SHIFT => 3 | KEYPAD_ASTERISK => 42 | LEFT_ALT => 4 | SPACE => 32
  end%Z.

(* src/drivers/keyboard/keyboard.c 122-179 scancode_to_ascii *)
Definition scancode_to_ascii32 : list int :=
  (0 : int)%Z :: (value <$>
    [ESCAPE; ONE; TWO; THREE; FOUR; FIVE; SIX; SEVEN; EIGHT; NINE; ZERO; HYPHEN; EQUALS; BACKSPACE; TAB;
     q; w; e; r; t; y; u; i; o; p; OPEN_BRACKET; CLOSE_BRACKET; ENTER; LEFT_CTRL;
     a; s; d; f; g; h; j; k; l; SEMICOLON; SINGLE_QUOTE; BACKTICK; LEFT_SHIFT; BACK_SLASH;
     z; x; c; v; b; n; m; COMMA; PERIOD; FORWARD_SLASH; RIGHT_SHIFT; KEYPAD_ASTERISK; LEFT_ALT; SPACE]).

(* src/drivers/keyboard/keyboard.c 181-238 scancode_to_ascii_uppercase *)
Definition scancode_to_ascii_uppercase32 : list int :=
  [(0 : int)%Z; value ESCAPE] ++ chars "!@#$%^&*()_+" ++ (value <$>
    [BACKSPACE; TAB; Q; W; E; R; T; Y; U; I; O; P; OPEN_BRACE; CLOSE_BRACE; ENTER; LEFT_CTRL;
     A; S; D; F; G; H; J; K; L; COLON; DOUBLE_QUOTE; TILDE; LEFT_SHIFT; PIPE;
     Z; X; C; V; B; N; M; LESS_THAN; GREATER_THAN; QUESTION_MARK; RIGHT_SHIFT; KEYPAD_ASTERISK; LEFT_ALT; SPACE]).
End SCANCODE.

(** ** The controller *)

Abbreviation KEYBOARD_DATA_PORT := 0x60%Z.
Abbreviation KEYBOARD_STATUS_PORT := 0x64%Z.

Section controller.
Context `{DV : Device}.

(* src/drivers/keyboard/keyboard.c 244-255 wait_for_kbd_input *)
Definition wait_for_kbd_input32 : M ports unit :=
  r ← for_find (Z.to_nat 100000) 0 (λ _, v ← inb KEYBOARD_STATUS_PORT; mret (if (v .& 0x02) =? 0 then Some tt else None));
  mret tt.

(* src/drivers/keyboard/keyboard.c 258-270 wait_for_kbd_output *)
Definition wait_for_kbd_output32 : M ports bool :=
  r ← for_find (Z.to_nat 100000) 0 (λ _, v ← inb KEYBOARD_STATUS_PORT; mret (if nz (v .& 0x01) then Some tt else None));
  mret (match r with Some _ => true | None => false end).

(** A byte for one of the ports once the controller takes it. *)
Definition send (port v : Z) : M ports unit := wait_for_kbd_input32 ;; outb port v.

(** Messages are not modelled; an answer other than [ok] stops the machine. *)
Definition check (ok : Z) : M ports unit :=
  result ← inb KEYBOARD_DATA_PORT;
  if result =? ok then mret tt else halt.

(* src/drivers/keyboard/keyboard.c 273-398 init_ps2_controller *)
Definition init_ps2_controller : M ports unit :=
  send KEYBOARD_STATUS_PORT 0xAD ;;
  send KEYBOARD_STATUS_PORT 0xA7 ;;
  inb KEYBOARD_DATA_PORT ;;
  send KEYBOARD_STATUS_PORT 0x20 ;;
  o ← wait_for_kbd_output32;
  when o (
    config ← inb KEYBOARD_DATA_PORT;
    send KEYBOARD_STATUS_PORT 0x60 ;;
    send KEYBOARD_DATA_PORT ((config .| 0x01) .| 0x40)) ;;
  send KEYBOARD_STATUS_PORT 0xAA ;;
  o ← wait_for_kbd_output32;
  when o (check 0x55) ;;
  send KEYBOARD_STATUS_PORT 0xAB ;;
  o ← wait_for_kbd_output32;
  when o (inb KEYBOARD_DATA_PORT ;; mret tt) ;;
  send KEYBOARD_STATUS_PORT 0xAE ;;
  send KEYBOARD_DATA_PORT 0xFF ;;
  o ← wait_for_kbd_output32;
  when o (
    check 0xFA ;;
    o ← wait_for_kbd_output32;
    when o (check 0xAA)) ;;
  send KEYBOARD_DATA_PORT 0xF4 ;;
  o ← wait_for_kbd_output32;
  when o (check 0xFA).
End controller.

(** ** The queues *)

(* src/drivers/keyboard/keyboard.c 118-120 is_key_pressed *)
Definition is_key_pressed32 (scan_code : Z) : M kbd Z := λ s,
  match kb_pressed s !! scan_code with Some v => Ok (v, s) | None => Fault scan_code end.

(* src/drivers/keyboard/keyboard.c 477-490 keyboard_push *)
Definition keyboard_push32 (level : Z) (entry : key_event) : M kbd unit :=
  st ← ld_qstate level;
  let head := q_head st in
  let next := (head + 1) mod RING_BUFFER_SIZE in
  when (next =? q_tail st)
    (modify (with_qstate level (QueueState (q_head st) ((q_tail st + 1) mod RING_BUFFER_SIZE) (q_used st)))) ;;
  st_event level head entry ;;
  st ← ld_qstate level;
  modify (with_qstate level (QueueState next (q_tail st) (q_used st))).

(* src/drivers/keyboard/keyboard.c 492-503 keyboard_poll *)
Definition keyboard_poll32 (level : Z) : M kbd (option key_event) :=
  st ← ld_qstate level;
  let head := q_head st in
  let tail := q_tail st in
  if tail =? head then mret None else
  out ← ld_event level tail;
  modify (with_qstate level (QueueState head ((tail + 1) mod RING_BUFFER_SIZE) (q_used st))) ;;
  mret (Some out).

(** ** Interrupts *)

(** The part of [key_state] a scan code is for. *)
Definition set_key_state (idx v : Z) : M kbd unit := λ s,
  match kb_pressed s !! idx with Some _ => Ok (tt, with_pressed idx v s) | None => Fault idx end.

(* src/drivers/keyboard/keyboard.c 400-453 keyboard_interrupt_handler *)
Definition keyboard_interrupt_handler (ticks scancode : Z) : M kbd unit :=
  if scancode =? 0xE0 then modify (with_e0 true) ;; send_eoi else
  was_extended ← gets kb_e0;
  modify (with_e0 false) ;;
  let base := scancode .& 0x7F in
  let is_release := negb ((scancode .& 0x80) =? 0) in
  let key_idx := if (was_extended : bool) then base .| 0x80 else base in
  set_key_state key_idx (if is_release then 0 else 1) ;;
  when (negb was_extended) (
    when ((base =? 0x2A) || (base =? 0x36)) (modify (with_shift (negb is_release)))) ;;
  when (negb is_release && negb was_extended && (base <? Z.of_nat (length SCANCODE.scancode_to_ascii32))) (
    shift ← gets kb_shift;
    match (if (shift : bool) then SCANCODE.scancode_to_ascii_uppercase32 else SCANCODE.scancode_to_ascii32) !! Z.to_nat base with
    | None => fault base
    | Some c =>
        when (negb (c =? 0)) (
          let ev := KeyEvent KEY_EVENT_DOWN (s8 base) (s8 c) (s8 ticks) in
          for_up (Z.to_nat KEYBOARD_QUEUE_LEVELS) 0 (λ lvl,
            st ← ld_qstate lvl;
            when (nz (q_used st)) (keyboard_push32 lvl ev)))
    end) ;;
  send_eoi.

(** The handler [setup_keyboard_irq] registers for vector 33. *)
(* src/drivers/keyboard/keyboard.c 455-458 setup_keyboard_irq *)
Definition kbd32_handler : IrqHandler := keyboard_interrupt_handler.

(** ** Reading *)

(* src/drivers/keyboard/keyboard.c 505-512 keyboard_block_read *)
Fixpoint keyboard_block_read32 (fuel : nat) (ticks level : Z) : M kbd key_event :=
  r ← keyboard_poll32 level;
  match r with
  | Some out => mret out
  | None =>
      match fuel with
      | O => out_of_fuel
      | S fuel => hlt (IRQ := kbd32_handler) ticks ;; keyboard_block_read32 fuel ticks level
      end
  end.

(* src/drivers/keyboard/keyboard.c 514-523 register_keyboard_listener *)
Definition register_keyboard_listener32 : M kbd Z :=
  r ← for_find (Z.to_nat KEYBOARD_QUEUE_LEVELS) 0 (λ level,
    st ← ld_qstate level;
    if nz (q_used st) then mret None
    else modify (with_qstate level (QueueState (q_head st) (q_tail st) 1)) ;; mret (Some level));
  match r with
  | Some level => mret level
  | None => panic "keyboard multiqueue full"
  end.

(* src/drivers/keyboard/keyboard.c 525-528 remove_keyboard_listener *)
Definition remove_keyboard_listener32 (level : Z) : M kbd unit :=
  st ← ld_qstate level;
  modify (with_qstate level (QueueState 0 0 0)).

(** The loop of [readline], as in [Keyboard]. *)
Fixpoint readline_loop32 (font : fontStyle) (fuel : nat) (ticks level len pos : Z) (buf : list Z) : M tty (Z * list Z) :=
  match fuel with
  | O => out_of_fuel
  | S fuel' =>
      ev ← on_kbd (keyboard_block_read32 fuel' ticks level);
      if negb (ev_type ev =? KEY_EVENT_DOWN) then readline_loop32 font fuel' ticks level len pos buf else
      let c := s8 (ev_value ev) in
      if c =? 10 then
        on_con (console_putchar font 10) ;;
        if decide (Z.to_nat pos < length buf)%nat then mret (pos, <[Z.to_nat pos := 0]> buf) else fault pos
      else if c =? 8 then
        if 0 <? pos then on_con console_backspace ;; readline_loop32 font fuel' ticks level len (pos - 1) buf
        else readline_loop32 font fuel' ticks level len pos buf
      else if (32 <=? c) && (c <? 127) then
        if pos <? len - 1 then
          if decide (Z.to_nat pos < length buf)%nat then
            on_con (console_putchar font c) ;;
            readline_loop32 font fuel' ticks level len (pos + 1) (<[Z.to_nat pos := c]> buf)
          else fault pos
        else readline_loop32 font fuel' ticks level len pos buf
      else readline_loop32 font fuel' ticks level len pos buf
  end.

(* src/drivers/keyboard/keyboard.c 530-562 readline *)
Definition readline32 (font : fontStyle) (fuel : nat) (ticks level len : Z) (buf : list Z) : M tty (Z * list Z) :=
  if len <=? 0 then mret (0, buf) else readline_loop32 font fuel ticks level len 0 buf.

(** * The theorems about the keyboard driver of the 32-bit port

    Its queues are those of the other port, its handler is a decoder that also reports the shift
    keys, and a line read through it is the same; its controller is set up by the same commands. *)

(** ** The interrupt handler *)

Lemma tables_same :
  SCANCODE.scancode_to_ascii32 = scancode_to_ascii ∧
  SCANCODE.scancode_to_ascii_uppercase32 = scancode_to_ascii_uppercase.
Proof. done. Qed.

(** The shift state changes first, and only for keys without the prefix. *)
Definition decode32 : decoder := λ shift e0 sc,
  if sc =? 0xE0 then (shift, true, None) else
  let i := key_index e0 sc in
  let rel := nz (sc .& 0x80) in
  let shift' := if negb e0 && is_shift (sc .& 0x7F) then negb rel else shift in
  (shift', false, if negb rel && negb e0 then (λ c, (i, c)) <$> key_char shift' i else None).

Lemma land7F_range sc : 0 ≤ sc .& 0x7F < 128.
Proof. change 0x7F with (Z.ones 7). rewrite Z.land_ones by lia. apply Z.mod_pos_bound. lia. Qed.

Lemma key_char_short shift i : 58 ≤ i → key_char shift i = None.
Proof.
  intros Hi. unfold key_char. rewrite lookup_ge_None_2; [done|]. destruct shift; cbn; lia.
Qed.

#[local] Instance kbd32_decodes : IrqDecodes kbd32_handler decode32.
Proof.
  intros s a ticks sc K Hsc. unfold irq_handler, kbd32_handler, keyboard_interrupt_handler, decode32.
  destruct (Z.eqb_spec sc 0xE0) as [->|Hn].
  { apply wp_bind, wp_modify, wp_modify. split; [by apply kbd_ok_eois, kbd_ok_e0|done]. }
  apply wp_bind, wp_gets. apply wp_bind, wp_modify. apply wp_bind.
  pose proof (land7F_range sc) as Hb. pose proof (key_index_range (kb_e0 s) sc Hsc) as Hi.
  fold (key_index (kb_e0 s) sc). fold (nz (sc .& 0x80)). set (i := key_index (kb_e0 s) sc) in *.
  eapply (press_ok i _ (with_e0 false s) a); [by apply kbd_ok_e0|done|]. intros K1.
  set (s1 := with_pressed i _ _) in *.
  assert (kb_pressed s1 !! i = Some (if nz (sc .& 0x80) then 0 else 1)) as Hp1 by apply lookup_insert_eq.
  fold (is_shift (sc .& 0x7F)).
  set (sh := if negb (kb_e0 s) && is_shift (sc .& 0x7F) then negb (nz (sc .& 0x80)) else kb_shift s).
  apply wp_bind. apply (wp_mono _ (λ _ s2, s2 = with_shift sh s1)).
  { unfold sh, when. destruct (kb_e0 s), (is_shift (sc .& 0x7F)); cbn [negb andb];
      [apply wp_ret|apply wp_ret|apply wp_modify|apply wp_ret]; by destruct s. }
  intros [] s2 ->. assert (kbd_ok (with_shift sh s1) a) as K2 by by apply kbd_ok_shift.
  apply wp_bind. unfold when. destruct (nz (sc .& 0x80)); cbn [negb andb]; [by apply wp_ret, wp_modify; split; [apply kbd_ok_eois|]|].
  destruct (kb_e0 s) eqn:Ee; cbn [negb andb]; [by apply wp_ret, wp_modify; split; [apply kbd_ok_eois|]|].
  assert (i = sc .& 0x7F) as Ei by done. rewrite <- Ei in *.
  change (Z.of_nat (length SCANCODE.scancode_to_ascii32)) with 58.
  destruct (Z.ltb_spec i 58) as [Hlt|Hge].
  2: { rewrite key_char_short by lia. by apply wp_ret, wp_modify; split; [apply kbd_ok_eois|]. }
  apply wp_bind, wp_gets. cbn [kb_shift with_shift].
  rewrite (proj1 tables_same), (proj2 tables_same). unfold key_char.
  destruct ((if sh then scancode_to_ascii_uppercase else scancode_to_ascii) !! Z.to_nat i) as [c|] eqn:Ec.
  2: { apply lookup_ge_None in Ec. destruct sh; cbn in Ec; lia. }
  cbn [mbind option_bind]. destruct (Z.eqb_spec c 0); cbn [negb fmap option_fmap option_map]; [by apply wp_ret, wp_modify; split; [apply kbd_ok_eois|]|].
  eapply wp_mono; [by apply (push_all_ok _ a)|]. intros [] s' [K3 (Hp & Hs & He & Hq & Hn')]. apply wp_modify.
  split; [by apply kbd_ok_eois|]. cbn [kb_shift kb_e0 kb_irqs kb_pressed kb_eois with_eois]. rewrite Hp, Hs, He, Hq, Hn'. done.
Qed.

(** ** The same line *)

(** The modifiers are the same in both ports, and so is the key reported, unless a shift key is
    pressed. *)
Lemma decode32_state shift e0 sc :
  0 ≤ sc < 256 →
  (decode32 shift e0 sc).1 = (decode1 shift e0 sc).1 ∧
  ((decode32 shift e0 sc).2 = (decode1 shift e0 sc).2 ∨
   (decode1 shift e0 sc).2 = None ∧ ∃ i, (decode32 shift e0 sc).2 = Some (i, 2) ∨ (decode32 shift e0 sc).2 = Some (i, 3)).
Proof.
  intros Hsc. unfold decode32, decode1. destruct (sc =? 0xE0); [by auto|]. pose proof (land7F_range sc).
  destruct e0; cbn [negb andb key_index].
  - assert (128 ≤ (sc .& 0x7F) .| 0x80) as Hge.
    { assert (0x80 .& (sc .& 0x7F) = 0) as E0 by (rewrite (Z.land_comm sc), Z.land_assoc; done).
      pose proof (Z.add_lor_land 0x80 (sc .& 0x7F)). rewrite Z.lor_comm. lia. }
    rewrite andb_false_r. unfold is_shift. rewrite !(proj2 (Z.eqb_neq _ _)) by lia. cbn [orb].
    rewrite key_char_short by lia. destruct (nz (sc .& 0x80)); auto.
  - rewrite andb_true_r. destruct (nz (sc .& 0x80)); cbn [negb]; [destruct (is_shift _); auto|].
    destruct (is_shift (sc .& 0x7F)) eqn:Es; [|by auto]. cbn [fst snd]. split; [done|]. right. split; [done|].
    unfold is_shift in Es. apply orb_true_iff in Es as [Es|Es]; apply Z.eqb_eq in Es; rewrite Es; eexists; [left|right]; reflexivity.
Qed.

Lemma edit32 n ticks scs : Forall (λ sc, 0 ≤ sc < 256) scs → ∀ shift e0 line,
  edit n line (decode decode32 ticks shift e0 scs) = edit n line (decode decode1 ticks shift e0 scs).
Proof.
  induction 1 as [|sc scs Hsc Hscs IH]; intros shift e0 line; [done|]. cbn [decode].
  destruct (decode32_state shift e0 sc Hsc) as [Est Ekey].
  destruct (decode32 shift e0 sc) as [[sh1 e1] r1], (decode1 shift e0 sc) as [[sh2 e2] r2].
  cbn [fst snd] in *. injection Est as -> ->. destruct Ekey as [->|[-> [i Hi]]].
  - destruct r2 as [ic|]; [|apply IH]. cbn [edit]. destruct (edit1 n line (event_of ticks ic)); [apply IH|done].
  - assert (∀ c, c = 2 ∨ c = 3 → edit1 n line (event_of ticks (i, c)) = Some line) as He.
    { intros c [->| ->]; reflexivity. }
    destruct Hi as [->| ->]; cbn [edit]; rewrite He by auto; apply IH.
Qed.

Lemma edit_app n l1 l1' l2 : (∀ line, edit n line l1' = edit n line l2) →
  ∀ line, edit n line (l1 ++ l1') = edit n line (l1 ++ l2).
Proof.
  intros H. induction l1 as [|e l1 IH]; intros line; [done|]. cbn. destruct (edit1 n line e); [apply IH|done].
Qed.

(** ** The same operations *)

(** The source has the code twice; only the handler of the interrupt differs. *)
Lemma readline32_same font fuel ticks l len buf s :
  readline32 font fuel ticks l len buf s = readline (IRQ := kbd32_handler) font fuel ticks l len buf s.
Proof. done. Qed.

Lemma listeners32_same :
  register_keyboard_listener32 = register_keyboard_listener ∧ remove_keyboard_listener32 = remove_keyboard_listener ∧
  keyboard_push32 = keyboard_push ∧ keyboard_poll32 = keyboard_poll ∧ is_key_pressed32 = is_key_pressed.
Proof. done. Qed.

(** A line typed at the 32-bit port is the line the same scan codes give on the other port,
    although its handler also queues an event for each shift key pressed: [readline] returns the
    line edited from the stream the other port decodes, in a buffer it does not overrun. *)
Theorem readline32_correct font fuel ticks l len buf s a line :
  font_ok font → listening l (t_kbd s) a → con_ok (t_con s) →
  0 < len → Z.of_nat (length buf) = len →
  edit (Z.to_nat (len - 1)) [] (stream (dec:=decode1) ticks l (t_kbd s) a) = Some line →
  (length (stream (dec:=decode32) ticks l (t_kbd s) a) + length (kb_irqs (t_kbd s)) < fuel)%nat →
  wp (readline32 font fuel ticks l len buf)
    (λ r s', line_read line len r ∧ con_ok (t_con s')) s.
Proof.
  intros F L C Hl Hlen He Hf. unfold wp. rewrite readline32_same. unfold readline.
  rewrite (proj2 (Z.leb_gt len 0)) by lia.
  eapply wp_mono; [eapply (readline_loop_ok (IRQ:=kbd32_handler) (dec:=decode32) font fuel ticks l len [] 0 buf s a); try done|].
  - rewrite <- He. unfold stream. apply edit_app. intros ?. apply edit32, L.
  - intros r s' (? & ? & _). done.
Qed.

(** The handler of the 32-bit port keeps the same modifiers and key states as the other
    port's, and reports the same key to every listener, except that a press of a shift key is
    reported too, with the character 2 or 3. *)
Theorem keyboard_interrupt_handler_correct s a ticks sc :
  kbd_ok s a → 0 ≤ sc < 256 →
  wp (keyboard_interrupt_handler ticks sc) (λ _ s',
    let '(shift', e0', r) := decode1 (kb_shift s) (kb_e0 s) sc in
    kb_shift s' = shift' ∧ kb_e0 s' = e0' ∧
    (sc ≠ 0xE0 → kb_pressed s' !! key_index (kb_e0 s) sc = Some (if nz (sc .& 0x80) then 0 else 1)) ∧
    ∃ r', (r' = r ∨ r = None ∧ ∃ i, r' = Some (i, 2) ∨ r' = Some (i, 3)) ∧
    ∀ l, 0 ≤ l < KEYBOARD_QUEUE_LEVELS →
      holds s' l (a l).1 (match r' with
        | Some ic => if (a l).1 =? 0 then (a l).2 else push (a l).2 (event_of ticks ic)
        | None => (a l).2 end)) s.
Proof.
  intros K Hsc. eapply wp_mono; [by apply (irq_decodes (IRQ:=kbd32_handler) s a ticks sc)|]. intros [] s'.
  destruct (decode32_state (kb_shift s) (kb_e0 s) sc Hsc) as [Est Ekey].
  destruct (decode32 _ _ sc) as [[sh1 e1] r1], (decode1 _ _ sc) as [[sh2 e2] r2]. cbn [fst snd] in *.
  injection Est as -> ->. intros (K' & ? & ? & _ & ? & _). split_and!; [done..|]. exists r1. split; [done|].
  intros l Hl. pose proof (ko_level _ _ K' l Hl) as Hh. by destruct r1.
Qed.

(** ** The controller *)

(** The same computation, with a halt for the panic. *)
Definition halts_like {S A} (m' m : M S A) : Prop :=
  ∀ s, m' s = match m s with Panic _ => Halt | o => o end.

Lemma halts_bind {S A B} (m' m : M S A) (k' k : A → M S B) :
  halts_like m' m → (∀ a, halts_like (k' a) (k a)) → halts_like (m' ≫= k') (m ≫= k).
Proof.
  intros Hm Hk s. unfold mbind, M_bind. rewrite Hm. destruct (m s) as [[a s']| | | |]; try done. apply Hk.
Qed.

Lemma halts_when {S} b (m' m : M S unit) : halts_like m' m → halts_like (when b m') (when b m).
Proof. by destruct b. Qed.

Section controller.
Context `{DV : Device} (i : Z).
#[local] Abbreviation res := (Ps2kResources 0x60 0x64 i).

Lemma halts_reads {A} (m : M ports A) : reads m → halts_like m m.
Proof. intros Hm s. pose proof (Hm s) as H. unfold wp in H. by destruct (m s). Qed.

Lemma halts_send p v : halts_like (send p v) (command res p v).
Proof. apply halts_bind; [apply halts_reads, wait_input_reads|]. by intros [] s. Qed.

Lemma halts_check ok : halts_like (check ok) (expect res (λ v, v =? ok)).
Proof. intros s. unfold check, expect, mbind, M_bind, inb. cbn. by destruct (_ =? ok). Qed.

Lemma halts_out : halts_like wait_for_kbd_output32 (wait_for_kbd_output res).
Proof. apply halts_reads, wait_output_reads. Qed.

Lemma halts_inb p : halts_like (inb p) (inb p).
Proof. apply halts_reads, inb_reads. Qed.

(** The 32-bit driver sets up the controller as the other port's driver does for a controller
    at the ports 0x60 and 0x64: for every device the same reads and the same bytes sent, with a
    halted machine where the other panics. *)
Theorem init_ps2_controller_equiv s :
  init_ps2_controller s = match init_ps2k_driver res s with Panic _ => Halt | o => o end.
Proof.
  revert s. change (halts_like init_ps2_controller (init_ps2k_driver res)).
  unfold init_ps2_controller, init_ps2k_driver.
  repeat first [apply halts_send|apply halts_check|apply halts_out|apply halts_inb|apply halts_when|
    apply halts_bind; [|intros ?]|by intros ?].
Qed.
End controller.

(** ** Concrete runs *)

(** Shift, h, shift released, i, x, backspace, enter. *)
Lemma readline32_correct_witness :
  wp (readline32 ExConsole.font 20 0 0 4 [1; 1; 1; 1])
    (λ r s', line_read [72; 105] 4 r ∧ con_ok (t_con s'))
    (Tty (ExKbd.empty_kbd [0x2A; 0x23; 0xAA; 0x17; 0x2D; 0x0E; 0x1C]) (ExConsole.start 0)).
Proof.
  eapply (readline32_correct _ 20 0 0 4 [1; 1; 1; 1] _ ExKbd.queues).
  - apply ExConsole.font_fine.
  - apply ExKbd.listens. repeat constructor; lia.
  - apply ExConsole.start_fine. lia.
  - lia.
  - done.
  - by vm_compute.
  - vm_compute. lia.
Defined.

Lemma keyboard_interrupt_handler_correct_witness :
  wp (keyboard_interrupt_handler 0 0x1E) (λ _ s', kb_shift s' = false ∧ holds s' 0 1 [ExKbd.event]) (ExKbd.empty_kbd []).
Proof.
  eapply wp_mono; [apply (keyboard_interrupt_handler_correct _ _ 0 0x1E (ExKbd.fine [])); lia|].
  intros [] s' (Hs & _ & _ & r' & [->|[? _]] & Hh); [split; [exact Hs|exact (Hh 0 ltac:(done))]|done].
Defined.
