(* ===== verification/PortIo.v ===== *)
(** * Ports and the timer ([arch/io.h], [kernel/time.c], [time.h])

    The devices behind the I/O ports, of every width, and the advance of the timer are a parameter:
    what an access returns may be anything.  Writes are recorded. *)

From S2P Require Import Prelude Loops.

(** What a device returns, for the number of the access, what was written before, the width in bytes
    and the port; and the ticks counted by then. *)
Class Hardware := { hw_in : nat → list (Z * Z * Z) → Z → Z → Z; hw_tick : nat → Z }.

(** Accesses so far, and what was written: width, port and value. *)
Record iobus := IoBus { io_n : nat; io_out : list (Z * Z * Z) }.

Section io.
Context `{HW : Hardware}.

Definition in_ (width port : Z) : M iobus Z := λ s,
  Ok (wrap (8 * width) (hw_in (io_n s) (io_out s) width (u16 port)), IoBus (S (io_n s)) (io_out s)).
Definition out_ (width port v : Z) : M iobus unit :=
  modify (λ s, IoBus (io_n s) (io_out s ++ [(width, u16 port, wrap (8 * width) v)])).

(* src/arch/io.h 12-16 inb *)
Definition inb (port : Z) : M iobus Z := in_ 1 port.
(* src/arch/io.h 18-20 outb *)
Definition outb (port v : Z) : M iobus unit := out_ 1 port v.
(* src/arch/io.h 23-27 inw *)
Definition inw (port : Z) : M iobus Z := in_ 2 port.
(* src/arch/io.h 29-31 outw *)
Definition outw (port v : Z) : M iobus unit := out_ 2 port v.
(* src/arch/io.h 34-38 inl *)
Definition inl (port : Z) : M iobus Z := in_ 4 port.
(* src/arch/io.h 40-42 outl *)
Definition outl (port v : Z) : M iobus unit := out_ 4 port v.

(** ** Waiting *)

(** The tick counter, which the timer's interrupt advances. *)
Definition timer_ticks : M iobus Z := λ s,
  Ok (u32 (hw_tick (io_n s)), IoBus (S (io_n s)) (io_out s)).

(** The loops look at the counter at most [fuel] more times. *)
Fixpoint sleep_loop (fuel : nat) (start ms : Z) : M iobus unit :=
  t ← timer_ticks;
  if u32 (t - start) <? ms then match fuel with O => out_of_fuel | S fuel => sleep_loop fuel start ms end
  else mret tt.

(* src/kernel/time.c 48-54 sleep_ms *)
Definition sleep_ms (fuel : nat) (ms : Z) : M iobus unit :=
  start ← timer_ticks;
  sleep_loop fuel start ms.

(* src/kernel/time.c 56-58 sleep *)
Definition sleep (fuel : nat) (s : Z) : M iobus unit := sleep_ms fuel (u32 (s * 1000)).

Fixpoint timeout_loop (fuel : nat) (start ms : Z) (condition : M iobus bool) : M iobus unit :=
  c ← condition;
  if (c : bool) then mret tt else
  t ← timer_ticks;
  if u32 (t - start) <? ms then
    match fuel with O => out_of_fuel | S fuel => timeout_loop fuel start ms condition end
  else mret tt.

(* src/kernel/time.h 8-15 timeout *)
Definition timeout (fuel : nat) (ms : Z) (condition : M iobus bool) : M iobus bool :=
  start ← timer_ticks;
  timeout_loop fuel start (u32 ms) condition ;;
  condition.
End io.
