(* ===== verification/Pci.v ===== *)
(** * PCI configuration space ([drivers/pci.c], [pci.h]) *)

From S2P Require Import Prelude Loops PortIo.

(* src/drivers/pci.h 6-11 pci_address_t *)
Record pci_address := PciAddress { pci_bus : Z; pci_device : Z; pci_function : Z; pci_valid : Z }.

(** The word for the address port. *)
Definition config_addr (addr : pci_address) (reg_offset : Z) : Z :=
  ((((1 .<< 31) .| (pci_bus addr .<< 16)) .| (pci_device addr .<< 11)) .| (pci_function addr .<< 8))
  .| (reg_offset .& 0xFC).

Section pci.
Context `{HW : Hardware}.

(* src/drivers/pci.c 41-47 pci_read *)
Definition pci_read (addr : pci_address) (reg_offset : Z) : M iobus Z :=
  outl 0xCF8 (config_addr addr reg_offset) ;;
  inl 0xCFC.

(* src/drivers/pci.c 49-55 pci_write *)
Definition pci_write (addr : pci_address) (reg_offset value : Z) : M iobus unit :=
  outl 0xCF8 (config_addr addr reg_offset) ;;
  outl 0xCFC value.

(** The body of the loops over buses, devices and functions. *)
Definition probe (vendor device bus dev function : Z) : M iobus (option pci_address) :=
  let addr := PciAddress bus dev function 0 in
  ids ← pci_read addr 0x00;
  if ids =? 0xFFFFFFFF then mret None else
  let vendor_id := ids .& 0xFFFF in
  let device_id := ids .>> 16 in
  if (vendor_id =? vendor) && (device_id =? device)
  then mret (Some (PciAddress bus dev function 1)) else mret None.

(* src/drivers/pci.c 9-39 pci_find_device *)
Definition pci_find_device (vendor device : Z) : M iobus pci_address :=
  r ← for_find (Z.to_nat 256) 0 (λ bus,
        for_find (Z.to_nat 32) 0 (λ dev,
          for_find (Z.to_nat 32) 0 (λ function, probe vendor device bus dev function)));
  mret (default (PciAddress 0xFF 0xFF 0xFF 0) r).
End pci.

(** * The theorems about PCI configuration space *)

(** ** Address words *)

Lemma config_addr_sum b d f v r :
  0 ≤ b < 256 → 0 ≤ d < 32 → 0 ≤ f < 8 →
  config_addr (PciAddress b d f v) r = 2 ^ 31 + b * 2 ^ 16 + d * 2 ^ 11 + f * 2 ^ 8 + (r .& 0xFC).
Proof.
  intros Hb Hd Hf. unfold config_addr. cbn [pci_bus pci_device pci_function].
  pose proof (land_bound_r r 0xFC ltac:(lia)) as Hr. rewrite !Z.shiftl_mul_pow2 by lia.
  rewrite (lor_add_aligned 31 1 (b * 2 ^ 16)) by lia.
  replace (1 * 2 ^ 31 + b * 2 ^ 16) with ((2 ^ 15 + b) * 2 ^ 16) by lia. rewrite (lor_add_aligned 16) by lia.
  replace ((2 ^ 15 + b) * 2 ^ 16 + d * 2 ^ 11) with (((2 ^ 15 + b) * 2 ^ 5 + d) * 2 ^ 11) by lia.
  rewrite (lor_add_aligned 11) by lia.
  replace (((2 ^ 15 + b) * 2 ^ 5 + d) * 2 ^ 11 + f * 2 ^ 8) with ((((2 ^ 15 + b) * 2 ^ 5 + d) * 2 ^ 3 + f) * 2 ^ 8) by lia.
  rewrite (lor_add_aligned 8) by lia. lia.
Qed.

(** The word has three bits for the function: the two bits above them belong to the device. *)
Lemma config_addr_alias b d f v v' r :
  0 ≤ f → config_addr (PciAddress b d f v) r = config_addr (PciAddress b (d .| (f / 8)) (f mod 8) v') r.
Proof.
  intros Hf. unfold config_addr. cbn [pci_bus pci_device pci_function]. f_equal.
  assert (f .<< 8 = ((f / 8) .<< 11) .| ((f mod 8) .<< 8)) as ->.
  { pose proof (Z.div_mod f 8 ltac:(lia)) as E. pose proof (Z.mod_pos_bound f 8 ltac:(lia)).
    rewrite E at 1. replace (8 * (f / 8) + f mod 8) with ((f / 8) * 2 ^ 3 + f mod 8) by lia.
    rewrite <- (lor_add_aligned 3) by lia. rewrite Z.shiftl_lor, <- Z.shiftl_mul_pow2, Z.shiftl_shiftl by lia. done. }
  rewrite Z.shiftl_lor, !Z.lor_assoc. done.
Qed.

(** ** Finding a device *)

Definition matches (vendor device ids : Z) : bool :=
  negb (ids =? 0xFFFFFFFF) && (ids .& 0xFFFF =? vendor) && (ids .>> 16 =? device).

Section find.
Context `{HW : Hardware} (cfg : Z → Z).

(** Configuration mechanism 1: the data port gives the register the address port selects. *)
Definition mechanism1 : Prop := ∀ n log a, hw_in n (log ++ [(4, 0xCF8, a)]) 4 0xCFC = cfg a.

Context (Hcfg : mechanism1) (vendor device : Z).

(** The word at which a bus, device and function are asked for their identification. *)
Definition id_word (b d f : Z) : Z := wrap 32 (cfg (wrap 32 (config_addr (PciAddress b d f 0) 0))).

Lemma probe_eq b d f s : ∃ s', probe vendor device b d f s =
  Ok (if matches vendor device (id_word b d f) then Some (PciAddress b d f 1) else None, s').
Proof using Hcfg.
  unfold probe, pci_read, outl, inl, out_, in_, mbind, M_bind, modify. cbn [io_n io_out].
  change (u16 0xCF8) with 0xCF8. change (u16 0xCFC) with 0xCFC. change (8 * 4) with 32. rewrite Hcfg.
  fold (id_word b d f). unfold matches. eexists.
  destruct (id_word b d f =? 0xFFFFFFFF); [reflexivity|]. cbn [negb andb]. by destruct (_ && _).
Qed.

(** Where the card is, if there is one. *)
Context (card : option (Z * Z * Z)).

Definition only_card : Prop := ∀ b d f, 0 ≤ b < 256 → 0 ≤ d < 32 → 0 ≤ f < 8 →
  matches vendor device (id_word b d f) = bool_decide (card = Some (b, d, f)).

Lemma matches_at b d f :
  only_card → 0 ≤ b < 256 → 0 ≤ d < 32 → 0 ≤ f < 32 →
  matches vendor device (id_word b d f) = bool_decide (card = Some (b, d .| (f / 8), f mod 8)).
Proof using Type.
  intros Ho Hb Hd Hf. pose proof (Z.div_mod f 8 ltac:(lia)). pose proof (Z.mod_pos_bound f 8 ltac:(lia)).
  assert (0 ≤ d .| (f / 8) < 2 ^ 5) by (apply lor_bound; lia).
  unfold id_word. rewrite (config_addr_alias b d f 0 0) by lia. by apply Ho.
Qed.
End find.

(** The first of the addresses tried that reaches device [d]. *)
Lemma lor_low2 d' k : 0 ≤ d' → 0 ≤ k < 4 → d' / 4 * 4 ≤ d' .| k ∧ (d' .| k) / 4 = d' / 4.
Proof.
  intros Hd Hk. assert ((d' .| k) / 2 ^ 2 = d' / 2 ^ 2) as E.
  { rewrite <- !Z.shiftr_div_pow2, Z.shiftr_lor by lia. rewrite (Z.shiftr_div_pow2 k), (Z.div_small k) by lia.
    apply Z.lor_0_r. }
  change (2 ^ 2) with 4 in E. split; [|done]. pose proof (Z.div_mod (d' .| k) 4 ltac:(lia)).
  pose proof (Z.mod_pos_bound (d' .| k) 4 ltac:(lia)). lia.
Qed.

(** ** Searches whose steps do not depend on the state *)

Fixpoint first {A} (n : nat) (i : Z) (g : Z → option A) : option A :=
  match n with
  | O => None
  | S n => match g i with Some a => Some a | None => first n (i + 1) g end
  end.

Lemma for_find_first {S A} (body : Z → M S (option A)) (g : Z → option A) n : ∀ i s,
  (∀ j s, i ≤ j < i + Z.of_nat n → ∃ s', body j s = Ok (g j, s')) →
  ∃ s', for_find n i body s = Ok (first n i g, s').
Proof.
  induction n as [|n IH]; intros i s Hb; cbn [for_find first]; [by exists s|].
  destruct (Hb i s ltac:(lia)) as [s1 E]. rewrite (M_bind_Ok _ _ _ _ _ E). destruct (g i); [by exists s1|].
  apply IH. intros j s' Hj. apply Hb. lia.
Qed.

Lemma first_Some {A} (g : Z → option A) n k a : ∀ i, i ≤ k < i + Z.of_nat n →
  (∀ j, i ≤ j < k → g j = None) → g k = Some a → first n i g = Some a.
Proof.
  induction n as [|n IH]; intros i Hk Hb Hg; [lia|]. cbn. destruct (decide (i = k)) as [->|]; [by rewrite Hg|].
  rewrite Hb by lia. apply IH; [lia| |done]. intros j Hj. apply Hb. lia.
Qed.

Lemma first_None {A} (g : Z → option A) n : ∀ i, (∀ j, i ≤ j < i + Z.of_nat n → g j = None) → first n i g = None.
Proof. induction n as [|n IH]; intros i Hb; [done|]. cbn. rewrite Hb by lia. apply IH. intros j Hj. apply Hb. lia. Qed.

(** The addresses tried, in their order, and the first of them that reaches the card. *)
Definition try_all (g : Z → Z → Z → bool) : option pci_address :=
  first (Z.to_nat 256) 0 (λ b, first (Z.to_nat 32) 0 (λ d, first (Z.to_nat 32) 0 (λ f,
    if g b d f then Some (PciAddress b d f 1) else None))).

Definition reported (b d f : Z) : pci_address := PciAddress b (d - d mod 4) (f + 8 * (d mod 4)) 1.

Lemma reported_reaches b d f :
  0 ≤ d → 0 ≤ f < 8 →
  pci_device (reported b d f) .| (pci_function (reported b d f) / 8) = d ∧ pci_function (reported b d f) mod 8 = f.
Proof.
  intros Hd Hf. cbn. pose proof (Z.div_mod d 4 ltac:(lia)). pose proof (Z.mod_pos_bound d 4 ltac:(lia)).
  rewrite (Z.mul_comm 8), Z.mod_add, (Z.mod_small f) by lia. split; [|done].
  rewrite Z.div_add, (Z.div_small f) by lia. replace (d - d mod 4) with (d / 4 * 2 ^ 2) by lia.
  rewrite lor_add_aligned; lia.
Qed.

Lemma try_all_card (g : Z → Z → Z → bool) b d f :
  0 ≤ b < 256 → 0 ≤ d < 32 → 0 ≤ f < 8 →
  (∀ b1 d1 f1, 0 ≤ b1 < 256 → 0 ≤ d1 < 32 → 0 ≤ f1 < 32 →
    g b1 d1 f1 = bool_decide (b = b1 ∧ d = d1 .| (f1 / 8) ∧ f = f1 mod 8)) →
  try_all g = Some (reported b d f).
Proof.
  intros Hb Hd Hf Hg. pose proof (Z.div_mod d 4 ltac:(lia)). pose proof (Z.mod_pos_bound d 4 ltac:(lia)) as Hm4.
  assert (∀ b1 d1 f1, 0 ≤ b1 < 256 → 0 ≤ d1 < 32 → 0 ≤ f1 < 32 →
    ¬ (b = b1 ∧ d = d1 .| (f1 / 8) ∧ f = f1 mod 8) → (if g b1 d1 f1 then Some (PciAddress b1 d1 f1 1) else None) = None) as Hno.
  { intros b1 d1 f1 H1 H2 H3 Hne. by rewrite Hg, bool_decide_eq_false_2. }
  assert (∀ d1 f1, 0 ≤ d1 → 0 ≤ f1 < 32 → (d1 .| (f1 / 8)) / 4 = d1 / 4) as Hhigh.
  { intros d1 f1 Hd1 Hf1. apply lor_low2; [done|]. split; [apply Z.div_pos|apply Z.div_lt_upper_bound]; lia. }
  unfold try_all. apply (first_Some _ _ b); [lia| |].
  { intros j Hj. apply first_None. intros d1 Hd1. apply first_None. intros f1 Hf1. apply Hno; [lia..|]. intros [-> _]. lia. }
  apply (first_Some _ _ (d - d mod 4)); [lia| |].
  { intros d1 Hd1. apply first_None. intros f1 Hf1. apply Hno; [lia..|]. intros (_ & E1 & _).
    pose proof (Hhigh d1 f1 ltac:(lia) ltac:(lia)) as E2. rewrite <- E1 in E2.
    pose proof (Z.div_mod d1 4 ltac:(lia)). pose proof (Z.mod_pos_bound d1 4 ltac:(lia)). lia. }
  apply (first_Some _ _ (f + 8 * (d mod 4))); [lia| |].
  { intros f1 Hf1. apply Hno; [lia..|]. intros (_ & E1 & E2). pose proof (Z.div_mod f1 8 ltac:(lia)).
    pose proof (Z.mod_pos_bound f1 8 ltac:(lia)). replace (d - d mod 4) with (d / 4 * 2 ^ 2) in E1 by lia.
    rewrite lor_add_aligned in E1 by lia. lia. }
  destruct (reported_reaches b d f) as [E1 E2]; [lia|lia|]. cbn [reported pci_device pci_function] in E1, E2. by rewrite Hg, E1, E2, bool_decide_eq_true_2 by lia.
Qed.

Lemma find_device_eq `{HW : Hardware} cfg vendor device s :
  mechanism1 cfg → ∃ s', pci_find_device vendor device s =
    Ok (default (PciAddress 0xFF 0xFF 0xFF 0) (try_all (λ b d f, matches vendor device (id_word cfg b d f))), s').
Proof.
  intros Hm. unfold pci_find_device.
  destruct (for_find_first (λ bus, for_find (Z.to_nat 32) 0 (λ dev,
    for_find (Z.to_nat 32) 0 (λ function, probe vendor device bus dev function)))
    (λ b, first (Z.to_nat 32) 0 (λ d, first (Z.to_nat 32) 0 (λ f,
      if matches vendor device (id_word cfg b d f) then Some (PciAddress b d f 1) else None)))
    (Z.to_nat 256) 0 s) as [s' E].
  { intros b sb Hb. apply for_find_first. intros d sd Hd. apply for_find_first. intros f sf Hf. by apply probe_eq. }
  rewrite (M_bind_Ok _ _ _ _ _ E). by exists s'.
Qed.

(** [pci_find_device] finds the card with the identification asked for wherever it is, and
    reports that there is none if there is none.  As it tries 32 functions where a device has eight,
    the address it reports has the right bus but, unless the device number is a multiple of four,
    neither the right device nor function; the registers of the card are still the ones it reaches. *)
Theorem pci_find_device_correct `{HW : Hardware} cfg vendor device card s :
  mechanism1 cfg → only_card cfg vendor device card →
  (∀ b d f, card = Some (b, d, f) → 0 ≤ b < 256 ∧ 0 ≤ d < 32 ∧ 0 ≤ f < 8) →
  wp (pci_find_device vendor device) (λ r _,
    match card with
    | Some (b, d, f) => r = PciAddress b (d - d mod 4) (f + 8 * (d mod 4)) 1 ∧
        ∀ off, config_addr r off = config_addr (PciAddress b d f 1) off
    | None => pci_valid r = 0
    end) s.
Proof.
  intros Hm Ho Hrange. destruct (find_device_eq cfg vendor device s Hm) as [s' E]. eapply wp_intro; [exact E|].
  destruct card as [[[b d] f]|].
  - destruct (Hrange b d f eq_refl) as (Hb & Hd & Hf). rewrite (try_all_card _ b d f); [|done..|].
    + cbn [default]. split; [done|]. intros off. destruct (reported_reaches b d f) as [E1 E2]; [lia|lia|].
      cbn [reported pci_device pci_function] in E1, E2.
      unfold reported. rewrite (config_addr_alias b (d - d mod 4) (f + 8 * (d mod 4)) 1 1), E1, E2; [done|].
      pose proof (Z.mod_pos_bound d 4 ltac:(lia)). lia.
    + intros b1 d1 f1 H1 H2 H3. rewrite (matches_at cfg vendor device (Some (b, d, f))) by done.
      apply bool_decide_ext. naive_solver.
  - assert (try_all (λ b d f, matches vendor device (id_word cfg b d f)) = None) as ->; [|done].
    apply first_None. intros b Hb. apply first_None. intros d Hd. apply first_None. intros f Hf.
    by rewrite (matches_at cfg vendor device None) by (done || lia).
Qed.

(** ** A concrete bus: one card, at device 5 *)

Module ExPci.
Definition card_word : Z := config_addr (PciAddress 0 5 0 0) 0.
Definition cfg (a : Z) : Z := if a =? card_word then 0x24158086 else 0xFFFFFFFF.
Definition selected (log : list (Z * Z * Z)) : Z :=
  match last log with Some (_, _, a) => a | None => 0 end.
#[export] Instance hw : Hardware := {| hw_in := λ _ log _ _, cfg (selected log); hw_tick := λ n, Z.of_nat n |}.

Lemma mech : mechanism1 cfg.
Proof. intros n log a. cbn. unfold selected. by rewrite last_snoc. Qed.

Lemma card_only : only_card cfg 0x8086 0x2415 (Some (0, 5, 0)).
Proof.
  intros b d f Hb Hd Hf. unfold id_word. rewrite config_addr_sum by lia. rewrite Z.land_0_l, Z.add_0_r.
  rewrite (wrap_small 32 (_ + f * 2 ^ 8)) by lia. unfold cfg.
  change card_word with (2 ^ 31 + 0 * 2 ^ 16 + 5 * 2 ^ 11 + 0 * 2 ^ 8).
  destruct (Z.eqb_spec (2 ^ 31 + b * 2 ^ 16 + d * 2 ^ 11 + f * 2 ^ 8) (2 ^ 31 + 0 * 2 ^ 16 + 5 * 2 ^ 11 + 0 * 2 ^ 8)) as [E|E].
  - assert (b = 0 ∧ d = 5 ∧ f = 0) as (-> & -> & ->) by lia. by vm_compute.
  - rewrite bool_decide_eq_false_2; [by vm_compute|]. intros [= <- <- <-]. by apply E.
Qed.
End ExPci.
Import ExPci.

Lemma pci_find_device_correct_witness :
  wp (pci_find_device 0x8086 0x2415) (λ r _, r = PciAddress 0 4 8 1) (IoBus 0 []).
Proof.
  eapply wp_mono; [apply (pci_find_device_correct cfg 0x8086 0x2415 (Some (0, 5, 0)) _ mech card_only)|].
  - intros b d f [= <- <- <-]. lia.
  - by intros r s' [-> _].
Defined.
