(* ===== verification/Ac97.v ===== *)
(** * The AC97 audio driver ([drivers/ac97.c], [ac97.h])

    Audio is played by DMA from a ring of 32 buffer descriptors, which the interrupt handler refills.
    What is written to the serial line is not modelled. *)

From S2P Require Import Prelude Loops Mm Acpi PortIo Pci.

(** ** Constants *)

Abbreviation AC97_NAMBAR := 0x10%Z.
Abbreviation AC97_NABMBAR := 0x14%Z.
Abbreviation AC97_GLOBAL_CONTROL := 0x2C%Z.
Abbreviation AC97_GLOBAL_STATUS := 0x30%Z.
Abbreviation AC97_GLOBAL_CONTROL_INTERRUPT_ENABLE := (1 .<< 0)%Z.
Abbreviation AC97_GLOBAL_CONTROL_COLD_RESET := (1 .<< 1)%Z.
Abbreviation AC97_GLOBAL_STATUS_CODEC_READY := (1 .<< 8)%Z.
(* src/drivers/ac97.h 28-37 AC97_BDL_BASE_ADDR *)
Definition AC97_BDL_BASE_ADDR : Z := 0x00.
Definition AC97_CURRENT_INDEX_VALUE : Z := 0x04.
Definition AC97_LAST_VALID_INDEX : Z := 0x05.
Definition AC97_CHANNEL_STATUS_REGISTER : Z := 0x06.
Definition AC97_POSITION_IN_CUR_BUFFER : Z := 0x08.
Definition AC97_CHANNEL_CONTROL_REGISTER : Z := 0x0B.
Abbreviation AC97_PCM_OUT_BASE := 0x10%Z.
(* src/drivers/ac97.h 45-53 AC97_CONTROL_REGISTER_RUN_PAUSE_BUS_MASTER *)
Definition CR_RUN_PAUSE_BUS_MASTER : Z := 1 .<< 0.
Definition CR_RESET_REGISTERS : Z := 1 .<< 1.
Definition CR_LAST_VALID_BUFFER_INTERRUPT_ENABLE : Z := 1 .<< 2.
Definition CR_ERROR_INTERRUPT_ENABLE : Z := 1 .<< 3.
Definition CR_INTERRUPT_ON_COMPLETION_ENABLE : Z := 1 .<< 4.
(* src/drivers/ac97.h 56-64 AC97_STATUS_REGISTER_DMA_CONTROLLER_HALTED *)
Definition SR_DMA_CONTROLLER_HALTED : Z := 1 .<< 0.
Definition SR_BUFFER_COMPLETION_INTERRUPT_STATUS : Z := 1 .<< 3.
Definition SR_FIFO_ERROR : Z := 1 .<< 4.
(* src/drivers/ac97.h 68-70 AC97_NAM_MASTER_VOLUME *)
Definition AC97_NAM_MASTER_VOLUME : Z := 0x02.
Definition AC97_NAM_PCM_OUT_VOLUME : Z := 0x18.
Definition AC97_NAM_SAMPLE_RATE : Z := 0x2C.
Abbreviation AC97_BDL_IOC := (1 .<< 15)%Z.
Abbreviation AC97_VENDOR_ID := 0x8086%Z.
Abbreviation AC97_DEVICE_ID := 0x2415%Z.
Abbreviation NUM_BDL_ENTRIES := 32%Z.
(* src/drivers/ac97.h 86-89 AC97_MAX_SAMPLES_PER_ENTRY *)
Definition AC97_MAX_SAMPLES_PER_ENTRY : Z := 0xFFE.
Abbreviation AC97_PCI_COMMAND_REGISTER := 0x04%Z.
Abbreviation AC97_BUS_MASTER_ENABLE := (1 .<< 2)%Z.
Abbreviation AC97_PCI_INTERRUPT_LINE := 0x3C%Z.

(** ** State *)

(* src/drivers/ac97.h 98-102 bdl_entry *)
Record bdl_entry := BdlEntry { buffer_addr_phys : Z; num_samples : Z; bdl_flags : Z }.

(** The static variables of the driver, the bus, the interrupt controllers and the vector the
    handler is registered for. *)
(* src/drivers/ac97.c 23-31 ring_buffer *)
Record ac97 := Ac97 {
  a_bus : iobus;
  a_apic : apic;
  a_vector : option Z;
  ring_buffer : list bdl_entry;
  last_valid_index : Z;
  bdl_entries_filled : Z;
  audio_cur_pos : Z;
  audio_data_end : Z;
  nambar : Z;
  nabmbar : Z;
}.

Definition set_bus (b : iobus) (s : ac97) : ac97 :=
  Ac97 b (a_apic s) (a_vector s) (ring_buffer s) (last_valid_index s) (bdl_entries_filled s)
    (audio_cur_pos s) (audio_data_end s) (nambar s) (nabmbar s).
Definition set_apic (x : apic) (s : ac97) : ac97 :=
  Ac97 (a_bus s) x (a_vector s) (ring_buffer s) (last_valid_index s) (bdl_entries_filled s)
    (audio_cur_pos s) (audio_data_end s) (nambar s) (nabmbar s).
Definition set_vector (v : Z) (s : ac97) : ac97 :=
  Ac97 (a_bus s) (a_apic s) (Some v) (ring_buffer s) (last_valid_index s) (bdl_entries_filled s)
    (audio_cur_pos s) (audio_data_end s) (nambar s) (nabmbar s).
Definition set_ring (r : list bdl_entry) (s : ac97) : ac97 :=
  Ac97 (a_bus s) (a_apic s) (a_vector s) r (last_valid_index s) (bdl_entries_filled s)
    (audio_cur_pos s) (audio_data_end s) (nambar s) (nabmbar s).
Definition set_last (i : Z) (s : ac97) : ac97 :=
  Ac97 (a_bus s) (a_apic s) (a_vector s) (ring_buffer s) i (bdl_entries_filled s)
    (audio_cur_pos s) (audio_data_end s) (nambar s) (nabmbar s).
Definition set_audio (filled cur end_ : Z) (s : ac97) : ac97 :=
  Ac97 (a_bus s) (a_apic s) (a_vector s) (ring_buffer s) (last_valid_index s) filled
    cur end_ (nambar s) (nabmbar s).
Definition set_bars (nam nabm : Z) (s : ac97) : ac97 :=
  Ac97 (a_bus s) (a_apic s) (a_vector s) (ring_buffer s) (last_valid_index s) (bdl_entries_filled s)
    (audio_cur_pos s) (audio_data_end s) nam nabm.

Definition on_bus {A} (m : M iobus A) : M ac97 A := λ s,
  match m (a_bus s) with
  | Ok (a, b) => Ok (a, set_bus b s)
  | Panic msg => Panic msg | Halt => Halt | Fault a => Fault a | OutOfFuel => OutOfFuel
  end.
Definition on_apic {A} (m : M apic A) : M ac97 A := λ s,
  match m (a_apic s) with
  | Ok (a, x) => Ok (a, set_apic x s)
  | Panic msg => Panic msg | Halt => Halt | Fault a => Fault a | OutOfFuel => OutOfFuel
  end.

(** A store to the ring, which faults outside it. *)
Definition st_ring (i : Z) (e : bdl_entry) : M ac97 unit := λ s,
  if bool_decide (0 ≤ i < Z.of_nat (length (ring_buffer s)))
  then Ok (tt, set_ring (<[Z.to_nat i := e]> (ring_buffer s)) s) else Fault i.

Section ac97.
Context `{HW : Hardware}.

(** Accesses relative to the two register blocks. *)
Definition nam_outw (off v : Z) : M ac97 unit := b ← gets nambar; on_bus (outw (b + off) v).
Definition nabm_outb (off v : Z) : M ac97 unit := b ← gets nabmbar; on_bus (outb (b + off) v).
Definition nabm_outw (off v : Z) : M ac97 unit := b ← gets nabmbar; on_bus (outw (b + off) v).
Definition nabm_outl (off v : Z) : M ac97 unit := b ← gets nabmbar; on_bus (outl (b + off) v).
Definition nabm_inb (off : Z) : M ac97 Z := b ← gets nabmbar; on_bus (inb (b + off)).
Definition nabm_inw (off : Z) : M ac97 Z := b ← gets nabmbar; on_bus (inw (b + off)).
Definition nabm_inl (off : Z) : M ac97 Z := b ← gets nabmbar; on_bus (inl (b + off)).

(** ** Initialisation *)

(* src/drivers/ac97.c 78-84 enable_bus_master *)
Definition enable_bus_master (bdf : pci_address) : M ac97 unit :=
  cmd ← on_bus (pci_read bdf AC97_PCI_COMMAND_REGISTER);
  on_bus (pci_write bdf AC97_PCI_COMMAND_REGISTER (cmd .| (AC97_BUS_MASTER_ENABLE .| (1 .<< 0)))).

(* src/drivers/ac97.c 86-107 controller_reset *)
Definition controller_reset (fuel : nat) : M ac97 unit :=
  nabm_inl AC97_GLOBAL_CONTROL ;;
  nabm_outl AC97_GLOBAL_CONTROL AC97_GLOBAL_CONTROL_INTERRUPT_ENABLE ;;
  on_bus (sleep_ms fuel 1) ;;
  nabm_outl AC97_GLOBAL_CONTROL (AC97_GLOBAL_CONTROL_COLD_RESET .| AC97_GLOBAL_CONTROL_INTERRUPT_ENABLE).

(** A codec that is not ready in time stops the machine. *)
(* src/drivers/ac97.c 109-116 ready_codec *)
Definition ready_codec (fuel : nat) : M ac97 unit :=
  b ← gets nabmbar;
  ok ← on_bus (timeout fuel 10000 (v ← inl (b + AC97_GLOBAL_STATUS); mret (nz (v .& AC97_GLOBAL_STATUS_CODEC_READY))));
  if (ok : bool) then mret tt else halt.

(* src/drivers/ac97.c 118-128 configure_codec *)
Definition configure_codec : M ac97 unit :=
  nam_outw AC97_NAM_MASTER_VOLUME 0x0000 ;;
  nam_outw AC97_NAM_PCM_OUT_VOLUME 0x0000 ;;
  nam_outw AC97_NAM_SAMPLE_RATE 48000.

(* src/drivers/ac97.c 33-76 ac97_init *)
Definition ac97_init (fuel : nat) (local_apic_id : Z) : M ac97 Z :=
  bdf ← on_bus (pci_find_device AC97_VENDOR_ID AC97_DEVICE_ID);
  if pci_valid bdf =? 0 then mret 1 else
  nam ← on_bus (pci_read bdf AC97_NAMBAR);
  nabm ← on_bus (pci_read bdf AC97_NABMBAR);
  modify (set_bars (nam .& unot 32 0x3) (nabm .& unot 32 0x3)) ;;
  enable_bus_master bdf ;;
  controller_reset fuel ;;
  ready_codec fuel ;;
  configure_codec ;;
  line ← on_bus (pci_read bdf AC97_PCI_INTERRUPT_LINE);
  let irq := line .& 0xFF in
  let vector := u8 (32 + irq) in
  modify (set_vector vector) ;;
  on_apic (configure_ioapic_irq_with_flags irq vector local_apic_id 0x08) ;;
  nabm_outb (AC97_PCM_OUT_BASE + AC97_CHANNEL_CONTROL_REGISTER)
    ((CR_LAST_VALID_BUFFER_INTERRUPT_ENABLE .| CR_ERROR_INTERRUPT_ENABLE) .| CR_INTERRUPT_ON_COMPLETION_ENABLE) ;;
  mret 0.

(** ** Filling the ring *)

(* src/drivers/ac97.c 145-155 samples_in_chunk *)
Definition samples_in_chunk (pos end_ : Z) : Z :=
  let remaining := u32 (end_ - pos) in
  if AC97_MAX_SAMPLES_PER_ENTRY * 2 <=? remaining then AC97_MAX_SAMPLES_PER_ENTRY
  else u16 (u16 (remaining .>> 1) .& unot 32 1).

(** The loop of [ac97_setup_bdl], [n] rounds at most; the number of entries filled and the next
    position. *)
(* src/drivers/ac97.c 181-199 ac97_setup_bdl *)
Fixpoint fill (n : nat) (i audio_start audio_end : Z) : M ac97 (Z * Z) :=
  match n with
  | O => mret (i, audio_start)
  | S n =>
      if audio_start <? audio_end then
        let samples := samples_in_chunk audio_start audio_end in
        if samples =? 0 then mret (i, audio_start) else
        st_ring i (BdlEntry (u32 audio_start) samples AC97_BDL_IOC) ;;
        fill n (i + 1) (u64 (audio_start + samples * 2)) audio_end
      else mret (i, audio_start)
  end.

(** The controller is polled until the DMA engine has stopped, at most [fuel] more times. *)
Fixpoint wait_halted (fuel : nat) : M ac97 unit :=
  v ← nabm_inw (AC97_PCM_OUT_BASE + AC97_CHANNEL_STATUS_REGISTER);
  if nz (v .& SR_DMA_CONTROLLER_HALTED) then mret tt else
  match fuel with O => out_of_fuel | S fuel => wait_halted fuel end.

(* src/drivers/ac97.c 157-204 ac97_setup_bdl *)
Definition ac97_setup_bdl (fuel : nat) (audio_start audio_end : Z) : M ac97 unit :=
  if (0xFFFFFFFF <? audio_start) || (0xFFFFFFFF <? audio_end) then halt else
  nabm_outb (AC97_PCM_OUT_BASE + AC97_CHANNEL_CONTROL_REGISTER) CR_RESET_REGISTERS ;;
  wait_halted fuel ;;
  nabm_outw (AC97_PCM_OUT_BASE + AC97_CHANNEL_STATUS_REGISTER) 0x1E ;;
  '(i, audio_start) ← fill (Z.to_nat NUM_BDL_ENTRIES) 0 audio_start audio_end;
  modify (set_audio i audio_start audio_end).

(** [ring] is the address of [ring_buffer]. *)
(* src/drivers/ac97.c 206-229 ac97_start_playback *)
Definition ac97_start_playback `{BI : BootInfo} (ring : Z) : M ac97 unit :=
  filled ← gets bdl_entries_filled;
  if filled =? 0 then mret tt else
  nabm_outl (AC97_PCM_OUT_BASE + AC97_BDL_BASE_ADDR) (u32 (virt_to_phys ring)) ;;
  modify (set_last (filled - 1)) ;;
  lvi ← gets last_valid_index;
  nabm_outb (AC97_PCM_OUT_BASE + AC97_LAST_VALID_INDEX) lvi ;;
  cr ← nabm_inb (AC97_PCM_OUT_BASE + AC97_CHANNEL_CONTROL_REGISTER);
  nabm_outb (AC97_PCM_OUT_BASE + AC97_CHANNEL_CONTROL_REGISTER) (cr .| CR_RUN_PAUSE_BUS_MASTER).

(* src/drivers/ac97.c 239-250 ac97_play *)
Definition ac97_play `{BI : BootInfo} (fuel : nat) (ring pcm_start pcm_end : Z) : M ac97 unit :=
  let start := virt_to_phys pcm_start in
  let end_ := virt_to_phys pcm_end in
  if end_ <=? start then mret tt else
  ac97_setup_bdl fuel start end_ ;;
  ac97_start_playback ring.

(** ** Interrupts *)

(* src/drivers/ac97.c 278-340 ac97_irq_handler *)
Definition ac97_irq_handler : M ac97 unit :=
  status ← nabm_inw (AC97_PCM_OUT_BASE + AC97_CHANNEL_STATUS_REGISTER);
  let complete := nz (status .& SR_BUFFER_COMPLETION_INTERRUPT_STATUS) in
  if nz (status .& SR_FIFO_ERROR) then halt else
  nabm_outw (AC97_PCM_OUT_BASE + AC97_CHANNEL_STATUS_REGISTER) status ;;
  if negb complete then on_apic apic_send_eoi else
  cur ← gets audio_cur_pos;
  end_ ← gets audio_data_end;
  if end_ <=? cur then on_apic apic_send_eoi else
  lvi ← gets last_valid_index;
  let next_slot := (lvi + 1) .& (NUM_BDL_ENTRIES - 1) in
  let samples := samples_in_chunk cur end_ in
  st_ring next_slot (BdlEntry (u32 cur) samples AC97_BDL_IOC) ;;
  modify (λ s, set_audio (bdl_entries_filled s) (u64 (cur + samples * 2)) end_ s) ;;
  modify (set_last next_slot) ;;
  nabm_outb (AC97_PCM_OUT_BASE + AC97_LAST_VALID_INDEX) next_slot ;;
  on_apic apic_send_eoi.
End ac97.
