(* ===== verification/Ac97Props.v ===== *)
(** * The theorems about the AC97 driver

    The ring of descriptors is a window on the clip being played: the entries handed to the
    controller, from the start of playback and by the interrupt handler, are the clip cut into
    chunks, in order, each in the slot the controller looks at next. *)

From S2P Require Import Prelude Loops Mm PagingSpec Acpi PortIo Pci Ac97.

(** ** Chunks *)

(** Samples of the next entry with [r] bytes left: whole stereo frames, which have four bytes. *)
Definition chunk (r : Z) : Z := if 8188 <=? r then 4094 else r / 4 * 2.

Lemma samples_chunk pos end_ : 0 ≤ pos ≤ end_ → end_ < 2 ^ 32 → samples_in_chunk pos end_ = chunk (end_ - pos).
Proof.
  intros Hp He. unfold samples_in_chunk, chunk, AC97_MAX_SAMPLES_PER_ENTRY. rewrite wrap_small by lia.
  change (4094 * 2) with 8188. destruct (Z.leb_spec 8188 (end_ - pos)) as [|Hr]; [done|].
  set (r := end_ - pos) in *. rewrite Z.shiftr_div_pow2 by lia. change (2 ^ 1) with 2.
  pose proof (Z.div_mod r 2 ltac:(lia)). pose proof (Z.mod_pos_bound r 2 ltac:(lia)).
  rewrite (wrap_small 16 (r / 2)) by lia.
  assert ((r / 2) .& unot 32 1 = r / 2 / 2 ^ 1 * 2 ^ 1) as -> by (apply (land_unot_ones 32 (r / 2) 1); lia).
  change (2 ^ 1) with 2. pose proof (Z.div_mod (r / 2) 2 ltac:(lia)). pose proof (Z.mod_pos_bound (r / 2) 2 ltac:(lia)).
  rewrite wrap_small by lia. rewrite Z.div_div by lia. done.
Qed.

Lemma chunk_bound r : 0 < r → 0 ≤ chunk r ≤ 4094 ∧ 2 * chunk r ≤ r ∧ chunk r mod 2 = 0 ∧ (4 ≤ r → 0 < chunk r).
Proof.
  intros Hr. unfold chunk. pose proof (Z.div_mod r 4 ltac:(lia)). pose proof (Z.mod_pos_bound r 4 ltac:(lia)).
  destruct (Z.leb_spec 8188 r); [done + (split_and!; try lia; done)|].
  split_and!; [lia..|by apply Z.mod_mul|lia].
Qed.

(** Bytes left keep their remainder modulo four. *)
Lemma chunk_mod4 r : (r - 2 * chunk r) mod 4 = r mod 4.
Proof.
  unfold chunk. destruct (8188 <=? r).
  - replace (r - 2 * 4094) with (r + (-2047) * 4) by lia. apply Z.mod_add. lia.
  - replace (r - 2 * (r / 4 * 2)) with (r + (- (r / 4)) * 4) by lia. apply Z.mod_add. lia.
Qed.

(** The first [n] entries for a clip. *)
Fixpoint clip (n : nat) (pos end_ : Z) : list bdl_entry :=
  match n with
  | O => []
  | S n =>
      if pos <? end_ then
        BdlEntry pos (chunk (end_ - pos)) AC97_BDL_IOC :: clip n (pos + 2 * chunk (end_ - pos)) end_
      else []
  end.

(** The bytes of the entries, and the position behind them. *)
Definition bytes (q : list bdl_entry) : Z := foldr (λ e a, 2 * num_samples e + a) 0 q.

Lemma bytes_cons e q : bytes (e :: q) = 2 * num_samples e + bytes q.
Proof. done. Qed.

Lemma bytes_app q1 q2 : bytes (q1 ++ q2) = bytes q1 + bytes q2.
Proof. induction q1 as [|e q1 IH]; [done|]. cbn [app]. rewrite !bytes_cons, IH. lia. Qed.

(** The entries are consecutive chunks of the clip that starts at [pos]. *)
Fixpoint contig (pos end_ : Z) (q : list bdl_entry) : Prop :=
  match q with
  | [] => True
  | e :: q => pos < end_ ∧ e = BdlEntry pos (chunk (end_ - pos)) AC97_BDL_IOC ∧
      contig (pos + 2 * chunk (end_ - pos)) end_ q
  end.

Lemma contig_app pos end_ q1 q2 : contig pos end_ (q1 ++ q2) ↔ contig pos end_ q1 ∧ contig (pos + bytes q1) end_ q2.
Proof.
  revert pos. induction q1 as [|e q1 IH]; intros pos; cbn [app contig bytes foldr].
  - replace (pos + 0) with pos by lia. naive_solver.
  - rewrite IH. split.
    + intros (H & -> & H1 & H2). cbn. rewrite Z.add_assoc. naive_solver.
    + intros [(H & -> & H1) H2]. cbn in H2. rewrite Z.add_assoc in H2. naive_solver.
Qed.

Lemma contig_bytes pos end_ q : contig pos end_ q → pos ≤ end_ → 0 ≤ bytes q ∧ pos + bytes q ≤ end_.
Proof.
  revert pos. induction q as [|e q IH]; intros pos; [cbn; lia|]. intros (H & -> & Hq) Hp.
  pose proof (chunk_bound (end_ - pos) ltac:(lia)). destruct (IH _ Hq ltac:(lia)). rewrite bytes_cons. cbn. lia.
Qed.

(** Every entry lies in the clip and has an even number of samples. *)
Lemma contig_in pos end_ q e : contig pos end_ q → e ∈ q →
  pos ≤ buffer_addr_phys e ∧ buffer_addr_phys e + 2 * num_samples e ≤ end_ ∧
  0 ≤ num_samples e ≤ AC97_MAX_SAMPLES_PER_ENTRY ∧ num_samples e mod 2 = 0.
Proof.
  revert pos. induction q as [|x q IH]; intros pos; [by intros _ ?%elem_of_nil|]. cbn. intros (H & -> & Hq) [->|Hin]%elem_of_cons.
  - cbn. pose proof (chunk_bound (end_ - pos) ltac:(lia)). unfold AC97_MAX_SAMPLES_PER_ENTRY. split_and!; lia.
  - pose proof (chunk_bound (end_ - pos) ltac:(lia)). destruct (IH _ Hq Hin) as (? & ? & [? ?] & ?). split_and!; done || lia.
Qed.

Lemma clip_contig n pos end_ : contig pos end_ (clip n pos end_).
Proof. revert pos. induction n as [|n IH]; intros pos; cbn; [done|]. destruct (Z.ltb_spec pos end_); [by cbn|done]. Qed.

(** One more entry. *)
Lemma clip_S n pos end_ :
  clip (S n) pos end_ = clip n pos end_ ++
    (if pos + bytes (clip n pos end_) <? end_
     then [BdlEntry (pos + bytes (clip n pos end_)) (chunk (end_ - (pos + bytes (clip n pos end_)))) AC97_BDL_IOC] else []).
Proof.
  revert pos. induction n as [|n IH]; intros pos.
  - cbn. replace (pos + 0) with pos by lia. by destruct (pos <? end_).
  - cbn [clip]. cbn [clip] in IH. destruct (Z.ltb_spec pos end_) as [Hlt|Hge].
    + rewrite IH. cbn [app bytes foldr num_samples]. fold (bytes (clip n (pos + 2 * chunk (end_ - pos)) end_)).
      rewrite Z.add_assoc. done.
    + cbn. rewrite (proj2 (Z.ltb_ge _ _)) by lia. done.
Qed.

(** A clip of whole frames is played completely: the entries cover it, and none is empty. *)
Lemma clip_all n pos end_ : (end_ - pos) mod 4 = 0 → pos ≤ end_ → end_ - pos ≤ 8188 * Z.of_nat n →
  bytes (clip n pos end_) = end_ - pos.
Proof.
  revert pos. induction n as [|n IH]; intros pos Hm Hp Hn; cbn [clip]; [cbn; lia|].
  destruct (Z.ltb_spec pos end_) as [Hlt|]; [|cbn; lia]. rewrite bytes_cons. cbn [num_samples].
  pose proof (chunk_mod4 (end_ - pos)) as Hc. pose proof (chunk_bound (end_ - pos) ltac:(lia)).
  rewrite (IH (pos + 2 * chunk (end_ - pos))); [lia| |lia|].
  - rewrite <- Hm, <- Hc. f_equal. lia.
  - unfold chunk in *. destruct (Z.leb_spec 8188 (end_ - pos)); [lia|].
    pose proof (Z.div_mod (end_ - pos) 4 ltac:(lia)). lia.
Qed.

Lemma contig_clip pos end_ q n : contig pos end_ q → length q = n ∨ (length q ≤ n)%nat ∧ end_ ≤ pos + bytes q → q = clip n pos end_.
Proof.
  revert pos n. induction q as [|e q IH]; intros pos n Hc Hn.
  - cbn in Hn. destruct n as [|n]; [done|]. destruct Hn as [|[_ Hn]]; [done|]. cbn.
    by rewrite (proj2 (Z.ltb_ge _ _)) by lia.
  - destruct Hc as (H & -> & Hc). destruct n as [|n]; [cbn in Hn; lia|]. cbn [clip]. rewrite (proj2 (Z.ltb_lt _ _)) by done.
    f_equal. apply IH; [done|]. rewrite bytes_cons in Hn. cbn [length num_samples] in Hn.
    destruct Hn as [Hn|[Hn Hb]]; [left; lia|right; split; lia].
Qed.

(** ** The ring *)

Section ring.
Context `{HW : Hardware}.

(** [q] are the entries handed out so far: the ring holds the last 32 of them, [last_valid_index]
    is the slot of the last, and [audio_cur_pos] is where the clip goes on. *)
Record stream (start end_ : Z) (q : list bdl_entry) (s : ac97) : Prop := {
  st_range : 0 ≤ start ≤ end_ ∧ end_ < 2 ^ 32;
  st_contig : contig start end_ q;
  st_len : length (ring_buffer s) = 32%nat;
  st_slots j : (j < length q ≤ j + 32)%nat → ring_buffer s !! (j mod 32)%nat = q !! j;
  st_cur : audio_cur_pos s = start + bytes q;
  st_end : audio_data_end s = end_;
  st_last : last_valid_index s = (Z.of_nat (length q) - 1) mod 32;
}.

(** What the controller answers when the handler asks for its status. *)
Definition status (s : ac97) : Z :=
  wrap 16 (hw_in (io_n (a_bus s)) (io_out (a_bus s)) 2 (u16 (nabmbar s + (AC97_PCM_OUT_BASE + AC97_CHANNEL_STATUS_REGISTER)))).

Definition next_entry (start end_ : Z) (q : list bdl_entry) : bdl_entry :=
  BdlEntry (start + bytes q) (chunk (end_ - (start + bytes q))) AC97_BDL_IOC.

Lemma stream_push start end_ q s s' :
  stream start end_ q s → start + bytes q < end_ →
  ring_buffer s' = <[(length q mod 32)%nat := next_entry start end_ q]> (ring_buffer s) →
  audio_cur_pos s' = start + bytes q + 2 * chunk (end_ - (start + bytes q)) →
  audio_data_end s' = end_ → last_valid_index s' = Z.of_nat (length q) mod 32 →
  stream start end_ (q ++ [next_entry start end_ q]) s'.
Proof.
  intros [Hr Hc Hl Hs Hcur He Hlast] Hlt Ering Ecur Eend Elast. split; [done| | | | |done|].
  - apply contig_app. by split.
  - by rewrite Ering, length_insert.
  - intros j Hj. rewrite length_app in Hj. cbn [length] in Hj. rewrite Ering.
    destruct (decide (j = length q)) as [->|Hne].
    + rewrite list_lookup_insert_eq by (rewrite Hl; apply Nat.mod_upper_bound; lia).
      by rewrite lookup_app_r, Nat.sub_diag by lia.
    + rewrite list_lookup_insert_ne, lookup_app_l by
        (pose proof (Nat.div_mod_eq j 32); pose proof (Nat.div_mod_eq (length q) 32);
         pose proof (Nat.mod_upper_bound j 32); lia).
      apply Hs. lia.
  - rewrite Ecur, bytes_app, bytes_cons. cbn. lia.
  - rewrite Elast, length_app. cbn [length]. f_equal. lia.
Qed.

Lemma stream_same start end_ q s s' :
  stream start end_ q s → ring_buffer s' = ring_buffer s → audio_cur_pos s' = audio_cur_pos s →
  audio_data_end s' = audio_data_end s → last_valid_index s' = last_valid_index s → stream start end_ q s'.
Proof. intros [????? ? ?] E1 E2 E3 E4. split; rewrite ?E1, ?E2, ?E3, ?E4; done. Qed.

Lemma nabm_inw_eq off s : nabm_inw off s =
  Ok (wrap 16 (hw_in (io_n (a_bus s)) (io_out (a_bus s)) 2 (u16 (nabmbar s + off))),
      set_bus (IoBus (S (io_n (a_bus s))) (io_out (a_bus s))) s).
Proof. done. Qed.
Lemma nabm_inb_eq off s : ∃ v b, nabm_inb off s = Ok (v, set_bus b s).
Proof. by do 2 eexists. Qed.
Lemma nabm_outb_eq off v s : nabm_outb off v s =
  Ok (tt, set_bus (IoBus (io_n (a_bus s)) (io_out (a_bus s) ++ [(1, u16 (nabmbar s + off), u8 v)])) s).
Proof. done. Qed.
Lemma nabm_outw_eq off v s : ∃ b, nabm_outw off v s = Ok (tt, set_bus b s).
Proof. by eexists. Qed.
Lemma nabm_outl_eq off v s : ∃ b, nabm_outl off v s = Ok (tt, set_bus b s).
Proof. by eexists. Qed.

(** The interrupt handler, for whatever the controller answers. *)
Lemma handler_ok start end_ q s :
  stream start end_ q s → q ≠ [] →
  match ac97_irq_handler s with
  | Ok (_, s') => nz (status s .& SR_FIFO_ERROR) = false ∧ nabmbar s' = nabmbar s ∧
      bdl_entries_filled s' = bdl_entries_filled s ∧
      stream start end_ (if nz (status s .& SR_BUFFER_COMPLETION_INTERRUPT_STATUS) && (start + bytes q <? end_)
        then q ++ [next_entry start end_ q] else q) s'
  | Halt => nz (status s .& SR_FIFO_ERROR) = true
  | _ => False
  end.
Proof.
  intros HS Hq. unfold ac97_irq_handler.
  rewrite (M_bind_Ok _ _ _ _ _ (nabm_inw_eq (AC97_PCM_OUT_BASE + AC97_CHANNEL_STATUS_REGISTER) s)). fold (status s). cbv zeta.
  destruct (nz (status s .& SR_FIFO_ERROR)); [done|].
  edestruct nabm_outw_eq as [b1 E1]. rewrite (M_bind_Ok _ _ _ _ _ E1). clear E1.
  assert (length q ≠ 0%nat) as Hq0 by (by destruct q).
  destruct (nz (status s .& SR_BUFFER_COMPLETION_INTERRUPT_STATUS)); cbn [negb andb].
  2: { cbn. split_and!; [done..|]. by apply (stream_same _ _ _ s). }
  pose proof (st_cur _ _ _ _ HS) as Hcur. pose proof (st_end _ _ _ _ HS) as Hend.
  pose proof (st_last _ _ _ _ HS) as Hlast. pose proof (st_range _ _ _ _ HS) as Hr.
  pose proof (contig_bytes _ _ _ (st_contig _ _ _ _ HS) ltac:(lia)) as Hb.
  cbv [mbind M_bind gets]. cbn [audio_cur_pos audio_data_end last_valid_index set_bus].
  rewrite Hcur, Hend. destruct (Z.leb_spec end_ (start + bytes q)) as [Hge|Hlt].
  { rewrite (proj2 (Z.ltb_ge _ _)) by lia. cbn. split_and!; [done..|]. by apply (stream_same _ _ _ s). }
  rewrite (proj2 (Z.ltb_lt _ _)) by lia. cbn [last_valid_index set_bus]. rewrite Hlast.
  assert (((Z.of_nat (length q) - 1) mod 32 + 1) .& (NUM_BDL_ENTRIES - 1) = Z.of_nat (length q mod 32)) as ->.
  { change (NUM_BDL_ENTRIES - 1) with (Z.ones 5). rewrite Z.land_ones by lia. change (2 ^ 5) with 32.
    rewrite Zplus_mod_idemp_l, Nat2Z.inj_mod. f_equal. lia. }
  pose proof (Nat.mod_upper_bound (length q) 32 ltac:(lia)). remember (length q mod 32)%nat as k eqn:Ek.
  rewrite samples_chunk by lia. pose proof (chunk_bound (end_ - (start + bytes q)) ltac:(lia)) as Hch.
  unfold st_ring. cbn [ring_buffer set_bus]. rewrite (st_len _ _ _ _ HS), bool_decide_eq_true_2 by lia.
  rewrite Nat2Z.id. cbn [modify].
  rewrite nabm_outb_eq.
  cbn. split_and!; [done..|]. apply (stream_push _ _ _ s); [done|lia| |cbn; rewrite wrap_small; lia|done|].
  - cbn. rewrite Ek. unfold next_entry. by rewrite wrap_small by lia.
  - cbn. rewrite Ek. apply Nat2Z.inj_mod.
Qed.

(** ** The start of playback *)

Lemma fill_ok n : ∀ i pos end_ s,
  length (ring_buffer s) = 32%nat → 0 ≤ i → i + Z.of_nat n ≤ 32 → 0 ≤ pos ≤ end_ → end_ < 2 ^ 32 →
  ∃ es, fill n i pos end_ s =
      Ok ((i + Z.of_nat (length es), pos + bytes es), set_ring (list_inserts (Z.to_nat i) es (ring_buffer s)) s) ∧
    contig pos end_ es ∧ (length es ≤ n)%nat ∧ (length es = n ∨ end_ - (pos + bytes es) < 4) ∧
    Forall (λ e, 0 < num_samples e) es.
Proof.
  induction n as [|n IH]; intros i pos end_ s Hl Hi Hn Hp He.
  all: assert (Ok ((i, pos), s) = Ok ((i + Z.of_nat (length (@nil bdl_entry)), pos + bytes []),
      set_ring (list_inserts (Z.to_nat i) [] (ring_buffer s)) s)) as Hnil
    by (cbn; rewrite !Z.add_0_r; by destruct s).
  { exists []. split_and!; [exact Hnil|done|done|by left|done]. }
  cbn [fill]. destruct (Z.ltb_spec pos end_) as [Hlt|Hge].
  2: { exists []. split_and!; [exact Hnil|done|cbn; lia|right; cbn; lia|done]. }
  rewrite samples_chunk by lia. pose proof (chunk_bound (end_ - pos) ltac:(lia)) as (Hc0 & Hc1 & _ & Hc4).
  destruct (Z.eqb_spec (chunk (end_ - pos)) 0) as [E|E].
  { exists []. split_and!; [exact Hnil|done|cbn; lia|right; cbn; lia|done]. }
  unfold st_ring at 1. set (e := BdlEntry (u32 pos) _ _).
  rewrite (M_bind_Ok _ _ s tt (set_ring (<[Z.to_nat i := e]> (ring_buffer s)) s))
    by (by rewrite bool_decide_eq_true_2 by lia).
  rewrite (wrap_small 64) by lia.
  destruct (IH (i + 1) (pos + chunk (end_ - pos) * 2) end_ (set_ring (<[Z.to_nat i := e]> (ring_buffer s)) s))
    as (es & Ef & Hcon & Hlen & Hend & Hpos); [by cbn; rewrite length_insert|lia..|].
  exists (e :: es). rewrite Ef, bytes_cons. cbn [length num_samples e]. split_and!.
  - replace (i + 1 + Z.of_nat (length es)) with (i + Z.of_nat (S (length es))) by lia.
    replace (pos + chunk (end_ - pos) * 2 + bytes es) with (pos + (2 * chunk (end_ - pos) + bytes es)) by lia.
    replace (Z.to_nat (i + 1)) with (S (Z.to_nat i)) by lia. cbn [ring_buffer set_ring].
    by rewrite <- list_insert_inserts_lt by lia.
  - cbn [contig]. split_and!; [done| |]. { unfold e. by rewrite wrap_small by lia. }
    by rewrite (Z.mul_comm 2).
  - lia.
  - destruct Hend as [->|Hend]; [by left|right]. lia.
  - constructor; [cbn; lia|done].
Qed.

(** Where the status and the control register are. *)
Definition status_port (nabm : Z) : Z := u16 (nabm + (AC97_PCM_OUT_BASE + AC97_CHANNEL_STATUS_REGISTER)).
Definition control_port (nabm : Z) : Z := u16 (nabm + (AC97_PCM_OUT_BASE + AC97_CHANNEL_CONTROL_REGISTER)).

Lemma wrap_bit v k : 0 ≤ k < 16 → nz (wrap 16 v .& 2 ^ k) = Z.testbit v k.
Proof.
  intros Hk. rewrite land_testbit_pow2 by lia. unfold wrap. by rewrite Z.mod_pow2_bits_low by lia.
Qed.

(** The controller reports that its DMA engine has stopped to one of the first [fuel + 1] requests
    for its status that follow the write of the reset bit. *)
Definition resets (fuel : nat) (s : ac97) : Prop :=
  ∃ k, (k ≤ fuel)%nat ∧
    Z.testbit (hw_in (io_n (a_bus s) + k)%nat
      (io_out (a_bus s) ++ [(1, control_port (nabmbar s), CR_RESET_REGISTERS)]) 2 (status_port (nabmbar s))) 0 = true.

Lemma wait_halted_ok fuel : ∀ s,
  match wait_halted fuel s with
  | Ok (_, s') => ∃ b, s' = set_bus b s
  | OutOfFuel => ∀ k, (k ≤ fuel)%nat →
      Z.testbit (hw_in (io_n (a_bus s) + k)%nat (io_out (a_bus s)) 2 (status_port (nabmbar s))) 0 = false
  | _ => False
  end.
Proof.
  induction fuel as [|fuel IH]; intros s; cbn [wait_halted];
    rewrite (M_bind_Ok _ _ _ _ _ (nabm_inw_eq (AC97_PCM_OUT_BASE + AC97_CHANNEL_STATUS_REGISTER) s));
    fold (status_port (nabmbar s)); change SR_DMA_CONTROLLER_HALTED with (2 ^ 0); rewrite wrap_bit by lia;
    destruct (Z.testbit _ 0) eqn:Eb; try (by eexists).
  - intros k Hk. assert (k = 0)%nat as -> by lia. by rewrite Nat.add_0_r.
  - specialize (IH (set_bus (IoBus (S (io_n (a_bus s))) (io_out (a_bus s))) s)).
    destruct (wait_halted fuel _) as [[[] s']| | | |]; try done.
    intros [|k] Hk; [by rewrite Nat.add_0_r|]. specialize (IH k ltac:(lia)).
    cbn [a_bus set_bus io_n io_out nabmbar] in IH.
    by replace (io_n (a_bus s) + S k)%nat with (S (io_n (a_bus s)) + k)%nat by lia.
Qed.

Lemma setup_ok fuel start end_ s :
  length (ring_buffer s) = 32%nat → 0 ≤ start ≤ end_ → end_ < 2 ^ 32 →
  match ac97_setup_bdl fuel start end_ s with
  | Ok (_, s') => ∃ es b, s' = set_audio (Z.of_nat (length es)) (start + bytes es) end_
        (set_ring (list_inserts 0 es (ring_buffer s)) (set_bus b s)) ∧
      contig start end_ es ∧ (length es ≤ 32)%nat ∧ (length es = 32%nat ∨ end_ - (start + bytes es) < 4)
  | OutOfFuel => ¬ resets fuel s
  | _ => False
  end.
Proof.
  intros Hl Hs He. unfold ac97_setup_bdl. rewrite !(proj2 (Z.ltb_ge _ _)) by lia. cbn [orb].
  rewrite (M_bind_Ok _ _ _ _ _ (nabm_outb_eq _ _ _)). fold (control_port (nabmbar s)).
  set (b1 := IoBus _ _). pose proof (wait_halted_ok fuel (set_bus b1 s)) as Hw. unfold mbind at 1, M_bind at 1.
  destruct (wait_halted fuel _) as [[[] s2]| | | |]; try done.
  2: { intros (k & Hk & Hb). specialize (Hw k Hk). cbn [a_bus set_bus nabmbar io_n io_out b1] in Hw.
       change (u8 CR_RESET_REGISTERS) with CR_RESET_REGISTERS in Hw. congruence. }
  destruct Hw as [b2 ->].
  edestruct nabm_outw_eq as [b3 E3]. rewrite (M_bind_Ok _ _ _ _ _ E3). clear E3.
  destruct (fill_ok (Z.to_nat NUM_BDL_ENTRIES) 0 start end_ (set_bus b3 (set_bus b2 (set_bus b1 s))))
    as (es & Ef & Hc & Hlen & Hend & _); [done|lia..|].
  rewrite (M_bind_Ok _ _ _ _ _ Ef). exists es, b3. split_and!; done.
Qed.

Context `{BI : BootInfo}.

Lemma start_ok ring s :
  ∃ b, ac97_start_playback ring s =
    Ok (tt, if bdl_entries_filled s =? 0 then s else set_last (bdl_entries_filled s - 1) (set_bus b s)).
Proof.
  unfold ac97_start_playback, mbind, M_bind, gets. destruct (_ =? 0); [by exists (a_bus s)|]. by eexists.
Qed.

(** Playing a clip of at least one frame fills the ring. *)
Lemma play_ok fuel ring p0 p1 s start end_ :
  start = virt_to_phys p0 → end_ = virt_to_phys p1 → length (ring_buffer s) = 32%nat →
  0 ≤ start → start + 4 ≤ end_ < 2 ^ 32 →
  match ac97_play fuel ring p0 p1 s with
  | Ok (_, s') => ∃ es, stream start end_ es s' ∧ es ≠ [] ∧ (length es ≤ 32)%nat ∧
      (length es = 32%nat ∨ end_ - (start + bytes es) < 4) ∧ nabmbar s' = nabmbar s ∧
      bdl_entries_filled s' = Z.of_nat (length es)
  | OutOfFuel => ¬ resets fuel s
  | _ => False
  end.
Proof.
  intros -> -> Hl H0 He. unfold ac97_play. rewrite (proj2 (Z.leb_gt _ _)) by lia.
  set (start := virt_to_phys p0) in *. set (end_ := virt_to_phys p1) in *.
  pose proof (setup_ok fuel start end_ s Hl ltac:(lia) ltac:(lia)) as Hs. unfold mbind, M_bind.
  destruct (ac97_setup_bdl fuel start end_ s) as [[[] s1]| | | |]; try done.
  destruct Hs as (es & b & -> & Hc & Hlen & Hend). edestruct start_ok as [b' ->].
  assert (es ≠ []) as Hne by (intros ->; cbn in Hend; lia).
  assert (length es ≠ 0%nat) by (by destruct es). cbn [bdl_entries_filled set_audio].
  rewrite (proj2 (Z.eqb_neq _ _)) by lia. exists es. split_and!; try done.
  split; cbn [ring_buffer set_last set_bus set_audio set_ring audio_cur_pos audio_data_end last_valid_index]; try done.
  - lia.
  - by rewrite length_inserts.
  - intros j Hj. rewrite Nat.mod_small by lia. rewrite list_lookup_inserts by lia. by rewrite Nat.sub_0_r.
  - rewrite Z.mod_small; lia.
Qed.

(** ** Properties *)

(** Interrupts of the controller.  The list gives the bus as each of them finds it: what other
    drivers have read and written since the one before. *)
Fixpoint irqs (bs : list iobus) : M ac97 unit :=
  match bs with [] => mret tt | b :: bs => modify (set_bus b) ;; ac97_irq_handler ;; irqs bs end.

(** A completion interrupt: the status says that a buffer has been completed, and no error. *)
Definition completed (nabm : Z) (b : iobus) : Prop :=
  let v := hw_in (io_n b) (io_out b) 2 (status_port nabm) in
  Z.testbit v 3 = true ∧ Z.testbit v 4 = false.

Lemma stream_bus start end_ q s b : stream start end_ q s → stream start end_ q (set_bus b s).
Proof. intros H. by apply (stream_same _ _ _ s). Qed.

(** One completion interrupt hands out the next chunk, if there is one. *)
Lemma handler_playing start end_ q s b :
  stream start end_ q s → q ≠ [] → completed (nabmbar s) b →
  wp ac97_irq_handler (λ _ s', nabmbar s' = nabmbar s ∧
    stream start end_ (if start + bytes q <? end_ then q ++ [next_entry start end_ q] else q) s') (set_bus b s).
Proof.
  intros HS Hq [H3 H4]. pose proof (handler_ok start end_ q _ (stream_bus _ _ _ _ b HS) Hq) as H. unfold wp.
  unfold status in H. cbn [a_bus set_bus nabmbar] in H. fold (status_port (nabmbar s)) in H.
  change SR_FIFO_ERROR with (2 ^ 4) in H. change SR_BUFFER_COMPLETION_INTERRUPT_STATUS with (2 ^ 3) in H.
  rewrite !wrap_bit, H3, H4 in H by lia. destruct (ac97_irq_handler _) as [[[] s']| | | |]; try done. naive_solver.
Qed.

Lemma irqs_playing bs start end_ : ∀ k s,
  stream start end_ (clip k start end_) s → clip k start end_ ≠ [] → Forall (completed (nabmbar s)) bs →
  wp (irqs bs) (λ _ s', stream start end_ (clip (k + length bs) start end_) s') s.
Proof.
  induction bs as [|b bs IH]; intros k s HS Hne Hp; [by apply wp_ret; rewrite Nat.add_0_r|]. cbn [irqs length].
  apply Forall_cons in Hp as [Hb Hp]. apply wp_bind, wp_modify.
  eapply wp_bind_mono; [by apply (handler_playing start end_ (clip k start end_))|]. intros [] s1 [E HS1].
  replace (k + S (length bs))%nat with (S k + length bs)%nat by lia. apply IH; [| |by rewrite E].
  - rewrite clip_S. unfold next_entry in HS1. destruct (_ <? end_); [done|by rewrite app_nil_r].
  - rewrite clip_S. by destruct (clip k start end_).
Qed.


(** The memory an entry gives to the controller is inside the clip, and its number of samples is even
    and fits. *)
Definition in_clip (start end_ : Z) (e : bdl_entry) : Prop :=
  start ≤ buffer_addr_phys e ∧ buffer_addr_phys e + 2 * num_samples e ≤ end_ ∧
  0 ≤ num_samples e ≤ AC97_MAX_SAMPLES_PER_ENTRY ∧ num_samples e mod 2 = 0.

(** [k] entries have been handed to the controller: the last is the one the index register names, and
    all slots written so far, which are all 32 from the 32nd entry on, hold memory of the clip. *)
Definition handed (start end_ k : Z) (s : ac97) : Prop :=
  1 ≤ k ∧ last_valid_index s = (k - 1) mod 32 ∧ length (ring_buffer s) = 32%nat ∧
  ∀ j e, Z.of_nat j < k → ring_buffer s !! j = Some e → in_clip start end_ e.

Lemma stream_handed start end_ q s :
  stream start end_ q s → q ≠ [] → handed start end_ (Z.of_nat (length q)) s.
Proof.
  intros HS Hq. assert (length q ≠ 0%nat) by (by destruct q).
  split; [lia|]. split; [apply HS|]. split; [apply HS|]. intros j e Hj He.
  pose proof (lookup_lt_Some _ _ _ He) as Hj32. rewrite (st_len _ _ _ _ HS) in Hj32.
  set (i := (j + 32 * ((length q - 1 - j) / 32))%nat).
  assert (j + 32 * ((length q - 1 - j) / 32) < length q ≤ j + 32 * ((length q - 1 - j) / 32) + 32)%nat as Hi.
  { pose proof (Nat.div_mod_eq (length q - 1 - j) 32). pose proof (Nat.mod_upper_bound (length q - 1 - j) 32). lia. }
  assert (i mod 32 = j)%nat as Hm.
  { unfold i. rewrite Nat.mul_comm, Nat.Div0.mod_add. by apply Nat.mod_small. }
  rewrite <- Hm, (st_slots _ _ _ _ HS) in He by exact Hi.
  apply (contig_in _ _ q e (st_contig _ _ _ _ HS)). by eapply list_elem_of_lookup_2.
Qed.

(** C32: whatever the controller answers and however often it interrupts, the driver gives it no memory
    outside the clip: after the start [k] entries have been handed over, one or more, and with each
    interrupt at most one more; the last valid index is that of the last one, and every slot of the ring
    that has been handed over, all 32 of them once the ring has been filled, holds an address and an even
    number of samples inside the clip.  The driver never stores outside the ring.  It stops the machine
    only if the controller reports a FIFO error, and waits for ever only if the controller does not stop
    its DMA engine after a reset. *)
Theorem ac97_dma_in_bounds fuel ring p0 p1 bs s start end_ :
  start = virt_to_phys p0 → end_ = virt_to_phys p1 → length (ring_buffer s) = 32%nat →
  0 ≤ start → start + 4 ≤ end_ < 2 ^ 32 →
  match (ac97_play fuel ring p0 p1 ;; irqs bs) s with
  | Ok (_, s') => ∃ k, bdl_entries_filled s' ≤ k ≤ bdl_entries_filled s' + Z.of_nat (length bs) ∧
      handed start end_ k s'
  | Halt => ∃ b, b ∈ bs ∧ Z.testbit (hw_in (io_n b) (io_out b) 2 (status_port (nabmbar s))) 4 = true
  | OutOfFuel => ¬ resets fuel s
  | _ => False
  end.
Proof.
  intros Es Ee Hl Hs He. pose proof (play_ok fuel ring p0 p1 s start end_ Es Ee Hl Hs He) as H0.
  unfold mbind, M_bind. destruct (ac97_play fuel ring p0 p1 s) as [[[] s1]| | | |]; try done.
  destruct H0 as (es & HS & Hne & _ & _ & <- & Hfill). clear Hl.
  assert (match irqs bs s1 with
    | Ok (_, s') => ∃ q, stream start end_ q s' ∧ q ≠ [] ∧ bdl_entries_filled s' = bdl_entries_filled s1 ∧
        (length es ≤ length q ≤ length es + length bs)%nat
    | Halt => ∃ b, b ∈ bs ∧ Z.testbit (hw_in (io_n b) (io_out b) 2 (status_port (nabmbar s1))) 4 = true
    | _ => False
    end) as H1.
  2: { destruct (irqs bs s1) as [[[] s2]| | | |]; try done. destruct H1 as (q & HS2 & Hq & Ef & Hlen).
       exists (Z.of_nat (length q)). rewrite Ef, Hfill. split; [lia|]. by apply stream_handed. }
  clear Hfill. revert es s1 HS Hne. induction bs as [|b bs IH]; intros es s1 HS Hne.
  { exists es. split_and!; [done..|cbn; lia|cbn; lia]. }
  cbn [irqs]. unfold mbind, M_bind, modify. pose proof (handler_ok start end_ es _ (stream_bus _ _ _ _ b HS) Hne) as H1.
  destruct (ac97_irq_handler (set_bus b s1)) as [[[] s2]| | | |] eqn:Eh; try done.
  - destruct H1 as (_ & En & Ef2 & HS2). cbn [nabmbar bdl_entries_filled set_bus] in En, Ef2. set (q2 := if _ && _ then _ else es) in HS2.
    assert (q2 ≠ [] ∧ (length es ≤ length q2 ≤ S (length es))%nat) as [Hq2 Hl2].
    { unfold q2. destruct (_ && _); [split; [by destruct es|rewrite length_app; cbn; lia]|split; [done|lia]]. }
    specialize (IH q2 s2 HS2 Hq2). rewrite En in IH. destruct (irqs bs s2) as [[[] s3]| | | |]; try done.
    + destruct IH as (q & HS3 & Hq & Ef & Hlen). exists q. split_and!; [done|done| |cbn [length]; lia|cbn [length]; lia].
      congruence.
    + destruct IH as (b' & Hin & Hb). exists b'. split; [by right|done].
  - exists b. split; [by left|]. unfold status in H1. cbn [a_bus set_bus nabmbar] in H1. fold (status_port (nabmbar s1)) in H1.
    change SR_FIFO_ERROR with (2 ^ 4) in H1. by rewrite wrap_bit in H1 by lia.
Qed.

(** A clip whose length is not a multiple of four never ends: once only its last one to three
    bytes are left, every further completion interrupt hands the controller one more empty entry and
    moves the last valid index on. *)
Theorem ac97_tail_never_ends bs start end_ q s :
  stream start end_ q s → q ≠ [] → Forall (completed (nabmbar s)) bs → 0 < end_ - (start + bytes q) < 4 →
  wp (irqs bs) (λ _ s', stream start end_ (q ++ replicate (length bs) (BdlEntry (start + bytes q) 0 AC97_BDL_IOC)) s') s.
Proof.
  revert q s. induction bs as [|b bs IH]; intros q s HS Hne Hp Hr.
  { apply wp_ret. by rewrite app_nil_r. }
  apply Forall_cons in Hp as [Hb Hp]. cbn [irqs length]. apply wp_bind, wp_modify.
  eapply wp_bind_mono; [by apply (handler_playing start end_ q)|]. intros [] s1 [E HS1].
  rewrite (proj2 (Z.ltb_lt _ _)) in HS1 by lia.
  assert (next_entry start end_ q = BdlEntry (start + bytes q) 0 AC97_BDL_IOC) as En.
  { unfold next_entry, chunk. rewrite (proj2 (Z.leb_gt _ _)), Z.div_small by lia. done. }
  rewrite En in HS1. set (e := BdlEntry (start + bytes q) 0 AC97_BDL_IOC) in *.
  assert (bytes (q ++ [e]) = bytes q) as Eb by (rewrite bytes_app, bytes_cons; cbn; lia).
  eapply wp_mono; [apply (IH (q ++ [e])); [done|by destruct q|by rewrite E|by rewrite Eb]|].
  intros [] s' H. rewrite Eb in H. cbn [replicate]. by rewrite <- app_assoc in H.
Qed.
End ring.

(** ** A concrete controller *)

Module ExAc97.
(** After a write of the reset bit the status is that of a stopped engine, from the third request on;
    otherwise the engine is running and has completed a buffer. *)
Definition answer (n : nat) (log : list (Z * Z * Z)) (width port : Z) : Z :=
  if bool_decide (last log = Some (1, 0xD01B, 2)) then (if (2 <=? n)%nat then 1 else 0) else 8.
#[export] Instance hw : Hardware := {| hw_in := answer; hw_tick := λ n, Z.of_nat n |}.
#[export] Existing Instance ex_boot.
Definition card : ac97 := Ac97 (IoBus 0 []) (Apic 0 ∅ ∅ 0) (Some 43)
  (replicate 32 (BdlEntry 0 0 0)) 0 0 0 0 0xC000 0xD000.
(** The bus as an interrupt finds it. *)
Definition later (n : nat) : iobus := IoBus n [(1, 0xD015, 0)].
Lemma stops : resets 2 card.
Proof. exists 2%nat. split; [lia|]. vm_compute. reflexivity. Qed.
Lemma completions : Forall (completed (nabmbar card)) [later 10; later 20; later 30; later 40].
Proof. repeat constructor. Qed.
End ExAc97.
Import ExAc97.


Lemma ac97_dma_in_bounds_witness :
  match (ac97_play 2 0xffff800000200000 0xffff800000100000 0xffff800000111FE3 ;; irqs [later 10; later 20]) card with
  | Ok (_, s') => ∃ k, bdl_entries_filled s' ≤ k ≤ bdl_entries_filled s' + 2 ∧ handed 0x100000 0x111FE3 k s'
  | Halt => ∃ b, b ∈ [later 10; later 20] ∧ Z.testbit (hw_in (io_n b) (io_out b) 2 (status_port 0xD000)) 4 = true
  | OutOfFuel => ¬ resets 2 card
  | _ => False
  end.
Proof.
  apply (ac97_dma_in_bounds 2 0xffff800000200000 0xffff800000100000 0xffff800000111FE3 [later 10; later 20] card 0x100000 0x111FE3).
  - by vm_compute.
  - by vm_compute.
  - done.
  - lia.
  - lia.
Defined.

(** Two bytes are left behind one chunk. *)
Definition ex_tail : ac97 := Ac97 (IoBus 0 []) (Apic 0 ∅ ∅ 0) (Some 43)
  (<[0%nat := BdlEntry 0x1000 0xFFE AC97_BDL_IOC]> (replicate 32 (BdlEntry 0 0 0))) 0 1 0x2FFC 0x2FFE 0xC000 0xD000.

Lemma ac97_tail_never_ends_witness :
  wp (irqs [later 10; later 20; later 30]) (λ _ s', audio_cur_pos s' = 0x2FFC ∧ last_valid_index s' = 3) ex_tail.
Proof.
  eapply wp_mono; [apply (ac97_tail_never_ends [later 10; later 20; later 30] 0x1000 0x2FFE [BdlEntry 0x1000 0xFFE AC97_BDL_IOC])|].
  - split; try done.
    intros [|j] Hj; [done|cbn in Hj; lia].
  - done.
  - repeat constructor.
  - by vm_compute.
  - intros [] s' HS. split; [exact (st_cur _ _ _ _ HS)|exact (st_last _ _ _ _ HS)].
Defined.
