(* ===== verification/Uacpi.v ===== *)
(** * What the kernel provides to uACPI ([arch/x86_64/uacpi/kernel_api.c])

    uACPI itself is a library outside the sources; modelled here are the functions it calls:
    memory, I/O ports of every width, time, and the objects a single-threaded kernel does not need. *)

From S2P Require Import Prelude Mm Paging64 PagingWalk PagingSpec PagingMap PagingProps PortIo.

(** The status codes the functions return. *)
Inductive uacpi_status := UACPI_STATUS_OK | UACPI_STATUS_UNIMPLEMENTED.

#[export] Instance uacpi_status_eq_dec : EqDecision uacpi_status.
Proof. solve_decision. Defined.

(** ** Memory *)

Section memory.
Context `{BI : BootInfo}.

(** [len] is passed as 32 bits. *)
(* src/arch/x86_64/uacpi/kernel_api.c 62-72 uacpi_kernel_map *)
Definition uacpi_kernel_map (addr len : Z) : M machine Z :=
  cr3 ← read_cr3;
  map_physical_range addr (u32 len) true true cr3 ;;
  mret (u64 (addr + hhdm_offset)).

(* src/arch/x86_64/uacpi/kernel_api.c 82-87 uacpi_kernel_unmap *)
Definition uacpi_kernel_unmap (addr len : Z) : M machine unit := mret tt.

(* src/arch/x86_64/uacpi/kernel_api.c 127-129 uacpi_kernel_alloc *)
Definition uacpi_kernel_alloc (size : Z) : M machine Z := kmalloc (u32 size).

(* src/arch/x86_64/uacpi/kernel_api.c 141-144 uacpi_kernel_free *)
Definition uacpi_kernel_free (mem : Z) : M machine unit := mret tt.
End memory.

(** ** I/O ports *)

Section io.
Context `{HW : Hardware}.

(** The handle of a range of ports is its first port. *)
(* src/arch/x86_64/uacpi/kernel_api.c 257-264 uacpi_kernel_io_map *)
Definition uacpi_kernel_io_map (base len : Z) : uacpi_status * Z := (UACPI_STATUS_OK, u64 base).

(* src/arch/x86_64/uacpi/kernel_api.c 266-268 uacpi_kernel_io_unmap *)
Definition uacpi_kernel_io_unmap (handle : Z) : M iobus unit := mret tt.

Definition io_port (handle offset : Z) : Z := u16 (u64 (u64 handle + offset)).

(* src/arch/x86_64/uacpi/kernel_api.c 281-286 uacpi_kernel_io_read8 *)
Definition uacpi_kernel_io_read8 (handle offset : Z) : M iobus (uacpi_status * Z) :=
  v ← inb (io_port handle offset); mret (UACPI_STATUS_OK, v).
(* src/arch/x86_64/uacpi/kernel_api.c 288-293 uacpi_kernel_io_read16 *)
Definition uacpi_kernel_io_read16 (handle offset : Z) : M iobus (uacpi_status * Z) :=
  v ← inw (io_port handle offset); mret (UACPI_STATUS_OK, v).
(* src/arch/x86_64/uacpi/kernel_api.c 295-300 uacpi_kernel_io_read32 *)
Definition uacpi_kernel_io_read32 (handle offset : Z) : M iobus (uacpi_status * Z) :=
  v ← inl (io_port handle offset); mret (UACPI_STATUS_OK, v).
(* src/arch/x86_64/uacpi/kernel_api.c 302-307 uacpi_kernel_io_write8 *)
Definition uacpi_kernel_io_write8 (handle offset value : Z) : M iobus uacpi_status :=
  outb (io_port handle offset) value ;; mret UACPI_STATUS_OK.
(* src/arch/x86_64/uacpi/kernel_api.c 309-314 uacpi_kernel_io_write16 *)
Definition uacpi_kernel_io_write16 (handle offset value : Z) : M iobus uacpi_status :=
  outw (io_port handle offset) value ;; mret UACPI_STATUS_OK.
(* src/arch/x86_64/uacpi/kernel_api.c 316-321 uacpi_kernel_io_write32 *)
Definition uacpi_kernel_io_write32 (handle offset value : Z) : M iobus uacpi_status :=
  outl (io_port handle offset) value ;; mret UACPI_STATUS_OK.
End io.

(** ** Time *)

(** The processor: the value of the time stamp counter at each reading, the highest [cpuid] leaf,
    and EAX, EBX and ECX of leaf 0x15. *)
Class Cpu := { tsc : nat → Z; cpuid_max : Z; cpuid_15 : Z * Z * Z }.

(** The number of readings, and the static variables of
    [uacpi_kernel_get_nanoseconds_since_boot]. *)
Record timing := Timing { tm_reads : nat; boot_tsc : Z; tsc_frequency : Z }.

Section time.
Context `{CPU : Cpu}.

(* src/arch/x86_64/uacpi/kernel_api.c 335-339 rdtsc *)
Definition rdtsc : M timing Z := λ s,
  Ok (u64 (tsc (tm_reads s)), Timing (S (tm_reads s)) (boot_tsc s) (tsc_frequency s)).

(* src/arch/x86_64/uacpi/kernel_api.c 345-369 get_tsc_frequency_cpuid *)
Definition get_tsc_frequency_cpuid : Z :=
  if cpuid_max <? 0x15 then 0 else
  let '(eax, ebx, ecx) := cpuid_15 in
  if (eax =? 0) || (ebx =? 0) then 0
  else if negb (ecx =? 0) then u64 (ecx * ebx) / eax
  else 0.

(* src/arch/x86_64/uacpi/kernel_api.c 375-401 uacpi_kernel_get_nanoseconds_since_boot *)
Definition uacpi_kernel_get_nanoseconds_since_boot : M timing Z :=
  boot ← gets boot_tsc;
  when (boot =? 0) (
    boot ← rdtsc;
    modify (λ s, Timing (tm_reads s) boot (tsc_frequency s)) ;;
    let freq := get_tsc_frequency_cpuid in
    modify (λ s, Timing (tm_reads s) (boot_tsc s) (if freq =? 0 then 2000000000 else freq))) ;;
  current_tsc ← rdtsc;
  boot ← gets boot_tsc;
  freq ← gets tsc_frequency;
  let elapsed_cycles := u64 (current_tsc - boot) in
  mret (u64 (elapsed_cycles * 1000000000) / freq).

(** The waiting loops look at the time at most [fuel] more times. *)
(* src/arch/x86_64/uacpi/kernel_api.c 411-414 uacpi_kernel_stall *)
Fixpoint wait_until (fuel : nat) (target : Z) : M timing unit :=
  now ← uacpi_kernel_get_nanoseconds_since_boot;
  if now <? target then match fuel with O => out_of_fuel | S fuel => wait_until fuel target end
  else mret tt.

(* src/arch/x86_64/uacpi/kernel_api.c 406-415 uacpi_kernel_stall *)
Definition uacpi_kernel_stall (fuel : nat) (usec : Z) : M timing unit :=
  start ← uacpi_kernel_get_nanoseconds_since_boot;
  wait_until fuel (u64 (start + u64 (usec * 1000))).

(* src/arch/x86_64/uacpi/kernel_api.c 420-428 uacpi_kernel_sleep *)
Definition uacpi_kernel_sleep (fuel : nat) (msec : Z) : M timing unit :=
  start ← uacpi_kernel_get_nanoseconds_since_boot;
  wait_until fuel (u64 (start + u64 (msec * 1000000))).
End time.

(** ** Objects a single thread does not need *)

(* src/arch/x86_64/uacpi/kernel_api.c 182-187 uacpi_kernel_pci_device_open *)
Definition uacpi_kernel_pci_device_open (addr : Z) : uacpi_status := UACPI_STATUS_UNIMPLEMENTED.
(* src/arch/x86_64/uacpi/kernel_api.c 196-202 uacpi_kernel_pci_read8 *)
Definition uacpi_kernel_pci_read8 (device offset : Z) : uacpi_status := UACPI_STATUS_UNIMPLEMENTED.
(* src/arch/x86_64/uacpi/kernel_api.c 204-210 uacpi_kernel_pci_read16 *)
Definition uacpi_kernel_pci_read16 (device offset : Z) : uacpi_status := UACPI_STATUS_UNIMPLEMENTED.
(* src/arch/x86_64/uacpi/kernel_api.c 212-218 uacpi_kernel_pci_read32 *)
Definition uacpi_kernel_pci_read32 (device offset : Z) : uacpi_status := UACPI_STATUS_UNIMPLEMENTED.
(* src/arch/x86_64/uacpi/kernel_api.c 220-226 uacpi_kernel_pci_write8 *)
Definition uacpi_kernel_pci_write8 (device offset value : Z) : uacpi_status := UACPI_STATUS_UNIMPLEMENTED.
(* src/arch/x86_64/uacpi/kernel_api.c 228-234 uacpi_kernel_pci_write16 *)
Definition uacpi_kernel_pci_write16 (device offset value : Z) : uacpi_status := UACPI_STATUS_UNIMPLEMENTED.
(* src/arch/x86_64/uacpi/kernel_api.c 236-242 uacpi_kernel_pci_write32 *)
Definition uacpi_kernel_pci_write32 (device offset value : Z) : uacpi_status := UACPI_STATUS_UNIMPLEMENTED.

(** Every mutex, event and lock is the same handle; acquiring and waiting succeed at once. *)
(* src/arch/x86_64/uacpi/kernel_api.c 439-442 uacpi_kernel_create_mutex *)
Definition uacpi_kernel_create_mutex : Z := 1.
(* src/arch/x86_64/uacpi/kernel_api.c 464-469 uacpi_kernel_acquire_mutex *)
Definition uacpi_kernel_acquire_mutex (handle timeout : Z) : uacpi_status := UACPI_STATUS_OK.
(* src/arch/x86_64/uacpi/kernel_api.c 478-481 uacpi_kernel_create_event *)
Definition uacpi_kernel_create_event : Z := 1.
(* src/arch/x86_64/uacpi/kernel_api.c 495-499 uacpi_kernel_wait_for_event *)
Definition uacpi_kernel_wait_for_event (handle timeout : Z) : bool := true.
(* src/arch/x86_64/uacpi/kernel_api.c 522-525 uacpi_kernel_get_thread_id *)
Definition uacpi_kernel_get_thread_id : Z := 1.
(* src/arch/x86_64/uacpi/kernel_api.c 538-540 uacpi_kernel_create_spinlock *)
Definition uacpi_kernel_create_spinlock : Z := 1.

(** Locking leaves the interrupt flag of the machine as it is. *)
(* src/arch/x86_64/uacpi/kernel_api.c 555-558 uacpi_kernel_lock_spinlock *)
Definition uacpi_kernel_lock_spinlock (handle : Z) : M machine Z := mret 0.
(* src/arch/x86_64/uacpi/kernel_api.c 560-563 uacpi_kernel_unlock_spinlock *)
Definition uacpi_kernel_unlock_spinlock (handle flags : Z) : M machine unit := mret tt.

(** Handlers for interrupts are not installed; deferred work runs at once. *)
(* src/arch/x86_64/uacpi/kernel_api.c 578-587 uacpi_kernel_install_interrupt_handler *)
Definition uacpi_kernel_install_interrupt_handler (irq handler ctx : Z) : uacpi_status * Z := (UACPI_STATUS_OK, 1).
(* src/arch/x86_64/uacpi/kernel_api.c 589-595 uacpi_kernel_uninstall_interrupt_handler *)
Definition uacpi_kernel_uninstall_interrupt_handler (handler irq_handle : Z) : uacpi_status := UACPI_STATUS_OK.
(* src/arch/x86_64/uacpi/kernel_api.c 614-623 uacpi_kernel_schedule_work *)
Definition uacpi_kernel_schedule_work {S C} (handler : option (C → M S unit)) (ctx : C) : M S uacpi_status :=
  match handler with Some h => h ctx | None => mret tt end ;;
  mret UACPI_STATUS_OK.
(* src/arch/x86_64/uacpi/kernel_api.c 632-635 uacpi_kernel_wait_for_work_completion *)
Definition uacpi_kernel_wait_for_work_completion : uacpi_status := UACPI_STATUS_OK.

(** * The theorems about what the kernel provides to uACPI *)

(** ** Time *)

Section time.
Context `{CPU : Cpu}.

(** The frequency assumed, and the time at a reading of the counter. *)
Definition frequency : Z := if get_tsc_frequency_cpuid =? 0 then 2000000000 else get_tsc_frequency_cpuid.
Definition cycles (s : timing) (n : nat) : Z := tsc n - boot_tsc s.
Definition nanos (s : timing) (n : nat) : Z := cycles s n * 1000000000 / frequency.

(** The counter was read before, and has not gone back since. *)
Record started (s : timing) : Prop := {
  sd_boot : 0 < boot_tsc s;
  sd_freq : tsc_frequency s = frequency;
  sd_tsc n : (tm_reads s ≤ n)%nat → boot_tsc s ≤ tsc n < 2 ^ 64;
}.

(** The time as the code computes it, which agrees with it as long as nothing overflows. *)
Definition reading (s : timing) (n : nat) : Z := u64 (cycles s n * 1000000000) / frequency.

Definition read_to (s : timing) (n : nat) : timing := Timing n (boot_tsc s) (tsc_frequency s).

Lemma started_read_to s n : started s → (tm_reads s ≤ n)%nat → started (read_to s n).
Proof using Type. intros [H1 H2 H3] Hn. split; [done..|]. intros m Hm. apply H3. cbn in *. lia. Qed.

Lemma time_eq s :
  started s → uacpi_kernel_get_nanoseconds_since_boot s = Ok (reading s (tm_reads s), read_to s (S (tm_reads s))).
Proof using Type.
  intros [H1 H2 H3]. unfold uacpi_kernel_get_nanoseconds_since_boot, mbind, M_bind, gets, rdtsc, when.
  rewrite (proj2 (Z.eqb_neq _ _)) by lia. cbn. pose proof (H3 (tm_reads s) ltac:(lia)).
  unfold reading, cycles, read_to.
  rewrite H2, (wrap_small 64 (tsc (tm_reads s))), (wrap_small 64 (tsc (tm_reads s) - boot_tsc s)) by lia. done.
Qed.

(** The first call reads the counter twice. *)
Lemma time_start n f :
  (∀ m, (n ≤ m)%nat → tsc n ≤ tsc m < 2 ^ 64) → 0 < tsc n →
  ∃ t s, uacpi_kernel_get_nanoseconds_since_boot (Timing n 0 f) = Ok (t, s) ∧ started s ∧ boot_tsc s = tsc n.
Proof using Type.
  intros Hm H0. pose proof (Hm n ltac:(lia)). unfold uacpi_kernel_get_nanoseconds_since_boot, mbind, M_bind, gets, rdtsc, when.
  cbn. rewrite (wrap_small 64 (tsc n)) by lia. do 2 eexists. split; [reflexivity|]. split; [|done]. split; cbn; [lia|done|].
  intros m Hm'. apply Hm. lia.
Qed.

(** The loop ends at the first reading that has reached the target. *)
Lemma wait_until_ok target N fuel : ∀ s,
  started s → (tm_reads s ≤ N ≤ tm_reads s + fuel)%nat → target ≤ reading s N →
  wp (wait_until fuel target) (λ _ s', ∃ m, (tm_reads s ≤ m ≤ N)%nat ∧ s' = read_to s (S m) ∧ target ≤ reading s m) s.
Proof using Type.
  induction fuel as [|fuel IH]; intros s Hs HN Ht; cbn [wait_until]; apply wp_bind;
    (eapply wp_intro; [by apply time_eq|]); destruct (Z.ltb_spec (reading s (tm_reads s)) target) as [Hlt|Hge].
  2, 4: apply wp_ret; exists (tm_reads s); split_and!; [lia..|done|done].
  - replace N with (tm_reads s) in Ht by lia. lia.
  - destruct (decide (N = tm_reads s)) as [->|]; [lia|].
    eapply wp_mono; [apply IH; [by apply started_read_to; [|lia]|cbn; lia|done]|].
    intros [] s' (m & Hm & -> & Hr). cbn in Hm. exists m. split_and!; [lia..|done|done].
Qed.

Lemma wait_until_hangs target fuel : ∀ s,
  started s → (∀ m, reading s m < target) → wait_until fuel target s = OutOfFuel.
Proof using Type.
  induction fuel as [|fuel IH]; intros s Hs Ht; cbn [wait_until];
    rewrite (M_bind_Ok _ _ _ _ _ (time_eq s Hs)), (proj2 (Z.ltb_lt _ _) (Ht _)); [done|].
  apply IH; [by apply started_read_to; [|lia]|done].
Qed.

Lemma reading_nanos s n : started s → (tm_reads s ≤ n)%nat → cycles s n * 1000000000 < 2 ^ 64 → reading s n = nanos s n.
Proof using Type.
  intros Hs Hn Hw. pose proof (sd_tsc s Hs n Hn). unfold reading, nanos. rewrite wrap_small; [done|].
  unfold cycles in *. lia.
Qed.

(** As long as the cycles counted, times 10^9, fit 64 bits, [uacpi_kernel_sleep] returns, and
    not before the time asked for has passed. *)
Theorem uacpi_kernel_sleep_correct s msec fuel N :
  started s → 0 < frequency → 0 ≤ msec → (tm_reads s < N ≤ tm_reads s + fuel + 1)%nat →
  (∀ m, (tm_reads s ≤ m ≤ N)%nat → cycles s m * 1000000000 < 2 ^ 64) →
  nanos s (tm_reads s) + msec * 1000000 ≤ nanos s N →
  wp (uacpi_kernel_sleep fuel msec) (λ _ s', ∃ m, (tm_reads s < m ≤ N)%nat ∧ tm_reads s' = S m ∧
    nanos s (tm_reads s) + msec * 1000000 ≤ nanos s m) s.
Proof using Type.
  intros Hs Hf Hm HN Hw Ht. assert (∀ m, (tm_reads s ≤ m ≤ N)%nat → reading s m = nanos s m) as Hr.
  { intros m Hm'. apply reading_nanos; [done|lia|by apply Hw]. }
  unfold uacpi_kernel_sleep. apply wp_bind. eapply wp_intro; [by apply time_eq|]. rewrite Hr by lia.
  assert (0 ≤ nanos s (tm_reads s) ∧ nanos s N < 2 ^ 64) as [H0 HN64].
  { split.
    - apply Z.div_pos; [|done]. pose proof (sd_tsc s Hs (tm_reads s) ltac:(lia)). unfold cycles. lia.
    - apply Z.le_lt_trans with (cycles s N * 1000000000); [|apply Hw; lia]. apply Z.div_le_upper_bound; [done|].
      pose proof (sd_tsc s Hs N ltac:(lia)). unfold cycles. nia. }
  rewrite (wrap_small 64 (msec * 1000000)), wrap_small by lia.
  set (target := nanos s (tm_reads s) + msec * 1000000) in *.
  eapply wp_mono; [apply (wait_until_ok target N); [by apply started_read_to; [|lia]|cbn; lia|]|].
  - change (reading (read_to s (S (tm_reads s))) N) with (reading s N). rewrite Hr by lia. done.
  - intros [] s' (m & Hm' & -> & Hge). cbn in Hm'. exists m. split_and!; [lia..|done|].
    change (reading (read_to s (S (tm_reads s))) m) with (reading s m) in Hge. by rewrite Hr in Hge by lia.
Qed.

(** The clock cannot show more than [2^64 / frequency] nanoseconds before its product wraps, so
    that a sleep that would end later never returns, however far the counter gets: with the
    assumed 2 GHz, any sleep of 9.3 seconds. *)
Theorem uacpi_kernel_sleep_hangs s msec fuel :
  started s → 0 < frequency → (2 ^ 64 - 1) / frequency < msec * 1000000 →
  reading s (tm_reads s) + msec * 1000000 < 2 ^ 64 →
  uacpi_kernel_sleep fuel msec s = OutOfFuel.
Proof using Type.
  intros Hs Hf Hm Hfit. assert (∀ m, 0 ≤ reading s m ≤ (2 ^ 64 - 1) / frequency) as Hr.
  { intros m. unfold reading. pose proof (wrap_bound 64 (cycles s m * 1000000000) ltac:(lia)).
    split; [apply Z.div_pos; lia|]. apply Z.div_le_mono; lia. }
  pose proof (Hr (tm_reads s)). assert (0 ≤ msec * 1000000) by (pose proof (Hr 0%nat); lia).
  unfold uacpi_kernel_sleep. rewrite (M_bind_Ok _ _ _ _ _ (time_eq s Hs)).
  rewrite (wrap_small 64 (msec * 1000000)), wrap_small by lia.
  apply wait_until_hangs; [by apply started_read_to; [|lia]|]. intros m.
  change (reading (read_to s (S (tm_reads s))) m) with (reading s m). pose proof (Hr m). lia.
Qed.

(** The clock is not monotonic: at the cycle where the product wraps it goes back. *)
Theorem uacpi_clock_goes_back s :
  started s → 0 < frequency < 2 ^ 63 →
  cycles s (tm_reads s) = 18446744073 → cycles s (S (tm_reads s)) = 18446744074 →
  wp (t1 ← uacpi_kernel_get_nanoseconds_since_boot; t2 ← uacpi_kernel_get_nanoseconds_since_boot; mret (t1, t2))
    (λ '(t1, t2) _, t2 < t1) s.
Proof using Type.
  intros Hs Hf E1 E2. apply wp_bind. eapply wp_intro; [by apply time_eq|]. apply wp_bind.
  eapply wp_intro; [apply time_eq; by apply started_read_to; [|lia]|]. apply wp_ret. cbn [tm_reads read_to].
  change (reading (read_to s (S (tm_reads s))) (S (tm_reads s))) with (reading s (S (tm_reads s))).
  unfold reading. rewrite E1, E2. change (u64 (18446744073 * 1000000000)) with 18446744073000000000.
  change (u64 (18446744074 * 1000000000)) with 290448384. apply Z.div_lt_upper_bound; [lia|].
  pose proof (Z.div_mod 18446744073000000000 frequency ltac:(lia)).
  pose proof (Z.mod_pos_bound 18446744073000000000 frequency ltac:(lia)). lia.
Qed.
End time.

(** ** Memory *)

Section memory.
Context `{BI : BootInfo} `{BO : !BootOk BI}.

(** The direct map, where it is mapped at all in the range, maps each frame at its own address. *)
Definition direct (root a stop : Z) (s : machine) : Prop := ∀ b,
  b mod 0x1000 = 0 → a ≤ b < stop → translate (m_mem s) root (b + hhdm_offset) ≠ None →
  option_map fst (translate (m_mem s) root (b + hhdm_offset)) = Some b.

Lemma dm_page_of p : page_no (p + hhdm_offset) = page_no (page_of p + hhdm_offset).
Proof using BO.
  pose proof boot_hhdm_aligned as Ha. unfold page_no, page_of. f_equal.
  apply Z.mod_divide in Ha as [h ->]; [|lia]. rewrite !Z.div_add, Z.div_mul by lia. done.
Qed.

(** [uacpi_kernel_map] returns a pointer through which every byte of the range asked for is
    reached, whether its pages were mapped before or not. *)
Theorem uacpi_kernel_map_correct root hi s addr len n :
  pg_inv root hi s → root = PAGE_GET_ADDR (m_cr3 s) → 0 ≤ root < dm_size →
  0 ≤ addr → 0 ≤ len < 2 ^ 32 → page_up (addr + len) ≤ dm_size →
  n = (page_up (addr + len) - page_of addr) / 0x1000 → next_page s + 6 * n * 0x1000 ≤ hi →
  direct root (page_of addr) (page_up (addr + len)) s →
  wp (uacpi_kernel_map addr len) (λ p s', p = addr + hhdm_offset ∧
    ∀ k, 0 ≤ k < len → option_map fst (translate (m_mem s') root (p + k)) = Some (page_of (addr + k))) s.
Proof using BO.
  intros Hi Hroot Hr Ha Hl Hdm Hn Hroom Hd. unfold uacpi_kernel_map. apply wp_bind, wp_gets. apply wp_bind.
  rewrite (wrap_small 32 len) by lia. eapply wp_mono; [exact (map_physical_range_ok root hi s addr len true true (m_cr3 s) n Hi Hroot Hr Ha Hl Hdm Hn Hroom)|].
  intros [] s' [(_ & _ & Hkeep & _ & Hnew) _]. apply wp_ret. pose proof boot_hhdm. pose proof boot_image.
  pose proof (page_up_spec (addr + len)) as [Hup Hua]. unfold dm_size in *. rewrite wrap_small by lia. split; [done|].
  intros k Hk. set (b := page_of (addr + k)).
  assert (page_of addr ≤ b ∧ b ≤ addr + k ∧ b mod 0x1000 = 0) as (H1 & H2 & H3).
  { unfold b, page_of. split_and!; [|pose proof (Z.div_mod (addr + k) 0x1000 ltac:(lia)); pose proof (Z.mod_pos_bound (addr + k) 0x1000 ltac:(lia)); lia|by apply Z.mod_mul].
    apply Z.mul_le_mono_nonneg_r; [lia|]. apply Z.div_le_mono; lia. }
  assert (∀ m, translate m root (addr + hhdm_offset + k) = translate m root (b + hhdm_offset)) as Hsame.
  { intros m. apply translate_same_page. replace (addr + hhdm_offset + k) with (addr + k + hhdm_offset) by lia. apply dm_page_of. }
  rewrite Hsame. destruct (translate (m_mem s) root (b + hhdm_offset)) eqn:E.
  - rewrite Hkeep by (by rewrite E). apply Hd; [done|lia|by rewrite E].
  - apply Hnew; [done|lia|done].
Qed.

(** The size of an allocation is cut to 32 bits. *)
Lemma uacpi_kernel_alloc_cut size :
  0 ≤ size → uacpi_kernel_alloc size = kmalloc (size mod 2 ^ 32).
Proof using Type. done. Qed.
End memory.

(** ** Ports *)

Section io.
Context `{HW : Hardware}.

(** One access, of the width asked for, at the offset from the base that was mapped. *)
Lemma io_write16_ok base len offset v s :
  0 ≤ base → 0 ≤ offset → base + offset < 2 ^ 16 → 0 ≤ v < 2 ^ 16 →
  uacpi_kernel_io_write16 (uacpi_kernel_io_map base len).2 offset v s =
    Ok (UACPI_STATUS_OK, IoBus (io_n s) (io_out s ++ [(2, base + offset, v)])).
Proof.
  intros Hb Ho Hs Hv. cbn [uacpi_kernel_io_map snd]. unfold uacpi_kernel_io_write16.
  assert (io_port (u64 base) offset = base + offset) as ->.
  { unfold io_port. rewrite wrap_wrap, (wrap_small 64 base), (wrap_small 64 (base + offset)), wrap_small; lia. }
  unfold outw, out_, mbind, M_bind, modify. change (8 * 2) with 16. by rewrite !wrap_small by lia.
Qed.
End io.

(** ** Concrete runs *)

Module ExTime.
(** A processor without leaf 0x15 whose counter advances by [d] at each reading. *)
Definition cpu (a d : Z) : Cpu := {| tsc := λ n, Z.min (a + d * Z.of_nat n) (2 ^ 64 - 1); cpuid_max := 0x0D; cpuid_15 := (0, 0, 0) |}.
Definition state : timing := Timing 1 5 2000000000.

Lemma state_started d : 0 ≤ d → started (CPU := cpu 5 d) state.
Proof. intros Hd. split; [done..|]. intros n Hn. cbn in *. lia. Qed.
End ExTime.

(** A microsecond per reading: 3 ms take 3000 readings. *)
Lemma uacpi_kernel_sleep_correct_witness :
  wp (@uacpi_kernel_sleep (ExTime.cpu 5 2000) 3000 3) (λ _ s', ∃ m, (1 < m ≤ 3001)%nat ∧ tm_reads s' = S m ∧
    @nanos (ExTime.cpu 5 2000) ExTime.state 1 + 3000000 ≤ @nanos (ExTime.cpu 5 2000) ExTime.state m) ExTime.state.
Proof.
  apply (@uacpi_kernel_sleep_correct (ExTime.cpu 5 2000) ExTime.state 3 3000 3001).
  - by apply ExTime.state_started.
  - done.
  - lia.
  - cbn. lia.
  - intros m Hm. cbn in Hm. unfold cycles. cbn. lia.
  - by vm_compute.
Defined.

Lemma uacpi_kernel_sleep_hangs_witness :
  @uacpi_kernel_sleep (ExTime.cpu 5 2000) 10 9300 ExTime.state = OutOfFuel.
Proof.
  apply (@uacpi_kernel_sleep_hangs (ExTime.cpu 5 2000) ExTime.state 9300 10).
  - by apply ExTime.state_started.
  - done.
  - by vm_compute.
  - by vm_compute.
Defined.

Module ExBack.
Definition state : timing := Timing 1 5 2000000000.
#[export] Instance cpu : Cpu :=
  {| tsc := λ n, if (n =? 1)%nat then 18446744078 else 18446744079; cpuid_max := 0x0D; cpuid_15 := (0, 0, 0) |}.
End ExBack.

Lemma uacpi_clock_goes_back_witness :
  wp (t1 ← @uacpi_kernel_get_nanoseconds_since_boot ExBack.cpu; t2 ← @uacpi_kernel_get_nanoseconds_since_boot ExBack.cpu;
      mret (t1, t2)) (λ '(t1, t2) _, t2 < t1) ExBack.state.
Proof.
  apply (@uacpi_clock_goes_back ExBack.cpu ExBack.state).
  - split; [done..|]. intros n Hn. cbn. destruct (n =? 1)%nat; cbn; lia.
  - done.
  - done.
  - done.
Defined.

Lemma uacpi_kernel_map_correct_witness :
  wp (@uacpi_kernel_map ex_boot 0x40001234 0x100) (λ p s', p = 0xffff800040001234 ∧
    option_map fst (translate (m_mem s') 0x1000 0xffff800040001240) = Some 0x40001000) ex_machine.
Proof.
  eapply wp_mono.
  - apply (@uacpi_kernel_map_correct ex_boot ex_boot_ok 0x1000 0x200000 ex_machine 0x40001234 0x100 1);
      [exact ex_inv|done|by vm_compute|lia|lia|by vm_compute|by vm_compute|by vm_compute|].
    intros b Hb. change (page_of 0x40001234) with 0x40001000. change (page_up (0x40001234 + 0x100)) with 0x40002000.
    intros Hr. assert (b = 0x40001000) as ->; [|intros Hn; by exfalso; apply Hn; vm_compute].
    pose proof (Z.div_mod b 0x1000 ltac:(lia)). lia.
  - intros p s' [-> H]. split; [done|]. exact (H 0xC ltac:(lia)).
Defined.
