(* ===== verification/Interrupts.v ===== *)
(** * Interrupts ([arch/x86_64/interrupts/descriptor_tables.c], [isr.c], [asm/interrupt.S])

    The descriptor tables, the assembly stubs as lists of instructions, the dispatch in C, and how
    the processor delivers an interrupt through them. *)

From S2P Require Import Prelude Loops CString Format.

(** ** Descriptor tables *)

(* src/arch/x86_64/interrupts/descriptor_tables.h 8-15 gdt_entry *)
Record gdt_entry := GdtEntry {
  limit_low : Z; base_low : Z; base_middle : Z; access : Z; granularity : Z; base_high : Z;
}.

(* src/arch/x86_64/interrupts/descriptor_tables.h 24-32 idt_entry *)
Record idt_entry := IdtEntry {
  offset_low : Z; selector : Z; ist : Z; type_attr : Z; offset_mid : Z; offset_high : Z; zero : Z;
}.

(* src/arch/x86_64/interrupts/descriptor_tables.c 41-52 gdt_set_gate *)
Definition gdt_set_gate (num : nat) (base limit access gran : Z) (gdt : list gdt_entry) : list gdt_entry :=
  <[num := GdtEntry (limit .& 0xFFFF) (base .& 0xFFFF) ((base .>> 16) .& 0xFF) access
             (((limit .>> 16) .& 0x0F) .| (gran .& 0xF0)) ((base .>> 24) .& 0xFF)]> gdt.

(* src/arch/x86_64/interrupts/descriptor_tables.c 23-39 init_gdt *)
Definition init_gdt (gdt : list gdt_entry) : list gdt_entry :=
  let gdt := gdt_set_gate 0 0 0 0 0 gdt in
  let gdt := gdt_set_gate 1 0 0xFFFFF 0x9A 0xAF gdt in
  let gdt := gdt_set_gate 2 0 0xFFFFF 0x92 0xCF gdt in
  let gdt := gdt_set_gate 3 0 0xFFFFF 0xFA 0xAF gdt in
  gdt_set_gate 4 0 0xFFFFF 0xF2 0xCF gdt.

(* src/arch/x86_64/interrupts/descriptor_tables.c 64-74 idt_set_gate *)
Definition idt_set_gate (num : nat) (base sel flags : Z) (idt : list idt_entry) : list idt_entry :=
  <[num := IdtEntry (base .& 0xFFFF) sel 0 flags ((base .>> 16) .& 0xFFFF) ((base .>> 32) .& 0xFFFFFFFF) 0]> idt.

Definition idt_zero : idt_entry := IdtEntry 0 0 0 0 0 0 0.

(** The gates for the stubs, [n] from number [i] on. *)
Fixpoint set_gates (n i : nat) (stub : Z → Z) (idt : list idt_entry) : list idt_entry :=
  match n with
  | O => idt
  | S n => set_gates n (S i) stub (idt_set_gate i (stub (Z.of_nat i)) 0x08 0x8E idt)
  end.

(** [stub] gives the addresses in [isr_stub_table]. *)
(* src/arch/x86_64/interrupts/descriptor_tables.c 54-62 init_idt *)
Definition init_idt (stub : Z → Z) : list idt_entry := set_gates 48 0 stub (replicate 256 idt_zero).

(** ** The processor *)

Inductive reg :=
  | RAX | RBX | RCX | RDX | RBP | RSI | RDI | R8 | R9 | R10 | R11 | R12 | R13 | R14 | R15
  | RSP | RIP | RFLAGS | CS | SS | DS | ES | FS | GS.

#[export] Instance reg_eq_dec : EqDecision reg.
Proof. solve_decision. Defined.

(** Registers, and memory by 64-bit words. *)
Record icpu := ICpu { ir : reg → Z; im : gmap Z Z }.

Definition set_reg (r : reg) (v : Z) (f : reg → Z) : reg → Z := λ r', if decide (r' = r) then v else f r'.
Definition word (m : gmap Z Z) (a : Z) : Z := default 0 (m !! a).

Inductive instr :=
  | Push (r : reg) | PushImm (v : Z) | Pop (r : reg)
  | Mov (d s : reg) | MovW (d s : reg) | MovImmW (d : reg) (v : Z) | Xor (r : reg)
  | AddRsp (n : Z) | Cli | Iretq.

Definition push_word (v : Z) (c : icpu) : icpu :=
  let sp := u64 (ir c RSP - 8) in ICpu (set_reg RSP sp (ir c)) (<[sp := v]> (im c)).

(** A 16-bit move replaces the low half-word; segment registers have nothing else. *)
Definition seg (r : reg) : bool :=
  match r with CS | SS | DS | ES | FS | GS => true | _ => false end.
Definition merge16 (d : reg) (old v : Z) : Z := if seg d then u16 v else (old / 2 ^ 16) * 2 ^ 16 + u16 v.

Definition step (i : instr) (c : icpu) : icpu :=
  match i with
  | Push r => push_word (ir c r) c
  | PushImm v => push_word v c
  | Pop r => ICpu (set_reg r (word (im c) (ir c RSP)) (set_reg RSP (u64 (ir c RSP + 8)) (ir c))) (im c)
  | Mov d s => ICpu (set_reg d (ir c s) (ir c)) (im c)
  | MovW d s => ICpu (set_reg d (merge16 d (ir c d) (ir c s)) (ir c)) (im c)
  | MovImmW d v => ICpu (set_reg d (merge16 d (ir c d) v) (ir c)) (im c)
  | Xor r => ICpu (set_reg r 0 (ir c)) (im c)
  | AddRsp n => ICpu (set_reg RSP (u64 (ir c RSP + n)) (ir c)) (im c)
  | Cli => ICpu (set_reg RFLAGS (Z.ldiff (ir c RFLAGS) (1 .<< 9)) (ir c)) (im c)
  | Iretq =>
      let sp := ir c RSP in
      ICpu (set_reg RIP (word (im c) sp) (set_reg CS (word (im c) (u64 (sp + 8)))
             (set_reg RFLAGS (word (im c) (u64 (sp + 16))) (set_reg RSP (word (im c) (u64 (sp + 24)))
               (set_reg SS (word (im c) (u64 (sp + 32))) (ir c)))))) (im c)
  end.

Definition exec (p : list instr) (c : icpu) : icpu := foldl (λ c i, step i c) c p.

(** ** The stubs *)

(** Exceptions for which the processor pushes an error code. *)
Definition pushes_error (n : Z) : bool :=
  bool_decide (n ∈ [8; 10; 11; 12; 13; 14; 17; 21; 29; 30]).

(** The stubs that expect one. *)
(* src/arch/x86_64/asm/interrupt.S 98-148 isr0 *)
Definition is_err_stub (n : Z) : bool :=
  bool_decide (n ∈ [8; 10; 11; 12; 13; 14; 17; 30]).

(* src/arch/x86_64/asm/interrupt.S 75-96 isr_no_err_stub *)
Definition isr_stub (n : Z) : list instr :=
  if is_err_stub n then [Cli; PushImm n] else [Cli; PushImm 0; PushImm n].

(* src/arch/x86_64/asm/interrupt.S 11-42 isr_common_stub *)
Definition isr_common_entry : list instr :=
  [Push RAX; Push RBX; Push RCX; Push RDX; Push RBP; Push RSI; Push RDI;
   Push R8; Push R9; Push R10; Push R11; Push R12; Push R13; Push R14; Push R15;
   Xor RAX; MovW RAX DS; Push RAX;
   MovImmW RAX 0x10; MovW DS RAX; MovW ES RAX; MovW FS RAX; MovW GS RAX;
   Mov RDI RSP].

(* src/arch/x86_64/asm/interrupt.S 45-72 isr_common_stub *)
Definition isr_common_exit : list instr :=
  [Pop RAX; MovW DS RAX; MovW ES RAX; MovW FS RAX; MovW GS RAX;
   Pop R15; Pop R14; Pop R13; Pop R12; Pop R11; Pop R10; Pop R9; Pop R8;
   Pop RDI; Pop RSI; Pop RBP; Pop RDX; Pop RCX; Pop RBX; Pop RAX;
   AddRsp 16; Iretq].

(** ** Dispatch *)

(** The struct the handler gets a pointer to: its fields in the order of their addresses. *)
(* src/arch/x86_64/interrupts/isr.h 7-13 interrupt_context *)
Record interrupt_context := InterruptContext {
  x_ds : Z; x_r15 : Z; x_r14 : Z; x_r13 : Z; x_r12 : Z; x_r11 : Z; x_r10 : Z; x_r9 : Z; x_r8 : Z;
  x_rdi : Z; x_rsi : Z; x_rbp : Z; x_rdx : Z; x_rcx : Z; x_rbx : Z; x_rax : Z;
  x_int_no : Z; x_err_code : Z;
  x_rip : Z; x_cs : Z; x_rflags : Z; x_rsp : Z; x_ss : Z;
}.

Definition field (m : gmap Z Z) (p : Z) (i : Z) : Z := word m (p + 8 * i).
Definition ld_context (m : gmap Z Z) (p : Z) : interrupt_context :=
  let g := field m p in
  InterruptContext (g 0) (g 1) (g 2) (g 3) (g 4) (g 5) (g 6) (g 7) (g 8) (g 9) (g 10) (g 11) (g 12) (g 13) (g 14) (g 15)
    (g 16) (g 17) (g 18) (g 19) (g 20) (g 21) (g 22).

(** The ports and the register CR2, which [isr.c] reaches with instructions of its own. *)
Class Board (K : Type) := { port_in : Z → M K Z; port_out : Z → Z → M K unit; read_cr2 : M K Z }.

Section dispatch.
Context {K : Type} `{BK : Board K}.

(** The line of the first serial port is looked at [fuel] more times at most. *)
(* src/arch/x86_64/interrupts/isr.c 12-24 com1_putc *)
Fixpoint com1_putc (fuel : nat) (c : Z) : M K unit :=
  lsr ← port_in (0x3F8 + 5);
  if negb (nz (lsr .& 0x20)) then match fuel with O => out_of_fuel | S fuel => com1_putc fuel c end
  else port_out 0x3F8 c.

(** [s] is the string up to its terminator. *)
(* src/arch/x86_64/interrupts/isr.c 26-30 com1_write *)
Fixpoint com1_write (fuel : nat) (s : list Z) : M K unit :=
  match s with [] => mret tt | c :: s => com1_putc fuel c ;; com1_write fuel s end.

(** [n] rounds of the loop are left; [i] is the shift. *)
Fixpoint hex64_loop (fuel n : nat) (i val : Z) : M K unit :=
  match n with
  | O => mret tt
  | S n => com1_putc fuel (nth (Z.to_nat ((val .>> i) .& 0xF)) (chars "0123456789ABCDEF") 0) ;; hex64_loop fuel n (i - 4) val
  end.

(* src/arch/x86_64/interrupts/isr.c 32-38 com1_hex64 *)
Definition com1_hex64 (fuel : nat) (val : Z) : M K unit :=
  com1_write fuel (chars "0x") ;;
  hex64_loop fuel 16 60 val.

Definition isr_t : Type := interrupt_context → M K unit.
Definition handlers : Type := gmap Z isr_t.

(* src/arch/x86_64/interrupts/isr.c 8-10 register_interrupt_handler *)
Definition register_interrupt_handler (n : Z) (handler : isr_t) (t : handlers) : handlers := <[u8 n := handler]> t.

Definition newline : list Z := [10].

(* src/arch/x86_64/interrupts/isr.c 58-78 isr_handler *)
Definition isr_handler (fuel : nat) (t : handlers) (regs : interrupt_context) : M K unit :=
  match t !! x_int_no regs with
  | Some h => h regs
  | None =>
      if x_int_no regs <? 32 then
        com1_write fuel (newline ++ chars "[EXCEPTION] vec=") ;;
        com1_hex64 fuel (x_int_no regs) ;;
        com1_write fuel (chars " err=") ;;
        com1_hex64 fuel (x_err_code regs) ;;
        com1_write fuel (chars " rip=") ;;
        com1_hex64 fuel (x_rip regs) ;;
        com1_write fuel (chars " cr2=") ;;
        cr2 ← read_cr2;
        com1_hex64 fuel cr2 ;;
        com1_write fuel newline ;;
        panic "unhandled CPU exception"
      else mret tt
  end.

(** ** An interrupt, from delivery to return *)

(** What compiled C code does to the processor between [call] and its [ret] is a parameter, and so is
    where the linker puts the code: the instructions at an address up to the [call]. *)
Context (compiled : icpu → icpu) (code : Z → list instr).

(** A gate of the table, as the processor reads it: the address if it is an interrupt gate that is
    present. *)
Definition gate (e : idt_entry) : option (Z * Z) :=
  if type_attr e =? 0x8E
  then Some (offset_low e + 2 ^ 16 * offset_mid e + 2 ^ 32 * offset_high e, selector e) else None.

(** The processor aligns the stack, saves its state, and clears the interrupt flag. *)
Definition deliver (idt : list idt_entry) (n err : Z) (c : icpu) : option icpu :=
  match idt !! Z.to_nat n ≫= gate with
  | None => None
  | Some (target, sel) =>
      let c0 := ICpu (set_reg RSP (ir c RSP / 16 * 16) (ir c)) (im c) in
      let c1 := push_word (ir c SS) c0 in
      let c2 := push_word (ir c RSP) c1 in
      let c3 := push_word (ir c RFLAGS) c2 in
      let c4 := push_word (ir c CS) c3 in
      let c5 := push_word (ir c RIP) c4 in
      let c6 := if pushes_error n then push_word err c5 else c5 in
      Some (ICpu (set_reg RIP target (set_reg CS sel (set_reg RFLAGS (Z.ldiff (ir c RFLAGS) (1 .<< 9)) (ir c6)))) (im c6))
  end.

(** The whole of it. *)
Definition interrupt (fuel : nat) (idt : list idt_entry) (t : handlers) (n err : Z) (c : icpu) : M K icpu :=
  match deliver idt n err c with
  | None => panic "no gate"
  | Some c =>
      let c := exec (code (ir c RIP)) c in
      isr_handler fuel t (ld_context (im c) (ir c RDI)) ;;
      mret (exec isr_common_exit (compiled c))
  end.
End dispatch.
