(* ===== verification/InterruptProps.v ===== *)
(** * The theorems about interrupts

    The assembly is followed symbolically on registers and the part of the stack that is known. *)

From S2P Require Import Prelude Loops CString Format Interrupts.

(** ** Descriptors *)

(** What the processor makes of a segment descriptor. *)
Record segment := Segment { sg_base : Z; sg_limit : Z; sg_present : bool; sg_dpl : Z; sg_code : bool; sg_long : bool }.

Definition decode_gdt (e : gdt_entry) : segment :=
  Segment (base_low e + 2 ^ 16 * base_middle e + 2 ^ 24 * base_high e)
    (let l := limit_low e + 2 ^ 16 * (granularity e mod 16) in
     if Z.testbit (granularity e) 7 then l * 2 ^ 12 + (2 ^ 12 - 1) else l)
    (Z.testbit (access e) 7) (access e / 2 ^ 5 mod 4) (Z.testbit (access e) 3) (Z.testbit (granularity e) 5).

Lemma set_gates_lookup n : ∀ i stub idt j,
  length idt = 256%nat → (i + n ≤ 256)%nat →
  set_gates n i stub idt !! j =
    if decide (i ≤ j < i + n)%nat
    then Some (IdtEntry (stub (Z.of_nat j) .& 0xFFFF) 0x08 0 0x8E ((stub (Z.of_nat j) .>> 16) .& 0xFFFF)
                 ((stub (Z.of_nat j) .>> 32) .& 0xFFFFFFFF) 0)
    else idt !! j.
Proof.
  induction n as [|n IH]; intros i stub idt j Hl Hn; cbn [set_gates].
  - by rewrite decide_False by lia.
  - rewrite IH by (unfold idt_set_gate; rewrite ?length_insert; lia). unfold idt_set_gate.
    destruct (decide (j = i)) as [->|Hne].
    + rewrite decide_False, decide_True by lia. apply list_lookup_insert_eq. lia.
    + rewrite list_lookup_insert_ne by done. destruct (decide _), (decide _); try lia; done.
Qed.

Lemma bytes_of_addr a : 0 ≤ a < 2 ^ 64 →
  (a .& 0xFFFF) + 2 ^ 16 * ((a .>> 16) .& 0xFFFF) + 2 ^ 32 * ((a .>> 32) .& 0xFFFFFFFF) = a.
Proof.
  intros Ha. change 0xFFFFFFFF with (Z.ones 32). change 0xFFFF with (Z.ones 16).
  rewrite !Z.land_ones, !Z.shiftr_div_pow2 by lia.
  pose proof (Z.div_mod a (2 ^ 16) ltac:(lia)). pose proof (Z.div_mod (a / 2 ^ 16) (2 ^ 16) ltac:(lia)) as H1.
  rewrite Z.div_div in H1 by lia. change (2 ^ 16 * 2 ^ 16) with (2 ^ 32) in H1.
  rewrite (Z.mod_small (a / 2 ^ 32)); [lia|]. split; [apply Z.div_pos; lia|]. apply Z.div_lt_upper_bound; lia.
Qed.

(** The gate of a vector leads to its stub; the vectors from 48 on have none. *)
Lemma init_idt_gate stub n :
  (∀ i, 0 ≤ i < 48 → 0 ≤ stub i < 2 ^ 64) → 0 ≤ n < 256 →
  init_idt stub !! Z.to_nat n ≫= gate = if decide (n < 48) then Some (stub n, 0x08) else None.
Proof.
  intros Hs Hn. unfold init_idt. rewrite set_gates_lookup by (rewrite ?length_replicate; lia).
  destruct (decide (n < 48)) as [Hlt|Hge].
  - rewrite decide_True by lia. cbn. rewrite Z2Nat.id by lia. f_equal. f_equal. apply bytes_of_addr, Hs. lia.
  - rewrite decide_False by lia. rewrite lookup_replicate_2 by lia. done.
Qed.

(** ** Symbolic execution *)

(** The words from an address up. *)
Fixpoint stack (m : gmap Z Z) (sp : Z) (l : list Z) : Prop :=
  match l with [] => True | v :: l => word m sp = v ∧ stack m (sp + 8) l end.

Lemma stack_ext m m' sp l :
  (∀ a, sp ≤ a < sp + 8 * Z.of_nat (length l) → word m' a = word m a) → stack m sp l → stack m' sp l.
Proof.
  revert sp. induction l as [|v l IH]; intros sp He; [done|]. cbn [stack length] in *. intros [H1 H2]. split.
  - rewrite He by lia. done.
  - apply IH; [|done]. intros a Ha. apply He. lia.
Qed.

Lemma stack_push m sp v l : stack m sp l → stack (<[sp - 8 := v]> m) (sp - 8) (v :: l).
Proof.
  intros H. cbn. split; [unfold word; by rewrite lookup_insert_eq|]. replace (sp - 8 + 8) with sp by lia.
  eapply stack_ext; [|exact H]. intros a Ha. unfold word. rewrite lookup_insert_ne by lia. done.
Qed.

Lemma stack_lookup m sp l i v : stack m sp l → l !! i = Some v → word m (sp + 8 * Z.of_nat i) = v.
Proof.
  revert sp i. induction l as [|w l IH]; intros sp [|i] Hs Hl; try done; destruct Hs as [H1 H2]; cbn in Hl.
  - replace (sp + 8 * Z.of_nat 0) with sp by lia. congruence.
  - replace (sp + 8 * Z.of_nat (S i)) with (sp + 8 + 8 * Z.of_nat i) by lia. by apply IH.
Qed.

(** A state: the values of the registers, and the known words on the stack. *)
Definition all_regs : list reg :=
  [RAX; RBX; RCX; RDX; RBP; RSI; RDI; R8; R9; R10; R11; R12; R13; R14; R15; RSP; RIP; RFLAGS; CS; SS; DS; ES; FS; GS].
Definition idx (r : reg) : nat :=
  match r with
  | RAX => 0 | RBX => 1 | RCX => 2 | RDX => 3 | RBP => 4 | RSI => 5 | RDI => 6 | R8 => 7 | R9 => 8 | R10 => 9
  | R11 => 10 | R12 => 11 | R13 => 12 | R14 => 13 | R15 => 14 | RSP => 15 | RIP => 16 | RFLAGS => 17 | CS => 18
  | SS => 19 | DS => 20 | ES => 21 | FS => 22 | GS => 23
  end%nat.

Definition get (l : list Z) (r : reg) : Z := nth (idx r) l 0.
Definition put (l : list Z) (r : reg) (v : Z) : list Z := <[idx r := v]> l.

Lemma idx_inj r r' : idx r = idx r' → r = r'.
Proof. by destruct r, r'. Qed.

Lemma idx_lt r : (idx r < 24)%nat.
Proof. destruct r; cbn; lia. Qed.

Lemma get_put l r v r' : length l = 24%nat → get (put l r v) r' = set_reg r v (get l) r'.
Proof.
  intros Hl. pose proof (idx_lt r). unfold get, put, set_reg. rewrite !nth_lookup. destruct (decide (r' = r)) as [->|Hne].
  - by rewrite list_lookup_insert_eq by lia.
  - rewrite list_lookup_insert_ne; [done|]. intros E. by apply Hne, idx_inj.
Qed.

Lemma get_all (f : reg → Z) r : get (f <$> all_regs) r = f r.
Proof. by destruct r. Qed.

Definition astate : Type := list Z * list Z.

Definition astep (i : instr) (a : astate) : option astate :=
  let '(f, l) := a in
  let push v := Some (put f RSP (get f RSP - 8), v :: l) in
  match i, l with
  | Push r, _ => push (get f r)
  | PushImm v, _ => push v
  | Pop RSP, _ => None
  | Pop r, v :: l => Some (put (put f RSP (get f RSP + 8)) r v, l)
  | Mov d s, _ => if decide (d = RSP) then None else Some (put f d (get f s), l)
  | MovW d s, _ => if decide (d = RSP) then None else Some (put f d (merge16 d (get f d) (get f s)), l)
  | MovImmW d v, _ => if decide (d = RSP) then None else Some (put f d (merge16 d (get f d) v), l)
  | Xor r, _ => if decide (r = RSP) then None else Some (put f r 0, l)
  | AddRsp k, _ :: _ :: l => if decide (k = 16) then Some (put f RSP (get f RSP + 16), l) else None
  | Cli, _ => Some (put f RFLAGS (Z.ldiff (get f RFLAGS) (1 .<< 9)), l)
  | _, _ => None
  end.

Fixpoint aexec (p : list instr) (a : astate) : option astate :=
  match p with
  | [] => Some a
  | i :: p => match astep i a with Some a => aexec p a | None => None end
  end.

(** [n] more words fit below the stack pointer, and the known ones do not wrap. *)
Record sim (n : nat) (c : icpu) (a : astate) : Prop := {
  sm_len : length a.1 = 24%nat;
  sm_regs r : ir c r = get a.1 r;
  sm_stack : stack (im c) (get a.1 RSP) a.2;
  sm_low : 8 * Z.of_nat n ≤ get a.1 RSP;
  sm_high : get a.1 RSP + 8 * Z.of_nat (length a.2) < 2 ^ 64;
}.

Definition pushes (i : instr) : nat := match i with Push _ | PushImm _ => 1 | _ => 0 end.

Lemma set_reg_ext r v f g : (∀ r, f r = g r) → ∀ r', set_reg r v f r' = set_reg r v g r'.
Proof. intros H r'. unfold set_reg. by destruct (decide _). Qed.

Lemma set_reg_eq r v f : set_reg r v f r = v.
Proof. unfold set_reg. by rewrite decide_True. Qed.
Lemma set_reg_ne r r' v f : r' ≠ r → set_reg r v f r' = f r'.
Proof. intros. unfold set_reg. by rewrite decide_False. Qed.

(** Changing a register. *)
Lemma put_sim n c f l r v m :
  sim n c (f, l) → r ≠ RSP → m = im c → sim n (ICpu (set_reg r v (ir c)) m) (put f r v, l).
Proof.
  intros [H1 H2 H3 H4 H5] Hr ->. cbn [fst snd] in *.
  assert (get (put f r v) RSP = get f RSP) as E by (rewrite get_put by done; by apply set_reg_ne).
  split; cbn [fst snd im ir]; rewrite ?E; try done.
  - unfold put. by rewrite length_insert.
  - intros r'. rewrite get_put by done. by apply set_reg_ext.
Qed.

(** Changing the stack pointer. *)
Lemma sp_sim n n' c f l l' sp m :
  sim n c (f, l) → stack m sp l' → 8 * Z.of_nat n' ≤ sp → sp + 8 * Z.of_nat (length l') < 2 ^ 64 →
  sim n' (ICpu (set_reg RSP sp (ir c)) m) (put f RSP sp, l').
Proof.
  intros [H1 H2 H3 H4 H5] Hs Hlo Hhi. cbn [fst snd] in *.
  assert (get (put f RSP sp) RSP = sp) as E by (rewrite get_put by done; apply set_reg_eq).
  split; cbn [fst snd im ir]; rewrite ?E; try done.
  - unfold put. by rewrite length_insert.
  - intros r'. rewrite get_put by done. by apply set_reg_ext.
Qed.

Lemma sim_less n m c a : sim n c a → (m ≤ n)%nat → sim m c a.
Proof. intros [H1 H2 H3 H4 H5] Hm. split; try done. lia. Qed.

Lemma sim_regs n c f l : sim n c (f, l) → sim n c (ir c <$> all_regs, l).
Proof.
  intros [H1 H2 H3 H4 H5]. cbn [fst snd] in *. rewrite <- H2 in *. split; cbn [fst snd]; rewrite ?get_all; try done.
  intros r. by rewrite get_all.
Qed.

Lemma push_sim n c f l v :
  sim (S n) c (f, l) → sim n (push_word v c) (put f RSP (get f RSP - 8), v :: l).
Proof.
  intros HS. pose proof HS as [H1 H2 H3 H4 H5]. cbn [fst snd] in *. unfold push_word. rewrite (H2 RSP), wrap_small by lia.
  apply (sp_sim (S n) n c f l); [done|by apply stack_push|lia|cbn; lia].
Qed.

Lemma step_sim i n c a a' : astep i a = Some a' → sim (pushes i + n) c a → sim n (step i c) a'.
Proof.
  destruct a as [f l]. intros Ha HS. pose proof HS as [H1 H2 H3 H4 H5]. cbn [fst snd] in *.
  destruct i as [r|v|r|d s|d s|d v|r|k| |]; cbn [step pushes plus] in *; rewrite ?H2 in *; try done.
  - injection Ha as <-. by apply push_sim.
  - injection Ha as <-. by apply push_sim.
  - destruct l as [|v l]; [by destruct r|]. destruct H3 as [Hv Hs]. cbn [length] in H5.
    rewrite Hv, wrap_small by lia. assert (r ≠ RSP) as Hne by (by intros ->).
    assert (Some (put (put f RSP (get f RSP + 8)) r v, l) = Some a') as [= <-] by (by destruct r).
    apply (put_sim n (ICpu (set_reg RSP (get f RSP + 8) (ir c)) (im c))); [|done|done].
    apply (sp_sim n n c f (v :: l)); [done|done|lia|lia].
  - cbn in Ha. destruct (decide (d = RSP)); [done|]. injection Ha as <-. by apply put_sim.
  - cbn in Ha. destruct (decide (d = RSP)); [done|]. injection Ha as <-. by apply put_sim.
  - cbn in Ha. destruct (decide (d = RSP)); [done|]. injection Ha as <-. by apply put_sim.
  - cbn in Ha. destruct (decide (r = RSP)); [done|]. injection Ha as <-. by apply put_sim.
  - destruct l as [|v1 [|v2 l]]; try done. cbn in Ha. destruct (decide (k = 16)) as [->|]; [|done]. injection Ha as <-.
    cbn [length] in H5. rewrite wrap_small by lia. destruct H3 as (_ & _ & Hs).
    apply (sp_sim n n c f (v1 :: v2 :: l)); [done|by replace (get f RSP + 16) with (get f RSP + 8 + 8) by lia|lia|lia].
  - injection Ha as <-. by apply put_sim.
Qed.

Lemma exec_sim p n : ∀ c a a',
  aexec p a = Some a' → sim (sum_list (pushes <$> p) + n) c a → sim n (exec p c) a'.
Proof.
  induction p as [|i p IH]; intros c a a' Ha HS; [by injection Ha as <-|]. cbn in Ha, HS |- *.
  destruct (astep i a) as [a1|] eqn:E; [|done].
  apply (IH (step i c) a1); [done|]. apply (step_sim i _ c a); [done|]. by rewrite Nat.add_assoc.
Qed.

Lemma iretq_sim n c f x0 x1 x2 x3 x4 l r :
  sim n c (f, x0 :: x1 :: x2 :: x3 :: x4 :: l) →
  ir (step Iretq c) r = set_reg RIP x0 (set_reg CS x1 (set_reg RFLAGS x2 (set_reg RSP x3 (set_reg SS x4 (get f))))) r.
Proof.
  intros [_ Hr (H0 & H1 & H2 & H3 & H4 & _) Hlo Hhi]. cbn [fst snd length] in *. cbn [step ir]. rewrite (Hr RSP).
  rewrite H0. rewrite !wrap_small by lia. replace (get f RSP + 16) with (get f RSP + 8 + 8) by lia.
  replace (get f RSP + 24) with (get f RSP + 8 + 8 + 8) by lia. replace (get f RSP + 32) with (get f RSP + 8 + 8 + 8 + 8) by lia.
  rewrite H1, H2, H3, H4. by do 5 apply set_reg_ext.
Qed.

(** Running code on symbolic values; arithmetic stays as it is. *)
Ltac symex := cbv -[Z.add Z.sub Z.ldiff Z.shiftl merge16 wrap]; reflexivity.

(** ** The stubs *)

(** The stubs expect an error code where the processor pushes one, with two exceptions. *)
Lemma stubs_agree n : 0 ≤ n < 48 → n ≠ 21 → n ≠ 29 → is_err_stub n = pushes_error n.
Proof.
  intros Hn H21 H29. assert (n ∈ seqZ 0 48) as Hin by (apply elem_of_seqZ; lia). revert n Hin H21 H29 Hn.
  assert (Forall (λ n, n ≠ 21 → n ≠ 29 → is_err_stub n = pushes_error n) (seqZ 0 48)) as Hall by by_decide.
  rewrite Forall_forall in Hall. auto.
Qed.

Lemma merge_rax v : 0 ≤ v < 2 ^ 16 → merge16 RAX 0 v = v.
Proof. intros Hv. unfold merge16. cbn [seg]. rewrite wrap_small by lia. rewrite Z.div_0_l by lia. lia. Qed.

(** The registers in the order of the struct. *)
Definition saved (f : reg → Z) : list Z :=
  [f DS; f R15; f R14; f R13; f R12; f R11; f R10; f R9; f R8; f RDI; f RSI; f RBP; f RDX; f RCX; f RBX; f RAX].

Lemma saved_ext f g : (∀ r, r ∉ [RSP; RIP; CS; RFLAGS] → f r = g r) → saved f = saved g.
Proof. intros H. unfold saved. rewrite !H by by_decide. done. Qed.

(** The common part pushes them. *)
Lemma entry_sim n c (f : reg → Z) l :
  sim (16 + n) c (f <$> all_regs, l) → 0 ≤ f DS < 2 ^ 16 →
  ∃ f', sim n (exec isr_common_entry c) (f', saved f ++ l) ∧ get f' RDI = get f' RSP.
Proof.
  intros HS Hds.
  assert (∃ f', aexec isr_common_entry (f <$> all_regs, l) =
    Some (f', [merge16 RAX 0 (f DS); f R15; f R14; f R13; f R12; f R11; f R10; f R9; f R8; f RDI; f RSI; f RBP; f RDX; f RCX; f RBX; f RAX] ++ l)
    ∧ get f' RDI = get f' RSP) as (f2 & Ha & Hsp).
  { eexists. split; [symex|]. by symex. }
  exists f2. split; [|done]. rewrite merge_rax in Ha by done. by apply (exec_sim isr_common_entry n c _ _ Ha).
Qed.

(** The rest of it restores them, and returns to what is on the stack then. *)
Lemma exit_sim n c (g f : reg → Z) v1 v2 x0 x1 x2 x3 x4 l :
  sim n c (g <$> all_regs, saved f ++ v1 :: v2 :: x0 :: x1 :: x2 :: x3 :: x4 :: l) → 0 ≤ f DS < 2 ^ 16 →
  ∀ r, ir (exec isr_common_exit c) r =
    match r with
    | RIP => x0 | CS => x1 | RFLAGS => x2 | RSP => x3 | SS => x4
    | ES | FS | GS => f DS
    | _ => f r
    end.
Proof.
  intros HS Hds. set (p := take 21 isr_common_exit).
  assert (∃ f', aexec p (g <$> all_regs, saved f ++ v1 :: v2 :: x0 :: x1 :: x2 :: x3 :: x4 :: l) =
      Some (f', x0 :: x1 :: x2 :: x3 :: x4 :: l) ∧
    [get f' RAX; get f' RBX; get f' RCX; get f' RDX; get f' RBP; get f' RSI; get f' RDI; get f' R8; get f' R9; get f' R10;
     get f' R11; get f' R12; get f' R13; get f' R14; get f' R15; get f' DS; get f' ES; get f' FS; get f' GS] =
    [f RAX; f RBX; f RCX; f RDX; f RBP; f RSI; f RDI; f R8; f R9; f R10; f R11; f R12; f R13; f R14; f R15;
     merge16 DS (g DS) (f DS); merge16 ES (g ES) (f DS); merge16 FS (g FS) (f DS); merge16 GS (g GS) (f DS)]) as (f' & Ha & Hf).
  { eexists. split; [symex|]. symex. }
  pose proof (exec_sim p n c _ _ Ha HS) as HP. intros r.
  change isr_common_exit with (p ++ [Iretq]). unfold exec. rewrite foldl_app. fold (exec p c). cbn [foldl].
  rewrite (iretq_sim n _ f' _ _ _ _ _ _ r HP).
  assert (∀ d v, seg d = true → merge16 d v (f DS) = f DS) as Hm by (intros d v Hd; unfold merge16; by rewrite Hd, wrap_small).
  rewrite !Hm in Hf by done. clear - Hf. injection Hf. intros. by destruct r.
Qed.

(** What the processor leaves on the stack. *)
Definition hw_frame (n err : Z) (f : reg → Z) : list Z :=
  (if pushes_error n then [err] else []) ++ [f RIP; f CS; f RFLAGS; f RSP; f SS].

(** The stubs add the vector, and a zero unless they expect an error code. *)
Definition stub_frame (n : Z) (l : list Z) : list Z := if is_err_stub n then n :: l else n :: 0 :: l.

Lemma stub_sim n c l :
  sim 30 c (ir c <$> all_regs, l) → 0 ≤ ir c DS < 2 ^ 16 →
  ∃ l', sim 10 (exec (isr_stub n ++ isr_common_entry) c) (l', saved (ir c) ++ stub_frame n l) ∧ get l' RDI = get l' RSP.
Proof.
  intros HS Hds. unfold exec. rewrite foldl_app. fold (exec (isr_stub n) c).
  assert (∃ l1, sim 28 (exec (isr_stub n) c) (l1, stub_frame n l)) as [l1 H1].
  { unfold isr_stub, stub_frame. destruct (is_err_stub n).
    - eexists. refine (exec_sim [Cli; PushImm n] 28 c _ _ _ (sim_less _ _ _ _ HS _)); [reflexivity|cbn; lia].
    - eexists. refine (exec_sim [Cli; PushImm 0; PushImm n] 28 c _ _ _ HS). reflexivity. }
  apply sim_regs in H1. assert (∀ r, r ∉ [RSP; RFLAGS] → ir (exec (isr_stub n) c) r = ir c r) as Hsame.
  { intros r Hr. rewrite !not_elem_of_cons in Hr. destruct Hr as (H2 & H3 & _).
    unfold isr_stub. destruct (is_err_stub n); cbn; unfold push_word; cbn; by rewrite !set_reg_ne. }
  pose proof (sim_less _ (16 + 10) _ _ H1 ltac:(lia)) as H2. destruct (entry_sim 10 _ _ _ H2) as (f' & HE & Hsp).
  { rewrite Hsame by by_decide. done. }
  exists f'. split; [|done]. assert (saved (ir (exec (isr_stub n) c)) = saved (ir c)) as <-; [|exact HE].
  apply saved_ext. intros r Hr. apply Hsame. intros Hin. apply Hr. rewrite !elem_of_cons in *. tauto.
Qed.

(** ** The handlers and the last words of the kernel *)

Section handlers.
Context {K : Type} `{BK : Board K} (fuel : nat).
Implicit Types rs : list (Z * (interrupt_context → M K unit)).

(** The table after calls of [register_interrupt_handler], in this order. *)
Definition table_of rs : handlers := foldl (λ t r, register_interrupt_handler r.1 r.2 t) ∅ rs.

(** The handler registered last for a vector; the vector is passed as a byte. *)
Definition handler_of rs (n : Z) : option isr_t := snd <$> last (filter (λ r, r.1 mod 256 = n) rs).

Lemma table_of_lookup rs n : table_of rs !! n = handler_of rs n.
Proof using Type.
  exact (last_registered rs n).
Qed.

(** A number with 16 hexadecimal digits, in capitals. *)
Definition hex_text (v : Z) : list Z :=
  chars "0x" ++ ((λ k, let d := v / 16 ^ (15 - k) mod 16 in if d <? 10 then 48 + d else 55 + d) <$> seqZ 0 16).

Lemma com1_write_app l l' k : com1_write fuel (l ++ l') k = (com1_write fuel l ;; com1_write fuel l') k.
Proof using Type.
  revert k. induction l as [|c l IH]; intros k; [done|]. cbn [app com1_write]. rewrite M_bind_assoc.
  apply bind_ext; [done|]. intros [] k'. apply IH.
Qed.

Lemma com1_write_then {A} l l' (m : M K A) k :
  (com1_write fuel (l ++ l') ;; m) k = (com1_write fuel l ;; com1_write fuel l' ;; m) k.
Proof using Type.
  rewrite <- M_bind_assoc. apply bind_ext; [apply com1_write_app|done].
Qed.

Lemma hex_digit_ok d : 0 ≤ d < 16 →
  nth (Z.to_nat d) (chars "0123456789ABCDEF") 0 = if d <? 10 then 48 + d else 55 + d.
Proof using Type.
  intros Hd. assert (d ∈ seqZ 0 16) as Hin by (apply elem_of_seqZ; lia). clear Hd. revert d Hin.
  apply Forall_forall. by_decide.
Qed.

Lemma hex64_loop_ok n j val k : (Z.of_nat n + j = 16) → 0 ≤ j →
  hex64_loop fuel n (60 - 4 * j) val k =
  com1_write fuel ((λ k, let d := val / 16 ^ (15 - k) mod 16 in if d <? 10 then 48 + d else 55 + d) <$> seqZ j (Z.of_nat n)) k.
Proof using Type.
  revert j k. induction n as [|n IH]; intros j k Hn Hj; [done|]. cbn [hex64_loop].
  rewrite seqZ_cons by lia. cbn [fmap list_fmap com1_write]. apply bind_ext.
  - change 0xF with (Z.ones 4). rewrite Z.land_ones, Z.shiftr_div_pow2 by lia. f_equal.
    replace (2 ^ (60 - 4 * j)) with (16 ^ (15 - j)).
    2: { replace (60 - 4 * j) with (4 * (15 - j)) by lia. by rewrite Z.pow_mul_r by lia. }
    change (2 ^ 4) with 16. apply hex_digit_ok. apply Z.mod_pos_bound. lia.
  - intros [] k'. replace (60 - 4 * j - 4) with (60 - 4 * (j + 1)) by lia.
    replace (Z.pred (Z.of_nat (S n))) with (Z.of_nat n) by lia. apply (IH (Z.succ j)); lia.
Qed.

Lemma com1_hex64_ok val k : com1_hex64 fuel val k = com1_write fuel (hex_text val) k.
Proof using Type.
  unfold com1_hex64, hex_text. rewrite com1_write_app. apply bind_ext; [done|]. intros [] k'.
  by apply (hex64_loop_ok 16 0).
Qed.

(** What is written to the first serial port about an exception without a handler. *)
Definition last_words (n e rip : Z) : M K unit :=
  com1_write fuel (newline ++ chars "[EXCEPTION] vec=" ++ hex_text n ++ chars " err=" ++ hex_text e ++
    chars " rip=" ++ hex_text rip ++ chars " cr2=") ;;
  cr2 ← read_cr2;
  com1_write fuel (hex_text cr2 ++ newline).

Lemma isr_handler_ok rs ctx k :
  isr_handler fuel (table_of rs) ctx k =
    match handler_of rs (x_int_no ctx) with
    | Some h => h ctx
    | None =>
        if x_int_no ctx <? 32
        then last_words (x_int_no ctx) (x_err_code ctx) (x_rip ctx) ;; panic "unhandled CPU exception"
        else mret tt
    end k.
Proof using Type.
  unfold isr_handler. rewrite table_of_lookup. destruct (handler_of rs _) as [h|]; [done|].
  destruct (_ <? 32); [|done]. unfold last_words. rewrite M_bind_assoc, app_assoc. set (hd := newline ++ chars _).
  do 6 (rewrite com1_write_then; apply bind_ext; [done || apply com1_hex64_ok|intros [] ?]).
  apply bind_ext; [done|intros [] ?]. rewrite M_bind_assoc. apply bind_ext; [done|intros cr2 ?].
  rewrite com1_write_then. apply bind_ext; [apply com1_hex64_ok|done].
Qed.
End handlers.

(** ** Properties *)

Section interrupt.
Context {K : Type} `{BK : Board K} (fuel : nat) (compiled : icpu → icpu) (code : Z → list instr) (stub : Z → Z).

(** What the calling convention promises of the C code: the stack pointer is as before the call, and
    the words of the interrupt's frame, [k] from the stack pointer on, are not written. *)
Definition abi (k : Z) : Prop := ∀ c,
  ir (compiled c) RSP = ir c RSP ∧
  ∀ a, ir c RSP ≤ a < ir c RSP + 8 * k → word (im (compiled c)) a = word (im c) a.

(** Where the linker put the stubs. *)
Definition linked : Prop := ∀ n, 0 ≤ n < 48 → 0 ≤ stub n < 2 ^ 64 ∧ code (stub n) = isr_stub n ++ isr_common_entry.

(** The context of an interrupt in a state of the registers. *)
Definition context_of (f : reg → Z) (n e : Z) : interrupt_context :=
  InterruptContext (f DS) (f R15) (f R14) (f R13) (f R12) (f R11) (f R10) (f R9) (f R8) (f RDI) (f RSI) (f RBP) (f RDX) (f RCX)
    (f RBX) (f RAX) n e (f RIP) (f CS) (f RFLAGS) (f RSP) (f SS).

Lemma ld_context_stack m p f n e x0 x1 x2 x3 x4 l :
  stack m p (saved f ++ n :: e :: x0 :: x1 :: x2 :: x3 :: x4 :: l) →
  ld_context m p = InterruptContext (f DS) (f R15) (f R14) (f R13) (f R12) (f R11) (f R10) (f R9) (f R8) (f RDI) (f RSI) (f RBP)
    (f RDX) (f RCX) (f RBX) (f RAX) n e x0 x1 x2 x3 x4.
Proof using Type.
  intros H. assert (∀ i v, (saved f ++ n :: e :: x0 :: x1 :: x2 :: x3 :: x4 :: l) !! i = Some v →
    field m p (Z.of_nat i) = v) as Hf by (intros i v Hi; by apply (stack_lookup m p _ i v H)).
  unfold ld_context. cbv zeta.
  f_equal; match goal with |- field _ _ ?k = _ => exact (Hf (Z.to_nat k) _ eq_refl) end.
Qed.

(** The processor's part. *)
Lemma deliver_sim n err c :
  linked → 0 ≤ n < 48 → 0x200 ≤ ir c RSP < 2 ^ 64 - 64 →
  ∃ c1, deliver (init_idt stub) n err c = Some c1 ∧ ir c1 RIP = stub n ∧
    sim 30 c1 (ir c1 <$> all_regs, hw_frame n err (ir c)) ∧
    (∀ r, r ∉ [RSP; RIP; CS; RFLAGS] → ir c1 r = ir c r).
Proof using Type.
  intros Hl Hn Hsp. unfold deliver. rewrite init_idt_gate; [|intros i Hi; by apply Hl|lia].
  rewrite decide_True by lia. cbv zeta. set (f := ir c). set (sp := f RSP / 16 * 16).
  assert (f RSP - 16 < sp ≤ f RSP) as Hspb.
  { unfold sp. pose proof (Z.div_mod (f RSP) 16 ltac:(lia)). pose proof (Z.mod_pos_bound (f RSP) 16 ltac:(lia)). lia. }
  assert (sim 36 (ICpu (set_reg RSP sp f) (im c)) (set_reg RSP sp f <$> all_regs, [])) as H0.
  { split; cbn [fst snd]; rewrite ?get_all, ?set_reg_eq; [done| |done|unfold f in *; lia|cbn; unfold f in *; lia].
    intros r. by rewrite get_all. }
  apply (push_sim 35 _ _ _ (f SS)) in H0. apply (push_sim 34 _ _ _ (f RSP)) in H0.
  apply (push_sim 33 _ _ _ (f RFLAGS)) in H0. apply (push_sim 32 _ _ _ (f CS)) in H0. apply (push_sim 31 _ _ _ (f RIP)) in H0.
  set (c5 := push_word (f RIP) _) in *.
  assert (∃ l6, sim 30 (if pushes_error n then push_word err c5 else c5) (l6, hw_frame n err f)) as [l6 H6].
  { unfold hw_frame. destruct (pushes_error n); [by apply (push_sim 30 _ _ _ err) in H0; eexists|].
    eexists. by eapply sim_less; [exact H0|lia]. }
  set (c6 := if pushes_error n then push_word err c5 else c5) in *.
  eexists. split; [reflexivity|]. split; [by cbn; rewrite set_reg_eq|]. split.
  - eapply sim_regs, (put_sim 30 (ICpu (set_reg CS 0x08 (set_reg RFLAGS (Z.ldiff (f RFLAGS) (1 .<< 9)) (ir c6))) (im c6))); [|done|done].
    apply (put_sim 30 (ICpu (set_reg RFLAGS (Z.ldiff (f RFLAGS) (1 .<< 9)) (ir c6)) (im c6))); [|done|done].
    by apply put_sim.
  - intros r Hr. rewrite !not_elem_of_cons in Hr. destruct Hr as (H1 & H2 & H3 & H4 & _). cbn [ir].
    rewrite !set_reg_ne by done. unfold c6. destruct (pushes_error n); unfold c5, push_word; cbn [ir]; by rewrite !set_reg_ne.
Qed.

(** The way through the stubs, for whatever the frame holds. *)
Lemma interrupt_run (t : handlers) n err c e x0 x1 x2 x3 x4 l :
  linked → abi (23 + Z.of_nat (length l)) → 0 ≤ n < 48 → 0x200 ≤ ir c RSP < 2 ^ 64 - 64 → 0 ≤ ir c DS < 2 ^ 16 →
  stub_frame n (hw_frame n err (ir c)) = n :: e :: x0 :: x1 :: x2 :: x3 :: x4 :: l →
  ∃ c', (∀ r, ir c' r =
      match r with
      | RIP => x0 | CS => x1 | RFLAGS => x2 | RSP => x3 | SS => x4
      | ES | FS | GS => ir c DS
      | _ => ir c r
      end) ∧
    ∀ k : K, interrupt compiled code fuel (init_idt stub) t n err c k =
      (isr_handler fuel t (InterruptContext (ir c DS) (ir c R15) (ir c R14) (ir c R13) (ir c R12) (ir c R11) (ir c R10) (ir c R9)
        (ir c R8) (ir c RDI) (ir c RSI) (ir c RBP) (ir c RDX) (ir c RCX) (ir c RBX) (ir c RAX) n e x0 x1 x2 x3 x4) ;; mret c') k.
Proof using Type.
  intros Hl Ha Hn Hsp Hds Hfr. destruct (deliver_sim n err c Hl Hn Hsp) as (c1 & Ed & Erip & HS & Hsame).
  destruct (stub_sim n c1 _ HS) as (l' & HL & Hrdi); [by rewrite Hsame by by_decide|].
  assert (saved (ir c1) = saved (ir c)) as Esv by (by apply saved_ext).
  rewrite Esv, Hfr in HL. set (c2 := exec (isr_stub n ++ isr_common_entry) c1) in *.
  exists (exec isr_common_exit (compiled c2)). split.
  - apply (exit_sim 10 _ (ir (compiled c2)) (ir c) n e x0 x1 x2 x3 x4 l); [|done].
    destruct (Ha c2) as [Hrsp Hmem]. destruct HL as [L1 L2 L3 L4 L5]. cbn [fst snd] in *.
    split; cbn [fst snd]; rewrite ?get_all, ?Hrsp, ?L2; try done.
    + intros r. by rewrite get_all.
    + eapply stack_ext; [|exact L3]. intros a Ha'. apply Hmem. rewrite L2. cbn in Ha'. lia.
  - intros k. unfold interrupt. rewrite Ed, Erip, (proj2 (Hl n Hn)). fold c2.
    rewrite (ld_context_stack (im c2) (ir c2 RDI) (ir c) n e x0 x1 x2 x3 x4 l); [done|].
    rewrite (sm_regs _ _ _ HL). cbn [fst]. rewrite Hrdi. apply (sm_stack _ _ _ HL).
Qed.

(** C9: an interrupt with a vector [n] below 48, other than 21 and 29, calls the handler that was
    registered last for it, once, on a struct that holds the interrupted registers, [n] and the error
    code (0 if the processor pushes none).  If the handler returns, the interrupted code goes on with
    the general registers, RIP, RSP, RFLAGS, CS, SS and DS as they were; ES, FS and GS are not saved and
    are left with the value of DS.  Without a handler an exception, which is a vector below 32, writes the
    vector, the error code, the instruction pointer and CR2 to the first serial port and panics, and any
    other interrupt is ignored.  For 21 and 29 the processor pushes an error code that the stubs do not
    expect. *)
Theorem interrupt_correct (rs : list (Z * isr_t)) n err c :
  linked → abi 23 → 0 ≤ n < 48 → n ≠ 21 → n ≠ 29 → 0x200 ≤ ir c RSP < 2 ^ 64 - 64 → 0 ≤ ir c DS < 2 ^ 16 →
  let e := if pushes_error n then err else 0 in
  ∃ c', (∀ r, ir c' r = match r with ES | FS | GS => ir c DS | _ => ir c r end) ∧
    ∀ k : K, interrupt compiled code fuel (init_idt stub) (table_of rs) n err c k =
      (match handler_of rs n with
       | Some h => h (context_of (ir c) n e)
       | None =>
           if n <? 32 then last_words fuel n e (ir c RIP) ;; panic "unhandled CPU exception" else mret tt
       end ;; mret c') k.
Proof using Type.
  intros Hl Ha Hn H21 H29 Hsp Hds e.
  destruct (interrupt_run (table_of rs) n err c e (ir c RIP) (ir c CS) (ir c RFLAGS) (ir c RSP) (ir c SS) [])
    as (c' & Hr & Hk); [done..| |].
  { unfold stub_frame, hw_frame, e. rewrite stubs_agree by done. by destruct (pushes_error n). }
  exists c'. split; [intros r; rewrite Hr; by destruct r|].
  intros k. rewrite Hk. apply bind_ext; [|done]. apply isr_handler_ok.
Qed.

(** If the serial port takes characters, the panic is reached. *)
Lemma exception_panics rs ctx k :
  (∀ k, ∃ v k', port_in (0x3F8 + 5) k = Ok (v, k') ∧ nz (v .& 0x20) = true) →
  (∀ c k, ∃ k', port_out 0x3F8 c k = Ok (tt, k')) → (∀ k, ∃ v k', read_cr2 k = Ok (v, k')) →
  handler_of rs (x_int_no ctx) = None → x_int_no ctx < 32 →
  isr_handler fuel (table_of rs) ctx k = Panic "unhandled CPU exception".
Proof using Type.
  intros Hin Hout Hcr2 Hh Hn.
  assert (∀ l k, ∃ k', com1_write fuel l k = Ok (tt, k')) as Hw.
  { induction l as [|c l IH]; intros k0; [by eexists|]. cbn [com1_write].
    destruct (Hin k0) as (v & k1 & E1 & Hv). destruct (Hout c k1) as [k2 E2]. destruct (IH k2) as [k3 E3].
    exists k3. erewrite M_bind_Ok; [exact E3|].
    destruct fuel; cbn [com1_putc]; rewrite (M_bind_Ok _ _ _ _ _ E1), Hv; exact E2. }
  rewrite isr_handler_ok, Hh, (proj2 (Z.ltb_lt _ _)) by done. unfold last_words. rewrite M_bind_assoc.
  match goal with |- (com1_write _ ?l ≫= _) _ = _ => destruct (Hw l k) as [k1 E1] end.
  rewrite (M_bind_Ok _ _ _ _ _ E1), M_bind_assoc. destruct (Hcr2 k1) as (v & k2 & E2).
  rewrite (M_bind_Ok _ _ _ _ _ E2). destruct (Hw (hex_text v ++ newline) k2) as [k3 E3].
  by rewrite (M_bind_Ok _ _ _ _ _ E3).
Qed.

(** For the exceptions 21 and 29 the frame is off by one word: the handler sees the error code in
    the place of the instruction pointer, and returning from it continues at that address. *)
Theorem interrupt_error_code_lost (t : handlers) n err c :
  linked → abi 24 → n = 21 ∨ n = 29 → 0x200 ≤ ir c RSP < 2 ^ 64 - 64 → 0 ≤ ir c DS < 2 ^ 16 →
  ∃ c' ctx, x_rip ctx = err ∧ x_err_code ctx = 0 ∧ ir c' RIP = err ∧ ir c' CS = ir c RIP ∧
    ∀ k : K, interrupt compiled code fuel (init_idt stub) t n err c k = (isr_handler fuel t ctx ;; mret c') k.
Proof using Type.
  intros Hl Ha Hn Hsp Hds.
  destruct (interrupt_run t n err c 0 err (ir c RIP) (ir c CS) (ir c RFLAGS) (ir c RSP) [ir c SS])
    as (c' & Hr & Hk); [done|done|lia|done|done| |].
  { by destruct Hn as [-> | ->]. }
  eexists c', _. split_and!; [| | | |exact Hk]; try done; by rewrite Hr.
Qed.
End interrupt.

(** C40: the tables the processor is given are well formed: the five segments are flat, present where
    used, with the privilege and mode they are meant to have; the gates of the 48 vectors with a
    stub are present interrupt gates to that stub through the kernel's code segment, and no other
    vector has one. *)
Theorem descriptor_tables_ok stub n :
  (∀ i, 0 ≤ i < 48 → 0 ≤ stub i < 2 ^ 64) → 0 ≤ n < 256 →
  decode_gdt <$> init_gdt (replicate 5 (GdtEntry 0 0 0 0 0 0)) =
    [Segment 0 0 false 0 false false; Segment 0 0xFFFFFFFF true 0 true true; Segment 0 0xFFFFFFFF true 0 false false;
     Segment 0 0xFFFFFFFF true 3 true true; Segment 0 0xFFFFFFFF true 3 false false] ∧
  length (init_idt stub) = 256%nat ∧
  init_idt stub !! Z.to_nat n ≫= gate = (if decide (n < 48) then Some (stub n, 0x08) else None).
Proof.
  intros Hs Hn. split_and!; [by vm_compute| |by apply init_idt_gate].
  unfold init_idt. assert (∀ k i idt, length (set_gates k i stub idt) = length idt) as Hl.
  { induction k as [|k IH]; intros i idt; [done|]. cbn [set_gates]. rewrite IH. apply length_insert. }
  rewrite Hl. apply length_replicate.
Qed.

(** ** A concrete machine *)

Module ExIrq.
Definition stub (n : Z) : Z := 0xffffffff80001000 + 16 * n.
Definition code (a : Z) : list instr :=
  let n := (a - 0xffffffff80001000) / 16 in isr_stub n ++ isr_common_entry.
(** C code that clobbers a register. *)
Definition compiled (c : icpu) : icpu := ICpu (set_reg RAX 77 (ir c)) (im c).
Definition regs (r : reg) : Z := match r with RSP => 0xffff800000101008 | DS => 0x10 | RIP => 0x1234 | _ => 5 end.
Definition cpu : icpu := ICpu regs ∅.
(** Ports that answer with all bits set; what is written is not kept. *)
#[export] Instance board : Board (list Z) := {| port_in _ := mret 0xFF; port_out _ _ := mret tt; read_cr2 := mret 0 |}.
(** A handler that records the vector, registered after another one for the same vector. *)
Definition registered : list (Z * isr_t) := [(33, λ _, mret tt); (33, λ ctx, modify (cons (x_int_no ctx)))].

Lemma links : linked code stub.
Proof.
  intros n Hn. unfold stub, code. split; [lia|]. replace (0xffffffff80001000 + 16 * n - 0xffffffff80001000) with (n * 16) by lia.
  by rewrite Z.div_mul.
Qed.
Lemma keeps k : abi compiled k.
Proof. by intros c. Qed.
End ExIrq.
Import ExIrq.

Lemma interrupt_correct_witness :
  wp (interrupt compiled code 0 (init_idt stub) (table_of registered) 33 0 cpu)
    (λ c' k, ir c' RIP = 0x1234 ∧ ir c' RAX = 5 ∧ k = [33]) [].
Proof.
  destruct (interrupt_correct 0 compiled code stub registered 33 0 cpu links (keeps 23) ltac:(lia) ltac:(lia) ltac:(lia)
    ltac:(cbn; lia) ltac:(cbn; lia)) as (c' & Hr & Hk).
  assert (handler_of registered 33 = Some (λ ctx, modify (cons (x_int_no ctx)))) as E by reflexivity.
  unfold wp. rewrite Hk, E. change (ir c' RIP = 0x1234 ∧ ir c' RAX = 5 ∧ [33] = [33]). by rewrite !Hr.
Defined.

Lemma interrupt_error_code_lost_witness :
  ∃ c', ir c' RIP = 7 ∧
    ∃ ctx, ∀ k : list Z, interrupt compiled code 0 (init_idt stub) ∅ 29 7 cpu k = (isr_handler 0 ∅ ctx ;; mret c') k.
Proof.
  destruct (interrupt_error_code_lost 0 compiled code stub (∅ : handlers (K := list Z)) 29 7 cpu links (keeps 24) ltac:(by right)
    ltac:(cbn; lia) ltac:(cbn; lia)) as (c' & ctx & _ & _ & Hrip & _ & Hk).
  exists c'. split; [exact Hrip|]. by exists ctx.
Defined.

Lemma descriptor_tables_ok_witness : init_idt stub !! 33%nat ≫= gate = Some (0xffffffff80001210, 0x08).
Proof. apply (descriptor_tables_ok stub 33); [unfold stub; lia|lia]. Defined.
