(* ===== verification/Init.v ===== *)
(** * The first processes ([kernel/scheduler/process.c])

    From the boot code to the idle loop of [init]: the process the boot code turns into, the two
    processes it forks, and the scheduler it starts.  A process is where it is in its own code
    ([ctl]); its way through the kernel is that of [Process] and [Sched].  Messages are recorded by their
    formats; [init] lowers the log level first, so that none is filtered. *)

From S2P Require Import Prelude Mm Paging64 Context Queue Process Sched.

(** Where a process is in its code: at the start of [init], in a round of [proc_a] or [proc_b], or in
    the idle loop of [init]. *)
Inductive ctl := CInit | CProcA (i : Z) | CProcB (i : Z) | CIdle.

Definition newline : string := String (Ascii.ascii_of_nat 10) EmptyString.

(** The kernel; the processes' places, by pid; what has been printed; and whether the timer's
    handler is the one that calls the scheduler. *)
Record sys (H : Type) := Sys { y_k : kstate H; y_ctl : gmap Z ctl; y_out : list string; y_preempt : bool }.
Arguments Sys {H}.
Arguments y_k {H}.
Arguments y_ctl {H}.
Arguments y_out {H}.
Arguments y_preempt {H}.

Abbreviation ABAB_TURNS := 10%Z.

Section init.
Context {H : Type} `{QO : QueueOps H} `{BI : BootInfo} `{LY : Layout}.

(** The entry points, and the stack pointer of a process when it calls into the kernel. *)
Context (init_addr scheduler_addr : Z) (sp : Z → Z).

Definition kern {A} (m : M (kstate H) A) : M (sys H) A := λ s,
  match m (y_k s) with
  | Ok (a, k) => Ok (a, Sys k (y_ctl s) (y_out s) (y_preempt s))
  | Panic msg => Panic msg | Halt => Halt | Fault a => Fault a | OutOfFuel => OutOfFuel
  end.

Definition printk (text : string) : M (sys H) unit :=
  modify (λ s, Sys (y_k s) (y_ctl s) (y_out s ++ [text]) (y_preempt s)).
Definition set_ctl (pid : Z) (c : ctl) : M (sys H) unit :=
  modify (λ s, Sys (y_k s) (<[pid := c]> (y_ctl s)) (y_out s) (y_preempt s)).

Definition with_pml4 (a : Z) (x : process) : process :=
  Process (p_pid x) (p_name x) (p_parent x) (p_state x) a (p_sp x) (p_cont x) (p_entry x).

(** The running process. *)
Definition current : M (sys H) (Z * process) :=
  p ← kern myproc;
  x ← kern (ld_proc p);
  mret (p, x).

(** The boot code becomes the process [init]; its own context is never resumed. *)
(* src/kernel/scheduler/process.c 268-302 init_process *)
Definition init_process : M (sys H) kpoint :=
  init_p ← kern (alloc_process "init" init_addr);
  match init_p with
  | None => panic "could not allocate init process"
  | Some init_p =>
      cr3 ← kern (mach read_cr3);
      let bootstrap := phys_to_virt (PAGE_GET_ADDR cr3) in
      pgtable ← kern (mach (kmalloc_a 4096));
      kern (mach (memcpy_words pgtable bootstrap 512)) ;;
      kern (st_proc init_p (with_pml4 (virt_to_phys pgtable))) ;;
      kern (sched_enqueue init_p (NUM_PRIORITY_LEVELS - 1)) ;;
      kern (modify (set_task bootstrap_proc)) ;;
      kern (st_proc init_p (with_state RUNNING)) ;;
      x ← kern (ld_proc init_p);
      set_ctl (p_pid x) CInit ;;
      kern (ctx_switch init_p AtBoot (sp bootstrap_proc))
  end.

(** [init], up to its loop.  A child comes out of its fork with 0 and goes on in its own procedure. *)
(* src/kernel/scheduler/process.c 197-248 init *)
Definition init : M (sys H) (option kpoint) :=
  '(p, x) ← current;
  printk "init: pid %d, on its own kernel stack" ;;
  a ← kern (fork "A" 0 (sp p));
  set_ctl a (CProcA 0) ;;
  b ← kern (fork "B" 1 (sp p));
  set_ctl b (CProcB 0) ;;
  if (a <? 0) || (b <? 0) then panic "init: could not fork the A/B test processes" else
  printk "init: forked A (pid %d) and B (pid %d)" ;;
  sched_p ← kern (alloc_process "scheduler" scheduler_addr);
  match sched_p with
  | None => panic "init: could not allocate the scheduler process"
  | Some sched_p =>
      printk "init: scheduler process created" ;;
      kern (modify (set_scheduler_proc sched_p)) ;;
      printk "init: starting scheduler" ;;
      modify (λ s, Sys (y_k s) (y_ctl s) (y_out s) true) ;;
      set_ctl (p_pid x) CIdle ;;
      kern (to_scheduler AtInit (sp p) (sp sched_p))
  end.

(** One round of the loop of [proc_a], or its end and that of the process. *)
(* src/kernel/scheduler/process.c 178-186 proc_a *)
Definition proc_a (pid i ssp : Z) (p : Z) : M (sys H) (option kpoint) :=
  if i <? ABAB_TURNS then
    printk "A" ;;
    set_ctl pid (CProcA (i + 1)) ;;
    kern (yield (sp p) ssp)
  else
    printk newline ;;
    printk "A: done." ;;
    kern (exit_process (sp p) ssp).

(* src/kernel/scheduler/process.c 188-195 proc_b *)
Definition proc_b (pid i ssp : Z) (p : Z) : M (sys H) (option kpoint) :=
  if i <? ABAB_TURNS then
    printk "B" ;;
    set_ctl pid (CProcB (i + 1)) ;;
    kern (yield (sp p) ssp)
  else
    printk "B: done." ;;
    kern (exit_process (sp p) ssp).

(** What the running process does until it gives up the processor; the one that gets it comes out of
    its own switch. *)
(* src/kernel/scheduler/process.c 126-138 forkret *)
Definition turn : M (sys H) unit :=
  '(p, x) ← current;
  c ← gets (λ s, y_ctl s !! p_pid x);
  sched_p ← kern (gets k_scheduler_proc);
  r ← match c with
      | Some CInit => init
      | Some (CProcA i) => proc_a (p_pid x) i (sp sched_p) p
      | Some (CProcB i) => proc_b (p_pid x) i (sp sched_p) p
      | Some CIdle => kern (yield (sp p) (sp sched_p))
      | None => fault p
      end;
  match r with
  | Some pt => kern (resume_at pt)
  | None => out_of_fuel
  end.

Fixpoint turns (n : nat) : M (sys H) unit :=
  match n with O => mret tt | S n => turn ;; turns n end.

(** The kernel from the creation of [init] on. *)
Definition boot (n : nat) : M (sys H) unit :=
  kern init_scheduler ;;
  init_process ;;
  turns n.
End init.
