(* ===== verification/InitProps.v ===== *)
(** * The theorems about the first processes *)

From S2P Require Import Prelude ListHead ListHeadOps Mm Paging64 PagingSpec PagingProps Context Queue Process.
From S2P Require Import Sched SchedSpec SchedInv SchedProps ForkProps Init.

Module ExInit.
#[local] Existing Instance ex_boot.
#[local] Existing Instance Ex.layout.

Definition blank : process := Process 0 "" 0 UNUSED 0 0 (AtFresh, 0) 0.

Definition kernel : kstate heap :=
  KState ex_machine (foldr map_node (Heap ∅ ∅) (ready :: (mlfq_at <$> [0; 1; 2])))
    (foldr (λ p, <[p := blank]>) ∅ (bootstrap_proc :: Ex.slots)) ∅ 0 0 0 true 0 0.

Definition sp (p : Z) : Z := 0xffff800000121000 - 0x100.
Definition start : sys heap := Sys kernel ∅ [] false.
Definition run (n : nat) : outcome (unit * sys heap) := boot 1 2 sp n start.
End ExInit.

(** What [init], A and B print. *)
Definition transcript : list string :=
  [ "init: pid %d, on its own kernel stack"; "init: forked A (pid %d) and B (pid %d)";
    "init: scheduler process created"; "init: starting scheduler" ]
  ++ concat (replicate (Z.to_nat ABAB_TURNS) ["A"; "B"])
  ++ [newline; "A: done."; "B: done."].

Section turns.
Context {H : Type} `{QO : QueueOps H} `{BI : BootInfo} `{LY : Layout}.
Context (init_addr scheduler_addr : Z) (sp : Z → Z).
Abbreviation turn := (turn scheduler_addr sp).
Abbreviation turns := (turns scheduler_addr sp).
Abbreviation boot := (boot init_addr scheduler_addr sp).

Lemma turns_app n m s : turns (n + m) s = (turns n ;; turns m) s.
Proof using Type.
  revert s. induction n as [|n IH]; intros s; cbn [Nat.add Init.turns]; [done|].
  unfold mbind, M_bind. destruct (turn s) as [[[] s1]| | | |]; [apply IH|done..].
Qed.

(** What has been printed stays. *)
Definition grows {A} (m : M (sys H) A) : Prop := ∀ s a s', m s = Ok (a, s') → y_out s `prefix_of` y_out s'.

Lemma grows_bind {A B} (m : M (sys H) A) (f : A → M (sys H) B) : grows m → (∀ a, grows (f a)) → grows (m ≫= f).
Proof using Type. intros Hm Hf s b s' (a & s1 & H1 & H2)%M_bind_inv. etrans; [by eapply Hm|by eapply Hf]. Qed.
Lemma grows_kern {A} (m : M (kstate H) A) : grows (kern m).
Proof using Type. intros s a s'. unfold kern. destruct (m (y_k s)) as [[]| | | |]; by intros [= <- <-]. Qed.
Lemma grows_modify f : (∀ s, y_out s `prefix_of` y_out (f s)) → grows (modify f).
Proof using Type. intros Hf s a s' [= _ <-]. apply Hf. Qed.
Lemma grows_gets {A} (f : sys H → A) : grows (gets f).
Proof using Type. by intros s a s' [= _ <-]. Qed.
Lemma grows_ret {A} (a : A) : grows (mret a).
Proof using Type. by intros s b s' [= _ <-]. Qed.
Lemma grows_panic {A} msg : grows (A:=A) (panic msg).
Proof using Type. by intros s b s' [=]. Qed.

Ltac grow := repeat first
  [ apply grows_kern | apply grows_gets | apply grows_ret | apply grows_panic
  | apply grows_modify; intros ?; cbn; (done || by apply prefix_app_r)
  | apply grows_bind; [|intros ?]
  | match goal with |- grows (match ?x with _ => _ end) => destruct x end
  | intros ? ? ? [=]; done ].

Lemma turn_grows : grows turn.
Proof using Type. unfold Init.turn, current, init, proc_a, proc_b, printk, set_ctl. grow. Qed.

Lemma turns_grow n : grows (turns n).
Proof using Type. induction n; cbn [Init.turns]; [apply grows_ret|]. apply grows_bind; [apply turn_grows|done]. Qed.

Lemma turns_fixed n s : turn s = Ok (tt, s) → turns n s = Ok (tt, s).
Proof using Type. intros Ht. induction n as [|n IH]; [done|]. cbn [Init.turns]. by rewrite (M_bind_Ok _ _ _ _ _ Ht). Qed.

(** A boot that reaches a state a turn does not change stays there, and has printed a part of what
    it ends with before. *)
Lemma boot_fixed n s s' : boot n s = Ok (tt, s') → turn s' = Ok (tt, s') →
  ∀ m, ∃ s'', boot m s = Ok (tt, s'') ∧ y_out s'' `prefix_of` y_out s' ∧ ((n ≤ m)%nat → s'' = s').
Proof using Type.
  unfold Init.boot. intros ([] & s1 & H1 & (k & s2 & H2 & H3)%M_bind_inv)%M_bind_inv Ht m.
  rewrite (M_bind_Ok _ _ _ _ _ H1), (M_bind_Ok _ _ _ _ _ H2).
  destruct (decide (n ≤ m)%nat) as [Hle|Hlt].
  - exists s'. split; [|done]. replace m with (n + (m - n))%nat by lia.
    rewrite turns_app, (M_bind_Ok _ _ _ _ _ H3). by apply turns_fixed.
  - replace n with (m + (n - m))%nat in H3 by lia. rewrite turns_app in H3.
    destruct (M_bind_inv _ _ _ _ _ H3) as ([] & s3 & H4 & H5). exists s3.
    split; [done|]. split; [by eapply turns_grow|lia].
Qed.
End turns.


(** ** The run of a concrete kernel *)

#[local] Instance machine_eq_dec : EqDecision machine.
Proof. solve_decision. Defined.
#[local] Instance heap_eq_dec : EqDecision heap.
Proof. solve_decision. Defined.
#[local] Instance process_eq_dec : EqDecision process.
Proof. solve_decision. Defined.
#[local] Instance vm_region_eq_dec : EqDecision vm_region.
Proof. solve_decision. Defined.
#[local] Instance kstate_eq_dec : EqDecision (kstate heap).
Proof. solve_decision. Defined.
#[local] Instance ctl_eq_dec : EqDecision ctl.
Proof. solve_decision. Defined.
#[local] Instance sys_eq_dec : EqDecision (sys heap).
Proof. solve_decision. Defined.

(** All is printed after 33 turns, and the next one, of [init], leads back to the same state. *)
Definition ends (r : outcome (unit * sys heap)) : bool :=
  match r with
  | Ok (_, s) => bool_decide (y_out s = transcript)
      && match turn 2 ExInit.sp s (QO:=list_queue) (BI:=ex_boot) (LY:=Ex.layout) with
         | Ok (_, s') => bool_decide (s' = s)
         | _ => false
         end
  | _ => false
  end.

Lemma run_ends : ends (ExInit.run 33) = true.
Proof. vm_compute. reflexivity. Qed.

(** A run of the first processes, from this one kernel and without timer interrupts: whatever the number of turns, there is
    no panic, fault or hang, and what is printed is a part of the transcript, the whole of it after 33 turns. *)
Example boot_run : ∀ n, ∃ s, ExInit.run n = Ok (tt, s)
  ∧ y_out s `prefix_of` transcript ∧ ((33 ≤ n)%nat → y_out s = transcript).
Proof.
  intros n. pose proof run_ends as He. unfold ends in He.
  destruct (ExInit.run 33) as [[[] s]| | | |] eqn:E; [|done..].
  apply andb_true_iff in He as [<-%bool_decide_eq_true Ht].
  destruct (turn _ _ s) as [[[] s1]| | | |] eqn:Et; [|done..]. apply bool_decide_eq_true in Ht as ->.
  destruct (boot_fixed (QO:=list_queue) (BI:=ex_boot) (LY:=Ex.layout) 1 2 ExInit.sp 33 ExInit.start s E Et n)
    as (s' & Hs & Hpre & Hend).
  exists s'. split; [exact Hs|]. split; [exact Hpre|]. intros Hn. by rewrite Hend.
Qed.
