(* ===== verification/Heap.v ===== *)
(** * Binary heaps ([libc/datastructures/trees/heap/heap.c])

    An array whose elements are counted from one, with the number of them that are in the heap.  The
    comparison is the one the caller stored in the struct. *)

From S2P Require Import Prelude Loops Arrays Sort SortProps.

Abbreviation ROOT := 1%Z.

(* src/libc/datastructures/trees/heap/heap.h 11-16 heap *)
Record hctx := Hctx { h_arr : list Z; arr_len : Z; heap_size : Z }.

Definition set_heap_size (n : Z) (h : hctx) : hctx := Hctx (h_arr h) (arr_len h) n.

Definition on_arr {A} (m : M (list Z) A) : M hctx A := λ h,
  match m (h_arr h) with
  | Ok (x, a) => Ok (x, Hctx a (arr_len h) (heap_size h))
  | Panic msg => Panic msg | Halt => Halt | Fault a => Fault a | OutOfFuel => OutOfFuel
  end.

(* src/libc/datastructures/trees/heap/heap.c 13-15 parent *)
Definition parent (i : Z) : Z := i ÷ 2.
(* src/libc/datastructures/trees/heap/heap.c 17-19 left *)
Definition left (i : Z) : Z := s32 (2 * i).
(* src/libc/datastructures/trees/heap/heap.c 21-23 right *)
Definition right (i : Z) : Z := s32 (2 * i + 1).

(** The two functions that percolate down differ in the test that makes them exchange two elements.
    [child c at b] is [c] if it is in the heap and the test holds for the element at [b] and it. *)
Definition child (bad : Z → Z → bool) (n c b : Z) : M (list Z) Z :=
  if c <=? n then x ← ld b; y ← ld c; mret (if bad x y then c else b) else mret b.

Fixpoint sift_down (fuel : nat) (bad : Z → Z → bool) (n i : Z) : M (list Z) unit :=
  swapi ← child bad n (left i) i;
  swapi ← child bad n (right i) swapi;
  if i =? swapi then mret tt else
  swap i swapi ;;
  match fuel with
  | O => out_of_fuel
  | S fuel => sift_down fuel bad n swapi
  end.

Section heap.
Context (comp : Z → Z → bool).

(* src/libc/datastructures/trees/heap/heap.c 26-31 percolateUp *)
Fixpoint percolateUp (fuel : nat) (i : Z) : M (list Z) unit :=
  if i =? ROOT then mret tt else
  x ← ld i;
  p ← ld (parent i);
  if comp x p then mret tt else
  swap i (parent i) ;;
  match fuel with
  | O => out_of_fuel
  | S fuel => percolateUp fuel (parent i)
  end.

(* src/libc/datastructures/trees/heap/heap.c 34-48 percolateDown *)
Definition percolateDown (fuel : nat) (i : Z) : M hctx unit :=
  n ← gets heap_size;
  on_arr (sift_down fuel (λ x y, negb (comp x y)) n i).

(* src/libc/datastructures/trees/heap/heap.c 50-62 _percolateDown *)
Definition percolateDown_ (fuel : nat) (i : Z) : M hctx unit :=
  n ← gets heap_size;
  on_arr (sift_down fuel comp n i).

(** Nothing is returned when the element has been inserted. *)
(* src/libc/datastructures/trees/heap/heap.c 65-74 heap_insert *)
Definition heap_insert (fuel : nat) (val : Z) : M hctx (option Z) :=
  h ← gets id;
  if u64 (heap_size h) =? arr_len h then mret (Some (-1)) else
  modify (set_heap_size (s32 (heap_size h + 1))) ;;
  n ← gets heap_size;
  on_arr (st n val) ;;
  on_arr (percolateUp fuel n) ;;
  mret None.

(* src/libc/datastructures/trees/heap/heap.c 77-91 heap_pop *)
Definition heap_pop (fuel : nat) : M hctx Z :=
  n ← gets heap_size;
  if n =? 0 then mret (-1) else
  ret ← on_arr (ld ROOT);
  on_arr (swap ROOT n) ;;
  modify (set_heap_size (s32 (n - 1))) ;;
  percolateDown_ fuel ROOT ;;
  mret ret.

(* src/libc/datastructures/trees/heap/heap.c 94-99 build_heap *)
Definition build_heap (fuel : nat) : M hctx unit :=
  n ← gets arr_len;
  modify (set_heap_size (s32 n)) ;;
  n ← gets heap_size;
  for_down (Z.to_nat n) (percolateDown fuel).

(* src/libc/datastructures/trees/heap/heap.c 102-109 heapsort *)
Definition heapsort (fuel : nat) : M hctx unit :=
  build_heap fuel ;;
  n ← gets arr_len;
  for_down (Z.to_nat (s32 n)) (λ i,
    on_arr (swap i ROOT) ;;
    h ← gets heap_size;
    modify (set_heap_size (s32 (h - 1))) ;;
    percolateDown fuel ROOT).
End heap.

(** * The theorems about binary heaps *)

From Stdlib Require Import Sorting.Sorted.

(** ** Order along the edges *)

Section order.
Context (R : Z → Z → Prop).

(** Of the elements [1..n], each below a parent that is not before [lo] is in order with it, except
    those that [skip] names. *)
Definition heap_but (skip : Z → Prop) (a : list Z) (n lo : Z) : Prop :=
  ∀ i, 2 ≤ i ≤ n → lo ≤ i / 2 → ¬ skip i → R (at_ a (i / 2)) (at_ a i).

Definition heap_from (a : list Z) (n lo : Z) : Prop := ∀ i, 2 ≤ i ≤ n → lo ≤ i / 2 → R (at_ a (i / 2)) (at_ a i).

(** The children of [i] are in order with its parent. *)
Definition grand (a : list Z) (n lo i : Z) : Prop :=
  lo ≤ i / 2 → ∀ j, 2 ≤ j ≤ n → j / 2 = i → R (at_ a (i / 2)) (at_ a j).
End order.

Lemma half_child i c : c = 2 * i ∨ c = 2 * i + 1 → c / 2 = i.
Proof. intros [-> | ->]; [rewrite Z.mul_comm; by rewrite Z.div_mul|]. rewrite Z.mul_comm, Z.div_add_l by lia. change (1 / 2) with 0. lia. Qed.

Lemma child_half i j : j / 2 = i → j = 2 * i ∨ j = 2 * i + 1.
Proof. intros <-. pose proof (Z.div_mod j 2). pose proof (Z.mod_pos_bound j 2). lia. Qed.

(** ** Percolating down *)

Section sift.
Context (R : Z → Z → Prop) (bad : Z → Z → bool).
Context (Rtrans : ∀ x y z, R x y → R y z → R x z).
Context (Rgood : ∀ x y, bad x y = false → R x y) (Rbad : ∀ x y, bad x y = true → R y x).

(** The child chosen for the exchange is in order with the element and with the other child. *)
Definition chosen (a : list Z) (n i s : Z) : Prop :=
  (s = i ∧ ∀ j, 2 ≤ j ≤ n → j / 2 = i → R (at_ a i) (at_ a j)) ∨
  (s / 2 = i ∧ i < s ≤ n ∧ R (at_ a s) (at_ a i) ∧ ∀ j, 2 ≤ j ≤ n → j / 2 = i → j ≠ s → R (at_ a s) (at_ a j)).

Lemma wp_child n c b (Q : Z → list Z → Prop) a :
  n < len a → 0 ≤ b < len a → 0 ≤ c →
  (c ≤ n → bad (at_ a b) (at_ a c) = true → Q c a) →
  (n < c ∨ bad (at_ a b) (at_ a c) = false → Q b a) → wp (child bad n c b) Q a.
Proof using Type.
  intros Hn Hb Hc H1 H2. unfold child. destruct (Z.leb_spec c n).
  - apply wp_bind, wp_ld; [lia|]. apply wp_bind, wp_ld; [lia|]. apply wp_ret.
    destruct (bad (at_ a b) (at_ a c)); auto.
  - apply wp_ret. auto.
Qed.

Lemma children_chosen a n i (Q : Z → list Z → Prop) :
  1 ≤ i ≤ n → n < len a → n < 2 ^ 30 → (∀ s, chosen a n i s → Q s a) →
  wp (s ← child bad n (left i) i; child bad n (right i) s) Q a.
Proof using Rtrans Rgood Rbad.
  intros Hi Hn H30 HQ. unfold left, right. rewrite !swrap_small by lia.
  pose proof (half_child i (2 * i) (or_introl eq_refl)) as HL.
  pose proof (half_child i (2 * i + 1) (or_intror eq_refl)) as HR.
  apply wp_bind, wp_child; [lia..| |].
  - intros Hl B1%Rbad. apply wp_child; [lia..| |].
    + intros Hr B2%Rbad. apply HQ. right. split; [done|]. split; [lia|]. split; [eauto|].
      intros j Hj [-> | ->]%child_half ?; done.
    + intros G2. apply HQ. right. split; [done|]. split; [lia|]. split; [done|].
      intros j Hj [-> | ->]%child_half ?; [done|]. destruct G2 as [|?%Rgood]; [lia|done].
  - intros G1. apply wp_child; [lia..| |].
    + intros Hr B2%Rbad. apply HQ. right. split; [done|]. split; [lia|]. split; [done|].
      intros j Hj [-> | ->]%child_half ?; [|done]. destruct G1 as [|?%Rgood]; [lia|eauto].
    + intros G2. apply HQ. left. split; [done|].
      intros j Hj [-> | ->]%child_half; [destruct G1 as [|?%Rgood]|destruct G2 as [|?%Rgood]]; done || lia.
Qed.

Lemma swap_down a n lo i s :
  1 ≤ lo ≤ i → n < len a → s / 2 = i → i < s ≤ n → R (at_ a s) (at_ a i) →
  (∀ j, 2 ≤ j ≤ n → j / 2 = i → j ≠ s → R (at_ a s) (at_ a j)) →
  heap_but R (λ j, j / 2 = i) a n lo → grand R a n lo i →
  heap_but R (λ j, j / 2 = s) (swapped a i s) n lo ∧ grand R (swapped a i s) n lo s.
Proof using Type.
  intros Hlo Hn Hs Hlt Hsi Hso Hh Hg.
  assert (∀ j, 2 ≤ j ≤ n → 1 ≤ j / 2 < j) as Hhalf.
  { intros j Hj. split; [apply Z.div_le_lower_bound; lia|apply Z.div_lt; lia]. }
  split.
  - intros j Hj Hlj Hjs. pose proof (Hhalf j Hj). rewrite !at_swapped by lia.
    destruct (Z.eqb_spec (j / 2) s); [done|]. destruct (Z.eqb_spec (j / 2) i) as [Eji|Nji].
    + destruct (Z.eqb_spec j s) as [->|]; [done|]. destruct (Z.eqb_spec j i); [lia|]. by apply Hso.
    + destruct (Z.eqb_spec j s) as [->|]; [lia|].
      destruct (Z.eqb_spec j i) as [->|]; [|by apply Hh]. apply Hg; [done|lia|done].
  - intros _ j Hj Ej. pose proof (Hhalf j Hj). rewrite Hs. rewrite !at_swapped by lia.
    bcase; try lia. rewrite <- Ej. apply Hh; lia.
Qed.

Lemma sift_down_ok fuel n lo : ∀ i a,
  1 ≤ lo ≤ i → i ≤ n → n < len a → n < 2 ^ 30 → n - i < Z.of_nat fuel →
  heap_but R (λ j, j / 2 = i) a n lo → grand R a n lo i →
  wp (sift_down fuel bad n i) (λ _ a', heap_from R a' n lo ∧ rearr lo (n + 1) a a') a.
Proof using Rtrans Rgood Rbad.
  induction fuel as [|fuel IH]; intros i a Hlo Hi Hn H30 Hf Hh Hg; [lia|].
  cbn [sift_down].
  enough (wp (s ← (s ← child bad n (left i) i; child bad n (right i) s);
              if i =? s then mret tt else swap i s ;; sift_down fuel bad n s)
            (λ _ a', heap_from R a' n lo ∧ rearr lo (n + 1) a a') a) as Hw.
  { revert Hw. unfold wp, mbind, M_bind. by destruct (child bad n (left i) i a) as [[? ?]| | | |]. }
  apply wp_bind, children_chosen; [lia..|]. intros s [[-> Hall]|(Hs & Hlt & Hsi & Hso)].
  - rewrite Z.eqb_refl. apply wp_ret. split; [|apply rearr_refl]. intros j Hj Hl.
    destruct (decide (j / 2 = i)) as [E|]; [rewrite E; by apply Hall|by apply Hh].
  - rewrite (proj2 (Z.eqb_neq i s)) by lia. apply wp_bind, wp_swap; [lia..|].
    destruct (swap_down a n lo i s) as [Hh' Hg']; [done..|].
    eapply wp_mono; [apply IH; rewrite ?length_swapped; done || lia|].
    cbv beta. intros _ a' [H1 H2]. split; [done|]. eapply rearr_trans; [|done]. apply rearr_swapped; lia.
Qed.

(** Percolating into a heap whose root alone may be out of order. *)
Lemma sift_root fuel n a :
  0 ≤ n → n < len a → n < 2 ^ 30 → n ≤ Z.of_nat fuel → heap_but R (λ j, j / 2 = 1) a n 1 →
  wp (sift_down fuel bad n ROOT) (λ _ a', heap_from R a' n 1 ∧ rearr 1 (n + 1) a a') a.
Proof using Rtrans Rgood Rbad.
  intros H0 Hn H30 Hf Hh. destruct (decide (n = 0)) as [->|].
  - assert (∀ f, sift_down f bad 0 ROOT a = Ok (tt, a)) as E by (by intros []).
    eapply wp_intro; [apply E|]. split; [|apply rearr_refl]. intros i Hi. lia.
  - apply sift_down_ok; try lia; [done|]. intros Hl. change (1 / 2) with 0 in Hl. lia.
Qed.

(** ** The root of a heap *)

Lemma root_first (Rrefl : ∀ x, R x x) a n i : heap_from R a n 1 → 1 ≤ i ≤ n → R (at_ a 1) (at_ a i).
Proof using Rtrans.
  intros Hh. enough (∀ k i, i ≤ Z.of_nat k → 1 ≤ i ≤ n → R (at_ a 1) (at_ a i)) as H.
  { intros Hi. apply (H (Z.to_nat i)); lia. }
  clear i. induction k as [|k IH]; intros i Hk Hi; [lia|]. destruct (decide (i = 1)) as [->|]; [done|].
  assert (1 ≤ i / 2 < i) by (split; [apply Z.div_le_lower_bound; lia|apply Z.div_lt; lia]).
  apply (Rtrans _ (at_ a (i / 2))); [apply IH; lia|apply Hh; lia].
Qed.
End sift.

(** ** Percolating up *)

Lemma parent_half i : 0 ≤ i → parent i = i / 2.
Proof. intros. unfold parent. by rewrite Z.quot_div_nonneg by lia. Qed.

(** A comparison that is a total preorder, such as the [>=] the heaps are used with. *)
Class TotalComp (comp : Z → Z → bool) : Prop := {
  comp_total x y : comp x y = false → comp y x = true;
  comp_trans x y z : comp x y = true → comp y z = true → comp x z = true;
}.

Section heap.
Context (comp : Z → Z → bool) {TC : TotalComp comp}.

Lemma comp_refl x : comp x x = true.
Proof using TC. destruct (comp x x) eqn:E; [done|]. rewrite <- E. by apply comp_total. Qed.

(** The order [heap_insert] and [heap_pop] keep: a child compares with its parent.  [build_heap] and
    [heapsort] keep the opposite one: a parent compares with its children. *)
Definition below (p c : Z) : Prop := comp c p = true.
Definition above (p c : Z) : Prop := comp p c = true.

Lemma swap_up a n i :
  2 ≤ i ≤ n → n < len a → comp (at_ a i) (at_ a (i / 2)) = false →
  heap_but below (λ j, j = i) a n 1 → grand below a n 1 i →
  heap_but below (λ j, j = i / 2) (swapped a i (i / 2)) n 1 ∧ grand below (swapped a i (i / 2)) n 1 (i / 2).
Proof using TC.
  intros Hi Hn Hc Hh Hg.
  assert (∀ j, 2 ≤ j ≤ n → 1 ≤ j / 2 < j) as Hhalf.
  { intros j Hj. split; [apply Z.div_le_lower_bound; lia|apply Z.div_lt; lia]. }
  pose proof (Hhalf i Hi). unfold below, heap_but, grand in *.
  assert (∀ j, 2 ≤ j ≤ n → j / 2 = i / 2 → comp (at_ a j) (at_ a i) = true) as Hsib.
  { intros j Hj E. destruct (decide (j = i)) as [->|]; [apply comp_refl|].
    apply (comp_trans _ (at_ a (i / 2))); [rewrite <- E; apply Hh; lia|by apply comp_total]. }
  split.
  - intros j Hj _ Hne. pose proof (Hhalf j Hj). rewrite !at_swapped by lia.
    destruct (Z.eqb_spec j (i / 2)); [done|]. destruct (Z.eqb_spec (j / 2) (i / 2)) as [E|N].
    + destruct (Z.eqb_spec j i) as [->|]; [by apply comp_total|by apply Hsib].
    + destruct (Z.eqb_spec j i) as [->|]; [done|]. destruct (Z.eqb_spec (j / 2) i) as [E|]; [|apply Hh; lia].
      apply Hg; lia.
  - intros Hl j Hj E. pose proof (Hhalf j Hj).
    assert (2 ≤ i / 2) by (destruct (decide (i / 2 = 1)) as [E1|]; [rewrite E1 in Hl; by vm_compute in Hl|lia]).
    pose proof (Hhalf (i / 2) ltac:(lia)). rewrite !at_swapped by lia.
    rewrite (proj2 (Z.eqb_neq (i / 2 / 2) (i / 2))), (proj2 (Z.eqb_neq (i / 2 / 2) i)), (proj2 (Z.eqb_neq j (i / 2))) by lia.
    assert (comp (at_ a (i / 2)) (at_ a (i / 2 / 2)) = true) by (apply Hh; lia).
    destruct (Z.eqb_spec j i) as [->|]; [done|].
    apply (comp_trans _ (at_ a (i / 2))); [rewrite <- E; apply Hh; lia|done].
Qed.

Lemma percolateUp_ok fuel n : ∀ i a,
  1 ≤ i ≤ n → n < len a → i ≤ Z.of_nat fuel →
  heap_but below (λ j, j = i) a n 1 → grand below a n 1 i →
  wp (percolateUp comp fuel i) (λ _ a', heap_from below a' n 1 ∧ rearr 1 (n + 1) a a') a.
Proof using TC.
  induction fuel as [|fuel IH]; intros i a Hi Hn Hf Hh Hg; [lia|]. cbn [percolateUp].
  destruct (Z.eqb_spec i 1) as [->|].
  { apply wp_ret. split; [|apply rearr_refl]. intros j Hj Hl. apply Hh; lia. }
  assert (1 ≤ i / 2 < i) by (split; [apply Z.div_le_lower_bound; lia|apply Z.div_lt; lia]).
  rewrite parent_half by lia. apply wp_bind, wp_ld; [lia|]. apply wp_bind, wp_ld; [lia|].
  destruct (comp (at_ a i) (at_ a (i / 2))) eqn:Hc.
  - apply wp_ret. split; [|apply rearr_refl]. intros j Hj Hl.
    destruct (decide (j = i)) as [->|]; [done|by apply Hh].
  - apply wp_bind, wp_swap; [lia..|]. destruct (swap_up a n i) as [Hh' Hg']; [lia..|done|done|done|].
    eapply wp_mono; [apply IH; rewrite ?length_swapped; done || lia|].
    cbv beta. intros _ a' [H1 H2]. split; [done|]. eapply rearr_trans; [|done]. apply rearr_swapped; lia.
Qed.

(** ** A priority queue *)

(** The heap [s] holds the elements [ms]. *)
Record pq_ok (s : hctx) (ms : list Z) : Prop := {
  pq_len : len (h_arr s) = arr_len s + 1;
  pq_size : 0 ≤ heap_size s ≤ arr_len s;
  pq_cap : arr_len s < 2 ^ 30;
  pq_heap : heap_from below (h_arr s) (heap_size s) 1;
  pq_elems : slice (h_arr s) 1 (heap_size s + 1) ≡ₚ ms;
}.

Lemma pq_count s ms : pq_ok s ms → Z.of_nat (length ms) = heap_size s.
Proof using Type.
  intros [_ [? _] _ _ <-]. unfold slice. rewrite length_fmap, length_seqZ. lia.
Qed.

Lemma wp_on_harr {A} (m : M (list Z) A) (Q : A → hctx → Prop) s :
  wp m (λ x a, Q x (Hctx a (arr_len s) (heap_size s))) (h_arr s) → wp (on_arr m) Q s.
Proof using Type. unfold wp, on_arr. by destruct (m (h_arr s)) as [[x a]| | | |]. Qed.

Inductive pq_op := Insert (v : Z) | Pop.

Definition heap_op (fuel : nat) (op : pq_op) : M hctx (option Z) :=
  match op with
  | Insert v => heap_insert comp fuel v
  | Pop => r ← heap_pop comp fuel; mret (Some r)
  end.

(** What is promised of a queue for [cap] elements: the result of an operation and the elements
    after it.  The one popped compares with none before it. *)
Inductive pq_step (cap : Z) (ms : list Z) : pq_op → option Z → list Z → Prop :=
  | step_full v : Z.of_nat (length ms) = cap → pq_step cap ms (Insert v) (Some (-1)) ms
  | step_insert v : Z.of_nat (length ms) < cap → pq_step cap ms (Insert v) None (v :: ms)
  | step_empty : ms = [] → pq_step cap ms Pop (Some (-1)) ms
  | step_pop x ms' : ms ≡ₚ x :: ms' → (∀ y, y ∈ ms → comp y x = true) → pq_step cap ms Pop (Some x) ms'.

Lemma insert_ok fuel v s ms :
  pq_ok s ms → arr_len s ≤ Z.of_nat fuel →
  wp (heap_insert comp fuel v) (λ r s', ∃ ms', pq_step (arr_len s) ms (Insert v) r ms' ∧ pq_ok s' ms'
    ∧ arr_len s' = arr_len s) s.
Proof using TC.
  intros Hs Hf. pose proof (pq_count s ms Hs) as Hc. destruct s as [a cap n], Hs as [Hl Hn Hcap Hh He].
  cbn [h_arr arr_len heap_size] in *. unfold heap_insert. apply wp_bind, wp_gets. cbn [arr_len heap_size id].
  rewrite wrap_small by lia. destruct (Z.eqb_spec n cap) as [->|].
  { apply wp_ret. exists ms. split; [by constructor|]. split; [by split|done]. }
  apply wp_bind, wp_modify, wp_bind, wp_gets. unfold set_heap_size. cbn [heap_size h_arr arr_len].
  rewrite !(swrap_small 32 (n + 1)) by lia. apply wp_bind, wp_on_harr, wp_st; cbn [h_arr arr_len heap_size]; [lia|].
  apply wp_bind, wp_on_harr; cbn [h_arr arr_len heap_size].
  eapply wp_mono; [apply (percolateUp_ok fuel (n + 1)); rewrite ?length_upd; try lia|].
  - intros j Hj Hlj Hne. rewrite !at_upd by (lia || (apply Z.div_pos; lia)).
    assert (j / 2 < j) by (apply Z.div_lt; lia).
    rewrite (proj2 (Z.eqb_neq (j / 2) (n + 1))), (proj2 (Z.eqb_neq j (n + 1))) by lia. apply Hh; lia.
  - intros Hl1 j Hj E. assert (j / 2 < j) by (apply Z.div_lt; lia). lia.
  - cbv beta. intros _ a' [H1 H2]. apply wp_ret. exists (v :: ms). split; [constructor; lia|].
    split; [|done]. split; cbn [h_arr arr_len heap_size]; [rewrite (ra_len _ _ _ _ H2), length_upd; lia|lia|lia|done|].
    rewrite (slice_rearr _ _ _ _ H2) by (rewrite ?length_upd; lia). rewrite slice_snoc by lia.
    rewrite at_upd, Z.eqb_refl by lia. rewrite (slice_ext a) by (intros; rewrite at_upd by lia; bcase; lia || done).
    rewrite He. symmetry. apply Permutation_cons_append.
Qed.

Lemma heap_pop_ok fuel s ms :
  pq_ok s ms → arr_len s ≤ Z.of_nat fuel →
  wp (heap_op fuel Pop) (λ r s', ∃ ms', pq_step (arr_len s) ms Pop r ms' ∧ pq_ok s' ms'
    ∧ arr_len s' = arr_len s) s.
Proof using TC.
  intros Hs Hf. pose proof (pq_count s ms Hs) as Hc. destruct s as [a cap n], Hs as [Hl Hn Hcap Hh He].
  cbn [h_arr arr_len heap_size] in *. unfold heap_op, heap_pop. apply wp_bind, wp_bind, wp_gets. cbn [heap_size].
  destruct (Z.eqb_spec n 0) as [->|].
  { apply wp_ret, wp_ret. exists ms. split; [|split; [by split|done]]. apply step_empty. apply nil_length_inv. lia. }
  apply wp_bind, wp_on_harr, wp_ld; [cbn; lia|]. cbn [h_arr arr_len heap_size].
  apply wp_bind, wp_on_harr, wp_swap; cbn [h_arr arr_len heap_size]; [lia..|].
  apply wp_bind, wp_modify. unfold set_heap_size. cbn [h_arr arr_len heap_size]. rewrite swrap_small by lia.
  apply wp_bind. unfold percolateDown_. apply wp_bind, wp_gets, wp_on_harr. cbn [h_arr arr_len heap_size].
  eapply wp_mono; [apply (sift_root below comp); rewrite ?length_swapped; try lia|].
  - intros x y z. unfold below. intros ??. by apply (comp_trans _ y).
  - intros x y. apply comp_total.
  - done.
  - intros j Hj Hlj Hne. assert (j / 2 < j) by (apply Z.div_lt; lia).
    rewrite !at_swapped by lia. bcase; try lia. apply Hh; lia.
  - cbv beta. intros _ a' [H1 H2]. apply wp_ret, wp_ret.
    assert (at_ a 1 :: slice a' 1 n ≡ₚ ms) as Hp.
    { rewrite <- He. replace (n - 1 + 1) with n in H2 by lia.
      rewrite (slice_rearr _ _ _ _ H2) by (rewrite ?length_swapped; lia).
      rewrite <- (slice_rearr _ _ _ _ (rearr_swapped 1 (n + 1) a 1 n ltac:(lia) ltac:(lia) ltac:(lia) ltac:(lia))) by lia.
      rewrite slice_snoc by lia. rewrite (at_swapped a 1 n n), Z.eqb_refl by lia. apply Permutation_cons_append. }
    exists (slice a' 1 n). split; [|split; [|done]].
    + constructor; [by symmetry|]. intros y. rewrite <- He, elem_of_slice. intros (i & Hi & ->).
      apply (root_first below (λ x y z (H : below x y) H', comp_trans z y x H' H) comp_refl a n); [done|lia].
    + split; cbn [h_arr arr_len heap_size]; [rewrite (ra_len _ _ _ _ H2), length_swapped; lia|lia|lia|done|].
      by replace (n - 1 + 1) with n by lia.
Qed.

Fixpoint heap_ops (fuel : nat) (ops : list pq_op) : M hctx (list (option Z)) :=
  match ops with
  | [] => mret []
  | op :: ops => r ← heap_op fuel op; rs ← heap_ops fuel ops; mret (r :: rs)
  end.

Inductive pq_steps (cap : Z) : list Z → list pq_op → list (option Z) → list Z → Prop :=
  | steps_nil ms : pq_steps cap ms [] [] ms
  | steps_cons ms op r ms' ops rs ms'' :
      pq_step cap ms op r ms' → pq_steps cap ms' ops rs ms'' → pq_steps cap ms (op :: ops) (r :: rs) ms''.

Lemma heap_op_ok fuel op s ms :
  pq_ok s ms → arr_len s ≤ Z.of_nat fuel →
  wp (heap_op fuel op) (λ r s', ∃ ms', pq_step (arr_len s) ms op r ms' ∧ pq_ok s' ms' ∧ arr_len s' = arr_len s) s.
Proof using TC. destruct op; [apply insert_ok|apply heap_pop_ok]. Qed.

(** C33: a heap used through [heap_insert] and [heap_pop] implements a bounded priority queue: in
    any sequence of calls each insertion adds its element or, when the array is full, reports -1 and
    changes nothing, and each removal takes out an element that is first in the order of the
    comparison, or reports -1 when there is none. *)
Theorem heap_refines_queue fuel ops s ms :
  pq_ok s ms → arr_len s ≤ Z.of_nat fuel →
  wp (heap_ops fuel ops) (λ rs s', ∃ ms', pq_steps (arr_len s) ms ops rs ms' ∧ pq_ok s' ms') s.
Proof using TC.
  revert s ms. induction ops as [|op ops IH]; intros s ms Hs Hf; cbn [heap_ops].
  - apply wp_ret. exists ms. split; [constructor|done].
  - eapply wp_bind_mono; [by apply heap_op_ok|]. cbv beta. intros r s1 (ms1 & Hst & Hs1 & Hlen).
    eapply wp_bind_mono; [apply (IH s1 ms1 Hs1); lia|]. cbv beta. intros rs s2 (ms2 & Hsts & Hs2).
    apply wp_ret. exists ms2. split; [|done]. rewrite Hlen in Hsts. by econstructor.
Qed.

(** ** Heapsort *)

Lemma above_trans x y z : above x y → above y z → above x z.
Proof using TC. unfold above. intros ??. by apply (comp_trans _ y). Qed.
Lemma above_bad x y : negb (comp x y) = true → above y x.
Proof using TC. intros E%negb_true_iff. by apply comp_total. Qed.
Lemma above_good x y : negb (comp x y) = false → above x y.
Proof using Type. by intros E%negb_false_iff. Qed.

Lemma percolateDown_root fuel a cap n :
  0 ≤ n → n < len a → n < 2 ^ 30 → n ≤ Z.of_nat fuel → heap_but above (λ j, j / 2 = 1) a n 1 →
  wp (percolateDown comp fuel ROOT)
    (λ _ s, ∃ a', s = Hctx a' cap n ∧ heap_from above a' n 1 ∧ rearr 1 (n + 1) a a') (Hctx a cap n).
Proof using TC.
  intros. unfold percolateDown. apply wp_bind, wp_gets, wp_on_harr. cbn [h_arr heap_size arr_len].
  eapply wp_mono; [by apply (sift_root above _ above_trans above_good above_bad)|]. eauto.
Qed.

Lemma build_heap_ok fuel a cap m :
  len a = cap + 1 → 0 ≤ cap < 2 ^ 30 → cap ≤ Z.of_nat fuel →
  wp (build_heap comp fuel)
    (λ _ s, ∃ a', s = Hctx a' cap cap ∧ heap_from above a' cap 1 ∧ rearr 1 (cap + 1) a a') (Hctx a cap m).
Proof using TC.
  intros Hl Hc Hf. unfold build_heap. apply wp_bind, wp_gets. cbn [arr_len]. apply wp_bind, wp_modify.
  unfold set_heap_size. cbn [h_arr arr_len heap_size]. rewrite swrap_small by lia. apply wp_bind, wp_gets. cbn [heap_size].
  eapply wp_mono; [apply (wp_for_down _ _ (λ i s, ∃ a', s = Hctx a' cap cap ∧ heap_from above a' cap (i + 1) ∧ rearr 1 (cap + 1) a a'))|].
  - exists a. split; [done|]. split; [|apply rearr_refl]. intros i Hi Hl1.
    assert (i / 2 < i) by (apply Z.div_lt; lia). lia.
  - intros i s Hi (a1 & -> & Hh & Hr). unfold percolateDown. apply wp_bind, wp_gets, wp_on_harr. cbn [h_arr heap_size arr_len].
    pose proof (ra_len _ _ _ _ Hr).
    eapply wp_mono; [apply (sift_down_ok above _ above_trans above_good above_bad fuel cap i); try lia|].
    + intros j Hj Hlj Hne. apply Hh; [done|]. lia.
    + intros Hl1. assert (i / 2 < i) by (apply Z.div_lt; lia). lia.
    + cbv beta. intros _ a2 [H1 H2]. exists a2. replace (i - 1 + 1) with i by lia. split; [done|]. split; [done|].
      eapply rearr_trans; [done|]. eapply rearr_mono; [..|done]; lia.
  - cbv beta. intros _ s (a' & -> & Hh & Hr). by exists a'.
Qed.

(** Elements [i+1..cap] are in their final places. *)
Record sorting (a : list Z) (cap i : Z) (a' : list Z) : Prop := {
  so_heap : heap_from above a' i 1;
  so_rearr : rearr 1 (cap + 1) a a';
  so_done : ∀ j k, 1 ≤ j → j < k → i < k ≤ cap → comp (at_ a' k) (at_ a' j) = true;
}.

Lemma heapsort_round fuel a cap i a1 :
  len a = cap + 1 → 0 ≤ cap < 2 ^ 30 → cap ≤ Z.of_nat fuel → 0 < i ≤ cap → sorting a cap i a1 →
  wp (on_arr (swap i ROOT) ;; h ← gets heap_size; modify (set_heap_size (s32 (h - 1))) ;; percolateDown comp fuel ROOT)
    (λ _ s, ∃ a2, s = Hctx a2 cap (i - 1) ∧ sorting a cap (i - 1) a2) (Hctx a1 cap i).
Proof using TC.
  intros Hl Hc Hf Hi [Hh Hr Hd]. pose proof (ra_len _ _ _ _ Hr).
  apply wp_bind, wp_on_harr, wp_swap; cbn [h_arr arr_len heap_size]; [lia..|].
  apply wp_bind, wp_gets, wp_bind, wp_modify. unfold set_heap_size. cbn [h_arr arr_len heap_size].
  rewrite swrap_small by lia.
  eapply wp_mono; [apply percolateDown_root; rewrite ?length_swapped; try lia|].
  - intros j Hj Hlj Hne. assert (j / 2 < j) by (apply Z.div_lt; lia). rewrite !at_swapped by lia. bcase; try lia. apply Hh; lia.
  - cbv beta. intros _ s (a2 & -> & Hh2 & Hr2). exists a2. split; [done|].
    replace (i - 1 + 1) with i in Hr2 by lia. pose proof (ra_len _ _ _ _ Hr2) as Hl2. rewrite length_swapped in Hl2.
    split; [done| |].
    + eapply rearr_trans; [exact Hr|]. eapply rearr_trans; [|eapply rearr_mono; [..|exact Hr2]; lia].
      apply rearr_swapped; lia.
    + intros j k Hj Hjk Hk.
      assert (∃ j', at_ a2 j = at_ a1 j' ∧ (1 ≤ j' ≤ i ∨ j' = j)) as (j' & -> & Hj').
      { destruct (decide (j < i)).
        - destruct (ra_in _ _ _ _ Hr2 j) as (m & Hm & ->); [lia|]. rewrite at_swapped by lia. bcase; eexists; (split; [done|lia]).
        - rewrite (ra_out _ _ _ _ Hr2 j), at_swapped by lia. bcase; eexists; (split; [done|lia]). }
      rewrite (ra_out _ _ _ _ Hr2 k), at_swapped by lia. destruct (Z.eqb_spec k 1); [lia|].
      destruct (Z.eqb_spec k i) as [->|]; [|apply Hd; lia].
      apply (root_first above above_trans comp_refl a1 i); [done|lia].
Qed.

(** C34: [heapsort] ends and sorts the elements of the array, in the order in which a later one
    compares with an earlier one. *)
Theorem heapsort_correct fuel s :
  len (h_arr s) = arr_len s + 1 → 0 ≤ arr_len s < 2 ^ 30 → arr_len s ≤ Z.of_nat fuel →
  wp (heapsort comp fuel) (λ _ s',
    slice (h_arr s') 1 (arr_len s + 1) ≡ₚ slice (h_arr s) 1 (arr_len s + 1) ∧
    (∀ i j, 1 ≤ i → i < j → j ≤ arr_len s → comp (at_ (h_arr s') j) (at_ (h_arr s') i) = true) ∧
    at_ (h_arr s') 0 = at_ (h_arr s) 0 ∧ heap_size s' = 0) s.
Proof using TC.
  destruct s as [a cap m]. cbn [h_arr arr_len]. intros Hl Hc Hf. unfold heapsort.
  eapply wp_bind_mono; [by apply build_heap_ok|]. cbv beta. intros [] s (a1 & -> & Hh & Hr).
  apply wp_bind, wp_gets. cbn [arr_len]. rewrite swrap_small by lia.
  eapply wp_mono; [apply (wp_for_down _ _ (λ i s, ∃ a', s = Hctx a' cap i ∧ sorting a cap i a'))|].
  - rewrite Z2Nat.id by lia. exists a1. split; [done|]. split; [done|done|]. intros j k. lia.
  - intros i s Hi (a2 & -> & Hs). apply (heapsort_round fuel a cap i a2); try done; lia.
  - cbv beta. intros _ s (a2 & -> & [_ Hr2 Hd]). cbn [h_arr heap_size].
    split; [apply (slice_rearr _ _ _ _ Hr2); lia|]. split; [intros i j Hi Hij Hj; apply Hd; lia|].
    split; [|done]. apply (ra_out _ _ _ _ Hr2); lia.
Qed.
End heap.

(** ** The comparison of the test program *)

#[export] Instance geb_total : TotalComp Z.geb.
Proof. split; intros *; rewrite !Z.geb_leb; [rewrite Z.leb_gt, Z.leb_le; lia|rewrite !Z.leb_le; lia]. Qed.

Lemma heap_refines_queue_witness :
  wp (heap_ops Z.geb 3 [Insert 7; Insert 3; Pop])
    (λ rs s', ∃ ms', pq_steps Z.geb 3 [5] [Insert 7; Insert 3; Pop] rs ms' ∧ pq_ok Z.geb s' ms') (Hctx [0; 5; 0; 0] 3 1).
Proof.
  apply (heap_refines_queue Z.geb); [|done]. split; [done|done|done| |done]. intros i Hi Hl. cbn in Hi. lia.
Defined.

Lemma heapsort_correct_witness :
  wp (heapsort Z.geb 4) (λ _ s',
    slice (h_arr s') 1 5 ≡ₚ [4; 9; 1; 4] ∧
    (∀ i j, 1 ≤ i → i < j → j ≤ 4 → (at_ (h_arr s') j >=? at_ (h_arr s') i) = true) ∧
    at_ (h_arr s') 0 = 0 ∧ heap_size s' = 0) (Hctx [0; 4; 9; 1; 4] 4 0).
Proof. apply (heapsort_correct Z.geb); done. Defined.
