(* ===== verification/Ufds.v ===== *)
(** * Union-find ([libc/datastructures/ufds/ufds.c])

    Three arrays and a counter.  The blocks [malloc] returns have any contents: it is a parameter, the
    list of its answers. *)

From stdpp Require Import relations.
From S2P Require Import Prelude Loops Arrays.

(* src/libc/datastructures/ufds/ufds.h 12-43 ufds *)
Record ufds := Ufds { uf_rank : list Z; uf_parent : list Z; uf_size : list Z; uf_len : Z; num_sets : Z }.

Definition on_rank {A} (m : M (list Z) A) : M ufds A := λ u,
  match m (uf_rank u) with
  | Ok (x, a) => Ok (x, Ufds a (uf_parent u) (uf_size u) (uf_len u) (num_sets u))
  | Panic msg => Panic msg | Halt => Halt | Fault a => Fault a | OutOfFuel => OutOfFuel
  end.
Definition on_parent {A} (m : M (list Z) A) : M ufds A := λ u,
  match m (uf_parent u) with
  | Ok (x, a) => Ok (x, Ufds (uf_rank u) a (uf_size u) (uf_len u) (num_sets u))
  | Panic msg => Panic msg | Halt => Halt | Fault a => Fault a | OutOfFuel => OutOfFuel
  end.
Definition on_size {A} (m : M (list Z) A) : M ufds A := λ u,
  match m (uf_size u) with
  | Ok (x, a) => Ok (x, Ufds (uf_rank u) (uf_parent u) a (uf_len u) (num_sets u))
  | Panic msg => Panic msg | Halt => Halt | Fault a => Fault a | OutOfFuel => OutOfFuel
  end.

(** [memset(a, 0, n)] on an array of [int]s: [n] counts bytes, of which an [int] has four, the lowest
    first. *)
Fixpoint memset_ints (n : Z) (a : list Z) : list Z :=
  match a with
  | [] => []
  | x :: a =>
      if 4 <=? n then 0 :: memset_ints (n - 4) a
      else s32 (u32 x - u32 x .& (1 .<< (8 * n) - 1)) :: a
  end.

(** The answers of the four calls of [malloc], the last three with the contents of the block, and
    what is in the memory of [num_sets], which is not set. *)
(* src/libc/datastructures/ufds/ufds.c 7-42 UnionFind *)
Definition UnionFind (malloc : bool * option (list Z) * option (list Z) * option (list Z)) (sets size : Z)
    : outcome (option ufds) :=
  let '(ret, rank, parent, sz) := malloc in
  if negb ret then Ok None else
  match rank with None => Ok None | Some rank =>
  match parent with None => Ok None | Some parent =>
  match sz with None => Ok None | Some sz =>
    match for_up (Z.to_nat size) 0 (λ i, st i i) parent with
    | Ok (_, parent) => Ok (Some (Ufds (memset_ints size rank) parent (memset_ints size sz) size sets))
    | Fault a => Fault a | Panic m => Panic m | Halt => Halt | OutOfFuel => OutOfFuel
    end
  end end end.

(* src/libc/datastructures/ufds/ufds.c 44-49 findSet *)
Fixpoint findSet (fuel : nat) (i : Z) : M (list Z) Z :=
  p ← ld i;
  if p =? i then mret i else
  match fuel with
  | O => out_of_fuel
  | S fuel =>
      r ← findSet fuel p;
      st i r ;;
      mret r
  end.

(** The operands of [==] are evaluated from left to right. *)
(* src/libc/datastructures/ufds/ufds.c 51-53 in_same_set *)
Definition in_same_set (fuel : nat) (i j : Z) : M ufds bool :=
  a ← on_parent (findSet fuel i);
  b ← on_parent (findSet fuel j);
  mret (a =? b).

(** The root with the smaller rank gets the other as its parent. *)
(* src/libc/datastructures/ufds/ufds.c 58-67 unionSet *)
Definition link (ri rj : Z) : M ufds unit :=
  x ← on_rank (ld ri);
  y ← on_rank (ld rj);
  if x <? y then
    on_parent (st ri rj) ;;
    z ← on_size (ld rj);
    on_size (st rj (s32 (z + 1)))
  else
    on_parent (st rj ri) ;;
    when (x =? y) (
      y ← on_rank (ld rj);
      on_rank (st rj (s32 (y + 1))) ;;
      z ← on_size (ld rj);
      on_size (st rj (s32 (z + 1)))).

(* src/libc/datastructures/ufds/ufds.c 55-70 unionSet *)
Definition unionSet (fuel : nat) (i j : Z) : M ufds unit :=
  same ← in_same_set fuel i j;
  if (same : bool) then mret tt else
  ri ← on_parent (findSet fuel i);
  rj ← on_parent (findSet fuel j);
  link ri rj ;;
  modify (λ u, Ufds (uf_rank u) (uf_parent u) (uf_size u) (uf_len u) (s32 (num_sets u - 1))).

(** * The theorems about union-find *)

(** ** The forest in the parent array *)

(** [k] steps lead from [i] to the root [r]. *)
Inductive reach (p : list Z) : nat → Z → Z → Prop :=
  | reach_root i : 0 ≤ i < len p → at_ p i = i → reach p 0 i i
  | reach_step k i r : 0 ≤ i < len p → at_ p i ≠ i → reach p k (at_ p i) r → reach p (S k) i r.

Definition forest (p : list Z) : Prop := ∀ i, 0 ≤ i < len p → ∃ k r, reach p k i r.

(** [r] represents [i]. *)
Definition rep (p : list Z) (i r : Z) : Prop := ∃ k, reach p k i r.

Lemma reach_det p k i r : reach p k i r → ∀ k' r', reach p k' i r' → k' = k ∧ r' = r.
Proof.
  induction 1 as [i Hi E|k i r Hi N _ IH]; intros k' r' H'; inversion H' as [? ? ?|? ? ? ? ? H1]; subst; try done.
  by destruct (IH _ _ H1) as [-> ->].
Qed.

Lemma rep_det p i r r' : rep p i r → rep p i r' → r' = r.
Proof. intros [k H] [k' H']. by destruct (reach_det _ _ _ _ H _ _ H'). Qed.

Lemma reach_range p k i r : reach p k i r → 0 ≤ i < len p ∧ 0 ≤ r < len p ∧ at_ p r = r.
Proof. induction 1; naive_solver. Qed.

Lemma reach_self p k i r : reach p k i r → at_ p i = i → r = i ∧ k = 0%nat.
Proof. intros H. by inversion H. Qed.

(** A path visits no element twice, so it is shorter than the array. *)
Lemma reach_nodes p k i r : reach p k i r →
  ∃ l, length l = S k ∧ NoDup l ∧ ∀ x, x ∈ l → 0 ≤ x < len p ∧ ∃ k', (k' ≤ k)%nat ∧ reach p k' x r.
Proof.
  induction 1 as [i Hi E|k i r Hi N Hr (l & Hlen & Hnd & Hl)].
  - exists [i]. split; [done|]. split; [apply NoDup_singleton|]. intros x ->%list_elem_of_singleton.
    split; [done|]. exists 0%nat. split; [lia|by constructor].
  - exists (i :: l). cbn [length]. split; [lia|]. split.
    + apply NoDup_cons. split; [|done]. intros Hin. destruct (Hl i Hin) as (_ & k' & Hk' & Hr').
      destruct (reach_det p (S k) i r (reach_step _ _ _ _ Hi N Hr) _ _ Hr'). lia.
    + intros x [->|Hx]%elem_of_cons.
      * split; [done|]. exists (S k). split; [lia|by constructor].
      * destruct (Hl x Hx) as (? & k' & ? & ?). split; [done|]. exists k'. split; [lia|done].
Qed.

Lemma reach_short p k i r : reach p k i r → (k < length p)%nat.
Proof.
  intros (l & Hlen & Hnd & Hl)%reach_nodes.
  assert (length l ≤ length (seqZ 0 (len p)))%nat as H.
  { apply submseteq_length, NoDup_submseteq; [done|]. intros x Hx. apply elem_of_seqZ. apply Hl in Hx as [? _]. lia. }
  rewrite length_seqZ in H. lia.
Qed.

(** ** Changing one parent *)

(** An element that is not a root gets its root as parent. *)
Lemma compress_reach p i r : rep p i r → at_ p i ≠ i →
  ∀ k x s, reach p k x s → ∃ k', (k' ≤ k)%nat ∧ reach (upd p i r) k' x s.
Proof.
  intros [ki Hi] N. destruct (reach_range _ _ _ _ Hi) as (Ri & Rr & Er).
  assert (r ≠ i) as Hri by congruence.
  induction 1 as [x Hx E|k x s Hx Nx H (k' & Hk & IH)].
  - exists 0%nat. split; [done|]. constructor; [by rewrite length_upd|]. rewrite at_upd by lia.
    bcase; congruence.
  - destruct (decide (x = i)) as [->|Hne].
    + destruct (reach_det _ _ _ _ Hi _ _ (reach_step _ _ _ _ Hx Nx H)) as [_ ->].
      exists 1%nat. split; [lia|]. assert (at_ (upd p i r) i = r) as Eu by (rewrite at_upd by lia; by rewrite Z.eqb_refl).
      constructor; [by rewrite length_upd|by rewrite Eu|]. rewrite Eu. constructor; [by rewrite length_upd|].
      rewrite at_upd by lia. bcase; congruence.
    + exists (S k'). split; [lia|].
      assert (at_ (upd p i r) x = at_ p x) as Eu by (rewrite at_upd by lia; bcase; done).
      constructor; [by rewrite length_upd|by rewrite Eu|by rewrite Eu].
Qed.

(** [p'] is a forest with the same representatives. *)
Definition same_reps (p p' : list Z) : Prop := length p' = length p ∧ ∀ x s, rep p x s → rep p' x s.

Lemma same_reps_refl p : same_reps p p.
Proof. done. Qed.
Lemma same_reps_trans p p' p'' : same_reps p p' → same_reps p' p'' → same_reps p p''.
Proof. intros [? H1] [? H2]. split; [congruence|]. intros x s Hr. by apply H2, H1. Qed.
Lemma same_reps_forest p p' : same_reps p p' → forest p → forest p'.
Proof.
  intros [Hl H] Hf i Hi. rewrite Hl in Hi. destruct (Hf i Hi) as (k & r & Hr). destruct (H i r) as [k' Hk']; [by exists k|eauto].
Qed.

Lemma findSet_ok fuel : ∀ k i r p,
  reach p k i r → (k ≤ fuel)%nat → wp (findSet fuel i) (λ r' p', r' = r ∧ same_reps p p') p.
Proof.
  induction fuel as [|fuel IH]; intros k i r p H Hk; cbn [findSet];
    destruct (reach_range _ _ _ _ H) as (Ri & Rr & Er); (apply wp_bind, wp_ld; [done|]);
    destruct (Z.eqb_spec (at_ p i) i) as [E|N]; try (apply wp_ret; by destruct (reach_self _ _ _ _ H E) as [-> _]).
  - inversion H; subst; [done|lia].
  - inversion H as [|k1 ? ? ? ? Ha]; subst; [done|].
    eapply wp_bind_mono; [apply (IH _ _ _ _ Ha); lia|]. cbv beta. intros r' p' (-> & Hl & Hs).
    assert (rep p' i r) as Hrep by (apply Hs; by exists (S k1)).
    assert (at_ p' i ≠ i) as N'.
    { intros E'. destruct Hrep as [k2 Hb]. destruct (reach_self _ _ _ _ Hb E') as [-> _]. congruence. }
    apply wp_bind, wp_st; [by rewrite Hl|]. apply wp_ret. split; [done|]. split; [by rewrite length_upd|].
    intros x s [k2 Hb]%Hs. destruct (compress_reach p' i r Hrep N' _ _ _ Hb) as (k3 & _ & Hc). by exists k3.
Qed.

Lemma findSet_rep p i : forest p → 0 ≤ i < len p → ∀ fuel, (length p ≤ fuel)%nat →
  wp (findSet fuel i) (λ r p', rep p i r ∧ same_reps p p') p.
Proof.
  intros Hf Hi fuel Hfuel. destruct (Hf i Hi) as (k & r & H). pose proof (reach_short _ _ _ _ H).
  eapply wp_mono; [apply (findSet_ok fuel k i r p H); lia|]. cbv beta. intros r' p' [-> ?]. split; [by exists k|done].
Qed.

(** A root gets another root as parent. *)
Lemma link_reach p a b : 0 ≤ a < len p → 0 ≤ b < len p → at_ p a = a → at_ p b = b → a ≠ b →
  ∀ k x s, reach p k x s → rep (upd p a b) x (if decide (s = a) then b else s).
Proof.
  intros Ha Hb Ea Eb Hab.
  assert (at_ (upd p a b) a = b) as Ua by (rewrite at_upd by lia; by rewrite Z.eqb_refl).
  assert (∀ x, 0 ≤ x < len p → x ≠ a → at_ (upd p a b) x = at_ p x) as Ux by (intros; rewrite at_upd by lia; bcase; done).
  assert (rep (upd p a b) a b) as Hrab.
  { exists 1%nat. constructor; [by rewrite length_upd|congruence|]. rewrite Ua. constructor; [by rewrite length_upd|].
    by rewrite Ux. }
  induction 1 as [x Hx E|k x s Hx Nx H [k' IH]].
  - destruct (decide (x = a)) as [->|]; [done|]. exists 0%nat. constructor; [by rewrite length_upd|]. by rewrite Ux.
  - assert (x ≠ a) by congruence. exists (S k'). constructor; [by rewrite length_upd| |]; rewrite Ux by done; done.
Qed.

(** ** Connectedness *)

(** [x] and [y] are connected by the pairs of [ps]. *)
Definition connected (ps : list (Z * Z)) : Z → Z → Prop := rtsc (λ x y, (x, y) ∈ ps).

Lemma connected_mono ps q x y : connected ps x y → connected (q :: ps) x y.
Proof.
  unfold connected, rtsc. apply rtc_subrel. intros a b [|]; [apply sc_lr|apply sc_rl]; by right.
Qed.

Lemma connected_cons ps i j x y :
  connected ((i, j) :: ps) x y ↔
  connected ps x y ∨ (connected ps x i ∧ connected ps j y) ∨ (connected ps x j ∧ connected ps i y).
Proof.
  split.
  - induction 1 as [x|x y z Hs _ IH]; [left; reflexivity|].
    assert (connected ps x y ∨ x = i ∧ y = j ∨ x = j ∧ y = i) as H.
    { destruct Hs as [H|H]; (apply elem_of_cons in H as [H|H]; [injection H as -> ->; by auto|left]);
        [by apply rtsc_lr|by apply rtsc_rl]. }
    destruct H as [H|[[-> ->]|[-> ->]]].
    + destruct IH as [IH|[[H1 H2]|[H1 H2]]]; [left|right; left; split; [|done]|right; right; split; [|done]]; by etrans.
    + destruct IH as [IH|[[H1 H2]|[H1 H2]]]; [right; left|right; left|left]; try done; split; done || reflexivity.
    + destruct IH as [IH|[[H1 H2]|[H1 H2]]]; [right; right|left|right; right]; try done; split; done || reflexivity.
  - assert (connected ((i, j) :: ps) i j) as Hij by (apply rtsc_lr; left).
    intros [H|[[H1 H2]|[H1 H2]]]; [by apply connected_mono| |]; apply (connected_mono _ (i, j)) in H1, H2.
    + etrans; [exact H1|]. by etrans.
    + etrans; [exact H1|]. etrans; [symmetry; exact Hij|done].
Qed.

(** ** The structure *)

(** The sets of [u] are those that [ps] connects. *)
Record uf_ok (u : ufds) (ps : list (Z * Z)) : Prop := {
  uo_len : len (uf_parent u) = uf_len u;
  uo_rank : length (uf_rank u) = length (uf_parent u);
  uo_size : length (uf_size u) = length (uf_parent u);
  uo_forest : forest (uf_parent u);
  uo_sets x y r s : rep (uf_parent u) x r → rep (uf_parent u) y s → r = s ↔ connected ps x y;
}.

Definition set_parent (p : list Z) (u : ufds) : ufds := Ufds (uf_rank u) p (uf_size u) (uf_len u) (num_sets u).

Lemma wp_on_parent {A} (m : M (list Z) A) (Q : A → ufds → Prop) u :
  wp m (λ x p, Q x (set_parent p u)) (uf_parent u) → wp (on_parent m) Q u.
Proof. unfold wp, on_parent. by destruct (m (uf_parent u)) as [[x p]| | | |]. Qed.

Lemma same_reps_ok u p ps : same_reps (uf_parent u) p → uf_ok u ps → uf_ok (set_parent p u) ps.
Proof.
  intros Hs [H1 H2 H3 H4 H5]. split; cbn [set_parent uf_parent uf_rank uf_size uf_len]; rewrite ?(proj1 Hs); try done.
  - by eapply same_reps_forest.
  - intros x y r s Hx Hy.
    assert (∀ z t, rep p z t → rep (uf_parent u) z t) as Hback.
    { intros z t Hz. destruct (H4 z) as (k & t' & Ht'); [destruct Hz as [? (? & _)%reach_range]; by rewrite <- (proj1 Hs)|].
      assert (rep (uf_parent u) z t') as Hr by by exists k. by rewrite (rep_det p z t t') in Hr by (try done; by apply Hs). }
    by apply H5; apply Hback.
Qed.

Lemma find_ok u ps i fuel (Q : Z → ufds → Prop) :
  uf_ok u ps → 0 ≤ i < uf_len u → uf_len u ≤ Z.of_nat fuel →
  (∀ r p, rep (uf_parent u) i r → same_reps (uf_parent u) p → Q r (set_parent p u)) →
  wp (on_parent (findSet fuel i)) Q u.
Proof.
  intros Ho Hi Hf HQ. apply wp_on_parent. pose proof (uo_len _ _ Ho).
  eapply wp_mono; [apply findSet_rep; [apply Ho|lia|lia]|]. cbv beta. intros r p [? ?]. by apply HQ.
Qed.

(** The sets, the ranks, the sizes and the counter are those of [u]. *)
Definition tidied (u u' : ufds) : Prop := ∃ p, u' = set_parent p u ∧ same_reps (uf_parent u) p.

Lemma tidied_trans u u' u'' : tidied u u' → tidied u' u'' → tidied u u''.
Proof. intros (p & -> & ?) (p' & -> & ?). exists p'. split; [done|]. by eapply same_reps_trans. Qed.

Lemma in_same_set_ok u ps i j fuel :
  uf_ok u ps → 0 ≤ i < uf_len u → 0 ≤ j < uf_len u → uf_len u ≤ Z.of_nat fuel →
  wp (in_same_set fuel i j) (λ b u', (b = true ↔ connected ps i j) ∧ tidied u u') u.
Proof.
  intros Ho Hi Hj Hf. unfold in_same_set. apply wp_bind. eapply find_ok; [done..|]. intros r p Hr Hp.
  apply wp_bind. eapply (find_ok _ ps); [by apply same_reps_ok|done..|]. intros s p' Hs Hp'. apply wp_ret.
  cbn [set_parent uf_parent] in Hs, Hp'. split.
  - rewrite Z.eqb_eq. apply (uo_sets _ _ (same_reps_ok u p ps Hp Ho)); cbn [set_parent uf_parent]; [by apply Hp|done].
  - exists p'. split; [done|]. by eapply same_reps_trans.
Qed.

(** ** Counting the sets *)

Definition roots (p : list Z) : gset Z := filter (λ i, at_ p i = i) (list_to_set (seqZ 0 (len p))).

Lemma elem_of_roots p i : i ∈ roots p ↔ 0 ≤ i < len p ∧ at_ p i = i.
Proof. unfold roots. rewrite elem_of_filter, elem_of_list_to_set, elem_of_seqZ. naive_solver lia. Qed.

Lemma root_rep p i : forest p → i ∈ roots p ↔ rep p i i.
Proof.
  intros Hf. rewrite elem_of_roots. split.
  - intros [Hi E]. exists 0%nat. by constructor.
  - intros [k H]. by destruct (reach_range _ _ _ _ H) as (? & _ & ?).
Qed.

Lemma same_reps_roots p p' : same_reps p p' → forest p → roots p' = roots p.
Proof.
  intros Hs Hf. apply set_eq. intros i. rewrite !root_rep by (try done; by eapply same_reps_forest).
  split; [|apply Hs]. intros H. pose proof H as [k (Hi & _)%reach_range]. rewrite (proj1 Hs) in Hi.
  destruct (Hf i Hi) as (k' & r & Hr). assert (rep p i r) as Hr' by by exists k'.
  by rewrite (rep_det p' i i r) in Hr' by (try done; by apply Hs).
Qed.

Lemma link_roots p a b : 0 ≤ a < len p → at_ p a = a → a ≠ b → roots (upd p a b) = roots p ∖ {[a]}.
Proof.
  intros Ha Ea Hab. apply set_eq. intros i. rewrite elem_of_difference, elem_of_singleton, !elem_of_roots, length_upd.
  destruct (decide (0 ≤ i < len p)) as [Hi|Hi]; [|naive_solver]. rewrite at_upd by lia. bcase; naive_solver.
Qed.

Lemma roots_size p a : 0 ≤ a < len p → at_ p a = a → Z.of_nat (size (roots p ∖ {[a]})) = Z.of_nat (size (roots p)) - 1.
Proof.
  intros Ha Ea. rewrite size_difference by (apply singleton_subseteq_l, elem_of_roots; done). rewrite size_singleton.
  assert (size (roots p) ≠ 0%nat); [|lia]. intros E%size_empty_inv. assert (a ∈ roots p) as Hin by by apply elem_of_roots.
  by rewrite E in Hin.
Qed.

(** ** Union *)

(** Linking two roots [a] and [b] unites the sets of [i] and [j] that they represent. *)
Lemma link_ok u ps i j a b u' :
  uf_ok u ps → rep (uf_parent u) i a → rep (uf_parent u) j b → a ≠ b →
  uf_parent u' = upd (uf_parent u) a b → length (uf_rank u') = length (uf_rank u) →
  length (uf_size u') = length (uf_size u) → uf_len u' = uf_len u → uf_ok u' ((i, j) :: ps).
Proof.
  intros [H1 H2 H3 H4 H5] Hi Hj Hab Ep Er Es El.
  destruct Hi as [ki Hi], Hj as [kj Hj].
  destruct (reach_range _ _ _ _ Hi) as (_ & Ra & Ea), (reach_range _ _ _ _ Hj) as (_ & Rb & Eb).
  pose proof (link_reach _ a b Ra Rb Ea Eb Hab) as Hlink. rewrite <- Ep in Hlink.
  assert (∀ x s, rep (uf_parent u') x s → ∃ t, rep (uf_parent u) x t ∧ s = if decide (t = a) then b else t) as Hback.
  { intros x s Hx. destruct (H4 x) as (k & t & Ht).
    - destruct Hx as [? (? & _)%reach_range]. by rewrite Ep, length_upd in *.
    - exists t. split; [by exists k|]. exact (rep_det (uf_parent u') x _ s (Hlink _ _ _ Ht) Hx). }
  split; rewrite ?Ep, ?length_upd, ?Er, ?Es, ?El; try done; rewrite <- ?Ep.
  - intros x Hx. rewrite Ep, length_upd in Hx. destruct (H4 x Hx) as (k & t & Ht).
    destruct (Hlink _ _ _ Ht) as [k' Hk']. eauto.
  - intros x y r s Hx Hy. destruct (Hback _ _ Hx) as (t & Ht & ->), (Hback _ _ Hy) as (v & Hv & ->).
    rewrite connected_cons. rewrite <- (H5 x y t v Ht Hv).
    rewrite <- (H5 x i t a Ht (ex_intro _ ki Hi)), <- (H5 j y b v (ex_intro _ kj Hj) Hv),
      <- (H5 x j t b Ht (ex_intro _ kj Hj)), <- (H5 i y a v (ex_intro _ ki Hi) Hv).
    destruct (decide (t = a)), (decide (v = a)); naive_solver.
Qed.

Lemma connected_swap ps i j x y : connected ((i, j) :: ps) x y ↔ connected ((j, i) :: ps) x y.
Proof. rewrite !connected_cons. tauto. Qed.

Lemma uf_ok_iff u ps ps' : (∀ x y, connected ps x y ↔ connected ps' x y) → uf_ok u ps → uf_ok u ps'.
Proof. intros E [? ? ? ? H]. split; try done. intros x y r s Hx Hy. rewrite <- E. by apply H. Qed.

(** The counter is off by [c] from the number of sets. *)
Definition counts (c : Z) (u : ufds) : Prop := num_sets u = s32 (c + Z.of_nat (size (roots (uf_parent u)))).

Lemma s32_pred x : s32 (x - 1) = s32 (s32 x - 1).
Proof.
  unfold swrap. f_equal.
  replace ((x + 2 ^ (32 - 1)) mod 2 ^ 32 - 2 ^ (32 - 1) - 1 + 2 ^ (32 - 1)) with ((x + 2 ^ (32 - 1)) mod 2 ^ 32 - 1) by lia.
  rewrite Zminus_mod_idemp_l. f_equal. lia.
Qed.

Lemma wp_on_rank {A} (m : M (list Z) A) (Q : A → ufds → Prop) u :
  wp m (λ x a, Q x (Ufds a (uf_parent u) (uf_size u) (uf_len u) (num_sets u))) (uf_rank u) → wp (on_rank m) Q u.
Proof. unfold wp, on_rank. by destruct (m (uf_rank u)) as [[x a]| | | |]. Qed.
Lemma wp_on_size {A} (m : M (list Z) A) (Q : A → ufds → Prop) u :
  wp m (λ x a, Q x (Ufds (uf_rank u) (uf_parent u) a (uf_len u) (num_sets u))) (uf_size u) → wp (on_size m) Q u.
Proof. unfold wp, on_size. by destruct (m (uf_size u)) as [[x a]| | | |]. Qed.

Lemma link_wp u ri rj :
  0 ≤ ri < len (uf_parent u) → 0 ≤ rj < len (uf_parent u) →
  length (uf_rank u) = length (uf_parent u) → length (uf_size u) = length (uf_parent u) →
  wp (link ri rj) (λ _ u', ∃ a b, (a = ri ∧ b = rj ∨ a = rj ∧ b = ri) ∧ uf_parent u' = upd (uf_parent u) a b ∧
    length (uf_rank u') = length (uf_rank u) ∧ length (uf_size u') = length (uf_size u) ∧
    uf_len u' = uf_len u ∧ num_sets u' = num_sets u) u.
Proof.
  intros Hi Hj Hr Hs. destruct u as [rk p sz n c]. cbn [uf_rank uf_parent uf_size uf_len num_sets] in *. unfold link.
  apply wp_bind, wp_on_rank, wp_ld; [cbn; lia|]. apply wp_bind, wp_on_rank, wp_ld; [cbn; lia|]. destruct (_ <? _).
  - apply wp_bind, wp_on_parent, wp_st; [cbn; lia|]. apply wp_bind, wp_on_size, wp_ld; [cbn; lia|].
    apply wp_on_size, wp_st; [cbn; lia|]. cbn. exists ri, rj. rewrite length_upd. naive_solver.
  - apply wp_bind, wp_on_parent, wp_st; [cbn; lia|]. cbn. unfold when. destruct (_ =? _).
    + apply wp_bind, wp_on_rank, wp_ld; [cbn; lia|]. apply wp_bind, wp_on_rank, wp_st; [cbn; lia|].
      apply wp_bind, wp_on_size, wp_ld; [cbn; lia|]. apply wp_on_size, wp_st; [cbn; lia|].
      cbn. exists rj, ri. rewrite !length_upd. naive_solver.
    + apply wp_ret. cbn. exists rj, ri. naive_solver.
Qed.

Lemma tidied_ok u u' ps c : tidied u u' → uf_ok u ps → counts c u → uf_ok u' ps ∧ counts c u' ∧ uf_len u' = uf_len u.
Proof.
  intros (p & -> & Hp) Ho Hc. split; [by apply same_reps_ok|]. split; [|done]. unfold counts in *. cbn.
  rewrite Hc. by rewrite (same_reps_roots _ p Hp (uo_forest _ _ Ho)).
Qed.

Lemma unionSet_ok u ps i j fuel c :
  uf_ok u ps → counts c u → 0 ≤ i < uf_len u → 0 ≤ j < uf_len u → uf_len u ≤ Z.of_nat fuel →
  wp (unionSet fuel i j) (λ _ u', uf_ok u' ((i, j) :: ps) ∧ counts c u' ∧ uf_len u' = uf_len u) u.
Proof.
  intros Ho Hc Hi Hj Hf. unfold unionSet. eapply wp_bind_mono; [by apply (in_same_set_ok u ps)|].
  cbv beta. intros same u1 [Hsame Ht1]. destruct (tidied_ok u u1 ps c Ht1 Ho Hc) as (O1 & C1 & L1).
  destruct same.
  - apply wp_ret. split; [|done]. eapply uf_ok_iff; [|exact O1]. intros x y. rewrite connected_cons.
    assert (connected ps i j) as Hij by by apply Hsame. split; [by left|].
    intros [?|[[? ?]|[? ?]]]; [done| |]; (etrans; [done|]); [by etrans|]. etrans; [symmetry; exact Hij|done].
  - apply wp_bind. eapply (find_ok u1 ps); [done|lia|lia|]. intros ri p2 Hri Hp2.
    destruct (tidied_ok u1 (set_parent p2 u1) ps c) as (O2 & C2 & L2); [by exists p2|done|done|].
    assert (rep p2 i ri) as Hri2 by by apply Hp2.
    apply wp_bind. eapply (find_ok _ ps); [done|lia|lia|]. intros rj p3 Hrj Hp3.
    set (u3 := set_parent p3 (set_parent p2 u1)).
    destruct (tidied_ok (set_parent p2 u1) u3 ps c) as (O3 & C3 & L3); [by exists p3|done|done|].
    assert (rep (uf_parent u3) i ri) as Hri3 by by apply Hp3.
    assert (rep (uf_parent u3) j rj) as Hrj3 by by apply Hp3.
    assert (ri ≠ rj) as Hne.
    { intros E. assert (connected ps i j) as Hij by by apply (uo_sets _ _ O3 i j ri rj). by apply Hsame in Hij. }
    pose proof Hri3 as [? (_ & Ri & Ei)%reach_range]. pose proof Hrj3 as [? (_ & Rj & Ej)%reach_range].
    eapply wp_bind_mono; [apply (link_wp u3 ri rj Ri Rj); apply O3|].
    cbv beta. intros [] u4 (a & b & Hab & Ep & Er & Es & El & En). apply wp_modify.
    set (u5 := Ufds _ _ _ _ _).
    assert (uf_ok u5 ((i, j) :: ps)) as O5.
    { destruct Hab as [[-> ->]|[-> ->]].
      - by apply (link_ok u3 ps i j ri rj u5).
      - eapply uf_ok_iff; [intros; apply connected_swap|]. by apply (link_ok u3 ps j i rj ri u5). }
    split; [done|]. split; [|unfold u5; cbn; rewrite El; lia].
    unfold counts, u5. cbn [num_sets uf_parent]. rewrite En, Ep, C3, <- s32_pred. f_equal.
    destruct Hab as [[-> ->]|[-> ->]]; rewrite link_roots, roots_size by (done || by apply not_eq_sym); lia.
Qed.

(** ** A sequence of unions *)

(** The pairs are united from the last one of the list on. *)
Fixpoint unite (fuel : nat) (ps : list (Z * Z)) : M ufds unit :=
  match ps with
  | [] => mret tt
  | (i, j) :: ps => unite fuel ps ;; unionSet fuel i j
  end.

Lemma unite_ok u c fuel ps :
  uf_ok u [] → counts c u → uf_len u ≤ Z.of_nat fuel →
  Forall (λ q, 0 ≤ q.1 < uf_len u ∧ 0 ≤ q.2 < uf_len u) ps →
  wp (unite fuel ps) (λ _ u', uf_ok u' ps ∧ counts c u' ∧ uf_len u' = uf_len u) u.
Proof.
  intros Ho Hc Hf. induction 1 as [|[i j] ps [Hi Hj] _ IH]; cbn [unite]; [by apply wp_ret|].
  eapply wp_bind_mono; [exact IH|]. cbv beta. intros [] u' (O' & C' & L'). cbn [fst snd] in *.
  eapply wp_mono; [apply (unionSet_ok u' ps i j fuel c); rewrite ?L'; done|]. cbv beta. rewrite L'. done.
Qed.

Lemma length_memset n a : length (memset_ints n a) = length a.
Proof. revert n. induction a as [|x a IH]; intros n; [done|]. cbn [memset_ints]. bcase; cbn [length]; [by rewrite IH|done]. Qed.

Lemma connected_nil x y : connected [] x y ↔ x = y.
Proof.
  split; [|intros ->; reflexivity]. induction 1 as [|x y z [H|H] _ _]; [done|..]; by apply not_elem_of_nil in H.
Qed.

(** A new structure has a set for every element, although the ranks, the sizes and the counter may
    be anything. *)
Lemma UnionFind_ok rank parent sz sets n :
  0 ≤ n → len rank = n → len parent = n → len sz = n → - 2 ^ 31 ≤ sets < 2 ^ 31 →
  ∃ u, UnionFind (true, Some rank, Some parent, Some sz) sets n = Ok (Some u) ∧ uf_ok u [] ∧ uf_len u = n ∧ counts (sets - n) u.
Proof.
  intros H0 Hr Hp Hs Hsets.
  assert (wp (for_up (Z.to_nat n) 0 (λ i, st i i)) (λ _ p, length p = length parent ∧ ∀ i, 0 ≤ i < n → at_ p i = i) parent) as Hw.
  { apply (wp_for_up_to n _ (λ k p, length p = length parent ∧ ∀ i, 0 ≤ i < k → at_ p i = i)); [lia|split; [done|lia]|].
    intros j p Hj [Hl Hat]. apply wp_st; [lia|]. rewrite length_upd. split; [done|]. intros i Hi.
    rewrite at_upd by lia. bcase; apply Hat; lia. }
  apply wp_inv in Hw as ([] & p & E & Hl & Hat). eexists. unfold UnionFind. cbn [negb]. rewrite E. split; [done|].
  assert (∀ i, 0 ≤ i < len p → rep p i i) as Hrep by (intros i Hi; exists 0%nat; constructor; [done|]; apply Hat; lia).
  split; [split|split]; cbn [uf_parent uf_rank uf_size uf_len]; rewrite ?length_memset; try lia.
  - intros i Hi. destruct (Hrep i Hi) as [k Hk]. eauto.
  - intros x y r s Hx Hy. rewrite connected_nil.
    assert (∀ x r, rep p x r → r = x) as Hself.
    { intros z t Hz. apply (rep_det p z); [|done]. destruct Hz as [? (? & _)%reach_range]. by apply Hrep. }
    by rewrite (Hself x r Hx), (Hself y s Hy).
  - unfold counts. cbn [num_sets uf_parent].
    assert (roots p = list_to_set (seqZ 0 (len p))) as ->.
    { apply set_eq. intros i. rewrite elem_of_roots, elem_of_list_to_set, elem_of_seqZ. split; [lia|].
      intros Hi. split; [lia|]. apply Hat. lia. }
    rewrite size_list_to_set by apply NoDup_seqZ. rewrite length_seqZ, swrap_small by lia. lia.
Qed.

(** C35: union-find decides connectedness.  Whatever the memory it is given contains, after any
    sequence of unions of pairs of its elements [in_same_set] says yes exactly for the elements that
    the pairs connect, and the counter has gone down by the number of sets that were lost. *)
Theorem union_find_correct rank parent sz sets n fuel ps i j :
  len rank = n → len parent = n → len sz = n → - 2 ^ 31 ≤ sets < 2 ^ 31 → n ≤ Z.of_nat fuel →
  Forall (λ q, 0 ≤ q.1 < n ∧ 0 ≤ q.2 < n) ps → 0 ≤ i < n → 0 ≤ j < n →
  ∃ u, UnionFind (true, Some rank, Some parent, Some sz) sets n = Ok (Some u) ∧
    wp (unite fuel ps ;; in_same_set fuel i j) (λ b u',
      (b = true ↔ connected ps i j) ∧
      num_sets u' = s32 (sets - n + Z.of_nat (size (roots (uf_parent u'))))) u.
Proof.
  intros Hr Hp Hs Hsets Hf Hps Hi Hj.
  destruct (UnionFind_ok rank parent sz sets n) as (u & E & Ho & L & Hc); [lia|done..|].
  exists u. split; [done|]. eapply wp_bind_mono; [apply (unite_ok u (sets - n) fuel ps); rewrite ?L; done|].
  cbv beta. intros [] u1 (O1 & C1 & L1). eapply wp_mono; [apply (in_same_set_ok u1 ps); rewrite ?L1, ?L; done|].
  cbv beta. intros b u2 [Hb Ht]. split; [done|]. by destruct (tidied_ok u1 u2 ps (sets - n) Ht O1 C1) as (_ & C2 & _).
Qed.

Lemma union_find_correct_witness :
  ∃ u, UnionFind (true, Some [7; 7; 7; -1], Some [0; 0; 0; 0], Some [1; 2; 3; 4]) 42 4 = Ok (Some u) ∧
    wp (unite 4 [(2, 3); (0, 2)] ;; in_same_set 4 0 3) (λ b u',
      (b = true ↔ connected [(2, 3); (0, 2)] 0 3) ∧
      num_sets u' = s32 (42 - 4 + Z.of_nat (size (roots (uf_parent u'))))) u.
Proof.
  apply union_find_correct; try done; repeat constructor; done.
Defined.
