(* ===== verification/Vector.v ===== *)
(** * Vectors ([libc/datastructures/linear/vector/vector.c])

    An array of pointers that grows and shrinks.  [realloc] is a parameter: [None] is its failure, and
    [Some l] a block with the contents [l] beyond what is kept of the old one. *)

From S2P Require Import Prelude Loops Arrays.

Abbreviation VECTOR_INIT_CAPACITY := 10%Z.

(* src/libc/datastructures/linear/vector/vector.h 7-11 vector *)
Record vector := Vector { v_items : list Z; v_capacity : Z; v_size : Z }.

Definition on_items {A} (m : M (list Z) A) : M vector A := λ v,
  match m (v_items v) with
  | Ok (x, a) => Ok (x, Vector a (v_capacity v) (v_size v))
  | Panic msg => Panic msg | Halt => Halt | Fault a => Fault a | OutOfFuel => OutOfFuel
  end.

(** [malloc] succeeds, with the contents [block]. *)
(* src/libc/datastructures/linear/vector/vector.c 9-15 vector_new *)
Definition vector_new (block : Z → list Z) : vector :=
  Vector (block VECTOR_INIT_CAPACITY) VECTOR_INIT_CAPACITY 0.

(* src/libc/datastructures/linear/vector/vector.c 24-26 vector_size *)
Definition vector_size : M vector Z := gets v_size.

(* src/libc/datastructures/linear/vector/vector.c 27-29 vector_empty *)
Definition vector_empty : M vector bool := n ← gets v_size; mret (n =? 0).

Section vector.
Context (realloc : Z → option (list Z)).

(* src/libc/datastructures/linear/vector/vector.c 32-38 vector_resize *)
Definition vector_resize (capacity : Z) : M vector unit :=
  match realloc capacity with
  | None => mret tt
  | Some l =>
      modify (λ v, let keep := take (Z.to_nat capacity) (v_items v) in
        Vector (keep ++ drop (length keep) l) capacity (v_size v))
  end.

(* src/libc/datastructures/linear/vector/vector.c 41-46 vector_add *)
Definition vector_add (elem : Z) : M vector unit :=
  v ← gets id;
  when (v_capacity v =? v_size v) (vector_resize (s32 (v_capacity v * 2))) ;;
  n ← gets v_size;
  modify (λ v, Vector (v_items v) (v_capacity v) (s32 (n + 1))) ;;
  on_items (st n elem).

(* src/libc/datastructures/linear/vector/vector.c 49-53 vector_set *)
Definition vector_set (index item : Z) : M vector unit :=
  n ← gets v_size;
  when ((0 <=? index) && (index <? n)) (on_items (st index item)).

(* src/libc/datastructures/linear/vector/vector.c 56-61 vector_get *)
Definition vector_get (index : Z) : M vector Z :=
  n ← gets v_size;
  if (0 <=? index) && (index <? n) then on_items (ld index) else mret 0.

(* src/libc/datastructures/linear/vector/vector.c 64-82 vector_rm *)
Definition vector_rm (index : Z) : M vector unit :=
  n ← gets v_size;
  if (index <? 0) || (n <=? index) then mret tt else
  on_items (st index 0) ;;
  on_items (for_up (Z.to_nat (n - 1 - index)) index (λ i,
    x ← ld (i + 1);
    st i x ;;
    st (i + 1) 0)) ;;
  modify (λ v, Vector (v_items v) (v_capacity v) (s32 (n - 1))) ;;
  v ← gets id;
  when ((0 <? v_size v) && (v_size v =? v_capacity v ÷ 4)) (vector_resize (v_capacity v ÷ 2)).
End vector.

(** * The theorems about vectors *)

(** The vector holds the elements [l]. *)
Record vec_ok (v : vector) (l : list Z) : Prop := {
  vo_len : len (v_items v) = v_capacity v;
  vo_cap : 2 ≤ v_capacity v;
  vo_size : len l = v_size v;
  vo_fits : v_size v ≤ v_capacity v;
  vo_elems : take (length l) (v_items v) = l;
}.

Lemma wp_on_items {A} (m : M (list Z) A) (Q : A → vector → Prop) v :
  wp m (λ x a, Q x (Vector a (v_capacity v) (v_size v))) (v_items v) → wp (on_items m) Q v.
Proof. unfold wp, on_items. by destruct (m (v_items v)) as [[x a]| | | |]. Qed.

(** ** The operations on a sequence *)

Inductive vec_op := Add (x : Z) | Set_ (i x : Z) | Get (i : Z) | Rm (i : Z) | Size | Empty.

Definition in_range (i : Z) (l : list Z) : bool := (0 <=? i) && (i <? len l).

(** What an operation does to a sequence of elements, and what it returns. *)
Definition seq_op (op : vec_op) (l : list Z) : list Z * Z :=
  match op with
  | Add x => (l ++ [x], 0)
  | Set_ i x => (if in_range i l then <[Z.to_nat i := x]> l else l, 0)
  | Get i => (l, if in_range i l then at_ l i else 0)
  | Rm i => (if in_range i l then delete (Z.to_nat i) l else l, 0)
  | Size => (l, len l)
  | Empty => (l, b2z (len l =? 0))
  end.

Definition vector_op (realloc : Z → option (list Z)) (op : vec_op) : M vector Z :=
  match op with
  | Add x => vector_add realloc x ;; mret 0
  | Set_ i x => vector_set i x ;; mret 0
  | Get i => vector_get i
  | Rm i => vector_rm realloc i ;; mret 0
  | Size => vector_size
  | Empty => b ← vector_empty; mret (b2z b)
  end.

Section props.
Context (realloc : Z → option (list Z)).

(** A block that is returned has the size asked for. *)
Definition sized : Prop := ∀ n l, 0 ≤ n → realloc n = Some l → len l = n.

Lemma resize_ok v l c :
  sized → vec_ok v l → len l ≤ c → 2 ≤ c →
  wp (vector_resize realloc c) (λ _ v', vec_ok v' l ∧ v_size v' = v_size v ∧
    v_capacity v' = (if realloc c is Some _ then c else v_capacity v)) v.
Proof.
  intros Hs [H1 H2 H3 H4 H5] Hl Hc. unfold vector_resize. destruct (realloc c) as [b|] eqn:E; [|by apply wp_ret].
  apply wp_modify. pose proof (Hs c b ltac:(lia) E). destruct v as [it cap n]. cbn [v_items v_capacity v_size] in *.
  split; [|done]. split; cbn [v_items v_capacity v_size]; try lia.
  - rewrite length_app, length_drop, length_take. lia.
  - rewrite take_app_le by (rewrite length_take; lia). rewrite take_take. by rewrite Nat.min_l by lia.
Qed.

Lemma add_ok v l x :
  sized → realloc (v_capacity v * 2) ≠ None → vec_ok v l → v_capacity v < 2 ^ 30 →
  wp (vector_add realloc x) (λ _ v', vec_ok v' (l ++ [x])) v.
Proof.
  intros Hs Hre Hv Hc. unfold vector_add. apply wp_bind, wp_gets. cbn [id].
  pose proof (vo_cap _ _ Hv). pose proof (vo_size _ _ Hv). pose proof (vo_fits _ _ Hv).
  enough (∀ v1, vec_ok v1 l → v_size v1 < v_capacity v1 → v_size v1 = v_size v →
    wp (n ← gets v_size; modify (λ v, Vector (v_items v) (v_capacity v) (s32 (n + 1))) ;; on_items (st n x))
      (λ _ v', vec_ok v' (l ++ [x])) v1) as Hadd.
  { unfold when. destruct (Z.eqb_spec (v_capacity v) (v_size v)) as [E|N]; apply wp_bind; [|by apply wp_ret, Hadd; try lia].
    rewrite swrap_small by lia. eapply wp_mono; [apply (resize_ok v l); [done..|lia|lia]|]. cbv beta.
    intros [] v1 (Hv1 & Es & Ec). destruct (realloc (v_capacity v * 2)); [|done]. apply Hadd; [done|lia|done]. }
  clear Hv. intros [it cap n] [G1 G2 G3 G4 G5] Hlt _. cbn [v_items v_capacity v_size] in *.
  apply wp_bind, wp_gets, wp_bind, wp_modify, wp_on_items, wp_st; cbn [v_items v_capacity v_size]; [lia|].
  rewrite swrap_small by lia. split; cbn [v_items v_capacity v_size]; rewrite ?length_upd, ?length_app; cbn [length]; try lia.
  unfold upd. replace (Z.to_nat n) with (length l) by lia. rewrite insert_take_drop by lia.
  rewrite G5, (cons_middle x l), app_assoc. rewrite take_app_le by (rewrite length_app; cbn; lia).
  apply take_ge. rewrite length_app. cbn. lia.
Qed.

Lemma in_range_spec i l : in_range i l = true ↔ 0 ≤ i < len l.
Proof. unfold in_range. rewrite andb_true_iff, Z.leb_le, Z.ltb_lt. done. Qed.

Lemma vec_at v l i : vec_ok v l → 0 ≤ i < len l → at_ (v_items v) i = at_ l i.
Proof.
  intros Hv Hi. unfold at_. rewrite <- (vo_elems _ _ Hv) at 1. symmetry.
  apply list_lookup_total_correct. rewrite lookup_take_lt by lia.
  apply list_lookup_lookup_total_lt. pose proof (vo_len _ _ Hv). pose proof (vo_size _ _ Hv). pose proof (vo_fits _ _ Hv). lia.
Qed.

Lemma set_ok v l i x :
  vec_ok v l → wp (vector_set i x) (λ _ v', vec_ok v' (if in_range i l then <[Z.to_nat i := x]> l else l)) v.
Proof.
  intros Hv. unfold vector_set. apply wp_bind, wp_gets. rewrite <- (vo_size _ _ Hv).
  change ((0 <=? i) && (i <? len l)) with (in_range i l).
  unfold when. destruct (in_range i l) eqn:E; [|by apply wp_ret]. apply in_range_spec in E.
  destruct v as [it cap n], Hv as [H1 H2 H3 H4 H5]. cbn [v_items v_capacity v_size] in *.
  apply wp_on_items, wp_st; cbn [v_items v_capacity v_size]; [lia|].
  split; cbn [v_items v_capacity v_size]; rewrite ?length_upd, ?length_insert; try lia.
  unfold upd. by rewrite take_insert_lt, H5 by lia.
Qed.

Lemma get_ok v l i :
  vec_ok v l → wp (vector_get i) (λ r v', v' = v ∧ r = if in_range i l then at_ l i else 0) v.
Proof.
  intros Hv. unfold vector_get. apply wp_bind, wp_gets. rewrite <- (vo_size _ _ Hv).
  change ((0 <=? i) && (i <? len l)) with (in_range i l).
  destruct (in_range i l) eqn:E; [|by apply wp_ret]. apply in_range_spec in E.
  pose proof (vo_len _ _ Hv). pose proof (vo_size _ _ Hv). pose proof (vo_fits _ _ Hv).
  apply wp_on_items, wp_ld; [lia|]. split; [by destruct v|by apply vec_at].
Qed.

(** The elements behind [i] have moved one place down, up to [k]. *)
Lemma rm_loop it l i :
  0 ≤ i < len l → len l ≤ len it → take (length l) it = l →
  wp (st i 0 ;; for_up (Z.to_nat (len l - 1 - i)) i (λ k, x ← ld (k + 1); st k x ;; st (k + 1) 0))
    (λ _ it', length it' = length it ∧ take (length l - 1) it' = delete (Z.to_nat i) l) it.
Proof.
  intros Hi Hl Ht. apply wp_bind, wp_st; [lia|].
  assert (∀ k, 0 ≤ k < len l → at_ it k = at_ l k) as Hat.
  { intros k Hk. unfold at_. rewrite <- Ht at 1. symmetry. apply list_lookup_total_correct.
    rewrite lookup_take_lt by lia. apply list_lookup_lookup_total_lt. lia. }
  eapply wp_mono; [apply (wp_for_up _ i _ (λ k it', length it' = length it ∧
    ∀ m, 0 ≤ m < len l → m ≠ k → at_ it' m = if (i <=? m) && (m <? k) then at_ l (m + 1) else at_ l m))|].
  - rewrite length_upd. split; [done|]. intros m Hm Hne. rewrite at_upd by lia.
    rewrite (proj2 (Z.eqb_neq m i)) by done. rewrite Hat by done. bcase; lia || done.
  - intros k it' Hk [Hlen Hm]. apply wp_bind, wp_ld; [lia|]. apply wp_bind, wp_st; [lia|].
    apply wp_st; [rewrite length_upd; lia|]. rewrite !length_upd. split; [done|]. intros m Hm' Hne.
    rewrite !at_upd by (rewrite ?length_upd; lia). rewrite (proj2 (Z.eqb_neq m (k + 1))) by done.
    destruct (Z.eqb_spec m k) as [->|].
    + rewrite Hm by lia. bcase; try lia; done.
    + rewrite Hm by lia. bcase; try lia; done.
  - cbv beta. intros _ it' [Hlen Hm]. split; [done|]. apply list_eq. intros k.
    destruct (decide (k < length l - 1)%nat) as [Hk|Hk].
    + rewrite lookup_take_lt by done.
      rewrite (list_lookup_lookup_total_lt it' k) by lia.
      specialize (Hm (Z.of_nat k) ltac:(lia) ltac:(lia)). unfold at_ in Hm. rewrite Nat2Z.id in Hm. rewrite Hm.
      destruct (decide (k < Z.to_nat i)%nat) as [Hki|Hki].
      * rewrite list_lookup_delete_lt by done. rewrite (proj2 (Z.leb_gt i (Z.of_nat k))) by lia. cbn [andb].
        symmetry. apply list_lookup_lookup_total_lt. lia.
      * rewrite list_lookup_delete_ge by lia.
        rewrite (proj2 (Z.leb_le i (Z.of_nat k))), (proj2 (Z.ltb_lt (Z.of_nat k) _)) by lia. cbn [andb].
        replace (Z.to_nat (Z.of_nat k + 1)) with (S k) by lia. symmetry. apply list_lookup_lookup_total_lt. lia.
    + rewrite lookup_take_ge by lia. symmetry. apply lookup_ge_None_2. rewrite length_delete; [lia|].
      apply lookup_lt_is_Some_2. lia.
Qed.

Lemma rm_ok v l i :
  sized → vec_ok v l → v_capacity v < 2 ^ 31 →
  wp (vector_rm realloc i) (λ _ v', vec_ok v' (if in_range i l then delete (Z.to_nat i) l else l)) v.
Proof.
  intros Hs Hv Hc. unfold vector_rm. apply wp_bind, wp_gets. rewrite <- (vo_size _ _ Hv).
  destruct (in_range i l) eqn:E.
  2: { assert ((i <? 0) || (len l <=? i) = true) as ->; [|by apply wp_ret].
       unfold in_range in E. revert E. bcase; cbn; lia || done. }
  apply in_range_spec in E. assert ((i <? 0) || (len l <=? i) = false) as -> by (bcase; lia || done).
  destruct v as [it cap n], Hv as [H1 H2 H3 H4 H5]. cbn [v_items v_capacity v_size] in *.
  pose proof (rm_loop it l i E ltac:(lia) H5) as ([] & it2 & Eit & Hlen & Htk)%wp_inv.
  apply M_bind_inv in Eit as ([] & it1 & E1 & E2).
  apply wp_bind, wp_on_items. eapply wp_intro; [exact E1|]. apply wp_bind, wp_on_items. cbn [v_items v_capacity v_size].
  eapply wp_intro; [exact E2|]. apply wp_bind, wp_modify, wp_bind, wp_gets. cbn [v_items v_capacity v_size id].
  rewrite swrap_small by lia.
  assert (length (delete (Z.to_nat i) l) = (length l - 1)%nat) as Hd by (rewrite length_delete; [done|apply lookup_lt_is_Some_2; lia]).
  assert (vec_ok (Vector it2 cap (len l - 1)) (delete (Z.to_nat i) l)) as Hok.
  { split; cbn [v_items v_capacity v_size]; rewrite ?Hd; try lia. done. }
  unfold when. destruct ((0 <? len l - 1) && (len l - 1 =? cap ÷ 4)) eqn:Eq; [|by apply wp_ret].
  apply andb_true_iff in Eq as [Hp%Z.ltb_lt Hq%Z.eqb_eq]. rewrite Z.quot_div_nonneg in * by lia.
  pose proof (Z.div_mod cap 4 ltac:(lia)). pose proof (Z.mod_pos_bound cap 4 ltac:(lia)).
  pose proof (Z.div_mod cap 2 ltac:(lia)). pose proof (Z.mod_pos_bound cap 2 ltac:(lia)).
  eapply wp_mono; [apply (resize_ok _ _ (cap / 2) Hs Hok); rewrite ?Hd; lia|]. cbv beta. by intros _ v' (? & _).
Qed.

(** A vector behaves as the sequence of its elements: adding, setting, removing and reading by
    index do to the elements what the sequence operations do, indices out of range are ignored or
    give NULL, and no access leaves the block, although it is moved to grow and to shrink.  The
    capacity is never below the number of elements; failing to shrink is harmless. *)
Theorem vector_refines_sequence op v l :
  sized → realloc (v_capacity v * 2) ≠ None → vec_ok v l → v_capacity v < 2 ^ 30 →
  wp (vector_op realloc op) (λ r v', vec_ok v' (seq_op op l).1 ∧ r = (seq_op op l).2) v.
Proof.
  intros Hs Hre Hv Hc. destruct op; cbn [vector_op seq_op fst snd].
  - eapply wp_bind_mono; [by apply add_ok|]. intros [] v' Hv'. by apply wp_ret.
  - eapply wp_bind_mono; [by apply set_ok|]. intros [] v' Hv'. by apply wp_ret.
  - eapply wp_mono; [by apply get_ok|]. cbv beta. by intros r v' [-> ->].
  - eapply wp_bind_mono; [apply rm_ok; [done|done|lia]|]. intros [] v' Hv'. by apply wp_ret.
  - unfold vector_size. apply wp_gets. split; [done|]. by rewrite (vo_size _ _ Hv).
  - unfold vector_empty. apply wp_bind, wp_bind, wp_gets, wp_ret, wp_ret. split; [done|]. by rewrite (vo_size _ _ Hv).
Qed.

(** Without memory to grow, adding to a full vector writes behind its block. *)
Lemma add_overflows v x :
  realloc (v_capacity v * 2) = None → len (v_items v) = v_capacity v → v_size v = v_capacity v →
  0 ≤ v_capacity v < 2 ^ 30 → vector_add realloc x v = Fault (v_size v).
Proof.
  intros Hr Hl Hs Hc. destruct v as [it cap n]. cbn [v_items v_capacity v_size] in *. subst n.
  unfold vector_add, mbind, M_bind, gets, when. cbn [id v_capacity v_size]. rewrite Z.eqb_refl, swrap_small by lia.
  unfold vector_resize. rewrite Hr. cbn. unfold on_items, st. cbn [v_items]. rewrite (proj2 (Z.ltb_ge cap 0)) by lia.
  by rewrite lookup_ge_None_2 by lia.
Qed.
End props.

Lemma vector_refines_sequence_witness :
  wp (vector_op (λ n, Some (replicate (Z.to_nat n) 9)) (Add 5))
    (λ r v', vec_ok v' [3; 4; 5] ∧ r = 0) (Vector [3; 4] 2 2).
Proof.
  apply (vector_refines_sequence (λ n, Some (replicate (Z.to_nat n) 9)) (Add 5) (Vector [3; 4] 2 2) [3; 4]); [|done|done|done].
  intros n l Hn [= <-]. rewrite length_replicate. lia.
Defined.
