(* ===== verification/Maze.v ===== *)
(** * The maze of the 32-bit shell ([arch/i386/drivers/shell/builtins/maze.c], [common/rand.c])

    A grid of cells with walls to the right and below, carved by a depth-first walk, searched by a
    recursive one, and drawn on the terminal.  An access outside the grid faults. *)

From S2P Require Import Prelude Loops Arrays Format Vga.

Abbreviation CORRIDOR := 1%Z.
Abbreviation VISITED := 2%Z.
Abbreviation PATH := 3%Z.
Abbreviation SOURCE := 4%Z.
Abbreviation SINK := 5%Z.
Abbreviation MAZE_WIDTH := 39%Z.
Abbreviation MAZE_HEIGHT := 10%Z.
Abbreviation DISPLAY_HEIGHT := 23%Z.
Abbreviation DISPLAY_WIDTH := 80%Z.

(* src/arch/i386/drivers/shell/builtins/maze.h 18-23 cell *)
Record cell := Cell { c_type : Z; c_right : Z; c_bottom : Z }.

Record mz := Mz {
  z_cells : gmap (Z * Z) cell;    (* maze, by column and row *)
  z_next_set_id : Z;
  z_rng : Z;                      (* rng_state *)
  z_display : list Z;             (* display_buffer, row by row *)
  z_vga : vga;
  z_out : list string;            (* printed, by lines *)
}.

Definition set_cells (f : gmap (Z * Z) cell → gmap (Z * Z) cell) (s : mz) : mz :=
  Mz (f (z_cells s)) (z_next_set_id s) (z_rng s) (z_display s) (z_vga s) (z_out s).

(** [maze[y][x]] *)
Definition ld_cell (x y : Z) : M mz cell := λ s,
  match z_cells s !! (x, y) with Some c => Ok (c, s) | None => Fault x end.
Definition st_cell (x y : Z) (f : cell → cell) : M mz unit := λ s,
  match z_cells s !! (x, y) with
  | Some c => Ok (tt, set_cells <[(x, y) := f c]> s)
  | None => Fault x
  end.

Definition set_type (t : Z) (c : cell) : cell := Cell t (c_right c) (c_bottom c).
Definition open_right (c : cell) : cell := Cell (c_type c) 0 (c_bottom c).
Definition open_bottom (c : cell) : cell := Cell (c_type c) (c_right c) 0.

Definition printf (text : string) : M mz unit :=
  modify (λ s, Mz (z_cells s) (z_next_set_id s) (z_rng s) (z_display s) (z_vga s) (z_out s ++ [text])).

(** [for (y...) for (x...) body] *)
Definition for_grid (height width : Z) (body : Z → Z → M mz unit) : M mz unit :=
  for_up (Z.to_nat height) 0 (λ y, for_up (Z.to_nat width) 0 (λ x, body x y)).

(** ** Random numbers *)

Definition set_rng (r : Z) (s : mz) : mz :=
  Mz (z_cells s) (z_next_set_id s) r (z_display s) (z_vga s) (z_out s).

(* src/arch/i386/common/rand.c 6-9 seed_rng *)
Definition seed_rng (seed : Z) : M mz unit := modify (set_rng (if nz seed then seed else 1)).

(* src/arch/i386/common/rand.c 11-18 random_next *)
Definition random_next : M mz Z :=
  x ← gets z_rng;
  let x := x .^ u32 (x .<< 13) in
  let x := x .^ (x .>> 17) in
  let x := x .^ u32 (x .<< 5) in
  modify (set_rng x) ;;
  mret x.

(* src/arch/i386/common/rand.c 20-25 random_range *)
Definition random_range (max : Z) : M mz Z :=
  if max =? 0 then mret 0 else x ← random_next; mret (x mod max).

(** ** Drawing *)

Definition on_vga (m : M vga unit) : M mz unit := λ s,
  match m (z_vga s) with
  | Ok (_, v) => Ok (tt, Mz (z_cells s) (z_next_set_id s) (z_rng s) (z_display s) v (z_out s))
  | Panic msg => Panic msg | Halt => Halt | Fault a => Fault a | OutOfFuel => OutOfFuel
  end.

Definition on_display {A} (m : M (list Z) A) : M mz A := λ s,
  match m (z_display s) with
  | Ok (a, d) => Ok (a, Mz (z_cells s) (z_next_set_id s) (z_rng s) d (z_vga s) (z_out s))
  | Panic msg => Panic msg | Halt => Halt | Fault a => Fault a | OutOfFuel => OutOfFuel
  end.

(** [display_buffer[y][x] = c] *)
Definition put (x y c : Z) : M mz unit :=
  if (0 <=? x) && (x <? DISPLAY_WIDTH) then on_display (st (y * DISPLAY_WIDTH + x) c) else fault x.

(* src/arch/i386/drivers/shell/builtins/maze.c 37-43 clear_display_buffer *)
Definition clear_display_buffer : M mz unit :=
  for_grid DISPLAY_HEIGHT DISPLAY_WIDTH (λ x y, put x y 32).

Definition help_text : list Z := chars "(g) generate - (s) solve - (d) display ".

Fixpoint put_text (x : Z) (text : list Z) : M mz unit :=
  match text with
  | [] => mret tt
  | c :: text => if x <? DISPLAY_WIDTH then put x 0 c ;; put_text (x + 1) text else mret tt
  end.

(* src/arch/i386/drivers/shell/builtins/maze.c 45-54 draw_help_text *)
Definition draw_help_text : M mz unit :=
  let start_x := (DISPLAY_WIDTH - len help_text) ÷ 2 in
  put_text start_x help_text.

(** A test of a cell that may be off the grid: [x < MAZE_WIDTH && y < MAZE_HEIGHT && ...] *)
Definition test (x y : Z) (p : cell → bool) : M mz bool :=
  if (x <? MAZE_WIDTH) && (y <? MAZE_HEIGHT) then c ← ld_cell x y; mret (p c) else mret false.

Definition is_type (t : Z) (c : cell) : bool := c_type c =? t.

(** Whether one of the cells passes the test. *)
Fixpoint any (cells : list (Z * Z)) (p : cell → bool) : M mz bool :=
  match cells with
  | [] => mret false
  | (x, y) :: cells => b ← test x y p; if (b : bool) then mret true else any cells p
  end.

(** What a gap between cells shows of them. *)
Definition gap_char (cells : list (Z * Z)) : M mz Z :=
  has_path ← any cells (is_type PATH);
  if (has_path : bool) then mret 112 else
  has_visited ← any cells (is_type VISITED);
  mret (if (has_visited : bool) then 118 else 32).

(* src/arch/i386/drivers/shell/builtins/maze.c 79-99 draw_maze *)
Definition cell_char (t : Z) : Z :=
  if t =? CORRIDOR then 32 else if t =? VISITED then 118 else if t =? PATH then 112
  else if t =? SOURCE then 83 else if t =? SINK then 69 else 32.

(* src/arch/i386/drivers/shell/builtins/maze.c 68-221 draw_maze *)
Definition draw_cell (x y : Z) : M mz unit :=
  let cy := y * 2 + 1 in
  let cx := x * 2 in
  if (DISPLAY_HEIGHT <=? cy) || (DISPLAY_WIDTH <=? cx) then mret tt else
  c ← ld_cell x y;
  put cx cy (cell_char (c_type c)) ;;
  when ((x <? MAZE_WIDTH - 1) && (cx + 1 <? DISPLAY_WIDTH)) (
    if nz (c_right c) then put (cx + 1) cy 35
    else ch ← gap_char [(x, y); (x + 1, y)]; put (cx + 1) cy ch) ;;
  when ((y <? MAZE_HEIGHT - 1) && (cy + 1 <? DISPLAY_HEIGHT)) (
    (if nz (c_bottom c) then put cx (cy + 1) 35
     else ch ← gap_char [(x, y); (x, y + 1)]; put cx (cy + 1) ch) ;;
    when ((x <? MAZE_WIDTH - 1) && (cx + 1 <? DISPLAY_WIDTH)) (
      below_next ← test (x + 1) y (λ c, nz (c_bottom c));
      right_below ← test x (y + 1) (λ c, nz (c_right c));
      if nz (c_right c) || nz (c_bottom c) || below_next || right_below then put (cx + 1) (cy + 1) 35
      else ch ← gap_char [(x, y); (x + 1, y); (x, y + 1); (x + 1, y + 1)]; put (cx + 1) (cy + 1) ch)).

Definition VGA_COLOR_CYAN : Z := 3.
Definition VGA_COLOR_BROWN : Z := 6.
Definition VGA_COLOR_LIGHT_GREEN : Z := 10.
Definition VGA_COLOR_LIGHT_RED : Z := 12.

(* src/arch/i386/drivers/shell/builtins/maze.c 225-266 draw_maze *)
Definition show_char (x y : Z) : M mz unit :=
  ch ← on_display (ld (y * DISPLAY_WIDTH + x));
  on_vga (
    if ch =? 35 then terminal_putentryat 32 (vga_entry_color VGA_COLOR_WHITE VGA_COLOR_WHITE) x y
    else if ch =? 83 then terminal_putentryat ch (vga_entry_color VGA_COLOR_BLACK VGA_COLOR_LIGHT_GREEN) x y
    else if ch =? 69 then terminal_putentryat ch (vga_entry_color VGA_COLOR_BLACK VGA_COLOR_LIGHT_RED) x y
    else if ch =? 112 then terminal_putentryat 32 (vga_entry_color VGA_COLOR_CYAN VGA_COLOR_CYAN) x y
    else if ch =? 118 then terminal_putentryat 32 (vga_entry_color VGA_COLOR_BROWN VGA_COLOR_BROWN) x y
    else terminal_putentryat 32 (vga_entry_color VGA_COLOR_LIGHT_GREY VGA_COLOR_BLACK) x y).

(* src/arch/i386/drivers/shell/builtins/maze.c 56-67 draw_maze *)
Definition draw_maze : M mz unit :=
  clear_display_buffer ;;
  draw_help_text ;;
  for_grid MAZE_HEIGHT MAZE_WIDTH draw_cell ;;
  for_grid DISPLAY_HEIGHT DISPLAY_WIDTH show_char.

(* src/arch/i386/drivers/shell/builtins/maze.c 457-459 display_maze *)
Definition display_maze : M mz unit := draw_maze.

(** ** Generation *)

Definition closed_cell (_ : cell) : cell := Cell CORRIDOR 1 1.

Definition close_all : M mz unit := for_grid MAZE_HEIGHT MAZE_WIDTH (λ x y, st_cell x y closed_cell).

(* src/arch/i386/drivers/shell/builtins/maze.c 21-35 maze_init *)
Definition maze_init (ticks : Z) : M mz unit :=
  modify (λ s, Mz (z_cells s) 1 (z_rng s) (z_display s) (z_vga s) (z_out s)) ;;
  clear_display_buffer ;;
  seed_rng ticks ;;
  close_all.

(** The walk: the cells visited and the stack, the top first, of at most [MAZE_WIDTH * MAZE_HEIGHT]
    cells. *)
Record walk := Walk { w_visited : gset (Z * Z); w_stack : list (Z * Z) }.

Definition up : Z := 0.
Definition right : Z := 1.
Definition down : Z := 2.
Definition left : Z := 3.

(** The neighbours of a cell that have not been visited, with their directions. *)
(* src/arch/i386/drivers/shell/builtins/maze.c 311-347 generate_maze *)
Definition neighbors (visited : gset (Z * Z)) (x y : Z) : list (Z * Z * Z) :=
  (if (0 <? y) && bool_decide ((x, y - 1) ∉ visited) then [(x, y - 1, up)] else []) ++
  (if (y <? MAZE_HEIGHT - 1) && bool_decide ((x, y + 1) ∉ visited) then [(x, y + 1, down)] else []) ++
  (if (x <? MAZE_WIDTH - 1) && bool_decide ((x + 1, y) ∉ visited) then [(x + 1, y, right)] else []) ++
  (if (0 <? x) && bool_decide ((x - 1, y) ∉ visited) then [(x - 1, y, left)] else []).

(* src/arch/i386/drivers/shell/builtins/maze.c 355-368 generate_maze *)
Definition remove_wall (x y nx ny direction : Z) : M mz unit :=
  if direction =? up then st_cell nx ny open_bottom
  else if direction =? right then st_cell x y open_right
  else if direction =? down then st_cell x y open_bottom
  else if direction =? left then st_cell nx ny open_right
  else mret tt.

(* src/arch/i386/drivers/shell/builtins/maze.c 307-379 generate_maze *)
Fixpoint carve (fuel : nat) (w : walk) : M mz unit :=
  match w_stack w with
  | [] => mret tt
  | (x, y) :: stack =>
      match fuel with
      | O => out_of_fuel
      | S fuel =>
          let ns := neighbors (w_visited w) x y in
          if 0 <? len ns then
            chosen ← random_range (len ns);
            match ns !! Z.to_nat chosen with
            | None => fault chosen
            | Some (nx, ny, direction) =>
                remove_wall x y nx ny direction ;;
                if MAZE_WIDTH * MAZE_HEIGHT <=? len (w_stack w) then fault nx else
                carve fuel (Walk ({[(nx, ny)]} ∪ w_visited w) ((nx, ny) :: w_stack w))
            end
          else carve fuel (Walk (w_visited w) stack)
      end
  end.

(* src/arch/i386/drivers/shell/builtins/maze.c 269-393 generate_maze *)
Definition generate_maze (fuel : nat) (ticks ticks' : Z) : M mz unit :=
  maze_init ticks ;;
  seed_rng ticks' ;;
  close_all ;;
  carve fuel (Walk {[(0, 0)]} [(0, 0)]) ;;
  st_cell 0 0 (set_type SOURCE) ;;
  st_cell (MAZE_WIDTH - 1) (MAZE_HEIGHT - 1) (set_type SINK) ;;
  draw_maze.

(** ** Search *)

(* src/arch/i386/drivers/shell/builtins/maze.c 395-417 can_move_to *)
Definition can_move_to (fx fy tx ty : Z) : M mz bool :=
  if (tx <? 0) || (MAZE_WIDTH <=? tx) || (ty <? 0) || (MAZE_HEIGHT <=? ty) then mret false else
  if (tx =? fx + 1) && (ty =? fy) then c ← ld_cell fx fy; mret (negb (nz (c_right c)))
  else if (tx =? fx - 1) && (ty =? fy) then c ← ld_cell tx ty; mret (negb (nz (c_right c)))
  else if (ty =? fy + 1) && (tx =? fx) then c ← ld_cell fx fy; mret (negb (nz (c_bottom c)))
  else if (ty =? fy - 1) && (tx =? fx) then c ← ld_cell tx ty; mret (negb (nz (c_bottom c)))
  else mret false.

Definition directions : list (Z * Z) := [(0, 1); (1, 0); (0, -1); (-1, 0)].

(** The loop over the directions that are left. *)
(* src/arch/i386/drivers/shell/builtins/maze.c 431-454 dfs_solve *)
Fixpoint try_dirs (solve : Z → Z → M mz bool) (x y : Z) (ds : list (Z * Z)) : M mz bool :=
  match ds with
  | [] => mret false
  | (dx, dy) :: ds =>
      let nx := x + dx in
      let ny := y + dy in
      m ← can_move_to x y nx ny;
      go ← (if (m : bool) then c ← ld_cell nx ny; mret (is_type CORRIDOR c || is_type SINK c) else mret false);
      if (go : bool) then
        found ← solve nx ny;
        if (found : bool) then
          c ← ld_cell x y;
          when (negb (is_type SOURCE c)) (st_cell x y (set_type PATH)) ;;
          mret true
        else try_dirs solve x y ds
      else try_dirs solve x y ds
  end.

(* src/arch/i386/drivers/shell/builtins/maze.c 419-455 dfs_solve *)
Fixpoint dfs_solve (fuel : nat) (target_x target_y x y : Z) : M mz bool :=
  c ← ld_cell x y;
  when (is_type CORRIDOR c) (st_cell x y (set_type VISITED)) ;;
  if (x =? target_x) && (y =? target_y) then
    st_cell x y (set_type SINK) ;;
    mret true
  else
  match fuel with
  | O => out_of_fuel
  | S fuel => try_dirs (dfs_solve fuel target_x target_y) x y directions
  end.

(** The last cell of a type in reading order; [-1] if there is none. *)
Fixpoint find_types (cells : list (Z * Z)) (src snk : Z * Z) : M mz ((Z * Z) * (Z * Z)) :=
  match cells with
  | [] => mret (src, snk)
  | (x, y) :: cells =>
      c ← ld_cell x y;
      if is_type SOURCE c then find_types cells (x, y) snk
      else if is_type SINK c then find_types cells src (x, y)
      else find_types cells src snk
  end.

Definition grid : list (Z * Z) := y ← seqZ 0 MAZE_HEIGHT; x ← seqZ 0 MAZE_WIDTH; [(x, y)].

Definition unsolve (c : cell) : cell :=
  if is_type VISITED c || is_type PATH c then set_type CORRIDOR c else c.

(* src/arch/i386/drivers/shell/builtins/maze.c 461-505 solve_maze *)
Definition solve_maze (fuel : nat) : M mz unit :=
  '((sx, sy), (ex, ey)) ← find_types grid (-1, -1) (-1, -1);
  if (sx =? -1) || (ex =? -1) then printf "Error: Could not find start or end position" else
  for_grid MAZE_HEIGHT MAZE_WIDTH (λ x y, st_cell x y unsolve) ;;
  st_cell sx sy (set_type SOURCE) ;;
  st_cell ex ey (set_type SINK) ;;
  found ← dfs_solve fuel ex ey sx sy;
  (if (found : bool) then st_cell sx sy (set_type SOURCE) else printf "No solution found!") ;;
  draw_maze.
