(* ===== verification/MazeProps.v ===== *)
(** * The theorems about the maze *)

From stdpp Require Import relations.
From S2P Require Import Prelude Loops Arrays Format Vga VgaProps Maze.

Implicit Types (m : gmap (Z * Z) cell) (p q : Z * Z) (s : mz).

(** ** The grid and its passages *)

Definition in_grid p : Prop := 0 ≤ p.1 < MAZE_WIDTH ∧ 0 ≤ p.2 < MAZE_HEIGHT.

#[local] Instance in_grid_dec p : Decision (in_grid p).
Proof. unfold in_grid. apply _. Defined.

(** All cells are there, and no others. *)
Definition full m : Prop := ∀ p, is_Some (m !! p) ↔ in_grid p.

Definition right_of p : Z * Z := (p.1 + 1, p.2).
Definition below p : Z * Z := (p.1, p.2 + 1).

Definition adjacent p q : Prop := q = right_of p ∨ p = right_of q ∨ q = below p ∨ p = below q.

(** The wall to the right of [p], or below it, is open. *)
Definition right_open m p : Prop := ∃ c, m !! p = Some c ∧ c_right c = 0.
Definition bottom_open m p : Prop := ∃ c, m !! p = Some c ∧ c_bottom c = 0.

Definition passage m p q : Prop :=
  in_grid p ∧ in_grid q ∧
  ((q = right_of p ∧ right_open m p) ∨ (p = right_of q ∧ right_open m q) ∨
   (q = below p ∧ bottom_open m p) ∨ (p = below q ∧ bottom_open m q)).

Lemma passage_sym m p q : passage m p q → passage m q p.
Proof. unfold passage. tauto. Qed.

Lemma elem_of_grid p : p ∈ grid ↔ in_grid p.
Proof.
  unfold grid, in_grid. rewrite list_elem_of_bind. setoid_rewrite list_elem_of_bind.
  setoid_rewrite elem_of_seqZ. setoid_rewrite list_elem_of_singleton.
  split; [intros (y & (x & -> & Hx) & Hy); cbn; lia|]. destruct p as [x y]. cbn. intros [? ?].
  exists y. split; [|lia]. exists x. split; [done|lia].
Qed.

Lemma size_grid : size (list_to_set grid : gset (Z * Z)) = 390%nat.
Proof. by_decide. Qed.

Lemma grid_subset (X : gset (Z * Z)) : (∀ p, p ∈ X → in_grid p) → (size X ≤ 390)%nat.
Proof.
  intros H. rewrite <- size_grid. apply subseteq_size. intros p Hp. apply elem_of_list_to_set, elem_of_grid. by apply H.
Qed.

(** A set of cells that contains the first and with a cell its neighbours is the grid. *)
Lemma closed_grid (X : gset (Z * Z)) :
  (0, 0) ∈ X → (∀ p q, p ∈ X → adjacent p q → in_grid q → q ∈ X) → ∀ p, in_grid p → p ∈ X.
Proof.
  intros H0 Hc.
  assert (∀ n : nat, Z.of_nat n < MAZE_WIDTH → (Z.of_nat n, 0) ∈ X) as Hrow.
  { induction n as [|n IH]; intros Hn; [done|]. apply (Hc (Z.of_nat n, 0)); [apply IH; lia|left; unfold right_of; cbn; f_equal; lia|].
    unfold in_grid in *; cbn. lia. }
  intros [x y] [Hx Hy]. cbn in *.
  assert (∀ n : nat, Z.of_nat n < MAZE_HEIGHT → (x, Z.of_nat n) ∈ X) as Hcol.
  { induction n as [|n IH]; intros Hn.
    - replace x with (Z.of_nat (Z.to_nat x)) by lia. apply Hrow. lia.
    - apply (Hc (x, Z.of_nat n)); [apply IH; lia|right; right; left; unfold below; cbn; f_equal; lia|]. unfold in_grid; cbn. lia. }
  replace y with (Z.of_nat (Z.to_nat y)) by lia. apply Hcol. lia.
Qed.

(** ** Cells *)

Lemma grid_insert m p c : full m → is_Some (m !! p) → full (<[p := c]> m).
Proof.
  intros Hf Hp q. destruct (decide (p = q)) as [<-|]; [rewrite lookup_insert_eq|by rewrite lookup_insert_ne].
  split; [intros _; by apply Hf|by eauto].
Qed.

Lemma wp_ld_cell x y (Q : cell → mz → Prop) s c : z_cells s !! (x, y) = Some c → Q c s → wp (ld_cell x y) Q s.
Proof. intros E HQ. unfold wp, ld_cell. by rewrite E. Qed.

Lemma wp_st_cell x y f (Q : unit → mz → Prop) s c :
  z_cells s !! (x, y) = Some c → Q tt (set_cells <[(x, y) := f c]> s) → wp (st_cell x y f) Q s.
Proof. intros E HQ. unfold wp, st_cell. by rewrite E. Qed.

(** Two mazes with the same walls. *)
Definition same_walls m m' : Prop :=
  ∀ p, (λ c, (c_right c, c_bottom c)) <$> m !! p = (λ c, (c_right c, c_bottom c)) <$> m' !! p.

Lemma same_walls_full m m' : same_walls m m' → full m → full m'.
Proof. intros H Hf p. rewrite <- (Hf p). specialize (H p). destruct (m !! p), (m' !! p); try done; split; eauto. Qed.

Lemma same_walls_open m m' p : same_walls m m' →
  (right_open m p → right_open m' p) ∧ (bottom_open m p → bottom_open m' p).
Proof.
  intros H. specialize (H p). split; intros (c & E & E0); rewrite E in H; cbn in H;
    destruct (m' !! p) as [c'|] eqn:E'; try done; injection H as H1 H2; exists c'; (split; [done|congruence]).
Qed.

Lemma same_walls_passage m m' p q : same_walls m m' → passage m p q → passage m' p q.
Proof.
  intros H (Hp & Hq & Hd). split; [done|]. split; [done|].
  destruct (same_walls_open m m' p H), (same_walls_open m m' q H). naive_solver.
Qed.

#[export] Instance same_walls_equiv : Equivalence same_walls.
Proof. split; [by intros m p|by intros m m' H p|intros m m' m'' H H' p; by rewrite (H p)]. Qed.

Lemma same_walls_insert m p c c' :
  m !! p = Some c → c_right c' = c_right c → c_bottom c' = c_bottom c → same_walls m (<[p := c']> m).
Proof.
  intros E Hr Hb q. destruct (decide (p = q)) as [<-|]; [rewrite lookup_insert_eq, E|by rewrite lookup_insert_ne].
  cbn. by rewrite Hr, Hb.
Qed.

Lemma ld_cell_then {A} x y (f : cell → A) s c :
  z_cells s !! (x, y) = Some c → (c ← ld_cell x y; mret (f c)) s = Ok (f c, s).
Proof. intros E. unfold mbind, M_bind, ld_cell. by rewrite E. Qed.

Lemma open_wall a : negb (nz a) = true ↔ a = 0.
Proof. unfold nz. rewrite negb_involutive. apply Z.eqb_eq. Qed.

Ltac passage_cases :=
  unfold passage, right_of, below in *; cbn [fst snd] in *;
  intros (_ & _ & [[E (? & ? & ?)]|[[E (? & ? & ?)]|[[E (? & ? & ?)]|[E (? & ? & ?)]]]]);
  pose proof (f_equal fst E); pose proof (f_equal snd E); cbn [fst snd] in *;
  (congruence || lia).

Lemma can_move_ok s p q :
  full (z_cells s) → in_grid p →
  ∃ b, can_move_to p.1 p.2 q.1 q.2 s = Ok (b, s) ∧ (b = true ↔ passage (z_cells s) p q).
Proof.
  intros Hf Hp. destruct p as [x y], q as [x' y']. cbn [fst snd]. unfold can_move_to.
  destruct (((x' <? 0) || (MAZE_WIDTH <=? x') || (y' <? 0)) || (MAZE_HEIGHT <=? y')) eqn:Eout.
  { exists false. split; [done|]. split; [done|]. intros (_ & [Hx Hy] & _). cbn in *. revert Eout. bcase; cbn; try done; lia. }
  assert (in_grid (x', y')) as Hq by (revert Eout; unfold in_grid; cbn; bcase; cbn; try done; lia).
  destruct (proj2 (Hf (x, y)) Hp) as [c Ec], (proj2 (Hf (x', y')) Hq) as [c' Ec'].
  destruct ((x' =? x + 1) && (y' =? y)) eqn:E1.
  { apply andb_true_iff in E1 as [->%Z.eqb_eq ->%Z.eqb_eq]. rewrite (ld_cell_then _ _ _ _ _ Ec). eexists. split; [done|].
    rewrite open_wall. split; [|passage_cases]. intros E. split; [done|]. split; [done|]. left. split; [done|]. by exists c. }
  destruct ((x' =? x - 1) && (y' =? y)) eqn:E2.
  { apply andb_true_iff in E2 as [->%Z.eqb_eq ->%Z.eqb_eq]. rewrite (ld_cell_then _ _ _ _ _ Ec'). eexists. split; [done|].
    rewrite open_wall. split; [|passage_cases]. intros E. split; [done|]. split; [done|]. right. left.
    split; [unfold right_of; cbn; f_equal; lia|]. by exists c'. }
  destruct ((y' =? y + 1) && (x' =? x)) eqn:E3.
  { apply andb_true_iff in E3 as [->%Z.eqb_eq ->%Z.eqb_eq]. rewrite (ld_cell_then _ _ _ _ _ Ec). eexists. split; [done|].
    rewrite open_wall. split; [|passage_cases]. intros E. split; [done|]. split; [done|]. right. right. left. split; [done|]. by exists c. }
  destruct ((y' =? y - 1) && (x' =? x)) eqn:E4.
  { apply andb_true_iff in E4 as [->%Z.eqb_eq ->%Z.eqb_eq]. rewrite (ld_cell_then _ _ _ _ _ Ec'). eexists. split; [done|].
    rewrite open_wall. split; [|passage_cases]. intros E. split; [done|]. split; [done|]. right. right. right.
    split; [unfold below; cbn; f_equal; lia|]. by exists c'. }
  exists false. split; [done|]. split; [done|]. revert E1 E2 E3 E4. bcase; cbn; try done; intros _ _ _ _; passage_cases.
Qed.

(** ** Drawing is safe and leaves the maze alone *)

Record mz_ok s : Prop := {
  mo_full : full (z_cells s);
  mo_display : len (z_display s) = 1840;
  mo_vga : len (v_buf (z_vga s)) = CELLS;
}.

(** [m] ends normally and changes neither the maze nor what has been printed. *)
Definition quiet {A} (m : M mz A) : Prop :=
  ∀ s, mz_ok s → wp m (λ _ s', mz_ok s' ∧ z_cells s' = z_cells s ∧ z_out s' = z_out s) s.

Lemma quiet_bind {A B} (m : M mz A) (f : A → M mz B) : quiet m → (∀ a, quiet (f a)) → quiet (m ≫= f).
Proof.
  intros Hm Hf s Hs. eapply wp_bind_mono; [by apply Hm|]. cbv beta. intros a s1 (O1 & C1 & P1).
  eapply wp_mono; [by apply Hf|]. cbv beta. intros b s2 (O2 & C2 & P2). split; [done|]. split; congruence.
Qed.

Lemma quiet_ret {A} (a : A) : quiet (mret a).
Proof. intros s Hs. by apply wp_ret. Qed.

Lemma quiet_when b (m : M mz unit) : (b = true → quiet m) → quiet (when b m).
Proof. unfold when. destruct b; [auto|intros _; apply quiet_ret]. Qed.

Lemma quiet_for n body : (∀ i, 0 ≤ i < n → quiet (body i)) → 0 ≤ n → quiet (for_up (Z.to_nat n) 0 body).
Proof.
  intros Hb Hn s Hs. apply (wp_for_up_to n _ (λ _ s', mz_ok s' ∧ z_cells s' = z_cells s ∧ z_out s' = z_out s)); [done|done|].
  intros j s1 Hj (O1 & C1 & P1). eapply wp_mono; [by apply Hb|]. cbv beta. intros _ s2 (O2 & C2 & P2). split; [done|]. split; congruence.
Qed.

Lemma quiet_grid h w body :
  0 ≤ h → 0 ≤ w → (∀ x y, 0 ≤ x < w → 0 ≤ y < h → quiet (body x y)) → quiet (for_grid h w body).
Proof. intros Hh Hw Hb. apply quiet_for; [|done]. intros y Hy. apply quiet_for; [|done]. intros x Hx. by apply Hb. Qed.

Lemma quiet_put x y c : 0 ≤ x < DISPLAY_WIDTH → 0 ≤ y < DISPLAY_HEIGHT → quiet (put x y c).
Proof.
  intros Hx Hy s [Hf Hd Hv]. unfold put.
  rewrite (proj2 (Z.leb_le 0 x)), (proj2 (Z.ltb_lt x 80)) by lia. cbn [andb]. unfold wp, on_display, st.
  rewrite (proj2 (Z.ltb_ge _ 0)), lookup_at by lia. split; [|done]. split; [done| |done]. cbn [z_display]. by rewrite length_insert.
Qed.

Lemma quiet_ld_cell x y : in_grid (x, y) → quiet (ld_cell x y).
Proof. intros Hg s Hs. destruct (proj2 (mo_full _ Hs (x, y)) Hg) as [c Ec]. by eapply wp_ld_cell. Qed.

Lemma quiet_test x y (f : cell → bool) : 0 ≤ x → 0 ≤ y → quiet (test x y f).
Proof.
  intros Hx Hy. unfold test. destruct ((x <? MAZE_WIDTH) && (y <? MAZE_HEIGHT)) eqn:E; [|apply quiet_ret].
  apply andb_true_iff in E as [?%Z.ltb_lt ?%Z.ltb_lt]. apply quiet_bind; [by apply quiet_ld_cell|intros ?; apply quiet_ret].
Qed.

Lemma quiet_any cells (f : cell → bool) : Forall (λ q : Z * Z, 0 ≤ q.1 ∧ 0 ≤ q.2) cells → quiet (any cells f).
Proof.
  induction 1 as [|[x y] cells [? ?] _ IH]; cbn [any]; [apply quiet_ret|].
  apply quiet_bind; [by apply quiet_test|]. intros []; [apply quiet_ret|done].
Qed.

Lemma quiet_gap_char cells : Forall (λ q : Z * Z, 0 ≤ q.1 ∧ 0 ≤ q.2) cells → quiet (gap_char cells).
Proof.
  intros H. unfold gap_char. apply quiet_bind; [by apply quiet_any|]. intros []; [apply quiet_ret|].
  apply quiet_bind; [by apply quiet_any|]. intros ?. apply quiet_ret.
Qed.

Lemma quiet_draw_cell x y : in_grid (x, y) → quiet (draw_cell x y).
Proof.
  intros Hg. pose proof Hg as [Hx Hy]. cbn in Hx, Hy. unfold draw_cell.
  assert (∀ cells, Forall (λ q : Z * Z, 0 ≤ q.1 ∧ 0 ≤ q.2) cells →
    ∀ a b, 0 ≤ a < DISPLAY_WIDTH → 0 ≤ b < DISPLAY_HEIGHT → quiet (ch ← gap_char cells; put a b ch)) as Hgap.
  { intros cells Hc a b Ha Hb. apply quiet_bind; [by apply quiet_gap_char|]. intros ?. by apply quiet_put. }
  destruct (_ || _); [apply quiet_ret|].
  apply quiet_bind; [by apply quiet_ld_cell|]. intros c.
  apply quiet_bind; [apply quiet_put; lia|]. intros [].
  apply quiet_bind; [|intros []]; apply quiet_when; intros E; apply andb_true_iff in E as [E1%Z.ltb_lt E2%Z.ltb_lt].
  - destruct (nz (c_right c)); [apply quiet_put; lia|].
    apply Hgap; [repeat constructor; cbn; lia|lia|lia].
  - apply quiet_bind; [|intros []].
    + destruct (nz (c_bottom c)); [apply quiet_put; lia|].
      apply Hgap; [repeat constructor; cbn; lia|lia|lia].
    + apply quiet_when. intros E. apply andb_true_iff in E as [E3%Z.ltb_lt E4%Z.ltb_lt].
      apply quiet_bind; [apply quiet_test; lia|]. intros b1. apply quiet_bind; [apply quiet_test; lia|]. intros b2.
      destruct (nz (c_right c) || nz (c_bottom c) || b1 || b2); [apply quiet_put; lia|].
      apply Hgap; [repeat constructor; cbn; lia|lia|lia].
Qed.

Lemma quiet_show_char x y : 0 ≤ x < DISPLAY_WIDTH → 0 ≤ y < DISPLAY_HEIGHT → quiet (show_char x y).
Proof.
  intros Hx Hy. unfold show_char. apply quiet_bind.
  { intros s [Hf Hd Hv]. unfold wp, on_display, ld.
    rewrite (proj2 (Z.ltb_ge _ 0)), lookup_at by lia. by destruct s. }
  intros ch. assert (∀ c k, quiet (on_vga (terminal_putentryat c k x y))) as Hput.
  { intros c k s [Hf Hd Hv]. unfold terminal_putentryat, VGA_WIDTH, VGA_HEIGHT.
    rewrite (proj2 (Z.leb_gt 80 x)), (proj2 (Z.leb_gt 25 y)) by lia. cbn [orb].
    unfold wp, on_vga, on_buf, st. unfold CELLS in Hv. rewrite (proj2 (Z.ltb_ge _ 0)), lookup_at by lia.
    split; [|done]. split; [done|done|]. cbn. rewrite length_insert. done. }
  repeat case_match; apply Hput.
Qed.

Lemma quiet_clear : quiet clear_display_buffer.
Proof. apply quiet_grid; [done|done|]. intros x y Hx Hy. by apply quiet_put. Qed.

Lemma quiet_put_text text x : 0 ≤ x → quiet (put_text x text).
Proof.
  revert x. induction text as [|c text IH]; intros x Hx; cbn [put_text]; [apply quiet_ret|].
  destruct (Z.ltb_spec x DISPLAY_WIDTH); [|apply quiet_ret].
  apply quiet_bind; [by apply quiet_put|]. intros []. apply IH. lia.
Qed.

Lemma quiet_draw_maze : quiet draw_maze.
Proof.
  unfold draw_maze. apply quiet_bind; [apply quiet_clear|]. intros [].
  apply quiet_bind; [by apply quiet_put_text|]. intros [].
  apply quiet_bind; [apply quiet_grid; [done|done|]; intros x y Hx Hy; apply quiet_draw_cell; by split|]. intros [].
  apply quiet_grid; [done|done|]. intros x y Hx Hy. by apply quiet_show_char.
Qed.

(** ** Opening a wall *)

Definition wall (k : bool) (c : cell) : Z := if k then c_right c else c_bottom c.
Definition opened (k : bool) : cell → cell := if k then open_right else open_bottom.
Definition beyond (k : bool) p : Z * Z := if k then right_of p else below p.

(** The walls that are open. *)
Definition doors m : nat :=
  size (filter (λ kv : (Z * Z) * cell, c_right kv.2 = 0) m) + size (filter (λ kv : (Z * Z) * cell, c_bottom kv.2 = 0) m).

Lemma size_filter_insert (P : (Z * Z) * cell → Prop) `{∀ kv, Decision (P kv)} m p c c' :
  m !! p = Some c →
  (size (filter P (<[p := c']> m)) + (if decide (P (p, c)) then 1 else 0) =
   size (filter P m) + (if decide (P (p, c')) then 1 else 0))%nat.
Proof.
  intros E. rewrite <- (insert_delete_id m p c E) at 2. rewrite <- (insert_delete_eq m p c').
  assert (delete p m !! p = None) as Hd by apply lookup_delete_eq. generalize dependent (delete p m). intros m0 Hd.
  assert (∀ d, size (filter P (<[p := d]> m0)) = (size (filter P m0) + (if decide (P (p, d)) then 1 else 0))%nat) as Hs.
  { intros d. destruct (decide (P (p, d))) as [Hp|Hp].
    - rewrite map_filter_insert_True by done. rewrite map_size_insert_None; [lia|].
      apply map_lookup_filter_None. by left.
    - rewrite map_filter_insert_False by done. rewrite delete_id by done. lia. }
  rewrite !Hs. lia.
Qed.

Lemma passage_walls m p q :
  passage m p q ↔ in_grid p ∧ in_grid q ∧
    ∃ k, (q = beyond k p ∧ ∃ c, m !! p = Some c ∧ wall k c = 0) ∨ (p = beyond k q ∧ ∃ c, m !! q = Some c ∧ wall k c = 0).
Proof.
  unfold passage. split.
  - intros (? & ? & [[? ?]|[[? ?]|[[? ?]|[? ?]]]]); (split; [done|split; [done|]]);
      [exists true; by left|exists true; by right|exists false; by left|exists false; by right].
  - intros (? & ? & [] & [[? ?]|[? ?]]); (split; [done|split; [done|]]); [left|right; left|right; right; left|right; right; right]; done.
Qed.

Lemma wall_opened k k' c : wall k' (opened k c) = if eqb k k' then 0 else wall k' c.
Proof. by destruct k, k'. Qed.

Record opening m (k : bool) (w : Z * Z) m' : Prop := {
  op_full : full m';
  op_here : passage m' w (beyond k w);
  op_mono p q : passage m p q → passage m' p q;
  op_only p q : passage m' p q → passage m p q ∨ (p = w ∧ q = beyond k w) ∨ (p = beyond k w ∧ q = w);
  op_doors : doors m' = S (doors m);
}.

Lemma open_door m k w c :
  full m → m !! w = Some c → in_grid (beyond k w) → wall k c ≠ 0 → opening m k w (<[w := opened k c]> m).
Proof.
  intros Hf Hw Hb Hc. assert (in_grid w) as Hg by (apply Hf; eauto).
  assert (∀ p k' d, <[w := opened k c]> m !! p = Some d → wall k' d = 0 →
    (∃ d', m !! p = Some d' ∧ wall k' d' = 0) ∨ (p = w ∧ k' = k)) as Hold.
  { intros p k' d E E0. destruct (decide (w = p)) as [<-|]; [|rewrite lookup_insert_ne in E by done; by left; exists d].
    rewrite lookup_insert_eq in E. injection E as <-. rewrite wall_opened in E0.
    destruct (eqb k k') eqn:Ek; [right; split; [done|symmetry; by apply eqb_prop]|left; by exists c]. }
  split.
  - apply grid_insert; eauto.
  - apply passage_walls. split; [done|]. split; [done|]. exists k. left. split; [done|]. exists (opened k c).
    rewrite lookup_insert_eq, wall_opened, eqb_reflx. done.
  - assert (∀ p k', (∃ d, m !! p = Some d ∧ wall k' d = 0) → ∃ d, <[w := opened k c]> m !! p = Some d ∧ wall k' d = 0) as Hnew.
    { intros p k' (d & E & E0). destruct (decide (w = p)) as [<-|]; [|exists d; by rewrite lookup_insert_ne].
      rewrite lookup_insert_eq. exists (opened k c). split; [done|]. rewrite wall_opened.
      assert (d = c) as -> by congruence. by destruct (eqb k k'). }
    intros p q. rewrite !passage_walls. intros (? & ? & k' & [[? ?]|[? ?]]); (split; [done|]; split; [done|]; exists k'); [left|right]; auto.
  - intros p q. rewrite !passage_walls. intros (Hp & Hq & k' & [[-> (d & E & E0)]|[-> (d & E & E0)]]);
      (destruct (Hold _ _ _ E E0) as [?|[-> ->]]; [left; split; [done|]; split; [done|]; exists k'; by auto|right; by auto]).
  - unfold doors.
    pose proof (size_filter_insert (λ kv, c_right kv.2 = 0) m w c (opened k c) Hw) as H1.
    pose proof (size_filter_insert (λ kv, c_bottom kv.2 = 0) m w c (opened k c) Hw) as H2. cbn [snd] in *.
    destruct k; unfold wall, opened, open_right, open_bottom in *; cbn [c_right c_bottom] in *.
    + rewrite decide_False in H1 by done. rewrite decide_True in H1 by done. destruct (decide (c_bottom c = 0)); lia.
    + rewrite decide_False in H2 by done. rewrite decide_True in H2 by done. destruct (decide (c_right c = 0)); lia.
Qed.

(** ** The walk *)

(** The direction names the wall between a cell and its neighbour. *)
Definition between (d : Z) p q (k : bool) (w : Z * Z) : Prop :=
  (p = w ∧ q = beyond k w ∨ p = beyond k w ∧ q = w) ∧
  ∀ s, remove_wall p.1 p.2 q.1 q.2 d s = st_cell w.1 w.2 (opened k) s.

Lemma neighbors_spec v x y nx ny d :
  in_grid (x, y) → (nx, ny, d) ∈ neighbors v x y →
  in_grid (nx, ny) ∧ ((nx, ny) ∉ v) ∧ ∃ k w, between d (x, y) (nx, ny) k w.
Proof.
  unfold in_grid. cbn [fst snd]. intros [Hx Hy]. unfold neighbors.
  rewrite !elem_of_app. unfold between, beyond, right_of, below, remove_wall.
  intros [H|[H|[H|H]]]; (destruct (_ && _) eqn:E in H; [|by apply not_elem_of_nil in H]);
    apply list_elem_of_singleton in H; injection H as -> -> ->; apply andb_true_iff in E as [E1%Z.ltb_lt E2%bool_decide_eq_true];
    (split; [lia|]; split; [done|]).
  - exists false, (x, y - 1). cbn. split; [right; split; [f_equal; lia|done]|done].
  - exists false, (x, y). cbn. split; [by left|done].
  - exists true, (x, y). cbn. split; [by left|done].
  - exists true, (x - 1, y). cbn. split; [right; split; [f_equal; lia|done]|done].
Qed.

Lemma neighbors_none v x y q :
  in_grid (x, y) → neighbors v x y = [] → adjacent (x, y) q → in_grid q → q ∈ v.
Proof.
  unfold in_grid. cbn [fst snd]. intros [Hx Hy]. unfold neighbors. intros Hn.
  apply app_eq_nil in Hn as [H1 Hn]. apply app_eq_nil in Hn as [H2 Hn]. apply app_eq_nil in Hn as [H3 H4].
  destruct q as [x' y']. unfold adjacent, right_of, below. cbn [fst snd].
  intros Ha Hq. destruct (decide ((x', y') ∈ v)) as [|Hv]; [done|exfalso].
  destruct Ha as [[= -> ->]|[[= -> ->]|[[= -> ->]|[= -> ->]]]].
  - rewrite (proj2 (Z.ltb_lt _ _)), bool_decide_eq_true_2 in H3 by (done || lia). done.
  - replace (x' + 1 - 1) with x' in H4 by lia. rewrite (proj2 (Z.ltb_lt _ _)), bool_decide_eq_true_2 in H4 by (done || lia). done.
  - rewrite (proj2 (Z.ltb_lt _ _)), bool_decide_eq_true_2 in H2 by (done || lia). done.
  - replace (y' + 1 - 1) with y' in H1 by lia. rewrite (proj2 (Z.ltb_lt _ _)), bool_decide_eq_true_2 in H1 by (done || lia). done.
Qed.

Record walk_inv (w : walk) m : Prop := {
  wi_full : full m;
  wi_grid p : p ∈ w_visited w → in_grid p;
  wi_first : (0, 0) ∈ w_visited w;
  wi_stack p : p ∈ w_stack w → p ∈ w_visited w;
  wi_nodup : NoDup (w_stack w);
  wi_reach p : p ∈ w_visited w → rtc (passage m) (0, 0) p;
  wi_closed p q : p ∈ w_visited w → p ∉ w_stack w → adjacent p q → in_grid q → q ∈ w_visited w;
  wi_doors p q : passage m p q → p ∈ w_visited w ∧ q ∈ w_visited w;
  wi_count : S (doors m) = size (w_visited w);
}.

Lemma random_range_ok n s :
  0 < n → ∃ r i, random_range n s = Ok (i, set_rng r s) ∧ 0 ≤ i < n.
Proof.
  intros Hn. unfold random_range. rewrite (proj2 (Z.eqb_neq n 0)) by lia. unfold random_next.
  eexists _, _. split; [reflexivity|]. by apply Z.mod_pos_bound.
Qed.

(** Visiting a neighbour that has not been visited. *)
Lemma walk_visit v st x y q k w m c :
  walk_inv (Walk v ((x, y) :: st)) m → in_grid q → q ∉ v →
  ((x, y) = w ∧ q = beyond k w ∨ (x, y) = beyond k w ∧ q = w) → m !! w = Some c →
  walk_inv (Walk ({[q]} ∪ v) (q :: (x, y) :: st)) (<[w := opened k c]> m).
Proof.
  intros [Hf Hg H0 Hs Hnd Hr Hc Hd Hn] Hq Hqv Hbet Hw. cbn [w_visited w_stack] in *.
  assert ((x, y) ∈ v) as Hp by (apply Hs; left). assert (in_grid (x, y)) as Hpg by by apply Hg.
  assert (in_grid w ∧ in_grid (beyond k w)) as [Hgw Hgb] by (destruct Hbet as [[<- <-]|[<- <-]]; done).
  assert (opening m k w (<[w := opened k c]> m)) as [Of Oh Om Oo Od].
  { apply open_door; [done..|]. intros E. destruct (Hd w (beyond k w)) as [H1 H2].
    - apply passage_walls. split; [done|]. split; [done|]. exists k. left. split; [done|]. by exists c.
    - destruct Hbet as [[_ ->]|[_ ->]]; done. }
  assert (passage (<[w := opened k c]> m) (x, y) q) as Hpq.
  { destruct Hbet as [[-> ->]|[E ->]]; [done|]. rewrite E. by apply passage_sym. }
  split; cbn [w_visited w_stack].
  - done.
  - intros p [->%elem_of_singleton|?]%elem_of_union; auto.
  - set_solver.
  - intros p [->|Hin]%elem_of_cons; [set_solver|]. apply elem_of_union_r. by apply Hs.
  - apply NoDup_cons. split; [|done]. intros Hin. by apply Hqv, Hs.
  - intros p [->%elem_of_singleton|Hin]%elem_of_union.
    + eapply rtc_r; [|exact Hpq]. eapply rtc_subrel; [|by apply Hr]. exact Om.
    + eapply rtc_subrel; [|by apply Hr]. exact Om.
  - intros p r [->%elem_of_singleton|Hin]%elem_of_union Hns Ha Hgr; [by destruct Hns; left|].
    apply elem_of_union_r. apply (Hc p r); try done. intros Hin'. apply Hns. by right.
  - intros p r [Hpr|[[-> ->]|[-> ->]]]%Oo; [destruct (Hd p r Hpr); set_solver|set_solver|set_solver].
  - rewrite Od, Hn. rewrite size_union by set_solver. by rewrite size_singleton.
Qed.

(** Going back from a cell whose neighbours have all been visited. *)
Lemma walk_back v st x y m :
  walk_inv (Walk v ((x, y) :: st)) m → neighbors v x y = [] → walk_inv (Walk v st) m.
Proof.
  intros [Hf Hg H0 Hs Hnd Hr Hc Hd Hn] He. cbn [w_visited w_stack] in *.
  split; cbn [w_visited w_stack]; try done.
  - intros p Hin. apply Hs. by right.
  - by apply NoDup_cons_1_2 in Hnd.
  - intros p q Hp Hns Ha Hq. destruct (decide (p = (x, y))) as [->|Hne].
    + eapply neighbors_none; [by apply Hg|done|done|done].
    + apply (Hc p q); try done. by intros [->|?]%elem_of_cons.
Qed.

(** The cells that were touched are those of the maze. *)
Definition carved s s' : Prop := z_display s' = z_display s ∧ z_vga s' = z_vga s ∧ z_out s' = z_out s ∧
  ∀ p, c_type <$> z_cells s' !! p = c_type <$> z_cells s !! p.

Lemma carve_ok fuel : ∀ w s,
  walk_inv w (z_cells s) → (2 * (390 - size (w_visited w)) + length (w_stack w) ≤ fuel)%nat →
  wp (carve fuel w) (λ _ s', (∃ v, walk_inv (Walk v []) (z_cells s')) ∧ carved s s') s.
Proof.
  induction fuel as [|fuel IH]; intros [v [|[x y] st]] s Hw Hf; cbn [carve w_stack w_visited] in *;
    try (apply wp_ret; split; [by exists v|done]); [cbn [length] in Hf; lia|].
  assert (size v ≤ 390)%nat as Hsize by (apply grid_subset; apply Hw).
  destruct (Z.ltb_spec 0 (len (neighbors v x y))) as [Hpos|Hnone].
  - destruct (random_range_ok _ s Hpos) as (r & i & Er & Hi). apply wp_bind. eapply wp_intro; [exact Er|].
    destruct (lookup_lt_is_Some_2 (neighbors v x y) (Z.to_nat i)) as [[[nx ny] d] En]; [lia|]. rewrite En.
    assert (in_grid (x, y)) as Hg by (apply (wi_grid _ _ Hw), (wi_stack _ _ Hw); left).
    apply list_elem_of_lookup_2, neighbors_spec in En as (Hq & Hqv & k & w & Hbet & Ewall); [|done].
    cbn [fst snd] in Ewall.
    assert (in_grid w) as Hgw by (destruct Hbet as [[<- _]|[_ <-]]; done). destruct (proj2 (wi_full _ _ Hw w) Hgw) as [c Ec].
    apply wp_bind. unfold wp at 1. rewrite Ewall. destruct w as [wx wy].
    apply (wp_st_cell _ _ _ _ _ c); [exact Ec|]. pose proof (walk_visit _ _ _ _ _ _ _ _ _ Hw Hq Hqv Hbet Ec) as Hw'.
    pose proof (grid_subset _ (wi_grid _ _ Hw')) as Hs'. cbn [w_visited] in Hs'.
    assert (size ({[(nx, ny)]} ∪ v) = S (size v)) as Esz by (rewrite size_union by set_solver; by rewrite size_singleton).
    assert (length ((x, y) :: st) ≤ size v)%nat as Hst.
    { rewrite <- (size_list_to_set (C:=gset (Z * Z)) ((x, y) :: st)) by apply Hw. apply subseteq_size.
      intros p Hp%elem_of_list_to_set. by apply (wi_stack _ _ Hw). }
    rewrite (proj2 (Z.leb_gt _ _)) by (lia).
    eapply wp_mono; [apply IH; [exact Hw'|]|].
    + cbn [w_visited w_stack length] in *. rewrite Esz. lia.
    + cbv beta. intros _ s' (Hv & Hd & Hg' & Ho & Ht). split; [done|]. split; [done|]. split; [done|]. split; [done|].
      intros p. rewrite (Ht p). cbn [set_cells set_rng z_cells].
      destruct (decide ((wx, wy) = p)) as [<-|]; [rewrite lookup_insert_eq, Ec|by rewrite lookup_insert_ne].
      cbn. f_equal. by destruct k.
  - apply IH.
    + apply (walk_back v st x y); [done|]. apply nil_length_inv. lia.
    + cbn [w_visited w_stack length] in *. lia.
Qed.

(** ** Generation *)

Lemma st_all_ok f s :
  full (z_cells s) → wp (for_grid MAZE_HEIGHT MAZE_WIDTH (λ x y, st_cell x y f)) (λ _ s', s' = set_cells (fmap f) s) s.
Proof.
  intros Hf. unfold for_grid.
  (* the cells before (x, y) in reading order have been set *)
  set (upto := λ (x y : Z) p, bool_decide (p.2 < y ∨ p.2 = y ∧ p.1 < x)).
  set (I := λ x y t, ∃ m, t = set_cells (λ _, m) s ∧ ∀ p, m !! p = (if upto x y p then f <$> z_cells s !! p else z_cells s !! p)).
  assert (∀ x y t, 0 ≤ x < 39 → 0 ≤ y < 10 → I x y t → wp (st_cell x y f) (λ _ t', I (x + 1) y t') t) as Hstep.
  { intros x y t Hx Hy (m & -> & Hm). destruct (proj2 (Hf (x, y))) as [c Ec]; [by split|].
    apply (wp_st_cell _ _ _ _ _ c).
    - cbn [set_cells z_cells]. rewrite Hm. unfold upto. rewrite bool_decide_eq_false_2; [done|]. cbn. lia.
    - exists (<[(x, y) := f c]> m). split; [done|]. intros p. destruct (decide ((x, y) = p)) as [<-|Hne].
      + rewrite lookup_insert_eq. unfold upto. rewrite bool_decide_eq_true_2 by (cbn; lia). by rewrite Ec.
      + rewrite lookup_insert_ne, Hm by done. unfold upto.
        assert (p.2 < y ∨ p.2 = y ∧ p.1 < x ↔ p.2 < y ∨ p.2 = y ∧ p.1 < x + 1) as Hiff.
        { destruct p as [px py]. cbn. split; [lia|]. intros [|[-> ?]]; [lia|]. right. split; [done|].
          destruct (decide (px = x)) as [->|]; [done|lia]. }
        by rewrite (bool_decide_ext _ _ Hiff). }
  assert (∀ y t, I 39 y t → I 0 (y + 1) t) as Hrow.
  { intros y t (m & -> & Hm). exists m. split; [done|]. intros p. rewrite Hm. unfold upto.
    destruct (z_cells s !! p) as [c|] eqn:E; [|by repeat case_match]. assert (in_grid p) as [Hp1 Hp2] by (apply Hf; eauto).
    assert (p.2 < y ∨ p.2 = y ∧ p.1 < 39 ↔ p.2 < y + 1 ∨ p.2 = y + 1 ∧ p.1 < 0) as Hiff.
    { lia. }
    by rewrite (bool_decide_ext _ _ Hiff). }
  eapply wp_mono; [apply (wp_for_up_to 10 _ (λ y t, I 0 y t)); [done| |]|].
  - exists (z_cells s). split; [by destruct s|]. intros p. destruct (z_cells s !! p) as [c|] eqn:E; [|by case_match].
    assert (in_grid p) as [Hp1 Hp2] by (apply Hf; eauto). unfold upto. rewrite bool_decide_eq_false_2 by lia. done.
  - intros y t Hy Ht. eapply wp_mono; [apply (wp_for_up_to 39 _ (λ x t, I x y t)); [done|done|]|].
    + intros x t' Hx Ht'. by apply Hstep.
    + cbv beta. intros _ t'. apply Hrow.
  - cbv beta. intros _ t (m & -> & Hm). assert (m = f <$> z_cells s) as ->; [|done].
    apply map_eq. intros p. rewrite Hm, lookup_fmap. destruct (z_cells s !! p) as [c|] eqn:E; [|by case_match].
    assert (in_grid p) as [Hp1 Hp2] by (apply Hf; eauto). unfold upto in *. by rewrite bool_decide_eq_true_2 by lia.
Qed.

Lemma full_fmap m (f : cell → cell) : full m → full (f <$> m).
Proof. intros Hf p. rewrite lookup_fmap, fmap_is_Some. apply Hf. Qed.

Lemma walk_start m : full m → walk_inv (Walk {[(0, 0)]} [(0, 0)]) (closed_cell <$> m).
Proof.
  intros Hf. assert (∀ p q, ¬ passage (closed_cell <$> m) p q) as Hno.
  { intros p q. rewrite passage_walls. intros (_ & _ & k & [(_ & c & E & E0)|(_ & c & E & E0)]);
      apply lookup_fmap_Some in E as (? & <- & _); by destruct k. }
  split; cbn [w_visited w_stack].
  - by apply full_fmap.
  - by intros p ->%elem_of_singleton.
  - by apply elem_of_singleton.
  - intros p ->%list_elem_of_singleton. by apply elem_of_singleton.
  - apply NoDup_singleton.
  - by intros p ->%elem_of_singleton.
  - intros p q ->%elem_of_singleton Hn. destruct Hn. by apply list_elem_of_singleton.
  - intros p q H. by apply Hno in H.
  - rewrite size_singleton. f_equal. unfold doors.
    rewrite !map_empty_filter_2 by (intros p c (? & <- & _)%lookup_fmap_Some; done). done.
Qed.

(** A maze as it is generated: from the source every cell can be reached, no wall could be put back
    without losing one, and only the two ends are marked. *)
Record perfect s : Prop := {
  pf_ok : mz_ok s;
  pf_reach p : in_grid p → rtc (passage (z_cells s)) (0, 0) p;
  pf_doors : doors (z_cells s) = 389%nat;
}.

Definition ends p : Prop := p = (0, 0) ∨ p = (MAZE_WIDTH - 1, MAZE_HEIGHT - 1).

(** The types of the cells: the two ends, and the given ones elsewhere. *)
Record marked (allowed : Z → Prop) m : Prop := {
  mk_source c : m !! (0, 0) = Some c → c_type c = SOURCE;
  mk_sink c : m !! (MAZE_WIDTH - 1, MAZE_HEIGHT - 1) = Some c → c_type c = SINK;
  mk_other p c : m !! p = Some c → ¬ ends p → allowed (c_type c);
}.

Lemma size_filter_walls (g : cell → Z) m m' :
  (∀ p, g <$> m !! p = g <$> m' !! p) →
  size (filter (λ kv : (Z * Z) * cell, g kv.2 = 0) m) = size (filter (λ kv : (Z * Z) * cell, g kv.2 = 0) m').
Proof.
  intros Hp. rewrite <- !(size_dom (D:=gset (Z * Z))). f_equal. apply set_eq. intros p. rewrite !elem_of_dom.
  specialize (Hp p). unfold is_Some. setoid_rewrite map_lookup_filter_Some. cbn [snd].
  destruct (m !! p) as [c|], (m' !! p) as [c'|]; cbn in Hp; try done. injection Hp as Hp.
  split; intros (d & [= <-] & E); eexists; (split; [done|congruence]).
Qed.

Lemma doors_walls m m' : same_walls m m' → doors m = doors m'.
Proof.
  intros H. unfold doors. rewrite (size_filter_walls c_right m m'), (size_filter_walls c_bottom m m'); [done|..];
    intros p; specialize (H p); destruct (m !! p), (m' !! p); cbn in *; try done; injection H as H1 H2; by f_equal.
Qed.

Lemma generate_ok fuel ticks ticks' s :
  mz_ok s → (779 ≤ fuel)%nat →
  wp (generate_maze fuel ticks ticks') (λ _ s', perfect s' ∧ marked (λ t, t = CORRIDOR) (z_cells s') ∧ z_out s' = z_out s) s.
Proof.
  intros Hs Hf. unfold generate_maze, maze_init.
  apply wp_bind, wp_bind, wp_modify.
  set (s0 := Mz _ _ _ _ _ _). assert (mz_ok s0) as H0 by (by destruct Hs).
  eapply wp_bind_mono; [by apply quiet_clear|]. cbv beta. intros [] s1 (O1 & C1 & P1).
  apply wp_bind, wp_modify. unfold close_all.
  eapply wp_mono; [apply st_all_ok; apply O1|]. cbv beta. intros [] s2 ->.
  apply wp_bind, wp_modify. eapply wp_bind_mono; [apply st_all_ok; cbn; apply full_fmap, O1|].
  cbv beta. intros [] s3 ->.
  assert (closed_cell <$> (closed_cell <$> z_cells s1) = closed_cell <$> z_cells s1) as E.
  { rewrite <- map_fmap_compose. by apply map_fmap_ext. }
  eapply wp_bind_mono; [apply carve_ok|].
  - cbn [set_cells set_rng z_cells]. rewrite E. apply walk_start, O1.
  - cbn [w_visited w_stack length]. rewrite size_singleton. lia.
  - cbv beta. intros [] s4 ((v & Hv) & Hd & Hg & Ho & Ht). cbn [z_display z_vga z_out z_cells] in *.
    pose proof (wi_full _ _ Hv) as F4.
    destruct (proj2 (F4 (0, 0))) as [c Ec]; [done|]. apply wp_bind, (wp_st_cell _ _ _ _ _ c); [done|].
    destruct (proj2 (F4 (MAZE_WIDTH - 1, MAZE_HEIGHT - 1))) as [c' Ec']; [done|].
    apply wp_bind, (wp_st_cell _ _ _ _ _ c'); [cbn [set_cells z_cells]; by rewrite lookup_insert_ne|].
    set (s5 := set_cells _ _).
    assert (same_walls (z_cells s4) (z_cells s5)) as Hsw.
    { unfold s5. cbn [set_cells z_cells]. etrans; [by apply (same_walls_insert _ (0, 0) c (set_type SOURCE c))|].
      eapply same_walls_insert; [by rewrite lookup_insert_ne|done|done]. }
    assert (mz_ok s5) as O5.
    { split; [by eapply same_walls_full|unfold s5; cbn; rewrite Hd; apply O1|unfold s5; cbn; rewrite Hg; apply O1]. }
    eapply wp_mono; [by apply quiet_draw_maze|]. cbv beta. intros _ s6 (O6 & C6 & P6). split; [|split].
    + split; [done|rewrite C6..].
      * intros p Hp. eapply rtc_subrel; [intros a b; by apply same_walls_passage|]. apply (wi_reach _ _ Hv). cbn [w_visited].
        apply (closed_grid v); [apply Hv| |done]. intros a b Ha Hab Hb. apply (wi_closed _ _ Hv a b Ha); [apply not_elem_of_nil|done|done].
      * rewrite <- (doors_walls _ _ Hsw). pose proof (wi_count _ _ Hv) as Hcnt. cbn [w_visited] in Hcnt.
        assert (v = list_to_set grid) as Ev; [|rewrite Ev, size_grid in Hcnt; by injection Hcnt].
        apply set_eq. intros p. rewrite elem_of_list_to_set, elem_of_grid. split; [apply (wi_grid _ _ Hv)|].
        apply (closed_grid v); [apply Hv|]. intros a b Ha Hab Hb. apply (wi_closed _ _ Hv a b Ha); [apply not_elem_of_nil|done|done].
    + rewrite C6. unfold s5. cbn [set_cells z_cells]. split.
      * intros d. rewrite lookup_insert_ne, lookup_insert_eq by done. by intros [= <-].
      * intros d. rewrite lookup_insert_eq. by intros [= <-].
      * intros p d Ed Hn. unfold ends in Hn. rewrite !lookup_insert_ne in Ed by naive_solver.
        specialize (Ht p). rewrite Ed in Ht. symmetry in Ht. apply fmap_Some in Ht as (d' & (? & <- & _)%lookup_fmap_Some & ->). done.
    + rewrite P6. unfold s5. cbn. rewrite Ho. exact P1.
Qed.
