(* ===== verification/MazeSolve.v ===== *)
(** * The search of the maze *)

From stdpp Require Import relations.
From S2P Require Import Prelude Loops Arrays Format Vga VgaProps Maze MazeProps.

Implicit Types (m : gmap (Z * Z) cell) (p q r : Z * Z) (s : mz).

(** ** Cells by type *)

Definition ty m p : option Z := c_type <$> m !! p.

(** A cell the search may still enter. *)
Definition white m p : Prop := ty m p = Some CORRIDOR ∨ ty m p = Some SINK.

#[local] Instance white_dec m p : Decision (white m p).
Proof. unfold white. apply _. Defined.

Definition whites m : gset (Z * Z) := filter (white m) (dom m).

Lemma elem_of_whites m p : p ∈ whites m ↔ white m p.
Proof.
  unfold whites. rewrite elem_of_filter, elem_of_dom. split; [by intros [? _]|]. intros H. split; [done|].
  unfold white, ty in H. destruct (m !! p); [eauto|]. by destruct H.
Qed.

(** Between [m] and [m'] corridors were visited, and some of the cells of [l] became the path. *)
Record dark (l : list (Z * Z)) m m' : Prop := {
  dk_walls : same_walls m m';
  dk_type q : ty m' q = ty m q ∨
    ((ty m q = Some CORRIDOR ∨ ty m q = Some VISITED) ∧ (ty m' q = Some VISITED ∨ ty m' q = Some PATH ∧ q ∈ l));
}.

Lemma dark_refl m : dark [] m m.
Proof. split; [done|by left]. Qed.

Lemma dark_trans l l' m m1 m2 : dark [] m m1 → dark l m1 m2 → (∀ q, q ∈ l → q ∈ l') → dark l' m m2.
Proof.
  intros [W1 T1] [W2 T2] Hl. split; [by etrans|]. intros q.
  destruct (T2 q) as [->|[H2 H2']]; [destruct (T1 q) as [->|[H1 [H1'|[_ []%not_elem_of_nil]]]]; [by left|right; by auto]|].
  right. split; [|naive_solver]. destruct (T1 q) as [E|[H1 _]]; [by rewrite <- E|done].
Qed.

Lemma white_dark l m m' q : dark l m m' → white m' q → white m q.
Proof.
  intros [_ T] H. destruct (T q) as [E|[_ H']]; [unfold white in *; by rewrite <- E|]. exfalso.
  unfold white in *. destruct H' as [H'|[H' _]]; rewrite H' in H; naive_solver.
Qed.

Section search.
Context (T : Z * Z).

(** A route from [p] to the target through open walls. *)
Inductive route m : Z * Z → list (Z * Z) → Prop :=
  | route_here : route m T [T]
  | route_step p q l : passage m p q → route m q l → route m p (p :: l).

Lemma route_walls m m' p l : same_walls m m' → route m p l → route m' p l.
Proof. intros H. induction 1; [constructor|econstructor; [by eapply same_walls_passage|done]]. Qed.

(** The search from [p] found the target, or ended without it. *)
Record found m p m' : Prop := {
  fd_route : ∃ l, dark l m m' ∧ route m p l ∧
    ∀ q, q ∈ l → ty m' q = Some PATH ∨ q = T ∨ ty m q = Some SOURCE;
  fd_target : ty m' T = Some SINK;
}.

Record failed (X : Z * Z → Prop) m m' : Prop := {
  fl_dark : dark [] m m';
  fl_target : ty m' T = Some SINK;
  fl_closed q r : X q ∨ white m q → ¬ white m' q → passage m q r → ¬ white m' r;
}.

(** What is not the maze stays. *)
Definition kept s s' : Prop := z_display s' = z_display s ∧ z_vga s' = z_vga s ∧ z_out s' = z_out s ∧ z_rng s' = z_rng s
  ∧ z_next_set_id s' = z_next_set_id s.

Record ready s p : Prop := {
  rd_full : full (z_cells s);
  rd_grid : in_grid p;
  rd_sink q : ty (z_cells s) q = Some SINK ↔ q = T;
}.

Definition result s p (b : bool) s' : Prop :=
  kept s s' ∧ if b then found (z_cells s) p (z_cells s')
              else failed (λ q, q = p) (z_cells s) (z_cells s') ∧ ¬ white (z_cells s') p.

Lemma ty_insert m p c q : ty (<[p := c]> m) q = if decide (q = p) then Some (c_type c) else ty m q.
Proof. unfold ty. destruct (decide (q = p)) as [->|]; [by rewrite lookup_insert_eq|by rewrite lookup_insert_ne]. Qed.

Lemma dark_visit m p c : m !! p = Some c → c_type c = CORRIDOR → dark [] m (<[p := set_type VISITED c]> m).
Proof.
  intros E Hc. split; [by eapply same_walls_insert|]. intros q. rewrite ty_insert.
  destruct (decide (q = p)) as [->|]; [|by left]. right. split; [left; unfold ty; rewrite E; cbn; by rewrite Hc|by left].
Qed.

Lemma dark_more p l m m' : dark l m m' → dark (p :: l) m m'.
Proof.
  intros [W D]. split; [done|]. intros q. destruct (D q) as [|[? [?|[? ?]]]]; [by left|right; by auto|right].
  split; [done|]. right. split; [done|by right].
Qed.

Lemma dark_source l m m' p : dark l m m' → ty m p = Some SOURCE → ty m' p = Some SOURCE.
Proof.
  intros [_ D] Hp. destruct (D p) as [->|[H _]]; [done|]. exfalso. rewrite Hp in H.
  naive_solver.
Qed.

Lemma dark_source_inv l m m' p : dark l m m' → ty m' p = Some SOURCE → ty m p = Some SOURCE.
Proof.
  intros [_ D] Hp. destruct (D p) as [<-|[_ H]]; [done|]. exfalso. rewrite Hp in H.
  naive_solver.
Qed.

Lemma dark_sink_inv l m m' p : dark l m m' → ty m' p = Some SINK → ty m p = Some SINK.
Proof.
  intros [_ D] Hp. destruct (D p) as [<-|[_ H]]; [done|]. exfalso. rewrite Hp in H.
  naive_solver.
Qed.

Lemma failed_start s p : ready s p → failed (λ _, False) (z_cells s) (z_cells s).
Proof. intros Hr. split; [apply dark_refl|by apply Hr|]. intros a r [[]|Ha] Hna; by destruct Hna. Qed.

Lemma ready_after s s1 p : ready s p → dark [] (z_cells s) (z_cells s1) → ty (z_cells s1) T = Some SINK → ready s1 p.
Proof.
  intros Hr D1 T1. split; [by eapply same_walls_full; [apply D1|apply Hr]|exact (rd_grid _ _ Hr)|].
  intros a. split; [|by intros ->]. intros Ea. apply (rd_sink _ _ Hr). by eapply dark_sink_inv.
Qed.

Lemma found_after m m1 m2 p : dark [] m m1 → found m1 p m2 → found m p m2.
Proof.
  intros D1 [(l & D2 & Rt & Hl) Ht]. split; [|done]. exists l. split; [by eapply dark_trans|].
  split; [by eapply route_walls; [symmetry; apply D1|]|].
  intros r Hrl. destruct (Hl r Hrl) as [?|[?|Hs]]; [by left|by right; left|right; right]. by eapply dark_source_inv.
Qed.

Lemma failed_trans m m1 m2 :
  failed (λ _, False) m m1 → failed (λ _, False) m1 m2 → failed (λ _, False) m m2.
Proof.
  intros [D1 T1 C1] [D2 T2 C2]. split; [by eapply dark_trans|done|]. intros a r [[]|Ha] Hna Har.
  destruct (decide (white m1 a)) as [Ha1|Hna1].
  - apply (C2 a r); [by right|done|by eapply same_walls_passage; [apply D1|]].
  - intros Hw. apply (C1 a r); [by right|done|done|]. by eapply white_dark.
Qed.

(** One direction after the other, from a cell [p] that is not white. *)
Definition tried s p (ds : list (Z * Z)) (b : bool) s' : Prop :=
  kept s s' ∧
  if b then found (z_cells s) p (z_cells s')
  else failed (λ _, False) (z_cells s) (z_cells s') ∧
    ∀ d, d ∈ ds → passage (z_cells s) p (p.1 + d.1, p.2 + d.2) → ¬ white (z_cells s') (p.1 + d.1, p.2 + d.2).

Lemma tried_cons s s1 s2 p d ds b :
  kept s s1 → failed (λ _, False) (z_cells s) (z_cells s1) →
  (passage (z_cells s) p (p.1 + d.1, p.2 + d.2) → ¬ white (z_cells s1) (p.1 + d.1, p.2 + d.2)) →
  tried s1 p ds b s2 → tried s p (d :: ds) b s2.
Proof.
  intros (A1 & A2 & A3 & A4 & A5) F1 Hd [(B1 & B2 & B3 & B4 & B5) H2]. split; [repeat split; congruence|].
  destruct b; [by eapply found_after; [apply F1|]|]. destruct H2 as [F2 H2]. split; [by eapply failed_trans|].
  intros e [->|He]%elem_of_cons Hpass.
  - intros Hw. apply Hd; [done|]. by eapply white_dark; [apply F2|].
  - apply H2; [done|]. by eapply same_walls_passage; [apply F1|].
Qed.

(** The target was found behind the neighbour [q]: [p] joins the path. *)
Lemma mark_path s s1 p q :
  ready s p → (ty (z_cells s) p = Some VISITED ∨ ty (z_cells s) p = Some SOURCE) →
  passage (z_cells s) p q → kept s s1 → found (z_cells s) q (z_cells s1) →
  wp (c ← ld_cell p.1 p.2; when (negb (is_type SOURCE c)) (st_cell p.1 p.2 (set_type PATH)) ;; mret true)
    (λ b s', kept s s' ∧ b = true ∧ found (z_cells s) p (z_cells s')) s1.
Proof.
  intros Hr Hp Hpass K1 [(l & D1 & Rt & Hl) Ht].
  destruct (proj2 (same_walls_full _ _ (dk_walls _ _ _ D1) (rd_full _ _ Hr) p) (rd_grid _ _ Hr)) as [cp Ecp].
  assert (ty (z_cells s1) p = Some (c_type cp)) as Ecp' by (unfold ty; by rewrite Ecp).
  destruct p as [px py]. cbn [fst snd] in *.
  apply wp_bind, (wp_ld_cell _ _ _ _ cp Ecp). unfold when. destruct (is_type SOURCE cp) eqn:Es; cbn [negb].
  - apply Z.eqb_eq in Es. apply wp_bind, wp_ret, wp_ret. split; [done|]. split; [done|]. split; [|done].
    exists ((px, py) :: l). split; [by apply dark_more|split; [by econstructor|]].
    intros a [->|Ha]%elem_of_cons; [|by apply Hl]. right. right. eapply dark_source_inv; [exact D1|]. by rewrite Ecp', Es.
  - apply Z.eqb_neq in Es. apply wp_bind, (wp_st_cell _ _ _ _ _ cp Ecp), wp_ret. split; [done|]. split; [done|]. cbn [set_cells z_cells].
    assert ((px, py) ≠ T) as HpT.
    { intros E. apply (rd_sink _ _ Hr) in E. rewrite E in Hp. naive_solver. }
    split; [|by rewrite ty_insert, decide_False by congruence].
    exists ((px, py) :: l). split; [|split; [by econstructor|]].
    + apply (dark_more (px, py)) in D1. split; [etrans; [apply D1|by eapply same_walls_insert]|].
      intros a. rewrite ty_insert. destruct (decide (a = (px, py))) as [->|Hne]; [|apply D1].
      right. split; [right|right; split; [done|left]].
      destruct Hp as [?|Hp]; [done|]. apply (dark_source _ _ _ _ D1) in Hp. rewrite Ecp' in Hp. by injection Hp.
    + intros a Ha. rewrite ty_insert. destruct (decide (a = (px, py))) as [->|Hne]; [by left|].
      apply elem_of_cons in Ha as [->|Ha]; [done|by apply Hl].
Qed.

Lemma white_type m p c : m !! p = Some c → is_type CORRIDOR c || is_type SINK c = true ↔ white m p.
Proof.
  intros E. unfold white, ty, is_type. rewrite E. cbn. rewrite orb_true_iff, !Z.eqb_eq.
  split; intros [H|H]; [left|right|left|right]; congruence.
Qed.

Lemma try_dirs_ok solve p n :
  (∀ q s, ready s q → white (z_cells s) q → (size (whites (z_cells s) ∖ {[q]}) ≤ n)%nat →
     wp (solve q.1 q.2) (result s q) s) →
  ∀ ds s, ready s p → (ty (z_cells s) p = Some VISITED ∨ ty (z_cells s) p = Some SOURCE) →
  (size (whites (z_cells s)) ≤ S n)%nat →
  wp (try_dirs solve p.1 p.2 ds) (tried s p ds) s.
Proof.
  intros Hsolve. induction ds as [|[dx dy] ds IH]; intros s Hr Hp Hn; cbn [try_dirs].
  { apply wp_ret. split; [done|]. split; [by eapply failed_start|by intros d ?%not_elem_of_nil]. }
  set (q := (p.1 + dx, p.2 + dy)).
  assert (∀ s1, kept s s1 → failed (λ _, False) (z_cells s) (z_cells s1) →
    (passage (z_cells s) p q → ¬ white (z_cells s1) q) →
    wp (try_dirs solve p.1 p.2 ds) (tried s p ((dx, dy) :: ds)) s1) as Hrest.
  { intros s1 K1 F1 Hq. pose proof (fl_dark _ _ _ F1) as D1.
    eapply wp_mono; [apply IH; [by apply (ready_after s); [..|apply F1]| |]|].
    - destruct (dk_type _ _ _ D1 p) as [->|[_ [H|[_ []%not_elem_of_nil]]]]; [done|by left].
    - etrans; [|exact Hn]. apply subseteq_size. intros r. rewrite !elem_of_whites. by apply (white_dark []).
    - intros b s2 H2. by eapply tried_cons. }
  destruct (can_move_ok s p q (rd_full _ _ Hr) (rd_grid _ _ Hr)) as (b & Eb & Hb).
  apply wp_bind. eapply wp_intro; [exact Eb|]. destruct b; cbn [fst snd].
  2: { apply wp_bind, wp_ret, Hrest; [done|by eapply failed_start|]. intros Hpass. by apply Hb in Hpass. }
  assert (passage (z_cells s) p q) as Hpass by by apply Hb. pose proof Hpass as (_ & Hqg & _).
  destruct (proj2 (rd_full _ _ Hr q) Hqg) as [c Ec].
  apply wp_bind, wp_bind, (wp_ld_cell _ _ _ _ c Ec), wp_ret. pose proof (white_type _ _ _ Ec) as Hw.
  destruct (is_type CORRIDOR c || is_type SINK c).
  2: { apply Hrest; [done|by eapply failed_start|]. intros _ ?%Hw. done. }
  assert (white (z_cells s) q) as Hwq by by apply Hw.
  eapply wp_bind_mono; [apply (Hsolve q s); [|done|]|].
  - split; [apply Hr|done|apply Hr].
  - assert (q ∈ whites (z_cells s)) as Hin by by apply elem_of_whites.
    rewrite size_difference by set_solver. rewrite size_singleton. lia.
  - intros b1 s1 [K1 H1]. destruct b1.
    + eapply wp_mono; [by eapply mark_path|]. intros b2 s2 (K2 & -> & F2). by split.
    + destruct H1 as [[D1 T1 C1] Hnw]. apply Hrest; [done| |done]. split; [done|done|].
      intros a r [[]|Ha]. apply C1. by right.
Qed.

Lemma passage_dirs m p q : passage m p q → ∃ d, d ∈ directions ∧ q = (p.1 + d.1, p.2 + d.2).
Proof.
  intros (_ & _ & H). destruct p as [x y], q as [x' y']. unfold right_of, below in H. cbn [fst snd] in *.
  destruct H as [[[= -> ->] _]|[[[= -> ->] _]|[[[= -> ->] _]|[[= -> ->] _]]]].
  - exists (1, 0). split; [set_solver|cbn; f_equal; lia].
  - exists (-1, 0). split; [set_solver|cbn; f_equal; lia].
  - exists (0, 1). split; [set_solver|cbn; f_equal; lia].
  - exists (0, -1). split; [set_solver|cbn; f_equal; lia].
Qed.

(** Entering a cell other than the target. *)
Lemma mark_visited s p (Q : unit → mz → Prop) c :
  ready s p → p ≠ T → (white (z_cells s) p ∨ ty (z_cells s) p = Some SOURCE) → z_cells s !! p = Some c →
  (∀ s1, kept s s1 → dark [] (z_cells s) (z_cells s1) → ready s1 p →
     (ty (z_cells s1) p = Some VISITED ∨ ty (z_cells s1) p = Some SOURCE) →
     whites (z_cells s1) ⊆ whites (z_cells s) ∖ {[p]} → (∀ q, q ≠ p → white (z_cells s) q → white (z_cells s1) q) →
     Q tt s1) →
  wp (when (is_type CORRIDOR c) (st_cell p.1 p.2 (set_type VISITED))) Q s.
Proof.
  intros Hr HT Hp Ec HQ. assert (ty (z_cells s) p = Some (c_type c)) as Ep by (unfold ty; by rewrite Ec).
  assert (∀ m', dark [] (z_cells s) m' → ty m' p = Some VISITED ∨ ty m' p = Some SOURCE →
    whites m' ⊆ whites (z_cells s) ∖ {[p]}) as Hsub.
  { intros m' D' Hm' q. rewrite elem_of_difference, !elem_of_whites, elem_of_singleton. intros Hq.
    split; [by eapply white_dark|]. intros ->. unfold white in *. naive_solver. }
  unfold when. destruct (is_type CORRIDOR c) eqn:Hc.
  - apply Z.eqb_eq in Hc. destruct p as [x y]. apply (wp_st_cell _ _ _ _ _ c Ec).
    assert (dark [] (z_cells s) (z_cells (set_cells <[(x, y) := set_type VISITED c]> s))) as D by by apply dark_visit.
    assert (ty (z_cells (set_cells <[(x, y) := set_type VISITED c]> s)) (x, y) = Some VISITED) as Hv.
    { cbn [set_cells z_cells]. by rewrite ty_insert, decide_True. }
    apply HQ; [done|done| |by left|apply Hsub; auto|].
    2: { intros q Hq. unfold white. cbn [set_cells z_cells]. by rewrite ty_insert, decide_False. }
    eapply ready_after; [exact Hr|done|].
    cbn [set_cells z_cells]. rewrite ty_insert, decide_False by congruence. by apply Hr.
  - apply wp_ret. apply Z.eqb_neq in Hc. assert (ty (z_cells s) p = Some SOURCE) as Hs.
    { destruct Hp as [[Hp|Hp]|Hp]; [congruence| |done]. by apply (rd_sink _ _ Hr) in Hp. }
    apply HQ; [done|apply dark_refl|done|by right| |done]. apply Hsub; [apply dark_refl|by right].
Qed.

(** From a corridor, the source or the sink the search ends, and finds the target unless it is cut off. *)
Lemma dfs_ok fuel : ∀ p s,
  ready s p → (white (z_cells s) p ∨ ty (z_cells s) p = Some SOURCE) →
  (size (whites (z_cells s) ∖ {[p]}) ≤ fuel)%nat →
  wp (dfs_solve fuel T.1 T.2 p.1 p.2) (result s p) s.
Proof.
  induction fuel as [fuel IH] using lt_wf_ind; intros p s Hr Hp Hn.
  destruct (proj2 (rd_full _ _ Hr p) (rd_grid _ _ Hr)) as [c Ec].
  assert (dfs_solve fuel T.1 T.2 p.1 p.2 =
    c ← ld_cell p.1 p.2; when (is_type CORRIDOR c) (st_cell p.1 p.2 (set_type VISITED)) ;;
    if (p.1 =? T.1) && (p.2 =? T.2) then st_cell p.1 p.2 (set_type SINK) ;; mret true else
    match fuel with
    | O => out_of_fuel
    | S fuel => try_dirs (dfs_solve fuel T.1 T.2) p.1 p.2 directions
    end) as -> by by destruct fuel.
  apply wp_bind, wp_ld_cell with (c := c); [by destruct p|].
  destruct (decide (p = T)) as [->|HT].
  - assert (c_type c = SINK) as Ht.
    { assert (ty (z_cells s) T = Some SINK) as E by by apply Hr. unfold ty in E. rewrite Ec in E. by injection E. }
    unfold when, is_type. rewrite Ht. change (SINK =? CORRIDOR) with false. cbv iota. apply wp_bind, wp_ret.
    rewrite !Z.eqb_refl. cbn [andb]. apply wp_bind, wp_st_cell with (c := c); [by destruct T|]. apply wp_ret.
    split; [done|]. rewrite <- surjective_pairing. cbn [set_cells z_cells].
    assert (∀ q, ty (<[T := set_type SINK c]> (z_cells s)) q = ty (z_cells s) q) as Eq.
    { intros q. rewrite ty_insert. destruct (decide (q = T)) as [->|]; [|done]. symmetry. by apply Hr. }
    split; [|rewrite Eq; by apply Hr]. exists [T]. split; [|split; [constructor|]].
    + split; [by eapply same_walls_insert|]. intros q. left. apply Eq.
    + intros q ->%list_elem_of_singleton. auto.
  - assert (T ∈ whites (z_cells s) ∖ {[p]}) as HTw.
    { rewrite elem_of_difference, elem_of_whites, elem_of_singleton. split; [|done]. right. by apply Hr. }
    destruct fuel as [|fuel]. { apply Nat.le_0_r, size_empty_inv in Hn. set_solver. }
    apply wp_bind. eapply mark_visited; [done..|]. intros s1 K1 D1 R1 Hp1 Hsub Hsup.
    assert ((p.1 =? T.1) && (p.2 =? T.2) = false) as ->.
    { apply andb_false_iff. rewrite !Z.eqb_neq. destruct p, T. cbn in *.
      destruct (decide (z = z1)); [right|by left]. congruence. }
    eapply wp_mono; [apply (try_dirs_ok _ _ fuel); [|done|done|]|].
    + intros q s2 R2 W2 N2. apply IH; [lia|done|by left|done].
    + etrans; [by apply subseteq_size|done].
    + intros b s2 [K2 H2]. split; [destruct K1 as (?&?&?&?&?), K2 as (?&?&?&?&?); repeat split; congruence|].
      destruct b; [by eapply found_after|]. destruct H2 as [[D2 T2 C2] H2].
      assert (¬ white (z_cells s1) p) as Hpw by (rewrite <- elem_of_whites; set_solver).
      split; [|intros Hw; by apply Hpw, (white_dark _ _ _ _ D2)]. split; [by eapply dark_trans|done|].
      intros q r Hq Hnq Hqr. assert (passage (z_cells s1) q r) as Hqr1 by (by eapply same_walls_passage; [apply D1|]).
      destruct (decide (q = p)) as [->|Hne].
      * destruct (passage_dirs _ _ _ Hqr) as (d & Hd & ->). by apply H2.
      * apply (C2 q r); [|done|done]. right. destruct Hq as [?|Hq]; [done|by apply Hsup].
Qed.
End search.

(** ** Solving a maze *)

Definition START : Z * Z := (0, 0).
Definition TARGET : Z * Z := (MAZE_WIDTH - 1, MAZE_HEIGHT - 1).

(** The types a maze can have between two commands. *)
Definition playable (t : Z) : Prop := t = CORRIDOR ∨ t = VISITED ∨ t = PATH.

Lemma marked_type m p c : marked playable m → m !! p = Some c →
  (c_type c = SOURCE ↔ p = START) ∧ (c_type c = SINK ↔ p = TARGET) ∧
  (c_type c ≠ SOURCE → c_type c ≠ SINK → playable (c_type c)).
Proof.
  intros [Hs Hk Ho] E. destruct (decide (p = START)) as [->|H1].
  { rewrite (Hs _ E). split; [done|]. split; [|done]. split; [by intros|by intros [=]]. }
  destruct (decide (p = TARGET)) as [->|H2].
  { rewrite (Hk _ E). split; [split; [by intros|by intros [=]]|]. done. }
  assert (playable (c_type c)) as Hp by (eapply Ho; [exact E|by intros [|]]).
  split; [|split; [|done]]; (split; [intros E'; rewrite E' in Hp; unfold playable in Hp; naive_solver|done]).
Qed.

Lemma find_types_ok l : ∀ s src snk,
  full (z_cells s) → marked playable (z_cells s) → (∀ p, p ∈ l → in_grid p) →
  ∃ src' snk', find_types l src snk s = Ok (src', snk', s) ∧
    (src = START ∨ START ∈ l → src' = START) ∧ (snk = TARGET ∨ TARGET ∈ l → snk' = TARGET).
Proof.
  induction l as [|[x y] l IH]; intros s src snk Hf Hm Hl; cbn [find_types].
  { exists src, snk. split; [done|]. split; intros [?|[]%not_elem_of_nil]; done. }
  destruct (proj2 (Hf (x, y))) as [c Ec]; [apply Hl; left|].
  destruct (marked_type _ _ _ Hm Ec) as (H1 & H2 & _). unfold ld_cell. erewrite M_bind_Ok by (by rewrite Ec).
  assert (∀ p, p ∈ l → in_grid p) as Hl' by (intros; apply Hl; by right).
  unfold is_type. destruct (Z.eqb_spec (c_type c) SOURCE) as [E1|E1]; [|destruct (Z.eqb_spec (c_type c) SINK) as [E2|E2]].
  - apply H1 in E1 as E1'. rewrite E1'. destruct (IH s START snk Hf Hm Hl') as (a & b & -> & Ha & Hb). exists a, b.
    split; [done|]. split; [auto|]. intros [?|[E|?]%elem_of_cons]; [auto|done|auto].
  - apply H2 in E2 as E2'. rewrite E2'. destruct (IH s src TARGET Hf Hm Hl') as (a & b & -> & Ha & Hb). exists a, b.
    split; [done|]. split; [|auto]. intros [?|[E|?]%elem_of_cons]; [auto|done|auto].
  - destruct (IH s src snk Hf Hm Hl') as (a & b & -> & Ha & Hb). exists a, b. split; [done|].
    split; (intros [?|[E|?]%elem_of_cons]; [auto| |auto]); exfalso; [by apply E1, H1|by apply E2, H2].
Qed.

Lemma unsolve_type m p c : marked playable m → m !! p = Some c →
  c_type (unsolve c) = if decide (p = START) then SOURCE else if decide (p = TARGET) then SINK else CORRIDOR.
Proof.
  intros Hm E. destruct (marked_type _ _ _ Hm E) as (H1 & H2 & H3). unfold unsolve, is_type.
  destruct (decide (p = START)) as [Hp|Hp]; [apply H1 in Hp; by rewrite !Hp|].
  destruct (decide (p = TARGET)) as [Hq|Hq]; [apply H2 in Hq; by rewrite !Hq|].
  destruct H3 as [Ht|[Ht|Ht]]; [by intros ?%H1|by intros ?%H2|..]; by rewrite !Ht.
Qed.

(** The cells the search starts from. *)
Record unsolved m m' : Prop := {
  us_walls : same_walls m m';
  us_full : full m';
  us_type p : in_grid p →
    ty m' p = Some (if decide (p = START) then SOURCE else if decide (p = TARGET) then SINK else CORRIDOR);
}.

Lemma reset_ok {A} (k : M mz A) (Q : A → mz → Prop) s :
  full (z_cells s) → marked playable (z_cells s) →
  (∀ s', kept s s' → unsolved (z_cells s) (z_cells s') → wp k Q s') →
  wp (for_grid MAZE_HEIGHT MAZE_WIDTH (λ x y, st_cell x y unsolve) ;;
      st_cell START.1 START.2 (set_type SOURCE) ;; st_cell TARGET.1 TARGET.2 (set_type SINK) ;; k) Q s.
Proof.
  intros Hf Hm Hk. eapply wp_bind_mono; [by apply st_all_ok|]. cbv beta. intros _ s1 ->.
  destruct (proj2 (Hf START)) as [c Ec]; [by split|]. destruct (proj2 (Hf TARGET)) as [d Ed]; [by split|].
  apply wp_bind, wp_st_cell with (c := unsolve c).
  { cbn [set_cells z_cells]. by rewrite lookup_fmap, <- surjective_pairing, Ec. }
  apply wp_bind, wp_st_cell with (c := unsolve d).
  { cbn [set_cells z_cells]. rewrite lookup_insert_ne by done. by rewrite lookup_fmap, <- surjective_pairing, Ed. }
  apply Hk; [done|]. rewrite <- !surjective_pairing. cbn [set_cells z_cells].
  assert (∀ a, c_right (unsolve a) = c_right a ∧ c_bottom (unsolve a) = c_bottom a) as Hu.
  { intros a. unfold unsolve. by destruct (_ || _). }
  assert (same_walls (z_cells s) (<[TARGET:=set_type SINK (unsolve d)]> (<[START:=set_type SOURCE (unsolve c)]> (unsolve <$> z_cells s)))) as W.
  { trans (unsolve <$> z_cells s).
    - intros p. rewrite lookup_fmap. destruct (z_cells s !! p) as [a|]; [|done]. cbn. destruct (Hu a) as [-> ->]. done.
    - etrans; [apply (same_walls_insert _ START (unsolve c) (set_type SOURCE (unsolve c))); [by rewrite lookup_fmap, Ec|done|done]|].
      apply (same_walls_insert _ TARGET (unsolve d)); [|done|done]. rewrite lookup_insert_ne by done. by rewrite lookup_fmap, Ed. }
  split; [done|by eapply same_walls_full|]. intros p Hp. rewrite !ty_insert.
  destruct (decide (p = START)) as [->|]; [done|]. destruct (decide (p = TARGET)) as [->|]; [done|].
  destruct (proj2 (Hf p) Hp) as [a Ea]. unfold ty. rewrite lookup_fmap, Ea. cbn. rewrite (unsolve_type _ _ _ Hm Ea).
  by rewrite !decide_False.
Qed.

(** A search that failed has closed what it visited: it cannot fail where every cell can be reached. *)
Lemma search_cut m0 m m' :
  unsolved m0 m → (∀ p, in_grid p → rtc (passage m) START p) →
  failed TARGET (λ q, q = START) m m' → ¬ white m' START → False.
Proof.
  intros U Hreach F Hs. assert (¬ white m' TARGET) as Hn; [|apply Hn; right; apply F].
  assert (rtc (passage m) START TARGET) as Hr by by apply Hreach.
  revert Hr. apply (rtc_ind_r (λ t, ¬ white m' t) START Hs). intros p q _ Hpq Hp.
  apply (fl_closed _ _ _ _ F p q); [|done|done]. destruct Hpq as [Hg _].
  unfold white. rewrite (us_type _ _ U p Hg). destruct (decide (p = START)); [by left|]. right.
  destruct (decide (p = TARGET)); auto.
Qed.

(** A solved maze: the cells marked as the path are those of a route from the source to the sink. *)
Definition solved m : Prop :=
  ∃ l, route TARGET m START l ∧ ∀ p, ty m p = Some PATH ↔ p ∈ l ∧ ¬ ends p.

Lemma found_solved m0 m m' :
  unsolved m0 m → found TARGET m START m' → solved m' ∧ marked playable m' ∧ same_walls m0 m'.
Proof.
  intros U [(l & D & R & Hl) Ht]. pose proof (dk_walls _ _ _ D) as W.
  assert (∀ p, in_grid p ↔ is_Some (m' !! p)) as Hg.
  { intros p. symmetry. apply (same_walls_full _ _ W), U. }
  assert (ty m' START = Some SOURCE) as Hs.
  { eapply dark_source; [exact D|]. rewrite (us_type _ _ U) by by split. by rewrite decide_True. }
  assert (∀ p, ¬ ends p → p ≠ START ∧ p ≠ TARGET) as He by (intros p H; split; intros ->; apply H; [by left|by right]).
  assert (∀ p, in_grid p → ¬ ends p → ty m p = Some CORRIDOR) as Hc.
  { intros p Hp [H1 H2]%He. rewrite (us_type _ _ U p Hp). by rewrite !decide_False. }
  split; [|split; [|by trans m; [apply U|]]].
  - exists l. split; [by eapply route_walls|]. intros p. split.
    + intros Hp. assert (in_grid p) as Hpg by (apply Hg; unfold ty in Hp; by destruct (m' !! p); [eauto|]).
      assert (¬ ends p) as Hpe by (intros [->| ->]; [unfold START in Hs; rewrite Hs in Hp|unfold TARGET in Ht; rewrite Ht in Hp]; by injection Hp).
      split; [|done]. destruct (dk_type _ _ _ D p) as [E|[_ [E|[_ ?]]]]; [|rewrite Hp in E; by injection E|done].
      rewrite Hp, (Hc p Hpg Hpe) in E. by injection E.
    + intros [Hp [H1 H2]%He]. destruct (Hl p Hp) as [?|[?|E]]; [done|done|].
      assert (in_grid p) as Hpg by (apply (us_full _ _ U); unfold ty in E; by destruct (m !! p); [eauto|]).
      rewrite (us_type _ _ U p Hpg), !decide_False in E by done. by injection E.
  - split.
    + intros c E. unfold ty, START in Hs. rewrite E in Hs. by injection Hs.
    + intros c E. unfold ty, TARGET in Ht. rewrite E in Ht. by injection Ht.
    + intros p c E Hp. assert (ty m' p = Some (c_type c)) as Et by (unfold ty; by rewrite E).
      assert (in_grid p) as Hpg by (apply Hg; eauto).
      unfold playable. destruct (dk_type _ _ _ D p) as [E1|[_ [E1|[E1 _]]]]; rewrite Et in E1; [|injection E1; auto..].
      rewrite (Hc p Hpg Hp) in E1. injection E1. auto.
Qed.

Lemma size_whites m : full m → (size (whites m) ≤ 390)%nat.
Proof.
  intros Hf. rewrite <- size_grid. apply subseteq_size. intros p. rewrite elem_of_whites, elem_of_list_to_set, elem_of_grid.
  intros H. apply Hf. unfold white, ty in H. destruct (m !! p); [eauto|by destruct H].
Qed.

Lemma solve_ok fuel s :
  perfect s → marked playable (z_cells s) → (390 ≤ fuel)%nat →
  wp (solve_maze fuel) (λ _ s', perfect s' ∧ marked playable (z_cells s') ∧ solved (z_cells s') ∧ z_out s' = z_out s) s.
Proof.
  intros Hpf Hm Hfuel. unfold solve_maze. pose proof (pf_ok _ Hpf) as Hok. pose proof (mo_full _ Hok) as Hf.
  destruct (find_types_ok grid s (-1, -1) (-1, -1) Hf Hm) as (a & b & E & Ha & Hb); [by intros p ?%elem_of_grid|].
  rewrite Ha, Hb in E by (right; by apply elem_of_grid). apply wp_bind. eapply wp_intro; [exact E|].
  change ((0 =? -1) || (MAZE_WIDTH - 1 =? -1)) with false. cbv iota beta. apply (reset_ok _ _ s Hf Hm).
  intros s1 (Kd & Kv & Ko & _) U.
  assert (ready TARGET s1 START) as Hr.
  { split; [apply U|by split|]. intros q. split.
    - intros Hq. assert (in_grid q) as Hg by (apply (us_full _ _ U); unfold ty in Hq; by destruct (_ !! q); [eauto|]).
      rewrite (us_type _ _ U q Hg) in Hq. destruct (decide (q = START)); [by injection Hq|].
      destruct (decide (q = TARGET)); [done|by injection Hq].
    - intros ->. rewrite (us_type _ _ U) by by split. done. }
  eapply wp_bind_mono; [apply (dfs_ok TARGET fuel START s1 Hr)|].
  { right. rewrite (us_type _ _ U) by by split. done. }
  { etrans; [|exact Hfuel]. etrans; [apply subseteq_size|apply (size_whites (z_cells s1)), U].
    by apply subseteq_difference_l. }
  cbv beta. intros found s2 [(Ld & Lv & Lo & _) H2]. destruct found.
  2: { exfalso. destruct H2 as [F Hs]. eapply (search_cut (z_cells s)); [done| |done|done]. intros p Hp.
       eapply rtc_subrel; [intros q r; apply same_walls_passage, U|by apply Hpf]. }
  destruct (found_solved _ _ _ U H2) as (S2 & M2 & W2).
  assert (full (z_cells s2)) as F2 by by eapply same_walls_full.
  destruct (proj2 (F2 START)) as [c Ec]; [by split|].
  assert (c_type c = SOURCE) as Ht by by apply (mk_source _ _ M2).
  apply wp_bind, wp_st_cell with (c := c); [done|].
  assert (<[(0, 0) := set_type SOURCE c]> (z_cells s2) = z_cells s2) as Eid.
  { apply insert_id. unfold START in Ec. rewrite Ec. f_equal. rewrite <- Ht. by destruct c. }
  eapply wp_mono; [apply quiet_draw_maze|].
  - split; cbn [set_cells z_cells z_display z_vga]; [by rewrite Eid|rewrite Ld, Kd; apply Hok|rewrite Lv, Kv; apply Hok].
  - cbv beta. intros _ s3 (O3 & C3 & P3). cbn [set_cells z_cells z_out] in C3, P3. rewrite Eid in C3.
    rewrite C3. split; [|split; [done|split; [done|congruence]]]. split; [done|rewrite C3..].
    + intros p Hp. eapply rtc_subrel; [intros q r; by apply same_walls_passage|by apply Hpf].
    + rewrite <- (doors_walls _ _ W2). apply Hpf.
Qed.

(** C14: generating a maze from any state of the program ends within the given depth, prints nothing, and leaves a
    perfect maze: every cell can be reached from the top left one through open walls, exactly 389 of the walls between
    the 390 cells are open (so the open walls form a spanning tree), the source and the sink are in their corners and
    every other cell is a corridor. *)
Theorem generate_maze_perfect (fuel : nat) (ticks ticks' : Z) (s : mz) :
  mz_ok s → (779 ≤ fuel)%nat →
  wp (generate_maze fuel ticks ticks') (λ _ s',
    full (z_cells s') ∧ (∀ p, in_grid p → rtc (passage (z_cells s')) START p) ∧ doors (z_cells s') = 389%nat ∧
    marked (λ t, t = CORRIDOR) (z_cells s') ∧ z_out s' = z_out s) s.
Proof.
  intros Hs Hf. eapply wp_mono; [by apply generate_ok|]. cbv beta. intros _ s' (P & Hm & Ho).
  split; [apply P|]. split; [apply P|]. split; [apply P|by split].
Qed.

(** C16: on a generated maze the depth-first search always succeeds, however often it is run: after [n + 1] runs of the
    solver nothing has been printed (in particular no failure), and the cells marked as the path are exactly the inner
    cells of a route through open walls from the source to the sink. *)
Theorem solve_maze_correct (n fuel fuel' : nat) (ticks ticks' : Z) (s : mz) :
  mz_ok s → (779 ≤ fuel)%nat → (390 ≤ fuel')%nat →
  wp (generate_maze fuel ticks ticks' ;; for_up (S n) 0 (λ _, solve_maze fuel')) (λ _ s',
    marked playable (z_cells s') ∧ z_out s' = z_out s ∧
    ∃ l, route TARGET (z_cells s') START l ∧ ∀ p, ty (z_cells s') p = Some PATH ↔ p ∈ l ∧ ¬ ends p) s.
Proof.
  intros Hs Hf Hf'. eapply wp_bind_mono; [by apply generate_ok|]. cbv beta. intros _ s1 (P1 & M1 & O1).
  assert (marked playable (z_cells s1)) as M1'.
  { destruct M1 as [A B C]. split; [done|done|]. intros p c E Hp. left. by eapply C. }
  eapply wp_mono; [apply (wp_for_up (S n) 0 _
    (λ j s', perfect s' ∧ marked playable (z_cells s') ∧ z_out s' = z_out s ∧ (j ≠ 0 → solved (z_cells s'))))|].
  - by split.
  - intros j s2 _ (P2 & M2 & O2 & _). eapply wp_mono; [by apply solve_ok|]. cbv beta. intros _ s3 (P3 & M3 & S3 & O3).
    split; [done|]. split; [done|]. split; [congruence|done].
  - cbv beta. intros _ s2 (_ & M2 & O2 & S2). split; [done|]. split; [done|]. apply S2. lia.
Qed.

(** The program before the first maze: the cells are zero, the screen is blank. *)
Definition blank_mz : mz :=
  Mz (gset_to_gmap (Cell 0 0 0) (list_to_set grid)) 0 1 (replicate 1840 0) (Vga (replicate (Z.to_nat CELLS) 0) 0 0 0 []) [].

Lemma blank_mz_ok : mz_ok blank_mz.
Proof.
  split; [|done|done]. intros p. cbn [blank_mz z_cells]. rewrite <- elem_of_grid, <- elem_of_dom, dom_gset_to_gmap.
  apply elem_of_list_to_set.
Qed.

Lemma generate_maze_perfect_witness :
  wp (generate_maze 779 1 2) (λ _ s', doors (z_cells s') = 389%nat) blank_mz.
Proof.
  eapply wp_mono; [apply (generate_maze_perfect 779 1 2 blank_mz); [exact blank_mz_ok|lia]|].
  cbv beta. intros _ s' (_ & _ & H & _). exact H.
Defined.

Lemma solve_maze_correct_witness :
  wp (generate_maze 779 1 2 ;; for_up 1 0 (λ _, solve_maze 390)) (λ _ s',
    z_out s' = [] ∧ ∃ l, route TARGET (z_cells s') START l) blank_mz.
Proof.
  eapply wp_mono; [apply (solve_maze_correct 0 779 390 1 2 blank_mz); [exact blank_mz_ok|lia|lia]|].
  cbv beta. intros _ s' (_ & O & l & R & _). split; [exact O|exists l; exact R].
Defined.
