(* ===== verification/MazeEller.v ===== *)
(** * Eller's maze generator ([arch/i386/drivers/shell/builtins/maze_eller.c])

    It carves the grid row by row and keeps only the sets of the cells of one row.  The cells
    belong to an array of their own, the random numbers are those of [Maze]. *)

From stdpp Require Import relations.
From S2P Require Import Prelude Loops Vga Maze MazeProps.

(* src/arch/i386/drivers/shell/builtins/maze_eller.c 11-16 cell_eller *)
Record cell_eller := CellEller { e_type : Z; e_set_id : Z; e_right_wall : Z; e_bottom_wall : Z }.

Record eller := Eller {
  el_cells : gmap (Z * Z) cell_eller;   (* maze_eller, by column and row *)
  el_next : Z;                          (* next_set_id_eller *)
  el_mz : mz;                           (* where the state of the random numbers is *)
}.

Definition ld_eller (x y : Z) : M eller cell_eller := λ s,
  match el_cells s !! (x, y) with Some c => Ok (c, s) | None => Fault x end.
Definition st_eller (x y : Z) (f : cell_eller → cell_eller) : M eller unit := λ s,
  match el_cells s !! (x, y) with
  | Some c => Ok (tt, Eller (<[(x, y) := f c]> (el_cells s)) (el_next s) (el_mz s))
  | None => Fault x
  end.
Definition on_mz {A} (m : M mz A) : M eller A := λ s,
  r ← m (el_mz s); Ok (r.1, Eller (el_cells s) (el_next s) r.2).

(** [next_set_id_eller++] *)
Definition next_id : M eller Z := i ← gets el_next; modify (λ s, Eller (el_cells s) (i + 1) (el_mz s)) ;; mret i.

Definition new_cell (set : Z) (_ : cell_eller) : cell_eller := CellEller CORRIDOR set 1 1.
Definition no_right (c : cell_eller) : cell_eller := CellEller (e_type c) (e_set_id c) 0 (e_bottom_wall c).
Definition no_bottom (c : cell_eller) : cell_eller := CellEller (e_type c) (e_set_id c) (e_right_wall c) 0.
Definition in_set (set : Z) (c : cell_eller) : cell_eller := CellEller (e_type c) set (e_right_wall c) (e_bottom_wall c).

(* src/arch/i386/drivers/shell/builtins/maze_eller.c 26-32 generate_maze_eller *)
Definition first_row : M eller unit :=
  for_up (Z.to_nat MAZE_WIDTH) 0 (λ x, i ← next_id; st_eller x 0 (new_cell i)).

(** Take the wall away and merge the set on its right into the one on its left. *)
(* src/arch/i386/drivers/shell/builtins/maze_eller.c 43-55 generate_maze_eller *)
Definition join_right (x y : Z) : M eller unit :=
  st_eller x y no_right ;;
  c ← ld_eller (x + 1) y; let old_set := e_set_id c in
  c ← ld_eller x y; let new_set := e_set_id c in
  for_up (Z.to_nat MAZE_WIDTH) 0 (λ i,
    c ← ld_eller i y;
    if e_set_id c =? old_set then st_eller i y (in_set new_set) else mret tt).

(* src/arch/i386/drivers/shell/builtins/maze_eller.c 36-58 generate_maze_eller *)
Definition join_row (y : Z) : M eller unit :=
  for_up (Z.to_nat (MAZE_WIDTH - 1)) 0 (λ x,
    c ← ld_eller x y;
    d ← ld_eller (x + 1) y;
    if e_set_id c =? e_set_id d then mret tt else
    r ← on_mz (random_range 100);
    if r <? 50 then join_right x y else mret tt).

(** The sets of a row, each once; there are at most as many as columns. *)
(* src/arch/i386/drivers/shell/builtins/maze_eller.c 60-77 generate_maze_eller *)
Fixpoint unique_sets (n : nat) (x y : Z) (sets : list Z) : M eller (list Z) :=
  match n with
  | O => mret sets
  | S n =>
      c ← ld_eller x y;
      if existsb (Z.eqb (e_set_id c)) sets then unique_sets n (x + 1) y sets
      else unique_sets n (x + 1) y (sets ++ [e_set_id c])
  end.

(* src/arch/i386/drivers/shell/builtins/maze_eller.c 84-105 generate_maze_eller *)
Fixpoint connect_set (n : nat) (x y current_set : Z) (has_connection : bool) : M eller unit :=
  match n with
  | O => mret tt
  | S n =>
      c ← ld_eller x y;
      if e_set_id c =? current_set then
        r ← on_mz (random_range 100);
        let should_connect := r <? 40 in
        if should_connect || negb has_connection then
          st_eller x y no_bottom ;;
          st_eller x (y + 1) (new_cell current_set) ;;
          connect_set n (x + 1) y current_set true
        else connect_set n (x + 1) y current_set has_connection
      else connect_set n (x + 1) y current_set has_connection
  end.

(* src/arch/i386/drivers/shell/builtins/maze_eller.c 79-106 generate_maze_eller *)
Fixpoint connect_sets (sets : list Z) (y : Z) : M eller unit :=
  match sets with
  | [] => mret tt
  | current_set :: sets => connect_set (Z.to_nat MAZE_WIDTH) 0 y current_set false ;; connect_sets sets y
  end.

(* src/arch/i386/drivers/shell/builtins/maze_eller.c 108-117 generate_maze_eller *)
Definition fill_row (y : Z) : M eller unit :=
  for_up (Z.to_nat MAZE_WIDTH) 0 (λ x,
    c ← ld_eller x y;
    if e_type c =? CORRIDOR then mret tt else i ← next_id; st_eller x y (new_cell i)).

(* src/arch/i386/drivers/shell/builtins/maze_eller.c 120-138 generate_maze_eller *)
Definition join_last : M eller unit :=
  let last_row := MAZE_HEIGHT - 1 in
  for_up (Z.to_nat (MAZE_WIDTH - 1)) 0 (λ x,
    c ← ld_eller x last_row;
    d ← ld_eller (x + 1) last_row;
    if e_set_id c =? e_set_id d then mret tt else join_right x last_row).

(* src/arch/i386/drivers/shell/builtins/maze_eller.c 23-142 generate_maze_eller *)
Definition generate_maze_eller : M eller unit :=
  modify (λ s, Eller (el_cells s) 1 (el_mz s)) ;;
  first_row ;;
  for_up (Z.to_nat (MAZE_HEIGHT - 1)) 0 (λ y,
    join_row y ;;
    sets ← unique_sets (Z.to_nat MAZE_WIDTH) 0 y [];
    connect_sets sets y ;;
    fill_row (y + 1)) ;;
  join_last.

(** ** The walls *)

Implicit Types (m : gmap (Z * Z) cell_eller) (p q : Z * Z) (c : cell_eller) (F : gset (Z * Z)) (s : eller).

(** A cell that has been made. *)
Definition live c : Prop := e_type c = CORRIDOR.
Definition live_at m p : Prop := ∃ c, m !! p = Some c ∧ live c.

#[local] Instance live_dec c : Decision (live c).
Proof. unfold live. apply _. Defined.

(** The walls of the maze so far: a cell that has not been made has all of them. *)
Definition plain c : cell := Cell (e_type c) (e_right_wall c) (e_bottom_wall c).
Definition view c : cell := if decide (live c) then plain c else Cell CORRIDOR 1 1.
Definition walls m : gmap (Z * Z) cell := view <$> m.

Definition joined m : relation (Z * Z) := rtc (passage (walls m)).

Lemma joined_sym m p q : joined m p q → joined m q p.
Proof. induction 1 as [|a b d H _ IH]; [done|]. eapply rtc_r; [exact IH|by apply passage_sym]. Qed.

Lemma full_at m p : full (walls m) → in_grid p → ∃ c, m !! p = Some c.
Proof. intros Hf Hp. apply Hf in Hp as [d E]. unfold walls in E. rewrite lookup_fmap in E. destruct (m !! p) as [c|]; [eauto|done]. Qed.

Lemma at_grid m p c : full (walls m) → m !! p = Some c → in_grid p.
Proof. intros Hf E. apply Hf. unfold walls. rewrite lookup_fmap, E. eauto. Qed.

(** Making a cell changes no wall. *)
Lemma walls_new m p c i : m !! p = Some c → ¬ live c → walls (<[p := new_cell i c]> m) = walls m.
Proof.
  intros E Hn. unfold walls. rewrite fmap_insert. apply insert_id. rewrite lookup_fmap, E. cbn. f_equal. unfold view.
  by rewrite decide_False, decide_True.
Qed.

Definition unwall (k : bool) c : cell_eller := if k then no_right c else no_bottom c.
Definition wall_of (k : bool) c : Z := if k then e_right_wall c else e_bottom_wall c.

Lemma walls_open m p c k :
  full (walls m) → m !! p = Some c → live c → in_grid (beyond k p) → wall_of k c ≠ 0 →
  opening (walls m) k p (walls (<[p := unwall k c]> m)).
Proof.
  intros Hf E Hl Hb Hw. unfold walls at 2. rewrite fmap_insert.
  replace (view (unwall k c)) with (opened k (view c)) by (unfold view; destruct k; by rewrite !decide_True).
  apply open_door; [done|unfold walls; by rewrite lookup_fmap, E|done|]. unfold view. rewrite decide_True by done. by destruct k.
Qed.

(** ** Forests *)

(** The sets of the cells in [F]. *)
Definition id_of m p : Z := from_option e_set_id 0 (m !! p).
Definition ids F m : gset Z := set_map (id_of m) F.
Definition live_cells m : gset (Z * Z) := dom (filter (λ kv : (Z * Z) * cell_eller, live kv.2) m).

Lemma elem_of_live_cells m p : p ∈ live_cells m ↔ live_at m p.
Proof. unfold live_cells, live_at. rewrite elem_of_dom. unfold is_Some. setoid_rewrite map_lookup_filter_Some. done. Qed.

(** The cells that have been made form trees, one for each set of the cells in [F]. *)
Record forest F m : Prop := {
  fr_full : full (walls m);
  fr_live p : p ∈ F → live_at m p;
  fr_same p q : p ∈ F → q ∈ F → id_of m p = id_of m q → joined m p q;
  fr_near p : live_at m p → ∃ q, q ∈ F ∧ joined m p q;
  fr_count : (doors (walls m) + size (ids F m) = size (live_cells m))%nat;
}.

Lemma ids_union F p m : ids ({[p]} ∪ F) m = {[id_of m p]} ∪ ids F m.
Proof. unfold ids. by rewrite set_map_union_L, set_map_singleton_L. Qed.

Lemma ids_ext F m m' : (∀ p, p ∈ F → id_of m p = id_of m' p) → ids F m = ids F m'.
Proof. intros H. apply set_eq. intros x. unfold ids. rewrite !elem_of_map. split; intros (p & -> & Hp); exists p; (split; [auto using eq_sym|done]). Qed.

Lemma live_cells_new m p c d : m !! p = Some c → ¬ live c → live d → live_cells (<[p := d]> m) = {[p]} ∪ live_cells m.
Proof.
  intros E Hn Hd. apply set_eq. intros q. rewrite elem_of_union, elem_of_singleton, !elem_of_live_cells. unfold live_at.
  destruct (decide (q = p)) as [->|Hq]; [rewrite lookup_insert_eq; split; [by left|by eauto]|].
  rewrite lookup_insert_ne by done. split; [by right|by intros [|]].
Qed.

Lemma not_live_cells m p c : m !! p = Some c → ¬ live c → p ∉ live_cells m.
Proof. intros E Hn (d & E' & Hd)%elem_of_live_cells. congruence. Qed.

Lemma live_cells_same m p c d : m !! p = Some c → (live c ↔ live d) → live_cells (<[p := d]> m) = live_cells m.
Proof.
  intros E Hl. apply set_eq. intros q. rewrite !elem_of_live_cells. unfold live_at.
  destruct (decide (q = p)) as [->|Hq]; [rewrite lookup_insert_eq|by rewrite lookup_insert_ne].
  rewrite E. split; intros (x & [= <-] & Hx); eexists; (split; [done|tauto]).
Qed.

(** A cell of a new set. *)
Lemma forest_fresh F m p c i :
  forest F m → m !! p = Some c → ¬ live c → i ∉ ids F m → forest ({[p]} ∪ F) (<[p := new_cell i c]> m).
Proof.
  intros [Hf Hl Hs Hn Hc] E Hd Hi. set (m' := <[p := new_cell i c]> m).
  assert (walls m' = walls m) as Ew by (by apply walls_new).
  assert (∀ q, q ∈ F → q ≠ p) as Hp by (intros q Hq ->; apply Hl in Hq as (d & E' & ?); congruence).
  assert (∀ q, q ∈ F → id_of m' q = id_of m q) as Hid.
  { intros q Hq. unfold id_of, m'. rewrite lookup_insert_ne; [done|]. by apply not_eq_sym, Hp. }
  assert (id_of m' p = i) as Hip by (unfold id_of, m'; by rewrite lookup_insert_eq).
  assert (live_cells m' = {[p]} ∪ live_cells m) as El by (by apply (live_cells_new _ _ c)).
  unfold joined in *. split; rewrite ?Ew.
  - done.
  - intros q. rewrite elem_of_union, elem_of_singleton. intros [->|Hq]; apply elem_of_live_cells; rewrite El; [set_solver|].
    apply elem_of_union. right. by apply elem_of_live_cells, Hl.
  - assert (∀ q, q ∈ F → i ≠ id_of m q) as Hne by (intros q Hq ->; apply Hi; unfold ids; apply elem_of_map; by eauto).
    intros a b. rewrite !elem_of_union, !elem_of_singleton. unfold joined. rewrite Ew.
    intros [->|Ha] [->|Hb]; rewrite ?Hip, ?Hid by done; [done| | |by auto]; intros E'; exfalso; [by apply (Hne b)|by apply (Hne a)].
  - intros q. rewrite <- elem_of_live_cells, El, elem_of_union, elem_of_singleton, elem_of_live_cells. unfold joined. rewrite Ew. intros [->|Hq].
    + exists p. split; [set_solver|done].
    + destruct (Hn q Hq) as (t & Ht & Hj). exists t. split; [set_solver|done].
  - rewrite ids_union, Hip, (ids_ext F m' m) by done. rewrite El, !size_union, !size_singleton; [lia| |].
    + by apply disjoint_singleton_l, (not_live_cells _ _ c).
    + by apply disjoint_singleton_l.
Qed.

(** Cells of which [F] has others of the same sets are not needed. *)
Lemma forest_drop F F' m :
  forest F m → F' ⊆ F → (∀ p, p ∈ F → ∃ q, q ∈ F' ∧ id_of m q = id_of m p) → forest F' m.
Proof.
  intros [Hf Hl Hs Hn Hc] Hsub Hall. split; [done|by auto|by auto| |].
  - intros p Hp. destruct (Hn p Hp) as (q & Hq & Hj). destruct (Hall q Hq) as (t & Ht & E). exists t. split; [done|].
    etrans; [exact Hj|]. apply Hs; by auto.
  - replace (ids F' m) with (ids F m); [done|]. apply set_eq. intros x. unfold ids. rewrite !elem_of_map. split.
    + intros (p & -> & Hp). destruct (Hall p Hp) as (q & Hq & E). by exists q.
    + intros (p & -> & Hp). exists p. auto.
Qed.

Lemma joined_mono m m' p q :
  (∀ a b, passage (walls m) a b → passage (walls m') a b) → joined m p q → joined m' p q.
Proof. intros H. by apply rtc_subrel. Qed.

(** The cell below joins the tree of [p]. *)
Lemma forest_grow F m p c d :
  forest F m → p ∈ F → m !! p = Some c → e_bottom_wall c ≠ 0 → m !! below p = Some d → ¬ live d →
  forest ({[below p]} ∪ F) (<[below p := new_cell (e_set_id c) d]> (<[p := no_bottom c]> m)).
Proof.
  intros [Hf Hl Hs Hn Hc] Hp E Hw E' Hd. assert (live c) as Hlc by (destruct (Hl p Hp) as (x & Ex & ?); congruence).
  assert (p ≠ below p) as Hne by (unfold below; destruct p; cbn; intros [= ?]; lia).
  assert (opening (walls m) false p (walls (<[p := no_bottom c]> m))) as [O1 O2 O3 O4 O5].
  { apply (walls_open m p c false); try done. by apply (at_grid m _ d). }
  set (m1 := <[p := no_bottom c]> m) in *. set (m' := <[below p := new_cell (e_set_id c) d]> m1).
  assert (m1 !! below p = Some d) as E1 by (unfold m1; by rewrite lookup_insert_ne).
  assert (walls m' = walls m1) as Ew by (by apply walls_new).
  assert (live_cells m' = {[below p]} ∪ live_cells m) as El.
  { unfold m'. rewrite (live_cells_new m1 _ d) by done. f_equal. by apply (live_cells_same _ _ c). }
  assert (∀ a b, passage (walls m) a b → passage (walls m') a b) as Hmono by (rewrite Ew; exact O3).
  assert (joined m' p (below p)) as Hpb by (apply rtc_once; rewrite Ew; exact O2).
  assert (∀ q, id_of m' q = if decide (q = below p) then id_of m p else id_of m q) as Hid.
  { intros q. unfold id_of, m', m1. case_decide as Hq; [subst q; by rewrite lookup_insert_eq, E|].
    rewrite lookup_insert_ne by done. destruct (decide (q = p)) as [->|]; [by rewrite lookup_insert_eq, E|by rewrite lookup_insert_ne]. }
  assert (below p ∉ F) as Hb by (intros (x & Ex & ?)%Hl; congruence).
  split.
  - rewrite Ew. exact O1.
  - intros q. rewrite elem_of_union, elem_of_singleton. intros Hq. apply elem_of_live_cells. rewrite El, elem_of_union, elem_of_singleton, elem_of_live_cells.
    destruct Hq; [by left|right; by apply Hl].
  - assert (∀ a b, a ∈ F → b ∈ F → id_of m a = id_of m b → joined m' a b) as Hs' by (intros a b Ha Hb' Eab; by apply (joined_mono m), Hs).
    intros a b. rewrite !elem_of_union, !elem_of_singleton, !Hid. intros Ha Hb'.
    assert (∀ x, x = below p ∨ x ∈ F → ∃ y, y ∈ F ∧ joined m' x y ∧ (if decide (x = below p) then id_of m p else id_of m x) = id_of m y) as Hrep.
    { intros x [->|Hx]; [exists p; rewrite decide_True by done; auto using joined_sym|].
      exists x. rewrite decide_False by (intros ->; done). split; [done|split; [apply rtc_refl|done]]. }
    destruct (Hrep a Ha) as (a' & Ha' & Ja & ->), (Hrep b Hb') as (b' & Hb'' & Jb & ->). intros Eab.
    etrans; [exact Ja|]. etrans; [by apply (Hs' a' b')|by apply joined_sym].
  - intros q. rewrite <- elem_of_live_cells, El, elem_of_union, elem_of_singleton, elem_of_live_cells. intros [->|Hq].
    + exists (below p). split; [set_solver|apply rtc_refl].
    + destruct (Hn q Hq) as (t & Ht & Hj). exists t. split; [set_solver|]. by apply (joined_mono m).
  - rewrite ids_union, Hid, decide_True by done. rewrite (ids_ext F m' m); [|intros q Hq; rewrite Hid, decide_False; [done|intros ->; done]].
    replace ({[id_of m p]} ∪ ids F m) with (ids F m); [|symmetry; apply subseteq_union_1_L, singleton_subseteq_l, elem_of_map; by eauto].
    rewrite Ew, O5, El, size_union, size_singleton by (by apply disjoint_singleton_l, (not_live_cells _ _ d)). lia.
Qed.

(** The cells of [F] that are in one set move to another. *)
Definition relabel F (old new : Z) q c : cell_eller := if decide (q ∈ F ∧ e_set_id c = old) then in_set new c else c.

Lemma walls_relabel F old new m m' : (∀ q, m' !! q = relabel F old new q <$> m !! q) → walls m' = walls m ∧ live_cells m' = live_cells m.
Proof.
  intros H. split.
  - apply map_eq. intros q. unfold walls. rewrite !lookup_fmap, H. destruct (m !! q) as [c|]; [|done]. cbn. f_equal.
    unfold relabel. by case_decide.
  - apply set_eq. intros q. rewrite !elem_of_live_cells. unfold live_at. rewrite H. destruct (m !! q) as [c|]; [|by split; intros (? & ? & _)].
    cbn. unfold relabel. case_decide; [|done]. split; intros (x & [= <-] & Hx); by eexists.
Qed.

Lemma ids_relabel F m m' old new :
  (∀ q, q ∈ F → id_of m' q = if decide (id_of m q = old) then new else id_of m q) →
  old ∈ ids F m → new ∈ ids F m → old ≠ new → S (size (ids F m')) = size (ids F m).
Proof.
  intros H Ho Hn Hne. replace (ids F m) with ({[old]} ∪ ids F m').
  { rewrite size_union, size_singleton; [done|]. apply disjoint_singleton_l. unfold ids. rewrite elem_of_map. intros (q & E & Hq).
    rewrite H in E by done. case_decide; congruence. }
  apply set_eq. intros x. unfold ids in *. rewrite elem_of_union, elem_of_singleton, !elem_of_map. split.
  - intros [->|(q & -> & Hq)]; [by apply elem_of_map in Ho|]. rewrite H by done. case_decide; [by apply elem_of_map in Hn|by eauto].
  - intros (q & -> & Hq). destruct (decide (id_of m q = old)) as [E|E]; [by left|]. right. exists q. by rewrite H, decide_False.
Qed.

(** Two neighbours in the frontier, of different sets, are joined. *)
Lemma forest_join F m p c d m' :
  forest F m → p ∈ F → right_of p ∈ F → m !! p = Some c → m !! right_of p = Some d → e_right_wall c ≠ 0 → e_set_id c ≠ e_set_id d →
  (∀ q, m' !! q = relabel F (e_set_id d) (e_set_id c) q <$> <[p := no_right c]> m !! q) → forest F m'.
Proof.
  intros [Hf Hl Hs Hn Hc] Hp Hr E E' Hw Hne Hm'. assert (live c) as Hlc by (destruct (Hl p Hp) as (x & Ex & ?); congruence).
  assert (opening (walls m) true p (walls (<[p := no_right c]> m))) as [O1 O2 O3 O4 O5].
  { apply (walls_open m p c true); try done. by apply (at_grid m _ d). }
  set (m1 := <[p := no_right c]> m) in *. destruct (walls_relabel _ _ _ _ _ Hm') as [Ew El].
  assert (live_cells m1 = live_cells m) as El1 by (by apply (live_cells_same _ _ c)).
  assert (∀ a b, passage (walls m) a b → passage (walls m') a b) as Hmono by (rewrite Ew; exact O3).
  assert (joined m' p (right_of p)) as Hpr by (apply rtc_once; rewrite Ew; exact O2).
  assert (id_of m p = e_set_id c ∧ id_of m (right_of p) = e_set_id d) as [Ip Ir] by (unfold id_of; by rewrite E, E').
  assert (∀ q, q ∈ F → id_of m' q = if decide (id_of m q = e_set_id d) then e_set_id c else id_of m q) as Hid.
  { intros q Hq. destruct (Hl q Hq) as (x & Ex & _). unfold id_of. rewrite Hm', Ex. unfold m1.
    destruct (decide (q = p)) as [->|]; [rewrite lookup_insert_eq|rewrite lookup_insert_ne by done; rewrite Ex]; cbn [fmap option_fmap option_map from_option].
    - assert (x = c) as -> by congruence. unfold relabel. cbn [no_right e_set_id]. by rewrite !decide_False by tauto.
    - unfold relabel. destruct (decide (e_set_id x = e_set_id d)); [by rewrite decide_True|by rewrite decide_False by tauto]. }
  assert (∀ a b, a ∈ F → b ∈ F → id_of m a = id_of m b → joined m' a b) as Hs' by (intros a b Ha Hb Eab; by apply (joined_mono m), Hs).
  split.
  - rewrite Ew. exact O1.
  - intros q Hq. by apply elem_of_live_cells; rewrite El, El1; apply elem_of_live_cells, Hl.
  - intros a b Ha Hb. rewrite !Hid by done.
    assert (∀ x, x ∈ F → id_of m x = e_set_id d → joined m' p x) as Hd.
    { intros x Hx Ex. etrans; [exact Hpr|]. apply Hs'; [done|done|congruence]. }
    destruct (decide (id_of m a = e_set_id d)) as [Ea|Ea], (decide (id_of m b = e_set_id d)) as [Eb|Eb]; intros Eab.
    + apply Hs'; [done|done|congruence].
    + etrans; [by apply joined_sym, Hd|]. apply Hs'; [done|done|congruence].
    + etrans; [|by apply Hd]. apply Hs'; [done|done|congruence].
    + by apply Hs'.
  - intros q. rewrite <- elem_of_live_cells, El, El1, elem_of_live_cells. intros Hq. destruct (Hn q Hq) as (t & Ht & Hj).
    exists t. split; [done|]. by apply (joined_mono m).
  - rewrite Ew, O5, El, El1, <- Hc. apply ids_relabel in Hid; [lia| | |done]; unfold ids; apply elem_of_map; [by exists (right_of p)|by exists p].
Qed.

(** ** Steps *)

Lemma wp_ld_eller x y (Q : cell_eller → eller → Prop) s c : el_cells s !! (x, y) = Some c → Q c s → wp (ld_eller x y) Q s.
Proof. intros E HQ. unfold wp, ld_eller. by rewrite E. Qed.

Lemma wp_st_eller x y f (Q : unit → eller → Prop) s c :
  el_cells s !! (x, y) = Some c → Q tt (Eller (<[(x, y) := f c]> (el_cells s)) (el_next s) (el_mz s)) → wp (st_eller x y f) Q s.
Proof. intros E HQ. unfold wp, st_eller. by rewrite E. Qed.

Lemma wp_random n (Q : Z → eller → Prop) s :
  (∀ r z, Q r (Eller (el_cells s) (el_next s) z)) → wp (on_mz (random_range n)) Q s.
Proof. intros HQ. unfold wp, on_mz, random_range. destruct (n =? 0); apply HQ. Qed.

(** The loop that merges two sets. *)
Lemma join_right_ok F x y s c d :
  full (walls (el_cells s)) → (∀ q, q ∈ F ↔ in_grid q ∧ q.2 = y) → in_grid (x, y) → in_grid (x + 1, y) →
  el_cells s !! (x, y) = Some c → el_cells s !! (x + 1, y) = Some d →
  wp (join_right x y) (λ _ t, el_next t = el_next s ∧
    ∀ q, el_cells t !! q = relabel F (e_set_id d) (e_set_id c) q <$> <[(x, y) := no_right c]> (el_cells s) !! q) s.
Proof.
  intros Hf HF Hx Hx1 E E'. unfold join_right. apply wp_bind, (wp_st_eller _ _ _ _ _ c); [done|].
  apply wp_bind, (wp_ld_eller _ _ _ _ d); [cbn; rewrite lookup_insert_ne; [done|intros [=]; lia]|].
  apply wp_bind, (wp_ld_eller _ _ _ _ (no_right c)); [cbn; by rewrite lookup_insert_eq|]. cbn [e_set_id no_right].
  set (s1 := Eller _ _ _). set (o := e_set_id d). set (n := e_set_id c).
  assert (∀ i, 0 ≤ i < MAZE_WIDTH → ∃ b, el_cells s1 !! (i, y) = Some b) as Hrow.
  { intros i Hi. cbn [s1 el_cells]. destruct (decide ((x, y) = (i, y))) as [->|]; [rewrite lookup_insert_eq; eauto|rewrite lookup_insert_ne by done].
    apply full_at; [done|]. destruct Hx. split; [done|done]. }
  eapply wp_mono; [apply (wp_for_up_to MAZE_WIDTH _ (λ j t, el_next t = el_next s ∧
    ∀ q, el_cells t !! q = (if decide (q.1 < j) then relabel F o n q else id) <$> el_cells s1 !! q)); [done| |]|].
  - split; [done|]. intros q. case_decide as Hq; [|by rewrite option_fmap_id].
    destruct (el_cells s1 !! q) as [b|] eqn:Eb; [|done]. cbn. f_equal. unfold relabel. rewrite decide_False; [done|].
    intros [HqF _]. apply HF in HqF as [[? _] _]. lia.
  - intros j t Hj [En Ht]. destruct (Hrow j Hj) as [b Eb].
    assert (in_grid (j, y)) as Hg by (destruct Hx; split; [done|done]).
    assert (el_cells t !! (j, y) = Some b) as Etj by (rewrite Ht, decide_False, Eb by (cbn; lia); done).
    assert (∀ g, g b = relabel F o n (j, y) b → ∀ q, <[(j, y) := g b]> (el_cells t) !! q =
      (if decide (q.1 < j + 1) then relabel F o n q else id) <$> el_cells s1 !! q) as Hstep.
    { intros g Eg q. destruct (decide (q = (j, y))) as [->|Hq].
      - rewrite lookup_insert_eq, decide_True, Eb by (cbn; lia). cbn. by rewrite Eg.
      - rewrite lookup_insert_ne, Ht by done. destruct (decide (q.1 < j)) as [H1|H1]; [by rewrite decide_True by lia|].
        case_decide as H2; [|done]. destruct (el_cells s1 !! q) as [b'|]; [|done]. cbn. f_equal. unfold relabel.
        rewrite decide_False; [done|]. intros [[_ H3]%HF _]. apply Hq. destruct q. cbn in *. f_equal; lia. }
    apply wp_bind, (wp_ld_eller _ _ _ _ b); [done|]. destruct (e_set_id b =? o) eqn:Eo.
    + apply (wp_st_eller _ _ _ _ _ b); [done|]. split; [done|]. apply (Hstep (in_set n)). unfold relabel. rewrite decide_True; [done|].
      split; [by apply HF|lia].
    + apply wp_ret. split; [done|]. rewrite <- (insert_id (el_cells t) (j, y) b Etj). apply (Hstep id). unfold relabel.
      rewrite decide_False; [done|]. intros [_ ?]. lia.
  - cbv beta. intros _ t [En Ht]. split; [done|]. intros q. rewrite Ht. fold (el_cells s1).
    change (<[(x, y) := no_right c]> (el_cells s)) with (el_cells s1). case_decide as Hq; [done|].
    destruct (el_cells s1 !! q) as [b|]; [|done]. cbn. f_equal. unfold relabel. rewrite decide_False; [done|].
    intros [[[? ?] _]%HF _]. lia.
Qed.

(** ** Rows *)

(** Row [y] is being made: [F] are its cells so far. *)
Record filling (y : Z) F s : Prop := {
  fi_forest : forest F (el_cells s);
  fi_frontier q : q ∈ F ↔ q.2 = y ∧ live_at (el_cells s) q;
  fi_live q : live_at (el_cells s) q → q.2 ≤ y;
  fi_above q : in_grid q → q.2 < y → live_at (el_cells s) q;
  fi_closed x c : el_cells s !! (x, y) = Some c → live c → e_right_wall c ≠ 0 ∧ e_bottom_wall c ≠ 0;
  fi_next q : q ∈ F → id_of (el_cells s) q < el_next s;
  fi_bound : el_next s ≤ Z.of_nat (size (live_cells (el_cells s))) + 1;
}.

Lemma fill_one y x F s d :
  filling y F s → el_cells s !! (x, y) = Some d → ¬ live d →
  wp (i ← next_id; st_eller x y (new_cell i)) (λ _ t,
    filling y ({[(x, y)]} ∪ F) t ∧ ∀ q, live_at (el_cells t) q ↔ q = (x, y) ∨ live_at (el_cells s) q) s.
Proof.
  intros [Hfo HF Hl Ha Hcl Hn Hb] E Hd. apply wp_bind. unfold next_id. apply wp_bind, wp_gets, wp_bind, wp_modify, wp_ret.
  apply (wp_st_eller _ _ _ _ _ d); [done|]. cbn [el_cells el_next]. set (m' := <[(x, y) := _]> (el_cells s)).
  assert (el_next s ∉ ids F (el_cells s)) as Hi.
  { unfold ids. rewrite elem_of_map. intros (q & Eq & Hq). apply Hn in Hq. lia. }
  pose proof (forest_fresh F (el_cells s) (x, y) d (el_next s) Hfo E Hd Hi) as Hfo'. fold m' in Hfo'.
  assert (live_cells m' = {[(x, y)]} ∪ live_cells (el_cells s)) as El by (by apply (live_cells_new _ _ d)).
  assert (∀ q, live_at m' q ↔ q = (x, y) ∨ live_at (el_cells s) q) as Hlive.
  { intros q. rewrite <- !elem_of_live_cells, El. set_solver. }
  split; [|exact Hlive]. split; cbn [el_cells el_next].
  - done.
  - intros q. rewrite elem_of_union, elem_of_singleton, Hlive, HF. destruct q as [qx qy]. cbn. naive_solver.
  - intros q. rewrite Hlive. intros [->|Hq]; [done|by apply Hl].
  - intros q Hq Hy. apply Hlive. right. by apply Ha.
  - intros x' c'. unfold m'. destruct (decide ((x, y) = (x', y))) as [->|Hne]; [rewrite lookup_insert_eq; by intros [= <-]|].
    rewrite lookup_insert_ne by done. apply Hcl.
  - intros q. rewrite elem_of_union, elem_of_singleton. intros [->|Hq].
    + unfold id_of, m'. rewrite lookup_insert_eq. cbn. lia.
    + specialize (Hn q Hq). apply HF in Hq as [_ (b & Eb & Hlb)]. unfold id_of, m' in *. rewrite lookup_insert_ne; [lia|].
      intros <-. congruence.
  - rewrite El, size_union, size_singleton by (by apply disjoint_singleton_l, (not_live_cells _ _ d)). lia.
Qed.

(** Row [y] is made and is the last; its walls are closed, to the right from column [x] on. *)
Record at_row (y x : Z) F s : Prop := {
  ar_forest : forest F (el_cells s);
  ar_frontier q : q ∈ F ↔ in_grid q ∧ q.2 = y;
  ar_live q : live_at (el_cells s) q ↔ in_grid q ∧ q.2 ≤ y;
  ar_right x' c : x ≤ x' → el_cells s !! (x', y) = Some c → e_right_wall c ≠ 0;
  ar_bottom x' c : el_cells s !! (x', y) = Some c → e_bottom_wall c ≠ 0;
  ar_next q : q ∈ F → id_of (el_cells s) q < el_next s;
  ar_bound : el_next s ≤ Z.of_nat (size (live_cells (el_cells s))) + 1;
}.

Lemma live_grid F m q : forest F m → live_at m q → in_grid q.
Proof. intros Hfo (c & E & _). by apply (at_grid m q c), E; apply Hfo. Qed.

Lemma filled y F s : filling y F s → (∀ q, in_grid q → q.2 = y → live_at (el_cells s) q) → at_row y 0 F s.
Proof.
  intros [Hfo HF Hl Ha Hcl Hn Hb] Hall. split; [done| | | | |done|done].
  - intros q. rewrite HF. split; [intros [H1 H2]; split; [by eapply live_grid|done]|intros [H1 H2]; auto].
  - intros q. split; [intros Hq; split; [by eapply live_grid|by apply Hl]|]. intros [H1 H2].
    destruct (decide (q.2 = y)); [by apply Hall|apply Ha; [done|lia]].
  - intros x' c _ E. apply (Hcl x' c E). destruct (Hall (x', y)) as (b & Eb & Hlb); [|done|congruence]. by apply (at_grid (el_cells s) _ c), E; apply Hfo.
  - intros x' c E. apply (Hcl x' c E). destruct (Hall (x', y)) as (b & Eb & Hlb); [|done|congruence]. by apply (at_grid (el_cells s) _ c), E; apply Hfo.
Qed.

Lemma first_row_ok s :
  full (walls (el_cells s)) → (∀ q, ¬ live_at (el_cells s) q) → el_next s = 1 →
  wp first_row (λ _ t, ∃ F, at_row 0 0 F t) s.
Proof.
  intros Hf Hno Hn. eapply wp_mono; [apply (wp_for_up_to MAZE_WIDTH _ (λ j t, ∃ F, filling 0 F t ∧
    ∀ q, live_at (el_cells t) q ↔ 0 ≤ q.1 < j ∧ q.2 = 0)); [done| |]|].
  - exists ∅. split; [|intros q; split; [intros Hq; by apply Hno in Hq|lia]].
    assert (live_cells (el_cells s) = ∅) as El by (apply set_eq; intros q; rewrite elem_of_live_cells; set_solver).
    split; [split| | | | | |].
    + done.
    + by intros p ?%not_elem_of_empty.
    + by intros p q ?%not_elem_of_empty.
    + intros p Hp. by apply Hno in Hp.
    + rewrite El. unfold ids. rewrite set_map_empty, !size_empty. unfold doors, walls.
      rewrite !map_empty_filter_2; [done|..]; intros p c (d & <- & Ed)%lookup_fmap_Some; cbn; unfold view;
        (rewrite decide_False; [done|]); intros Hd; apply (Hno p); by exists d.
    + intros q. split; [by intros ?%not_elem_of_empty|]. intros [_ Hq]. by apply Hno in Hq.
    + intros q Hq. by apply Hno in Hq.
    + intros q [_ ?] ?. lia.
    + intros x c E Hl. exfalso. apply (Hno (x, 0)). by exists c.
    + by intros q ?%not_elem_of_empty.
    + rewrite El, size_empty. lia.
  - intros j t Hj (F & HF & Hl). destruct (full_at (el_cells t) (j, 0)) as [d E]; [apply HF|split; cbn; lia|].
    eapply wp_mono; [apply (fill_one 0 j F t d); [done|done|]|].
    + intros Hd. assert (live_at (el_cells t) (j, 0)) as Hx by (by exists d). apply Hl in Hx. cbn in Hx. lia.
    + cbv beta. intros _ t' [HF' Hl']. eexists. split; [exact HF'|]. intros q. rewrite Hl', Hl. destruct q as [qx qy]. cbn.
      split; [intros [[= -> ->]|?]; lia|]. intros [? ->]. destruct (decide (qx = j)) as [->|]; [by left|right; lia].
  - cbv beta. intros _ t (F & HF & Hl). exists F. apply filled; [done|]. intros q [Hq _] Hy. apply Hl. lia.
Qed.

(** ** Joining the cells of a row *)

Lemma join_step y x F s :
  at_row y x F s → 0 ≤ x < MAZE_WIDTH - 1 → 0 ≤ y < MAZE_HEIGHT → id_of (el_cells s) (x, y) ≠ id_of (el_cells s) (x + 1, y) →
  wp (join_right x y) (λ _ t, at_row y (x + 1) F t ∧ ∀ q, q ∈ F → id_of (el_cells t) q =
    if decide (id_of (el_cells s) q = id_of (el_cells s) (x + 1, y)) then id_of (el_cells s) (x, y) else id_of (el_cells s) q) s.
Proof.
  intros [Hfo HF Hl Hr Hb Hn Hbd] Hx Hy Hne.
  assert (in_grid (x, y) ∧ in_grid (x + 1, y)) as [G1 G2] by (unfold in_grid; cbn; lia).
  destruct (full_at (el_cells s) (x, y)) as [c E]; [apply Hfo|done|]. destruct (full_at (el_cells s) (x + 1, y)) as [d E']; [apply Hfo|done|].
  assert (id_of (el_cells s) (x, y) = e_set_id c ∧ id_of (el_cells s) (x + 1, y) = e_set_id d) as [I1 I2] by (unfold id_of; by rewrite E, E').
  rewrite I1, I2 in *. eapply wp_mono; [apply (join_right_ok F x y s c d); try done; apply Hfo|]. cbv beta. intros _ t [En Ht].
  assert (forest F (el_cells t)) as Hfo'.
  { apply (forest_join F (el_cells s) (x, y) c d); try done; [by apply HF|by apply HF|]. by apply (Hr x c). }
  destruct (walls_relabel _ _ _ _ _ Ht) as [_ El]. rewrite (live_cells_same _ _ c) in El by done.
  assert (∀ q, live_at (el_cells t) q ↔ live_at (el_cells s) q) as Hlive by (intros q; by rewrite <- !elem_of_live_cells, El).
  assert (∀ q, q ∈ F → id_of (el_cells t) q = if decide (id_of (el_cells s) q = e_set_id d) then e_set_id c else id_of (el_cells s) q) as Hid.
  { intros q Hq. unfold id_of. rewrite Ht. destruct (decide (q = (x, y))) as [->|Hqne].
    - rewrite lookup_insert_eq, E. cbn. unfold relabel. cbn. by rewrite !decide_False by tauto.
    - rewrite lookup_insert_ne by done. destruct (fr_live _ _ Hfo q Hq) as (b & Eb & _). rewrite Eb. cbn. unfold relabel.
      destruct (decide (e_set_id b = e_set_id d)); [by rewrite decide_True|by rewrite decide_False by tauto]. }
  assert (∀ x' b, el_cells t !! (x', y) = Some b → ∃ b', el_cells s !! (x', y) = Some b' ∧ e_bottom_wall b = e_bottom_wall b' ∧
    (x < x' → e_right_wall b = e_right_wall b')) as Hback.
  { intros x' b. rewrite Ht. destruct (decide ((x', y) = (x, y))) as [[= ->]|Hqne].
    - rewrite lookup_insert_eq. cbn. intros [= <-]. exists c. split; [done|]. unfold relabel. case_decide; (split; [done|lia]).
    - rewrite lookup_insert_ne by done. destruct (el_cells s !! (x', y)) as [b'|]; [|done]. cbn. intros [= <-]. exists b'.
      unfold relabel. by case_decide. }
  split; [|exact Hid]. split.
  - done.
  - done.
  - intros q. rewrite Hlive. apply Hl.
  - intros x' b Hx' Eb. destruct (Hback _ _ Eb) as (b' & Eb' & _ & ->); [|lia]. apply (Hr x' b'); [lia|done].
  - intros x' b Eb. destruct (Hback _ _ Eb) as (b' & Eb' & -> & _). by apply (Hb x').
  - intros q Hq. rewrite Hid by done. rewrite En. case_decide; [|by apply Hn]. rewrite <- I1. by apply Hn, HF.
  - rewrite En, El. lia.
Qed.

Lemma at_row_weaken y x x' F s : at_row y x F s → x ≤ x' → at_row y x' F s.
Proof. intros [] Hx. split; try done. intros z c Hz. apply ar_right0. lia. Qed.

Lemma at_row_mz y x F s z : at_row y x F s → at_row y x F (Eller (el_cells s) (el_next s) z).
Proof. by intros []. Qed.

Lemma at_row_cell y x x' F s :
  at_row y x F s → 0 ≤ x' < MAZE_WIDTH → 0 ≤ y < MAZE_HEIGHT → ∃ c, el_cells s !! (x', y) = Some c ∧ id_of (el_cells s) (x', y) = e_set_id c.
Proof.
  intros H Hx Hy. destruct (full_at (el_cells s) (x', y)) as [c E]; [apply H|done|]. exists c. split; [done|]. unfold id_of. by rewrite E.
Qed.

Lemma join_row_ok y F s :
  at_row y 0 F s → 0 ≤ y < MAZE_HEIGHT → wp (join_row y) (λ _ t, at_row y (MAZE_WIDTH - 1) F t) s.
Proof.
  intros H0 Hy. unfold join_row. eapply (wp_for_up_to (MAZE_WIDTH - 1) _ (λ x t, at_row y x F t)); [done|done|].
  intros x t Hx Ht. destruct (at_row_cell y x x F t) as (c & Ec & Ic); [done|lia|done|].
  destruct (at_row_cell y x (x + 1) F t) as (d & Ed & Id); [done|lia|done|].
  apply wp_bind, (wp_ld_eller _ _ _ _ c); [done|]. apply wp_bind, (wp_ld_eller _ _ _ _ d); [done|].
  destruct (e_set_id c =? e_set_id d) eqn:E; [apply wp_ret; apply (at_row_weaken y x); [done|lia]|].
  apply wp_bind, wp_random. intros r z. destruct (r <? 50).
  - eapply wp_mono; [apply (join_step y x F); [by apply at_row_mz|done|done|cbn [el_cells]; lia]|]. by cbv beta; intros _ t' [? _].
  - apply wp_ret. apply (at_row_weaken y x); [by apply at_row_mz|lia].
Qed.

Lemma join_last_ok F s :
  at_row (MAZE_HEIGHT - 1) 0 F s →
  wp join_last (λ _ t, at_row (MAZE_HEIGHT - 1) (MAZE_WIDTH - 1) F t ∧ ∀ q, q ∈ F → id_of (el_cells t) q = id_of (el_cells t) (MAZE_WIDTH - 1, MAZE_HEIGHT - 1)) s.
Proof.
  intros H0. unfold join_last. set (y := MAZE_HEIGHT - 1) in *.
  eapply wp_mono; [apply (wp_for_up_to (MAZE_WIDTH - 1) _ (λ x t, at_row y x F t ∧
    ∀ x', 0 ≤ x' ≤ x → id_of (el_cells t) (x', y) = id_of (el_cells t) (x, y))); [done| |]|].
  - split; [done|]. intros x' ?. by replace x' with 0 by lia.
  - intros x t Hx [Ht Hall]. destruct (at_row_cell y x x F t) as (c & Ec & Ic); [done|lia|done|].
    destruct (at_row_cell y x (x + 1) F t) as (d & Ed & Id); [done|lia|done|].
    apply wp_bind, (wp_ld_eller _ _ _ _ c); [done|]. apply wp_bind, (wp_ld_eller _ _ _ _ d); [done|].
    destruct (e_set_id c =? e_set_id d) eqn:E.
    + apply wp_ret. split; [apply (at_row_weaken y x); [done|lia]|]. intros x' Hx'.
      destruct (decide (x' = x + 1)) as [->|]; [done|]. rewrite Hall by lia. lia.
    + eapply wp_mono; [apply (join_step y x F); [done|done|done|lia]|]. cbv beta. intros _ t' [Ht' Hid]. split; [done|].
      assert (∀ z, 0 ≤ z ≤ x + 1 → (z, y) ∈ F) as HF by (intros z Hz; apply Ht'; unfold in_grid; cbn; lia).
      intros x' Hx'. rewrite !Hid by (apply HF; lia). rewrite (decide_True (P := id_of (el_cells t) (x + 1, y) = _)) by done.
      case_decide; [done|]. apply Hall. destruct (decide (x' = x + 1)) as [->|]; [done|lia].
  - cbv beta. intros _ t [Ht Hall]. split; [done|]. intros [qx qy] Hq. apply Ht in Hq as [[Hqx _] Hqy]. cbn in *. subst qy. apply Hall. lia.
Qed.

(** ** Down to the next row *)

Lemma unique_sets_ok n x y sets s :
  full (walls (el_cells s)) → 0 ≤ x → x + Z.of_nat n = MAZE_WIDTH → 0 ≤ y < MAZE_HEIGHT → NoDup sets →
  wp (unique_sets n x y sets) (λ l t, t = s ∧ NoDup l ∧
    ∀ v, v ∈ l ↔ v ∈ sets ∨ ∃ x', x ≤ x' < MAZE_WIDTH ∧ id_of (el_cells s) (x', y) = v) s.
Proof.
  intros Hf. revert x sets. induction n as [|n IH]; intros x sets Hx Hn Hy Hnd; cbn [unique_sets].
  { apply wp_ret. split_and!; [done|done|]. intros v. split; [by left|]. intros [?|(x' & ? & _)]; [done|lia]. }
  destruct (full_at (el_cells s) (x, y)) as [c E]; [done|unfold in_grid; cbn; lia|].
  assert (id_of (el_cells s) (x, y) = e_set_id c) as Hid by (unfold id_of; by rewrite E).
  apply wp_bind, (wp_ld_eller _ _ _ _ c); [done|]. destruct (existsb (Z.eqb (e_set_id c)) sets) eqn:Ex.
  - apply existsb_exists in Ex as (v0 & Hv0 & <-%Z.eqb_eq). apply list_elem_of_In in Hv0.
    eapply wp_mono; [apply (IH (x + 1) sets); (done || lia)|]. cbv beta. intros l t (-> & Hl & Hin). split_and!; [done|done|].
    intros v. rewrite Hin. split; [intros [?|(x' & ? & ?)]; [by left|right; exists x'; split; [lia|done]]|].
    intros [?|(x' & Hx' & Ev)]; [by left|]. destruct (decide (x' = x)) as [->|]; [left; congruence|right; exists x'; split; [lia|done]].
  - assert (e_set_id c ∉ sets) as Hni.
    { intros Hin. apply not_true_iff_false in Ex. apply Ex, existsb_exists. exists (e_set_id c). split; [by apply list_elem_of_In|apply Z.eqb_refl]. }
    eapply wp_mono; [apply (IH (x + 1) (sets ++ [e_set_id c])); [lia|lia|done|]|].
    + apply NoDup_app. split_and!; [done| |apply NoDup_singleton]. by intros v Hv ->%list_elem_of_singleton.
    + cbv beta. intros l t (-> & Hl & Hin). split_and!; [done|done|]. intros v. rewrite Hin, elem_of_app, list_elem_of_singleton.
      split.
      * intros [[?| ->]|(x' & ? & ?)]; [by left|right; exists x; split; [lia|done]|right; exists x'; split; [lia|done]].
      * intros [?|(x' & Hx' & Ev)]; [by left; left|].
        destruct (decide (x' = x)) as [->|]; [left; right; congruence|right; exists x'; split; [lia|done]].
Qed.

(** The sets of row [y] are [i0], and the walls below its cells in [h] have been decided. *)
Record down (y : Z) (i0 : Z → Z) (h : Z → Prop) s : Prop := {
  dn_forest : ∃ F, forest F (el_cells s) ∧ ∀ q, q ∈ F ↔ live_at (el_cells s) q ∧ (q.2 = y ∨ q.2 = y + 1);
  dn_live q : live_at (el_cells s) q → q.2 ≤ y + 1;
  dn_above q : in_grid q → q.2 ≤ y → live_at (el_cells s) q;
  dn_ids x : 0 ≤ x < MAZE_WIDTH → id_of (el_cells s) (x, y) = i0 x;
  dn_below x c : el_cells s !! (x, y + 1) = Some c → live c → h x ∧ e_set_id c = i0 x ∧ e_right_wall c ≠ 0 ∧ e_bottom_wall c ≠ 0;
  dn_closed x c : el_cells s !! (x, y) = Some c → ¬ h x → e_bottom_wall c ≠ 0;
  dn_next x : 0 ≤ x < MAZE_WIDTH → i0 x < el_next s;
  dn_bound : el_next s ≤ Z.of_nat (size (live_cells (el_cells s))) + 1;
}.

(** A cell of the set has one below it. *)
Definition linked (y : Z) (i0 : Z → Z) (v : Z) s : Prop := ∃ x, 0 ≤ x < MAZE_WIDTH ∧ i0 x = v ∧ live_at (el_cells s) (x, y + 1).

Lemma down_weaken y i0 (h h' : Z → Prop) s : (∀ x, h x → h' x) → down y i0 h s → down y i0 h' s.
Proof.
  intros Hh []. split; try done.
  - intros x c E Hl. destruct (dn_below0 x c E Hl) as [? ?]. auto.
  - intros x c E Hn. apply (dn_closed0 x); auto.
Qed.

Lemma down_mz y i0 h s z : down y i0 h s → down y i0 h (Eller (el_cells s) (el_next s) z).
Proof. by intros []. Qed.

(** The wall below a cell is opened and the cell below it made. *)
Lemma down_step y i0 h s x (k : M eller unit) (Q : unit → eller → Prop) :
  down y i0 h s → 0 ≤ y < MAZE_HEIGHT - 1 → 0 ≤ x < MAZE_WIDTH → ¬ h x →
  (∀ t, down y i0 (λ x', h x' ∨ x' = x) t → live_at (el_cells t) (x, y + 1) →
     (∀ q, live_at (el_cells s) q → live_at (el_cells t) q) → wp k Q t) →
  wp (st_eller x y no_bottom ;; st_eller x (y + 1) (new_cell (i0 x)) ;; k) Q s.
Proof.
  intros [(F & Hfo & HF) Hl Ha Hi Hbl Hcl Hn Hb] Hy Hx Hh Hk.
  assert (in_grid (x, y) ∧ in_grid (x, y + 1)) as [G1 G2] by (unfold in_grid; cbn; lia).
  destruct (full_at (el_cells s) (x, y)) as [c E]; [apply Hfo|done|]. destruct (full_at (el_cells s) (x, y + 1)) as [d E']; [apply Hfo|done|].
  assert (e_set_id c = i0 x) as Ei by (rewrite <- Hi by done; unfold id_of; by rewrite E).
  assert (¬ live d) as Hd by (intros Hd; by apply (Hbl x d) in Hd as [? _]).
  assert ((x, y) ≠ (x, y + 1)) as Hne by (intros [=]; lia).
  apply wp_bind, (wp_st_eller _ _ _ _ _ c); [done|]. apply wp_bind, (wp_st_eller _ _ _ _ _ d); [cbn; by rewrite lookup_insert_ne|].
  cbn [el_cells el_next]. rewrite <- Ei. set (m' := <[(x, y + 1) := _]> _).
  assert (live_at (el_cells s) (x, y)) as Hxy by (apply Ha; [done|cbn; lia]).
  assert (forest ({[below (x, y)]} ∪ F) m') as Hfo'.
  { apply forest_grow; [done|apply HF; split; [done|by left]|done|by apply (Hcl x)|done|done]. }
  assert (live_cells m' = {[(x, y + 1)]} ∪ live_cells (el_cells s)) as El.
  { unfold m'. rewrite (live_cells_new _ _ d); [|by rewrite lookup_insert_ne|done|done]. f_equal. by apply (live_cells_same _ _ c). }
  assert (∀ q, live_at m' q ↔ q = (x, y + 1) ∨ live_at (el_cells s) q) as Hlive by (intros q; rewrite <- !elem_of_live_cells, El; set_solver).
  apply Hk; cbn [el_cells]; [|by apply Hlive; left|intros q Hq; apply Hlive; by right]. split; cbn [el_cells el_next].
  - eexists. split; [exact Hfo'|]. intros q. rewrite elem_of_union, elem_of_singleton, HF, Hlive. unfold below. cbn.
    split; [intros [->|[? ?]]; [split; [by left|by right]|split; [by right|done]]|]. intros [[->|?] ?]; [by left|by right].
  - intros q. rewrite Hlive. intros [->|Hq]; [cbn; lia|by apply Hl].
  - intros q H1 H2. apply Hlive. right. by apply Ha.
  - intros x' Hx'. rewrite <- Hi by done. unfold id_of, m'. rewrite lookup_insert_ne by (intros [=]; lia).
    destruct (decide (x = x')) as [->|]; [by rewrite lookup_insert_eq, E|by rewrite lookup_insert_ne by congruence].
  - intros x' b. unfold m'. destruct (decide (x = x')) as [->|Hx'].
    + rewrite lookup_insert_eq. intros [= <-] _. split_and!; [by right|done|done|done].
    + rewrite !lookup_insert_ne by congruence. intros Eb Hlb. destruct (Hbl x' b Eb Hlb) as [? ?]. split; [by left|done].
  - intros x' b. unfold m'. rewrite lookup_insert_ne by (intros [=]; lia). intros Eb Hn'.
    rewrite lookup_insert_ne in Eb by (intros [= ->]; apply Hn'; by right). apply (Hcl x' b); tauto.
  - done.
  - rewrite El, size_union, size_singleton by (by apply disjoint_singleton_l, (not_live_cells _ _ d)). lia.
Qed.

Lemma down_cell y i0 h s x : down y i0 h s → 0 ≤ y < MAZE_HEIGHT → 0 ≤ x < MAZE_WIDTH → ∃ c, el_cells s !! (x, y) = Some c ∧ e_set_id c = i0 x.
Proof.
  intros H Hy Hx. destruct (dn_forest _ _ _ _ H) as (F & Hfo & _). destruct (full_at (el_cells s) (x, y)) as [c E]; [apply Hfo|done|].
  exists c. split; [done|]. rewrite <- (dn_ids _ _ _ _ H) by done. unfold id_of. by rewrite E.
Qed.

Lemma connect_set_ok n x y i0 h v has s :
  down y i0 h s → 0 ≤ x → x + Z.of_nat n = MAZE_WIDTH → 0 ≤ y < MAZE_HEIGHT - 1 → (∀ x', x ≤ x' → i0 x' = v → ¬ h x') →
  (has = true → linked y i0 v s) →
  wp (connect_set n x y v has) (λ _ t, down y i0 (λ x', h x' ∨ x ≤ x' ∧ i0 x' = v) t ∧
    (has = true ∨ (∃ x', x ≤ x' < MAZE_WIDTH ∧ i0 x' = v) → linked y i0 v t) ∧
    ∀ q, live_at (el_cells s) q → live_at (el_cells t) q) s.
Proof.
  revert x h has s. induction n as [|n IH]; intros x h has s Hs Hx Hn Hy Hh Hl; cbn [connect_set].
  { apply wp_ret. split_and!; [|intros [?|(x' & ? & _)]; [auto|lia]|done]. apply (down_weaken y i0 h); [by left|done]. }
  destruct (down_cell y i0 h s x) as (c & E & Ec); [done|lia|lia|]. apply wp_bind, (wp_ld_eller _ _ _ _ c); [done|]. rewrite Ec.
  assert (∀ t b (h' : Z → Prop), down y i0 h' t → (∀ x', h' x' ↔ h x' ∨ x' = x ∧ i0 x = v) → (b = true → linked y i0 v t) →
    (has = true ∨ i0 x = v → b = true) → (∀ q, live_at (el_cells s) q → live_at (el_cells t) q) →
    wp (connect_set n (x + 1) y v b) (λ _ t, down y i0 (λ x', h x' ∨ x ≤ x' ∧ i0 x' = v) t ∧
      (has = true ∨ (∃ x', x ≤ x' < MAZE_WIDTH ∧ i0 x' = v) → linked y i0 v t) ∧
      ∀ q, live_at (el_cells s) q → live_at (el_cells t) q) t) as Hrest.
  { intros t b h' Ht Hh' Hb Hhb Hlt. eapply wp_mono; [apply (IH (x + 1) h' b t); [done|lia|lia|done| |done]|].
    - intros x' Hx' Ev Hx''. apply Hh' in Hx'' as [Hx''|[-> _]]; [|lia]. apply (Hh x'); [lia|done|done].
    - cbv beta. intros _ t' (D & L & K). split_and!; [|intros Hor; apply L|by auto].
      + apply (down_weaken _ _ _ _ _ ) with (2 := D). intros x' [Hx'|[? ?]]; [|right; split; [lia|done]].
        apply Hh' in Hx' as [?|[-> ?]]; [by left|right; split; [lia|done]].
      + destruct Hor as [?|(x' & Hx' & Ev)]; [left; auto|]. destruct (decide (x' = x)) as [->|]; [left; auto|right; exists x'; split; [lia|done]]. }
  destruct (i0 x =? v) eqn:Ev.
  - apply Z.eqb_eq in Ev. apply wp_bind, wp_random. intros r z. destruct ((r <? 40) || negb has) eqn:Eb.
    + subst v. apply (down_step y i0 h _ x); [by apply down_mz|done|lia|by apply Hh|]. intros t D L K.
      apply (Hrest t true (λ x', h x' ∨ x' = x)); [done|naive_solver| |done|done]. intros _. exists x. split; [lia|done].
    + apply orb_false_iff in Eb as [_ Eb]. destruct has; [|done].
      apply (Hrest _ true (λ x', h x' ∨ x' = x)); [|naive_solver|intros _; exact (Hl eq_refl)|done|done].
      apply (down_weaken y i0 h); [by left|by apply down_mz].
  - apply Z.eqb_neq in Ev. apply (Hrest s has h); [done|naive_solver|done|naive_solver|done].
Qed.

Lemma connect_sets_ok sets y i0 h s :
  down y i0 h s → 0 ≤ y < MAZE_HEIGHT - 1 → NoDup sets → (∀ x, i0 x ∈ sets → ¬ h x) →
  (∀ v, v ∈ sets → ∃ x, 0 ≤ x < MAZE_WIDTH ∧ i0 x = v) →
  wp (connect_sets sets y) (λ _ t, down y i0 (λ _, True) t ∧ (∀ v, v ∈ sets → linked y i0 v t) ∧
    ∀ q, live_at (el_cells s) q → live_at (el_cells t) q) s.
Proof.
  revert h s. induction sets as [|v sets IH]; intros h s Hs Hy Hnd Hh Hex; cbn [connect_sets].
  { apply wp_ret. split_and!; [by apply (down_weaken y i0 h)|by intros v ?%not_elem_of_nil|done]. }
  apply NoDup_cons in Hnd as [Hv Hnd]. eapply wp_bind_mono; [apply (connect_set_ok _ 0 y i0 h v false s); [done|done|done|done| |done]|].
  { intros x _ <-. apply Hh, list_elem_of_here. }
  cbv beta. intros [] t (D & L & K).
  eapply wp_mono; [apply (IH (λ x, h x ∨ 0 ≤ x ∧ i0 x = v) t); [done|done|done| |]|].
  - intros x Hx [Hx'|[_ <-]]; [|done]. apply (Hh x); [by apply list_elem_of_further|done].
  - intros v' Hv'. apply Hex. by apply list_elem_of_further.
  - cbv beta. intros _ t' (D' & L' & K'). split_and!; [done| |by auto]. intros v' [->|Hv']%elem_of_cons; [|by apply L'].
    destruct L as (x & Hx & Ex & Hlx); [right; apply Hex, list_elem_of_here|]. exists x. auto.
Qed.

(** ** The maze *)

Lemma at_row_down y x F s :
  at_row y x F s → 0 ≤ y < MAZE_HEIGHT → down y (λ x, id_of (el_cells s) (x, y)) (λ _, False) s.
Proof.
  intros [Hfo HF Hl Hr Hb Hn Hbd] Hy. split.
  - exists F. split; [done|]. intros q. rewrite HF, Hl. split; [intros [? <-]; split; [split; [done|lia]|by left]|]. intros [[? ?] [?|?]]; [done|lia].
  - intros q Hq%Hl. lia.
  - intros q ? ?. by apply Hl.
  - done.
  - intros x' c E Hlc. assert (live_at (el_cells s) (x', y + 1)) as H%Hl by (by exists c). cbn in H. lia.
  - intros x' c E _. by apply (Hb x').
  - intros x' Hx. by apply Hn, HF.
  - done.
Qed.

Lemma down_filling y i0 s :
  down y i0 (λ _, True) s → 0 ≤ y < MAZE_HEIGHT → (∀ x, 0 ≤ x < MAZE_WIDTH → linked y i0 (i0 x) s) → ∃ F, filling (y + 1) F s.
Proof.
  intros [(F & Hfo & HF) Hl Ha Hi Hbl Hcl Hn Hb] Hy Hlk. exists (filter (λ q, q.2 = y + 1) F).
  assert (∀ x, live_at (el_cells s) (x, y + 1) → id_of (el_cells s) (x, y + 1) = i0 x) as Hib.
  { intros x (c & E & Hlc). unfold id_of. rewrite E. cbn. by apply (Hbl x c E). }
  split.
  - apply (forest_drop F); [done|set_solver|]. intros [px py] Hp. destruct (proj1 (HF _) Hp) as [Hlp [Ey|Ey]]; cbn in Ey; subst py.
    + destruct (live_grid F _ _ Hfo Hlp) as [Hpx _]. cbn in Hpx. destruct (Hlk px Hpx) as (x & Hx & Ex & Hlx). exists (x, y + 1).
      split; [apply elem_of_filter; split; [done|]; apply HF; split; [done|by right]|]. rewrite Hib, Hi by done. done.
    + exists (px, y + 1). split; [by apply elem_of_filter|done].
  - intros q. rewrite elem_of_filter, HF. naive_solver.
  - done.
  - intros q Hq Hqy. apply Ha; [done|lia].
  - intros x c E Hlc. by apply (Hbl x c E).
  - intros [qx qy] [Eq Hq]%elem_of_filter. cbn in Eq. subst qy. apply HF in Hq as [Hq _]. rewrite Hib by done. apply Hn.
    destruct (live_grid F _ _ Hfo Hq) as [Hqx _]. exact Hqx.
  - done.
Qed.

Lemma fill_row_ok y F s :
  filling y F s → 0 ≤ y < MAZE_HEIGHT → wp (fill_row y) (λ _ t, ∃ F, at_row y 0 F t) s.
Proof.
  intros HF Hy. eapply wp_mono; [apply (wp_for_up_to MAZE_WIDTH _ (λ j t, ∃ F, filling y F t ∧
    ∀ x, 0 ≤ x < j → live_at (el_cells t) (x, y))); [done| |]|].
  - exists F. split; [done|lia].
  - intros j t Hj (F' & HF' & Hl). destruct (full_at (el_cells t) (j, y)) as [d E]; [apply HF'|done|].
    apply wp_bind, (wp_ld_eller _ _ _ _ d); [done|]. destruct (e_type d =? CORRIDOR) eqn:Ed.
    + apply wp_ret. exists F'. split; [done|]. intros x Hx. destruct (decide (x = j)) as [->|]; [exists d; split; [done|unfold live; lia]|apply Hl; lia].
    + eapply wp_mono; [apply (fill_one y j F' t d); [done|done|unfold live; lia]|]. cbv beta. intros _ t' [HF'' Hl'].
      eexists. split; [exact HF''|]. intros x Hx. apply Hl'. destruct (decide (x = j)) as [->|]; [by left|right; apply Hl; lia].
  - cbv beta. intros _ t (F' & HF' & Hl). exists F'. apply filled; [done|]. intros [qx qy] [Hq _] Eq. cbn in *. subst qy. by apply Hl.
Qed.

Lemma row_step_ok y F s :
  at_row y 0 F s → 0 ≤ y < MAZE_HEIGHT - 1 →
  wp (join_row y ;; sets ← unique_sets (Z.to_nat MAZE_WIDTH) 0 y []; connect_sets sets y ;; fill_row (y + 1)) (λ _ t, ∃ F, at_row (y + 1) 0 F t) s.
Proof.
  intros Hs Hy. eapply wp_bind_mono; [apply (join_row_ok y F); [done|lia]|]. cbv beta. intros [] s1 H1.
  set (i0 := λ x, id_of (el_cells s1) (x, y)).
  eapply wp_bind_mono; [apply (unique_sets_ok _ 0 y []); [apply H1|done|done|lia|apply NoDup_nil_2]|]. cbv beta. intros sets ? (-> & Hnd & Hin).
  assert (∀ v, v ∈ sets ↔ ∃ x, 0 ≤ x < MAZE_WIDTH ∧ i0 x = v) as Hsets by (intros v; rewrite Hin; unfold i0; set_solver).
  eapply wp_bind_mono; [apply (connect_sets_ok sets y i0 (λ _, False)); [eapply at_row_down; [exact H1|lia]|done|done|by intros x _ []|intros v; apply Hsets]|].
  cbv beta. intros [] s2 (D & L & _). destruct (down_filling y i0 s2 D) as [F2 H2]; [lia| |].
  - intros x Hx. apply L, Hsets. by exists x.
  - apply (fill_row_ok (y + 1) F2); [done|lia].
Qed.

(** C15: the first call of Eller's algorithm carves a perfect maze: from an array none of whose cells is a CORRIDOR, and
    whatever the random numbers, every cell can be reached from the top left one through open walls, and exactly 389
    walls are open, one fewer than there are cells, so that no two cells are joined in two ways.  The number of sets that
    are used stays below 391. *)
Theorem generate_maze_eller_perfect s :
  (∀ p, is_Some (el_cells s !! p) ↔ in_grid p) → (∀ p c, el_cells s !! p = Some c → e_type c ≠ CORRIDOR) →
  wp generate_maze_eller (λ _ t,
    (∀ p, in_grid p → rtc (passage (plain <$> el_cells t)) (0, 0) p) ∧
    doors (plain <$> el_cells t) = 389%nat ∧ el_next t ≤ 391) s.
Proof.
  intros Hfull Hnew. unfold generate_maze_eller. apply wp_bind, wp_modify.
  eapply wp_bind_mono; [apply first_row_ok; cbn [el_cells el_next]; [|intros q (c & E & Hl); by apply (Hnew q c)|done]|].
  { intros p. unfold walls. rewrite lookup_fmap, fmap_is_Some. apply Hfull. }
  cbv beta. intros [] s1 H1. eapply wp_bind_mono.
  { apply (wp_for_up_to (MAZE_HEIGHT - 1) _ (λ y t, ∃ F, at_row y 0 F t)); [done|exact H1|]. intros y t Hy (F & HF). by eapply row_step_ok. }
  cbv beta. intros [] s2 (F & HF). eapply wp_mono; [by apply join_last_ok|]. cbv beta. intros _ t [[Hfo HFq Hl _ _ Hn Hb] Heq].
  set (z := (MAZE_WIDTH - 1, MAZE_HEIGHT - 1)) in *. assert (z ∈ F) as Hz by (apply HFq; done).
  assert (plain <$> el_cells t = walls (el_cells t)) as ->.
  { unfold walls. apply map_fmap_ext. intros p c E. unfold view. rewrite decide_True; [done|].
    destruct (proj2 (Hl p)) as (c' & E' & ?); [|congruence]. assert (in_grid p) as Hg by (eapply at_grid; [apply Hfo|done]).
    split; [done|]. destruct Hg. lia. }
  assert (∀ p, in_grid p → joined (el_cells t) z p) as Hj.
  { intros p Hp. destruct (fr_near _ _ Hfo p) as (q & Hq & Hpq); [apply Hl; split; [done|destruct Hp; lia]|].
    apply joined_sym. etrans; [exact Hpq|]. apply (fr_same _ _ Hfo); [done|done|by apply Heq]. }
  assert (live_cells (el_cells t) = list_to_set grid) as El.
  { apply set_eq. intros p. rewrite elem_of_live_cells, Hl, elem_of_list_to_set, elem_of_grid. unfold in_grid. lia. }
  pose proof size_grid as Hg. rewrite <- El in Hg. split_and!; [|pose proof (fr_count _ _ Hfo) as Hc|lia].
  - intros p Hp. etrans; [apply joined_sym, Hj; done|by apply Hj].
  - replace (ids F (el_cells t)) with ({[id_of (el_cells t) z]} : gset Z) in Hc; [rewrite size_singleton in Hc; lia|].
    apply set_eq. intros v. unfold ids. rewrite elem_of_singleton, elem_of_map. split; [intros ->; by exists z|]. intros (q & -> & Hq). by apply Heq.
Qed.

(** The array as the program starts. *)
Definition fresh_array : gmap (Z * Z) cell_eller := gset_to_gmap (CellEller 0 0 0 0) (list_to_set grid).

Lemma generate_maze_eller_perfect_witness :
  wp generate_maze_eller (λ _ t, doors (plain <$> el_cells t) = 389%nat)
    (Eller fresh_array 0 (Mz ∅ 0 1 [] (Vga [] 0 0 0 []) [])).
Proof.
  eapply wp_mono; [apply generate_maze_eller_perfect; cbn [el_cells]|cbv beta; intros _ t (_ & H & _); exact H].
  - intros p. unfold fresh_array. rewrite <- elem_of_dom, dom_gset_to_gmap, elem_of_list_to_set. apply elem_of_grid.
  - intros p c [_ <-]%lookup_gset_to_gmap_Some. discriminate.
Defined.

(** A second maze in the same array is another matter: the cells are still marked as made, and the step that gives new
    sets to the cells without a connection does nothing. *)
Theorem fill_row_again y s : (∀ x, 0 ≤ x < MAZE_WIDTH → live_at (el_cells s) (x, y)) → wp (fill_row y) (λ _ t, t = s) s.
Proof.
  intros Hl. apply (wp_for_up_to MAZE_WIDTH _ (λ _ t, t = s)); [done|done|]. intros x t Hx ->. destruct (Hl x Hx) as (c & E & Hc).
  apply wp_bind, (wp_ld_eller _ _ _ _ c); [done|]. by rewrite Hc.
Qed.
