(* ===== verification/Pong.v ===== *)
(** * Pong ([kernel/games/pong.c], [kernel/games/pong.h], [libc/math/math.c])

    The game on the graphics of [Gfx] and the random numbers of [Rand].  What the
    interrupt handlers change behind the game's back, the timer's ticks and the
    keys that are held down, is a sequence of answers: the [n]-th look at the
    outside world.  Signed arithmetic is on numbers that have not overflowed;
    conversions between [int] and [uint32_t] are written out. *)

From S2P Require Import Prelude Loops Gfx ConsoleProps Rand.

Abbreviation PADDLE_WIDTH := 10%Z.
Abbreviation PADDLE_HEIGHT := 100%Z.
Abbreviation BALL_RADIUS := 10%Z.
Abbreviation PLAYER_SPEED := 1000%Z.
Abbreviation BALL_MAX_SPEED := 500%Z.
Abbreviation NET_WIDTH := 15%Z.
(* src/kernel/games/pong.c 29-29 NET_HEIGHT *)
Definition NET_HEIGHT (screen_height : Z) : Z := screen_height ÷ 20.
Abbreviation EVENT_DEBOUNCE_TICKS := 10%Z.
Abbreviation PONG_FRAME_MS := 16%Z.
Abbreviation PONG_WIN_SCORE := 9%Z.
Abbreviation FONT_SCALE := 4%Z.

(* src/kernel/games/pong.h 7-14 obj *)
Record obj := Obj { o_x : Z; o_y : Z; o_width : Z; o_height : Z; vel_x : Z; vel_y : Z }.

(** The three recordings [ac97_play] is called with. *)
(* src/kernel/games/pong.h 17-22 _audio_pong_wall_start *)
Inductive sound := WallSound | PaddleSound | ScoreSound.

Inductive key := KEY_W | KEY_S | KEY_ARROW_UP | KEY_ARROW_DOWN.

(* src/kernel/games/pong.c 37-45 score_player1 *)
Record pong := Pong {
  screen_width : Z; screen_height : Z;
  last_event : Z; last_player_scored : Z;
  player1 : obj; player2 : obj; ball : obj;
  score_player1 : Z; score_player2 : Z;
  p_rng : rng; p_gfx : gfx;
  p_played : list sound;          (* the calls of ac97_play *)
  p_looks : nat;                  (* looks at the outside world *)
}.

Definition set_objs (a b c : obj) (s : pong) : pong :=
  Pong (screen_width s) (screen_height s) (last_event s) (last_player_scored s) a b c
    (score_player1 s) (score_player2 s) (p_rng s) (p_gfx s) (p_played s) (p_looks s).
Definition set_ball (c : obj) (s : pong) : pong := set_objs (player1 s) (player2 s) c s.
Definition set_event (now : Z) (s : pong) : pong :=
  Pong (screen_width s) (screen_height s) now (last_player_scored s) (player1 s) (player2 s) (ball s)
    (score_player1 s) (score_player2 s) (p_rng s) (p_gfx s) (p_played s) (p_looks s).
Definition set_scores (last a b : Z) (s : pong) : pong :=
  Pong (screen_width s) (screen_height s) (last_event s) last (player1 s) (player2 s) (ball s)
    a b (p_rng s) (p_gfx s) (p_played s) (p_looks s).
Definition add_played (x : sound) (s : pong) : pong :=
  Pong (screen_width s) (screen_height s) (last_event s) (last_player_scored s) (player1 s) (player2 s) (ball s)
    (score_player1 s) (score_player2 s) (p_rng s) (p_gfx s) (p_played s ++ [x]) (p_looks s).
Definition set_looks (n : nat) (s : pong) : pong :=
  Pong (screen_width s) (screen_height s) (last_event s) (last_player_scored s) (player1 s) (player2 s) (ball s)
    (score_player1 s) (score_player2 s) (p_rng s) (p_gfx s) (p_played s) n.
Definition set_dev (r : rng) (g : gfx) (s : pong) : pong :=
  Pong (screen_width s) (screen_height s) (last_event s) (last_player_scored s) (player1 s) (player2 s) (ball s)
    (score_player1 s) (score_player2 s) r g (p_played s) (p_looks s).

(** The same object elsewhere, or with another velocity. *)
Definition move (x y : Z) (o : obj) : obj := Obj x y (o_width o) (o_height o) (vel_x o) (vel_y o).
Definition steer (vx vy : Z) (o : obj) : obj := Obj (o_x o) (o_y o) (o_width o) (o_height o) vx vy.

Definition lift {S A} (get : pong → S) (set : S → pong → pong) (m : M S A) : M pong A := λ s,
  match m (get s) with
  | Ok (a, t) => Ok (a, set t s)
  | Panic msg => Panic msg
  | Halt => Halt
  | Fault a => Fault a
  | OutOfFuel => OutOfFuel
  end.
Definition on_gfx {A} : M gfx A → M pong A := lift p_gfx (λ g s, set_dev (p_rng s) g s).
Definition on_rng {A} : M rng A → M pong A := lift p_rng (λ r s, set_dev r (p_gfx s) s).

Definition ac97_play (x : sound) : M pong unit := modify (add_played x).

(* src/libc/math/math.c 10-12 abs *)
Definition abs (a : Z) : Z := if a <? 0 then - a else a.

Section pong.
(** [timer_ticks()] and [is_key_pressed(k)] at the [n]-th look; the processor's random numbers. *)
Context (ticks : nat → Z) (held : nat → key → bool) (rdrand : nat → option Z).

Definition look {A} (f : nat → A) : M pong A :=
  n ← gets p_looks; modify (set_looks (S n)) ;; mret (f n).
Definition timer_ticks : M pong Z := look (λ n, u32 (ticks n)).
Definition is_key_pressed (k : key) : M pong bool := look (λ n, held n k).
Definition rand_range (min max : Z) : M pong Z := on_rng (Rand.rand_range rdrand (u32 min) (u32 max)).

(* src/kernel/games/pong.c 49-75 pong_init *)
Definition pong_init (width height : Z) : M pong unit :=
  modify (λ s,
    let p1 := Obj 0 (height ÷ 2 - PADDLE_HEIGHT ÷ 2) PADDLE_WIDTH PADDLE_HEIGHT 0 0 in
    let p2 := Obj (width - PADDLE_WIDTH) (height ÷ 2 - PADDLE_HEIGHT ÷ 2) PADDLE_WIDTH PADDLE_HEIGHT 0 0 in
    let b := Obj (width ÷ 2 - BALL_RADIUS ÷ 2) (height ÷ 2 - BALL_RADIUS ÷ 2) BALL_RADIUS BALL_RADIUS 0 0 in
    Pong width height (last_event s) (last_player_scored s) p1 p2 b
      (score_player1 s) (score_player2 s) (p_rng s) (p_gfx s) (p_played s) (p_looks s)).

(* src/kernel/games/pong.c 77-96 pong_handle_input *)
Definition pong_handle_input : M pong unit :=
  let p1_vel v := modify (λ s, set_objs (steer (vel_x (player1 s)) v (player1 s)) (player2 s) (ball s) s) in
  let p2_vel v := modify (λ s, set_objs (player1 s) (steer (vel_x (player2 s)) v (player2 s)) (ball s) s) in
  p1_vel 0 ;;
  p2_vel 0 ;;
  k ← is_key_pressed KEY_W; when k (p1_vel (- PLAYER_SPEED)) ;;
  k ← is_key_pressed KEY_S; when k (p1_vel PLAYER_SPEED) ;;
  k ← is_key_pressed KEY_ARROW_UP; when k (p2_vel (- PLAYER_SPEED)) ;;
  k ← is_key_pressed KEY_ARROW_DOWN; when k (p2_vel PLAYER_SPEED).

(* src/kernel/games/pong.c 98-101 rects_overlap *)
Definition rects_overlap (a b : obj) : bool :=
  (o_x a <? o_x b + o_width b) && (o_x b <? o_x a + o_width a) &&
  (o_y a <? o_y b + o_height b) && (o_y b <? o_y a + o_height a).

(** [if (now - last_event >= EVENT_DEBOUNCE_TICKS) { last_event = now; ... }] *)
Definition debounced (body : M pong unit) : M pong unit :=
  now ← timer_ticks;
  s ← get;
  when (EVENT_DEBOUNCE_TICKS <=? u32 (now - last_event s)) (modify (set_event now) ;; body).

(* src/kernel/games/pong.c 103-119 pong_on_player_hit *)
Definition pong_on_player_hit (paddle : pong → obj) : M pong unit :=
  debounced (
    modify (λ s,
      let b := ball s in
      let vx := if o_x (paddle s) <? screen_width s ÷ 2 then abs (vel_x b) else - abs (vel_x b) in
      set_ball (steer vx (vel_y b + vel_y (paddle s) ÷ 2) b) s) ;;
    ac97_play PaddleSound).

(* src/kernel/games/pong.c 121-135 pong_on_wall_hit *)
Definition pong_on_wall_hit : M pong unit :=
  debounced (
    modify (λ s,
      let b := ball s in
      if o_y b <=? 0 then set_ball (steer (vel_x b) (abs (vel_y b)) b) s
      else if screen_height s <=? o_y b + o_height b then set_ball (steer (vel_x b) (- abs (vel_y b)) b) s
      else s) ;;
    ac97_play WallSound).

(* src/kernel/games/pong.c 217-230 reset *)
Definition reset : M pong unit :=
  modify (λ s, set_ball (move (screen_width s ÷ 2 - o_width (ball s) ÷ 2)
    (screen_height s ÷ 2 - o_height (ball s) ÷ 2) (ball s)) s) ;;
  last ← gets last_player_scored;
  vx ← (if last =? 1 then r ← rand_range 1 BALL_MAX_SPEED; mret (s32 r)
        else if last =? 2 then r ← rand_range 1 BALL_MAX_SPEED; mret (s32 (- r))
        else r ← rand_range (- BALL_MAX_SPEED) BALL_MAX_SPEED; mret (s32 r));
  modify (λ s, set_ball (steer vx (vel_y (ball s)) (ball s)) s) ;;
  vy ← rand_range (- BALL_MAX_SPEED) BALL_MAX_SPEED;
  modify (λ s, set_ball (steer (vel_x (ball s)) (s32 vy) (ball s)) s).

(* src/kernel/games/pong.c 137-153 pong_on_score *)
Definition pong_on_score (player : Z) : M pong unit :=
  debounced (
    ac97_play ScoreSound ;;
    when (player =? 1) (modify (λ s, set_scores (last_player_scored s) (score_player1 s + 1) (score_player2 s) s)) ;;
    when (player =? 2) (modify (λ s, set_scores (last_player_scored s) (score_player1 s) (score_player2 s + 1) s)) ;;
    reset).

(* src/kernel/games/pong.c 155-180 pong_update *)
Definition pong_update (delta : Z) : M pong unit :=
  modify (λ s,
    let p1 := player1 s in let p2 := player2 s in let b := ball s in
    set_objs (move (o_x p1) (o_y p1 + (vel_y p1 * delta) ÷ 1000) p1)
      (move (o_x p2) (o_y p2 + (vel_y p2 * delta) ÷ 1000) p2)
      (move (o_x b + (vel_x b * delta) ÷ 1000) (o_y b + (vel_y b * delta) ÷ 1000) b) s) ;;
  s ← get;
  when ((o_y (ball s) <=? 0) || (screen_height s <=? o_y (ball s) + o_height (ball s))) pong_on_wall_hit ;;
  s ← get;
  when (rects_overlap (ball s) (player1 s)) (pong_on_player_hit player1) ;;
  s ← get;
  when (rects_overlap (ball s) (player2 s)) (pong_on_player_hit player2) ;;
  s ← get;
  when (o_x (ball s) + o_width (ball s) <=? 0) (pong_on_score 1) ;;
  s ← get;
  when (screen_width s <=? o_x (ball s) - o_width (ball s)) (pong_on_score 2).

(* src/kernel/games/pong.c 182-184 pong_start_round *)
Definition pong_start_round : M pong unit := reset.

(** The digits, five columns by seven rows. *)
(* src/kernel/games/pong.h 34-126 display *)
Definition display : list (list (list Z)) :=
  [ [[0; 1; 1; 1; 0]; [1; 0; 0; 0; 1]; [1; 0; 0; 1; 1]; [1; 0; 1; 0; 1]; [1; 1; 0; 0; 1]; [1; 0; 0; 0; 1]; [0; 1; 1; 1; 0]];
    [[0; 0; 1; 0; 0]; [0; 1; 1; 0; 0]; [0; 0; 1; 0; 0]; [0; 0; 1; 0; 0]; [0; 0; 1; 0; 0]; [0; 0; 1; 0; 0]; [0; 1; 1; 1; 0]];
    [[0; 1; 1; 1; 0]; [1; 0; 0; 0; 1]; [0; 0; 0; 0; 1]; [0; 0; 0; 1; 0]; [0; 0; 1; 0; 0]; [0; 1; 0; 0; 0]; [1; 1; 1; 1; 1]];
    [[0; 1; 1; 1; 0]; [1; 0; 0; 0; 1]; [0; 0; 0; 0; 1]; [0; 0; 1; 1; 0]; [0; 0; 0; 0; 1]; [1; 0; 0; 0; 1]; [0; 1; 1; 1; 0]];
    [[0; 0; 0; 1; 0]; [0; 0; 1; 1; 0]; [0; 1; 0; 1; 0]; [1; 0; 0; 1; 0]; [1; 1; 1; 1; 1]; [0; 0; 0; 1; 0]; [0; 0; 0; 1; 0]];
    [[1; 1; 1; 1; 1]; [1; 0; 0; 0; 0]; [1; 1; 1; 1; 0]; [0; 0; 0; 0; 1]; [0; 0; 0; 0; 1]; [1; 0; 0; 0; 1]; [0; 1; 1; 1; 0]];
    [[0; 1; 1; 1; 0]; [1; 0; 0; 0; 0]; [1; 0; 0; 0; 0]; [1; 1; 1; 1; 0]; [1; 0; 0; 0; 1]; [1; 0; 0; 0; 1]; [0; 1; 1; 1; 0]];
    [[1; 1; 1; 1; 1]; [0; 0; 0; 0; 1]; [0; 0; 0; 1; 0]; [0; 0; 1; 0; 0]; [0; 1; 0; 0; 0]; [0; 1; 0; 0; 0]; [0; 1; 0; 0; 0]];
    [[0; 1; 1; 1; 0]; [1; 0; 0; 0; 1]; [1; 0; 0; 0; 1]; [0; 1; 1; 1; 0]; [1; 0; 0; 0; 1]; [1; 0; 0; 0; 1]; [0; 1; 1; 1; 0]];
    [[0; 1; 1; 1; 0]; [1; 0; 0; 0; 1]; [1; 0; 0; 0; 1]; [0; 1; 1; 1; 1]; [0; 0; 0; 0; 1]; [0; 0; 0; 0; 1]; [0; 1; 1; 1; 0]] ].

(** [display[digit][row][col]]; outside the table the load faults. *)
Definition dot_at (digit row col : Z) : option Z :=
  if (digit <? 0) || (row <? 0) || (col <? 0) then None else
  d ← display !! Z.to_nat digit; r ← d !! Z.to_nat row; r !! Z.to_nat col.

Definition white : Z := rgb 0xff 0xff 0xff.

(* src/kernel/games/pong.c 233-247 draw_score *)
Definition draw_score (score x y : Z) : M gfx unit :=
  let digit := Z.rem score 10 in
  for_up 7 0 (λ row, for_up 5 0 (λ col,
    match dot_at digit row col with
    | None => fault digit
    | Some d =>
        when (nz d) (gfx_fill_rect (x + col * FONT_SCALE) (y + row * FONT_SCALE)
          (x + (col + 1) * FONT_SCALE) (y + (row + 1) * FONT_SCALE) white)
    end)).

(** The dashes of the net from [i] down. *)
(* src/kernel/games/pong.c 263-267 pong_draw *)
Fixpoint draw_net (fuel : nat) (w h i : Z) : M gfx unit :=
  if i <? h then
    match fuel with
    | O => out_of_fuel
    | S fuel =>
        gfx_fill_rect (w ÷ 2 - NET_WIDTH ÷ 2) i (w ÷ 2 + NET_WIDTH ÷ 2) (i + NET_HEIGHT h) white ;;
        draw_net fuel w h (i + 2 * NET_HEIGHT h)
    end
  else mret tt.

(* src/kernel/games/pong.c 249-268 pong_draw *)
Definition pong_draw (fuel : nat) : M pong unit :=
  s ← get;
  let rect o := gfx_fill_rect (o_x o) (o_y o) (o_x o + o_width o) (o_y o + o_height o) white in
  on_gfx (
    gfx_clear_screen ;;
    rect (player1 s) ;;
    rect (player2 s) ;;
    rect (ball s) ;;
    draw_score (score_player1 s) (screen_width s ÷ 4 - (5 * FONT_SCALE) ÷ 2) 20 ;;
    draw_score (score_player2 s) ((3 * screen_width s) ÷ 4 - (5 * FONT_SCALE) ÷ 2) 20 ;;
    draw_net fuel (screen_width s) (screen_height s) 0).

(** [while (timer_ticks() - frame_start < PONG_FRAME_MS) hlt] *)
Fixpoint wait_frame (fuel : nat) (frame_start : Z) : M pong unit :=
  now ← timer_ticks;
  if u32 (now - frame_start) <? PONG_FRAME_MS then
    match fuel with O => out_of_fuel | S fuel => wait_frame fuel frame_start end
  else mret tt.

Definition pong_frame (fuel : nat) (last : Z) : M pong Z :=
  frame_start ← timer_ticks;
  let delta := s32 (u32 (frame_start - last)) in
  pong_handle_input ;;
  pong_update delta ;;
  pong_draw fuel ;;
  on_gfx gfx_render ;;
  wait_frame fuel frame_start ;;
  mret frame_start.

(** The frames, at most [fuel] of them. *)
Fixpoint pong_loop (fuel fuel' : nat) (last : Z) : M pong unit :=
  s ← get;
  if (score_player1 s <? PONG_WIN_SCORE) && (score_player2 s <? PONG_WIN_SCORE) then
    match fuel with
    | O => out_of_fuel
    | S fuel => last ← pong_frame fuel' last; pong_loop fuel fuel' last
    end
  else mret tt.

(* src/kernel/games/pong.c 186-215 pong_start *)
Definition pong_start (fuel fuel' : nat) : M pong unit :=
  modify (set_scores 0 0 0) ;;
  pong_start_round ;;
  prev_target ← on_gfx gfx_get_target;
  on_gfx (gfx_set_target GFX_TARGET_BACKBUFFER) ;;
  last ← timer_ticks;
  pong_loop fuel fuel' last ;;
  on_gfx (gfx_set_target prev_target).
End pong.

(** * The theorems about Pong

    The picture of a frame, the rules of a round, and that a match has one winner. *)

(** ** Painting *)

Definition in_rect (x0 y0 x1 y1 x y : Z) : bool := (x0 <=? x) && (x <=? x1) && (y0 <=? y) && (y <=? y1).

Section paint.
(** The size of the screen. *)
Context (w h : Z).

Definition sized (g : gfx) : Prop := screen_ok g ∧ g_width g = w ∧ g_height g = h.

(** [m] turns exactly the pixels of [f] white. *)
Definition paints (m : M gfx unit) (f : Z → Z → bool) : Prop :=
  ∀ g, sized g → wp m (λ _ g', redrawn g g' (λ x y, if f x y then Some white else pixel g x y)) g.

Lemma sized_redrawn g g' f : sized g → redrawn g g' f → sized g'.
Proof. intros (Hs & Hw & Hh) (Hs' & (_ & Ew & Eh & _)%dims_eq & _). split; [done|]. split; congruence. Qed.

Lemma redrawn_trans g g1 g2 f f' :
  sized g → redrawn g g1 f → redrawn g1 g2 f' → redrawn g g2 f'.
Proof.
  intros Hg (S1 & D1 & P1) (S2 & D2 & P2). pose proof (dims_eq _ _ D1) as (_ & Ew & Eh & _). split; [done|].
  split; [congruence|]. intros x y Hx Hy. apply P2; [by rewrite Ew|by rewrite Eh].
Qed.

Lemma paints_ext m f f' : paints m f → (∀ x y, 0 ≤ x < w → 0 ≤ y < h → f x y = f' x y) → paints m f'.
Proof.
  intros Hm E g Hg. eapply wp_mono; [by apply Hm|]. cbv beta. intros _ g' Hr. destruct Hg as (_ & <- & <-).
  eapply redrawn_ext; [exact Hr|]. intros x y Hx Hy. cbv beta. by rewrite E.
Qed.

Lemma paints_ret : paints (mret tt) (λ _ _, false).
Proof. intros g (Hg & _). apply wp_ret. by apply redrawn_refl. Qed.

Lemma paints_rect x0 y0 x1 y1 : paints (gfx_fill_rect x0 y0 x1 y1 white) (in_rect x0 y0 x1 y1).
Proof. intros g (Hg & _). by apply fill_rect_correct. Qed.

Lemma paints_bind m k f f' : paints m f → paints k f' → paints (m ;; k) (λ x y, f x y || f' x y).
Proof.
  intros Hm Hk g Hg. eapply wp_bind_mono; [by apply Hm|]. cbv beta. intros _ g1 R1.
  eapply wp_mono; [by apply Hk; eapply sized_redrawn|]. cbv beta. intros _ g2 R2.
  pose proof (redrawn_trans _ _ _ _ _ Hg R1 R2) as R3. eapply redrawn_ext; [exact R3|]. intros x y Hx Hy. cbv beta.
  destruct R1 as (_ & _ & P1). rewrite (P1 x y Hx Hy). by destruct (f x y), (f' x y).
Qed.

Lemma paints_for n : ∀ i body f,
  (∀ j, i ≤ j < i + Z.of_nat n → paints (body j) (f j)) →
  paints (for_up n i body) (λ x y, existsb (λ j, f j x y) (seqZ i (Z.of_nat n))).
Proof.
  induction n as [|n IH]; intros i body f Hb; cbn [for_up]; [apply paints_ret|].
  eapply paints_ext; [apply paints_bind; [apply Hb; lia|apply (IH (i + 1) body f); intros j Hj; apply Hb; lia]|].
  intros x y _ _. rewrite (seqZ_cons i) by lia. cbn [existsb].
  by replace (Z.succ i) with (i + 1) by lia; replace (Z.pred (Z.of_nat (S n))) with (Z.of_nat n) by lia.
Qed.

(** The digit of a score, with its top left corner at [X], [Y]. *)
Definition digit_lit (score X Y x y : Z) : bool :=
  existsb (λ row, existsb (λ col,
    match dot_at (Z.rem score 10) row col with
    | Some d => nz d && in_rect (X + col * FONT_SCALE) (Y + row * FONT_SCALE)
        (X + (col + 1) * FONT_SCALE) (Y + (row + 1) * FONT_SCALE) x y
    | None => false
    end) (seqZ 0 5)) (seqZ 0 7).

Lemma dot_at_ok digit row col : 0 ≤ digit < 10 → 0 ≤ row < 7 → 0 ≤ col < 5 → is_Some (dot_at digit row col).
Proof.
  intros Hd Hr Hc.
  assert (∀ d r c, d ∈ seq 0 10 → r ∈ seq 0 7 → c ∈ seq 0 5 →
    bool_decide (is_Some (dot_at (Z.of_nat d) (Z.of_nat r) (Z.of_nat c))) = true) as H.
  { assert (forallb (λ d, forallb (λ r, forallb (λ c,
      bool_decide (is_Some (dot_at (Z.of_nat d) (Z.of_nat r) (Z.of_nat c)))) (seq 0 5)) (seq 0 7)) (seq 0 10) = true) as E
      by by vm_compute.
    intros d r c Hd' Hr' Hc'. rewrite forallb_forall in E. specialize (E d (proj1 (list_elem_of_In _ _) Hd')).
    rewrite forallb_forall in E. specialize (E r (proj1 (list_elem_of_In _ _) Hr')).
    rewrite forallb_forall in E. exact (E c (proj1 (list_elem_of_In _ _) Hc')). }
  specialize (H (Z.to_nat digit) (Z.to_nat row) (Z.to_nat col)). rewrite !Z2Nat.id in H by lia.
  eapply bool_decide_eq_true_1, H; apply elem_of_seq; lia.
Qed.

Lemma paints_when (b : bool) m f : paints m f → paints (when b m) (λ x y, b && f x y).
Proof. intros Hm. destruct b; [done|apply paints_ret]. Qed.

Lemma paints_score score X Y : 0 ≤ score → paints (draw_score score X Y) (digit_lit score X Y).
Proof.
  intros Hs. unfold draw_score, digit_lit. pose proof (Z.rem_bound_pos score 10 Hs ltac:(lia)) as Hd.
  apply (paints_for 7 0). intros row Hr. apply (paints_for 5 0). intros col Hc.
  destruct (dot_at_ok (Z.rem score 10) row col) as [d ->]; [lia..|]. apply paints_when, paints_rect.
Qed.

(** The net: dashes of the height [NET_HEIGHT], as far apart. *)
Definition net_lit (i x y : Z) : bool :=
  (w ÷ 2 - NET_WIDTH ÷ 2 <=? x) && (x <=? w ÷ 2 + NET_WIDTH ÷ 2) && (i <=? y) &&
  ((y - i) mod (2 * NET_HEIGHT h) <=? NET_HEIGHT h).

Lemma paints_net fuel : ∀ i,
  0 < NET_HEIGHT h → h ≤ i + 2 * NET_HEIGHT h * Z.of_nat fuel → paints (draw_net fuel w h i) (net_lit i).
Proof.
  induction fuel as [|fuel IH]; intros i HN Hf; cbn [draw_net]; destruct (Z.ltb_spec i h) as [Hi|Hi]; [lia| | |].
  1, 3: eapply paints_ext; [apply paints_ret|]; intros x y _ Hy; unfold net_lit; bcase; try done; lia.
  eapply paints_ext; [apply paints_bind; [apply paints_rect|apply IH; lia]|].
  intros x y _ _. unfold net_lit, in_rect. set (N := NET_HEIGHT h) in *.
  destruct ((w ÷ 2 - NET_WIDTH ÷ 2 <=? x) && (x <=? w ÷ 2 + NET_WIDTH ÷ 2)); [|done]. rewrite !andb_true_l.
  destruct (Z.leb_spec i y) as [Hy|Hy]; [|bcase; try done; lia]. rewrite andb_true_l.
  destruct (Z.leb_spec (i + 2 * N) y) as [Hy'|Hy'].
  - replace ((y - i) mod (2 * N)) with ((y - (i + 2 * N)) mod (2 * N)).
    2: { replace (y - i) with (y - (i + 2 * N) + 1 * (2 * N)) by lia. by rewrite Z_mod_plus_full. }
    destruct (Z.leb_spec y (i + N)); [lia|done].
  - rewrite (Z.mod_small (y - i)) by lia. rewrite andb_false_l, orb_false_r. bcase; try done; lia.
Qed.
End paint.

(** ** A frame *)

Lemma clear_screen_ok g : screen_ok g → wp gfx_clear_screen (λ _ g', redrawn g g' (λ _ _, Some 0)) g.
Proof.
  intros Hg. unfold gfx_clear_screen. apply wp_bind. eapply wp_intro; [reflexivity|]. rewrite (so_bytes g Hg).
  set (n := g_pitch g / 4 * g_height g). assert (0 ≤ n) as Hn by (destruct (so_width g Hg); pose proof (so_height g Hg); nia).
  eapply wp_mono; [apply (wp_for_up_to n _ (λ j g', screen_ok g' ∧ dims g' = dims g ∧
    ∀ k, 0 ≤ k < j → draw_buffer g' !! k = Some 0)); [done|split; [done|split; [done|lia]]|]|].
  - intros j g1 Hj (S1 & D1 & P1). pose proof (dims_eq _ _ D1) as (Ep & _ & Eh & _).
    eapply wp_mono; [apply st_draw_ok; [done|by rewrite Ep, Eh]|]. cbv beta. intros _ g2 (S2 & D2 & ->).
    split; [done|]. split; [congruence|]. intros k Hk. rewrite draw_buffer_set.
    destruct (decide (k = j)) as [->|]; [by rewrite lookup_insert_eq|]. rewrite lookup_insert_ne by done. apply P1. lia.
  - cbv beta. intros _ g1 (S1 & D1 & P1). split; [done|]. split; [done|]. intros x y Hx Hy. unfold pixel.
    pose proof (dims_eq _ _ D1) as (-> & _). apply P1. by apply pixel_index.
Qed.

Lemma render_ok g :
  screen_ok g → g_target g = GFX_TARGET_BACKBUFFER →
  wp gfx_render (λ _ g', screen_ok g' ∧ dims g' = dims g ∧
    ∀ k, 0 ≤ k < g_pitch g / 4 * g_height g → g_fb g' !! k = g_back g !! k) g.
Proof.
  intros Hg Ht. unfold gfx_render. apply wp_bind. eapply wp_intro; [reflexivity|]. rewrite Ht, (so_bytes g Hg).
  set (n := g_pitch g / 4 * g_height g). assert (0 ≤ n) as Hn by (destruct (so_width g Hg); pose proof (so_height g Hg); nia).
  eapply wp_mono; [apply (wp_for_up_to n _ (λ j g', screen_ok g' ∧ dims g' = dims g ∧ g_back g' = g_back g ∧
    ∀ k, 0 ≤ k < j → g_fb g' !! k = g_back g !! k)); [done|by split_and!; [..|lia]|]|].
  - intros j g1 Hj (S1 & D1 & B1 & P1). pose proof (dims_eq _ _ D1) as (Ep & _ & Eh & _).
    destruct (proj2 (so_back g Hg j) Hj) as [v Ev].
    apply wp_bind. eapply wp_intro; [unfold ld_back; by rewrite B1, Ev|].
    eapply wp_mono; [apply st_fb_ok; [done|by rewrite Ep, Eh]|]. cbv beta. intros _ g2 (S2 & D2 & ->).
    split; [done|]. split; [congruence|]. split; [done|]. intros k Hk. cbn [set_fb g_fb].
    destruct (decide (k = j)) as [->|]; [by rewrite lookup_insert_eq|]. rewrite lookup_insert_ne by done. apply P1. lia.
  - cbv beta. intros _ g1 (S1 & D1 & _ & P1). by split.
Qed.

Lemma wp_on_gfx {A} (m : M gfx A) (Q : A → pong → Prop) s :
  wp m (λ a g, Q a (set_dev (p_rng s) g s)) (p_gfx s) → wp (on_gfx m) Q s.
Proof. unfold wp, on_gfx, lift. by destruct (m (p_gfx s)) as [[a g]| | | |]. Qed.

Definition covers (o : obj) : Z → Z → bool := in_rect (o_x o) (o_y o) (o_x o + o_width o) (o_y o + o_height o).

(** The white pixels of a frame. *)
Definition picture (s : pong) (x y : Z) : bool :=
  covers (player1 s) x y || covers (player2 s) x y || covers (ball s) x y
  || digit_lit (score_player1 s) (screen_width s ÷ 4 - 10) 20 x y
  || digit_lit (score_player2 s) (3 * screen_width s ÷ 4 - 10) 20 x y
  || net_lit (screen_width s) (screen_height s) 0 x y.

(** The screen the game has been started on. *)
Record on_screen (s : pong) : Prop := {
  os_sized : sized (screen_width s) (screen_height s) (p_gfx s);
  os_height : 20 ≤ screen_height s;
  os_target : g_target (p_gfx s) = GFX_TARGET_BACKBUFFER;
}.

Lemma net_dashes h : 20 ≤ h → 0 < NET_HEIGHT h ∧ h ≤ 2 * NET_HEIGHT h * 20.
Proof.
  intros Hh. unfold NET_HEIGHT. rewrite Z.quot_div_nonneg by lia.
  pose proof (Z.div_mod h 20 ltac:(lia)). pose proof (Z.mod_pos_bound h 20 ltac:(lia)).
  assert (1 ≤ h / 20) by (apply Z.div_le_lower_bound; lia). lia.
Qed.

Lemma draw_ok fuel s :
  on_screen s → 0 ≤ score_player1 s → 0 ≤ score_player2 s → (20 ≤ fuel)%nat →
  wp (pong_draw fuel) (λ _ s', ∃ g', s' = set_dev (p_rng s) g' s ∧
    redrawn (p_gfx s) g' (λ x y, Some (if picture s x y then white else 0))) s.
Proof.
  intros [Hg Hh _] H1 H2 Hf. destruct (net_dashes _ Hh) as [HN HN']. unfold pong_draw.
  apply wp_bind. eapply wp_intro; [reflexivity|]. apply wp_on_gfx.
  eapply wp_bind_mono; [apply clear_screen_ok, Hg|]. cbv beta. intros _ g1 R1.
  pose proof (sized_redrawn _ _ _ _ _ Hg R1) as Hg1.
  eapply wp_mono.
  { refine (paints_bind _ _ _ _ _ _ (paints_rect _ _ _ _ _ _) (paints_bind _ _ _ _ _ _ (paints_rect _ _ _ _ _ _)
      (paints_bind _ _ _ _ _ _ (paints_rect _ _ _ _ _ _) (paints_bind _ _ _ _ _ _ (paints_score _ _ _ _ _ H1)
      (paints_bind _ _ _ _ _ _ (paints_score _ _ _ _ _ H2) (paints_net _ _ fuel 0 HN _))))) g1 Hg1). nia. }
  cbv beta. intros _ g2 R2. exists g2. split; [done|]. pose proof (redrawn_trans _ _ _ _ _ _ _ Hg R1 R2) as R3.
  eapply redrawn_ext; [exact R3|]. intros x y Hx Hy. cbv beta. destruct R1 as (_ & _ & P1). rewrite (P1 x y Hx Hy).
  unfold picture. rewrite !orb_assoc. change (5 * FONT_SCALE ÷ 2) with 10. by destruct (_ || _).
Qed.

Lemma on_screen_dev s g : on_screen s → screen_ok g → dims g = dims (p_gfx s) → on_screen (set_dev (p_rng s) g s).
Proof.
  intros [(_ & Hw & Hh) H20 Ht] Hg (_ & Ew & Eh & _ & Et)%dims_eq. split; cbn; [|done|congruence].
  split; [done|]. split; congruence.
Qed.

Lemma show_ok s :
  on_screen s →
  wp (on_gfx gfx_render) (λ _ s', ∃ g', s' = set_dev (p_rng s) g' s ∧ on_screen s' ∧ dims g' = dims (p_gfx s) ∧
    ∀ x y, 0 ≤ x < screen_width s → 0 ≤ y < screen_height s →
      g_fb g' !! (y * (g_pitch (p_gfx s) / 4) + x) = pixel (p_gfx s) x y) s.
Proof.
  intros Hs. pose proof (os_sized _ Hs) as (Hg & Hw & Hh). apply wp_on_gfx.
  eapply wp_mono; [apply render_ok; [done|apply Hs]|]. cbv beta. intros _ g' (Sg & D & P). exists g'. split; [done|].
  split; [by apply on_screen_dev|]. split; [done|]. intros x y Hx Hy. rewrite P.
  - unfold pixel, draw_buffer. by rewrite (os_target _ Hs).
  - apply pixel_index; [done|by rewrite Hw|by rewrite Hh].
Qed.

(** A frame shows the game: after [pong_draw] and [gfx_render] a pixel of the framebuffer is white exactly where a
    paddle, the ball, a digit of the score or a dash of the net covers it, and black everywhere else; whatever part
    of an object lies outside the screen is clipped, and nothing is written outside the buffers. *)
Theorem pong_frame_shown (fuel : nat) (s : pong) :
  on_screen s → 0 ≤ score_player1 s → 0 ≤ score_player2 s → (20 ≤ fuel)%nat →
  wp (pong_draw fuel ;; on_gfx gfx_render) (λ _ s', on_screen s' ∧
    ∀ x y, 0 ≤ x < screen_width s → 0 ≤ y < screen_height s →
      g_fb (p_gfx s') !! (y * (g_pitch (p_gfx s) / 4) + x) = Some (if picture s x y then white else 0)) s.
Proof.
  intros Hs H1 H2 Hf. eapply wp_bind_mono; [by apply draw_ok|]. cbv beta. intros _ s1 (g1 & -> & Sg & D & P).
  pose proof (on_screen_dev s g1 Hs Sg D) as Hs1. eapply wp_mono; [by apply show_ok|]. cbv beta.
  intros _ s2 (g2 & -> & Hs2 & _ & P2). split; [done|]. intros x y Hx Hy. destruct (os_sized _ Hs) as (_ & Hw & Hh).
  rewrite <- P by congruence. rewrite <- P2 by done. cbn. apply dims_eq in D as (-> & _). done.
Qed.

(** ** The rules *)

Definition serve (s : pong) : obj :=
  Obj (screen_width s ÷ 2 - o_width (ball s) ÷ 2) (screen_height s ÷ 2 - o_height (ball s) ÷ 2)
    (o_width (ball s)) (o_height (ball s)) (- BALL_MAX_SPEED) (- BALL_MAX_SPEED).

Section rules.
Context (ticks : nat → Z) (held : nat → key → bool) (rdrand : nat → option Z).

(** The range of the serve is empty as unsigned numbers, so every serve is the same. *)
Lemma reset_eq s : last_player_scored s = 0 → reset rdrand s = Ok (tt, set_ball (serve s) s).
Proof. intros E. destruct s; cbn in E; subst. reflexivity. Qed.

(** What a bounce may change. *)
Record bounced (s s' : pong) : Prop := {
  bo_paddles : player1 s' = player1 s ∧ player2 s' = player2 s;
  bo_ball : ∃ vx vy, ball s' = steer vx vy (ball s) ∧ Z.abs vx = Z.abs (vel_x (ball s));
  bo_scores : score_player1 s' = score_player1 s ∧ score_player2 s' = score_player2 s;
  bo_last : last_player_scored s' = last_player_scored s;
  bo_screen : screen_width s' = screen_width s ∧ screen_height s' = screen_height s ∧ p_gfx s' = p_gfx s;
}.

Lemma bounced_trans s s1 s2 : bounced s s1 → bounced s1 s2 → bounced s s2.
Proof.
  intros [[] (vx & vy & Eb & Ev) [] ? (?&?&?)] [[] (vx' & vy' & Eb' & Ev') [] ? (?&?&?)].
  split; try split_and?; try congruence. exists vx', vy'. rewrite Eb', Eb in *. split; [done|]. by rewrite Ev'.
Qed.

Lemma steer_same o : steer (vel_x o) (vel_y o) o = o.
Proof. by destruct o. Qed.

Lemma wp_debounced body (Q : unit → pong → Prop) s :
  Q tt (set_looks (S (p_looks s)) s) →
  (∀ now, wp body Q (set_event now (set_looks (S (p_looks s)) s))) →
  wp (debounced ticks body) Q s.
Proof.
  intros H1 H2. unfold debounced, timer_ticks, look. apply wp_bind, wp_bind. eapply wp_intro; [reflexivity|].
  apply wp_bind. eapply wp_intro; [reflexivity|]. apply wp_ret. apply wp_bind. eapply wp_intro; [reflexivity|].
  unfold when. destruct (_ <=? _); [|by apply wp_ret]. apply wp_bind. eapply wp_intro; [reflexivity|]. apply H2.
Qed.

Lemma bounced_looks n s : bounced s (set_looks n s).
Proof. split; try done. exists (vel_x (ball s)), (vel_y (ball s)). by rewrite steer_same. Qed.

Lemma abs_abs a : abs a = Z.abs a.
Proof. unfold abs. destruct (Z.ltb_spec a 0); lia. Qed.

Lemma player_hit_ok paddle s : wp (pong_on_player_hit ticks paddle) (λ _ s', bounced s s') s.
Proof.
  apply wp_debounced; [apply bounced_looks|]. intros now. apply wp_bind. eapply wp_intro; [reflexivity|].
  eapply wp_intro; [reflexivity|]. split; try done. eexists _, _. split; [reflexivity|].
  destruct (_ <? _); rewrite abs_abs; cbn; lia.
Qed.

Lemma wall_hit_ok s : wp (pong_on_wall_hit ticks) (λ _ s', bounced s s') s.
Proof.
  apply wp_debounced; [apply bounced_looks|]. intros now. apply wp_bind. eapply wp_intro; [reflexivity|].
  eapply wp_intro; [reflexivity|]. cbv beta zeta. destruct (_ <=? 0); [|destruct (_ <=? _)]; (split; try done).
  1, 2: eexists _, _; split; [reflexivity|]; rewrite ?abs_abs; done.
  exists (vel_x (ball s)), (vel_y (ball s)). by rewrite steer_same.
Qed.

(** A point for a player. *)
Record served (player : Z) (s s' : pong) : Prop := {
  sv_paddles : player1 s' = player1 s ∧ player2 s' = player2 s;
  sv_ball : ball s' = serve s;
  sv_scores : score_player1 s' = score_player1 s + b2z (player =? 1) ∧ score_player2 s' = score_player2 s + b2z (player =? 2);
  sv_last : last_player_scored s' = last_player_scored s;
  sv_screen : screen_width s' = screen_width s ∧ screen_height s' = screen_height s ∧ p_gfx s' = p_gfx s;
}.

Lemma score_ok player s :
  last_player_scored s = 0 → player = 1 ∨ player = 2 →
  wp (pong_on_score ticks rdrand player) (λ _ s', bounced s s' ∨ served player s s') s.
Proof.
  intros Hl Hp. apply wp_debounced; [left; apply bounced_looks|]. intros now.
  apply wp_bind. eapply wp_intro; [reflexivity|].
  destruct Hp as [-> | ->]; cbn [Z.eqb Pos.eqb when].
  - apply wp_bind. eapply wp_intro; [reflexivity|]. apply wp_bind, wp_ret. eapply wp_intro; [by apply reset_eq|].
    right. split; try done; cbn; lia.
  - apply wp_bind, wp_ret. apply wp_bind. eapply wp_intro; [reflexivity|]. eapply wp_intro; [by apply reset_eq|].
    right. split; try done; cbn; lia.
Qed.

(** The state between two events of a match. *)
Record rules (s : pong) : Prop := {
  ru_last : last_player_scored s = 0;
  ru_ball : o_width (ball s) = BALL_RADIUS ∧ o_height (ball s) = BALL_RADIUS ∧ Z.abs (vel_x (ball s)) = BALL_MAX_SPEED;
  ru_p1 : o_x (player1 s) = 0 ∧ o_width (player1 s) = PADDLE_WIDTH ∧ o_height (player1 s) = PADDLE_HEIGHT;
  ru_p2 : o_x (player2 s) = screen_width s - PADDLE_WIDTH ∧ o_width (player2 s) = PADDLE_WIDTH ∧
    o_height (player2 s) = PADDLE_HEIGHT;
  ru_width : 0 < screen_width s;
}.

Lemma bounced_rules s s' : bounced s s' → rules s → rules s'.
Proof.
  intros [[E1 E2] (vx & vy & Eb & Ev) _ El (Ew & _)] [R1 R2 R3 R4 R5].
  split; rewrite ?E1, ?E2, ?Eb, ?Ew; try done; [congruence|]. cbn. by rewrite Ev.
Qed.

Lemma served_rules p s s' : served p s s' → rules s → rules s'.
Proof.
  intros [[E1 E2] Eb _ El (Ew & _)] [R1 R2 R3 R4 R5].
  split; rewrite ?E1, ?E2, ?Eb, ?Ew; try done; [congruence|]. cbn. by destruct R2 as (-> & -> & _).
Qed.

(** What an update leads to from the positions after the move: no point, or one for the player whose side the
    ball has left. *)
Inductive updated (s s' : pong) : Prop :=
  | no_point : bounced s s' → updated s s'
  | point1 t : o_x (ball s) + BALL_RADIUS ≤ 0 → bounced s t → served 1 t s' → updated s s'
  | point2 t : screen_width s ≤ o_x (ball s) - BALL_RADIUS → bounced s t → served 2 t s' → updated s s'.

Definition moved (delta : Z) (s : pong) : pong :=
  set_objs (move (o_x (player1 s)) (o_y (player1 s) + (vel_y (player1 s) * delta) ÷ 1000) (player1 s))
    (move (o_x (player2 s)) (o_y (player2 s) + (vel_y (player2 s) * delta) ÷ 1000) (player2 s))
    (move (o_x (ball s) + (vel_x (ball s) * delta) ÷ 1000) (o_y (ball s) + (vel_y (ball s) * delta) ÷ 1000) (ball s)) s.

Lemma bounced_refl s : bounced s s.
Proof. split; try done. exists (vel_x (ball s)), (vel_y (ball s)). by rewrite steer_same. Qed.

(** A check and the event behind it. *)
Lemma event_then (b : pong → bool) m k (Q : unit → pong → Prop) s t :
  bounced s t → (∀ t, wp m (λ _ t', bounced t t') t) →
  (∀ t', bounced s t' → wp k Q t') → wp (t ← get; when (b t) m ;; k) Q t.
Proof.
  intros Hst Hm Hk. apply wp_bind. eapply wp_intro; [reflexivity|]. unfold when. destruct (b t).
  - eapply wp_bind_mono; [apply Hm|]. cbv beta. intros _ t' Ht. apply Hk. by eapply bounced_trans.
  - apply wp_bind, wp_ret. by apply Hk.
Qed.

Lemma update_ok delta s :
  rules s → wp (pong_update ticks rdrand delta) (λ _ s', rules s' ∧ updated (moved delta s) s') s.
Proof.
  intros Hr. unfold pong_update. apply wp_bind. eapply wp_intro; [reflexivity|]. fold (moved delta s).
  assert (rules (moved delta s)) as Hm by (destruct Hr as [R1 R2 R3 R4 R5]; split; done).
  eapply (event_then _ _ _ _ (moved delta s)); [apply bounced_refl|apply wall_hit_ok|]. intros t1 B1.
  eapply event_then; [exact B1|apply player_hit_ok|]. intros t2 B2.
  eapply event_then; [exact B2|apply player_hit_ok|]. intros t3 B3.
  pose proof (bounced_rules _ _ B3 Hm) as R3. pose proof B3 as [_ (vx & vy & Eb & _) _ _ (Ew & _)].
  apply wp_bind. eapply wp_intro; [reflexivity|].
  assert (o_x (ball t3) = o_x (ball (moved delta s)) ∧ o_width (ball t3) = BALL_RADIUS) as [Ex Eo] by (rewrite Eb; split; [done|apply Hm]).
  unfold when at 1. destruct (Z.leb_spec (o_x (ball t3) + o_width (ball t3)) 0) as [H1|H1].
  - eapply wp_bind_mono; [apply score_ok; [apply R3|by left]|]. cbv beta. intros _ t4 H4.
    apply wp_bind. eapply wp_intro; [reflexivity|].
    assert (o_x (ball t4) - o_width (ball t4) < screen_width t4) as Hin.
    { pose proof (ru_width _ R3). destruct H4 as [[_ (? & ? & -> & _) _ _ (-> & _)]|[_ -> _ _ (-> & _)]]; cbn.
      - lia.
      - rewrite Eo. change (10 ÷ 2) with 5. rewrite Z.quot_div_nonneg by lia. pose proof (Z.div_le_upper_bound (screen_width t3) 2 (screen_width t3)).
        lia. }
    rewrite (proj2 (Z.leb_gt _ _) Hin). apply wp_ret. destruct H4 as [B4|V4].
    + split; [by eapply bounced_rules|]. apply no_point. by eapply bounced_trans.
    + split; [by eapply served_rules|]. apply (point1 _ _ t3); [lia|done|done].
  - apply wp_bind, wp_ret. apply wp_bind. eapply wp_intro; [reflexivity|].
    unfold when. destruct (Z.leb_spec (screen_width t3) (o_x (ball t3) - o_width (ball t3))) as [H2|H2].
    + eapply wp_mono; [apply score_ok; [apply R3|by right]|]. cbv beta. intros _ t4 [B4|V4].
      * split; [by eapply bounced_rules|]. apply no_point. by eapply bounced_trans.
      * split; [by eapply served_rules|]. apply (point2 _ _ t3); [lia|done|done].
    + apply wp_ret. split; [done|]. by apply no_point.
Qed.

(** The ball comes back from a paddle: away from the paddle's side at the same speed, pushed by half of the paddle's
    own movement, when the last event is long enough ago. *)
Theorem paddle_returns (left : bool) s :
  let paddle := if left then player1 else player2 in
  rules s → 20 < screen_width s → EVENT_DEBOUNCE_TICKS ≤ u32 (u32 (ticks (p_looks s)) - last_event s) →
  wp (pong_on_player_hit ticks paddle) (λ _ s',
    ball s' = steer (if left then BALL_MAX_SPEED else - BALL_MAX_SPEED) (vel_y (ball s) + vel_y (paddle s) ÷ 2) (ball s) ∧
    p_played s' = p_played s ++ [PaddleSound] ∧ last_event s' = u32 (ticks (p_looks s))) s.
Proof.
  intros paddle Hr Hw Ht. unfold pong_on_player_hit, debounced, timer_ticks, look.
  apply wp_bind, wp_bind. eapply wp_intro; [reflexivity|]. apply wp_bind. eapply wp_intro; [reflexivity|]. apply wp_ret.
  apply wp_bind. eapply wp_intro; [reflexivity|]. unfold when. cbn [set_looks last_event]. rewrite (proj2 (Z.leb_le _ _) Ht).
  apply wp_bind. eapply wp_intro; [reflexivity|]. apply wp_bind. eapply wp_intro; [reflexivity|].
  eapply wp_intro; [reflexivity|]. cbv zeta. split; [|done]. destruct Hr as [_ (_ & _ & Hv) (Hp1 & _) (Hp2 & _) _].
  assert (20 ≤ 2 * (screen_width s ÷ 2)) as Hq.
  { rewrite Z.quot_div_nonneg by lia. pose proof (Z.div_mod (screen_width s) 2 ltac:(lia)).
    pose proof (Z.mod_pos_bound (screen_width s) 2 ltac:(lia)). lia. }
  assert (2 * (screen_width s ÷ 2) ≤ screen_width s) as Hq'.
  { rewrite Z.quot_div_nonneg by lia. apply Z.mul_div_le. lia. }
  destruct left; cbn; rewrite abs_abs, Hv.
  - rewrite Hp1. by rewrite (proj2 (Z.ltb_lt _ _)) by lia.
  - rewrite Hp2. by rewrite (proj2 (Z.ltb_ge _ _)) by lia.
Qed.

(** ** A match *)

(** [m] ends in [Q] or is still running when the fuel is used up; it does nothing wrong. *)
Definition runs {A} (m : M pong A) (Q : A → pong → Prop) (s : pong) : Prop :=
  match m s with Ok (a, s') => Q a s' | OutOfFuel => True | _ => False end.

Lemma runs_wp {A} (m : M pong A) Q s : wp m Q s → runs m Q s.
Proof. unfold wp, runs. by destruct (m s) as [[a t]| | | |]. Qed.

Lemma runs_bind {A B} (m : M pong A) (f : A → M pong B) P Q s :
  runs m P s → (∀ a t, P a t → runs (f a) Q t) → runs (m ≫= f) Q s.
Proof.
  unfold runs. cbn. unfold mbind, M_bind. destruct (m s) as [[a t]| | | |]; try done. intros H1 H2. by apply H2.
Qed.

Lemma runs_step {A B} (m : M pong A) (f : A → M pong B) Q s a t : m s = Ok (a, t) → runs (f a) Q t → runs (m ≫= f) Q s.
Proof. intros E. unfold runs, mbind, M_bind. by rewrite E. Qed.

Record match_ok (s : pong) : Prop := {
  ma_rules : rules s;
  ma_screen : on_screen s;
  ma_scores : 0 ≤ score_player1 s ∧ 0 ≤ score_player2 s ∧ score_player1 s + score_player2 s ≤ 17 ∧
    score_player1 s ≤ PONG_WIN_SCORE ∧ score_player2 s ≤ PONG_WIN_SCORE;
}.

(** Another look or another direction of the paddles. *)
Record same_game (s s' : pong) : Prop := {
  sg_rules : rules s → rules s';
  sg_scores : score_player1 s' = score_player1 s ∧ score_player2 s' = score_player2 s;
  sg_screen : screen_width s' = screen_width s ∧ screen_height s' = screen_height s ∧ p_gfx s' = p_gfx s;
}.

Lemma same_game_trans s s1 s2 : same_game s s1 → same_game s1 s2 → same_game s s2.
Proof. intros [R1 [] (?&?&?)] [R2 [] (?&?&?)]. split; [auto|split; congruence|split_and!; congruence]. Qed.

Lemma look_ok {A} (f : nat → A) s : wp (look f) (λ _ s', same_game s s') s.
Proof. unfold wp, look. cbn. split; [|done|done]. by intros []. Qed.

Lemma same_game_then {A} (m : M pong A) k (Q : unit → pong → Prop) s t :
  same_game s t → wp m (λ _ t', same_game t t') t → (∀ a t', same_game s t' → wp (k a) Q t') → wp (m ≫= k) Q t.
Proof. intros H Hm Hk. eapply wp_bind_mono; [exact Hm|]. cbv beta. intros a t' Ht. apply Hk. by eapply same_game_trans. Qed.

Lemma handle_input_ok s : wp (pong_handle_input held) (λ _ s', same_game s s') s.
Proof.
  assert (∀ v t, same_game t (set_objs (steer (vel_x (player1 t)) v (player1 t)) (player2 t) (ball t) t)) as H1.
  { intros v t. split; [|done|done]. by intros [? ? ? ? ?]. }
  assert (∀ v t, same_game t (set_objs (player1 t) (steer (vel_x (player2 t)) v (player2 t)) (ball t) t)) as H2.
  { intros v t. split; [|done|done]. by intros [? ? ? ? ?]. }
  assert (∀ (b : bool) f t, (∀ t, same_game t (f t)) → wp (when b (modify f)) (λ _ t', same_game t t') t) as Hw.
  { intros b f t Hf. destruct b; [exact (Hf t)|apply wp_ret; by split]. }
  unfold pong_handle_input. cbv zeta.
  apply (same_game_then _ _ _ s); [by split|exact (H1 0 s)|intros _ t1 S1].
  eapply same_game_then; [exact S1|exact (H2 0 t1)|intros _ t2 S2].
  eapply same_game_then; [exact S2|apply look_ok|intros k1 t3 S3]. eapply same_game_then; [exact S3|by apply Hw|intros _ t4 S4].
  eapply same_game_then; [exact S4|apply look_ok|intros k2 t5 S5]. eapply same_game_then; [exact S5|by apply Hw|intros _ t6 S6].
  eapply same_game_then; [exact S6|apply look_ok|intros k3 t7 S7]. eapply same_game_then; [exact S7|by apply Hw|intros _ t8 S8].
  eapply same_game_then; [exact S8|apply look_ok|intros k4 t9 S9].
  eapply wp_mono; [by apply Hw|]. cbv beta. intros _ t' Ht. by eapply same_game_trans.
Qed.

Lemma wait_ok fuel start : ∀ s, runs (wait_frame ticks fuel start) (λ _ s', same_game s s') s.
Proof.
  induction fuel as [|fuel IH]; intros s; cbn [wait_frame];
    (eapply runs_bind; [apply runs_wp, (look_ok (λ n, u32 (ticks n)))|]; cbv beta; intros now t Ht; destruct (_ <? _)).
  - done.
  - by apply runs_wp, wp_ret.
  - specialize (IH t). unfold runs in *. destruct (wait_frame ticks fuel start t) as [[a t']| | | |]; try done.
    by eapply same_game_trans.
  - by apply runs_wp, wp_ret.
Qed.

Lemma updated_game d s s' : updated (moved d s) s' →
  (screen_width s' = screen_width s ∧ screen_height s' = screen_height s ∧ p_gfx s' = p_gfx s) ∧
  score_player1 s ≤ score_player1 s' ∧ score_player2 s ≤ score_player2 s' ∧
  score_player1 s' + score_player2 s' ≤ score_player1 s + score_player2 s + 1.
Proof.
  intros [B|t _ B V|t _ B V]; destruct B as [_ _ [E1 E2] _ (W & H & G)].
  - rewrite E1, E2, W, H, G. split; [done|]. cbn. lia.
  - destruct V as [_ _ [E1' E2'] _ (W' & H' & G')]. rewrite E1', E2', W', H', G', E1, E2, W, H, G. split; [done|]. cbn. lia.
  - destruct V as [_ _ [E1' E2'] _ (W' & H' & G')]. rewrite E1', E2', W', H', G', E1, E2, W, H, G. split; [done|]. cbn. lia.
Qed.

(** The next frame of a match that is not over. *)
Lemma frame_ok fuel last s :
  match_ok s → score_player1 s < PONG_WIN_SCORE → score_player2 s < PONG_WIN_SCORE → (20 ≤ fuel)%nat →
  runs (pong_frame ticks held rdrand fuel last) (λ _ s', match_ok s') s.
Proof.
  intros [Hr [Hsz Hh Htg] Hsc] H1 H2 Hf. unfold pong_frame.
  eapply runs_bind; [apply runs_wp, (look_ok (λ n, u32 (ticks n)))|]. cbv beta zeta. intros start t1 G1.
  eapply runs_bind; [apply runs_wp, handle_input_ok|]. cbv beta. intros _ t2 G2.
  pose proof (same_game_trans _ _ _ G1 G2) as [R2 [E1 E2] (W2 & Hh2 & Gf2)].
  eapply runs_bind; [apply runs_wp, update_ok, R2, Hr|]. cbv beta. intros _ t3 [R3 U3].
  destruct (updated_game _ _ _ U3) as ((W3 & Hh3 & Gf3) & S1 & S2 & S3).
  assert (on_screen t3) as O3 by (split; rewrite ?W3, ?Hh3, ?Gf3, ?W2, ?Hh2, ?Gf2; done).
  eapply runs_bind; [apply runs_wp, draw_ok; [done|lia|lia|done]|]. cbv beta. intros _ t4 (g4 & -> & P4).
  destruct P4 as (Sg & D4 & _). pose proof (on_screen_dev t3 g4 O3 Sg D4) as O4.
  eapply runs_bind; [apply runs_wp, show_ok, O4|]. cbv beta. intros _ t5 (g5 & -> & O5 & _).
  eapply runs_bind; [apply wait_ok|]. cbv beta. intros _ t6 [R6 [F1 F2] (W6 & H6 & Gf6)]. apply runs_wp, wp_ret.
  cbn in F1, F2, W6, H6, Gf6. split.
  - apply R6. by destruct R3.
  - destruct O5 as [O5 O5' O5'']. split; rewrite ?W6, ?H6, ?Gf6; done.
  - rewrite F1, F2. lia.
Qed.

Definition winner (s : pong) : Prop :=
  (score_player1 s = PONG_WIN_SCORE ∧ 0 ≤ score_player2 s < PONG_WIN_SCORE) ∨
  (score_player2 s = PONG_WIN_SCORE ∧ 0 ≤ score_player1 s < PONG_WIN_SCORE).

Lemma match_over s :
  match_ok s → (score_player1 s <? PONG_WIN_SCORE) && (score_player2 s <? PONG_WIN_SCORE) = false → winner s.
Proof.
  intros [_ _ Hs] E. unfold winner in *. apply andb_false_iff in E. rewrite !Z.ltb_ge in E.
  destruct E; [left|right]; lia.
Qed.

Lemma loop_ok fuel fuel' : ∀ last s,
  match_ok s → (20 ≤ fuel')%nat →
  runs (pong_loop ticks held rdrand fuel fuel' last) (λ _ s', match_ok s' ∧ winner s') s.
Proof.
  induction fuel as [|fuel IH]; intros last s Hs Hf; cbn [pong_loop];
    (eapply runs_step; [reflexivity|]); destruct (_ && _) eqn:E.
  - done.
  - apply runs_wp, wp_ret. split; [done|by apply match_over].
  - apply andb_true_iff in E as [E1 E2]. bprop. eapply runs_bind; [by apply frame_ok|]. cbv beta.
    intros last' t Ht. by apply IH.
  - apply runs_wp, wp_ret. split; [done|by apply match_over].
Qed.
End rules.

(** A match of Pong has one winner: from the initialisation on a screen of at least 20 lines, whatever the timer,
    the keys and the random numbers are, the match goes on without a fault for as many frames as are played, and when
    it ends exactly one player has nine points and the other has fewer; the target of the graphics is what it was. *)
Theorem pong_one_winner (ticks : nat → Z) (held : nat → key → bool) (rdrand : nat → option Z)
    (fuel fuel' : nat) (width height : Z) (s : pong) :
  sized width height (p_gfx s) → 20 ≤ height → (20 ≤ fuel')%nat →
  runs (pong_init width height ;; pong_start ticks held rdrand fuel fuel')
    (λ _ s', winner s' ∧ g_target (p_gfx s') = g_target (p_gfx s)) s.
Proof.
  intros Hg Hh Hf.
  eapply runs_step; [reflexivity|]. unfold pong_start. eapply runs_step; [reflexivity|].
  eapply runs_step; [by apply reset_eq|]. eapply runs_step; [reflexivity|]. eapply runs_step; [reflexivity|].
  eapply runs_step; [reflexivity|]. eapply runs_bind; [apply loop_ok; [|done]|].
  - pose proof Hg as (Hs & <- & <-). destruct Hs as [S1 S2 S3 S4 S5 S6 S7]. split; [split; cbn; try done; lia| |cbn; lia].
    split; [split; [by split|done]|done|done].
  - cbv beta. intros _ t [_ Hw]. eapply runs_wp, wp_on_gfx, wp_intro; [reflexivity|]. done.
Qed.

(** A screen of 40 by 20 pixels. *)
Definition small_gfx : gfx := Gfx 160 40 20 (blank 800) (blank 800) GFX_TARGET_FRAMEBUFFER 3200.
Definition small_pong : pong :=
  Pong 40 20 0 0 (Obj 0 (-40) 10 100 0 0) (Obj 30 (-40) 10 100 0 0) (Obj 15 5 10 10 0 0) 3 4 (Rng false 1 0)
    (set_target GFX_TARGET_BACKBUFFER small_gfx) [] 0.

Lemma small_sized : sized 40 20 small_gfx.
Proof. split; [|done]. split; [by_decide|by_decide|by_decide|by_decide|reflexivity|exact (blank_full 800)..]. Qed.

Lemma pong_frame_shown_witness :
  wp (pong_draw 20 ;; on_gfx gfx_render) (λ _ s', g_fb (p_gfx s') !! 20 = Some white) small_pong.
Proof.
  eapply wp_mono; [apply (pong_frame_shown 20 small_pong)|].
  - split; [|cbn; lia|reflexivity]. destruct small_sized as [[]]. split; [|done]. by split.
  - cbn. lia.
  - cbn. lia.
  - lia.
  - cbv beta. intros _ s' (_ & H). exact (H 20 0 ltac:(cbn; lia) ltac:(cbn; lia)).
Defined.

Lemma pong_one_winner_witness :
  runs (pong_init 40 20 ;; pong_start (λ n, 16 * Z.of_nat n) (λ _ _, false) (λ _, None) 5 20)
    (λ _ s', winner s' ∧ g_target (p_gfx s') = GFX_TARGET_FRAMEBUFFER) (set_dev (Rng false 1 0) small_gfx small_pong).
Proof.
  apply (pong_one_winner (λ n, 16 * Z.of_nat n) (λ _ _, false) (λ _, None) 5 20 40 20
    (set_dev (Rng false 1 0) small_gfx small_pong)); [exact small_sized|lia|lia].
Defined.
