(* ===== verification/Printf.v ===== *)
(** * The C library's [printf] ([libc/stdio/printf.c], [putchar.c], [puts.c])

    Over anything that takes characters, with [itoa] and [itoa_hex] of [CString] on the
    local buffers. *)

From S2P Require Import Prelude Loops CString Format.

Abbreviation EOF := (-1)%Z.
Abbreviation INT_MAX := 2147483647%Z.

Section printf.
Context {St : Type} `{SK : Sink St}.
Context (rom : gmap Z Z).

(** The sink is the terminal, and the serial line once that is initialised. *)
(* src/libc/stdio/putchar.c 11-23 putchar *)
Definition putchar (ic : Z) : M St Z := putc (s8 ic) ;; mret ic.

(** [rd i] reads byte [i] of the data, as a [char]. *)
(* src/libc/stdio/printf.c 7-15 print *)
Fixpoint print (rd : Z → M St Z) (length : nat) (i : Z) : M St bool :=
  match length with
  | O => mret true
  | S n =>
      b ← rd i;
      r ← putchar (u8 b);
      if r =? EOF then mret false else print rd n (i + 1)
  end.

Definition print_at (p n : Z) : M St bool := print (λ i, ldr rom (p + i)) (Z.to_nat n) 0.

(** [strlen] on the read-only strings. *)
Fixpoint strlen_at (fuel : nat) (p len : Z) : M St Z :=
  c ← ldr rom (p + len);
  if c =? 0 then mret len else
  match fuel with O => out_of_fuel | S fuel => strlen_at fuel p (len + 1) end.

(** [while (format[amount] && format[amount] != '%') amount++] *)
Fixpoint span (fuel : nat) (p amount : Z) : M St Z :=
  c ← ldr rom (p + amount);
  if (c =? 0) || (c =? ch_percent) then mret amount else
  match fuel with O => out_of_fuel | S fuel => span fuel p (amount + 1) end.

(** A local array of [size] zero bytes at address 0, filled by [f]. *)
Definition local (size : nat) (f : M bmem unit) : M St bmem := λ s,
  match f (list_to_map (zip (seqZ 0 (Z.of_nat size)) (replicate size 0))) with
  | Ok (_, m) => Ok (m, s)
  | Panic msg => Panic msg
  | Halt => Halt
  | Fault a => Fault a
  | OutOfFuel => OutOfFuel
  end.

Definition lift_b {A} (m : bmem) (f : M bmem A) : M St A := λ s,
  match f m with
  | Ok (a, _) => Ok (a, s)
  | Panic msg => Panic msg
  | Halt => Halt
  | Fault a => Fault a
  | OutOfFuel => OutOfFuel
  end.

(** [strlen] of the buffer, and [print] of that much. *)
Definition print_buf (size : nat) (m : bmem) : M St (Z * bool) :=
  len ← lift_b m (strlen size 0);
  ok ← print (λ i, lift_b m (ldc i)) (Z.to_nat len) 0;
  mret (len, ok).

(** The text at [format]; [n] bounds the strings, [fuel] the turns of the loop. *)
(* src/libc/stdio/printf.c 17-119 printf *)
Fixpoint printf_from (n fuel : nat) (format : Z) (parameters : list Z) (written : Z) : M St Z :=
  c ← ldr rom format;
  if c =? 0 then mret written else
  match fuel with
  | O => out_of_fuel
  | S fuel =>
  let maxrem := INT_MAX - written in
  plain ← (if negb (c =? ch_percent) then mret true else d ← ldr rom (format + 1); mret (d =? ch_percent));
  if (plain : bool) then
    let format := if c =? ch_percent then format + 1 else format in
    amount ← span n format 1;
    if maxrem <? amount then mret (-1) else
    ok ← print_at format amount;
    if (ok : bool) then printf_from n fuel (format + amount) parameters (written + amount) else mret (-1)
  else
  let format_begun_at := format in
  let format := format + 1 in
  d ← ldr rom format;
  if d =? ch_c then
    va parameters (λ v parameters,
      if maxrem =? 0 then mret (-1) else
      ok ← print (λ _, mret (s8 v)) 1 0;
      if (ok : bool) then printf_from n fuel (format + 1) parameters (written + 1) else mret (-1))
  else if d =? ch_s then
    va parameters (λ str parameters,
      len ← strlen_at n str 0;
      if maxrem <? len then mret (-1) else
      ok ← print_at str len;
      if (ok : bool) then printf_from n fuel (format + 1) parameters (written + len) else mret (-1))
  else if d =? ch_d then
    if maxrem =? 0 then mret (-1) else
    va parameters (λ num parameters,
      num_buff ← local 12 (itoa 0 (s32 num));
      '(len, ok) ← print_buf 12 num_buff;
      if (ok : bool) then printf_from n fuel (format + 1) parameters (written + len) else mret (-1))
  else if d =? ch_x then
    if maxrem =? 0 then mret (-1) else
    va parameters (λ num parameters,
      num_buff ← local 9 (itoa_hex 0 (u32 num));
      '(len, ok) ← print_buf 9 num_buff;
      if (ok : bool) then printf_from n fuel (format + 1) parameters (written + len) else mret (-1))
  else
    let format := format_begun_at in
    len ← strlen_at n format 0;
    if maxrem <? len then mret (-1) else
    ok ← print_at format len;
    if (ok : bool) then printf_from n fuel (format + len) parameters (written + len) else mret (-1)
  end.

Definition printf (n fuel : nat) (format : Z) (parameters : list Z) : M St Z :=
  printf_from n fuel format parameters 0.

(** [line] is the address of the format ["%s\n"]. *)
(* src/libc/stdio/puts.c 3-5 puts *)
Definition puts (n fuel : nat) (line string : Z) : M St Z := printf n fuel line [string].
End printf.

(** * The theorems about [printf] *)

(** ** Numbers *)

(** What [itoa] makes of a number: a negative one has no sign, and each digit is
    counted down from '0'. *)
Definition itoa_out (v : Z) : list Z :=
  if 0 <=? v then numeral 10 v else (λ c, 96 - c) <$> numeral 10 (- v).

Lemma itoa_stack_digits n k v : (0 < n)%nat → (0 < k)%nat → 0 ≤ v < 10 ^ Z.of_nat n → v < 10 ^ Z.of_nat k →
  itoa_stack n v = if v =? 0 then [0] else digits k 10 v.
Proof.
  revert k v. induction n as [|n IH]; intros k v Hn Hk Hv Hv'; [lia|]. cbn [itoa_stack].
  rewrite Nat2Z.inj_succ, Z.pow_succ_r in Hv by lia. rewrite Z.quot_div_nonneg, Z.rem_mod_nonneg by lia.
  destruct (Z.eqb_spec v 0) as [->|Hz]; [done|]. destruct k as [|k]; [lia|]. cbn [digits].
  rewrite (proj2 (Z.eqb_neq _ _) Hz). f_equal. rewrite Nat2Z.inj_succ, Z.pow_succ_r in Hv' by lia.
  assert (0 ≤ v / 10) by (apply Z.div_pos; lia).
  destruct (Z.eqb_spec (v / 10) 0) as [E|Hz']; [rewrite E; by destruct k|].
  assert (0 < k)%nat as Hk0. { destruct k; [|lia]. change (10 ^ Z.of_nat 0) with 1 in Hv'. exfalso. apply Hz'. apply Z.div_small. lia. }
  assert (0 < n)%nat as Hn0. { destruct n; [|lia]. change (10 ^ Z.of_nat 0) with 1 in Hv. exfalso. apply Hz'. apply Z.div_small. lia. }
  rewrite (IH k (v / 10)); [by rewrite (proj2 (Z.eqb_neq _ _) Hz')|done|done| |].
  - split; [done|]. apply Z.div_lt_upper_bound; lia.
  - apply Z.div_lt_upper_bound; lia.
Qed.

Lemma numeral_itoa v : 0 ≤ v < 2 ^ 32 → numeral 10 v = (λ d, d + 48) <$> reverse (itoa_stack 11 v).
Proof.
  intros Hv. rewrite (itoa_stack_digits 11 64) by (cbn; lia). unfold numeral. destruct (v =? 0); [done|].
  apply list_fmap_ext. intros i d Hi. apply list_elem_of_lookup_2 in Hi. rewrite elem_of_reverse in Hi.
  destruct (digits_value 64 10 v ltac:(lia) ltac:(cbn; lia)) as [_ Hd]. rewrite Forall_forall in Hd. specialize (Hd d Hi).
  unfold digit_char. destruct (Z.ltb_spec d 10); lia.
Qed.

Lemma itoa_digit_bound v d : 0 ≤ v < 2 ^ 32 → d ∈ itoa_stack 11 v → 0 ≤ d < 10.
Proof. intros Hv Hd. destruct (itoa_stack_value 11 v) as (_ & H & _); [lia|done|]. rewrite Forall_forall in H. by apply H. Qed.

Lemma itoa_text v : - 2 ^ 31 ≤ v < 2 ^ 31 → (λ d, u8 (d + 48)) <$> reverse (itoa_stack 11 v) = itoa_out v.
Proof.
  intros Hv. unfold itoa_out. destruct (Z.leb_spec 0 v) as [Hp|Hn].
  - rewrite numeral_itoa by lia. apply list_fmap_ext. intros i d Hi. apply list_elem_of_lookup_2 in Hi.
    rewrite elem_of_reverse in Hi. apply itoa_digit_bound in Hi; [|lia]. apply wrap_small. lia.
  - rewrite numeral_itoa by lia. replace v with (- (- v)) at 1 by lia. rewrite itoa_stack_opp.
    rewrite <- fmap_reverse, <- !list_fmap_compose. apply list_fmap_ext. intros i d Hi. cbn.
    apply list_elem_of_lookup_2 in Hi. rewrite elem_of_reverse in Hi. apply itoa_digit_bound in Hi; [|lia].
    rewrite wrap_small by lia. lia.
Qed.

Lemma hex_stack_digits n k v : 0 ≤ v < 16 ^ Z.of_nat n → v < 16 ^ Z.of_nat k →
  hex_stack n v = digit_char <$> digits k 16 v.
Proof.
  revert k v. induction n as [|n IH]; intros k v Hv Hv'; cbn [hex_stack].
  { change (16 ^ Z.of_nat 0) with 1 in Hv. replace v with 0 by lia. by destruct k. }
  rewrite Nat2Z.inj_succ, Z.pow_succ_r in Hv by lia. destruct (Z.ltb_spec 0 v) as [Hp|Hp].
  2: { replace v with 0 by lia. by destruct k. }
  destruct k as [|k]; [change (16 ^ Z.of_nat 0) with 1 in Hv'; lia|]. cbn [digits fmap list_fmap].
  rewrite (proj2 (Z.eqb_neq v 0)) by lia. rewrite Nat2Z.inj_succ, Z.pow_succ_r in Hv' by lia. cbn [fmap list_fmap]. f_equal.
  - unfold hex_digit, digit_char. destruct (Z.ltb_spec (v mod 16) 10); lia.
  - apply IH; [split; [apply Z.div_pos; lia|]|]; apply Z.div_lt_upper_bound; lia.
Qed.

Lemma hex_text v : 0 < v < 2 ^ 32 → reverse (hex_stack 8 v) = numeral 16 v.
Proof.
  intros Hv. rewrite (hex_stack_digits 8 64) by (cbn; lia). unfold numeral.
  rewrite (proj2 (Z.eqb_neq v 0)) by lia. by rewrite fmap_reverse.
Qed.

Definition buf (size : nat) : bmem := list_to_map (zip (seqZ 0 (Z.of_nat size)) (replicate size 0)).

Lemma buf_mapped size : mapped (buf size) 0 (Z.of_nat size).
Proof.
  intros i Hi. unfold buf. rewrite <- elem_of_dom, dom_list_to_map, elem_of_list_to_set, fst_zip.
  - apply elem_of_seqZ. lia.
  - rewrite length_seqZ, length_replicate. lia.
Qed.

(** Characters that are the same as signed and as unsigned bytes. *)
Definition ascii (l : list Z) : Prop := Forall (λ b, 0 < b < 128) l.

Lemma itoa_out_ascii v : - 2 ^ 31 ≤ v < 2 ^ 31 → ascii (itoa_out v) ∧ (length (itoa_out v) ≤ 11)%nat.
Proof.
  intros Hv. rewrite <- itoa_text by done. rewrite length_fmap, length_reverse. unfold ascii.
  destruct (itoa_stack_value 11 (Z.abs v)) as (_ & Hd & Hl); [lia|done|].
  assert (itoa_stack 11 v = (if 0 <=? v then itoa_stack 11 (Z.abs v) else Z.opp <$> itoa_stack 11 (Z.abs v))) as E.
  { destruct (Z.leb_spec 0 v); [by rewrite Z.abs_eq by lia|]. rewrite <- itoa_stack_opp. f_equal. lia. }
  rewrite E. destruct (0 <=? v); rewrite ?length_fmap.
  - split; [|done]. apply Forall_fmap, Forall_reverse. eapply Forall_impl; [exact Hd|]. cbn. intros d Hb. rewrite wrap_small; lia.
  - split; [|done]. apply Forall_fmap, Forall_reverse, Forall_fmap. eapply Forall_impl; [exact Hd|].
    cbn. intros d Hb. rewrite wrap_small; lia.
Qed.

Lemma itoa_buf v : - 2 ^ 31 ≤ v < 2 ^ 31 → ∃ m, itoa 0 v (buf 12) = Ok (tt, m) ∧ cstr m 0 (itoa_out v).
Proof.
  intros Hv. destruct (itoa_out_ascii v Hv) as [Ha Hl].
  assert (wp (itoa 0 v) (λ _ m', cstr m' 0 (itoa_out v)) (buf 12)) as Hw.
  { unfold itoa. rewrite itoa_text by done.
    replace (length (itoa_stack 11 v)) with (length (itoa_out v)).
    2: { rewrite <- itoa_text by done. by rewrite length_fmap, length_reverse. }
    eapply wp_mono; [apply stbs_cstr|by intros _ m' [? _]].
    - eapply Forall_impl; [exact Ha|]. cbn. lia.
    - intros i Hi. apply buf_mapped. lia. }
  destruct (wp_inv _ _ _ Hw) as ([] & m & E & H). by exists m.
Qed.

Lemma numeral16 v : 0 ≤ v < 2 ^ 32 → ascii (numeral 16 v) ∧ (length (numeral 16 v) ≤ 8)%nat.
Proof.
  intros Hv. unfold numeral. destruct (Z.eqb_spec v 0); [split; [by repeat constructor|cbn; lia]|].
  destruct (digits_value 64 16 v ltac:(lia) ltac:(cbn; lia)) as [_ Hd]. split.
  - apply Forall_fmap, Forall_reverse. eapply Forall_impl; [exact Hd|]. cbn. intros d Hb. unfold digit_char.
    destruct (d <? 10); lia.
  - rewrite length_fmap, length_reverse. apply digits_length; [lia|cbn; lia].
Qed.

Lemma hex_buf_ok v : 0 ≤ v < 2 ^ 32 → ∃ m, itoa_hex 0 v (buf 9) = Ok (tt, m) ∧ cstr m 0 (numeral 16 v).
Proof.
  intros Hv. destruct (numeral16 v Hv) as [Ha Hl].
  assert (∀ l, l = numeral 16 v → wp (stbs 0 l ;; stb (0 + Z.of_nat (length l)) 0) (λ _ m', cstr m' 0 l) (buf 9)) as Hw.
  { intros l ->. eapply wp_mono; [apply stbs_cstr|by intros _ m' [? _]].
    - eapply Forall_impl; [exact Ha|]. cbn. lia.
    - intros i Hi. apply buf_mapped. lia. }
  assert (wp (itoa_hex 0 v) (λ _ m', cstr m' 0 (numeral 16 v)) (buf 9)) as H.
  { unfold itoa_hex. destruct (Z.eqb_spec v 0) as [->|].
    - specialize (Hw [48] eq_refl). cbn [stbs] in Hw. unfold wp in *. rewrite M_bind_assoc in Hw. exact Hw.
    - rewrite hex_text by lia. replace (length (hex_stack 8 v)) with (length (numeral 16 v)); [by apply Hw|].
      rewrite <- hex_text by lia. by rewrite length_reverse. }
  destruct (wp_inv _ _ _ H) as ([] & m & E & Hc). by exists m.
Qed.

Section printf.
Context {St : Type} `{SK : Sink St}.
Context (rom : gmap Z Z).
Implicit Types (s : St).

(** A reader of the characters [l] from [i] on. *)
Definition reads (rd : Z → M St Z) (i : Z) (l : list Z) : Prop :=
  ∀ k c, l !! k = Some c → - 2 ^ 7 ≤ c < 2 ^ 7 ∧ ∀ s, rd (i + Z.of_nat k) s = Ok (c, s).

Lemma s8_u8 c : - 2 ^ 7 ≤ c < 2 ^ 7 → s8 (u8 c) = c.
Proof.
  intros Hc. unfold swrap, wrap. rewrite Zplus_mod_idemp_l. rewrite Z.mod_small; lia.
Qed.

Lemma print_ok rd i l s : reads rd i l → print rd (length l) i s = (emit l ;; mret true) s.
Proof.
  revert i s. induction l as [|c l IH]; intros i s H; cbn [print length emit]; [done|].
  destruct (H 0%nat c eq_refl) as [Hc Hr]. replace (i + Z.of_nat 0) with i in Hr by lia.
  erewrite M_bind_Ok by apply Hr. unfold putchar. rewrite (s8_u8 c Hc). rewrite !M_bind_assoc.
  apply bind_ext; [done|]. intros [] s'. erewrite M_bind_Ok by done.
  pose proof (wrap_bound 8 c ltac:(lia)). rewrite (proj2 (Z.eqb_neq (u8 c) EOF)) by (lia).
  apply IH. intros k d Hk. destruct (H (S k) d Hk) as [Hd Hs]. split; [done|]. intros s2.
  replace (i + 1 + Z.of_nat k) with (i + Z.of_nat (S k)) by lia. apply Hs.
Qed.

Lemma text_reads p l : text_at rom p l → reads (λ i, ldr rom (p + i)) 0 l.
Proof.
  revert p. induction l as [|c l IH]; intros p Ht [|k] d Hk; try done.
  - injection Hk as <-. split; [|intros s; rewrite Z.add_0_l, Z.add_0_r; by apply (ldr_char rom p c l)].
    destruct Ht as (_ & (b & _ & <-) & _). apply (swrap_bound 8). lia.
  - destruct Ht as (_ & _ & Ht). destruct (IH (p + 1) Ht k d Hk) as [Hd Hs]. split; [done|]. intros s.
    rewrite <- (Hs s). f_equal. lia.
Qed.

Lemma text_app p l l' : text_at rom p (l ++ l') → text_at rom (p + Z.of_nat (length l)) l'.
Proof.
  revert p. induction l as [|c l IH]; intros p Ht; cbn [app length].
  - by replace (p + Z.of_nat 0) with p by lia.
  - destruct Ht as (_ & _ & Ht). apply IH in Ht. by replace (p + Z.of_nat (S (length l))) with (p + 1 + Z.of_nat (length l)) by lia.
Qed.

Lemma reads_take rd i l l' : reads rd i (l ++ l') → reads rd i l.
Proof. intros H k c Hk. apply H. by apply lookup_app_l_Some. Qed.

Lemma print_at_ok p l l' s : text_at rom p (l ++ l') → print_at rom p (Z.of_nat (length l)) s = (emit l ;; mret true) s.
Proof. intros Ht. unfold print_at. rewrite Nat2Z.id. by eapply print_ok, reads_take, text_reads. Qed.

Lemma strlen_at_ok n p l : ∀ k s,
  text_at rom (p + k) l → (length l ≤ n)%nat → strlen_at rom n p k s = Ok (k + Z.of_nat (length l), s).
Proof.
  revert n. induction l as [|c l IH]; intros n k s Ht Hn.
  - destruct n; cbn [strlen_at]; (erewrite M_bind_Ok by (by apply ldr_end)); cbn; by rewrite Z.add_0_r.
  - destruct n as [|n]; [cbn in Hn; lia|]. cbn [strlen_at]. erewrite M_bind_Ok by (eapply ldr_char; exact Ht).
    destruct Ht as (Hc & _ & Ht). rewrite (proj2 (Z.eqb_neq c 0) Hc). rewrite (IH n).
    + cbn [length]. do 2 f_equal. lia.
    + by rewrite Z.add_assoc.
    + cbn in Hn. lia.
Qed.

Definition stops (l : list Z) : Prop := match l with [] => True | c :: _ => c = ch_percent end.

Lemma span_ok n p l rest : ∀ k s,
  text_at rom (p + k) (l ++ rest) → Forall (λ c, c ≠ ch_percent) l → stops rest → (length l ≤ n)%nat →
  span rom n p k s = Ok (k + Z.of_nat (length l), s).
Proof.
  revert n. induction l as [|c l IH]; intros n k s Ht Hp Hst Hn.
  - destruct rest as [|c rest].
    + destruct n; cbn [span]; (erewrite M_bind_Ok by (by apply ldr_end)); cbn; by rewrite Z.add_0_r.
    + destruct n; cbn [span]; (erewrite M_bind_Ok by (eapply ldr_char; exact Ht)); cbn in Hst; subst c; cbn; by rewrite Z.add_0_r.
  - destruct n as [|n]; [cbn in Hn; lia|]. cbn [span]. apply Forall_cons in Hp as [Hc Hp].
    erewrite M_bind_Ok by (eapply ldr_char; exact Ht). destruct Ht as (Hc0 & _ & Ht).
    rewrite (proj2 (Z.eqb_neq c 0) Hc0), (proj2 (Z.eqb_neq c ch_percent) Hc). cbn [orb]. rewrite (IH n).
    + cbn [length]. do 2 f_equal. lia.
    + by rewrite Z.add_assoc.
    + done.
    + done.
    + cbn in Hn. lia.
Qed.

Lemma cstr_reads m l : cstr m 0 l → ascii l → reads (λ i, lift_b m (ldc i)) 0 l.
Proof.
  intros Hc Ha. assert (∀ j, cstr m j l → reads (λ i, lift_b m (ldc i)) j l) as H; [|by apply H].
  clear Hc. induction Ha as [|c l Hb _ IH]; intros j Hc [|k] d Hk; try done; destruct Hc as (Hm & _ & Hc).
  - injection Hk as <-. split; [lia|]. intros s. unfold lift_b, ldc, ldb. rewrite Z.add_0_r. unfold mbind, M_bind. rewrite Hm.
    cbn. by rewrite swrap_small by lia.
  - destruct (IH (j + 1) Hc k d Hk) as [Hd Hs]. split; [done|]. intros s. rewrite <- (Hs s). do 2 f_equal. lia.
Qed.

Lemma print_buf_ok size m l s :
  cstr m 0 l → ascii l → (length l ≤ size)%nat →
  print_buf size m s = (emit l ;; mret (Z.of_nat (length l), true)) s.
Proof.
  intros Hc Ha Hl. unfold print_buf. erewrite M_bind_Ok by (unfold lift_b; by rewrite (strlen_correct _ _ _ _ Hc Hl)).
  rewrite Nat2Z.id. unfold mbind, M_bind. rewrite print_ok by (by apply cstr_reads). unfold mbind, M_bind.
  by destruct (emit l s) as [[[] s']| | | |].
Qed.

(** ** What a format stands for *)

(** The text of a format with its arguments; [num] says what the text of an [int] is. *)
Inductive prints (num : Z → list Z → Prop) (n : nat) : list Z → list Z → list Z → Prop :=
  | q_end args : prints num n [] args []
  | q_char c fmt args out : c ≠ ch_percent → prints num n fmt args out → prints num n (c :: fmt) args (c :: out)
  | q_percent fmt args out :
      prints num n fmt args out → prints num n (ch_percent :: ch_percent :: fmt) args (ch_percent :: out)
  | q_c v fmt args out :
      prints num n fmt args out → prints num n (ch_percent :: ch_c :: fmt) (v :: args) (s8 v :: out)
  | q_s q str fmt args out :
      text_at rom q str → (length str ≤ n)%nat → prints num n fmt args out →
      prints num n (ch_percent :: ch_s :: fmt) (q :: args) (str ++ out)
  | q_d v t fmt args out :
      num (s32 v) t → prints num n fmt args out → prints num n (ch_percent :: ch_d :: fmt) (v :: args) (t ++ out)
  | q_x v fmt args out :
      prints num n fmt args out → prints num n (ch_percent :: ch_x :: fmt) (v :: args) (numeral 16 (u32 v) ++ out)
  | q_last args : prints num n [ch_percent] args [ch_percent]
  | q_other d fmt args :
      d ∉ [ch_percent; ch_c; ch_s; ch_d; ch_x] → prints num n (ch_percent :: d :: fmt) args (ch_percent :: d :: fmt).

(** The decimal numeral of a number that is not negative. *)
Definition decimal_of (v : Z) (t : list Z) : Prop := 0 ≤ v ∧ t = numeral 10 v.
(** What [itoa] makes of any number. *)
Definition itoa_of (v : Z) (t : list Z) : Prop := t = itoa_out v.

Lemma prints_decimal n fmt args out : prints decimal_of n fmt args out → prints itoa_of n fmt args out.
Proof.
  induction 1; try by constructor. apply q_d; [|done]. destruct H as [Hv ->]. unfold itoa_of, itoa_out.
  by rewrite (proj2 (Z.leb_le _ _) Hv).
Qed.

(** The plain characters up to the next directive. *)
Lemma prints_plain n fmt args out :
  prints itoa_of n fmt args out →
  ∃ l rest out', fmt = l ++ rest ∧ Forall (λ c, c ≠ ch_percent) l ∧ stops rest ∧ out = l ++ out' ∧ prints itoa_of n rest args out'.
Proof.
  induction 1 as [args|c fmt args out Hc _ IH| | | | | | |]; try by (eexists [], _, _; split_and!; [done|done| |done|econstructor; eauto]).
  destruct IH as (l & rest & out' & -> & Hl & Hs & -> & H). exists (c :: l), rest, out'.
  split_and!; try done. by constructor.
Qed.

Definition done_with (out : list Z) (w : Z) : M St Z := emit out ;; mret (w + Z.of_nat (length out)).

Lemma done_app l out w s k :
  (∀ s, k s = done_with out (w + Z.of_nat (length l)) s) → (emit l ;; k) s = done_with (l ++ out) w s.
Proof.
  intros Hk. unfold done_with in *. rewrite length_app, Nat2Z.inj_add, Z.add_assoc.
  unfold mbind, M_bind in *. rewrite emit_app. unfold mbind, M_bind. by destruct (emit l s) as [[[] s1]| | | |].
Qed.

(** After a successful [print] the loop goes on. *)
Lemma print_then (m : M St bool) l out w s (k : M St Z) :
  (∀ s, m s = (emit l ;; mret true) s) → (∀ s, k s = done_with out (w + Z.of_nat (length l)) s) →
  (ok ← m; if (ok : bool) then k else mret (-1)) s = done_with (l ++ out) w s.
Proof.
  intros Hm Hk. rewrite <- (done_app l out w s k Hk). unfold mbind, M_bind. rewrite Hm. unfold mbind, M_bind.
  by destruct (emit l s) as [[[] s1]| | | |].
Qed.

Lemma local_ok size f m s : f (buf size) = Ok (tt, m) → local size f s = Ok (m, s).
Proof. intros E. unfold local. fold (buf size). by rewrite E. Qed.

Lemma number_then size f m l out w s (k : Z → M St Z) :
  f (buf size) = Ok (tt, m) → cstr m 0 l → ascii l → (length l ≤ size)%nat →
  (∀ s, k (Z.of_nat (length l)) s = done_with out (w + Z.of_nat (length l)) s) →
  (num_buff ← local size f; '(len, ok) ← print_buf size num_buff; if (ok : bool) then k len else mret (-1)) s
    = done_with (l ++ out) w s.
Proof.
  intros E Hc Ha Hl Hk. erewrite M_bind_Ok by (by apply local_ok). rewrite <- (done_app l out w s _ Hk).
  unfold mbind, M_bind. rewrite (print_buf_ok size m l s Hc Ha Hl). unfold mbind, M_bind.
  by destruct (emit l s) as [[[] s1]| | | |].
Qed.

(** Read the two characters of a directive. *)
Ltac two Ht Ht1 :=
  erewrite M_bind_Ok by (eapply ldr_char; exact Ht); cbv zeta; cbn [Z.eqb Pos.eqb negb]; pose proof Ht as (_ & _ & Ht1);
  rewrite M_bind_assoc; do 2 (erewrite M_bind_Ok by first [by (eapply ldr_char; exact Ht1) | by apply ldr_end | done]);
  cbn [Z.eqb Pos.eqb]; erewrite M_bind_Ok by first [by (eapply ldr_char; exact Ht1) | by apply ldr_end]; cbn [Z.eqb Pos.eqb va].

(** A run of plain characters, the first of which has been looked at, and the rest of the format. *)
Lemma plain_then n fuel args q c l rest out w s :
  text_at rom q (c :: l ++ rest) → Forall (λ c, c ≠ ch_percent) l → stops rest → (length l + length rest < n)%nat →
  0 ≤ w → w + Z.of_nat (length (c :: l ++ out)) ≤ INT_MAX →
  (∀ s, printf_from rom n fuel (q + Z.of_nat (length (c :: l))) args (w + Z.of_nat (length (c :: l))) s =
    done_with out (w + Z.of_nat (length (c :: l))) s) →
  (amount ← span rom n q 1;
   if INT_MAX - w <? amount then mret (-1) else
   ok ← print_at rom q amount;
   if (ok : bool) then printf_from rom n fuel (q + amount) args (w + amount) else mret (-1)) s = done_with (c :: l ++ out) w s.
Proof.
  intros Htx Hl Hst Hn Hw Hm Hrest. cbn [length] in Hm. rewrite length_app in Hm.
  pose proof Htx as (_ & _ & Htl). erewrite M_bind_Ok by (apply (span_ok n q l rest 1); [done|done|done|lia]).
  rewrite (proj2 (Z.ltb_ge _ _)) by lia.
  replace (1 + Z.of_nat (length l)) with (Z.of_nat (length (c :: l))) by (cbn [length]; lia).
  apply (print_then _ (c :: l)); [intros s2; by apply (print_at_ok q (c :: l) rest)|done].
Qed.

(** A string of the read-only memory, and the rest of the format. *)
Lemma string_then n q l out w s (k : Z → M St Z) :
  text_at rom q l → (length l ≤ n)%nat → w + Z.of_nat (length l) ≤ INT_MAX →
  (∀ s, k (Z.of_nat (length l)) s = done_with out (w + Z.of_nat (length l)) s) →
  (len ← strlen_at rom n q 0;
   if INT_MAX - w <? len then mret (-1) else
   ok ← print_at rom q len;
   if (ok : bool) then k len else mret (-1)) s = done_with (l ++ out) w s.
Proof.
  intros Ht Hl Hm Hk. erewrite M_bind_Ok by (apply (strlen_at_ok n q l 0); [by rewrite Z.add_0_r|done]). rewrite Z.add_0_l.
  rewrite (proj2 (Z.ltb_ge _ _)) by lia. apply print_then; [|done]. intros s2. apply (print_at_ok q l []). by rewrite app_nil_r.
Qed.

Lemma numeral16_nonempty x : (0 < length (numeral 16 x))%nat.
Proof.
  destruct (numeral 16 x) eqn:E; [|cbn; lia]. unfold numeral in E. destruct (Z.eqb_spec x 0) as [|Hz]; [done|].
  apply fmap_nil_inv in E. apply (f_equal reverse) in E. rewrite reverse_involutive in E. cbn in E.
  by rewrite (proj2 (Z.eqb_neq _ _) Hz) in E.
Qed.

Lemma printf_from_ok n fuel : ∀ fmt args out p w s,
  prints itoa_of n fmt args out → text_at rom p fmt → (length fmt ≤ fuel)%nat → (length fmt ≤ n)%nat →
  0 ≤ w → w + Z.of_nat (length out) ≤ INT_MAX →
  printf_from rom n fuel p args w s = done_with out w s.
Proof.
  induction fuel as [|fuel IH]; intros fmt args out p w s Hp Ht Hf Hn Hw Hmax.
  { destruct fmt; [|cbn in Hf; lia]. inversion Hp; subst. cbn [printf_from].
    erewrite M_bind_Ok by (by apply ldr_end). cbn. unfold done_with. cbn. by rewrite Z.add_0_r. }
  assert (∀ rest out' q w' s, prints itoa_of n rest args out' → text_at rom q rest → (length rest ≤ fuel)%nat → (length rest < n)%nat →
    0 ≤ w' → w' + Z.of_nat (length out') ≤ INT_MAX → printf_from rom n fuel q args w' s = done_with out' w' s) as Hrest
    by (intros; apply (IH rest); (done || lia)).
  destruct Hp as [args|c fmt args out Hc Hp|fmt args out Hp|v fmt args out Hp|q str fmt args out Hq Hsl Hp|v t fmt args out Et Hp
    |v fmt args out Hp|args|d fmt args Hd]; cbn [printf_from].
  - erewrite M_bind_Ok by (by apply ldr_end). cbn. unfold done_with. cbn. by rewrite Z.add_0_r.
  - pose proof Ht as (Hc0 & _). erewrite M_bind_Ok by (eapply ldr_char; exact Ht). cbv zeta.
    rewrite (proj2 (Z.eqb_neq c 0) Hc0), (proj2 (Z.eqb_neq c ch_percent) Hc). cbn [negb]. erewrite M_bind_Ok by done.
    destruct (prints_plain _ _ _ _ Hp) as (l & rest & out' & -> & Hl & Hst & -> & Hr). cbn [length] in Hf, Hn.
    rewrite length_app in Hf, Hn. cbn [length] in Hmax. rewrite length_app in Hmax.
    apply (plain_then n fuel args p c l rest out' w); [done|done|done|lia|lia|cbn [length]; rewrite length_app; lia|].
    intros s2. apply (Hrest rest); [done|apply (text_app p (c :: l) rest Ht)|lia|lia|lia|cbn [length]; lia].
  - erewrite M_bind_Ok by (eapply ldr_char; exact Ht). cbv zeta. cbn [Z.eqb Pos.eqb negb]. pose proof Ht as (_ & _ & Ht1).
    rewrite M_bind_assoc. erewrite M_bind_Ok by (eapply ldr_char; exact Ht1). erewrite M_bind_Ok by done. cbn [Z.eqb Pos.eqb].
    destruct (prints_plain _ _ _ _ Hp) as (l & rest & out' & -> & Hl & Hst & -> & Hr). cbn [length] in Hf, Hn.
    rewrite length_app in Hf, Hn. cbn [length] in Hmax. rewrite length_app in Hmax.
    apply (plain_then n fuel args (p + 1) ch_percent l rest out' w); [done|done|done|lia|lia|cbn [length]; rewrite length_app; lia|].
    intros s2. apply (Hrest rest); [done|apply (text_app (p + 1) (ch_percent :: l) rest Ht1)|lia|lia|lia|cbn [length]; lia].
  - two Ht Ht1. destruct Ht1 as (_ & _ & Ht2). cbn [length] in *. rewrite (proj2 (Z.eqb_neq _ _)) by lia.
    apply (print_then _ [s8 v]); [|intros s2; apply (IH fmt); [done|done|lia|lia|lia|cbn [length]; lia]].
    intros s2. apply (print_ok _ 0 [s8 v]). intros [|k] c Hk; [|done]. injection Hk as <-.
    split; [apply (swrap_bound 8); lia|done].
  - two Ht Ht1. destruct Ht1 as (_ & _ & Ht2). cbn [length] in *. rewrite length_app in Hmax.
    apply string_then; [done|done|lia|]. intros s2. apply (IH fmt); [done|done|lia|lia|lia|lia].
  - unfold itoa_of in Et. subst t. two Ht Ht1. destruct Ht1 as (_ & _ & Ht2). cbn [length] in *. rewrite length_app in Hmax.
    pose proof (swrap_bound 32 v ltac:(lia)) as Hv. destruct (itoa_buf (s32 v) Hv) as (m & Em & Cm).
    destruct (itoa_out_ascii (s32 v) Hv) as [Ha Hl].
    assert (0 < length (itoa_out (s32 v)))%nat as Hpos. { rewrite <- itoa_text by done. rewrite length_fmap, length_reverse. cbn. lia. }
    rewrite (proj2 (Z.eqb_neq _ _)) by lia. apply (number_then 12 _ m _ _ _ _ _ Em Cm Ha); [lia|].
    intros s2. apply (IH fmt); [done|done|lia|lia|lia|lia].
  - two Ht Ht1. destruct Ht1 as (_ & _ & Ht2). cbn [length] in *. rewrite length_app in Hmax.
    pose proof (wrap_bound 32 v ltac:(lia)) as Hv. destruct (hex_buf_ok (u32 v) Hv) as (m & Em & Cm).
    destruct (numeral16 (u32 v) Hv) as [Ha Hl].
    pose proof (numeral16_nonempty (u32 v)) as Hpos.
    rewrite (proj2 (Z.eqb_neq _ _)) by lia. apply (number_then 9 _ m _ _ _ _ _ Em Cm Ha); [lia|].
    intros s2. apply (IH fmt); [done|done|lia|lia|lia|lia].
  - two Ht Ht1. cbn [length] in *.
    apply (string_then n p [ch_percent] []); [done|cbn; lia|cbn [length]; lia|].
    intros s2. apply (IH []); [constructor|done|cbn; lia|cbn; lia|lia|cbn; lia].
  - rewrite !not_elem_of_cons in Hd. destruct Hd as (H1 & H2 & H3 & H4 & H5 & _).
    erewrite M_bind_Ok by (eapply ldr_char; exact Ht). cbv zeta. cbn [Z.eqb Pos.eqb negb]. pose proof Ht as (_ & _ & Ht1).
    rewrite M_bind_assoc. do 2 (erewrite M_bind_Ok by first [by (eapply ldr_char; exact Ht1) | done]).
    rewrite (proj2 (Z.eqb_neq _ _) H1). erewrite M_bind_Ok by (eapply ldr_char; exact Ht1).
    rewrite (proj2 (Z.eqb_neq _ _) H2), (proj2 (Z.eqb_neq _ _) H3), (proj2 (Z.eqb_neq _ _) H4), (proj2 (Z.eqb_neq _ _) H5).
    set (l := ch_percent :: d :: fmt) in *.
    rewrite <- (app_nil_r l). apply (string_then n p l []); [done|done|lia|]. rewrite <- (app_nil_r l) in Ht.
    intros s2. apply (IH []); [apply q_end|by apply text_app|cbn; lia|cbn; lia|lia|change (length (@nil Z)) with 0%nat; lia].
Qed.
End printf.

(** ** Literal formats *)

(** The text of a format without strings, if it has its arguments. *)
Fixpoint rendering (fmt args : list Z) : option (list Z) :=
  match fmt with
  | [] => Some []
  | c :: fmt =>
      if negb (c =? ch_percent) then (c ::.) <$> rendering fmt args else
      match fmt, args with
      | d :: fmt, v :: args =>
          if d =? ch_d then (itoa_out (s32 v) ++.) <$> rendering fmt args
          else if d =? ch_x then (numeral 16 (u32 v) ++.) <$> rendering fmt args
          else None
      | _, _ => None
      end
  end.

Lemma rendering_ok rom n : ∀ k fmt args out,
  (length fmt ≤ k)%nat → rendering fmt args = Some out →
  prints rom itoa_of n fmt args out ∧ (length out ≤ 11 * length fmt)%nat.
Proof.
  induction k as [|k IH]; intros [|c fmt] args out Hk Hr; try (cbn in Hk; lia); cbn [rendering length] in *.
  1, 2: injection Hr as <-; split; [apply q_end|cbn; lia].
  destruct (Z.eqb_spec c ch_percent) as [->|Hc]; cbn [negb] in Hr.
  - destruct fmt as [|d fmt]; [done|]. destruct args as [|v args]; [done|].
    destruct (Z.eqb_spec d ch_d) as [->|_]; [|destruct (Z.eqb_spec d ch_x) as [->|_]; [|done]];
      apply fmap_Some in Hr as (out' & Hr & ->); destruct (IH fmt args out' ltac:(cbn in Hk; lia) Hr) as [Hp Hl];
      rewrite length_app; cbn [length].
    + destruct (itoa_out_ascii (s32 v) (swrap_bound 32 v ltac:(lia))) as [_ Hn]. split; [by apply q_d|lia].
    + destruct (numeral16 (u32 v) (wrap_bound 32 v ltac:(lia))) as [_ Hn]. split; [by apply q_x|lia].
  - apply fmap_Some in Hr as (out' & Hr & ->). destruct (IH fmt args out' ltac:(lia) Hr) as [Hp Hl].
    split; [by apply q_char|cbn; lia].
Qed.

Lemma rom_of_lookup l i v : (l ++ [0]) !! i = Some v → rom_of l !! Z.of_nat i = Some v.
Proof.
  intros H. pose proof (lookup_lt_Some _ _ _ H) as Hi. rewrite length_app in Hi. cbn in Hi. unfold rom_of.
  apply elem_of_list_to_map_1.
  - rewrite fst_zip; [apply NoDup_seqZ|]. rewrite length_seqZ, length_app. cbn. lia.
  - apply (list_elem_of_lookup_2 _ i). apply lookup_zip_Some. split; [|done]. apply lookup_seqZ. lia.
Qed.

Lemma rom_text l : ascii l → text_at (rom_of l) 0 l.
Proof.
  intros Ha. assert (∀ suf pre, l = pre ++ suf → text_at (rom_of l) (Z.of_nat (length pre)) suf) as H; [|exact (H l [] eq_refl)].
  induction suf as [|c suf IH]; intros pre E; cbn [text_at].
  - apply rom_of_lookup. rewrite E, app_nil_r. by rewrite lookup_app_r, Nat.sub_diag.
  - unfold ascii in Ha. rewrite E, Forall_app, Forall_cons in Ha. destruct Ha as (_ & Hc & _).
    split; [lia|]. split.
    + exists c. split; [|apply swrap_small; lia]. apply rom_of_lookup. rewrite E, <- app_assoc, lookup_app_r, Nat.sub_diag by lia. done.
    + replace (Z.of_nat (length pre) + 1) with (Z.of_nat (length (pre ++ [c]))) by (rewrite length_app; cbn; lia).
      apply IH. rewrite E. by rewrite <- app_assoc.
Qed.

Lemma printf_literal {St} `{SK : Sink St} (l args out : list Z) (s : St) :
  ascii l → (length l ≤ 100)%nat → rendering l args = Some out →
  printf (rom_of l) 100 100 0 args s = (emit out ;; mret (Z.of_nat (length out))) s.
Proof.
  intros Ha Hl Hr. destruct (rendering_ok (rom_of l) 100 100 l args out Hl Hr) as [Hp Hlen]. unfold printf.
  rewrite (printf_from_ok (rom_of l) 100 100 l args out 0 0 s); [done|done|by apply rom_text|done|done|lia|lia].
Qed.

Lemma printf_text {St} `{SK : Sink St} rom n fuel p fmt args out (s : St) :
  prints rom itoa_of n fmt args out → text_at rom p fmt → (length fmt ≤ fuel)%nat → (length fmt ≤ n)%nat →
  Z.of_nat (length out) ≤ INT_MAX →
  printf rom n fuel p args s = (emit out ;; mret (Z.of_nat (length out))) s.
Proof. intros Hp Ht Hf Hn Hm. unfold printf. by rewrite (printf_from_ok rom n fuel fmt args out p 0 s). Qed.

(** C23: [printf] prints the text its format stands for, character by character, and returns how many characters that
    is: plain characters, [%%], [%c], [%s], [%d] and [%x]; an unknown directive, or a '%' at the end, and everything
    after it is printed as it stands.  The text of a [%d] is the decimal numeral of its argument, and no such argument is
    negative; the text of a [%x] is the hexadecimal numeral of its argument as an unsigned number. *)
Theorem printf_correct {St} `{SK : Sink St} rom n fuel p fmt args out (s : St) :
  prints rom decimal_of n fmt args out → text_at rom p fmt → (length fmt ≤ fuel)%nat → (length fmt ≤ n)%nat →
  Z.of_nat (length out) ≤ INT_MAX →
  printf rom n fuel p args s = (emit out ;; mret (Z.of_nat (length out))) s.
Proof. intros Hp. apply printf_text. by apply prints_decimal. Qed.

(** "n=%d%%" with 42 prints "n=42%". *)
Lemma printf_correct_witness :
  @printf _ Log.sink (rom_of [110; 61; 37; 100; 37; 37]) 6 6 0 [42] [] = Ok (5, [37; 50; 52; 61; 110]).
Proof.
  refine (eq_trans (@printf_correct _ Log.sink (rom_of [110; 61; 37; 100; 37; 37]) 6 6 0 [110; 61; 37; 100; 37; 37] [42]
    ([110; 61] ++ numeral 10 (s32 42) ++ [37]) [] _ _ _ _ _) _).
  - do 2 (apply q_char; [done|]). apply q_d; [by split; vm_compute|]. apply q_percent. apply q_end.
  - do 6 (split; [done|split; [by eexists; split; vm_compute; reflexivity|]]). by vm_compute.
  - simpl. lia.
  - simpl. lia.
  - vm_compute. discriminate.
  - vm_compute. reflexivity.
Defined.

(** A [%d] with a negative argument is not printed as its numeral: there is no sign, and each digit is counted down
    from '0', so -42 comes out as ",.". *)
Theorem printf_negative {St} `{SK : Sink St} v (s : St) :
  - 2 ^ 31 ≤ v < 0 →
  printf (rom_of (chars "%d")) 2 2 0 [v] s =
    (emit ((λ c, 96 - c) <$> numeral 10 (- v)) ;; mret (Z.of_nat (length (numeral 10 (- v))))) s.
Proof.
  intros Hv. rewrite (printf_text (rom_of (chars "%d")) 2 2 0 (chars "%d") [v] (itoa_out v)).
  - unfold itoa_out. rewrite (proj2 (Z.leb_gt 0 v)) by lia. by rewrite length_fmap.
  - rewrite <- (app_nil_r (itoa_out v)). apply q_d; [by rewrite swrap_small by lia|apply q_end].
  - apply rom_text. by_decide.
  - cbn. lia.
  - cbn. lia.
  - destruct (itoa_out_ascii v) as [_ Hl]; [lia|]. lia.
Qed.
