(* ===== verification/I386Interrupts.v ===== *)
(** * Interrupts of the i386 port ([arch/i386/interrupts/interrupt.asm], [isr.c],
      [gdt/descriptor_tables.c])

    The descriptor tables and the interrupt controller, the assembly stubs as lists of
    instructions on a 32-bit machine, the dispatch in C with its debugging output, and an
    interrupt from its delivery to the return. *)

From S2P Require Import Prelude Loops Arrays Format Printf PortIo.

(** ** Descriptor tables *)

(* src/arch/i386/gdt/descriptor_tables.h 8-15 gdt_entry *)
Record gdt_entry := GdtEntry {
  limit_low : Z; base_low : Z; base_middle : Z; access : Z; granularity : Z; base_high : Z;
}.

(* src/arch/i386/gdt/descriptor_tables.h 22-28 idt_entry *)
Record idt_entry := IdtEntry { isr_low : Z; kernel_cs : Z; reserved : Z; attributes : Z; isr_high : Z }.

(* src/arch/i386/gdt/descriptor_tables.c 66-77 gdt_set_gate *)
Definition gdt_set_gate (num : nat) (base limit access gran : Z) (gdt : list gdt_entry) : list gdt_entry :=
  <[num := GdtEntry (limit .& 0xFFFF) (base .& 0xFFFF) ((base .>> 16) .& 0xFF) access
             (((limit .>> 16) .& 0x0F) .| (gran .& 0xF0)) ((base .>> 24) .& 0xFF)]> gdt.

(* src/arch/i386/gdt/descriptor_tables.c 52-63 init_gdt *)
Definition init_gdt (gdt : list gdt_entry) : list gdt_entry :=
  let gdt := gdt_set_gate 0 0 0 0 0 gdt in
  let gdt := gdt_set_gate 1 0 0xFFFFFFFF 0x9A 0xCF gdt in
  let gdt := gdt_set_gate 2 0 0xFFFFFFFF 0x92 0xCF gdt in
  let gdt := gdt_set_gate 3 0 0xFFFFFFFF 0xFA 0xCF gdt in
  gdt_set_gate 4 0 0xFFFFFFFF 0xF2 0xCF gdt.

(* src/arch/i386/gdt/descriptor_tables.c 79-88 idt_set_descriptor *)
Definition idt_set_descriptor (vector : nat) (isr flags : Z) (idt : list idt_entry) : list idt_entry :=
  <[vector := IdtEntry (isr .& 0xFFFF) 0x08 0 flags (isr .>> 16)]> idt.

Abbreviation IDT_MAX_DESCRIPTORS := 256%nat.
Abbreviation NUM_ISR_STUBS := 48%nat.

(** The gates for [n] stubs from number [i] on. *)
Fixpoint set_descriptors (n i : nat) (stub : Z → Z) (idt : list idt_entry) : list idt_entry :=
  match n with
  | O => idt
  | S n => set_descriptors n (S i) stub (idt_set_descriptor i (stub (Z.of_nat i)) 0x8E idt)
  end.

Section pic.
Context `{HW : Hardware}.

(* src/arch/i386/gdt/descriptor_tables.c 104-129 remap_pic *)
Definition remap_pic : M iobus unit :=
  a1 ← inb 0x21;
  a2 ← inb 0xA1;
  outb 0x20 0x11 ;; outb 0xA0 0x11 ;;
  outb 0x21 32 ;; outb 0xA1 40 ;;
  outb 0x21 0x04 ;; outb 0xA1 0x02 ;;
  outb 0x21 0x01 ;; outb 0xA1 0x01 ;;
  outb 0x21 0xF8 ;; outb 0xA1 0xFF.

(** [stub] gives the addresses in [isr_stub_table]; the result is the table that is loaded. *)
(* src/arch/i386/gdt/descriptor_tables.c 131-146 init_idt *)
Definition init_idt (stub : Z → Z) : M iobus (list idt_entry) :=
  let idt := set_descriptors NUM_ISR_STUBS 0 stub (replicate IDT_MAX_DESCRIPTORS (IdtEntry 0 0 0 0 0)) in
  remap_pic ;;
  mret idt.

(* src/arch/i386/gdt/descriptor_tables.c 45-50 init_descriptor_tables *)
Definition init_descriptor_tables (stub : Z → Z) : M iobus (list gdt_entry * list idt_entry) :=
  let gdt := init_gdt (replicate 5 (GdtEntry 0 0 0 0 0 0)) in
  idt ← init_idt stub;
  mret (gdt, idt).
End pic.

(** ** The processor *)

Inductive reg := EAX | ECX | EDX | EBX | ESP | EBP | ESI | EDI | EIP | EFLAGS | CS | DS | ES | FS | GS.

#[export] Instance reg_eq_dec : EqDecision reg.
Proof. solve_decision. Defined.

(** Registers, and memory by 32-bit words. *)
Record cpu := Cpu { rg : reg → Z; mm : gmap Z Z }.

Definition set_reg (r : reg) (v : Z) (f : reg → Z) : reg → Z := λ r', if decide (r' = r) then v else f r'.
Definition word (m : gmap Z Z) (a : Z) : Z := default 0 (m !! a).

Inductive instr :=
  | Push (r : reg) | PushImm (v : Z) | Pop (r : reg) | Pusha | Popa
  | Mov (d s : reg) | MovW (d s : reg) | MovImmW (d : reg) (v : Z) | Load (d : reg) (off : Z) | Xor (r : reg)
  | AndEsp (v : Z) | SubEsp (n : Z) | AddEsp (n : Z) | Cli | Iret.

Definition push_word (v : Z) (c : cpu) : cpu :=
  let sp := u32 (rg c ESP - 4) in Cpu (set_reg ESP sp (rg c)) (<[sp := v]> (mm c)).
Definition pop_reg (r : reg) (c : cpu) : cpu :=
  Cpu (set_reg r (word (mm c) (rg c ESP)) (set_reg ESP (u32 (rg c ESP + 4)) (rg c))) (mm c).
Definition add_esp (n : Z) (c : cpu) : cpu := Cpu (set_reg ESP (u32 (rg c ESP + n)) (rg c)) (mm c).

(** A 16-bit move replaces the low half-word; segment registers have nothing else. *)
Definition seg (r : reg) : bool := match r with CS | DS | ES | FS | GS => true | _ => false end.
Definition merge16 (d : reg) (old v : Z) : Z := if seg d then u16 v else (old / 2 ^ 16) * 2 ^ 16 + u16 v.

Definition step (i : instr) (c : cpu) : cpu :=
  match i with
  | Push r => push_word (rg c r) c
  | PushImm v => push_word v c
  | Pop r => pop_reg r c
  | Pusha =>
      let sp := rg c ESP in
      push_word (rg c EDI) (push_word (rg c ESI) (push_word (rg c EBP) (push_word sp
        (push_word (rg c EBX) (push_word (rg c EDX) (push_word (rg c ECX) (push_word (rg c EAX) c)))))))
  | Popa =>
      pop_reg EAX (pop_reg ECX (pop_reg EDX (pop_reg EBX (add_esp 4 (pop_reg EBP (pop_reg ESI (pop_reg EDI c)))))))
  | Mov d s => Cpu (set_reg d (rg c s) (rg c)) (mm c)
  | MovW d s => Cpu (set_reg d (merge16 d (rg c d) (rg c s)) (rg c)) (mm c)
  | MovImmW d v => Cpu (set_reg d (merge16 d (rg c d) v) (rg c)) (mm c)
  | Load d off => Cpu (set_reg d (word (mm c) (u32 (rg c ESP + off))) (rg c)) (mm c)
  | Xor r => Cpu (set_reg r 0 (rg c)) (mm c)
  | AndEsp v => Cpu (set_reg ESP (rg c ESP .& u32 v) (rg c)) (mm c)
  | SubEsp n => Cpu (set_reg ESP (u32 (rg c ESP - n)) (rg c)) (mm c)
  | AddEsp n => add_esp n c
  | Cli => Cpu (set_reg EFLAGS (Z.ldiff (rg c EFLAGS) (1 .<< 9)) (rg c)) (mm c)
  | Iret =>
      let sp := rg c ESP in
      Cpu (set_reg EIP (word (mm c) sp) (set_reg CS (word (mm c) (u32 (sp + 4)))
             (set_reg EFLAGS (word (mm c) (u32 (sp + 8))) (set_reg ESP (u32 (sp + 12)) (rg c))))) (mm c)
  end.

Definition exec (p : list instr) (c : cpu) : cpu := foldl (λ c i, step i c) c p.

(** ** The stubs *)

(** Exceptions for which the processor pushes an error code. *)
Definition pushes_error (n : Z) : bool := bool_decide (n ∈ [8; 10; 11; 12; 13; 14; 17; 21; 29; 30]).

(** The stubs that expect one. *)
(* src/arch/i386/interrupts/interrupt.asm 86-134 isr_stub_table *)
Definition is_err_stub (n : Z) : bool := bool_decide (n ∈ [8; 10; 11; 12; 13; 14; 17; 30]).

(* src/arch/i386/interrupts/interrupt.asm 3-18 isr_no_err_stub *)
Definition isr_stub (n : Z) : list instr :=
  if is_err_stub n then [Cli; PushImm n] else [Cli; PushImm 0; PushImm n].

(** Up to the stack pointer's copy in EBX; then the stack is aligned and the pointer to the registers pushed. *)
(* src/arch/i386/interrupts/interrupt.asm 22-35 isr_common_stub *)
Definition isr_save : list instr :=
  [Pusha; Xor EAX; MovW EAX DS; Push EAX;
   MovImmW EAX 0x10; MovW DS EAX; MovW ES EAX; MovW FS EAX; MovW GS EAX; Mov EBX ESP].
(* src/arch/i386/interrupts/interrupt.asm 37-41 isr_common_stub *)
Definition isr_align : list instr := [AndEsp (-16); SubEsp 12; Push EBX].

(** After the call: the saved data segment and code segment are looked at, [check_ds] before the first comparison and
    [check_cs] before the second. *)
(* src/arch/i386/interrupts/interrupt.asm 45-51 isr_common_stub *)
Definition check_ds : list instr := [AddEsp 4; Mov ESP EBX; Push EAX; Load EAX 4].
(* src/arch/i386/interrupts/interrupt.asm 54-55 isr_common_stub *)
Definition check_cs : list instr := [Load EAX 52].

(* src/arch/i386/interrupts/interrupt.asm 57-84 isr_common_stub *)
Definition isr_restore : list instr :=
  [Pop EAX; Pop EAX; MovW DS EAX; MovW ES EAX; MovW FS EAX; MovW GS EAX; Popa; AddEsp 8; Iret].

(** A red X in the first cell of the screen: the low half of the word there. *)
(* src/arch/i386/interrupts/interrupt.asm 60-71 isr_common_stub *)
Definition stack_corruption (c : cpu) : cpu :=
  let c := exec [Pop EAX; Push EAX] c in
  let c := Cpu (set_reg EAX 0xB8000 (rg c)) (<[0xB8000 := word (mm c) 0xB8000 / 2 ^ 16 * 2 ^ 16 + 0x0C58]> (mm c)) in
  exec [Pop EAX; Cli] c.

(** ** Dispatch *)

(* src/arch/i386/interrupts/isr.h 7-15 interrupt_context *)
Record interrupt_context := InterruptContext {
  x_ds : Z; x_edi : Z; x_esi : Z; x_ebp : Z; x_esp : Z; x_ebx : Z; x_edx : Z; x_ecx : Z; x_eax : Z;
  x_int_no : Z; x_err_code : Z; x_eip : Z; x_cs : Z; x_eflags : Z; x_useresp : Z; x_ss : Z;
}.

Definition ld_context (m : gmap Z Z) (p : Z) : interrupt_context :=
  let g i := word m (u32 (p + 4 * i)) in
  InterruptContext (g 0) (g 1) (g 2) (g 3) (g 4) (g 5) (g 6) (g 7) (g 8) (g 9) (g 10) (g 11) (g 12) (g 13) (g 14) (g 15).

Section dispatch.
Context {K : Type} `{SK : Sink K}.

(** [printf] of a string literal; 100 characters are more than any literal here has. *)
Definition say (format : string) (args : list Z) : M K unit :=
  _ ← printf (rom_of (chars format)) 100 100 0 args; mret tt.

Definition isr_t : Type := interrupt_context → M K unit.
Definition handlers : Type := gmap Z isr_t.

(* src/arch/i386/interrupts/isr.c 110-112 register_interrupt_handler *)
Definition register_interrupt_handler (n : Z) (handler : isr_t) (t : handlers) : handlers := <[u8 n := handler]> t.

(** The array has 256 entries. *)
(* src/arch/i386/interrupts/isr.c 115-123 isr_handler *)
Definition isr_handler (t : handlers) (int_context : interrupt_context) : M K unit :=
  if 256 <=? x_int_no int_context then fault (x_int_no int_context) else
  match t !! x_int_no int_context with
  | Some h => h int_context
  | None => say "[UNHANDLED IRQ %d]" [x_int_no int_context]
  end.

(* src/arch/i386/interrupts/isr.c 14-16 has_err_code *)
Definition has_err_code (n : Z) : bool := (n =? 8) || ((10 <=? n) && (n <=? 14)).

Definition nl : string := String (Ascii.ascii_of_nat 10) EmptyString.

(* src/arch/i386/interrupts/isr.c 18-75 debug_print_registers *)
Definition debug_print_registers (regs : interrupt_context) : M K unit :=
  let flag bit name := when (nz (x_eflags regs .& (1 .<< bit))) (say name []) in
  say ("=== REGISTER DUMP ===" +:+ nl) [] ;;
  say ("DS: 0x%x" +:+ nl) [x_ds regs] ;;
  say ("CS: 0x%x" +:+ nl) [x_cs regs] ;;
  say ("SS: 0x%x" +:+ nl) [x_ss regs] ;;
  say ("EAX: 0x%x  EBX: 0x%x  ECX: 0x%x  EDX: 0x%x" +:+ nl) [x_eax regs; x_ebx regs; x_ecx regs; x_edx regs] ;;
  say ("ESI: 0x%x  EDI: 0x%x  EBP: 0x%x  ESP: 0x%x" +:+ nl) [x_esi regs; x_edi regs; x_ebp regs; x_esp regs] ;;
  say ("EIP: 0x%x  EFLAGS: 0x%x" +:+ nl) [x_eip regs; x_eflags regs] ;;
  say ("User ESP: 0x%x" +:+ nl) [x_useresp regs] ;;
  say "Interrupt: %d (0x%x)" [x_int_no regs; x_int_no regs] ;;
  when (has_err_code (x_int_no regs)) (say "  Error Code: %d (0x%x)" [x_err_code regs; x_err_code regs]) ;;
  say nl [] ;;
  say "EFLAGS bits: " [] ;;
  flag 0 "CF " ;; flag 2 "PF " ;; flag 4 "AF " ;; flag 6 "ZF " ;; flag 7 "SF " ;;
  flag 8 "TF " ;; flag 9 "IF " ;; flag 10 "DF " ;; flag 11 "OF " ;;
  say nl [] ;;
  say ("==================" +:+ nl) [].

(** ** An interrupt, from delivery to return *)

(** What compiled C code does to the processor between [call] and its [ret] is a parameter, and so is
    where the linker puts the code: the instructions at an address up to the [call]. *)
Context (compiled : cpu → cpu) (code : Z → list instr).

(** A gate of the table, as the processor reads it: a present 32-bit interrupt gate. *)
Definition gate (e : idt_entry) : option (Z * Z) :=
  if attributes e =? 0x8E then Some (isr_low e + 2 ^ 16 * isr_high e, kernel_cs e) else None.

(** Without a change of privilege the stack pointer is not saved. *)
Definition deliver (idt : list idt_entry) (n err : Z) (c : cpu) : option cpu :=
  match idt !! Z.to_nat n ≫= gate with
  | None => None
  | Some (target, sel) =>
      let c1 := push_word (rg c EIP) (push_word (rg c CS) (push_word (rg c EFLAGS) c)) in
      let c2 := if pushes_error n then push_word err c1 else c1 in
      Some (Cpu (set_reg EIP target (set_reg CS sel (set_reg EFLAGS (Z.ldiff (rg c EFLAGS) (1 .<< 9)) (rg c2)))) (mm c2))
  end.

(** The interrupted code goes on, or the machine stands still. *)
Inductive ending := Resumed (c : cpu) | Halted (c : cpu).

Definition finish (c : cpu) : ending :=
  let c := exec check_ds c in
  if negb (rg c EAX =? 0x10) then Halted (stack_corruption c) else
  let c := exec check_cs c in
  if negb (rg c EAX =? 0x08) then Halted (stack_corruption c) else
  Resumed (exec isr_restore c).

Definition interrupt (idt : list idt_entry) (t : handlers) (n err : Z) (c : cpu) : M K ending :=
  match deliver idt n err c with
  | None => panic "no gate"
  | Some c =>
      let c := exec (code (rg c EIP)) c in
      isr_handler t (ld_context (mm c) (word (mm c) (rg c ESP))) ;;
      mret (finish (compiled c))
  end.
End dispatch.

(** ** The last resort: the screen's memory *)

(** The cells of the screen, and [vga_cursor]. *)
Record screen := Screen { sc_cells : list Z; sc_cursor : Z }.

(** [vga_buffer[i] = v]; past the cells there is other memory. *)
Definition st_cell (i v : Z) : M screen unit := λ s,
  if (0 <=? i) && (i <? len (sc_cells s)) then Ok (tt, Screen (upd (sc_cells s) i v) (sc_cursor s)) else Fault i.

(* src/arch/i386/interrupts/isr.c 80-90 vga_putchar *)
Definition vga_putchar (c : Z) : M screen unit :=
  (if c =? 10 then modify (λ s, Screen (sc_cells s) ((sc_cursor s ÷ 80 + 1) * 80))
   else
     i ← gets sc_cursor;
     modify (λ s, Screen (sc_cells s) (i + 1)) ;;
     st_cell i (u16 (s8 c) .| 0x0F00)) ;;
  s ← get;
  when (80 * 25 <=? sc_cursor s) (modify (λ s, Screen (sc_cells s) 0)).

(** [str] is the string up to its terminator. *)
(* src/arch/i386/interrupts/isr.c 92-96 vga_print *)
Fixpoint vga_print (str : list Z) : M screen unit :=
  match str with [] => mret tt | c :: str => vga_putchar c ;; vga_print str end.

Definition hex_char (d : Z) : Z := if d <? 10 then 48 + d else 65 + d - 10.

(* src/arch/i386/interrupts/isr.c 98-104 vga_print_hex *)
Definition vga_print_hex (value : Z) : M screen unit :=
  vga_print [48; 120] ;;
  for_up 8 0 (λ k, vga_putchar (hex_char ((value .>> ((7 - k) * 4)) .& 0xF))).
