(* ===== verification/I386InterruptProps.v ===== *)
(** * The theorems about the interrupts of the i386 port

    As in [InterruptProps], the assembly is followed symbolically on registers and the part of
    the stack that is known. *)

From S2P Require Import Prelude Loops Arrays Format Printf PortIo I386Interrupts.

(** ** Symbolic execution *)

(** The words from an address up. *)
Fixpoint stack (m : gmap Z Z) (sp : Z) (l : list Z) : Prop :=
  match l with [] => True | v :: l => word m sp = v ∧ stack m (sp + 4) l end.

Lemma stack32_ext m m' sp l :
  (∀ a, sp ≤ a < sp + 4 * Z.of_nat (length l) → word m' a = word m a) → stack m sp l → stack m' sp l.
Proof.
  revert sp. induction l as [|v l IH]; intros sp He; [done|]. cbn [stack length] in *. intros [H1 H2]. split.
  - rewrite He by lia. done.
  - apply IH; [|done]. intros a Ha. apply He. lia.
Qed.

Lemma stack32_insert m sp l a v : a < sp → stack m sp l → stack (<[a := v]> m) sp l.
Proof. intros Ha. apply stack32_ext. intros b Hb. unfold word. by rewrite lookup_insert_ne by lia. Qed.

Lemma stack32_push m sp v l : stack m sp l → stack (<[sp - 4 := v]> m) (sp - 4) (v :: l).
Proof.
  intros H. cbn. split; [unfold word; by rewrite lookup_insert_eq|]. replace (sp - 4 + 4) with sp by lia.
  apply stack32_insert; [lia|done].
Qed.

Lemma stack32_lookup m sp l i v : stack m sp l → l !! i = Some v → word m (sp + 4 * Z.of_nat i) = v.
Proof.
  revert sp i. induction l as [|w l IH]; intros sp [|i] Hs Hl; try done; destruct Hs as [H1 H2]; cbn in Hl.
  - replace (sp + 4 * Z.of_nat 0) with sp by lia. congruence.
  - replace (sp + 4 * Z.of_nat (S i)) with (sp + 4 + 4 * Z.of_nat i) by lia. by apply IH.
Qed.

(** A state: the registers, and the known words on the stack; [n] more fit below them. *)
Record sim (n : nat) (c : cpu) (f : reg → Z) (l : list Z) : Prop := {
  sm_regs r : rg c r = f r;
  sm_stack : stack (mm c) (f ESP) l;
  sm_low : 4 * Z.of_nat n ≤ f ESP;
  sm_high : f ESP + 4 * Z.of_nat (length l) ≤ 2 ^ 32;
}.

Lemma set_reg32_ext r v f g : (∀ r, f r = g r) → ∀ r', set_reg r v f r' = set_reg r v g r'.
Proof. intros H r'. unfold set_reg. by destruct (decide _). Qed.
Lemma set_reg32_eq r v f : set_reg r v f r = v.
Proof. unfold set_reg. by rewrite decide_True. Qed.
Lemma set_reg32_ne r r' v f : r' ≠ r → set_reg r v f r' = f r'.
Proof. intros. unfold set_reg. by rewrite decide_False. Qed.

(** Read registers of states given by their changes. *)
Ltac regs := repeat first [rewrite set_reg32_eq | rewrite set_reg32_ne by done].

Lemma sim32_less n m c f l : sim n c f l → (m ≤ n)%nat → sim m c f l.
Proof. intros [H1 H2 H3 H4] Hm. split; try done. lia. Qed.

Lemma sim32_ext n c f g l : sim n c f l → (∀ r, f r = g r) → sim n c g l.
Proof. intros [H1 H2 H3 H4] E. split; rewrite <- ?E; try done. intros r. by rewrite <- E. Qed.

(** Changing a register other than the stack pointer. *)
Lemma put32_sim n c f l r v : sim n c f l → r ≠ ESP → sim n (Cpu (set_reg r v (rg c)) (mm c)) (set_reg r v f) l.
Proof.
  intros [H1 H2 H3 H4] Hr. assert (set_reg r v f ESP = f ESP) as E by (by apply set_reg32_ne).
  split; cbn [rg mm]; rewrite ?E; try done. by apply set_reg32_ext.
Qed.

Lemma push32_sim n c f l v : sim (S n) c f l → sim n (push_word v c) (set_reg ESP (f ESP - 4) f) (v :: l).
Proof.
  intros [H1 H2 H3 H4]. unfold push_word. rewrite (H1 ESP), wrap_small by lia.
  split; cbn [rg mm length]; rewrite ?set_reg32_eq; [by apply set_reg32_ext|by apply stack32_push|lia|lia].
Qed.

Lemma add32_sim n c f l l' k :
  sim n c f (l ++ l') → k = 4 * Z.of_nat (length l) → (0 < length l')%nat → sim n (add_esp k c) (set_reg ESP (f ESP + k) f) l'.
Proof.
  intros [H1 H2 H3 H4] -> Hl. rewrite length_app in H4. unfold add_esp. rewrite (H1 ESP), wrap_small by lia.
  split; cbn [rg mm]; rewrite ?set_reg32_eq; [by apply set_reg32_ext| |lia|lia].
  clear - H2. revert H2. generalize (f ESP). induction l as [|v l IH]; intros sp H.
  - by rewrite Z.add_0_r.
  - destruct H as [_ H]. replace (sp + 4 * Z.of_nat (length (v :: l))) with (sp + 4 + 4 * Z.of_nat (length l)) by (cbn [length]; lia).
    by apply IH.
Qed.

Lemma pop32_sim n c f v w l r :
  sim n c f (v :: w :: l) → r ≠ ESP → sim n (pop_reg r c) (set_reg r v (set_reg ESP (f ESP + 4) f)) (w :: l).
Proof.
  intros H Hr. pose proof H as [H1 [Hv _] _ _]. pose proof (add32_sim n c f [v] (w :: l) 4 H eq_refl ltac:(cbn; lia)) as HA.
  pose proof (put32_sim n _ _ _ r v HA Hr) as HP. unfold pop_reg.
  replace (word (mm c) (rg c ESP)) with v by (by rewrite H1). exact HP.
Qed.

Lemma load32_sim n c f l d off i v :
  sim n c f l → d ≠ ESP → off = 4 * Z.of_nat i → l !! i = Some v → sim n (step (Load d off) c) (set_reg d v f) l.
Proof.
  intros H Hd -> Hi. pose proof H as [H1 H2 H3 H4]. cbn [step]. pose proof (lookup_lt_Some _ _ _ Hi).
  rewrite (H1 ESP), wrap_small by lia. rewrite (stack32_lookup _ _ _ _ _ H2 Hi). by apply put32_sim.
Qed.

(** ** The stubs *)

Lemma stubs32_agree n : 0 ≤ n < 48 → n ≠ 21 → n ≠ 29 → is_err_stub n = pushes_error n.
Proof.
  intros Hn H21 H29. assert (n ∈ seqZ 0 48) as Hin by (apply elem_of_seqZ; lia). revert n Hin H21 H29 Hn.
  assert (Forall (λ n, n ≠ 21 → n ≠ 29 → is_err_stub n = pushes_error n) (seqZ 0 48)) as Hall by by_decide.
  rewrite Forall_forall in Hall. auto.
Qed.

(** The words of the struct that the stubs push, lowest address first. *)
Definition saved (f : reg → Z) (sp : Z) : list Z :=
  [f DS; f EDI; f ESI; f EBP; sp; f EBX; f EDX; f ECX; f EAX].

Lemma pusha_sim n c f l :
  sim (8 + n) c f l → sim n (step Pusha c) (set_reg ESP (f ESP - 32) f) (tail (saved f (f ESP)) ++ l).
Proof.
  intros H. pose proof (sm_regs _ _ _ _ H) as Hr. cbn [step]. rewrite !Hr.
  change (tail (saved f (f ESP)) ++ l) with (f EDI :: f ESI :: f EBP :: f ESP :: f EBX :: f EDX :: f ECX :: f EAX :: l).
  eapply sim32_ext; [do 8 apply push32_sim; exact H|]. intros r.
  destruct (decide (r = ESP)) as [->|]; [rewrite !set_reg32_eq; lia|by rewrite !set_reg32_ne].
Qed.

Lemma seg_merge d old v : seg d = true → 0 ≤ v < 2 ^ 16 → merge16 d old v = v.
Proof. intros Hd Hv. unfold merge16. rewrite Hd. by apply wrap_small. Qed.
Lemma merge_eax v : 0 ≤ v < 2 ^ 16 → merge16 EAX 0 v = v.
Proof. intros Hv. unfold merge16. cbn [seg]. rewrite wrap_small by lia. rewrite Z.div_0_l by lia. lia. Qed.

Lemma mov32_sim n c f l d r : sim n c f l → d ≠ ESP → sim n (step (Mov d r) c) (set_reg d (f r) f) l.
Proof. intros H Hd. cbn [step]. rewrite (sm_regs _ _ _ _ H). by apply put32_sim. Qed.
Lemma movw32_sim n c f l d r v :
  sim n c f l → d ≠ ESP → merge16 d (f d) (f r) = v → sim n (step (MovW d r) c) (set_reg d v f) l.
Proof. intros H Hd <-. cbn [step]. rewrite !(sm_regs _ _ _ _ H). by apply put32_sim. Qed.
Lemma movimm32_sim n c f l d i : sim n c f l → d ≠ ESP → sim n (step (MovImmW d i) c) (set_reg d (merge16 d (f d) i) f) l.
Proof. intros H Hd. cbn [step]. rewrite !(sm_regs _ _ _ _ H). by apply put32_sim. Qed.
Lemma pushr32_sim n c f l r : sim (S n) c f l → sim n (step (Push r) c) (set_reg ESP (f ESP - 4) f) (f r :: l).
Proof. intros H. cbn [step]. rewrite (sm_regs _ _ _ _ H). by apply push32_sim. Qed.

(** The common part saves the registers, and copies the stack pointer to EBX. *)
Lemma save_sim n c f l :
  sim (9 + n) c f l → 0 ≤ f DS < 2 ^ 16 →
  ∃ f', sim n (exec isr_save c) f' (saved f (f ESP) ++ l) ∧ f' EBX = f' ESP ∧ f' ESP = f ESP - 36.
Proof.
  intros H Hds. unfold isr_save, exec. cbn [foldl]. eexists. split.
  - eapply mov32_sim; [|done]. do 4 (eapply movw32_sim; [|done|reflexivity]). eapply movimm32_sim; [|done].
    change (saved f (f ESP) ++ l) with (f DS :: tail (saved f (f ESP)) ++ l).
    eapply (pushr32_sim n _ (set_reg EAX (f DS) (set_reg EAX 0 (set_reg ESP (f ESP - 32) f))) _ EAX).
    eapply movw32_sim; [|done|exact (merge_eax _ Hds)]. eapply (put32_sim _ _ _ _ EAX 0); [|done]. by apply pusha_sim.
  - split; regs; [done|lia].
Qed.

(** Aligning the stack and pushing the pointer does not touch the saved words. *)
Lemma align_ok n c f v l :
  sim (8 + n) c f (v :: l) → f EBX = f ESP →
  let c' := exec isr_align c in
  word (mm c') (rg c' ESP) = f EBX ∧ rg c' EBX = f EBX ∧ stack (mm c') (f EBX) (v :: l).
Proof.
  intros [H1 H2 H3 H4] Hb. cbv zeta. cbn [length] in H4. unfold isr_align, exec. cbn [foldl step]. unfold push_word. cbn [rg mm].
  regs. rewrite !H1, Hb. set (a := u32 (_ - 4)). assert (a < f ESP) as Ha.
  { unfold a. change (u32 (-16)) with (unot 32 (2 ^ 4 - 1)). rewrite land_unot_ones by lia.
    pose proof (Z.div_mod (f ESP) (2 ^ 4) ltac:(lia)). pose proof (Z.mod_pos_bound (f ESP) (2 ^ 4) ltac:(lia)).
    rewrite (wrap_small 32 (_ - 12)) by lia. rewrite wrap_small; lia. }
  split; [unfold word; by rewrite lookup_insert_eq|]. split; [done|]. by apply stack32_insert.
Qed.

Lemma iret_sim n c f x0 x1 x2 w l :
  sim n c f (x0 :: x1 :: x2 :: w :: l) →
  ∀ r, rg (step Iret c) r = set_reg EIP x0 (set_reg CS x1 (set_reg EFLAGS x2 (set_reg ESP (f ESP + 12) f))) r.
Proof.
  intros [R (S0 & S1 & S2 & _) Lo Hi] r. cbn [length] in Hi. cbn [step rg]. rewrite (R ESP), !wrap_small by lia.
  rewrite S0, S1. replace (f ESP + 8) with (f ESP + 4 + 4) by lia. rewrite S2. by do 4 apply set_reg32_ext.
Qed.

(** Popping and skipping, with the stack pointer written out. *)
Lemma pop_to n c f v w l r sp :
  sim n c f (v :: w :: l) → r ≠ ESP → sp = f ESP + 4 → sim n (pop_reg r c) (set_reg r v (set_reg ESP sp f)) (w :: l).
Proof. intros H Hr ->. by apply pop32_sim. Qed.
Lemma skip_to n c f l l' k sp :
  sim n c f (l ++ l') → k = 4 * Z.of_nat (length l) → (0 < length l')%nat → sp = f ESP + k →
  sim n (add_esp k c) (set_reg ESP sp f) l'.
Proof. intros H Hk Hl ->. by eapply add32_sim. Qed.

(** The words after the struct's registers are popped: the vector, the error code, and what [iret] takes. *)
Lemma restore_sim n c g a f sp v1 v2 x0 x1 x2 w l :
  sim n c g (a :: saved f sp ++ v1 :: v2 :: x0 :: x1 :: x2 :: w :: l) → f DS = 0x10 →
  ∀ r, rg (exec isr_restore c) r =
    match r with
    | EIP => x0 | CS => x1 | EFLAGS => x2 | ESP => g ESP + 60
    | DS | ES | FS | GS => f DS
    | _ => f r
    end.
Proof.
  intros H Hds. unfold isr_restore, exec. cbn [foldl]. set (s := g ESP).
  change (a :: saved f sp ++ ?l) with (a :: f DS :: f EDI :: f ESI :: f EBP :: sp :: f EBX :: f EDX :: f ECX :: f EAX :: l) in H.
  apply (pop_to _ _ _ _ _ _ EAX (s + 4)) in H; [|done|done]. apply (pop_to _ _ _ _ _ _ EAX (s + 8)) in H; [|done|regs; lia].
  apply (movw32_sim _ _ _ _ DS EAX 0x10) in H; [|done|regs; by rewrite Hds].
  apply (movw32_sim _ _ _ _ ES EAX 0x10) in H; [|done|regs; by rewrite Hds].
  apply (movw32_sim _ _ _ _ FS EAX 0x10) in H; [|done|regs; by rewrite Hds].
  apply (movw32_sim _ _ _ _ GS EAX 0x10) in H; [|done|regs; by rewrite Hds].
  apply (pop_to _ _ _ _ _ _ EDI (s + 12)) in H; [|done|regs; lia]. apply (pop_to _ _ _ _ _ _ ESI (s + 16)) in H; [|done|regs; lia].
  apply (pop_to _ _ _ _ _ _ EBP (s + 20)) in H; [|done|regs; lia].
  apply (skip_to _ _ _ [sp] _ 4 (s + 24)) in H; [|done|cbn; lia|regs; lia].
  apply (pop_to _ _ _ _ _ _ EBX (s + 28)) in H; [|done|regs; lia]. apply (pop_to _ _ _ _ _ _ EDX (s + 32)) in H; [|done|regs; lia].
  apply (pop_to _ _ _ _ _ _ ECX (s + 36)) in H; [|done|regs; lia]. apply (pop_to _ _ _ _ _ _ EAX (s + 40)) in H; [|done|regs; lia].
  apply (skip_to _ _ _ [v1; v2] _ 8 (s + 48)) in H; [|done|cbn; lia|regs; lia].
  intros r. refine (eq_trans (iret_sim _ _ _ _ _ _ _ _ H r) _). rewrite Hds. destruct r; regs; try done; lia.
Qed.

(** The check and the way back. *)
Lemma finish_sim c b f sp v1 v2 x0 x1 x2 w l :
  rg c EBX = b → 4 ≤ b → b + 4 * Z.of_nat (length (saved f sp ++ v1 :: v2 :: x0 :: x1 :: x2 :: w :: l)) ≤ 2 ^ 32 →
  stack (mm c) b (saved f sp ++ v1 :: v2 :: x0 :: x1 :: x2 :: w :: l) →
  if decide (f DS = 0x10 ∧ x1 = 0x08)
  then ∃ c', finish c = Resumed c' ∧ ∀ r, rg c' r =
    match r with
    | EIP => x0 | CS => x1 | EFLAGS => x2 | ESP => b + 56
    | DS | ES | FS | GS => f DS
    | _ => f r
    end
  else ∃ c', finish c = Halted c'.
Proof.
  intros Hb Hlo Hhi Hs. set (fr := saved f sp ++ _) in *. unfold finish.
  assert (sim 1 (exec [AddEsp 4; Mov ESP EBX] c) (rg (exec [AddEsp 4; Mov ESP EBX] c)) fr) as H0.
  { unfold exec. cbn [foldl step]. unfold add_esp. cbn [rg mm].
    assert (set_reg ESP (set_reg ESP (u32 (rg c ESP + 4)) (rg c) EBX) (set_reg ESP (u32 (rg c ESP + 4)) (rg c)) ESP = b) as E by (by regs).
    split; cbn [rg mm]; rewrite ?E; try done; lia. }
  set (c0 := exec [AddEsp 4; Mov ESP EBX] c) in *. assert (rg c0 ESP = b) as Esp by (unfold c0, exec; cbn; regs; done).
  change (exec check_ds c) with (step (Load EAX 4) (step (Push EAX) c0)).
  apply (pushr32_sim 0 _ _ _ EAX) in H0. apply (load32_sim _ _ _ _ EAX 4 1 (f DS)) in H0; [|done|done|done].
  rewrite (sm_regs _ _ _ _ H0). regs. destruct (Z.eqb_spec (f DS) 0x10) as [Hds|Hds]; cbn [negb].
  2: { rewrite decide_False by tauto. eauto. }
  change (exec check_cs ?c) with (step (Load EAX 52) c).
  apply (load32_sim _ _ _ _ EAX 52 13 x1) in H0; [|done|done|done].
  rewrite (sm_regs _ _ _ _ H0). regs. destruct (Z.eqb_spec x1 0x08) as [Hcs|Hcs]; cbn [negb].
  2: { rewrite decide_False by tauto. eauto. }
  rewrite decide_True by done. eexists. split; [reflexivity|]. intros r.
  rewrite (restore_sim _ _ _ _ _ _ _ _ _ _ _ _ _ H0 Hds). regs. rewrite Esp. by destruct r; try lia.
Qed.

(** ** Debugging output *)

Section output.
Context {K : Type} `{SK : Sink K}.
Implicit Types (k : K).

Lemma say_ok (format : string) args out k :
  forallb (λ b, (0 <? b) && (b <? 128)) (chars format) && (length (chars format) <=? 100)%nat = true →
  rendering (chars format) args = Some out → say format args k = emit out k.
Proof.
  intros Hc Hr. apply andb_true_iff in Hc as [Ha Hl]. apply Nat.leb_le in Hl. unfold say, mbind, M_bind.
  rewrite (printf_literal _ args out k); [|..|done|done].
  - unfold mbind, M_bind. by destruct (emit out k) as [[[] k']| | | |].
  - apply Forall_forall. intros b Hb. rewrite forallb_forall in Ha. specialize (Ha b (proj1 (list_elem_of_In _ _) Hb)).
    apply andb_true_iff in Ha as [H1 H2]. bprop. lia.
Qed.

Definition hex (v : Z) : list Z := numeral 16 (u32 v).
Definition dec (v : Z) : list Z := itoa_out (s32 v).
Definition flag_text (r : interrupt_context) (bit : Z) (name : string) : list Z :=
  if Z.testbit (x_eflags r) bit then chars name else [].

(** The dump of the registers. *)
Definition dump (r : interrupt_context) : list Z :=
  (chars "=== REGISTER DUMP ===" ++ [10]) ++
  (chars "DS: 0x" ++ hex (x_ds r) ++ [10]) ++ (chars "CS: 0x" ++ hex (x_cs r) ++ [10]) ++ (chars "SS: 0x" ++ hex (x_ss r) ++ [10]) ++
  (chars "EAX: 0x" ++ hex (x_eax r) ++ chars "  EBX: 0x" ++ hex (x_ebx r) ++
   chars "  ECX: 0x" ++ hex (x_ecx r) ++ chars "  EDX: 0x" ++ hex (x_edx r) ++ [10]) ++
  (chars "ESI: 0x" ++ hex (x_esi r) ++ chars "  EDI: 0x" ++ hex (x_edi r) ++
   chars "  EBP: 0x" ++ hex (x_ebp r) ++ chars "  ESP: 0x" ++ hex (x_esp r) ++ [10]) ++
  (chars "EIP: 0x" ++ hex (x_eip r) ++ chars "  EFLAGS: 0x" ++ hex (x_eflags r) ++ [10]) ++
  (chars "User ESP: 0x" ++ hex (x_useresp r) ++ [10]) ++
  (chars "Interrupt: " ++ dec (x_int_no r) ++ chars " (0x" ++ hex (x_int_no r) ++ chars ")") ++
  (if has_err_code (x_int_no r)
   then chars "  Error Code: " ++ dec (x_err_code r) ++ chars " (0x" ++ hex (x_err_code r) ++ chars ")" else []) ++ [10] ++
  chars "EFLAGS bits: " ++
  flag_text r 0 "CF " ++ flag_text r 2 "PF " ++ flag_text r 4 "AF " ++ flag_text r 6 "ZF " ++ flag_text r 7 "SF " ++
  flag_text r 8 "TF " ++ flag_text r 9 "IF " ++ flag_text r 10 "DF " ++ flag_text r 11 "OF " ++ [10] ++
  chars "==================" ++ [10].

(** One more piece of the text. *)
Lemma piece (m m' : M K unit) l l' k :
  (∀ k, m k = emit l k) → (∀ k, m' k = emit l' k) → (m ;; m') k = emit (l ++ l') k.
Proof. intros H H'. rewrite emit_app. by apply bind_ext. Qed.

Lemma say_flag r bit name k :
  0 ≤ bit → forallb (λ b, (0 <? b) && (b <? 128)) (chars name) && (length (chars name) <=? 100)%nat = true →
  rendering (chars name) [] = Some (chars name) →
  when (nz (x_eflags r .& (1 .<< bit))) (say name []) k = emit (flag_text r bit name) k.
Proof.
  intros Hb Hc Hr. unfold flag_text. rewrite Z.shiftl_1_l, land_testbit_pow2 by done. destruct (Z.testbit _ _); [|done].
  by apply say_ok.
Qed.

Lemma debug_print_ok r k : debug_print_registers r k = emit (dump r) k.
Proof.
  unfold debug_print_registers, dump. cbv zeta.
  assert (∀ k, when (has_err_code (x_int_no r)) (say "  Error Code: %d (0x%x)" [x_err_code r; x_err_code r]) k =
    emit (if has_err_code (x_int_no r)
      then chars "  Error Code: " ++ dec (x_err_code r) ++ chars " (0x" ++ hex (x_err_code r) ++ chars ")" else []) k) as He.
  { intros k'. destruct (has_err_code _); [by apply say_ok|done]. }
  repeat (apply piece; [intros ?; first [by apply say_ok | by apply say_flag | apply He]|intros ?]).
  by apply say_ok.
Qed.
End output.

(** ** Tables *)

(** What the processor makes of a segment descriptor. *)
Record segment := Segment { sg_base : Z; sg_limit : Z; sg_present : bool; sg_dpl : Z; sg_code : bool; sg_32 : bool }.

Definition decode_gdt (e : gdt_entry) : segment :=
  Segment (base_low e + 2 ^ 16 * base_middle e + 2 ^ 24 * base_high e)
    (let l := limit_low e + 2 ^ 16 * (granularity e mod 16) in
     if Z.testbit (granularity e) 7 then l * 2 ^ 12 + (2 ^ 12 - 1) else l)
    (Z.testbit (access e) 7) (access e / 2 ^ 5 mod 4) (Z.testbit (access e) 3) (Z.testbit (granularity e) 6).

Lemma set_descriptors_lookup n : ∀ i stub idt j,
  length idt = 256%nat → (i + n ≤ 256)%nat →
  set_descriptors n i stub idt !! j =
    if decide (i ≤ j < i + n)%nat
    then Some (IdtEntry (stub (Z.of_nat j) .& 0xFFFF) 0x08 0 0x8E (stub (Z.of_nat j) .>> 16))
    else idt !! j.
Proof.
  induction n as [|n IH]; intros i stub idt j Hl Hn; cbn [set_descriptors].
  - by rewrite decide_False by lia.
  - rewrite IH by (unfold idt_set_descriptor; rewrite ?length_insert; lia). unfold idt_set_descriptor.
    destruct (decide (j = i)) as [->|Hne].
    + rewrite decide_False, decide_True by lia. apply list_lookup_insert_eq. lia.
    + rewrite list_lookup_insert_ne by done. destruct (decide _), (decide _); try lia; done.
Qed.

Definition the_idt (stub : Z → Z) : list idt_entry :=
  set_descriptors NUM_ISR_STUBS 0 stub (replicate IDT_MAX_DESCRIPTORS (IdtEntry 0 0 0 0 0)).

Lemma the_idt_gate stub n :
  (∀ i, 0 ≤ i < 48 → 0 ≤ stub i < 2 ^ 32) → 0 ≤ n < 256 →
  the_idt stub !! Z.to_nat n ≫= gate = if decide (n < 48) then Some (stub n, 0x08) else None.
Proof.
  intros Hs Hn. unfold the_idt. rewrite set_descriptors_lookup by (rewrite ?length_replicate; lia).
  destruct (decide (n < 48)) as [Hlt|Hge].
  - rewrite decide_True by lia. cbn. rewrite Z2Nat.id by lia. do 2 f_equal. change 0xFFFF with (Z.ones 16).
    rewrite Z.land_ones, Z.shiftr_div_pow2 by lia. pose proof (Z.div_mod (stub n) (2 ^ 16) ltac:(lia)). lia.
  - rewrite decide_False by lia. rewrite lookup_replicate_2 by lia. done.
Qed.

(** ** Interrupts *)

Section interrupt.
Context {K : Type} `{SK : Sink K} (compiled : cpu → cpu) (code : Z → list instr) (stub : Z → Z).

(** What the calling convention promises of the C code: EBX is preserved, and the words of the interrupt's frame, the 16
    from EBX on, are not written. *)
Definition cdecl (k : Z) : Prop := ∀ c,
  rg (compiled c) EBX = rg c EBX ∧
  ∀ a, rg c EBX ≤ a < rg c EBX + 4 * k → word (mm (compiled c)) a = word (mm c) a.

(** Where the linker put the stubs. *)
Definition linked : Prop :=
  ∀ n, 0 ≤ n < 48 → 0 ≤ stub n < 2 ^ 32 ∧ code (stub n) = isr_stub n ++ isr_save ++ isr_align.

(** The struct for an interrupt: the last two words are those on top of the interrupted stack. *)
Definition context_of (c : cpu) (n e : Z) : interrupt_context :=
  let f := rg c in
  InterruptContext (f DS) (f EDI) (f ESI) (f EBP) (f ESP - 20) (f EBX) (f EDX) (f ECX) (f EAX) n e
    (f EIP) (f CS) (f EFLAGS) (word (mm c) (f ESP)) (word (mm c) (f ESP + 4)).

(** The frame from the struct's error code up. *)
Definition frame (n err : Z) (c : cpu) : list Z :=
  (if pushes_error n then [err] else []) ++ [rg c EIP; rg c CS; rg c EFLAGS; word (mm c) (rg c ESP); word (mm c) (rg c ESP + 4)].

Lemma deliver32_sim n err c :
  linked → 0 ≤ n < 48 → 0x100 ≤ rg c ESP ≤ 2 ^ 32 - 8 →
  ∃ c1 f, deliver (the_idt stub) n err c = Some c1 ∧ rg c1 EIP = stub n ∧ sim 40 c1 f (frame n err c) ∧
    f ESP = rg c ESP - (if pushes_error n then 16 else 12) ∧
    (∀ r, r ∉ [ESP; EIP; CS; EFLAGS] → f r = rg c r).
Proof using Type.
  intros Hl Hn Hsp. unfold deliver. rewrite the_idt_gate; [|intros i Hi; by apply Hl|lia].
  rewrite decide_True by lia. cbv zeta.
  assert (sim 44 c (rg c) [word (mm c) (rg c ESP); word (mm c) (rg c ESP + 4)]) as H0.
  { split; [done|done|lia|cbn; lia]. }
  apply (push32_sim _ _ _ _ (rg c EFLAGS)) in H0. apply (push32_sim _ _ _ _ (rg c CS)) in H0. apply (push32_sim _ _ _ _ (rg c EIP)) in H0.
  set (c3 := push_word (rg c EIP) _) in *.
  assert (∃ f, sim 40 (if pushes_error n then push_word err c3 else c3) f (frame n err c) ∧
    f ESP = rg c ESP - (if pushes_error n then 16 else 12) ∧ ∀ r, r ≠ ESP → f r = rg c r) as (f & H1 & Esp & Hf).
  { unfold frame. destruct (pushes_error n).
    - apply (push32_sim _ _ _ _ err) in H0. eexists. split; [exact H0|]. split; [regs; lia|]. intros r Hr. by rewrite !set_reg32_ne.
    - eexists. split; [eapply sim32_less; [exact H0|lia]|]. split; [regs; lia|]. intros r Hr. by rewrite !set_reg32_ne. }
  set (c4 := if pushes_error n then push_word err c3 else c3) in *.
  apply (put32_sim _ _ _ _ EFLAGS (Z.ldiff (rg c EFLAGS) (1 .<< 9))) in H1; [|done].
  apply (put32_sim _ _ _ _ CS 0x08) in H1; [|done]. apply (put32_sim _ _ _ _ EIP (stub n)) in H1; [|done].
  eexists _, _. split; [reflexivity|]. split; [by regs|]. split; [exact H1|]. split; [by regs|].
  intros r Hr. rewrite !not_elem_of_cons in Hr. destruct Hr as (? & ? & ? & ? & _). rewrite !set_reg32_ne by done. by apply Hf.
Qed.

(** The stub's own pushes. *)
Lemma stub32_sim n c f l :
  sim 40 c f l → ∃ f', sim 38 (exec (isr_stub n) c) f' (if is_err_stub n then n :: l else n :: 0 :: l) ∧
    f' ESP = f ESP - (if is_err_stub n then 4 else 8) ∧ (∀ r, r ∉ [ESP; EFLAGS] → f' r = f r).
Proof using Type.
  intros H. apply (put32_sim _ _ _ _ EFLAGS (Z.ldiff (rg c EFLAGS) (1 .<< 9))) in H; [|done].
  unfold isr_stub. destruct (is_err_stub n).
  - apply (push32_sim 39 _ _ _ n) in H. eexists. split; [eapply sim32_less; [exact H|lia]|]. split; [regs; lia|].
    intros r Hr. rewrite !not_elem_of_cons in Hr. destruct Hr as (? & ? & _). by rewrite !set_reg32_ne.
  - apply (push32_sim 39 _ _ _ 0) in H. apply (push32_sim 38 _ _ _ n) in H. eexists. split; [exact H|]. split; [regs; lia|].
    intros r Hr. rewrite !not_elem_of_cons in Hr. destruct Hr as (? & ? & _). by rewrite !set_reg32_ne.
Qed.

Lemma ld_context32 m p f sp n e x0 x1 x2 w0 w1 :
  0 ≤ p → p + 64 ≤ 2 ^ 32 → stack m p (saved f sp ++ [n; e; x0; x1; x2; w0; w1]) →
  ld_context m p = InterruptContext (f DS) (f EDI) (f ESI) (f EBP) sp (f EBX) (f EDX) (f ECX) (f EAX) n e x0 x1 x2 w0 w1.
Proof using Type.
  intros Hp Hp' H. assert (∀ i v, (saved f sp ++ [n; e; x0; x1; x2; w0; w1]) !! i = Some v →
    word m (u32 (p + 4 * Z.of_nat i)) = v) as Hf.
  { intros i v Hi. pose proof (lookup_lt_Some _ _ _ Hi) as Hl. cbn in Hl. rewrite wrap_small by lia.
    by apply (stack32_lookup m p _ i v H). }
  unfold ld_context. cbv zeta.
  f_equal; match goal with |- word _ (u32 (_ + 4 * ?k)) = _ => exact (Hf (Z.to_nat k) _ eq_refl) end.
Qed.

Lemma saved_ext32 f g sp : (∀ r, r ∉ [ESP; EIP; CS; EFLAGS] → f r = g r) → saved f sp = saved g sp.
Proof using Type. intros H. unfold saved. rewrite !H by by_decide. done. Qed.

(** Up to the call of the handler. *)
Lemma enter_ok n err c :
  linked → 0 ≤ n < 48 → n ≠ 21 → n ≠ 29 → 0x100 ≤ rg c ESP ≤ 2 ^ 32 - 8 → 0 ≤ rg c DS < 2 ^ 16 →
  let e := if pushes_error n then err else 0 in
  ∃ c1, deliver (the_idt stub) n err c = Some c1 ∧
    let c2 := exec (code (rg c1 EIP)) c1 in
    ld_context (mm c2) (word (mm c2) (rg c2 ESP)) = context_of c n e ∧
    rg c2 EBX = rg c ESP - 56 ∧
    stack (mm c2) (rg c ESP - 56) (saved (rg c) (rg c ESP - 20) ++
      [n; e; rg c EIP; rg c CS; rg c EFLAGS; word (mm c) (rg c ESP); word (mm c) (rg c ESP + 4)]).
Proof using compiled.
  intros Hl Hn H21 H29 Hsp Hds e. destruct (deliver32_sim n err c Hl Hn Hsp) as (c1 & f1 & Ed & Eip & S1 & E1 & F1).
  exists c1. split; [done|]. cbv zeta. rewrite Eip, (proj2 (Hl n Hn)). unfold exec. rewrite !foldl_app.
  fold (exec (isr_stub n) c1). destruct (stub32_sim n c1 f1 _ S1) as (f2 & S2 & E2 & F2).
  rewrite stubs32_agree in S2, E2 by done.
  assert ((if pushes_error n then n :: frame n err c else n :: 0 :: frame n err c) =
    [n; e; rg c EIP; rg c CS; rg c EFLAGS; word (mm c) (rg c ESP); word (mm c) (rg c ESP + 4)]) as Efr.
  { unfold frame, e. by destruct (pushes_error n). }
  rewrite Efr in S2. set (fr := [n; e; _; _; _; _; _]) in *.
  assert (f2 ESP = rg c ESP - 20) as Esp2 by (destruct (pushes_error n); lia).
  assert (∀ r, r ∉ [ESP; EIP; CS; EFLAGS] → f2 r = rg c r) as Hf2.
  { intros r Hr. rewrite F2, F1; [done|done|]. intros Hin. apply Hr. rewrite !elem_of_cons in *. tauto. }
  fold (exec isr_save (exec (isr_stub n) c1)).
  destruct (save_sim 29 _ f2 fr S2) as (f3 & S3 & Ebx & E3); [by rewrite Hf2 by by_decide|].
  rewrite Esp2, (saved_ext32 f2 (rg c)) in S3 by done. fold (exec isr_align (exec isr_save (exec (isr_stub n) c1))).
  destruct (align_ok 21 _ f3 _ _ S3 Ebx) as (A1 & A2 & A3). rewrite Ebx, E3, Esp2 in A1, A2, A3.
  replace (rg c ESP - 20 - 36) with (rg c ESP - 56) in * by lia.
  split; [|by split]. rewrite A1. by apply ld_context32; [lia|lia|].
Qed.

(** The table after calls of [register_interrupt_handler], in this order, and the handler registered last for a vector. *)
Definition table_of (rs : list (Z * isr_t (K := K))) : handlers := foldl (λ t r, register_interrupt_handler r.1 r.2 t) ∅ rs.
Definition handler_of (rs : list (Z * isr_t (K := K))) (n : Z) : option isr_t := snd <$> last (filter (λ r, r.1 mod 256 = n) rs).

Lemma table_of_lookup32 rs n : table_of rs !! n = handler_of rs n.
Proof using Type. exact (last_registered rs n). Qed.

End interrupt.

(** The tables and the interrupt controller: five flat segments with the privilege and size they are meant to have; the
    gates of the 48 vectors lead to their stubs through the kernel's code segment, and no other vector has one; the
    controllers are told to use the vectors from 32 and from 40 on, and only the timer, the keyboard and the cascade are
    left enabled. *)
Theorem tables32_ok `{HW : Hardware} stub n s :
  (∀ i, 0 ≤ i < 48 → 0 ≤ stub i < 2 ^ 32) → 0 ≤ n < 256 →
  wp (init_descriptor_tables stub) (λ r s',
    decode_gdt <$> r.1 = [Segment 0 0 false 0 false false; Segment 0 0xFFFFFFFF true 0 true true;
      Segment 0 0xFFFFFFFF true 0 false true; Segment 0 0xFFFFFFFF true 3 true true; Segment 0 0xFFFFFFFF true 3 false true] ∧
    r.2 !! Z.to_nat n ≫= gate = (if decide (n < 48) then Some (stub n, 0x08) else None) ∧
    io_out s' = io_out s ++ [(1, 0x20, 0x11); (1, 0xA0, 0x11); (1, 0x21, 32); (1, 0xA1, 40); (1, 0x21, 0x04); (1, 0xA1, 0x02);
      (1, 0x21, 0x01); (1, 0xA1, 0x01); (1, 0x21, 0xF8); (1, 0xA1, 0xFF)]) s.
Proof.
  intros Hs Hn. unfold init_descriptor_tables, init_idt. fold (the_idt stub). eapply wp_intro; [reflexivity|]. cbn [fst snd].
  split; [by vm_compute|]. split; [by apply the_idt_gate|]. cbn [io_out]. by rewrite <- !app_assoc.
Qed.

(** ** The screen's memory *)

Record screen_ok (s : screen) : Prop := {
  so_cells : len (sc_cells s) = 80 * 25;
  so_cursor : 0 ≤ sc_cursor s < 80 * 25;
}.

Lemma vga_putchar_safe c s : screen_ok s → wp (vga_putchar c) (λ _ s', screen_ok s') s.
Proof.
  intros [Hl Hc]. unfold vga_putchar. apply wp_bind.
  assert (∀ s1, len (sc_cells s1) = 80 * 25 → 0 ≤ sc_cursor s1 →
    wp (s ← get; when (80 * 25 <=? sc_cursor s) (modify (λ s, Screen (sc_cells s) 0))) (λ _ s', screen_ok s') s1) as Hwrap.
  { intros s1 H1 H2. apply wp_bind. eapply wp_intro; [reflexivity|]. unfold when. destruct (Z.leb_spec (80 * 25) (sc_cursor s1)).
    - eapply wp_intro; [reflexivity|]. by split.
    - apply wp_ret. by split. }
  destruct (c =? 10).
  - eapply wp_intro; [reflexivity|]. apply Hwrap; cbn; [done|]. rewrite Z.quot_div_nonneg by lia.
    pose proof (Z.div_pos (sc_cursor s) 80 ltac:(lia) ltac:(lia)). lia.
  - apply wp_bind. eapply wp_intro; [reflexivity|]. apply wp_bind. eapply wp_intro; [reflexivity|].
    unfold wp, st_cell. cbn [sc_cells sc_cursor]. rewrite Hl, (proj2 (Z.leb_le _ _)), (proj2 (Z.ltb_lt _ _)) by lia. cbn [andb].
    apply Hwrap; cbn; [by rewrite length_upd|lia].
Qed.

(** Printing on the screen's memory stays on the screen, whatever is printed. *)
Theorem vga_print_safe l v s :
  screen_ok s → wp (vga_print l ;; vga_print_hex v) (λ _ s', screen_ok s') s.
Proof.
  assert (∀ l s, screen_ok s → wp (vga_print l) (λ _ s', screen_ok s') s) as Hp.
  { clear. induction l as [|c l IH]; intros s Hs; cbn [vga_print]; [by apply wp_ret|].
    eapply wp_bind_mono; [by apply vga_putchar_safe|]. cbv beta. intros _ s1 H1. by apply IH. }
  intros Hs. eapply wp_bind_mono; [by apply Hp|]. cbv beta. intros _ s1 H1. unfold vga_print_hex.
  eapply wp_bind_mono; [by apply Hp|]. cbv beta. intros _ s2 H2.
  apply (wp_for_up 8 0 _ (λ _ s', screen_ok s')); [done|]. intros j s3 _ H3. by apply vga_putchar_safe.
Qed.

(** ** A concrete machine *)

Module ExIrq32.
Definition stub (n : Z) : Z := 0x100000 + 16 * n.
Definition code (a : Z) : list instr := isr_stub ((a - 0x100000) / 16) ++ isr_save ++ isr_align.
(** C code that clobbers a register. *)
Definition compiled (c : cpu) : cpu := Cpu (set_reg EAX 77 (rg c)) (mm c).
Definition regs (r : reg) : Z := match r with ESP => 0x90000 | DS => 0x10 | CS => 0x08 | EIP => 0x1234 | _ => 5 end.
Definition machine : cpu := Cpu regs ∅.
(** A handler that records the vector, registered after another one for the same vector. *)
Definition registered : list (Z * isr_t (K := list Z)) := [(33, λ _, mret tt); (33, λ ctx, modify (cons (x_int_no ctx)))].

Lemma links32 : linked code stub.
Proof.
  intros n Hn. unfold stub, code. split; [lia|]. replace (0x100000 + 16 * n - 0x100000) with (n * 16) by lia. by rewrite Z.div_mul.
Qed.
Lemma keeps32 k : cdecl compiled k.
Proof. by intros c. Qed.
End ExIrq32.
Import ExIrq32.

