(* ===== verification/Trees.v ===== *)
(** * Binary trees with parent pointers ([libc/datastructures/trees/include]: [node.h],
      [rotate.c], [traversals.c])

    Nodes live in a heap of structs at their addresses; 0 is the null pointer. *)

From S2P Require Import Prelude.

(* src/libc/datastructures/trees/include/node.h 8-10 tree *)
Record node := Node { n_parent : Z; n_left : Z; n_right : Z }.

(** The heap, and the nodes a traversal has called its function on. *)
Record trees := Trees { t_heap : gmap Z node; t_visited : list Z }.

Definition set_heap (h : gmap Z node) (s : trees) : trees := Trees h (t_visited s).

(** [*p], and a store to one of its fields. *)
Definition ldn (p : Z) : M trees node := λ s,
  match t_heap s !! p with Some n => Ok (n, s) | None => Fault p end.
Definition stn (p : Z) (f : node → node) : M trees unit := λ s,
  match t_heap s !! p with Some n => Ok (tt, set_heap (<[p := f n]> (t_heap s)) s) | None => Fault p end.

Definition set_parent (v : Z) (n : node) : node := Node v (n_left n) (n_right n).
Definition set_left (v : Z) (n : node) : node := Node (n_parent n) v (n_right n).
Definition set_right (v : Z) (n : node) : node := Node (n_parent n) (n_left n) v.

(* src/libc/datastructures/trees/include/rotate.c 10-33 left_rotate *)
Definition left_rotate (n : Z) : M trees Z :=
  if n =? 0 then mret (-1) else
  m ← (c ← ldn n; mret (n_right c));
  if m =? 0 then mret (-1) else
  cm ← ldn m;
  stn n (set_right (n_left cm)) ;;
  cn ← ldn n;
  when (nz (n_right cn)) (stn (n_right cn) (set_parent n)) ;;
  cn ← ldn n;
  stn m (set_parent (n_parent cn)) ;;
  cn ← ldn n;
  when (nz (n_parent cn)) (
    cp ← ldn (n_parent cn);
    if n =? n_left cp then stn (n_parent cn) (set_left m) else stn (n_parent cn) (set_right m)) ;;
  stn m (set_left n) ;;
  stn n (set_parent m) ;;
  mret 0.

(* src/libc/datastructures/trees/include/rotate.c 42-65 right_rotate *)
Definition right_rotate (n : Z) : M trees Z :=
  if n =? 0 then mret (-1) else
  m ← (c ← ldn n; mret (n_left c));
  if m =? 0 then mret (-1) else
  cm ← ldn m;
  stn n (set_left (n_right cm)) ;;
  cn ← ldn n;
  when (nz (n_left cn)) (stn (n_left cn) (set_parent n)) ;;
  cn ← ldn n;
  stn m (set_parent (n_parent cn)) ;;
  cn ← ldn n;
  when (nz (n_parent cn)) (
    cp ← ldn (n_parent cn);
    if n =? n_left cp then cm ← ldn m; stn (n_parent cn) (set_left (n_left cm)) else stn (n_parent cn) (set_right m)) ;;
  stn m (set_right n) ;;
  stn n (set_parent m) ;;
  mret 0.

(** [func(root)]: the function is told the node. *)
Definition func (root : Z) : M trees unit := modify (λ s, Trees (t_heap s) (t_visited s ++ [root])).

(* src/libc/datastructures/trees/include/traversals.c 12-25 do_preorder *)
Fixpoint do_preorder (fuel : nat) (root : Z) : M trees Z :=
  if root =? 0 then mret 1 else
  match fuel with
  | O => out_of_fuel
  | S fuel =>
      func root ;;
      c ← ldn root;
      when (negb (n_left c =? root)) (_ ← do_preorder fuel (n_left c); mret tt) ;;
      when (negb (n_right c =? root)) (_ ← do_preorder fuel (n_right c); mret tt) ;;
      mret 0
  end.

(* src/libc/datastructures/trees/include/traversals.c 27-41 do_inorder *)
Fixpoint do_inorder (fuel : nat) (root : Z) : M trees Z :=
  if root =? 0 then mret 1 else
  match fuel with
  | O => out_of_fuel
  | S fuel =>
      c ← ldn root;
      when (nz (n_left c) && negb (n_left c =? root)) (_ ← do_inorder fuel (n_left c); mret tt) ;;
      func root ;;
      when (nz (n_right c) && negb (n_left c =? root)) (_ ← do_inorder fuel (n_right c); mret tt) ;;
      mret 0
  end.

(* src/libc/datastructures/trees/include/traversals.c 43-56 do_postorder *)
Fixpoint do_postorder (fuel : nat) (root : Z) : M trees Z :=
  if root =? 0 then mret 1 else
  match fuel with
  | O => out_of_fuel
  | S fuel =>
      c ← ldn root;
      when (nz (n_left c) && negb (n_left c =? root)) (_ ← do_postorder fuel (n_left c); mret tt) ;;
      when (nz (n_right c) && negb (n_right c =? root)) (_ ← do_postorder fuel (n_right c); mret tt) ;;
      func root ;;
      mret 0
  end.

(** [while (i->left && i->left != i) i = i->left] *)
Fixpoint leftmost (fuel : nat) (i : Z) : M trees Z :=
  c ← ldn i;
  if nz (n_left c) && negb (n_left c =? i) then
    match fuel with O => out_of_fuel | S fuel => leftmost fuel (n_left c) end
  else mret i.

(** [while (i->parent && i->parent != i) { if (i == i->parent->left) return i->parent; i = i->parent; }] *)
Fixpoint climb (fuel : nat) (i : Z) : M trees Z :=
  c ← ldn i;
  if nz (n_parent c) && negb (n_parent c =? i) then
    cp ← ldn (n_parent c);
    if i =? n_left cp then mret (n_parent c) else
    match fuel with O => out_of_fuel | S fuel => climb fuel (n_parent c) end
  else mret 0.

(* src/libc/datastructures/trees/include/traversals.c 58-77 inorder_successor *)
Definition inorder_successor (fuel : nat) (node : Z) : M trees Z :=
  c ← ldn node;
  if nz (n_right c) && negb (n_right c =? node) then leftmost fuel (n_right c) else climb fuel node.

(** * The theorems about binary trees *)

(** ** Trees in the heap *)

Inductive btree := Leaf | Br (l : btree) (a : Z) (r : btree).

Fixpoint inorder (t : btree) : list Z := match t with Leaf => [] | Br l a r => inorder l ++ a :: inorder r end.
Fixpoint preorder (t : btree) : list Z := match t with Leaf => [] | Br l a r => a :: preorder l ++ preorder r end.
Fixpoint postorder (t : btree) : list Z := match t with Leaf => [] | Br l a r => postorder l ++ postorder r ++ [a] end.
Fixpoint depth (t : btree) : nat := match t with Leaf => 0 | Br l _ r => S (depth l `max` depth r) end.
#[export] Instance btree_eq_dec : EqDecision btree.
Proof. solve_decision. Defined.
Definition root (t : btree) : Z := match t with Leaf => 0 | Br _ a _ => a end.

Implicit Types (h : gmap Z node) (t l r : btree) (s : trees).

(** The nodes of [t] are in the heap, linked to each other and to the parent [par]. *)
Fixpoint rep h (par : Z) t : Prop :=
  match t with
  | Leaf => True
  | Br l a r => a ≠ 0 ∧ h !! a = Some (Node par (root l) (root r)) ∧ rep h a l ∧ rep h a r
  end.

#[export] Instance node_eq_dec : EqDecision node.
Proof. solve_decision. Defined.
#[export] Instance rep_dec h par t : Decision (rep h par t).
Proof. revert par. induction t as [|l IHl a r IHr]; intros par; cbn [rep]; apply _. Defined.

Lemma rep_frame h h' par t : (∀ a, a ∈ inorder t → h' !! a = h !! a) → rep h par t → rep h' par t.
Proof.
  revert par. induction t as [|l IHl a r IHr]; intros par He; [done|]. cbn [rep inorder] in *. intros (Ha & E & Hl & Hr).
  split; [done|]. split; [by rewrite He by set_solver|].
  split; [apply IHl; [|done]|apply IHr; [|done]]; intros b Hb; apply He; set_solver.
Qed.

Lemma root_in t : t ≠ Leaf → root t ∈ inorder t.
Proof. destruct t; [done|]. intros _. cbn. set_solver. Qed.

Lemma root_0 h par t : rep h par t → root t = 0 → t = Leaf.
Proof. destruct t; [done|]. by intros (Ha & _) E. Qed.

Lemma root_cases h par t : rep h par t → root t = 0 ∨ root t ∈ inorder t.
Proof. intros Ht. destruct t; [by left|right; by apply root_in]. Qed.

(** A node of the tree: its neighbours are in the tree, except for the root's parent. *)
Lemma rep_node h par t x : rep h par t → x ∈ inorder t →
  ∃ c, h !! x = Some c ∧ x ≠ 0 ∧ (n_left c = 0 ∨ n_left c ∈ inorder t) ∧ (n_right c = 0 ∨ n_right c ∈ inorder t) ∧
    ((root t = x ∧ n_parent c = par) ∨ n_parent c ∈ inorder t).
Proof.
  revert par. induction t as [|l IHl a r IHr]; intros par; [by intros _ ?%not_elem_of_nil|].
  cbn [rep inorder root]. intros (Ha & E & Hl & Hr) [Hx|[->|Hx]%elem_of_cons]%elem_of_app.
  - destruct (IHl a Hl Hx) as (c & Ec & H0 & H1 & H2 & H3). exists c. split; [done|]. split; [done|].
    split; [set_solver|]. split; [set_solver|]. destruct H3 as [[_ ->]|]; set_solver.
  - exists (Node par (root l) (root r)). split; [done|]. split; [done|]. cbn.
    destruct (root_cases _ _ _ Hl), (root_cases _ _ _ Hr); set_solver.
  - destruct (IHr a Hr Hx) as (c & Ec & H0 & H1 & H2 & H3). exists c. split; [done|]. split; [done|].
    split; [set_solver|]. split; [set_solver|]. destruct H3 as [[_ ->]|]; set_solver.
Qed.

(** ** Rotations *)

Fixpoint rotl (n : Z) t : btree :=
  match t with
  | Leaf => Leaf
  | Br l a r =>
      if a =? n then match r with Br b m c => Br (Br l a b) m c | Leaf => t end
      else Br (rotl n l) a (rotl n r)
  end.

Lemma inorder_rotl n t : inorder (rotl n t) = inorder t.
Proof.
  induction t as [|l IHl a r IHr]; [done|]. cbn [rotl inorder]. destruct (a =? n).
  - destruct r as [|b m c]; [done|]. cbn. by rewrite <- app_assoc.
  - cbn. by rewrite IHl, IHr.
Qed.

Lemma rotl_out n t : n ∉ inorder t → rotl n t = t.
Proof.
  induction t as [|l IHl a r IHr]; [done|]. cbn [rotl inorder]. rewrite elem_of_app, elem_of_cons. intros H.
  rewrite (proj2 (Z.eqb_neq a n)) by (intros ->; tauto). rewrite IHl, IHr; tauto.
Qed.

Lemma nodup_br l a r : NoDup (inorder (Br l a r)) →
  NoDup (inorder l) ∧ NoDup (inorder r) ∧ (a ∉ inorder l) ∧ (a ∉ inorder r) ∧ (∀ b, b ∈ inorder l → b ∈ inorder r → False).
Proof.
  cbn. intros (Hl & Hd & Hc)%NoDup_app. apply NoDup_cons in Hc as [Ha Hr]. split; [done|]. split; [done|].
  split; [intros H; apply (Hd _ H); left|]. split; [done|]. intros b H H'. apply (Hd _ H). by right.
Qed.

(** A node is rotated unless it has no right child. *)
Lemma rotl_same h par t x cx :
  rep h par t → NoDup (inorder t) → x ∈ inorder t → h !! x = Some cx → rotl x t = t ↔ n_right cx = 0.
Proof.
  revert par. induction t as [|l IHl a r IHr]; intros par; [by intros _ _ ?%not_elem_of_nil|].
  intros (Ha & Ea & Hl & Hr) Hnd Hx Ex. pose proof (nodup_br _ _ _ Hnd) as (Hndl & Hndr & Hal & Har & Hlr).
  cbn [inorder] in Hx. rewrite elem_of_app, elem_of_cons in Hx. cbn [rotl]. destruct (Z.eqb_spec a x) as [->|Hne].
  - rewrite Ea in Ex. injection Ex as <-. cbn. destruct r as [|b m c]; [done|]. destruct Hr as (Hm & _). cbn.
    split; [|done]. intros [= E _ _]. apply (f_equal (length ∘ inorder)) in E. cbn in E. rewrite length_app in E. cbn in E. lia.
  - destruct Hx as [Hx|[Hx|Hx]]; [|done|].
    + rewrite (rotl_out x r) by (intros Hx'; by apply (Hlr x)). rewrite <- (IHl a Hl Hndl Hx Ex).
      split; [by intros [=]|by intros ->].
    + rewrite (rotl_out x l) by (intros Hx'; by apply (Hlr x)). rewrite <- (IHr a Hr Hndr Hx Ex).
      split; [by intros [=]|by intros ->].
Qed.

(** The parent's link to [x] leads to [y]. *)
Definition relink (x y : Z) (c : node) : node :=
  if x =? n_left c then set_left y c else set_right y c.

(** What a left rotation at [x] with the right child [y] does to the heap. *)
Record rotated h h' (x y : Z) (cx cy : node) : Prop := {
  ro_x : h' !! x = Some (Node y (n_left cx) (n_left cy));
  ro_y : h' !! y = Some (Node (n_parent cx) x (n_right cy));
  ro_b : n_left cy ≠ 0 → h' !! n_left cy = set_parent x <$> h !! n_left cy;
  ro_p : n_parent cx ≠ 0 → h' !! n_parent cx = relink x y <$> h !! n_parent cx;
  ro_other a : a ≠ x → a ≠ y → a ≠ n_left cy → a ≠ n_parent cx → h' !! a = h !! a;
}.

Lemma rep_reparent h h' par par' t :
  NoDup (inorder t) → rep h par t → (∀ a, a ∈ inorder t → a ≠ root t → h' !! a = h !! a) →
  (root t ≠ 0 → h' !! root t = set_parent par' <$> h !! root t) → rep h' par' t.
Proof.
  destruct t as [|l a r]; [done|]. cbn [rep root]. intros (_ & _ & Hal & Har & _)%nodup_br (Ha & E & Hl & Hr) Ho Hroot.
  split; [done|]. split; [rewrite Hroot, E by done; done|].
  split; (eapply rep_frame; [|done]); intros b Hb; apply Ho; cbn; try set_solver; by intros ->.
Qed.

Lemma rep_nz h par t x : rep h par t → x ∈ inorder t → x ≠ 0.
Proof. intros H Hx. by destruct (rep_node _ _ _ _ H Hx) as (c & _ & ? & _). Qed.

(** The rotation at the root of a subtree. *)
Lemma rotated_root h h' x y l b c par :
  rep h par (Br l x (Br b y c)) → NoDup (inorder (Br l x (Br b y c))) → par ∉ inorder (Br l x (Br b y c)) →
  rotated h h' x y (Node par (root l) y) (Node x (root b) (root c)) →
  rep h' par (Br (Br l x b) y c).
Proof.
  intros Ht Hnd Hpar [Rx Ry Rb _ Ro]. cbn [n_parent n_left n_right] in *.
  pose proof (nodup_br _ _ _ Hnd) as (Hndl & Hndr & Hal & Har & Hlr).
  pose proof (nodup_br _ _ _ Hndr) as (Hndb & Hndc & Hyb & Hyc & Hbc).
  destruct Ht as (Ha & Ea & Hl & Hy0 & Ey & Hb & Hc). cbn [inorder] in *.
  rewrite elem_of_app, elem_of_cons in Har. rewrite !elem_of_app, !elem_of_cons, elem_of_app, elem_of_cons in Hpar.
  assert (∀ d, d ∈ inorder l ∨ d ∈ inorder c → d ≠ x ∧ d ≠ y ∧ d ≠ root b ∧ d ≠ par) as Hlc.
  { intros d Hd. assert (d ≠ 0) as Hd0 by (destruct Hd as [Hd|Hd]; by eapply rep_nz; [|exact Hd]).
    assert (d ∉ inorder b) as Hdb.
    { intros Hd'. destruct Hd as [Hd|Hd]; [apply (Hlr d Hd); set_solver|by apply (Hbc d)]. }
    split; [intros ->; tauto|]. split; [intros ->; destruct Hd as [Hd|Hd]; [apply (Hlr y Hd); set_solver|done]|].
    split; [|intros ->; tauto]. intros ->. destruct (root_cases _ _ _ Hb); tauto. }
  cbn [rep root]. split_and!; try done.
  - eapply rep_frame; [|exact Hl]. intros d Hd. destruct (Hlc d ltac:(by left)) as (?&?&?&?). by apply Ro.
  - eapply rep_reparent; [done|exact Hb| |exact Rb]. intros d Hd Hne. apply Ro; try done; intros ->; tauto.
  - eapply rep_frame; [|exact Hc]. intros d Hd. destruct (Hlc d ltac:(by right)) as (?&?&?&?). by apply Ro.
Qed.

(** Where the nodes involved in a rotation are, seen from a subtree that contains [x]. *)
Lemma rotated_inside h h' x y cx cy t par d :
  h !! x = Some cx → n_right cx = y → y ≠ 0 → h !! y = Some cy → rotated h h' x y cx cy →
  rep h par t → x ∈ inorder t → d ∉ inorder t → d ≠ 0 → (root t = x → d ≠ par) → h' !! d = h !! d.
Proof.
  intros Ex Ey Hy0 Ecy R Ht Hx Hd Hd0 Hpar. destruct (rep_node _ _ _ _ Ht Hx) as (c & Ec & _ & _ & Hr & Hp).
  rewrite Ex in Ec. injection Ec as <-. rewrite Ey in Hr. destruct Hr as [?|Hr]; [done|].
  destruct (rep_node _ _ _ _ Ht Hr) as (c & Ec & _ & Hb & _). rewrite Ecy in Ec. injection Ec as <-.
  apply (ro_other _ _ _ _ _ _ R); try (intros ->; tauto).
Qed.

Lemma root_rotl x t : root t ≠ x → root (rotl x t) = root t.
Proof. destruct t as [|l a r]; [done|]. cbn. intros Hne. by rewrite (proj2 (Z.eqb_neq _ _) Hne). Qed.

Lemma root_rotl_here h par t x cx y :
  rep h par t → root t = x → x ≠ 0 → h !! x = Some cx → n_right cx = y → y ≠ 0 → root (rotl x t) = y.
Proof.
  destruct t as [|l a r]; [by intros _ <-|]. cbn [root rep rotl]. intros (_ & E & _) -> _ Ex Ey Hy. rewrite Z.eqb_refl.
  rewrite E in Ex. injection Ex as <-. destruct r; [by subst y|done].
Qed.

(** The heap after the rotation holds the rotated tree. *)
Lemma rotated_rep h h' x y cx cy t par :
  h !! x = Some cx → n_right cx = y → y ≠ 0 → h !! y = Some cy → rotated h h' x y cx cy →
  rep h par t → NoDup (inorder t) → par ∉ inorder t → x ∈ inorder t → rep h' par (rotl x t).
Proof.
  intros Ex Ey Hy0 Ecy R. revert par. induction t as [|l IHl a r IHr]; intros par; [by intros _ _ _ ?%not_elem_of_nil|].
  intros Ht Hnd Hpar Hx. pose proof (nodup_br _ _ _ Hnd) as (Hndl & Hndr & Hal & Har & Hlr).
  pose proof Ht as (Ha & Ea & Hl & Hr). cbn [rotl]. destruct (Z.eqb_spec a x) as [->|Hne].
  - rewrite Ea in Ex. injection Ex as <-. cbn in Ey. destruct r as [|b m c]; [by subst y|]. cbn in Ey. subst m.
    pose proof Hr as (_ & Eb & _). rewrite Eb in Ecy. injection Ecy as <-. by apply (rotated_root h h').
  - cbn [inorder] in Hx, Hpar. rewrite elem_of_app, elem_of_cons in Hx, Hpar. cbn [rep].
    assert (∀ t', (t' = l ∨ t' = r) → x ∈ inorder t' → h' !! a = (if root t' =? x then relink x y <$> h !! a else h !! a)) as Hnode.
    { intros t' Ht' Hx'. assert (rep h a t' ∧ (a ∉ inorder t')) as [Hrep Hat] by (destruct Ht' as [-> | ->]; done).
      destruct (Z.eqb_spec (root t') x) as [Ert|Ert].
      - destruct t' as [|l' x' r']; [by apply not_elem_of_nil in Hx'|]. cbn in Ert. subst x'.
        destruct Hrep as (_ & E' & _). rewrite Ex in E'. injection E' as ->. by apply (ro_p _ _ _ _ _ _ R).
      - by apply (rotated_inside h h' x y cx cy t' a a). }
    destruct Hx as [Hx|[Hx|Hx]]; [|done|].
    + rewrite (rotl_out x r) by (intros Hx'; by apply (Hlr x)). assert (x ≠ 0) as Hx0 by (by eapply rep_nz; [|exact Hx]).
      split; [done|]. split; [|split].
      * rewrite (Hnode l) by auto. rewrite Ea. destruct (Z.eqb_spec (root l) x) as [Er|Er].
        -- rewrite (root_rotl_here h a l x cx y) by done. cbn. unfold relink. cbn. by rewrite Er, Z.eqb_refl.
        -- by rewrite root_rotl.
      * by apply IHl.
      * eapply rep_frame; [|exact Hr]. intros d Hd. eapply (rotated_inside h h' x y cx cy l a); try done.
        -- intros Hd'. by apply (Hlr d).
        -- by eapply rep_nz.
        -- intros _ ->. done.
    + assert (x ∉ inorder l) as Hxl by (intros Hx'; by apply (Hlr x)). rewrite (rotl_out x l) by done.
      assert (x ≠ 0) as Hx0 by (by eapply rep_nz; [|exact Hx]).
      split; [done|]. split; [|split].
      * rewrite (Hnode r) by auto. rewrite Ea. destruct (Z.eqb_spec (root r) x) as [Er|Er].
        -- rewrite (root_rotl_here h a r x cx y) by done. cbn. unfold relink. cbn.
           rewrite (proj2 (Z.eqb_neq x (root l))); [done|]. intros ->. destruct (root_cases _ _ _ Hl); [|done]. by destruct l.
        -- by rewrite root_rotl.
      * eapply rep_frame; [|exact Hl]. intros d Hd. eapply (rotated_inside h h' x y cx cy r a); try done.
        -- intros Hd'. by apply (Hlr d).
        -- by eapply rep_nz; [|exact Hd].
        -- intros _ ->. done.
      * by apply IHr.
Qed.

(** The nodes involved are different. *)
Lemma rep_distinct h x y cx cy t par :
  h !! x = Some cx → n_right cx = y → y ≠ 0 → h !! y = Some cy →
  rep h par t → NoDup (inorder t) → par ∉ inorder t → x ∈ inorder t →
  x ≠ y ∧ n_left cy ≠ x ∧ n_left cy ≠ y ∧ n_parent cx ≠ x ∧ n_parent cx ≠ y ∧ (n_left cy ≠ 0 → n_left cy ≠ n_parent cx) ∧
  (n_left cy ≠ 0 → is_Some (h !! n_left cy)) ∧ (n_parent cx = par ∨ n_parent cx ∈ inorder t).
Proof.
  intros Ex Ey Hy0 Ecy. revert par. induction t as [|l IHl a r IHr]; intros par; [by intros _ _ _ ?%not_elem_of_nil|].
  intros Ht Hnd Hpar Hx. pose proof (nodup_br _ _ _ Hnd) as (Hndl & Hndr & Hal & Har & Hlr).
  destruct Ht as (Ha & Ea & Hl & Hr). cbn [inorder] in Hx, Hpar. rewrite elem_of_app, elem_of_cons in Hx, Hpar.
  destruct Hx as [Hx|[->|Hx]].
  - destruct (IHl a Hl Hndl Hal Hx) as (?&?&?&?&?&?&?&Hp). split_and!; try done. right. cbn. destruct Hp as [->|]; set_solver.
  - rewrite Ea in Ex. injection Ex as <-. cbn in Ey. destruct r as [|b m c]; [by subst y|]. cbn in Ey. subst m.
    destruct Hr as (_ & Eb & Hb & Hc). rewrite Eb in Ecy. injection Ecy as <-. cbn [inorder n_left n_right n_parent] in *.
    pose proof (nodup_br _ _ _ Hndr) as (_ & _ & Hyb & _ & _). rewrite elem_of_app, elem_of_cons in Har, Hpar.
    assert (root b = 0 ∨ root b ∈ inorder b) as Hrb by (by eapply root_cases).
    split; [intros ->; tauto|]. split; [intros E; rewrite E in Hrb; tauto|]. split; [intros E; rewrite E in Hrb; tauto|].
    split; [intros ->; tauto|]. split; [intros ->; tauto|]. split; [|split; [|by left]].
    + intros E E'. rewrite E' in *. tauto.
    + intros E. destruct Hrb as [?|Hrb]; [done|]. destruct (rep_node _ _ _ _ Hb Hrb) as (? & -> & _). eauto.
  - destruct (IHr a Hr Hndr Har Hx) as (?&?&?&?&?&?&?&Hp). split_and!; try done. right. cbn. destruct Hp as [->|]; set_solver.
Qed.

Lemma wp_ldn p (Q : node → trees → Prop) s c : t_heap s !! p = Some c → Q c s → wp (ldn p) Q s.
Proof. intros E HQ. unfold wp, ldn. by rewrite E. Qed.
Lemma wp_stn p f (Q : unit → trees → Prop) s c :
  t_heap s !! p = Some c → Q tt (set_heap (<[p := f c]> (t_heap s)) s) → wp (stn p f) Q s.
Proof. intros E HQ. unfold wp, stn. by rewrite E. Qed.

(** Look a node up in a heap that has been stored to. *)
Ltac heap := cbn [set_heap t_heap]; repeat first [rewrite lookup_insert_eq | rewrite lookup_insert_ne by congruence]; try done.

(** Both rotations: [gl], [sl] are the child that moves from [y] to [x], [gr], [sr] the child of [x] that is [y]; [link]
    is what is done to the parent. *)
Section rotation.
Context (gl gr : node → Z) (sl sr : Z → node → node) (x : Z) (link : Z → Z → node → M trees unit).

Definition rotate : M trees Z :=
  if x =? 0 then mret (-1) else
  m ← (c ← ldn x; mret (gr c));
  if m =? 0 then mret (-1) else
  cm ← ldn m;
  stn x (sr (gl cm)) ;;
  cn ← ldn x;
  when (nz (gr cn)) (stn (gr cn) (set_parent x)) ;;
  cn ← ldn x;
  stn m (set_parent (n_parent cn)) ;;
  cn ← ldn x;
  when (nz (n_parent cn)) (cp ← ldn (n_parent cn); link m (n_parent cn) cp) ;;
  stn m (sl x) ;;
  stn x (set_parent m) ;;
  mret 0.

Hypothesis sr_parent : ∀ v c, n_parent (sr v c) = n_parent c.
Hypothesis sr_get : ∀ v c, gr (sr v c) = v.

(** What the rotation does to the heap; [rl] is the change to the parent. *)
Record turned (rl : node → node) h h' (y : Z) (cx cy : node) : Prop := {
  tu_x : h' !! x = Some (set_parent y (sr (gl cy) cx));
  tu_y : h' !! y = Some (sl x (set_parent (n_parent cx) cy));
  tu_b : gl cy ≠ 0 → h' !! gl cy = set_parent x <$> h !! gl cy;
  tu_p : n_parent cx ≠ 0 → h' !! n_parent cx = rl <$> h !! n_parent cx;
  tu_other a : a ≠ x → a ≠ y → a ≠ gl cy → a ≠ n_parent cx → h' !! a = h !! a;
}.

Lemma rotate_heap rl s y cx cy :
  (∀ (u : trees) cp, t_heap u !! n_parent cx = Some cp → t_heap u !! y = Some (set_parent (n_parent cx) cy) →
     t_heap s !! n_parent cx = Some cp →
     wp (link y (n_parent cx) cp) (λ _ u', u' = set_heap (<[n_parent cx := rl cp]> (t_heap u)) u) u) →
  t_heap s !! x = Some cx → gr cx = y → x ≠ 0 → y ≠ 0 → t_heap s !! y = Some cy →
  x ≠ y → gl cy ≠ x → gl cy ≠ y → n_parent cx ≠ x → n_parent cx ≠ y → (gl cy ≠ 0 → gl cy ≠ n_parent cx) →
  (gl cy ≠ 0 → is_Some (t_heap s !! gl cy)) → (n_parent cx ≠ 0 → is_Some (t_heap s !! n_parent cx)) →
  wp rotate (λ v s', v = 0 ∧ t_visited s' = t_visited s ∧ turned rl (t_heap s) (t_heap s') y cx cy) s.
Proof using sr_parent sr_get.
  intros Hlink Ex Ey Hx0 Hy0 Ecy Hxy Hbx Hby Hpx Hpy Hbp Hb Hp. unfold rotate. rewrite (proj2 (Z.eqb_neq x 0) Hx0).
  apply wp_bind, wp_bind, (wp_ldn _ _ _ _ Ex), wp_ret. rewrite Ey, (proj2 (Z.eqb_neq y 0) Hy0).
  apply wp_bind, (wp_ldn _ _ _ _ Ecy), wp_bind, (wp_stn _ _ _ _ _ Ex), wp_bind.
  eapply wp_ldn; [heap|]. rewrite sr_get. apply wp_bind.
  (* the subtree between the two nodes *)
  set (h1 := <[x := sr (gl cy) cx]> (t_heap s)).
  assert (wp (when (nz (gl cy)) (stn (gl cy) (set_parent x))) (λ _ s', t_visited s' = t_visited s ∧
    t_heap s' !! x = Some (sr (gl cy) cx) ∧ t_heap s' !! y = Some cy ∧
    (gl cy ≠ 0 → t_heap s' !! gl cy = set_parent x <$> t_heap s !! gl cy) ∧
    (∀ a, a ≠ x → a ≠ gl cy → t_heap s' !! a = t_heap s !! a)) (set_heap h1 s)) as H2.
  { unfold when, nz. destruct (Z.eqb_spec (gl cy) 0) as [E|E]; cbn [negb].
    - apply wp_ret. unfold h1. split_and!; [done|by heap|by heap|done|intros; by heap].
    - destruct (Hb E) as [cb Ecb]. eapply wp_stn; [unfold h1; heap; exact Ecb|]. rewrite Ecb. unfold h1.
      split_and!; [done|by heap|by heap|intros _; by heap|intros; by heap]. }
  eapply wp_mono; [exact H2|]. cbv beta. intros _ [h2 v2] (Ev & F1 & F2 & F3 & F4). cbn [t_heap t_visited] in *.
  clear H2 h1. apply wp_bind. eapply wp_ldn; [exact F1|]. rewrite sr_parent.
  apply wp_bind. eapply wp_stn; [exact F2|]. apply wp_bind. eapply wp_ldn; [heap; exact F1|]. rewrite sr_parent.
  (* the parent *)
  set (h3 := <[y := set_parent (n_parent cx) cy]> h2). apply wp_bind.
  assert (n_parent cx ≠ 0 → h3 !! n_parent cx = t_heap s !! n_parent cx) as Ep.
  { intros E. unfold h3. heap. apply F4; [done|]. intros E'. apply Hbp; [by rewrite <- E'|done]. }
  assert (wp (when (nz (n_parent cx)) (cp ← ldn (n_parent cx); link y (n_parent cx) cp))
    (λ _ s', t_visited s' = v2 ∧ (n_parent cx ≠ 0 → t_heap s' !! n_parent cx = rl <$> t_heap s !! n_parent cx) ∧
      (∀ a, a ≠ n_parent cx → t_heap s' !! a = h3 !! a) ∧ (n_parent cx = 0 → t_heap s' = h3)) (Trees h3 v2)) as H4.
  { unfold when, nz. destruct (Z.eqb_spec (n_parent cx) 0) as [E|E]; cbn [negb]; [by apply wp_ret|].
    destruct (Hp E) as [cp Ecp]. rewrite Ecp in Ep. apply wp_bind. eapply wp_ldn; [by apply Ep|].
    eapply wp_mono; [apply Hlink; [by apply Ep|unfold h3; by heap|done]|]. cbv beta. intros _ t' ->. rewrite Ecp.
    split_and!; [done|intros _; by heap|intros; by heap|done]. }
  eapply wp_mono; [exact H4|]. cbv beta. intros _ [h4 v4] (Ev4 & G1 & G2 & G3). cbn [t_heap t_visited] in *. clear H4.
  assert (h4 !! y = Some (set_parent (n_parent cx) cy)) as G4 by (rewrite G2 by done; unfold h3; by heap).
  assert (h4 !! x = Some (sr (gl cy) cx)) as G5 by (rewrite G2 by done; unfold h3; by heap).
  apply wp_bind. eapply wp_stn; [exact G4|]. apply wp_bind. eapply wp_stn; [heap; exact G5|]. apply wp_ret.
  split; [done|]. split; [cbn; congruence|]. split; cbn [set_heap t_heap].
  - by heap.
  - by heap.
  - intros E. heap. rewrite G2 by auto. unfold h3. heap. by apply F3.
  - intros E. heap. by apply G1.
  - intros a ? ? ? ?. heap. rewrite G2 by done. unfold h3. heap. by apply F4.
Qed.
End rotation.

(** *** To the left *)

Lemma left_rotate_eq x :
  left_rotate x = rotate n_left n_right set_left set_right x
    (λ m p cp, if x =? n_left cp then stn p (set_left m) else stn p (set_right m)).
Proof. done. Qed.

Lemma left_rotate_rep s t x cx :
  rep (t_heap s) 0 t → NoDup (inorder t) → x ∈ inorder t → t_heap s !! x = Some cx → n_right cx ≠ 0 →
  wp (left_rotate x) (λ v s', v = 0 ∧ t_visited s' = t_visited s ∧ rep (t_heap s') 0 (rotl x t) ∧
    (∀ a, a ∉ inorder t → a ≠ 0 → t_heap s' !! a = t_heap s !! a)) s.
Proof.
  intros Ht Hnd Hx Ex Hy0. destruct (rep_node _ _ _ _ Ht Hx) as (c & Ec & Hx0 & _ & Hr & _).
  rewrite Ex in Ec. injection Ec as <-. destruct Hr as [?|Hr]; [done|].
  destruct (rep_node _ _ _ _ Ht Hr) as (cy & Ecy & _).
  assert (0 ∉ inorder t) as H0 by (intros H; by apply (rep_nz _ _ _ _ Ht H)).
  destruct (rep_distinct _ _ _ _ _ _ _ Ex eq_refl Hy0 Ecy Ht Hnd H0 Hx) as (D1 & D2 & D3 & D4 & D5 & D6 & D7 & D8).
  rewrite left_rotate_eq. eapply wp_mono.
  - eapply (rotate_heap n_left n_right set_left set_right x _ (λ _ _, eq_refl) (λ _ _, eq_refl) (relink x (n_right cx)) s (n_right cx)); try done.
    + intros u cp E _ _. unfold relink. destruct (x =? n_left cp); by eapply wp_stn.
    + intros Hp. destruct D8 as [?|D8]; [done|]. destruct (rep_node _ _ _ _ Ht D8) as (? & -> & _). eauto.
  - cbv beta. intros v s' (-> & Hv & [T1 T2 T3 T4 T5]).
    assert (rotated (t_heap s) (t_heap s') x (n_right cx) cx cy) as R by by split.
    split; [done|]. split; [done|]. split; [by apply (rotated_rep (t_heap s) _ x (n_right cx) cx cy)|].
    intros a Ha Ha0. by apply (rotated_inside (t_heap s) _ x (n_right cx) cx cy t 0).
Qed.

(** A left rotation at any node of a tree returns -1 and changes nothing when the node has no right child, and
    otherwise returns 0 and leaves the heap holding the rotated tree, every parent link included: the in-order sequence
    of the nodes is the same, and no node outside the tree is touched. *)
Theorem left_rotate_correct s t x :
  rep (t_heap s) 0 t → NoDup (inorder t) → x ∈ inorder t →
  wp (left_rotate x) (λ v s',
    v = (if decide (rotl x t = t) then -1 else 0) ∧ t_visited s' = t_visited s ∧
    rep (t_heap s') 0 (rotl x t) ∧ inorder (rotl x t) = inorder t ∧
    (∀ a, a ∉ inorder t → a ≠ 0 → t_heap s' !! a = t_heap s !! a)) s.
Proof.
  intros Ht Hnd Hx. destruct (rep_node _ _ _ _ Ht Hx) as (cx & Ex & Hx0 & _).
  pose proof (rotl_same _ _ _ _ _ Ht Hnd Hx Ex) as Hsame. destruct (decide (n_right cx = 0)) as [E|E].
  - rewrite (decide_True _ _ (proj2 Hsame E)), (proj2 Hsame E). unfold left_rotate. rewrite (proj2 (Z.eqb_neq x 0) Hx0).
    apply wp_bind, wp_bind, (wp_ldn _ _ _ _ Ex), wp_ret. rewrite E, Z.eqb_refl. by apply wp_ret.
  - rewrite decide_False by (intros E'; by apply E, Hsame).
    eapply wp_mono; [by eapply left_rotate_rep|]. cbv beta. intros v s' (-> & Hv & Hrep & Ho).
    split_and!; try done. apply inorder_rotl.
Qed.

Definition left_rotate_heap : trees :=
  Trees (<[1 := Node 2 0 0]> (<[2 := Node 0 1 4]> (<[4 := Node 2 3 5]> (<[3 := Node 4 0 0]> (<[5 := Node 4 0 0]> ∅))))) [].
Definition left_rotate_tree : btree := Br (Br Leaf 1 Leaf) 2 (Br (Br Leaf 3 Leaf) 4 (Br Leaf 5 Leaf)).

Lemma left_rotate_correct_witness :
  rotl 2 left_rotate_tree = Br (Br (Br Leaf 1 Leaf) 2 (Br Leaf 3 Leaf)) 4 (Br Leaf 5 Leaf) ∧
  wp (left_rotate 2) (λ v s', v = 0 ∧ rep (t_heap s') 0 (rotl 2 left_rotate_tree)) left_rotate_heap.
Proof.
  split; [done|]. eapply wp_mono; [apply (left_rotate_correct left_rotate_heap left_rotate_tree 2)|].
  - by_decide.
  - by_decide.
  - by_decide.
  - cbv beta. intros v s' (-> & _ & Hrep & _). split; [by_decide|done].
Defined.

(** *** To the right *)

Definition mirn (c : node) : node := Node (n_parent c) (n_right c) (n_left c).
Fixpoint mirror t : btree := match t with Leaf => Leaf | Br l a r => Br (mirror r) a (mirror l) end.

Lemma mirror_mirror t : mirror (mirror t) = t.
Proof. induction t as [|l IHl a r IHr]; [done|]. cbn. by rewrite IHl, IHr. Qed.
Lemma root_mirror t : root (mirror t) = root t.
Proof. by destruct t. Qed.
Lemma inorder_mirror t : inorder (mirror t) = reverse (inorder t).
Proof.
  induction t as [|l IHl a r IHr]; [done|]. cbn [mirror inorder]. by rewrite reverse_app, reverse_cons, IHl, IHr, <- app_assoc.
Qed.

Lemma lookup_mirn h a c : (mirn <$> h) !! a = Some (mirn c) ↔ h !! a = Some c.
Proof.
  rewrite lookup_fmap. destruct (h !! a) as [[p l r]|]; [|done]. cbn. destruct c as [p' l' r']. cbn.
  split; intros [= -> -> ->]; done.
Qed.

Lemma rep_mirror h par t : rep (mirn <$> h) par (mirror t) ↔ rep h par t.
Proof.
  revert par. induction t as [|l IHl a r IHr]; intros par; [done|]. cbn [mirror rep]. rewrite IHl, IHr, !root_mirror.
  change (Node par (root r) (root l)) with (mirn (Node par (root l) (root r))). rewrite lookup_mirn. tauto.
Qed.

Fixpoint rotr (n : Z) t : btree :=
  match t with
  | Leaf => Leaf
  | Br l a r =>
      if a =? n then match l with Br b m c => Br b m (Br c a r) | Leaf => t end
      else Br (rotr n l) a (rotr n r)
  end.

Lemma rotr_mirror n t : rotl n (mirror t) = mirror (rotr n t).
Proof.
  induction t as [|l IHl a r IHr]; [done|]. cbn [mirror rotl rotr]. destruct (a =? n); [by destruct l|].
  cbn. by rewrite IHl, IHr.
Qed.

Lemma right_rotate_eq x :
  right_rotate x = rotate n_right n_left set_right set_left x
    (λ m p cp, if x =? n_left cp then cm ← ldn m; stn p (set_left (n_left cm)) else stn p (set_right m)).
Proof. done. Qed.

(** What a right rotation does to the heap, for any node of a tree: the link of the parent is right only for a right
    child. *)
Lemma right_rotate_heap s t x cx cy :
  rep (t_heap s) 0 t → NoDup (inorder t) → x ∈ inorder t → t_heap s !! x = Some cx → n_left cx ≠ 0 →
  t_heap s !! n_left cx = Some cy →
  wp (right_rotate x) (λ v s', v = 0 ∧ t_visited s' = t_visited s ∧
    turned n_right set_right set_left x (λ cp, if x =? n_left cp then set_left (n_left cy) cp else set_right (n_left cx) cp)
      (t_heap s) (t_heap s') (n_left cx) cx cy) s.
Proof.
  intros Ht Hnd Hx Ex Hy0 Ecy. destruct (rep_node _ _ _ _ Ht Hx) as (c & Ec & Hx0 & _).
  rewrite Ex in Ec. injection Ec as <-.
  assert (0 ∉ inorder t) as H0 by (intros H; by apply (rep_nz _ _ _ _ Ht H)).
  assert (∀ a, a ∈ inorder (mirror t) ↔ a ∈ inorder t) as Hin by (intros a; rewrite inorder_mirror; apply elem_of_reverse).
  edestruct (rep_distinct (mirn <$> t_heap s) x (n_left cx) (mirn cx) (mirn cy) (mirror t) 0)
    as (D1 & D2 & D3 & D4 & D5 & D6 & D7 & D8); try done.
  - by apply lookup_mirn.
  - by apply lookup_mirn.
  - by apply rep_mirror.
  - rewrite inorder_mirror. by rewrite reverse_Permutation.
  - by rewrite Hin.
  - by apply Hin.
  - cbn [mirn n_left n_right n_parent] in *. rewrite right_rotate_eq.
    eapply (rotate_heap n_right n_left set_right set_left x _ (λ _ _, eq_refl) (λ _ _, eq_refl)); try done.
    + intros u cp E Ey _. cbv beta. destruct (x =? n_left cp); [|by eapply wp_stn].
      apply wp_bind, (wp_ldn _ _ _ _ Ey). by eapply wp_stn.
    + intros Hb. destruct (D7 Hb) as [c Ec]. rewrite lookup_fmap in Ec. destruct (t_heap s !! n_right cy); [eauto|done].
    + intros Hp. rewrite Hin in D8. destruct D8 as [?|D8]; [done|]. destruct (rep_node _ _ _ _ Ht D8) as (? & -> & _). eauto.
Qed.

(** A right rotation at the root or at a right child leaves the rotated tree. *)
Theorem right_rotate_rep s t x cx :
  rep (t_heap s) 0 t → NoDup (inorder t) → x ∈ inorder t → t_heap s !! x = Some cx → n_left cx ≠ 0 →
  (∀ cp, n_parent cx ≠ 0 → t_heap s !! n_parent cx = Some cp → n_right cp = x ∧ n_left cp ≠ x) →
  wp (right_rotate x) (λ v s', v = 0 ∧ t_visited s' = t_visited s ∧ rep (t_heap s') 0 (rotr x t)) s.
Proof.
  intros Ht Hnd Hx Ex Hy0 Hright. destruct (rep_node _ _ _ _ Ht Hx) as (c & Ec & Hx0 & Hl & _).
  rewrite Ex in Ec. injection Ec as <-. destruct Hl as [?|Hl]; [done|].
  destruct (rep_node _ _ _ _ Ht Hl) as (cy & Ecy & _).
  eapply wp_mono; [by eapply right_rotate_heap|]. cbv beta. intros v s' (-> & Hv & [T1 T2 T3 T4 T5]).
  split; [done|]. split; [done|]. rewrite <- rep_mirror, <- rotr_mirror.
  apply (rotated_rep (mirn <$> t_heap s) _ x (n_left cx) (mirn cx) (mirn cy)); try done.
  - by apply lookup_mirn.
  - by apply lookup_mirn.
  - split; cbn [mirn n_left n_right n_parent].
    + rewrite lookup_fmap, T1. done.
    + rewrite lookup_fmap, T2. done.
    + intros E. rewrite !lookup_fmap, T3 by done. by destruct (t_heap s !! n_right cy).
    + intros E. rewrite !lookup_fmap, T4 by done. destruct (t_heap s !! n_parent cx) as [cp|]; [|done]. cbn.
      destruct (Hright cp E eq_refl) as [Er Hne]. unfold relink. cbn. rewrite Er, Z.eqb_refl.
      rewrite (proj2 (Z.eqb_neq x (n_left cp))) by done. done.
    + intros a ? ? ? ?. rewrite !lookup_fmap. by rewrite T5.
  - by apply rep_mirror.
  - rewrite inorder_mirror. by rewrite reverse_Permutation.
  - rewrite inorder_mirror, elem_of_reverse. intros H. by apply (rep_nz _ _ _ _ Ht H).
  - by rewrite inorder_mirror, elem_of_reverse.
Qed.

(** A right rotation at a left child links the parent past the node that moves up: the parent's left child becomes the
    left child of that node, which still has the parent as its own. *)
Theorem right_rotate_loses s t x cx cy cp :
  rep (t_heap s) 0 t → NoDup (inorder t) → x ∈ inorder t → t_heap s !! x = Some cx → n_left cx ≠ 0 →
  t_heap s !! n_left cx = Some cy → n_parent cx ≠ 0 → t_heap s !! n_parent cx = Some cp → n_left cp = x →
  wp (right_rotate x) (λ v s', v = 0 ∧ n_parent <$> t_heap s' !! n_left cx = Some (n_parent cx) ∧
    n_left <$> t_heap s' !! n_parent cx = Some (n_left cy)) s.
Proof.
  intros Ht Hnd Hx Ex Hy0 Ecy Hp0 Ecp El. eapply wp_mono; [by eapply right_rotate_heap|]. cbv beta.
  intros v s' (-> & _ & [_ T2 _ T4 _]). split; [done|]. rewrite T2, T4, Ecp by done. cbn. by rewrite El, Z.eqb_refl.
Qed.

(** ** Traversals *)

(** The nodes of a tree are not their own children. *)
Lemma rep_children h par l a r :
  rep h par (Br l a r) → NoDup (inorder (Br l a r)) → root l ≠ a ∧ root r ≠ a.
Proof.
  intros (Ha & _ & Hl & Hr) (_ & _ & Hal & Har & _)%nodup_br.
  split; intros E; [destruct (root_cases _ _ _ Hl)|destruct (root_cases _ _ _ Hr)]; congruence.
Qed.

(** A traversal that visits the nodes [xs]. *)
Definition visits (m : M trees Z) (xs : list Z) h : Prop :=
  ∀ s, t_heap s = h → wp m (λ _ s', s' = Trees h (t_visited s ++ xs)) s.

Lemma visits_nil h v : visits (mret v) [] h.
Proof. intros [h' vs] [= ->]. apply wp_ret. cbn. by rewrite app_nil_r. Qed.

Lemma wp_when_visits b m xs h (Q : unit → trees → Prop) vs :
  visits m xs h → (b = false → xs = []) → Q tt (Trees h (vs ++ xs)) → wp (when b (_ ← m; mret tt)) Q (Trees h vs).
Proof.
  intros Hv Hb HQ. destruct b; cbn [when].
  - apply wp_bind. eapply wp_mono; [by apply Hv|]. cbv beta. intros v s' ->. by apply wp_ret.
  - apply wp_ret. rewrite Hb, app_nil_r in HQ by done. done.
Qed.

Lemma wp_func a (Q : unit → trees → Prop) h vs : Q tt (Trees h (vs ++ [a])) → wp (func a) Q (Trees h vs).
Proof. done. Qed.

Lemma nz_leaf h a t : rep h a t → nz (root t) && true = false → t = Leaf.
Proof. intros Ht. rewrite andb_true_r. unfold nz. intros E%negb_false_iff%Z.eqb_eq. by eapply root_0. Qed.

(** On a tree of distinct nodes in the heap, with as much recursion as the tree is deep, the three traversals call
    the function on every node exactly once, in the order their names say, and change nothing else. *)
Theorem traversals_correct h t par fuel :
  rep h par t → NoDup (inorder t) → (depth t ≤ fuel)%nat →
  visits (do_preorder fuel (root t)) (preorder t) h ∧
  visits (do_inorder fuel (root t)) (inorder t) h ∧
  visits (do_postorder fuel (root t)) (postorder t) h.
Proof.
  revert par fuel. induction t as [|l IHl a r IHr]; intros par fuel Ht Hnd Hf.
  { destruct fuel; split_and!; apply visits_nil. }
  pose proof (rep_children _ _ _ _ _ Ht Hnd) as [Ela%Z.eqb_neq Era%Z.eqb_neq]. pose proof (nodup_br _ _ _ Hnd) as (Hndl & Hndr & _).
  destruct Ht as (Ha%Z.eqb_neq & Ea & Hl & Hr). cbn [depth] in Hf. destruct fuel as [|fuel]; [lia|].
  destruct (IHl a fuel Hl Hndl ltac:(lia)) as (L1 & L2 & L3). destruct (IHr a fuel Hr Hndr ltac:(lia)) as (R1 & R2 & R3).
  cbn [root]. split_and!; intros [h' vs] Eh; cbn in Eh; subst h'; cbn [do_preorder do_inorder do_postorder]; rewrite Ha.
  - apply wp_bind, wp_func, wp_bind. eapply wp_ldn; [exact Ea|]. cbn [n_left n_right]. rewrite Ela, Era.
    apply wp_bind. eapply wp_when_visits; [exact L1|done|]. apply wp_bind. eapply wp_when_visits; [exact R1|done|].
    apply wp_ret. cbn. by rewrite <- !app_assoc.
  - apply wp_bind. eapply wp_ldn; [exact Ea|]. cbn [n_left n_right]. rewrite Ela.
    apply wp_bind. eapply wp_when_visits; [exact L2|by intros ->%(nz_leaf _ _ _ Hl)|]. apply wp_bind, wp_func, wp_bind.
    eapply wp_when_visits; [exact R2|by intros ->%(nz_leaf _ _ _ Hr)|]. apply wp_ret. cbn. by rewrite <- !app_assoc.
  - apply wp_bind. eapply wp_ldn; [exact Ea|]. cbn [n_left n_right]. rewrite Ela, Era.
    apply wp_bind. eapply wp_when_visits; [exact L3|by intros ->%(nz_leaf _ _ _ Hl)|]. apply wp_bind.
    eapply wp_when_visits; [exact R3|by intros ->%(nz_leaf _ _ _ Hr)|]. apply wp_bind, wp_func, wp_ret.
    cbn. by rewrite <- !app_assoc.
Qed.

Lemma traversals_correct_witness :
  visits (do_inorder 3 2) [1; 2; 3; 4; 5] (t_heap left_rotate_heap) ∧
  visits (do_postorder 3 2) [1; 3; 5; 4; 2] (t_heap left_rotate_heap).
Proof.
  destruct (traversals_correct (t_heap left_rotate_heap) left_rotate_tree 0 3) as (_ & H1 & H2); [by_decide..|].
  by split.
Defined.

(** ** The in-order successor *)

(** The element after [n], or [d]. *)
Fixpoint next (n d : Z) (xs : list Z) : Z :=
  match xs with
  | [] => d
  | x :: xs => if x =? n then hd d xs else next n d xs
  end.

Lemma next_left n d xs ys : n ∈ xs → next n d (xs ++ ys) = next n (hd d ys) xs.
Proof.
  induction xs as [|x xs IH]; [by intros ?%not_elem_of_nil|]. intros Hn. cbn. destruct (Z.eqb_spec x n) as [->|Hne].
  - by destruct xs.
  - apply elem_of_cons in Hn as [->|Hn]; [done|by apply IH].
Qed.

Lemma next_right n d xs ys : n ∉ xs → next n d (xs ++ ys) = next n d ys.
Proof.
  induction xs as [|x xs IH]; [done|]. rewrite elem_of_cons. intros Hn. cbn.
  rewrite (proj2 (Z.eqb_neq x n)) by (intros ->; tauto). apply IH. tauto.
Qed.

Lemma leftmost_correct h par t fuel vs :
  rep h par t → NoDup (inorder t) → t ≠ Leaf → (depth t ≤ S fuel)%nat →
  wp (leftmost fuel (root t)) (λ v s', s' = Trees h vs ∧ v = hd 0 (inorder t)) (Trees h vs).
Proof.
  revert par fuel. induction t as [|l IHl a r _]; intros par fuel Ht Hnd Hne Hf; [done|].
  pose proof (rep_children _ _ _ _ _ Ht Hnd) as [Hla%Z.eqb_neq _]. pose proof (nodup_br _ _ _ Hnd) as (Hndl & _).
  destruct Ht as (Ha & Ea & Hl & Hr). cbn [root depth inorder] in *.
  assert (∀ Q : Z → trees → Prop, wp (if nz (root l) && negb (root l =? a) then
      match fuel with O => out_of_fuel | S fuel => leftmost fuel (root l) end else mret a) Q (Trees h vs) →
    wp (leftmost fuel a) Q (Trees h vs)) as Hstep.
  { intros Q HQ. destruct fuel; cbn [leftmost]; apply wp_bind; (eapply wp_ldn; [exact Ea|]); exact HQ. }
  apply Hstep. rewrite Hla. destruct l as [|ll b lr] eqn:El; [by apply wp_ret|]. rewrite <- El in *.
  assert (nz (root l) = true) as ->.
  { unfold nz. apply negb_true_iff, Z.eqb_neq. intros E. subst l. by apply (root_0 _ _ _ Hl) in E. }
  cbn [andb negb]. destruct fuel as [|fuel]; [subst l; cbn in Hf; lia|].
  eapply wp_mono; [apply (IHl a fuel Hl Hndl); [by subst l|lia]|]. cbv beta. intros v s' [-> ->]. split; [done|].
  destruct (inorder l) eqn:E; [|done]. subst l. cbn in E. by destruct (inorder ll).
Qed.

(** [climb] from [n] finds [v], given [k] steps. *)
Definition climbs h (k : nat) (n v : Z) : Prop :=
  ∀ fuel vs, (k ≤ fuel)%nat → wp (climb fuel n) (λ v' s', s' = Trees h vs ∧ v' = v) (Trees h vs).

Lemma climb_eq fuel i : climb fuel i =
  (c ← ldn i;
   if nz (n_parent c) && negb (n_parent c =? i) then
     cp ← ldn (n_parent c);
     if i =? n_left cp then mret (n_parent c) else
     match fuel with O => out_of_fuel | S fuel => climb fuel (n_parent c) end
   else mret 0).
Proof. by destruct fuel. Qed.

Lemma climbs_root h t : rep h 0 t → t ≠ Leaf → climbs h 0 (root t) 0.
Proof.
  destruct t as [|l a r]; [done|]. intros (Ha & Ea & _) _ fuel vs _. cbn [root]. rewrite climb_eq.
  apply wp_bind. eapply wp_ldn; [exact Ea|]. by apply wp_ret.
Qed.

(** One step up, from a child. *)
Lemma climbs_child h t a c k v :
  rep h a t → t ≠ Leaf → (a ∉ inorder t) → a ≠ 0 → h !! a = Some c →
  (if root t =? n_left c then v = a else ∃ k', k = S k' ∧ climbs h k' a v) → climbs h k (root t) v.
Proof.
  intros Ht Hne Ha Ha0 Ec Hk fuel vs Hf. destruct t as [|l b r]; [done|]. cbn [root] in *. destruct Ht as (Hb & Eb & _).
  rewrite climb_eq. apply wp_bind. eapply wp_ldn; [exact Eb|]. cbn [n_parent]. unfold nz.
  rewrite (proj2 (Z.eqb_neq a 0) Ha0), (proj2 (Z.eqb_neq a b)) by (intros ->; apply Ha; cbn; set_solver).
  cbn [negb andb]. apply wp_bind. eapply wp_ldn; [exact Ec|]. destruct (b =? n_left c).
  - subst v. by apply wp_ret.
  - destruct Hk as (k' & -> & Hk'). destruct fuel as [|fuel]; [lia|]. apply Hk'. lia.
Qed.

(** The successor of a node of a subtree, given what climbing from its root finds. *)
Lemma successor_within h par t n k v fuel vs :
  rep h par t → NoDup (inorder t) → n ∈ inorder t → climbs h k (root t) v → (k + depth t ≤ fuel)%nat →
  wp (inorder_successor fuel n) (λ v' s', s' = Trees h vs ∧ v' = next n v (inorder t)) (Trees h vs).
Proof.
  revert par k v. induction t as [|l IHl a r IHr]; intros par k v Ht Hnd Hn Hc Hf; [by apply not_elem_of_nil in Hn|].
  pose proof (rep_children _ _ _ _ _ Ht Hnd) as [_ Hra]. pose proof (nodup_br _ _ _ Hnd) as (Hndl & Hndr & Hal & Har & Hlr).
  destruct Ht as (Ha & Ea & Hl & Hr). cbn [inorder depth] in *. apply elem_of_app in Hn as [Hn|Hn].
  - (* in the left subtree: climbing from its root finds [a] *)
    rewrite next_left by done. cbn [hd]. apply (IHl a 0%nat); try done; [|lia].
    eapply climbs_child; [done| |done|done|exact Ea|]; [by intros ->; apply not_elem_of_nil in Hn|].
    cbn. by rewrite Z.eqb_refl.
  - rewrite next_right by (intros Hn'; apply elem_of_cons in Hn as [->|Hn]; [done|by apply (Hlr n)]). cbn [next].
    destruct (Z.eqb_spec a n) as [<-|Hne].
    + (* the root itself *)
      unfold inorder_successor. apply wp_bind. eapply wp_ldn; [exact Ea|]. cbn [n_right].
      rewrite (proj2 (Z.eqb_neq _ _) Hra). destruct (nz (root r) && true) eqn:E.
      * cbn [negb]. rewrite E. eapply wp_mono; [apply (leftmost_correct h a r fuel vs Hr Hndr); [by intros ->|lia]|].
        cbv beta. intros v' s' [-> ->]. split; [done|]. destruct r as [|rl b rr]; [done|].
        cbn [inorder]. by destruct (inorder rl).
      * cbn [negb]. rewrite E. rewrite (nz_leaf _ _ _ Hr E). apply Hc. cbn. lia.
    + (* in the right subtree: climbing from its root goes on from [a] *)
      apply elem_of_cons in Hn as [->|Hn]; [done|]. apply (IHr a (S k)); try done; [|lia].
      assert (r ≠ Leaf) as Hrl by (intros ->; by apply not_elem_of_nil in Hn).
      eapply climbs_child; [done|done|done|done|exact Ea|]. cbn [n_left].
      rewrite (proj2 (Z.eqb_neq _ _)); [eauto|]. intros E. destruct (root_cases _ _ _ Hl) as [E'|E'].
      * rewrite E' in E. by apply (root_0 _ _ _ Hr) in E.
      * apply (Hlr (root l)); [done|]. rewrite <- E. by apply root_in.
Qed.

(** The in-order successor of any node of a tree is the node after it in the in-order sequence, and null for the
    last one; a number of steps equal to the depth of the tree is enough, and nothing is changed. *)
Theorem inorder_successor_correct s t n fuel :
  rep (t_heap s) 0 t → NoDup (inorder t) → n ∈ inorder t → (depth t ≤ fuel)%nat →
  wp (inorder_successor fuel n) (λ v s', s' = s ∧ v = next n 0 (inorder t)) s.
Proof.
  destruct s as [h vs]. intros Ht Hnd Hn Hf. apply (successor_within h 0 t n 0); try done.
  apply climbs_root; [done|]. intros ->. by apply not_elem_of_nil in Hn.
Qed.

Lemma inorder_successor_correct_witness :
  wp (inorder_successor 3 1) (λ v _, v = 2) left_rotate_heap ∧ wp (inorder_successor 3 2) (λ v _, v = 3) left_rotate_heap ∧
  wp (inorder_successor 3 3) (λ v _, v = 4) left_rotate_heap ∧ wp (inorder_successor 3 5) (λ v _, v = 0) left_rotate_heap.
Proof.
  split_and!; (eapply wp_mono; [apply (inorder_successor_correct left_rotate_heap left_rotate_tree); by_decide|]);
    cbv beta; by intros v s' [_ ->].
Defined.
