(* ===== verification/RbTree.v ===== *)
(** * Red-black trees ([libc/datastructures/trees/rb]: [rb.c], [rbwrapper.h])

    The nodes are those of [Trees], with a colour each; rotations are the ones of [rotate.c].  The
    comparison of two nodes is a parameter, as it is in the code. *)

From Stdlib Require Import Sorted.
From stdpp Require Import sorting.
From S2P Require Import Prelude Trees.

(* src/libc/datastructures/trees/rb/rb.c 14-14 RB_COLOR *)
Inductive rb_color := RED | BLACK.

#[export] Instance rb_color_eq_dec : EqDecision rb_color.
Proof. solve_decision. Defined.

(** The links, the colours, and the caller's root pointer. *)
(* src/libc/datastructures/trees/rb/rb.c 16-19 rbtree *)
Record rbs := Rbs { rb_trees : trees; rb_colors : gmap Z rb_color; rb_root : Z }.

Definition set_trees (t : trees) (s : rbs) : rbs := Rbs t (rb_colors s) (rb_root s).
Definition set_root (r : Z) (s : rbs) : rbs := Rbs (rb_trees s) (rb_colors s) r.

Definition on_trees {A} (m : M trees A) : M rbs A := λ s,
  r ← m (rb_trees s); Ok (r.1, set_trees r.2 s).
Definition field (g : node → Z) (e : Z) : M rbs Z := c ← on_trees (ldn e); mret (g c).
Definition color (e : Z) : M rbs rb_color := λ s,
  match rb_colors s !! e with Some c => Ok (c, s) | None => Fault e end.
Definition set_color (e : Z) (c : rb_color) : M rbs unit := λ s,
  match rb_colors s !! e with
  | Some _ => Ok (tt, Rbs (rb_trees s) (<[e := c]> (rb_colors s)) (rb_root s))
  | None => Fault e
  end.

(** [y && y->color == RED]. *)
Definition is_red (y : Z) : M rbs bool :=
  if nz y then c ← color y; mret (bool_decide (c = RED)) else mret false.

(* src/libc/datastructures/trees/rb/rb.c 33-38 parent *)
Definition parent (e : Z) : M rbs Z := if e =? 0 then mret 0 else field n_parent e.

(* src/libc/datastructures/trees/rb/rb.c 25-31 rb_get_root *)
Fixpoint rb_get_root (fuel : nat) (node : Z) : M rbs Z :=
  match fuel with
  | O => out_of_fuel
  | S fuel =>
      p ← field n_parent node;
      if nz p && negb (p =? node) then rb_get_root fuel p else mret node
  end.

(* src/libc/datastructures/trees/rb/rb.c 40-48 uncle *)
Definition uncle (e : Z) : M rbs Z :=
  none ← (if e =? 0 then mret true else
          p ← parent e; if p =? 0 then mret true else g ← parent p; mret (g =? 0));
  if none : bool then mret 0 else
  p ← parent e;
  l ← (g ← parent p; field n_left g);
  if p =? l then p ← field n_parent e; g ← field n_parent p; field n_right g
  else p ← field n_parent e; g ← field n_parent p; field n_left g.

Definition grandparent (leaf : Z) : M rbs Z := p ← parent leaf; parent p.

(** The two halves of the loop's body; each returns the next [leaf]. *)
(* src/libc/datastructures/trees/rb/rb.c 67-86 rb_fix *)
Definition rb_fix_left (leaf : Z) : M rbs Z :=
  y ← (g ← grandparent leaf; field n_right g);
  red ← is_red y;
  if red : bool then
    (set_color y BLACK ;; p ← parent leaf; set_color p BLACK) ;;
    (g ← grandparent leaf; set_color g RED) ;;
    grandparent leaf
  else
    r ← (p ← parent leaf; field n_right p);
    leaf ← (if leaf =? r then
              leaf ← parent leaf;
              on_trees (left_rotate leaf) ;; mret leaf
            else mret leaf);
    (p ← parent leaf; set_color p BLACK) ;;
    (g ← grandparent leaf; set_color g RED) ;;
    g ← (p ← field n_parent leaf; field n_parent p);
    (root ← gets rb_root; when (root =? g) (l ← field n_left g; modify (set_root l))) ;;
    on_trees (right_rotate g) ;;
    mret leaf.

(* src/libc/datastructures/trees/rb/rb.c 88-107 rb_fix *)
Definition rb_fix_right (leaf : Z) : M rbs Z :=
  y ← (g ← grandparent leaf; field n_left g);
  red ← is_red y;
  if red : bool then
    (set_color y BLACK ;; p ← parent leaf; set_color p BLACK) ;;
    (g ← grandparent leaf; set_color g RED) ;;
    grandparent leaf
  else
    l ← (p ← parent leaf; field n_left p);
    leaf ← (if leaf =? l then
              leaf ← parent leaf;
              on_trees (right_rotate leaf) ;; mret leaf
            else mret leaf);
    (p ← parent leaf; set_color p BLACK) ;;
    (g ← grandparent leaf; set_color g RED) ;;
    g ← grandparent leaf;
    (root ← gets rb_root; when (root =? g) (r ← (g ← grandparent leaf; field n_right g); modify (set_root r))) ;;
    g ← (p ← field n_parent leaf; field n_parent p);
    on_trees (left_rotate g) ;;
    mret leaf.

(* src/libc/datastructures/trees/rb/rb.c 62-113 rb_fix *)
Fixpoint rb_fix (fuel : nat) (leaf : Z) : M rbs Z :=
  match fuel with
  | O => out_of_fuel
  | S fuel =>
      go ← (root ← gets rb_root;
            if leaf =? root then mret false else p ← parent leaf; is_red p);
      if negb go then mret 0 else
      p ← parent leaf;
      l ← (g ← grandparent leaf; field n_left g);
      leaf ← (if p =? l then rb_fix_left leaf else rb_fix_right leaf);
      (root ← gets rb_root; set_color root BLACK) ;;
      rb_fix fuel leaf
  end.

Section insert.
Context (comp : Z → Z → Z).

(** The walk to the parent of the new node. *)
(* src/libc/datastructures/trees/rb/rb.c 121-137 rb_ins *)
Fixpoint rb_walk (fuel : nat) (leaf i : Z) : M rbs Z :=
  match fuel with
  | O => out_of_fuel
  | S fuel =>
      if i =? 0 then mret 0 else
      child ← (if comp leaf i <? 0 then field n_left i else field n_right i);
      if nz child && negb (child =? i) then rb_walk fuel leaf child else mret i
  end.

(* src/libc/datastructures/trees/rb/rb.c 115-151 rb_ins *)
Definition rb_ins (fuel : nat) (leaf : Z) : M rbs Z :=
  (root ← gets rb_root; set_color root BLACK) ;;
  set_color leaf RED ;;
  root ← gets rb_root;
  i ← rb_walk fuel leaf root;
  on_trees (stn leaf (set_parent i)) ;;
  when (nz i) (
    if comp leaf i <? 0 then on_trees (stn i (set_left leaf)) else on_trees (stn i (set_right leaf))) ;;
  rb_fix fuel leaf.

End insert.

(** The comparison of the wrapper, on the [data] of the containers. *)
(* src/libc/datastructures/trees/rb/rbwrapper.h 17-20 rb_comp *)
Definition rb_comp (data : Z → Z) (a b : Z) : Z := s32 (data a - data b).

(** ** Coloured trees *)

Inductive ctree := CL | CN (c : rb_color) (l : ctree) (a : Z) (r : ctree).

Fixpoint strip (t : ctree) : btree := match t with CL => Leaf | CN _ l a r => Br (strip l) a (strip r) end.
Abbreviation addrs t := (inorder (strip t)).
Abbreviation top t := (root (strip t)).
Definition color_of (t : ctree) : rb_color := match t with CL => BLACK | CN c _ _ _ => c end.
Definition paint (c : rb_color) (t : ctree) : ctree := match t with CL => CL | CN _ l a r => CN c l a r end.

Fixpoint painted (m : gmap Z rb_color) (t : ctree) : Prop :=
  match t with CL => True | CN c l a r => m !! a = Some c ∧ painted m l ∧ painted m r end.

(** The way from a subtree up to the root. *)
Inductive crumb := InL (c : rb_color) (a : Z) (r : ctree) | InR (c : rb_color) (l : ctree) (a : Z).
Definition fill (k : crumb) (t : ctree) : ctree :=
  match k with InL c a r => CN c t a r | InR c l a => CN c l a t end.
Fixpoint plug (t : ctree) (ps : list crumb) : ctree :=
  match ps with [] => t | k :: ps => plug (fill k t) ps end.
Definition crumb_addr (k : crumb) : Z := match k with InL _ a _ | InR _ _ a => a end.
Definition crumb_color (k : crumb) : rb_color := match k with InL c _ _ | InR c _ _ => c end.
Definition up (ps : list crumb) : Z := match ps with [] => 0 | k :: _ => crumb_addr k end.

(** The same change at one node. *)
Fixpoint at_node (f : ctree → ctree) (a : Z) (t : ctree) : ctree :=
  match t with
  | CL => CL
  | CN c l b r => if b =? a then f t else CN c (at_node f a l) b (at_node f a r)
  end.

Definition crotl (t : ctree) : ctree :=
  match t with CN c l a (CN cm b m d) => CN cm (CN c l a b) m d | _ => t end.
Definition crotr (t : ctree) : ctree :=
  match t with CN c (CN cm d m b) a r => CN cm d m (CN c b a r) | _ => t end.

Lemma at_node_out f a t : a ∉ addrs t → at_node f a t = t.
Proof.
  induction t as [|c l IHl b r IHr]; [done|]. cbn [strip inorder at_node]. rewrite elem_of_app, elem_of_cons. intros H.
  rewrite (proj2 (Z.eqb_neq b a)) by (intros ->; tauto). rewrite IHl, IHr; tauto.
Qed.

Lemma addrs_fill k t t' : addrs t' = addrs t → addrs (fill k t') = addrs (fill k t).
Proof. destruct k; cbn; by intros ->. Qed.

Lemma addrs_plug t t' ps : addrs t' = addrs t → addrs (plug t' ps) = addrs (plug t ps).
Proof. revert t t'. induction ps as [|k ps IH]; intros t t' E; [done|]. by apply IH, addrs_fill. Qed.

Lemma nodup_plug t ps : NoDup (addrs (plug t ps)) → NoDup (addrs t).
Proof.
  revert t. induction ps as [|k ps IH]; intros t H; [done|]. cbn in H. apply IH in H.
  destruct k; cbn [fill strip] in H; by apply nodup_br in H as (? & ? & _).
Qed.

Lemma in_fill k t a : a ∈ addrs t → a ∈ addrs (fill k t).
Proof. destruct k; cbn; set_solver. Qed.
Lemma in_plug t ps a : a ∈ addrs t → a ∈ addrs (plug t ps).
Proof. revert t. induction ps as [|k ps IH]; intros t H; [done|]. by apply IH, in_fill. Qed.

Lemma at_node_fill f a t k :
  NoDup (addrs (fill k t)) → a ∈ addrs t → at_node f a (fill k t) = fill k (at_node f a t).
Proof.
  intros Hnd Ha. destruct k as [c b r|c l b]; cbn [fill strip] in Hnd; apply nodup_br in Hnd as (_ & _ & H1 & H2 & H3);
    cbn [fill at_node]; rewrite (proj2 (Z.eqb_neq b a)) by congruence; f_equal; apply at_node_out; eauto.
Qed.

(** A change at the node in focus. *)
Lemma at_node_plug f t ps :
  t ≠ CL → NoDup (addrs (plug t ps)) → at_node f (top t) (plug t ps) = plug (f t) ps.
Proof.
  intros Ht. enough (∀ u, top t ∈ addrs u → NoDup (addrs (plug u ps)) → at_node f (top t) (plug u ps) = plug (at_node f (top t) u) ps) as H.
  - intros Hnd. rewrite H; [|destruct t; [done|cbn; set_solver]|done]. f_equal. destruct t; [done|]. cbn. by rewrite Z.eqb_refl.
  - induction ps as [|k ps IH]; intros u Hu Hnd; [done|]. cbn [plug] in *. rewrite IH; [|by apply in_fill|done].
    f_equal. apply at_node_fill; [|done]. by apply nodup_plug in Hnd.
Qed.

Lemma strip_crotl a t : strip (at_node crotl a t) = rotl a (strip t).
Proof.
  induction t as [|c l IHl b r IHr]; [done|]. cbn [at_node strip rotl]. destruct (b =? a); [by destruct r|].
  cbn. by rewrite IHl, IHr.
Qed.
Lemma strip_crotr a t : strip (at_node crotr a t) = rotr a (strip t).
Proof.
  induction t as [|c l IHl b r IHr]; [done|]. cbn [at_node strip rotr]. destruct (b =? a); [by destruct l|].
  cbn. by rewrite IHl, IHr.
Qed.

Lemma strip_paint c a t : strip (at_node (paint c) a t) = strip t.
Proof. induction t as [|c' l IHl b r IHr]; [done|]. cbn. destruct (b =? a); [done|]. cbn. by rewrite IHl, IHr. Qed.

Lemma painted_rot m f a t : (∀ u, painted m u → painted m (f u)) → painted m t → painted m (at_node f a t).
Proof.
  intros Hf. induction t as [|c l IHl b r IHr]; [done|]. intros Hp. cbn [at_node]. destruct (b =? a); [by apply Hf|].
  destruct Hp as (? & ? & ?). cbn. auto.
Qed.

Lemma painted_out m a c t : a ∉ addrs t → painted m t → painted (<[a := c]> m) t.
Proof.
  induction t as [|c' l IHl b r IHr]; [done|]. cbn. intros Hn (E & ? & ?). split; [|split; [apply IHl|apply IHr]; set_solver].
  rewrite lookup_insert_ne; [done|]. set_solver.
Qed.

Lemma painted_paint m a c t : NoDup (addrs t) → painted m t → painted (<[a := c]> m) (at_node (paint c) a t).
Proof.
  induction t as [|c' l IHl b r IHr]; [done|]. cbn [strip]. intros Hnd (E & Hl & Hr). pose proof (nodup_br _ _ _ Hnd) as (H1 & H2 & H3 & H4 & H5).
  cbn [at_node]. destruct (Z.eqb_spec b a) as [->|Hne]; cbn [paint painted].
  - rewrite lookup_insert_eq. split; [done|]. split; by apply painted_out.
  - rewrite lookup_insert_ne by done. auto.
Qed.

(** ** Trees in the heap *)

Abbreviation heap_of s := (t_heap (rb_trees s)).

Record holds (s : rbs) (t : ctree) : Prop := {
  ho_rep : rep (heap_of s) 0 (strip t);
  ho_nodup : NoDup (addrs t);
  ho_painted : painted (rb_colors s) t;
}.

Fixpoint rep_path (h : gmap Z node) (child : Z) (ps : list crumb) : Prop :=
  match ps with
  | [] => True
  | InL _ a r :: ps => a ≠ 0 ∧ h !! a = Some (Node (up ps) child (top r)) ∧ rep h a (strip r) ∧ rep_path h a ps
  | InR _ l a :: ps => a ≠ 0 ∧ h !! a = Some (Node (up ps) (top l) child) ∧ rep h a (strip l) ∧ rep_path h a ps
  end.

Lemma rep_plug h t ps : rep h 0 (strip (plug t ps)) ↔ rep h (up ps) (strip t) ∧ rep_path h (top t) ps.
Proof.
  revert t. induction ps as [|k ps IH]; intros t; cbn [plug rep_path]; [cbn; tauto|]. rewrite IH.
  destruct k; cbn [fill strip rep root up crumb_addr]; tauto.
Qed.

Lemma painted_plug m t ps : painted m (plug t ps) → painted m t.
Proof.
  revert t. induction ps as [|k ps IH]; intros t H; [done|]. apply IH in H. destruct k; cbn in H; tauto.
Qed.

Lemma wp_on_trees {A} (m : M trees A) (Q : A → rbs → Prop) s :
  wp m (λ a t, Q a (set_trees t s)) (rb_trees s) → wp (on_trees m) Q s.
Proof. unfold wp, on_trees. destruct (m (rb_trees s)) as [[a t]| | | |]; cbn; tauto. Qed.

Section steps.
Context (s : rbs) (c : rb_color) (l r : ctree) (a : Z) (ps : list crumb) (Hs : holds s (plug (CN c l a r) ps)).

Lemma focus_node : a ≠ 0 ∧ heap_of s !! a = Some (Node (up ps) (top l) (top r)).
Proof using Hs. destruct Hs as [H _ _]. apply rep_plug in H as [H _]. by destruct H as (? & ? & _). Qed.

Lemma wp_focus g (Q : Z → rbs → Prop) : Q (g (Node (up ps) (top l) (top r))) s → wp (field g a) Q s.
Proof using Hs.
  intros HQ. destruct focus_node as [_ E]. unfold field. apply wp_bind, wp_on_trees, (wp_ldn _ _ _ _ E), wp_ret.
  by destruct s as [[]].
Qed.

Lemma wp_parent (Q : Z → rbs → Prop) : Q (up ps) s → wp (parent a) Q s.
Proof using Hs.
  intros HQ. destruct focus_node as [Ha _]. unfold parent. rewrite (proj2 (Z.eqb_neq a 0)) by done. by apply wp_focus.
Qed.

Lemma wp_is_red (Q : bool → rbs → Prop) : Q (bool_decide (c = RED)) s → wp (is_red a) Q s.
Proof using Hs.
  intros HQ. destruct focus_node as [Ha _]. unfold is_red, nz. rewrite (proj2 (Z.eqb_neq a 0)) by done. cbn [negb].
  destruct Hs as [_ _ Hp]. apply painted_plug in Hp as (E & _). apply wp_bind. unfold wp at 1, color. by rewrite E.
Qed.

Lemma wp_set_color c' (Q : unit → rbs → Prop) :
  (∀ s', holds s' (plug (CN c' l a r) ps) → rb_root s' = rb_root s → Q tt s') → wp (set_color a c') Q s.
Proof using Hs.
  intros HQ. destruct Hs as [Hr Hn Hp]. pose proof (painted_plug _ _ _ Hp) as (E & _). unfold wp, set_color. rewrite E.
  apply HQ; [|done]. pose proof (at_node_plug (paint c') (CN c l a r) ps ltac:(done) Hn) as Ep. cbn [strip root paint] in Ep.
  rewrite <- Ep. split; cbn [rb_trees rb_colors].
  - by rewrite strip_paint.
  - by rewrite strip_paint.
  - by apply painted_paint.
Qed.

End steps.

Lemma wp_left_rotate s c l a cm b m d ps (Q : Z → rbs → Prop) :
  holds s (plug (CN c l a (CN cm b m d)) ps) →
  (∀ s', holds s' (plug (CN cm (CN c l a b) m d) ps) → rb_root s' = rb_root s → Q 0 s') → wp (on_trees (left_rotate a)) Q s.
Proof.
  intros Hs HQ. destruct (focus_node _ _ _ _ _ _ Hs) as [Ha E]. pose proof Hs as [Hr Hn Hp].
  pose proof (focus_node _ _ _ _ _ (InR c l a :: ps) Hs) as [Hm _].
  apply wp_on_trees. eapply wp_mono; [eapply left_rotate_rep; [done|done|apply in_plug; cbn; set_solver|done|done]|].
  cbv beta. intros v t (-> & _ & Ht & _).
  pose proof (at_node_plug crotl (CN c l a (CN cm b m d)) ps ltac:(done) Hn) as Ep. cbn [strip root crotl] in Ep.
  apply HQ; [|done]. rewrite <- Ep. split; cbn [set_trees rb_trees rb_colors].
  - by rewrite strip_crotl.
  - by rewrite strip_crotl, inorder_rotl.
  - apply painted_rot; [|done]. intros [|? ? ? [|]]; cbn; tauto.
Qed.

Lemma inorder_rotr n t : inorder (rotr n t) = inorder t.
Proof.
  induction t as [|l IHl a r IHr]; [done|]. cbn [rotr inorder]. destruct (a =? n).
  - destruct l as [|b m c]; [done|]. cbn. by rewrite <- app_assoc.
  - cbn. by rewrite IHl, IHr.
Qed.

(** The node must not be a left child. *)
Definition not_left (ps : list crumb) : Prop := match ps with InL _ _ _ :: _ => False | _ => True end.

Lemma wp_right_rotate s c d m cm b a r ps (Q : Z → rbs → Prop) :
  holds s (plug (CN c (CN cm d m b) a r) ps) → not_left ps →
  (∀ s', holds s' (plug (CN cm d m (CN c b a r)) ps) → rb_root s' = rb_root s → Q 0 s') → wp (on_trees (right_rotate a)) Q s.
Proof.
  intros Hs Hps HQ. destruct (focus_node _ _ _ _ _ _ Hs) as [Ha E]. pose proof Hs as [Hr Hn Hp].
  pose proof (focus_node _ _ _ _ _ (InL c a r :: ps) Hs) as [Hm _].
  apply wp_on_trees. eapply wp_mono; [eapply right_rotate_rep; [done|done|apply in_plug; cbn; set_solver|done|done|]|].
  - cbn [n_parent]. intros cp Hup Ec. destruct ps as [|[? ? ?|cq lq q] ps]; [done|done|].
    pose proof (focus_node _ cq lq _ q ps Hs) as [Hq Eq]. cbn [up crumb_addr] in Ec. rewrite Eq in Ec. injection Ec as <-. cbn.
    split; [done|]. intros El. apply (nodup_plug (CN cq lq q (CN c (CN cm d m b) a r)) ps) in Hn. cbn [strip] in Hn.
    apply nodup_br in Hn as (_ & _ & _ & _ & Hd). apply (Hd a); [|cbn; set_solver].
    rewrite <- El. destruct lq; [cbn in El; congruence|cbn; set_solver].
  - cbv beta. intros v t (-> & _ & Ht).
    pose proof (at_node_plug crotr (CN c (CN cm d m b) a r) ps ltac:(done) Hn) as Ep. cbn [strip root crotr] in Ep.
    apply HQ; [|done]. rewrite <- Ep. split; cbn [set_trees rb_trees rb_colors].
    + by rewrite strip_crotr.
    + by rewrite strip_crotr, inorder_rotr.
    + apply painted_rot; [|done]. intros [|? [|] ? ?]; cbn; tauto.
Qed.

(** ** The repair, on trees *)

(** Rotate the grandparent [g] of [t] down, away from [t]'s side. *)
Definition rot_left (k : crumb) (t : ctree) (g : Z) (y : ctree) : ctree :=
  match k, t with
  | InL _ p c, _ => CN BLACK t p (CN RED c g y)
  | InR _ l p, CN _ a x b => CN BLACK (CN RED l p a) x (CN RED b g y)
  | _, CL => t
  end.
Definition rot_right (y : ctree) (g : Z) (k : crumb) (t : ctree) : ctree :=
  match k, t with
  | InR _ l p, _ => CN BLACK (CN RED y g l) p t
  | InL _ p c, CN _ a x b => CN BLACK (CN RED y g a) x (CN RED b p c)
  | _, CL => t
  end.

(** The red tree [t] at the end of the way [ps] may have a red parent.  There is no result when a left child would be
    rotated to the right. *)
Fixpoint fix_up (t : ctree) (ps : list crumb) : option ctree :=
  match ps with
  | [] => Some (paint BLACK t)
  | [k] => Some (plug t ps)
  | k :: (k' :: ps') =>
      if bool_decide (crumb_color k = BLACK) then Some (plug t ps) else
      match k' with
      | InL _ g y =>
          if bool_decide (color_of y = RED) then fix_up (CN RED (paint BLACK (fill k t)) g (paint BLACK y)) ps'
          else match ps' with InL _ _ _ :: _ => None | _ => Some (plug (rot_left k t g y) ps') end
      | InR _ y g =>
          if bool_decide (color_of y = RED) then fix_up (CN RED (paint BLACK y) g (paint BLACK (fill k t))) ps'
          else Some (plug (rot_right y g k t) ps')
      end
  end.

(** ** The code does it *)

(** The root is the one of the last crumb. *)
Lemma top_plug t ps :
  ps = [] ∨ (∃ r, (∀ u, top (plug u ps) = r) ∧ (NoDup (addrs (plug t ps)) → r ∉ addrs t)).
Proof.
  revert t. induction ps as [|k ps IH]; intros t; [by left|right]. destruct (IH (fill k t)) as [->|(r & H1 & H2)].
  - exists (crumb_addr k). split; [by destruct k|]. cbn [plug]. intros H.
    destruct k; cbn [fill strip crumb_addr] in *; apply nodup_br in H; tauto.
  - exists r. split; [intros u; apply H1|]. intros H Hr. apply H2; [done|]. by apply in_fill.
Qed.

Lemma nodup_side k t a : NoDup (addrs (fill k t)) → a ∈ addrs t → crumb_addr k ≠ a ∧
  (a ∉ match k with InL _ _ r => addrs r | InR _ l _ => addrs l end).
Proof.
  intros H Ha. destruct k; cbn [fill strip crumb_addr] in *; apply nodup_br in H as (_ & _ & H1 & H2 & H3);
    (split; [congruence|eauto]).
Qed.

Lemma wp_is_red_tree s t ps (Q : bool → rbs → Prop) :
  holds s (plug t ps) → Q (bool_decide (color_of t = RED)) s → wp (is_red (top t)) Q s.
Proof.
  intros Hs HQ. destruct t as [|c l a r]; [by apply wp_ret|]. by apply (wp_is_red _ c l r a ps).
Qed.

Lemma wp_set_color_tree s t ps c (Q : unit → rbs → Prop) :
  t ≠ CL → holds s (plug t ps) → (∀ s', holds s' (plug (paint c t) ps) → rb_root s' = rb_root s → Q tt s') →
  wp (set_color (top t) c) Q s.
Proof. intros Ht Hs HQ. destruct t as [|c' l a r]; [done|]. by apply (wp_set_color _ c' l r a ps). Qed.

Lemma wp_parent_tree s t ps (Q : Z → rbs → Prop) :
  t ≠ CL → holds s (plug t ps) → Q (up ps) s → wp (parent (top t)) Q s.
Proof. intros Ht Hs HQ. destruct t as [|c l a r]; [done|]. by apply (wp_parent _ c l r a ps). Qed.

Lemma wp_grandparent s t k ps (Q : Z → rbs → Prop) :
  t ≠ CL → holds s (plug t (k :: ps)) → Q (up ps) s → wp (grandparent (top t)) Q s.
Proof.
  intros Ht Hs HQ. unfold grandparent. apply wp_bind, (wp_parent_tree _ _ _ _ Ht Hs). cbn [up].
  replace (crumb_addr k) with (top (fill k t)) by (by destruct k). eapply (wp_parent_tree _ _ ps); [by destruct k|done|done].
Qed.

Definition repaint (c : rb_color) (k : crumb) : crumb :=
  match k with InL _ a r => InL c a r | InR _ l a => InR c l a end.
Lemma fill_repaint c k t : fill (repaint c k) t = paint c (fill k t).
Proof. by destruct k. Qed.

Lemma wp_paint_parent s t k ps c (Q : unit → rbs → Prop) :
  t ≠ CL → holds s (plug t (k :: ps)) →
  (∀ s', holds s' (plug t (repaint c k :: ps)) → rb_root s' = rb_root s → Q tt s') →
  wp (p ← parent (top t); set_color p c) Q s.
Proof.
  intros Ht Hs HQ. apply wp_bind, (wp_parent_tree _ _ _ _ Ht Hs). cbn [up].
  replace (crumb_addr k) with (top (fill k t)) by (by destruct k).
  eapply (wp_set_color_tree _ _ ps); [by destruct k|done|]. intros s' Hs' Hr. apply HQ; [|done].
  cbn [plug]. by rewrite fill_repaint.
Qed.

Lemma wp_paint_grandparent s t k k' ps c (Q : unit → rbs → Prop) :
  t ≠ CL → holds s (plug t (k :: k' :: ps)) →
  (∀ s', holds s' (plug t (k :: repaint c k' :: ps)) → rb_root s' = rb_root s → Q tt s') →
  wp (g ← grandparent (top t); set_color g c) Q s.
Proof.
  intros Ht Hs HQ. apply wp_bind, (wp_grandparent _ _ _ _ _ Ht Hs). cbn [up].
  replace (crumb_addr k') with (top (fill k' (fill k t))) by (by destruct k').
  eapply (wp_set_color_tree _ _ ps); [by destruct k'|done|]. intros s' Hs' Hr. apply HQ; [|done].
  cbn [plug]. by rewrite fill_repaint.
Qed.

(** The subtree next to the way. *)
Definition side (k : crumb) : ctree := match k with InL _ _ r => r | InR _ l _ => l end.
Definition set_side (u : ctree) (k : crumb) : crumb := match k with InL c a _ => InL c a u | InR c _ a => InR c u a end.

(** A red uncle: the two parents turn black, the grandparent red. *)
Lemma wp_recolor s t k k' ps (Q : Z → rbs → Prop) :
  t ≠ CL → side k' ≠ CL → holds s (plug t (k :: k' :: ps)) →
  (∀ s', holds s' (plug (paint RED (fill (set_side (paint BLACK (side k')) k') (paint BLACK (fill k t)))) ps) →
     rb_root s' = rb_root s → Q (crumb_addr k') s') →
  wp ((set_color (top (side k')) BLACK ;; p ← parent (top t); set_color p BLACK) ;;
      (g ← grandparent (top t); set_color g RED) ;; grandparent (top t)) Q s.
Proof.
  intros Ht Hy Hs HQ. set (u := fill k t). set (y := side k').
  assert (∃ ky, plug t (k :: k' :: ps) = plug y (ky :: ps) ∧ ∀ y', plug t (k :: set_side y' k' :: ps) = plug y' (ky :: ps)) as (ky & E & Ey).
  { destruct k' as [c g r|c l g]; [by exists (InR c u g)|by exists (InL c g u)]. }
  rewrite E in Hs. apply wp_bind, wp_bind, (wp_set_color_tree _ y (ky :: ps)); [done|done|].
  intros s1 H1 R1. rewrite <- Ey in H1. eapply wp_paint_parent; [done|exact H1|]. intros s2 H2 R2.
  apply wp_bind. eapply wp_paint_grandparent; [done|exact H2|]. intros s3 H3 R3.
  eapply wp_grandparent; [done|exact H3|]. cbn [up]. replace (crumb_addr (repaint _ _)) with (crumb_addr k') by (by destruct k').
  apply HQ; [|congruence]. cbn [plug] in H3. by rewrite !fill_repaint in H3.
Qed.

(** The root pointer follows a rotation of [g]. *)
Lemma wp_move_root s t ps v m (Q : unit → rbs → Prop) :
  t ≠ CL → holds s (plug t ps) → rb_root s = top (plug t ps) →
  (∀ P : Z → rbs → Prop, P v s → wp m P s) →
  (∀ s', holds s' (plug t ps) → (∀ u, top u = v → rb_root s' = top (plug u ps)) → Q tt s') →
  wp (root ← gets rb_root; when (root =? top t) (r ← m; modify (set_root r))) Q s.
Proof.
  intros Ht Hs Hr Hm HQ. apply wp_bind, wp_gets. pose proof (ho_nodup _ _ Hs) as Hn.
  destruct (top_plug t ps) as [->|(r & H1 & H2)].
  - cbn [plug] in *. rewrite Hr, Z.eqb_refl. apply wp_bind, Hm, wp_modify, HQ; [by destruct Hs|]. by intros u <-.
  - rewrite Hr, H1. specialize (H2 Hn). rewrite (proj2 (Z.eqb_neq r _)).
    + apply wp_ret, HQ; [done|]. intros u _. congruence.
    + intros E. apply H2. rewrite E. destruct t; [done|]. cbn. set_solver.
Qed.

Lemma wp_field_parent s t ps (Q : Z → rbs → Prop) :
  t ≠ CL → holds s (plug t ps) → Q (up ps) s → wp (field n_parent (top t)) Q s.
Proof. intros Ht Hs HQ. destruct t as [|c l a r]; [done|]. by apply (wp_focus _ c l r a ps). Qed.

Lemma wp_field_grandparent s t k ps (Q : Z → rbs → Prop) :
  t ≠ CL → holds s (plug t (k :: ps)) → Q (up ps) s → wp (p ← field n_parent (top t); field n_parent p) Q s.
Proof.
  intros Ht Hs HQ. apply wp_bind, (wp_field_parent _ _ _ _ Ht Hs). cbn [up].
  replace (crumb_addr k) with (top (fill k t)) by (by destruct k). eapply (wp_field_parent _ _ ps); [by destruct k|done|done].
Qed.

Lemma fix_left_tail s t cp p c cg g y ps (Q : Z → rbs → Prop) :
  t ≠ CL → holds s (plug t (InL cp p c :: InL cg g y :: ps)) →
  rb_root s = top (plug t (InL cp p c :: InL cg g y :: ps)) → not_left ps →
  (∀ s', holds s' (plug t (InL BLACK p (CN RED c g y) :: ps)) → rb_root s' = top (plug t (InL BLACK p (CN RED c g y) :: ps)) → Q (top t) s') →
  wp ((p ← parent (top t); set_color p BLACK) ;;
      (g ← grandparent (top t); set_color g RED) ;;
      g ← (p ← field n_parent (top t); field n_parent p);
      (root ← gets rb_root; when (root =? g) (l ← field n_left g; modify (set_root l))) ;;
      on_trees (right_rotate g) ;;
      mret (top t)) Q s.
Proof.
  intros Ht Hs Hr Hps HQ. apply wp_bind. eapply wp_paint_parent; [done|exact Hs|]. intros s1 H1 R1.
  apply wp_bind. eapply wp_paint_grandparent; [done|exact H1|]. intros s2 H2 R2. cbn [repaint] in H2.
  apply wp_bind. eapply wp_field_grandparent; [done|exact H2|]. cbn [up crumb_addr].
  set (u := CN RED (CN BLACK t p c) g y). change (holds s2 (plug u ps)) in H2.
  assert (rb_root s2 = top (plug u ps)) as Hr2.
  { rewrite R2, R1, Hr. cbn [plug fill]. destruct (top_plug u ps) as [->|(r & E & _)]; [done|]. by rewrite !E. }
  apply wp_bind. change g with (top u) at 1. eapply (wp_move_root s2 u ps p); [done|done|done|..].
  { intros P HP. by apply (wp_focus _ RED (CN BLACK t p c) y g ps). }
  intros s3 H3 R3. apply wp_bind. eapply wp_right_rotate; [exact H3|done|]. intros s4 H4 R4. apply wp_ret.
  apply HQ; [exact H4|]. rewrite R4. by apply R3.
Qed.

Lemma fix_right_tail s t cp p c cg g y ps (Q : Z → rbs → Prop) :
  t ≠ CL → holds s (plug t (InR cp c p :: InR cg y g :: ps)) →
  rb_root s = top (plug t (InR cp c p :: InR cg y g :: ps)) →
  (∀ s', holds s' (plug t (InR BLACK (CN RED y g c) p :: ps)) → rb_root s' = top (plug t (InR BLACK (CN RED y g c) p :: ps)) → Q (top t) s') →
  wp ((p ← parent (top t); set_color p BLACK) ;;
      (g ← grandparent (top t); set_color g RED) ;;
      g ← grandparent (top t);
      (root ← gets rb_root; when (root =? g) (r ← (g ← grandparent (top t); field n_right g); modify (set_root r))) ;;
      g ← (p ← field n_parent (top t); field n_parent p);
      on_trees (left_rotate g) ;;
      mret (top t)) Q s.
Proof.
  intros Ht Hs Hr HQ. apply wp_bind. eapply wp_paint_parent; [done|exact Hs|]. intros s1 H1 R1.
  apply wp_bind. eapply wp_paint_grandparent; [done|exact H1|]. intros s2 H2 R2. cbn [repaint] in H2.
  apply wp_bind. eapply wp_grandparent; [done|exact H2|]. cbn [up crumb_addr].
  set (u := CN RED y g (CN BLACK c p t)). change (holds s2 (plug u ps)) in H2.
  assert (rb_root s2 = top (plug u ps)) as Hr2.
  { rewrite R2, R1, Hr. cbn [plug fill]. destruct (top_plug u ps) as [->|(r & E & _)]; [done|]. by rewrite !E. }
  apply wp_bind. change g with (top u) at 1. eapply (wp_move_root s2 u ps p); [done|done|done|..].
  { intros P HP. apply wp_bind. eapply (wp_grandparent _ t (InR BLACK c p) (InR RED y g :: ps)); [done|done|].
    by apply (wp_focus _ RED y (CN BLACK c p t) g ps). }
  intros s3 H3 R3. apply wp_bind. eapply (wp_field_grandparent _ t (InR BLACK c p) (InR RED y g :: ps)); [done|done|].
  apply wp_bind. eapply wp_left_rotate; [exact H3|]. intros s4 H4 R4. apply wp_ret.
  apply HQ; [exact H4|]. rewrite R4. by apply R3.
Qed.

(** What a round of the loop leaves behind: the repair goes on at the grandparent, or is done. *)
Definition after (grand : ctree) (rotated : ctree) (uncle : ctree) ps (s : rbs) (Q : Z → rbs → Prop) : Prop :=
  (color_of uncle = RED → ∀ s', holds s' (plug grand ps) → rb_root s' = rb_root s → Q (top grand) s') ∧
  (color_of uncle ≠ RED → ∀ s' k t, t ≠ CL → crumb_color k = BLACK → fill k t = rotated →
     holds s' (plug rotated ps) → rb_root s' = top (plug rotated ps) → Q (top t) s').

Lemma rb_fix_left_ok s a x b k cg g y ps (Q : Z → rbs → Prop) :
  let t := CN RED a x b in
  holds s (plug t (k :: InL cg g y :: ps)) → rb_root s = top (plug t (k :: InL cg g y :: ps)) → crumb_color k = RED →
  (color_of y ≠ RED → not_left ps) →
  after (CN RED (paint BLACK (fill k t)) g (paint BLACK y)) (rot_left k t g y) y ps s Q →
  wp (rb_fix_left x) Q s.
Proof.
  intros t Hs Hr Hk Hps [HQ1 HQ2]. unfold rb_fix_left. change x with (top t). apply wp_bind, wp_bind.
  eapply wp_grandparent; [done|exact Hs|]. cbn [up crumb_addr].
  apply (wp_focus _ cg (fill k t) y g ps); [done|]. cbn [n_right]. apply wp_bind.
  apply (wp_is_red_tree _ y (InR cg (fill k t) g :: ps)); [done|]. case_bool_decide as Hy.
  - apply (wp_recolor s t k (InL cg g y) ps); [done|by intros Ey; cbn in Ey; rewrite Ey in Hy|done|]. intros s' H' R'. by apply HQ1.
  - apply wp_bind, wp_bind, (wp_parent_tree _ t _ _ ltac:(done) Hs). destruct k as [cp p c|cp l p]; cbn in Hk; subst cp; cbn [up crumb_addr].
    + apply (wp_focus _ RED t c p (InL cg g y :: ps)); [done|]. cbn [n_right]. apply wp_bind.
      rewrite (proj2 (Z.eqb_neq (top t) (top c))).
      2: { pose proof (ho_nodup _ _ Hs) as Hn. apply (nodup_plug (CN RED t p c) (InL cg g y :: ps)) in Hn.
        apply (nodup_side (InL RED p c) t x) in Hn as [_ Hn]; [|cbn; set_solver]. intros E. apply Hn.
        destruct c; [|cbn in *; set_solver]. destruct (focus_node _ _ _ _ _ _ Hs) as [Hx _]. cbn in E. congruence. }
      apply wp_ret. apply (fix_left_tail s t RED p c cg g y ps); [done|done|done|auto|].
      intros s' H' R'. by apply (HQ2 Hy s' (InL BLACK p (CN RED c g y)) t).
    + apply (wp_focus _ RED l t p (InL cg g y :: ps)); [done|]. cbn [n_right]. apply wp_bind. rewrite Z.eqb_refl.
      apply wp_bind, (wp_parent_tree _ t _ _ ltac:(done) Hs). cbn [up crumb_addr].
      apply wp_bind. eapply (wp_left_rotate s RED l p RED a x b (InL cg g y :: ps)); [done|]. intros s1 H1 R1. apply wp_ret.
      change p with (top (CN RED l p a)).
      apply (fix_left_tail s1 (CN RED l p a) RED x b cg g y ps); [done|done| |auto|].
      { rewrite R1, Hr. cbn [plug fill]. destruct (top_plug t ps) as [->|(r & E & _)]; [done|]. by rewrite !E. }
      intros s' H' R'. by apply (HQ2 Hy s' (InL BLACK x (CN RED b g y)) (CN RED l p a)).
Qed.

Lemma rb_fix_right_ok s a x b k cg g y ps (Q : Z → rbs → Prop) :
  let t := CN RED a x b in
  holds s (plug t (k :: InR cg y g :: ps)) → rb_root s = top (plug t (k :: InR cg y g :: ps)) → crumb_color k = RED →
  after (CN RED (paint BLACK y) g (paint BLACK (fill k t))) (rot_right y g k t) y ps s Q →
  wp (rb_fix_right x) Q s.
Proof.
  intros t Hs Hr Hk [HQ1 HQ2]. unfold rb_fix_right. change x with (top t). apply wp_bind, wp_bind.
  eapply wp_grandparent; [done|exact Hs|]. cbn [up crumb_addr].
  apply (wp_focus _ cg y (fill k t) g ps); [done|]. cbn [n_left]. apply wp_bind.
  apply (wp_is_red_tree _ y (InL cg g (fill k t) :: ps)); [done|]. case_bool_decide as Hy.
  - apply (wp_recolor s t k (InR cg y g) ps); [done|by intros Ey; cbn in Ey; rewrite Ey in Hy|done|]. intros s' H' R'. by apply HQ1.
  - apply wp_bind, wp_bind, (wp_parent_tree _ t _ _ ltac:(done) Hs). destruct k as [cp p c|cp l p]; cbn in Hk; subst cp; cbn [up crumb_addr].
    + apply (wp_focus _ RED t c p (InR cg y g :: ps)); [done|]. cbn [n_left]. apply wp_bind. rewrite Z.eqb_refl.
      apply wp_bind, (wp_parent_tree _ t _ _ ltac:(done) Hs). cbn [up crumb_addr].
      apply wp_bind. eapply (wp_right_rotate s RED a x RED b p c (InR cg y g :: ps)); [done|done|]. intros s1 H1 R1. apply wp_ret.
      change p with (top (CN RED b p c)).
      apply (fix_right_tail s1 (CN RED b p c) RED x a cg g y ps); [done|done| |].
      { rewrite R1, Hr. cbn [plug fill]. destruct (top_plug t ps) as [->|(r & E & _)]; [done|]. by rewrite !E. }
      intros s' H' R'. by apply (HQ2 Hy s' (InR BLACK (CN RED y g a) x) (CN RED b p c)).
    + apply (wp_focus _ RED l t p (InR cg y g :: ps)); [done|]. cbn [n_left]. apply wp_bind.
      rewrite (proj2 (Z.eqb_neq (top t) (top l))).
      2: { pose proof (ho_nodup _ _ Hs) as Hn. apply (nodup_plug (CN RED l p t) (InR cg y g :: ps)) in Hn.
        apply (nodup_side (InR RED l p) t x) in Hn as [_ Hn]; [|cbn; set_solver]. intros E. apply Hn.
        destruct l; [|cbn in *; set_solver]. destruct (focus_node _ _ _ _ _ _ Hs) as [Hx _]. cbn in E. congruence. }
      apply wp_ret. apply (fix_right_tail s t RED p l cg g y ps); [done|done|done|].
      intros s' H' R'. by apply (HQ2 Hy s' (InR BLACK (CN RED y g l) p) t).
Qed.

(** The tree at the head of the loop. *)
Definition settled (t : ctree) (ps : list crumb) : ctree := match ps with [] => paint BLACK t | _ => plug t ps end.

Lemma color_plug t t' k ps : color_of (plug t (k :: ps)) = color_of (plug t' (k :: ps)).
Proof.
  revert t t' k. induction ps as [|k' ps IH]; intros t t' k; [by destruct k|]. apply (IH (fill k t) (fill k t') k').
Qed.

(** Blackening the root. *)
Lemma wp_black_root s t ps (Q : unit → rbs → Prop) :
  t ≠ CL → holds s (plug t ps) → rb_root s = top (plug t ps) → (ps ≠ [] → color_of (plug t ps) = BLACK) →
  (∀ s', holds s' (settled t ps) → rb_root s' = top (plug t ps) → Q tt s') →
  wp (root ← gets rb_root; set_color root BLACK) Q s.
Proof.
  intros Ht Hs Hr Hb HQ. apply wp_bind, wp_gets. rewrite Hr.
  assert (plug t ps ≠ CL) as Hne.
  { clear -Ht. revert t Ht. induction ps as [|k ps IH]; intros t Ht; [done|]. apply IH. by destruct k. }
  apply (wp_set_color_tree _ (plug t ps) []); [done|done|]. cbn [plug]. intros s' H' R'. apply HQ; [|congruence].
  destruct ps as [|k ps]; [done|]. cbn [settled]. replace (paint BLACK (plug t (k :: ps))) with (plug t (k :: ps)) in H'; [done|].
  specialize (Hb ltac:(done)). by destruct (plug t (k :: ps)); cbn in Hb; subst.
Qed.

Lemma wp_paint e c c' (Q : unit → rbs → Prop) s :
  rb_colors s !! e = Some c' → Q tt (Rbs (rb_trees s) (<[e := c]> (rb_colors s)) (rb_root s)) → wp (set_color e c) Q s.
Proof. intros E HQ. unfold wp, set_color. by rewrite E. Qed.

(** The condition of the loop. *)
Lemma wp_test s t k ps (Q : bool → rbs → Prop) :
  t ≠ CL → holds s (plug t (k :: ps)) → rb_root s = top (plug t (k :: ps)) → Q (bool_decide (crumb_color k = RED)) s →
  wp (root ← gets rb_root; if top t =? root then mret false else p ← parent (top t); is_red p) Q s.
Proof.
  intros Ht Hs Hr HQ. apply wp_bind, wp_gets. destruct (top_plug t (k :: ps)) as [?|(r & E & Hn)]; [done|].
  specialize (Hn (ho_nodup _ _ Hs)). rewrite Hr, E, (proj2 (Z.eqb_neq _ r)).
  2: { intros Er. apply Hn. rewrite <- Er. destruct t; [done|]. cbn. set_solver. }
  apply wp_bind, (wp_parent_tree _ _ _ _ Ht Hs). cbn [up]. replace (crumb_addr k) with (top (fill k t)) by (by destruct k).
  apply (wp_is_red_tree _ (fill k t) ps); [done|]. replace (color_of (fill k t)) with (crumb_color k) by (by destruct k). done.
Qed.

Lemma rb_fix_stop fuel s t k ps :
  (0 < fuel)%nat → t ≠ CL → holds s (plug t (k :: ps)) → rb_root s = top (plug t (k :: ps)) → crumb_color k = BLACK →
  wp (rb_fix fuel (top t)) (λ v s', v = 0 ∧ s' = s) s.
Proof.
  intros Hf Ht Hs Hr Hk. destruct fuel as [|fuel]; [lia|]. cbn [rb_fix]. apply wp_bind, (wp_test _ _ _ _ _ Ht Hs Hr).
  rewrite Hk. cbn. by apply wp_ret.
Qed.

(** Which half of the body runs. *)
Lemma wp_which s t k k' ps (m1 m2 : M rbs Z) (Q : Z → rbs → Prop) :
  t ≠ CL → holds s (plug t (k :: k' :: ps)) → wp (match k' with InL _ _ _ => m1 | InR _ _ _ => m2 end) Q s →
  ∀ B (f : Z → M rbs B) Q', (∀ z s', Q z s' → wp (f z) Q' s') →
  wp (p ← parent (top t); l ← (g ← grandparent (top t); field n_left g); leaf ← (if p =? l then m1 else m2); f leaf) Q' s.
Proof.
  intros Ht Hs HQ B f Q' Hf. apply wp_bind, (wp_parent_tree _ _ _ _ Ht Hs). apply wp_bind, wp_bind.
  eapply wp_grandparent; [done|exact Hs|]. cbn [up]. set (u := fill k t).
  pose proof (focus_node s) as Hfocus. destruct k' as [c g r|c l g]; cbn [crumb_addr].
  - apply (wp_focus _ c u r g ps); [done|]. cbn [n_left]. replace (top u) with (crumb_addr k) by (by destruct k).
    rewrite Z.eqb_refl. by eapply wp_bind_mono.
  - apply (wp_focus _ c l u g ps); [done|]. cbn [n_left]. rewrite (proj2 (Z.eqb_neq _ _)); [by eapply wp_bind_mono|].
    intros E. pose proof (ho_nodup _ _ Hs) as Hn. apply (nodup_plug (CN c l g u) ps) in Hn.
    apply (nodup_side (InR c l g) u (top u)) in Hn as [_ Hn]; [|destruct k; cbn; set_solver].
    apply Hn. replace (top u) with (crumb_addr k) by (by destruct k). rewrite E. destruct l; [|cbn; set_solver].
    assert (crumb_addr k ≠ 0); [|done]. destruct k as [ck p q|ck q p]; by apply (Hfocus ck _ _ p (InR c CL g :: ps)) in Hs as [? _].
Qed.

Lemma rb_fix_ok fuel a x b ps t' s :
  let t := CN RED a x b in
  (length ps < fuel)%nat → holds s (settled t ps) → rb_root s = top (plug t ps) →
  color_of (settled t ps) = BLACK → fix_up t ps = Some t' →
  wp (rb_fix fuel x) (λ v s', v = 0 ∧ holds s' t' ∧ rb_root s' = top t') s.
Proof.
  revert a x b ps s. induction fuel as [|fuel IH]; intros a x b ps s t Hf Hs Hr Hb Hfix; [lia|].
  change x with (top t). destruct ps as [|k ps].
  { injection Hfix as <-. cbn [rb_fix settled plug] in *. apply wp_bind, wp_bind, wp_gets. rewrite Hr, Z.eqb_refl.
    apply wp_ret. cbn [negb]. by apply wp_ret. }
  assert (crumb_color k = BLACK → Some (plug t (k :: ps)) = Some t' →
    wp (rb_fix (S fuel) (top t)) (λ v s', v = 0 ∧ holds s' t' ∧ rb_root s' = top t') s) as Hstop.
  { intros Hk [= <-]. eapply wp_mono; [apply (rb_fix_stop _ _ t k ps); [lia|done..]|]. cbv beta. by intros v s' [-> ->]. }
  destruct ps as [|k' ps]; [apply Hstop; [|done]; by destruct k|].
  cbn [fix_up] in Hfix. case_bool_decide as Hk; [by apply Hstop|]. clear Hstop.
  assert (crumb_color k = RED) as Hred by (by destruct (crumb_color k)).
  cbn [rb_fix]. apply wp_bind, (wp_test _ t k (k' :: ps)); [done..|]. rewrite Hred. cbn [negb bool_decide decide decide_rel].
  cbn [settled] in Hs, Hb. set (Q := λ v s', v = 0 ∧ holds s' t' ∧ rb_root s' = top t').
  (* the rest of the round *)
  assert (∀ g l r s1, holds s1 (plug (CN RED l g r) ps) → rb_root s1 = rb_root s →
    (∀ u, ps ≠ [] → color_of (plug u ps) = BLACK) → (∀ u, ps ≠ [] → top (plug u ps) = rb_root s) → (ps = [] → rb_root s = g) →
    fix_up (CN RED l g r) ps = Some t' → wp ((root ← gets rb_root; set_color root BLACK) ;; rb_fix fuel g) Q s1) as Hgo.
  { intros g l r s1 H1 R1 Hc Ht Hg Hfx. assert (rb_root s1 = top (plug (CN RED l g r) ps)) as R1'.
    { rewrite R1. destruct ps; [by apply Hg|by rewrite Ht]. }
    apply wp_bind, (wp_black_root _ (CN RED l g r) ps); [done|done|done|by intros ?; apply Hc|]. intros s2 H2 R2.
    apply (IH l g r ps s2); [cbn in Hf; lia|done|done| |done]. destruct ps; [done|by apply Hc]. }
  assert (∀ rotated k2 t2 s1, t2 ≠ CL → crumb_color k2 = BLACK → fill k2 t2 = rotated → holds s1 (plug rotated ps) →
    rb_root s1 = top (plug rotated ps) → (ps ≠ [] → color_of (plug rotated ps) = BLACK) → plug rotated ps = t' →
    wp ((root ← gets rb_root; set_color root BLACK) ;; rb_fix fuel (top t2)) Q s1) as Hend.
  { intros rotated k2 t2 s1 Ht2 Hk2 <- H1 R1 Hc <-. apply wp_bind, (wp_black_root _ t2 (k2 :: ps)); [done|done|done| |].
    { intros _. cbn [plug] in *. destruct ps; [by destruct k2|by apply Hc]. }
    intros s2 H2 R2. eapply wp_mono; [apply (rb_fix_stop _ _ t2 k2 ps); [cbn in Hf; lia|done..]|]. cbv beta.
    by intros v s' [-> ->]. }
  assert (∀ u, ps ≠ [] → color_of (plug u ps) = BLACK) as Hc.
  { intros u Hps. destruct ps as [|k2 ps]; [done|]. by rewrite (color_plug u (fill k' (fill k t))). }
  assert (∀ u, ps ≠ [] → top (plug u ps) = rb_root s) as Htop.
  { intros u Hps. rewrite Hr. cbn [plug]. destruct (top_plug t ps) as [?|(r & E & _)]; [done|by rewrite !E]. }
  eapply (wp_which s t k k' ps _ _ (λ z s', wp ((root ← gets rb_root; set_color root BLACK) ;; rb_fix fuel z) Q s')); [done|done| |done].
  destruct k' as [cg g y|cg y g].
  - apply (rb_fix_left_ok s a x b k cg g y ps); [done|done|done| |].
    { intros Hy. rewrite bool_decide_eq_false_2 in Hfix by done. by destruct ps as [|[] ?]. }
    split; intros Hy.
    + rewrite bool_decide_eq_true_2 in Hfix by done. intros s1 H1 R1. cbn [strip root]. eapply Hgo; [done..| |done].
      intros ->. by rewrite Hr.
    + rewrite bool_decide_eq_false_2 in Hfix by done. intros s1 k2 t2 Ht2 Hk2 E H1 R1. apply (Hend (rot_left k t g y) k2 t2); try done.
      { by intros ?; apply Hc. } destruct ps as [|[] ?]; congruence.
  - apply (rb_fix_right_ok s a x b k cg g y ps); [done|done|done|]. split; intros Hy.
    + rewrite bool_decide_eq_true_2 in Hfix by done. intros s1 H1 R1. cbn [strip root]. eapply Hgo; [done..| |done].
      intros ->. by rewrite Hr.
    + rewrite bool_decide_eq_false_2 in Hfix by done. intros s1 k2 t2 Ht2 Hk2 E H1 R1. apply (Hend (rot_right y g k t) k2 t2); try done.
      { by intros ?; apply Hc. } congruence.
Qed.

(** ** The red-black invariant *)

(** Every way down meets [n] black nodes, and no red node has a red child. *)
Inductive rb_ok : nat → ctree → Prop :=
  | ok_leaf : rb_ok 0 CL
  | ok_red n l a r : rb_ok n l → rb_ok n r → color_of l = BLACK → color_of r = BLACK → rb_ok n (CN RED l a r)
  | ok_black n l a r : rb_ok n l → rb_ok n r → rb_ok (S n) (CN BLACK l a r).

Create HintDb rb.
#[local] Hint Constructors rb_ok : rb.

Definition head_black (ps : list crumb) : Prop := match ps with k :: _ => crumb_color k = BLACK | [] => False end.

(** A black subtree of black height [n] fits at the end of the way. *)
Fixpoint fits (n : nat) (ps : list crumb) : Prop :=
  match ps with
  | [] => True
  | k :: ps => rb_ok n (side k) ∧
      match crumb_color k with
      | RED => color_of (side k) = BLACK ∧ head_black ps ∧ fits n ps
      | BLACK => fits (S n) ps
      end
  end.

Lemma fits_plug n t ps :
  fits n ps → rb_ok n t → color_of t = BLACK ∨ head_black ps → (∃ m, rb_ok m (plug t ps)) ∧ color_of (plug t ps) = BLACK.
Proof.
  revert n t. induction ps as [|k ps IH]; intros n t Hf Ht Hc; [destruct Hc as [Hc|[]]; eauto|].
  destruct Hf as [Hside Hf]. cbn [plug]. destruct k as [[] a r|[] l a]; cbn [crumb_color side head_black fill] in *.
  - destruct Hf as (Hb & Hh & Hf). destruct Hc as [Hc|]; [|done]. apply (IH n); auto with rb.
  - apply (IH (S n)); auto with rb.
  - destruct Hf as (Hb & Hh & Hf). destruct Hc as [Hc|]; [|done]. apply (IH n); auto with rb.
  - apply (IH (S n)); auto with rb.
Qed.

Lemma paint_black n t : color_of t = RED → rb_ok n t → rb_ok (S n) (paint BLACK t) ∧ color_of (paint BLACK t) = BLACK.
Proof. intros Hc Ht. destruct Ht; [done| |done]. cbn. auto with rb. Qed.

Lemma addrs_paint c t : addrs (paint c t) = addrs t.
Proof. by destruct t. Qed.

Lemma not_red t : color_of t ≠ RED → color_of t = BLACK.
Proof. by destruct (color_of t). Qed.

(** The repair makes the tree a red-black tree with the same nodes in the same order. *)
Lemma fix_up_ok n a x b ps t' :
  rb_ok n a → rb_ok n b → color_of a = BLACK → color_of b = BLACK → fits n ps → fix_up (CN RED a x b) ps = Some t' →
  (∃ m, rb_ok m t') ∧ color_of t' = BLACK ∧ addrs t' = addrs (plug (CN RED a x b) ps).
Proof.
  remember (length ps) as len eqn:El. assert (length ps ≤ len)%nat as Hlen by lia. clear El.
  revert n a x b ps Hlen. induction len as [|len IH]; intros n a x b ps Hlen Ha Hb Ca Cb Hf Hfix.
  { destruct ps; [|cbn in Hlen; lia]. injection Hfix as <-. split_and!; [eauto with rb|done|done]. }
  assert (head_black ps → Some (plug (CN RED a x b) ps) = Some t' → (∃ m, rb_ok m t') ∧ color_of t' = BLACK ∧ addrs t' = addrs (plug (CN RED a x b) ps)) as Hstop.
  { intros Hh [= <-]. destruct (fits_plug n (CN RED a x b) ps); eauto with rb. }
  destruct ps as [|k [|k' ps]]; [injection Hfix as <-; split_and!; [eauto with rb|done|done]|..].
  { apply Hstop; [|done]. destruct Hf as [_ Hf]. cbn. destruct (crumb_color k); [|done]. by destruct Hf as (_ & [] & _). }
  cbn [fix_up] in Hfix. case_bool_decide as Hk; [by apply Hstop|]. clear Hstop.
  destruct Hf as [Hside Hf]. destruct (crumb_color k) eqn:Ek; [|done]. destruct Hf as (Cs & Ck' & Hside' & Hf). cbn in Ck'. rewrite Ck' in Hf.
  assert (∀ u, addrs u = addrs (fill k' (fill k (CN RED a x b))) → addrs (plug u ps) = addrs (plug (CN RED a x b) (k :: k' :: ps))) as Haddr.
  { intros u Hu. by apply (addrs_plug (fill k' (fill k (CN RED a x b))) u ps). }
  assert (rb_ok (S n) (paint BLACK (fill k (CN RED a x b)))) as Hp by (destruct k; cbn in *; auto with rb).
  assert (∀ u, rb_ok (S n) u → color_of u = BLACK → addrs u = addrs (fill k' (fill k (CN RED a x b))) → Some (plug u ps) = Some t' →
    (∃ m, rb_ok m t') ∧ color_of t' = BLACK ∧ addrs t' = addrs (plug (CN RED a x b) (k :: k' :: ps))) as Hrot.
  { intros u Hu Cu Eu [= <-]. destruct (fits_plug (S n) u ps); auto. }
  assert (∀ g l r, rb_ok (S n) l → rb_ok (S n) r → color_of l = BLACK → color_of r = BLACK →
    addrs (CN RED l g r) = addrs (fill k' (fill k (CN RED a x b))) → fix_up (CN RED l g r) ps = Some t' →
    (∃ m, rb_ok m t') ∧ color_of t' = BLACK ∧ addrs t' = addrs (plug (CN RED a x b) (k :: k' :: ps))) as Hrec.
  { intros g l r Hl Hr Cl Cr E Hx. rewrite <- (Haddr _ E). apply (IH (S n)); try done. cbn in Hlen. lia. }
  clear Haddr IH. destruct k' as [cg g y|cg y g]; cbn [side crumb_color] in *; subst cg; case_bool_decide as Hy.
  - destruct (paint_black n y Hy Hside'). eapply Hrec; [..|exact Hfix]; try done; [by destruct k|].
    cbn [strip inorder fill]. by rewrite !addrs_paint.
  - apply not_red in Hy. destruct ps as [|[c1 g1 r1|c1 l1 g1] ps]; try done; (eapply Hrot; [..|exact Hfix]);
      destruct k as [ck p c|ck c p]; cbn in Ek, Hside, Cs; subst ck; cbn [rot_left]; auto 6 with rb; cbn; repeat (rewrite <- app_assoc; cbn); done.
  - destruct (paint_black n y Hy Hside'). eapply Hrec; [..|exact Hfix]; try done; [by destruct k|].
    cbn [strip inorder fill]. by rewrite !addrs_paint.
  - apply not_red in Hy. eapply Hrot; [..|exact Hfix];
      destruct k as [ck p c|ck c p]; cbn in Ek, Hside, Cs; subst ck; cbn [rot_right]; auto 6 with rb; cbn; repeat (rewrite <- app_assoc; cbn); done.
Qed.

(** A red-black tree is balanced. *)
Lemma rb_ok_size n t : rb_ok n t → (2 ^ n ≤ S (length (addrs t)))%nat.
Proof.
  induction 1 as [|n l a r Hl IHl Hr IHr _ _|n l a r Hl IHl Hr IHr]; cbn [strip inorder length];
    rewrite ?length_app; cbn [length Nat.pow]; lia.
Qed.

Lemma rb_ok_depth n t : rb_ok n t → (depth (strip t) ≤ 2 * n + (if color_of t is RED then 1 else 0))%nat.
Proof.
  induction 1 as [|n l a r Hl IHl Hr IHr Cl Cr|n l a r Hl IHl Hr IHr]; cbn [strip depth color_of]; [lia|..].
  - rewrite Cl in IHl. rewrite Cr in IHr. lia.
  - destruct (color_of l), (color_of r); lia.
Qed.

Lemma rb_ok_balanced n t : rb_ok n t → color_of t = BLACK → (depth (strip t) ≤ 2 * Nat.log2 (S (length (addrs t))))%nat.
Proof.
  intros Ht Hc. pose proof (rb_ok_depth _ _ Ht) as Hd. rewrite Hc in Hd.
  assert (n ≤ Nat.log2 (S (length (addrs t))))%nat; [|lia]. apply Nat.log2_le_pow2; [lia|]. by apply rb_ok_size.
Qed.

(** ** Insertion *)

Section insertion.
Context (comp : Z → Z → Z).

(** The way to the place of the new node [x]. *)
Fixpoint way (x : Z) (t : ctree) (ps : list crumb) : list crumb :=
  match t with
  | CL => ps
  | CN c l a r => if comp x a <? 0 then way x l (InL c a r :: ps) else way x r (InR c l a :: ps)
  end.

Definition rb_insert (x : Z) (t : ctree) : option ctree :=
  fix_up (CN RED CL x CL) (way x (paint BLACK t) []).

(** The tree with [u] at that place. *)
Fixpoint put (x : Z) (u t : ctree) : ctree :=
  match t with
  | CL => u
  | CN c l a r => if comp x a <? 0 then CN c (put x u l) a r else CN c l a (put x u r)
  end.

Lemma plug_way x u t ps : plug u (way x t ps) = plug (put x u t) ps.
Proof.
  revert ps. induction t as [|c l IHl a r IHr]; intros ps; [done|]. cbn [way put]. destruct (comp x a <? 0); [by rewrite IHl|by rewrite IHr].
Qed.

Lemma way_self x t ps : plug CL (way x t ps) = plug t ps.
Proof.
  revert ps. induction t as [|c l IHl a r IHr]; intros ps; [done|]. cbn [way]. destruct (comp x a <? 0); [by rewrite IHl|by rewrite IHr].
Qed.

Lemma way_length x t ps : (length (way x t ps) ≤ depth (strip t) + length ps)%nat.
Proof.
  revert ps. induction t as [|c l IHl a r IHr]; intros ps; [done|]. cbn [way strip depth].
  destruct (comp x a <? 0); [etrans; [apply IHl|]|etrans; [apply IHr|]]; cbn; lia.
Qed.

Lemma way_fits x n t ps :
  rb_ok n t → fits n ps → color_of t = BLACK ∨ head_black ps → fits 0 (way x t ps).
Proof.
  intros Ht. revert ps. induction Ht as [|n l a r Hl IHl Hr IHr Cl Cr|n l a r Hl IHl Hr IHr]; intros ps Hf Hc; [done|..]; cbn [way].
  - destruct Hc as [?|Hc]; [done|]. destruct (comp x a <? 0); [apply IHl|apply IHr]; cbn; auto.
  - destruct (comp x a <? 0); [apply IHl|apply IHr]; cbn; auto.
Qed.

(** The last step of the way is to the side the comparison says. *)
Definition right_side (x : Z) (ps : list crumb) : Prop :=
  match ps with [] => True | k :: _ => (comp x (crumb_addr k) <? 0) = match k with InL _ _ _ => true | InR _ _ _ => false end end.

Lemma way_side x t ps : right_side x ps → right_side x (way x t ps).
Proof.
  revert ps. induction t as [|c l IHl a r IHr]; intros ps Hs; [done|]. cbn [way].
  destruct (comp x a <? 0) eqn:E; [apply IHl|apply IHr]; done.
Qed.

Lemma rb_walk_ok fuel x c l a r ps s :
  (depth (strip (CN c l a r)) ≤ fuel)%nat → holds s (plug (CN c l a r) ps) →
  wp (rb_walk comp fuel x a) (λ i s', s' = s ∧ i = up (way x (CN c l a r) ps)) s.
Proof.
  revert c l a r ps. induction fuel as [|fuel IH]; intros c l a r ps Hf Hs; [cbn in Hf; lia|].
  destruct (focus_node _ _ _ _ _ _ Hs) as [Ha _]. cbn [rb_walk way]. rewrite (proj2 (Z.eqb_neq a 0)) by done.
  pose proof (ho_nodup _ _ Hs) as Hn. apply nodup_plug in Hn. cbn [strip] in Hn. apply nodup_br in Hn as (_ & _ & Hal & Har & _).
  destruct (comp x a <? 0); apply wp_bind, (wp_focus _ c l r a ps); try done; cbn [n_left n_right].
  - destruct l as [|cl ll al rl]; [by apply wp_ret|]. destruct (focus_node _ _ _ _ _ (InL c a r :: ps) Hs) as [Hal0 _].
    cbn [strip root]. unfold nz. rewrite (proj2 (Z.eqb_neq al 0)), (proj2 (Z.eqb_neq al a)) by (try done; intros ->; apply Hal; cbn; set_solver).
    cbn [negb andb]. apply (IH cl ll al rl (InL c a r :: ps)); [cbn in *; lia|done].
  - destruct r as [|cr lr ar rr]; [by apply wp_ret|]. destruct (focus_node _ _ _ _ _ (InR c l a :: ps) Hs) as [Har0 _].
    cbn [strip root]. unfold nz. rewrite (proj2 (Z.eqb_neq ar 0)), (proj2 (Z.eqb_neq ar a)) by (try done; intros ->; apply Har; cbn; set_solver).
    cbn [negb andb]. apply (IH cr lr ar rr (InR c l a :: ps)); [cbn in *; lia|done].
Qed.

End insertion.

Definition path_addrs (ps : list crumb) : list Z := ps ≫= λ k, crumb_addr k :: addrs (side k).

Lemma addrs_plug_perm t ps : addrs (plug t ps) ≡ₚ addrs t ++ path_addrs ps.
Proof.
  revert t. induction ps as [|k ps IH]; intros t; [by rewrite app_nil_r|]. cbn [plug]. rewrite IH.
  change (path_addrs (k :: ps)) with ((crumb_addr k :: addrs (side k)) ++ path_addrs ps).
  rewrite (assoc_L (++) (addrs t)). f_equiv. destruct k; cbn [fill strip inorder crumb_addr side]; solve_Permutation.
Qed.

Lemma rep_path_frame h h' c ps : (∀ a, a ∈ path_addrs ps → h' !! a = h !! a) → rep_path h c ps → rep_path h' c ps.
Proof.
  revert c. induction ps as [|k ps IH]; intros c He; [done|].
  change (path_addrs (k :: ps)) with (crumb_addr k :: addrs (side k) ++ path_addrs ps) in He.
  destruct k as [ck a r|ck l a]; cbn [rep_path crumb_addr side] in *; intros (Ha & E & Hr & Hp); (split; [done|]);
    (split; [by rewrite He by (by left)|]); (split; [eapply rep_frame; [|done]|apply IH; [|done]]);
    intros b Hb; apply He; right; apply elem_of_app; tauto.
Qed.

Lemma painted_path m t t' ps :
  painted m (plug t ps) → painted m t' → painted m (plug t' ps).
Proof.
  revert t t'. induction ps as [|k ps IH]; intros t t' H H'; [done|]. cbn [plug] in *.
  eapply IH; [done|]. apply painted_plug in H. destruct k; cbn in *; tauto.
Qed.

(** The new node [x] becomes the child of the last node of the way. *)
Lemma attach_holds s x k ps h' :
  holds s (plug CL (k :: ps)) → x ≠ 0 → x ∉ addrs (plug CL (k :: ps)) → rb_colors s !! x = Some RED →
  h' !! x = Some (Node (crumb_addr k) 0 0) →
  (∃ c, heap_of s !! crumb_addr k = Some c ∧
     h' !! crumb_addr k = Some (match k with InL _ _ _ => set_left x c | InR _ _ _ => set_right x c end)) →
  (∀ a, a ≠ x → a ≠ crumb_addr k → h' !! a = heap_of s !! a) →
  holds (set_trees (Trees h' (t_visited (rb_trees s))) s) (plug (CN RED CL x CL) (k :: ps)).
Proof.
  intros Hs Hx Hin Hc E (c & Ec & Ek) Ho. pose proof Hs as [Hr Hn Hp]. rewrite addrs_plug_perm in Hn, Hin. cbn [strip inorder app] in Hn, Hin.
  change (path_addrs (k :: ps)) with (crumb_addr k :: addrs (side k) ++ path_addrs ps) in Hn, Hin.
  split; cbn [set_trees rb_trees rb_colors t_heap].
  - apply rep_plug in Hr as [_ Hr]. apply rep_plug. split; [done|]. cbn [strip root].
    assert (∀ a, a ∈ addrs (side k) ++ path_addrs ps → h' !! a = heap_of s !! a) as Hf.
    { intros a Ha. apply Ho; [intros ->; apply Hin; by right|]. intros ->. apply NoDup_cons in Hn. tauto. }
    destruct k as [ck a r|ck l a]; cbn [rep_path crumb_addr side] in *; destruct Hr as (Ha & Ea & Hr & Hp'); rewrite Ec in Ea;
      injection Ea as ->; (split; [done|]); (split; [done|]); (split; [eapply rep_frame; [|exact Hr]|eapply rep_path_frame; [|exact Hp']]);
      intros b Hb; apply Hf, elem_of_app; tauto.
  - rewrite addrs_plug_perm. cbn [strip inorder app]. by apply NoDup_cons.
  - eapply painted_path; [done|]. done.
Qed.

(** [x] is an initialised node outside of the tree. *)
Record spare (s : rbs) (t : ctree) (x : Z) : Prop := {
  sp_addr : x ≠ 0;
  sp_out : x ∉ addrs t;
  sp_node : ∃ p, heap_of s !! x = Some (Node p 0 0);
  sp_color : is_Some (rb_colors s !! x);
}.

Lemma rb_ins_code comp fuel s t x t' :
  holds s t → t ≠ CL → rb_root s = top t → spare s t x → (depth (strip t) < fuel)%nat →
  rb_insert comp x t = Some t' →
  wp (rb_ins comp fuel x) (λ v s', v = 0 ∧ holds s' t' ∧ rb_root s' = top t') s.
Proof.
  intros Hs Ht Hr [Hx Hin (p & Ex) Hcx] Hf Hins. unfold rb_ins.
  destruct t as [|c l a r]; [done|]. clear Ht. set (t := CN BLACK l a r).
  pose proof Hs as [Hrep Hnd Hpt]. pose proof Hpt as (Ea & _).
  assert (a ≠ x) as Hax by (intros ->; apply Hin; cbn; set_solver).
  apply wp_bind, wp_bind, wp_gets. rewrite Hr. eapply wp_paint; [exact Ea|]. apply wp_bind. destruct Hcx as [cx Ecx].
  eapply wp_paint; [cbn; by rewrite lookup_insert_ne|]. apply wp_bind, wp_gets. cbn [rb_trees rb_colors rb_root].
  rewrite Hr. set (s1 := Rbs _ _ _).
  assert (holds s1 t) as H1.
  { split; [done|done|]. apply painted_out; [done|]. pose proof (painted_paint _ a BLACK _ Hnd Hpt) as H. cbn in H. rewrite Z.eqb_refl in H. done. }
  apply wp_bind. eapply wp_mono; [apply (rb_walk_ok comp fuel x BLACK l a r [] s1); [cbn in *; lia|done]|]. cbv beta.
  intros i s' [-> ->]. fold t. pose proof (way_length comp x t []) as Hlen. pose proof (way_side comp x t [] I) as Hside.
  pose proof (way_self comp x t []) as Hself. change (rb_insert comp x (CN c l a r)) with (fix_up (CN RED CL x CL) (way comp x t [])) in Hins.
  destruct (way comp x t []) as [|k ps]; [done|]. cbn [up right_side] in *. cbn [plug] in Hself.
  assert (holds s1 (plug CL (k :: ps))) as H2 by (by cbn [plug]; rewrite Hself).
  assert (∃ ck, heap_of s !! crumb_addr k = Some ck ∧ crumb_addr k ≠ 0 ∧ crumb_addr k ≠ x) as (ck & Eck & Hk0 & Hkx).
  { assert (crumb_addr k ∈ addrs (plug CL (k :: ps))) as Hk by (rewrite addrs_plug_perm; cbn; set_solver).
    cbn [plug] in Hk. rewrite Hself in Hk. destruct (rep_node _ _ _ _ Hrep Hk) as (ck & ? & ? & _). exists ck. split_and!; [done|done|].
    intros Ekx. apply Hin. by rewrite <- Ekx. }
  apply wp_bind, wp_on_trees. eapply wp_stn; [exact Ex|]. cbn [set_trees rb_trees rb_colors rb_root].
  apply wp_bind. unfold when, nz. rewrite (proj2 (Z.eqb_neq _ 0)) by done. cbn [negb]. rewrite Hside.
  assert (∀ f, (f = match k with InL _ _ _ => set_left x | InR _ _ _ => set_right x end) →
    wp (on_trees (stn (crumb_addr k) f)) (λ _ s', wp (rb_fix fuel x) (λ v s', v = 0 ∧ holds s' t' ∧ rb_root s' = top t') s')
      (set_trees (set_heap (<[x := set_parent (crumb_addr k) (Node p 0 0)]> (heap_of s1)) (rb_trees s1)) s1)) as Hst.
  { intros f ->. apply wp_on_trees. eapply wp_stn; [cbn; rewrite lookup_insert_ne by done; exact Eck|].
    apply (rb_fix_ok fuel CL x CL (k :: ps)); [cbn in *; lia|..|done].
    - apply (attach_holds s1 x k ps (<[crumb_addr k := (match k with InL _ _ _ => set_left x | InR _ _ _ => set_right x end) ck]>
        (<[x := Node (crumb_addr k) 0 0]> (heap_of s1)))); [done|done|cbn [plug]; by rewrite Hself|cbn; by rewrite lookup_insert_eq|..].
      + by rewrite lookup_insert_ne, lookup_insert_eq by done.
      + exists ck. rewrite lookup_insert_eq. split; [done|]. by destruct k.
      + intros b ? ?. by rewrite !lookup_insert_ne by done.
    - cbn. destruct (top_plug CL (k :: ps)) as [?|(r0 & E & _)]; [done|]. cbn [plug] in E. rewrite !E.
      specialize (E CL). rewrite Hself in E. by rewrite <- E.
    - cbn [settled]. rewrite (color_plug _ CL). cbn [plug]. by rewrite Hself. }
  destruct k; apply Hst; done.
Qed.

Section insert_props.
Context (comp : Z → Z → Z) (key : Z → Z).
Context (Hcomp : ∀ a b, comp a b < 0 ↔ key a < key b).

Definition ordered (t : ctree) : Prop := StronglySorted (λ a b, key a ≤ key b) (addrs t).

Lemma put_perm x t : addrs (put comp x (CN RED CL x CL) t) ≡ₚ x :: addrs t.
Proof using Type.
  induction t as [|c l IHl a r IHr]; [done|]. cbn [put]. destruct (comp x a <? 0); cbn [strip inorder]; rewrite ?IHl, ?IHr; [done|].
  solve_Permutation.
Qed.

Lemma put_ordered x t : ordered t → ordered (put comp x (CN RED CL x CL) t).
Proof using Hcomp.
  unfold ordered. induction t as [|c l IHl a r IHr]; [intros _; cbn; repeat constructor|]. cbn [strip inorder].
  rewrite StronglySorted_app. intros (Hlr & Hl & Hr). apply StronglySorted_cons in Hr as [Har Hr].
  assert (key x < key a ∨ key a ≤ key x) as Hk by lia. rewrite <- Hcomp in Hk.
  cbn [put]. destruct (Z.ltb_spec (comp x a) 0) as [Hlt|Hge]; cbn [strip inorder]; rewrite StronglySorted_app.
  - apply Hcomp in Hlt. split_and!; [|by apply IHl|by constructor]. intros b d Hb Hd. rewrite put_perm in Hb.
    apply elem_of_cons in Hb as [->|Hb]; [|by apply Hlr]. apply elem_of_cons in Hd as [->|Hd]; [lia|].
    rewrite Forall_forall in Har. specialize (Har _ Hd). lia.
  - destruct Hk as [?|Hk]; [lia|]. split_and!; [|done|].
    + intros b d Hb Hd. rewrite put_perm in Hd. apply elem_of_cons in Hd as [->|Hd]; [by apply Hlr; [|left]|].
      apply elem_of_cons in Hd as [->|Hd]; [|by apply Hlr; [|right]]. specialize (Hlr b a Hb ltac:(by left)). lia.
    + constructor; [by apply IHr|]. rewrite put_perm. by constructor.
Qed.

(** C13: [rb_ins] adds a node to a red-black tree.  From a heap that holds a non-empty red-black tree ordered by the
    comparison's keys, and an initialised node outside of it, it returns 0 and leaves a red-black tree again: every parent
    link, child link and colour is in place, the root pointer is at the root, which is black, no red node has a red child,
    every way down meets the same number of black nodes, the nodes are the old ones and the new one in the order of their
    keys, and the depth is at most twice the logarithm of their number.  This holds for every insertion whose repair does
    not rotate a left child to the right, which [rb_insert] tells. *)
Theorem rb_ins_correct fuel s t n x :
  holds s t → t ≠ CL → rb_root s = top t → rb_ok n t → ordered t → spare s t x → (depth (strip t) < fuel)%nat →
  is_Some (rb_insert comp x t) →
  wp (rb_ins comp fuel x) (λ v s', v = 0 ∧ ∃ t' m, rb_insert comp x t = Some t' ∧
    holds s' t' ∧ rb_root s' = top t' ∧ rb_ok m t' ∧ color_of t' = BLACK ∧ ordered t' ∧ addrs t' ≡ₚ x :: addrs t ∧
    (depth (strip t') ≤ 2 * Nat.log2 (S (length (addrs t'))))%nat) s.
Proof using Hcomp.
  intros Hs Ht Hr Hok Hord Hsp Hf [t' Ht']. eapply wp_mono; [by apply (rb_ins_code comp fuel s t x t')|]. cbv beta.
  intros v s' (-> & Hs' & Hr'). split; [done|]. exists t'.
  assert (∃ m, rb_ok m (paint BLACK t)) as [m0 Hok'].
  { destruct Hok; cbn; eauto using ok_leaf, ok_red, ok_black. }
  destruct (fix_up_ok 0 CL x CL (way comp x (paint BLACK t) []) t') as ((m & Hm) & Hc & Ha); try done; [apply ok_leaf|apply ok_leaf| |].
  { apply (way_fits comp x m0); [done|done|]. left. by destruct t. }
  rewrite plug_way in Ha. cbn [plug] in Ha.
  assert (addrs (put comp x (CN RED CL x CL) (paint BLACK t)) = addrs (put comp x (CN RED CL x CL) t)) as E by (destruct t as [|? ? a ?]; [done|]; cbn; by destruct (comp x a <? 0)).
  rewrite E in Ha. exists m. split_and!; try done.
  - unfold ordered. rewrite Ha. by apply put_ordered.
  - rewrite Ha. apply put_perm.
  - by apply (rb_ok_balanced m).
Qed.

(** A new greatest key never meets the fault of the right rotation. *)
Lemma fix_up_right t ps : Forall (λ k, match k with InL _ _ _ => False | InR _ _ _ => True end) ps → is_Some (fix_up t ps).
Proof using Type.
  remember (length ps) as len eqn:El. assert (length ps ≤ len)%nat as Hlen by lia. clear El.
  revert t ps Hlen. induction len as [|len IH]; intros t ps Hlen Hps; [destruct ps; [done|cbn in Hlen; lia]|].
  destruct ps as [|k [|k' ps]]; [done|done|]. cbn [fix_up]. case_bool_decide; [done|].
  apply Forall_cons in Hps as [_ [Hk' Hps]%Forall_cons]. destruct k' as [|c y g]; [done|]. case_bool_decide; [|done].
  apply IH; [cbn in Hlen; lia|done].
Qed.

Lemma way_right x t ps : (∀ a, a ∈ addrs t → key a ≤ key x) →
  Forall (λ k, match k with InL _ _ _ => False | InR _ _ _ => True end) ps →
  Forall (λ k, match k with InL _ _ _ => False | InR _ _ _ => True end) (way comp x t ps).
Proof using Hcomp.
  revert ps. induction t as [|c l IHl a r IHr]; intros ps Ha Hps; [done|]. cbn [way strip inorder] in *.
  rewrite (proj2 (Z.ltb_ge _ _)).
  - apply IHr; [|by constructor]. intros b Hb. apply Ha. set_solver.
  - specialize (Ha a ltac:(set_solver)). pose proof (Hcomp x a). lia.
Qed.

Theorem rb_insert_greatest x t : (∀ a, a ∈ addrs t → key a ≤ key x) → is_Some (rb_insert comp x t).
Proof using Hcomp. intros H. apply fix_up_right, way_right; [by rewrite addrs_paint|done]. Qed.

End insert_props.

Lemma rb_comp_key data a b : - 2 ^ 30 ≤ data a < 2 ^ 30 → - 2 ^ 30 ≤ data b < 2 ^ 30 → rb_comp data a b < 0 ↔ data a < data b.
Proof. intros Ha Hb. unfold rb_comp. rewrite swrap_small by lia. lia. Qed.

(** Three nodes at the addresses of their keys: 20 and its red child 30 in the tree, 25 outside. *)
Definition ex_rb : rbs :=
  Rbs (Trees (<[20 := Node 0 0 30]> (<[30 := Node 20 0 0]> (<[25 := Node 0 0 0]> ∅))) [])
    (<[20 := BLACK]> (<[30 := RED]> (<[25 := RED]> ∅))) 20.
Definition ex_rb_tree : ctree := CN BLACK CL 20 (CN RED CL 30 CL).

Lemma rb_ins_correct_witness :
  wp (rb_ins Z.sub 3 25) (λ v s', v = 0 ∧ ∃ t' m, rb_insert Z.sub 25 ex_rb_tree = Some t' ∧
    holds s' t' ∧ rb_root s' = top t' ∧ rb_ok m t' ∧ color_of t' = BLACK ∧ ordered id t' ∧ addrs t' ≡ₚ 25 :: addrs ex_rb_tree ∧
    (depth (strip t') ≤ 2 * Nat.log2 (S (length (addrs t'))))%nat) ex_rb.
Proof.
  apply (rb_ins_correct Z.sub id ltac:(intros a b; unfold id; lia) 3 ex_rb ex_rb_tree 1 25).
  - split; [by_decide|by_decide|by cbn].
  - done.
  - done.
  - unfold ex_rb_tree. eauto using ok_leaf, ok_red, ok_black.
  - unfold ordered, ex_rb_tree. cbn. unfold id. repeat constructor; lia.
  - split; [done|by_decide|by eexists|by eexists].
  - cbn. lia.
  - by eexists.
Defined.

(** Five nodes inserted in descending order: the rotation at the left child 30 unlinks it and its child 20. *)
Definition five_nodes : rbs :=
  Rbs (Trees (list_to_map ((λ a, (a, Node 0 0 0)) <$> [10; 20; 30; 40; 50])) []) (list_to_map ((λ a, (a, RED)) <$> [10; 20; 30; 40; 50])) 50.

Theorem rb_ins_loses_nodes :
  ∃ s', (mapM (rb_ins (rb_comp id) 10) [40; 30; 20; 10] ;; root ← gets rb_root; on_trees (do_inorder 10 root)) five_nodes = Ok (0, s') ∧
    t_visited (rb_trees s') = [10; 40; 50].
Proof. eexists. split; [vm_compute; reflexivity|done]. Qed.

(** [rb_get_root] finds the root from any node. *)
Theorem rb_get_root_correct fuel s t ps :
  holds s (plug t ps) → t ≠ CL → (length ps < fuel)%nat →
  wp (rb_get_root fuel (top t)) (λ v s', v = top (plug t ps) ∧ s' = s) s.
Proof.
  revert t ps. induction fuel as [|fuel IH]; intros t ps Hs Ht Hf; [lia|]. cbn [rb_get_root].
  apply wp_bind, (wp_field_parent _ t ps _ Ht Hs). destruct ps as [|k ps]; [by apply wp_ret|]. cbn [up].
  assert (crumb_addr k ≠ 0 ∧ crumb_addr k ≠ top t) as [H0 Hne].
  { pose proof (ho_nodup _ _ Hs) as Hn. apply (nodup_plug (fill k t) ps) in Hn. split.
    - destruct k; by apply (focus_node _ _ _ _ _ ps) in Hs as [? _].
    - apply (nodup_side k t (top t)) in Hn as [? _]; [done|]. destruct t; [done|]. cbn. set_solver. }
  unfold nz. rewrite (proj2 (Z.eqb_neq _ 0)), (proj2 (Z.eqb_neq _ (top t))) by done. cbn [negb andb].
  replace (crumb_addr k) with (top (fill k t)) by (by destruct k). apply (IH (fill k t) ps); [done|by destruct k|cbn in Hf; lia].
Qed.

(** [uncle] finds the other child of the grandparent, and none for the root and its children. *)
Theorem uncle_correct s t ps :
  holds s (plug t ps) → t ≠ CL →
  wp (uncle (top t)) (λ v s', v = match ps with _ :: k :: _ => top (side k) | _ => 0 end ∧ s' = s) s.
Proof.
  intros Hs Ht. assert (top t ≠ 0) as H0 by (destruct t; [done|]; by apply focus_node in Hs as [? _]).
  unfold uncle. rewrite (proj2 (Z.eqb_neq _ 0)) by done. apply wp_bind, wp_bind, (wp_parent_tree _ t ps _ Ht Hs).
  destruct ps as [|k ps]; [by do 2 apply wp_ret|]. cbn [up].
  assert (fill k t ≠ CL ∧ top (fill k t) = crumb_addr k ∧ crumb_addr k ≠ 0) as (Hf & Ef & Hk0).
  { destruct k; by apply (focus_node _ _ _ _ _ ps) in Hs as [? _]. }
  rewrite (proj2 (Z.eqb_neq _ 0)) by done. rewrite <- Ef. apply wp_bind, (wp_parent_tree _ (fill k t) ps _ Hf Hs), wp_ret.
  destruct ps as [|k' ps]; [by apply wp_ret|]. cbn [up].
  assert (crumb_addr k' ≠ 0) as Hk0' by (destruct k'; by apply (focus_node _ _ _ _ _ ps) in Hs as [? _]).
  rewrite (proj2 (Z.eqb_neq _ 0)) by done. apply wp_bind, (wp_parent_tree _ t _ _ Ht Hs). apply wp_bind, wp_bind.
  cbn [up]. rewrite <- Ef. apply (wp_parent_tree _ (fill k t) (k' :: ps) _ Hf Hs). cbn [up].
  pose proof (ho_nodup _ _ Hs) as Hn. apply (nodup_plug (fill k' (fill k t)) ps) in Hn.
  apply (nodup_side k' (fill k t) (top (fill k t))) in Hn as [_ Hn]; [|destruct k; cbn; set_solver].
  destruct k' as [c g r|c l g]; cbn [crumb_addr side] in *.
  - apply (wp_focus _ c (fill k t) r g ps); [done|]. cbn [n_left]. rewrite Z.eqb_refl.
    apply wp_bind, (wp_field_parent _ t _ _ Ht Hs). cbn [up]. rewrite <- Ef.
    apply wp_bind, (wp_field_parent _ (fill k t) (InL c g r :: ps) _ Hf Hs). by apply (wp_focus _ c (fill k t) r g ps).
  - apply (wp_focus _ c l (fill k t) g ps); [done|]. cbn [n_left]. rewrite (proj2 (Z.eqb_neq _ (top l))).
    2: { intros E. apply Hn. rewrite E. destruct l; [|cbn; set_solver]. cbn in E. congruence. }
    apply wp_bind, (wp_field_parent _ t _ _ Ht Hs). cbn [up]. rewrite <- Ef.
    apply wp_bind, (wp_field_parent _ (fill k t) (InR c l g :: ps) _ Hf Hs). by apply (wp_focus _ c l (fill k t) g ps).
Qed.
