(* ===== verification/Logger.v ===== *)
(** * The older loggers ([arch/x86_64/common/logger.c], [arch/i386/common/logger.c])

    The x86_64 one has a formatter of its own, a sibling of the C library's [printf], and
    writes to the serial line only; the 32-bit one uses the console's and the serial
    line's formatters, the console once it is ready. *)

From S2P Require Import Prelude Loops CString Format Gfx Log Printf.

(* src/include/kernel/logger.h 8-14 log_type *)
Definition LOG_INFO : Z := 0.
Definition LOG_SUCCESS : Z := 1.
Definition LOG_WARNING : Z := 2.
Definition LOG_ERROR : Z := 3.
Definition LOG_DEBUG : Z := 4.

(** The prefixes, the same in both; any other value is [????]. *)
Definition prefix_of (type : Z) : list Z :=
  if type =? LOG_INFO then chars "[INFO] "
  else if type =? LOG_SUCCESS then chars "[ OK ] "
  else if type =? LOG_WARNING then chars "[WARN] "
  else if type =? LOG_ERROR then chars "[FAIL] "
  else if type =? LOG_DEBUG then chars "[DBUG] "
  else chars "[????] ".

(** ** x86_64 *)

Section logger.
Context {St : Type} `{SK : Sink St}.

(** [rd i] reads [data[i]]. *)
(* src/arch/x86_64/common/logger.c 13-18 serial_print *)
Fixpoint serial_print (rd : Z → M St Z) (length : nat) (i : Z) : M St bool :=
  match length with
  | O => mret true
  | S n => c ← rd i; putc c ;; serial_print rd n (i + 1)
  end.

(** A string literal on the serial line. *)
Definition serial_lit (l : list Z) : M St unit := serial_write (rom_of l) (length l) 0.

(* src/arch/x86_64/common/logger.c 20-45 log_prefix *)
Definition log_prefix (type : Z) : M St unit := serial_lit (prefix_of type).

Section rom.
Context (rom : gmap Z Z).

(* src/arch/x86_64/common/logger.c 47-50 log *)
Definition log_line (n : nat) (type str : Z) : M St unit :=
  log_prefix type ;;
  serial_write rom n str.

Definition serial_print_at (p n : Z) : M St bool := serial_print (λ i, ldr rom (p + i)) (Z.to_nat n) 0.

(** [strlen] of a local buffer, and [serial_print] of that much. *)
Definition serial_print_buf (size : nat) (m : bmem) : M St (Z * bool) :=
  len ← lift_b m (strlen size 0);
  ok ← serial_print (λ i, lift_b m (ldc i)) (Z.to_nat len) 0;
  mret (len, ok).

(** The loop, from [format] on; [n] bounds the strings, [fuel] the turns. *)
(* src/arch/x86_64/common/logger.c 62-165 logf *)
Fixpoint logf_from (n fuel : nat) (format : Z) (parameters : list Z) (written : Z) : M St unit :=
  c ← ldr rom format;
  if c =? 0 then mret tt else
  match fuel with
  | O => out_of_fuel
  | S fuel =>
  let maxrem := INT_MAX - written in
  plain ← (if negb (c =? ch_percent) then mret true else d ← ldr rom (format + 1); mret (d =? ch_percent));
  if (plain : bool) then
    let format := if c =? ch_percent then format + 1 else format in
    amount ← span rom n format 1;
    if maxrem <? amount then mret tt else
    ok ← serial_print_at format amount;
    if negb ok then mret tt else logf_from n fuel (format + amount) parameters (written + amount)
  else
  let format_begun_at := format in
  let format := format + 1 in
  d ← ldr rom format;
  if d =? ch_c then
    va parameters (λ v parameters,
      if maxrem =? 0 then mret tt else
      ok ← serial_print (λ _, mret (s8 v)) 1 0;
      if negb ok then mret tt else logf_from n fuel (format + 1) parameters (written + 1))
  else if d =? ch_s then
    va parameters (λ str parameters,
      len ← strlen_at rom n str 0;
      if maxrem <? len then mret tt else
      ok ← serial_print_at str len;
      if negb ok then mret tt else logf_from n fuel (format + 1) parameters (written + len))
  else if d =? ch_d then
    if maxrem =? 0 then mret tt else
    va parameters (λ num parameters,
      num_buff ← local 12 (itoa 0 (s32 num));
      '(len, ok) ← serial_print_buf 12 num_buff;
      if negb ok then mret tt else logf_from n fuel (format + 1) parameters (written + len))
  else if d =? ch_x then
    if maxrem =? 0 then mret tt else
    va parameters (λ num parameters,
      num_buff ← local 9 (itoa_hex 0 (u32 num));
      '(len, ok) ← serial_print_buf 9 num_buff;
      if negb ok then mret tt else logf_from n fuel (format + 1) parameters (written + len))
  else
    let format := format_begun_at in
    len ← strlen_at rom n format 0;
    if maxrem <? len then mret tt else
    ok ← serial_print_at format len;
    if negb ok then mret tt else logf_from n fuel (format + len) parameters (written + len)
  end.

(* src/arch/x86_64/common/logger.c 53-60 logf *)
Definition logf (n fuel : nat) (type format : Z) (parameters : list Z) : M St unit :=
  log_prefix type ;;
  logf_from n fuel format parameters 0.
End rom.

(** [logf] with a literal without arguments. *)
Definition logf_lit (type : Z) (l : list Z) : M St unit := logf (rom_of l) (length l) (length l) type 0 [].

(** A string literal that ends in a newline. *)
Definition nl : list Z := [10].

(* src/arch/x86_64/common/logger.c 170-178 log_demo *)
Definition log_demo : M St unit :=
  serial_lit (nl ++ chars "=== Color Log Demo ===" ++ nl) ;;
  logf_lit LOG_INFO (chars "status" ++ nl) ;;
  logf_lit LOG_SUCCESS (chars "tests passed" ++ nl) ;;
  logf_lit LOG_WARNING (chars "unexpected value" ++ nl) ;;
  logf_lit LOG_ERROR (chars "test failed" ++ nl) ;;
  logf_lit LOG_DEBUG (chars "debug information" ++ nl) ;;
  serial_lit nl.
End logger.

(** ** i386 *)

(** [g_console_ready], the console and the serial line. *)
Record logger32 (C D : Type) := Logger32 { l32_ready : bool; l32_con : C; l32_ser : D }.
Arguments Logger32 {C D} _ _ _.
Arguments l32_ready {C D} _.
Arguments l32_con {C D} _.
Arguments l32_ser {C D} _.

(** The colour of a prefix. *)
(* src/arch/i386/common/logger.c 7-13 LOG_FG_INFO *)
Definition log_fg (type : Z) : Z :=
  if type =? LOG_INFO then rgb 0xCC 0xCC 0xCC
  else if type =? LOG_SUCCESS then rgb 0x00 0xCC 0x00
  else if type =? LOG_WARNING then rgb 0xFF 0xFF 0x00
  else if type =? LOG_ERROR then rgb 0xFF 0x00 0x00
  else if type =? LOG_DEBUG then rgb 0x87 0xCE 0xFA
  else rgb 0xCC 0xCC 0xCC.
Definition LOG_FG_DEFAULT : Z := rgb 0xCC 0xCC 0xCC.
Definition LOG_BG_DEFAULT : Z := rgb 0x00 0x00 0x00.

Section logger32.
Context {C D : Type} `{SC : Screen C} `{SD : Sink D}.
Context (rom : gmap Z Z).

Definition on_con {A} (m : M C A) : M (logger32 C D) A := λ s,
  match m (l32_con s) with
  | Ok (a, c) => Ok (a, Logger32 (l32_ready s) c (l32_ser s))
  | Panic msg => Panic msg | Halt => Halt | Fault a => Fault a | OutOfFuel => OutOfFuel
  end.
Definition on_ser {A} (m : M D A) : M (logger32 C D) A := λ s,
  match m (l32_ser s) with
  | Ok (a, d) => Ok (a, Logger32 (l32_ready s) (l32_con s) d)
  | Panic msg => Panic msg | Halt => Halt | Fault a => Fault a | OutOfFuel => OutOfFuel
  end.
Definition if_ready (m : M C unit) : M (logger32 C D) unit :=
  g_console_ready ← gets l32_ready;
  when g_console_ready (on_con m).

(* src/arch/i386/common/logger.c 22-24 logger_init_console *)
Definition logger_init_console : M (logger32 C D) unit :=
  modify (λ s, Logger32 true (l32_con s) (l32_ser s)).

(* src/arch/i386/common/logger.c 26-64 log_prefix *)
Definition log_prefix32 (type : Z) : M (logger32 C D) unit :=
  let prefix := prefix_of type in
  if_ready (
    set_fg (log_fg type) ;;
    console_puts (rom_of prefix) (length prefix) 0 ;;
    set_fg LOG_FG_DEFAULT ;;
    set_bg LOG_BG_DEFAULT) ;;
  on_ser (serial_lit prefix).

(* src/arch/i386/common/logger.c 66-72 log *)
Definition log_line32 (n : nat) (type str : Z) : M (logger32 C D) unit :=
  log_prefix32 type ;;
  if_ready (console_puts rom n str) ;;
  on_ser (serial_write rom n str).

(* src/arch/i386/common/logger.c 74-89 logf *)
Definition logf32 (n fuel : nat) (type format : Z) (args : list Z) : M (logger32 C D) unit :=
  log_prefix32 type ;;
  if_ready (console_vprintf rom n fuel format args) ;;
  on_ser (serial_vprintf rom n fuel format args).
End logger32.

(** * The theorems about the older loggers *)

(** ** The x86_64 formatter is [printf] *)

Section logger.
Context {St : Type} `{SK : Sink St}.
Context (rom : gmap Z Z).
Implicit Types (s : St).

(** A reader gives characters. *)
Definition gives_chars (rd : Z → M St Z) : Prop :=
  ∀ i s v s', rd i s = Ok (v, s') → - 2 ^ 7 ≤ v < 2 ^ 7.

Lemma serial_print_eq rd n : gives_chars rd → ∀ i s, serial_print rd n i s = print rd n i s.
Proof.
  intros Hrd. induction n as [|n IH]; intros i s; [done|]. cbn [serial_print print]. unfold mbind, M_bind.
  destruct (rd i s) as [[v s1]| | | |] eqn:E; try done. unfold putchar. rewrite (s8_u8 v) by eauto.
  unfold mbind, M_bind. destruct (putc v s1) as [[[] s2]| | | |]; try done.
  pose proof (wrap_bound 8 v ltac:(lia)). cbn. rewrite (proj2 (Z.eqb_neq (u8 v) EOF)) by (lia). apply IH.
Qed.

Lemma ldr_char_range p : gives_chars (λ i, ldr rom (p + i)).
Proof.
  intros i s v s'. unfold ldr. destruct (rom !! (p + i)) as [b|]; [|done]. intros [= <- <-]. apply (swrap_bound 8). lia.
Qed.

Lemma ldc_char_range (m : bmem) : gives_chars (λ i, lift_b m (ldc i)).
Proof.
  intros i s v s'. unfold lift_b, ldc, ldb, mbind, M_bind. destruct (m !! i) as [b|]; [|done].
  intros [= <- <-]. apply (swrap_bound 8). lia.
Qed.

(** The first computation is the second without its result. *)
Definition same (m : M St unit) (m' : M St Z) : Prop := ∀ s, m s = (_ ← m'; mret tt) s.

Lemma same_ret v : same (mret tt) (mret v).
Proof. by intros s. Qed.
Lemma same_bind {A} (m m' : M St A) k k' :
  (∀ s, m s = m' s) → (∀ a, same (k a) (k' a)) → same (a ← m; k a) (a ← m'; k' a).
Proof.
  intros Hm Hk s. rewrite M_bind_assoc. apply bind_ext; [apply Hm|]. intros a s'. apply Hk.
Qed.
Lemma same_if (b : bool) m1 m2 m1' m2' : same m1 m1' → same m2 m2' → same (if b then m1 else m2) (if b then m1' else m2').
Proof. by destruct b. Qed.
Lemma same_ok (b : bool) m m' v : same m m' → same (if negb b then mret tt else m) (if b then m' else mret v).
Proof. destruct b; [done|intros _; apply same_ret]. Qed.
Lemma same_va args k k' : (∀ v a, same (k v a) (k' v a)) → same (va args k) (va args k').
Proof. intros H. destruct args; [by intros s|apply H]. Qed.

Lemma serial_print_at_eq p n s : serial_print_at rom p n s = print_at rom p n s.
Proof. apply serial_print_eq, ldr_char_range. Qed.

Lemma serial_print_buf_eq size m s : serial_print_buf size m s = print_buf size m s.
Proof.
  apply bind_ext; [done|]. intros len s1. apply bind_ext; [|done]. apply serial_print_eq, ldc_char_range.
Qed.

Create HintDb same.
#[local] Hint Resolve same_ret same_if same_ok same_va : same.

Lemma logf_from_printf n fuel p args w : same (logf_from rom n fuel p args w) (printf_from rom n fuel p args w).
Proof.
  revert p args w. induction fuel as [|fuel IH]; intros p args w; cbn [logf_from printf_from].
  { apply same_bind; [done|]. intros c. apply same_if; [apply same_ret|by intros s]. }
  apply same_bind; [done|]. intros c. apply same_if; [apply same_ret|]. apply same_bind; [done|]. intros plain. apply same_if.
  { apply same_bind; [done|]. intros amount. apply same_if; [apply same_ret|]. apply same_bind; [apply serial_print_at_eq|auto with same]. }
  apply same_bind; [done|]. intros d. repeat apply same_if.
  - apply same_va. intros v a. apply same_if; [apply same_ret|]. apply same_bind; [|auto with same].
    apply serial_print_eq. intros i s v' s' [= <- <-]. apply (swrap_bound 8). lia.
  - apply same_va. intros v a. apply same_bind; [done|]. intros len. apply same_if; [apply same_ret|].
    apply same_bind; [apply serial_print_at_eq|auto with same].
  - apply same_ret.
  - apply same_va. intros v a. apply same_bind; [done|]. intros m. apply same_bind; [apply serial_print_buf_eq|].
    intros [len ok]. auto with same.
  - apply same_ret.
  - apply same_va. intros v a. apply same_bind; [done|]. intros m. apply same_bind; [apply serial_print_buf_eq|].
    intros [len ok]. auto with same.
  - apply same_bind; [done|]. intros len. apply same_if; [apply same_ret|].
    apply same_bind; [apply serial_print_at_eq|auto with same].
Qed.
End logger.

Lemma serial_lit_ok {St} `{SK : Sink St} l (s : St) : ascii l → serial_lit l s = emit l s.
Proof. intros Ha. apply puts_from_ok; [by apply rom_text|done]. Qed.

Lemma prefix_ascii type : ascii (prefix_of type).
Proof. unfold prefix_of. repeat case_match; by_decide. Qed.

Lemma logf_text {St} `{SK : Sink St} rom n fuel type p fmt args out (s : St) :
  prints rom itoa_of n fmt args out → text_at rom p fmt → (length fmt ≤ fuel)%nat → (length fmt ≤ n)%nat →
  Z.of_nat (length out) ≤ INT_MAX →
  logf rom n fuel type p args s = emit (prefix_of type ++ out) s.
Proof.
  intros Hp Ht Hf Hn Hm. unfold logf. rewrite emit_app. apply bind_ext; [apply serial_lit_ok, prefix_ascii|].
  intros [] s'. rewrite logf_from_printf. unfold mbind at 1, M_bind at 1. rewrite (printf_from_ok rom n fuel fmt args out p 0 s') by done.
  unfold done_with, mbind, M_bind. by destruct (emit out s') as [[[] s2]| | | |].
Qed.

(** The x86_64 logger writes the prefix of the message's type and then exactly what [printf] would print, whatever
    the format and its arguments are; for a format that stands for [out], that is [out]. *)
Theorem logf_correct {St} `{SK : Sink St} rom n fuel type p args (s : St) :
  logf rom n fuel type p args s = (emit (prefix_of type) ;; printf rom n fuel p args ;; mret tt) s ∧
  ∀ fmt out, prints rom itoa_of n fmt args out → text_at rom p fmt → (length fmt ≤ fuel)%nat → (length fmt ≤ n)%nat →
    Z.of_nat (length out) ≤ INT_MAX → logf rom n fuel type p args s = emit (prefix_of type ++ out) s.
Proof.
  split; [|intros fmt out; apply logf_text]. apply bind_ext; [apply serial_lit_ok, prefix_ascii|].
  intros [] s'. apply logf_from_printf.
Qed.

Lemma logf_correct_witness :
  logf (rom_of (chars "n=%x!")) 5 5 LOG_WARNING 0 [255] (Line []) = Ok (tt, Line (chars "[WARN] n=ff!")).
Proof.
  refine (eq_trans (proj2 (logf_correct (rom_of (chars "n=%x!")) 5 5 LOG_WARNING 0 [255] (Line [])) (chars "n=%x!")
    ([110; 61] ++ numeral 16 (u32 255) ++ [33]) _ _ _ _ _) _).
  - do 2 (apply q_char; [done|]). apply q_x. apply q_char; [done|]. apply q_end.
  - apply rom_text. by_decide.
  - simpl. lia.
  - simpl. lia.
  - vm_compute. discriminate.
  - vm_compute. reflexivity.
Defined.

(** ** The 32-bit logger *)

(** What a message adds to a screen: the prefix in the colour of its type, the text in the default colours. *)
Definition message (type : Z) (bg : Z) (out : list Z) : list (Z * Z * Z) :=
  ((λ c, (c, log_fg type, bg)) <$> prefix_of type) ++ ((λ c, (c, LOG_FG_DEFAULT, LOG_BG_DEFAULT)) <$> out).

Lemma on_con_Ok {A} (m : M trace A) a b c c' (d : line) : m c = Ok (a, c') → on_con m (Logger32 b c d) = Ok (a, Logger32 b c' d).
Proof. unfold on_con. cbn [l32_con l32_ready l32_ser]. by intros ->. Qed.
Lemma on_ser_Ok {A} (m : M line A) a b (c : trace) d d' : m d = Ok (a, d') → on_ser m (Logger32 b c d) = Ok (a, Logger32 b c d').
Proof. unfold on_ser. cbn [l32_con l32_ready l32_ser]. by intros ->. Qed.

Lemma if_ready_Ok (m : M trace unit) (b : bool) c c' (d : line) :
  m c = Ok (tt, c') → if_ready m (Logger32 b c d) = Ok (tt, Logger32 b (if b then c' else c) d).
Proof. intros E. unfold if_ready. erewrite M_bind_Ok by done. destruct b; cbn [l32_ready when]; [by apply on_con_Ok|done]. Qed.

Lemma log_prefix32_ok type ready fg bg cells cs :
  log_prefix32 type (Logger32 ready (Trace fg bg cells) (Line cs)) =
    Ok (tt, Logger32 ready
      (if ready then Trace LOG_FG_DEFAULT LOG_BG_DEFAULT (cells ++ message type bg []) else Trace fg bg cells)
      (Line (cs ++ prefix_of type))).
Proof.
  unfold log_prefix32. erewrite M_bind_Ok; [apply on_ser_Ok; rewrite serial_lit_ok by apply prefix_ascii; apply emit_line|].
  apply if_ready_Ok. erewrite M_bind_Ok by done. unfold message. rewrite app_nil_r.
  erewrite M_bind_Ok by (unfold console_puts; rewrite (puts_from_ok _ _ _ (prefix_of type)) by (apply rom_text, prefix_ascii || done); apply emit_trace).
  done.
Qed.

(** Before the console is ready a message goes to the serial line only; afterwards to both, and the default colours
    are set when it has been written. *)
Theorem logf32_correct rom n fuel type p fmt args out ready fg bg cells cs :
  renders rom n fmt args out → text_at rom p fmt → (length fmt ≤ fuel)%nat →
  logf32 rom n fuel type p args (Logger32 ready (Trace fg bg cells) (Line cs)) =
    Ok (tt, Logger32 ready
      (if ready then Trace LOG_FG_DEFAULT LOG_BG_DEFAULT (cells ++ message type bg out) else Trace fg bg cells)
      (Line (cs ++ prefix_of type ++ out))).
Proof.
  intros Hr Ht Hf. unfold logf32. erewrite M_bind_Ok by apply log_prefix32_ok.
  set (c := if ready then Trace LOG_FG_DEFAULT LOG_BG_DEFAULT (cells ++ message type bg []) else Trace fg bg cells).
  assert (∃ c', console_vprintf rom n fuel p args c = Ok (tt, c') ∧
    (if ready then c' else c) = if ready then Trace LOG_FG_DEFAULT LOG_BG_DEFAULT (cells ++ message type bg out) else Trace fg bg cells)
    as (c' & E & Ec).
  { destruct ready; (eexists; split; [rewrite (proj1 (vprintf_both _ _ _ _ _ _ _ _ Hr Ht Hf)); unfold c; apply emit_trace|]); [|done].
    unfold message. by rewrite app_nil_r, app_assoc. }
  erewrite M_bind_Ok by (by apply if_ready_Ok). rewrite Ec.
  apply on_ser_Ok. rewrite (proj2 (vprintf_both _ _ _ _ _ _ _ _ Hr Ht Hf)), emit_line. by rewrite <- app_assoc.
Qed.
