(* ===== verification/AcpiBus.v ===== *)
(** * The ACPI bus ([arch/x86_64/acpi/acpi_bus.c])

    Drivers register themselves in a list; every device of the namespace is offered to
    the first driver that knows its hardware id, or else one of its compatible ids.
    The namespace belongs to the uACPI library and is a parameter: the devices in the
    order they are visited, and what is known about each. *)

From S2P Require Import Prelude CString Format Printf.

(** [pnp_ids] is the array of string pointers up to its null pointer. *)
(* src/arch/x86_64/acpi/acpi_driver.h 9-16 acpi_driver *)
Record acpi_driver := AcpiDriver { dr_pnp_ids : list Z; dr_next : Z }.

(** The information on a node: the hardware id and the compatible ids, if it has them. *)
Record node_info := NodeInfo { ni_hid : option Z; ni_cid : option (list Z) }.

(** The drivers' structs, the list's head, the calls of [device_probe] as driver and node,
    and the nodes whose information has been given back. *)
Record acpi_bus := AcpiBus { bus_drivers : gmap Z acpi_driver; bus_head : Z; bus_probed : list (Z * Z); bus_freed : list Z }.

Definition set_drivers (h : Z) (d : gmap Z acpi_driver) (s : acpi_bus) : acpi_bus := AcpiBus d h (bus_probed s) (bus_freed s).
Definition probed (e : Z * Z) (s : acpi_bus) : acpi_bus :=
  AcpiBus (bus_drivers s) (bus_head s) (bus_probed s ++ [e]) (bus_freed s).
Definition freed (node : Z) (s : acpi_bus) : acpi_bus :=
  AcpiBus (bus_drivers s) (bus_head s) (bus_probed s) (bus_freed s ++ [node]).

Definition ldd (p : Z) : M acpi_bus acpi_driver := λ s,
  match bus_drivers s !! p with Some d => Ok (d, s) | None => Fault p end.

(* src/arch/x86_64/acpi/acpi_bus.c 9-14 acpi_register_driver *)
Definition acpi_register_driver (driver : Z) : M acpi_bus unit :=
  next ← gets bus_head;
  modify (λ s, set_drivers driver (bus_drivers s) s) ;;
  d ← ldd driver;
  modify (λ s, set_drivers (bus_head s) (<[driver := AcpiDriver (dr_pnp_ids d) next]> (bus_drivers s)) s).

Section bus.
(** The strings. *)
Context (mem : bmem).

(** The inner loops over [pnp_ids], which differ in the order of the arguments. *)
Fixpoint lists_id (cmp : Z → M acpi_bus Z) (ids : list Z) : M acpi_bus bool :=
  match ids with
  | [] => mret false
  | id :: ids => r ← cmp id; if r =? 0 then mret true else lists_id cmp ids
  end.

Definition lists_hid (hid : Z) (d : acpi_driver) : M acpi_bus bool :=
  lists_id (λ id, lift_b mem (strcmp hid id)) (dr_pnp_ids d).

(** The loop over the compatible ids of a device, for one driver. *)
Fixpoint lists_cid (cids : list Z) (d : acpi_driver) : M acpi_bus bool :=
  match cids with
  | [] => mret false
  | cid :: cids =>
      r ← lists_id (λ id, lift_b mem (strcmp id cid)) (dr_pnp_ids d);
      if (r : bool) then mret true else lists_cid cids d
  end.

(** The loop over the drivers: the first that [knows] the device, or null. *)
Fixpoint find_driver (fuel : nat) (knows : acpi_driver → M acpi_bus bool) (driver_it : Z) : M acpi_bus Z :=
  if driver_it =? 0 then mret 0 else
  match fuel with
  | O => out_of_fuel
  | S fuel =>
      d ← ldd driver_it;
      r ← knows d;
      if (r : bool) then mret driver_it else find_driver fuel knows (dr_next d)
  end.

(** [info] is what the library says about a node, [None] an error; the message about that
    error is not modelled. *)
Context (info : Z → option node_info).

(* src/arch/x86_64/acpi/acpi_bus.c 16-86 acpi_init_one_device *)
Definition acpi_init_one_device (fuel : nat) (node : Z) : M acpi_bus unit :=
  match info node with
  | None => mret tt
  | Some i =>
      driver ← (match ni_hid i with
        | Some hid => head ← gets bus_head; find_driver fuel (lists_hid hid) head
        | None => mret 0 end);
      driver ← (match ni_cid i with
        | Some cids =>
            if driver =? 0 then head ← gets bus_head; find_driver fuel (lists_cid cids) head else mret driver
        | None => mret driver end);
      when (nz driver) (modify (probed (driver, node))) ;;
      modify (freed node)
  end.

(** The library calls the function on every device. *)
(* src/arch/x86_64/acpi/acpi_bus.c 88-93 acpi_bus_enumerate *)
Fixpoint acpi_bus_enumerate (fuel : nat) (devices : list Z) : M acpi_bus unit :=
  match devices with
  | [] => mret tt
  | node :: devices => acpi_init_one_device fuel node ;; acpi_bus_enumerate fuel devices
  end.
End bus.

(** * The theorems about the ACPI bus *)

(** ** The list of drivers *)

(** The drivers [ds], with their ids, are linked from [p] on. *)
Fixpoint chain (h : gmap Z acpi_driver) (p : Z) (ds : list (Z * list Z)) : Prop :=
  match ds with
  | [] => p = 0
  | (d, ids) :: ds => p = d ∧ d ≠ 0 ∧ ∃ next, h !! d = Some (AcpiDriver ids next) ∧ chain h next ds
  end.

Lemma chain_frame h p ds d v : d ∉ ds.*1 → chain h p ds → chain (<[d := v]> h) p ds.
Proof.
  revert p. induction ds as [|[e ids] ds IH]; intros p; [done|]. cbn [fmap list_fmap fst]. rewrite not_elem_of_cons.
  intros [Hne Hd] (-> & He & next & E & Hc). split; [done|]. split; [done|]. exists next.
  split; [by rewrite lookup_insert_ne|by apply IH].
Qed.

(** A new driver is put in front of the others. *)
Theorem acpi_register_correct s d ids next ds :
  chain (bus_drivers s) (bus_head s) ds → d ≠ 0 → d ∉ ds.*1 → bus_drivers s !! d = Some (AcpiDriver ids next) →
  wp (acpi_register_driver d) (λ _ s', chain (bus_drivers s') (bus_head s') ((d, ids) :: ds) ∧
    bus_probed s' = bus_probed s ∧ bus_freed s' = bus_freed s) s.
Proof.
  intros Hc Hd Hn E. unfold acpi_register_driver, wp. erewrite M_bind_Ok by done. erewrite M_bind_Ok by done.
  erewrite M_bind_Ok by (unfold ldd; cbn; by rewrite E). cbn. split; [|done]. split; [done|]. split; [done|].
  exists (bus_head s). by rewrite lookup_insert_eq; split; [|apply chain_frame].
Qed.

(** A driver that is registered twice in a row is its own successor. *)
Theorem acpi_register_twice s d ids next :
  bus_drivers s !! d = Some (AcpiDriver ids next) →
  wp (acpi_register_driver d ;; acpi_register_driver d) (λ _ s', bus_drivers s' !! d = Some (AcpiDriver ids d)) s.
Proof.
  intros E. unfold wp, acpi_register_driver, ldd, mbind, M_bind. cbn. rewrite E. cbn. rewrite lookup_insert_eq. cbn.
  by rewrite lookup_insert_eq.
Qed.

(** ** Matching *)

Section matching.
Context (mem : bmem) (txt : Z → list Z).

(** The pointer leads to the string [txt] says. *)
Definition string_at (p : Z) : Prop := cstr mem p (txt p) ∧ (length (txt p) < Z.to_nat MAX_STRCMP_COMPARISONS)%nat.
Definition strings (ps : list Z) : Prop := Forall string_at ps.

(** The id [v] is one of [ids]. *)
Definition has (v : Z) (ids : list Z) : bool := bool_decide (txt v ∈ txt <$> ids).

(** The first driver of which [f] holds. *)
Definition first_driver (f : list Z → bool) (ds : list (Z * list Z)) : Z :=
  default 0 (fst <$> List.find (f ∘ snd) ds).

(** The driver of a device: the first that lists its hardware id; if there is none, the first that lists one of its
    compatible ids. *)
Definition chosen (ds : list (Z * list Z)) (i : node_info) : Z :=
  let by_hid := match ni_hid i with Some hid => first_driver (has hid) ds | None => 0 end in
  if nz by_hid then by_hid
  else match ni_cid i with Some cids => first_driver (λ ids, existsb (λ cid, has cid ids) cids) ds | None => 0 end.

Lemma strcmp_strings p q (s : acpi_bus) : string_at p → string_at q →
  ∃ v, lift_b mem (strcmp p q) s = Ok (v, s) ∧ (v =? 0) = bool_decide (txt p = txt q).
Proof using Type.
  intros [Hp Hl] [Hq _].
  destruct (strcmp_correct p q _ _ _ Hp Hq) as (E & H0 & Ha). rewrite (Ha Hl) in E.
  exists (str_diff (txt p) (txt q)). unfold lift_b. rewrite E. split; [done|].
  case_bool_decide as Heq; [by apply Z.eqb_eq, H0|]. apply Z.eqb_neq. by rewrite H0.
Qed.

Lemma has_cons v id ids : has v (id :: ids) = bool_decide (txt v = txt id) || has v ids.
Proof using Type. unfold has. cbn [fmap list_fmap]. rewrite <- bool_decide_or. apply bool_decide_ext. by rewrite elem_of_cons. Qed.

Lemma lists_hid_ok hid ids next s : strings (hid :: ids) → lists_hid mem hid (AcpiDriver ids next) s = Ok (has hid ids, s).
Proof using Type.
  unfold lists_hid. cbn [dr_pnp_ids]. intros [Hh Hi]%Forall_cons. induction ids as [|id ids IH]; [done|]. cbn [lists_id].
  pose proof Hi as [Hid Hi']%Forall_cons. destruct (strcmp_strings hid id s) as (v & E & Ev); [done..|].
  erewrite M_bind_Ok by exact E. rewrite Ev, has_cons. destruct (bool_decide _); [done|]. by apply IH.
Qed.

Lemma lists_cid_ok cids ids next s : strings (cids ++ ids) →
  lists_cid mem cids (AcpiDriver ids next) s = Ok (existsb (λ cid, has cid ids) cids, s).
Proof using Type.
  unfold strings. rewrite Forall_app. intros [Hc Hi]. induction Hc as [|cid cids Hcid _ IH]; [done|]. cbn [lists_cid existsb dr_pnp_ids].
  assert (lists_id (λ id, lift_b mem (strcmp id cid)) ids s = Ok (has cid ids, s)) as E.
  { clear IH. induction Hi as [|id ids Hid Hi IH]; [done|]. cbn [lists_id].
    destruct (strcmp_strings id cid s) as (v & E & Ev); [done..|].
    erewrite M_bind_Ok by exact E. rewrite Ev, has_cons, (bool_decide_ext (txt id = txt cid) (txt cid = txt id)) by done.
    destruct (bool_decide (txt cid = txt id)); [done|exact IH]. }
  erewrite M_bind_Ok by exact E. by destruct (has cid ids).
Qed.

Lemma find_driver_ok fuel knows f p ds s :
  chain (bus_drivers s) p ds → (length ds ≤ fuel)%nat →
  (∀ d ids next, (d, ids) ∈ ds → knows (AcpiDriver ids next) s = Ok (f ids, s)) →
  find_driver fuel knows p s = Ok (first_driver f ds, s).
Proof using Type.
  revert p fuel. induction ds as [|[d ids] ds IH]; intros p fuel Hc Hf Hk.
  { cbn in Hc. subst p. by destruct fuel. }
  destruct Hc as (-> & Hd & next & E & Hc). destruct fuel as [|fuel]; [cbn in Hf; lia|]. cbn [find_driver].
  rewrite (proj2 (Z.eqb_neq d 0) Hd). erewrite M_bind_Ok by (unfold ldd; by rewrite E).
  erewrite M_bind_Ok by (eapply Hk; left). unfold first_driver. cbn [List.find compose snd].
  destruct (f ids); [done|]. apply IH; [done|cbn in Hf; lia|]. intros e ids' next' He. eapply Hk. by right.
Qed.

(** ** Enumeration *)

Context (info : Z → option node_info).

(** The ids of a device. *)
Definition ids_of (i : node_info) : list Z := option_list (ni_hid i) ++ default [] (ni_cid i).

(** What the bus does with a device. *)
Definition offered (ds : list (Z * list Z)) (node : Z) : list (Z * Z) :=
  match info node with
  | Some i => if nz (chosen ds i) then [(chosen ds i, node)] else []
  | None => []
  end.
Definition known (node : Z) : bool := bool_decide (is_Some (info node)).

Lemma init_one_device_ok fuel node ds s :
  chain (bus_drivers s) (bus_head s) ds → (length ds ≤ fuel)%nat → Forall (λ d, strings d.2) ds →
  (∀ i, info node = Some i → strings (ids_of i)) →
  acpi_init_one_device mem info fuel node s =
    Ok (tt, AcpiBus (bus_drivers s) (bus_head s) (bus_probed s ++ offered ds node)
      (bus_freed s ++ if known node then [node] else [])).
Proof using Type.
  intros Hc Hf Hds Hi. unfold acpi_init_one_device, offered, known. destruct s as [dr hd pr fr]. cbn [bus_drivers bus_head bus_probed bus_freed] in *.
  destruct (info node) as [[hid cid]|]; [|rewrite bool_decide_eq_false_2 by (by intros []); by rewrite !app_nil_r].
  specialize (Hi _ eq_refl). unfold strings, ids_of in Hi. cbn [ni_hid ni_cid] in *. apply Forall_app in Hi as [Hh Hcid].
  rewrite bool_decide_eq_true_2 by eauto. rewrite Forall_forall in Hds. set (s := AcpiBus dr hd pr fr).
  set (by_hid := match hid with Some h => first_driver (has h) ds | None => 0 end).
  erewrite M_bind_Ok with (a := by_hid) (s' := s).
  2: { unfold by_hid. destruct hid as [h|]; [|done]. erewrite M_bind_Ok by done. apply find_driver_ok; [done|done|].
    intros d ids next Hd. apply lists_hid_ok. constructor; [by inversion Hh|]. by apply (Hds (d, ids)). }
  unfold chosen. cbn [ni_hid ni_cid]. fold by_hid. set (ch := if nz by_hid then by_hid else _).
  erewrite M_bind_Ok with (a := ch) (s' := s).
  2: { unfold ch, nz. destruct cid as [cids|].
    - destruct (by_hid =? 0) eqn:E; [|done]. erewrite M_bind_Ok by done. apply find_driver_ok; [done|done|].
      intros d ids next Hd. apply lists_cid_ok. apply Forall_app. split; [done|]. by apply (Hds (d, ids)).
    - destruct (Z.eqb_spec by_hid 0) as [E|E]; [by rewrite E|done]. }
  destruct (nz ch); cbn [when]; (erewrite M_bind_Ok by done); cbn; [done|]. by rewrite app_nil_r.
Qed.

(** C30: enumerating the bus offers every device to one driver at most: the one most recently registered among those
    that list its hardware id, or, if there is none, the most recently registered among those that list one of its
    compatible ids.  The devices are offered in the order they are visited, a device the library knows nothing about is
    passed over, and the information on every other one is given back. *)
Theorem acpi_bus_enumerate_correct fuel devices ds s :
  chain (bus_drivers s) (bus_head s) ds → (length ds ≤ fuel)%nat → Forall (λ d, strings d.2) ds →
  (∀ node i, node ∈ devices → info node = Some i → strings (ids_of i)) →
  acpi_bus_enumerate mem info fuel devices s =
    Ok (tt, AcpiBus (bus_drivers s) (bus_head s) (bus_probed s ++ mjoin (offered ds <$> devices))
      (bus_freed s ++ List.filter known devices)).
Proof using Type.
  intros Hc Hf Hds. revert s Hc. induction devices as [|node devices IH]; intros s Hc Hi; cbn [acpi_bus_enumerate].
  { destruct s. cbn. by rewrite !app_nil_r. }
  erewrite M_bind_Ok by (apply (init_one_device_ok _ _ ds); [done..|]; intros i; apply Hi; left).
  rewrite IH; cbn; [|done|intros; eapply Hi; [by right|done]]. rewrite <- !app_assoc. by destruct (known node).
Qed.
End matching.

(** One driver, for "KBD"; the device 1 has the id "MSE", the device 2 is also compatible with "KBD", the device 3 is
    unknown to the library. *)
Definition ids_mem : bmem := bytes_at 100 (chars "KBD" ++ [0] ++ chars "MSE" ++ [0]).
Definition ids_txt (p : Z) : list Z := if p =? 100 then chars "KBD" else chars "MSE".
Definition ids_info (node : Z) : option node_info :=
  if node =? 1 then Some (NodeInfo (Some 104) None) else if node =? 2 then Some (NodeInfo (Some 104) (Some [100])) else None.
Definition ids_bus : acpi_bus := AcpiBus (<[500 := AcpiDriver [100] 0]> ∅) 500 [] [].

Lemma acpi_bus_enumerate_correct_witness :
  acpi_bus_enumerate ids_mem ids_info 1 [1; 2; 3] ids_bus = Ok (tt, AcpiBus (bus_drivers ids_bus) 500 [(500, 2)] [1; 2]).
Proof.
  refine (eq_trans (acpi_bus_enumerate_correct ids_mem ids_txt ids_info 1 [1; 2; 3] [(500, [100])] ids_bus _ _ _ _) _).
  - split; [done|]. split; [done|]. by exists 0.
  - simpl. lia.
  - repeat constructor; vm_compute; intuition congruence.
  - intros node i _ E. assert (∀ p, p = 100 ∨ p = 104 → string_at ids_mem ids_txt p) as Hs.
    { intros p [-> | ->]; split; vm_compute; intuition congruence || lia. }
    unfold ids_info in E. destruct (node =? 1); [injection E as <-; repeat (constructor; auto)|].
    destruct (node =? 2); [injection E as <-; repeat (constructor; auto)|done].
  - vm_compute. reflexivity.
Defined.
