(* ===== verification/Boot.v ===== *)
(** * The start of [kernel_main] ([arch/x86_64/kernel.c])

    Up to the point where the kernel heap can be used: the boot loader's answers are
    checked, the memory map is printed and searched for the heap's region. *)

From S2P Require Import Prelude Loops CString Format Gfx Log Printf Logger.

(* src/include/limine.h 473-477 limine_memmap_entry *)
Record memmap_entry := MemmapEntry { e_base : Z; e_length : Z; e_type : Z }.

Abbreviation LIMINE_MEMMAP_USABLE := 0%Z.

(** What the boot loader has answered: a missing response is [None]. *)
Record answers := Answers {
  base_revision_supported : bool;
  hhdm_response : option Z;                       (* offset *)
  paging_mode_response : option Z;                (* mode *)
  memmap_response : option (list memmap_entry);
  kernel_address_response : option (Z * Z);       (* physical and virtual base *)
}.

(** The globals that are set, and the serial line. *)
Record boot (D : Type) := Boot {
  g_hhdm_offset : Z;
  g_kernel_phys_base : Z;
  g_kernel_virt_base : Z;
  g_placement_address : Z;
  g_serial : D;
}.
Arguments Boot {D} _ _ _ _ _.
Arguments g_hhdm_offset {D} _.
Arguments g_kernel_phys_base {D} _.
Arguments g_kernel_virt_base {D} _.
Arguments g_placement_address {D} _.
Arguments g_serial {D} _.

Section boot.
Context {D : Type} `{SD : Sink D}.
Context (init_serial : M D unit).

Definition serial {A} (m : M D A) : M (boot D) A := λ s,
  match m (g_serial s) with
  | Ok (a, d) => Ok (a, Boot (g_hhdm_offset s) (g_kernel_phys_base s) (g_kernel_virt_base s) (g_placement_address s) d)
  | Panic msg => Panic msg | Halt => Halt | Fault a => Fault a | OutOfFuel => OutOfFuel
  end.

(** The processor stops for good. *)
(* src/kernel/halt.c 17-22 hcf *)
Definition hcf {A} : M (boot D) A := λ _, Halt.

(** A literal format of at most 100 characters. *)
Definition log_info (format : list Z) (args : list Z) : M D unit := logf (rom_of format) 100 100 LOG_INFO 0 args.

Definition entry_format : list Z := chars "  [%d] base=0x%x%x len=0x%x%x type=%d" ++ nl.
Definition base_format : list Z := chars "bump allocator base: phys=0x%x%x virt=0x%x%x" ++ nl.

(** The loop over the memory map, from entry [i] on. *)
(* src/arch/x86_64/kernel.c 167-179 kernel_main *)
Fixpoint scan_memmap (i bump_phys : Z) (entries : list memmap_entry) : M D Z :=
  match entries with
  | [] => mret bump_phys
  | e :: entries =>
      log_info entry_format [s32 i; u32 (e_base e .>> 32); u32 (e_base e); u32 (e_length e .>> 32); u32 (e_length e); s32 (e_type e)] ;;
      scan_memmap (i + 1)
        (if (bump_phys =? 0) && (e_type e =? LIMINE_MEMMAP_USABLE) && (0x400000 <=? e_length e) then e_base e else bump_phys)
        entries
  end.

(* src/arch/x86_64/kernel.c 122-191 kernel_main *)
Definition boot_memory (r : answers) : M (boot D) unit :=
  if negb (base_revision_supported r) then hcf else
  match hhdm_response r with None => hcf | Some offset =>
  match paging_mode_response r with None => hcf | Some _ =>
  serial init_serial ;;
  match memmap_response r with
  | None => serial (serial_lit (chars "FATAL: no memory map from Limine" ++ nl)) ;; hcf
  | Some entries =>
  modify (λ s, Boot offset (g_kernel_phys_base s) (g_kernel_virt_base s) (g_placement_address s) (g_serial s)) ;;
  match kernel_address_response r with
  | None => serial (serial_lit (chars "FATAL: no kernel address response from Limine" ++ nl)) ;; hcf
  | Some (physical_base, virtual_base) =>
  modify (λ s, Boot (g_hhdm_offset s) physical_base virtual_base (g_placement_address s) (g_serial s)) ;;
  serial (serial_lit (chars "Limine memory map:" ++ nl)) ;;
  bump_phys ← serial (scan_memmap 0 0 entries);
  if bump_phys =? 0 then
    serial (serial_lit (chars "FATAL: no suitable usable memory region found" ++ nl)) ;; hcf
  else
  modify (λ s, Boot (g_hhdm_offset s) (g_kernel_phys_base s) (g_kernel_virt_base s) (u64 (g_hhdm_offset s + bump_phys)) (g_serial s)) ;;
  placement_address ← gets g_placement_address;
  serial (log_info base_format
    [u32 (bump_phys .>> 32); u32 bump_phys; u32 (placement_address .>> 32); u32 placement_address])
  end end end end.
End boot.

(** * The theorems about the start of the kernel *)

(** What a literal format stands for. *)
Definition text_of (format args : list Z) : list Z := default [] (rendering format args).

Lemma log_info_ok {St} `{SK : Sink St} format args (s : St) :
  ascii format → (length format ≤ 100)%nat → is_Some (rendering format args) →
  log_info format args s = emit (prefix_of LOG_INFO ++ text_of format args) s.
Proof.
  intros Ha Hl [out E]. destruct (rendering_ok (rom_of format) 100 100 format args out Hl E) as [Hp Hlen].
  unfold text_of. rewrite E. apply (logf_text (rom_of format) 100 100 LOG_INFO 0 format args out); try done.
  - by apply rom_text.
  - lia.
Qed.

Lemma entry_text a b c d e f : is_Some (rendering entry_format [a; b; c; d; e; f]).
Proof. eexists. lazy -[itoa_out numeral swrap wrap app]. reflexivity. Qed.
Lemma base_text a b c d : is_Some (rendering base_format [a; b; c; d]).
Proof. eexists. lazy -[itoa_out numeral swrap wrap app]. reflexivity. Qed.

(** The heap's region: the first one that is usable and has 4 MB. *)
Definition suitable (e : memmap_entry) : bool :=
  (e_type e =? LIMINE_MEMMAP_USABLE) && (0x400000 <=? e_length e).
Definition region (entries : list memmap_entry) : option memmap_entry := List.find suitable entries.

(** A 64-bit number, its halves printed one after the other. *)
Definition halves (v : Z) : list Z := numeral 16 (u32 (v .>> 32)) ++ numeral 16 (u32 v).

(** The lines of the memory map. *)
Definition entry_line (i : Z) (e : memmap_entry) : list Z :=
  chars "[INFO]   [" ++ numeral 10 i ++ chars "] base=0x" ++ halves (e_base e) ++ chars " len=0x" ++
  halves (e_length e) ++ chars " type=" ++ numeral 10 (e_type e) ++ nl.
Fixpoint entry_lines (i : Z) (entries : list memmap_entry) : list Z :=
  match entries with [] => [] | e :: entries => entry_line i e ++ entry_lines (i + 1) entries end.

(** The line about the heap. *)
Definition base_line (phys virt : Z) : list Z :=
  chars "[INFO] bump allocator base: phys=0x" ++ halves phys ++ chars " virt=0x" ++ halves virt ++ nl.

Lemma itoa_out_decimal v : 0 ≤ v < 2 ^ 31 → itoa_out (s32 (s32 v)) = numeral 10 v.
Proof.
  intros Hv. rewrite !swrap_small by (rewrite ?swrap_small by lia; lia). unfold itoa_out.
  by rewrite (proj2 (Z.leb_le 0 v)) by lia.
Qed.

Lemma halves_ok v : numeral 16 (u32 (u32 (v .>> 32))) ++ numeral 16 (u32 (u32 v)) = halves v.
Proof. unfold halves. by rewrite !(wrap_small 32 (u32 _)) by (apply wrap_bound; lia). Qed.

Lemma entry_line_ok i e :
  0 ≤ i < 2 ^ 31 → 0 ≤ e_type e < 2 ^ 31 →
  prefix_of LOG_INFO ++ text_of entry_format
    [s32 i; u32 (e_base e .>> 32); u32 (e_base e); u32 (e_length e .>> 32); u32 (e_length e); s32 (e_type e)] = entry_line i e.
Proof.
  intros Hi Ht. unfold entry_line. rewrite <- (itoa_out_decimal i), <- (itoa_out_decimal (e_type e)) by done.
  rewrite <- !halves_ok, <- !app_assoc. done.
Qed.

Lemma base_line_ok phys virt :
  prefix_of LOG_INFO ++ text_of base_format [u32 (phys .>> 32); u32 phys; u32 (virt .>> 32); u32 virt] = base_line phys virt.
Proof. unfold base_line. rewrite <- !halves_ok, <- !app_assoc. done. Qed.

(** What a boot loader reports: the types are small numbers, and there are fewer than 2^31 entries. *)
Definition memmap_ok (entries : list memmap_entry) : Prop :=
  Z.of_nat (length entries) < 2 ^ 31 ∧ Forall (λ e, 0 ≤ e_type e < 2 ^ 31) entries.

(** The entry the loop settles on: one that starts at address 0 is passed over. *)
Definition settled (entries : list memmap_entry) : Z :=
  default 0 (e_base <$> List.find (λ e, suitable e && negb (e_base e =? 0)) entries).

Lemma scan_memmap_ok entries : ∀ i bump cs,
  0 ≤ i → i + Z.of_nat (length entries) < 2 ^ 31 → Forall (λ e, 0 ≤ e_type e < 2 ^ 31) entries →
  scan_memmap i bump entries (Line cs) =
    Ok (if bump =? 0 then settled entries else bump, Line (cs ++ entry_lines i entries)).
Proof.
  induction entries as [|e entries IH]; intros i bump cs Hi Hn Ht; cbn [scan_memmap entry_lines].
  { rewrite app_nil_r. cbn. by destruct (Z.eqb_spec bump 0) as [->|]. }
  apply Forall_cons in Ht as [He Ht]. cbn [length] in Hn.
  erewrite M_bind_Ok by (rewrite log_info_ok by (by_decide || lia || apply entry_text); rewrite entry_line_ok by lia; apply emit_line).
  rewrite IH, <- app_assoc by (done || lia). f_equal. f_equal. unfold settled. cbn [List.find].
  unfold suitable. destruct (Z.eqb_spec bump 0) as [->|Hb]; cbn [andb].
  - destruct (_ && (_ <=? _)); [|done]. cbn [andb]. by destruct (Z.eqb_spec (e_base e) 0).
  - by rewrite (proj2 (Z.eqb_neq _ _) Hb).
Qed.

(** Where no suitable region starts at address 0 it settles on the first one. *)
Lemma settled_region entries :
  Forall (λ e, suitable e → e_base e ≠ 0) entries → settled entries = default 0 (e_base <$> region entries).
Proof.
  unfold settled, region. induction 1 as [|e entries He _ IH]; [done|]. cbn [List.find].
  destruct (suitable e); [|done]. by rewrite (proj2 (Z.eqb_neq _ _) (He I)).
Qed.

(** The answers that let the kernel start. *)
Definition startable (r : answers) : option (Z * (Z * Z) * list memmap_entry * memmap_entry) :=
  if base_revision_supported r then
    offset ← hhdm_response r;
    _ ← paging_mode_response r;
    entries ← memmap_response r;
    bases ← kernel_address_response r;
    e ← region entries;
    Some (offset, bases, entries, e)
  else None.

(** C17: if the boot loader has answered everything and reports a usable region of at least 4 MB, the kernel prints the
    memory map, records the answers and starts the heap at the first such region, as seen through the direct map; in every
    other case it stops, without having touched memory.  No such region starts at address 0: the boot loader never reports
    the first page as usable. *)
Theorem boot_memory_correct init r s cs :
  init (g_serial s) = Ok (tt, Line cs) →
  (∀ entries, memmap_response r = Some entries →
    memmap_ok entries ∧ Forall (λ e, suitable e → e_base e ≠ 0) entries) →
  boot_memory init r s =
    match startable r with
    | None => Halt
    | Some (offset, (phys, virt), entries, e) =>
        let placement := u64 (offset + e_base e) in
        Ok (tt, Boot offset phys virt placement (Line (cs ++ chars "Limine memory map:" ++ nl ++ entry_lines 0 entries ++
          base_line (e_base e) placement)))
    end.
Proof.
  intros Hi Hm. unfold boot_memory. destruct r as [rev hhdm paging memmap kaddr].
  cbn [base_revision_supported hhdm_response paging_mode_response memmap_response kernel_address_response] in *.
  destruct rev; [|done]. destruct hhdm as [offset|]; [|done]. destruct paging as [mode|]; [|done].
  assert (∀ A (m : M line A) a d d' (b : boot line), m d = Ok (a, d') → g_serial b = d →
    serial m b = Ok (a, Boot (g_hhdm_offset b) (g_kernel_phys_base b) (g_kernel_virt_base b) (g_placement_address b) d')) as Hser.
  { intros A m a d d' b E <-. unfold serial. by rewrite E. }
  assert (∀ l c, ascii l → serial_lit l (Line c) = Ok (tt, Line (c ++ l))) as Hlit.
  { intros l c Ha. rewrite serial_lit_ok by done. apply emit_line. }
  cbn [negb]. erewrite M_bind_Ok by (by eapply Hser).
  destruct memmap as [entries|]; [|by erewrite M_bind_Ok by (eapply Hser; [apply Hlit; by_decide|done])].
  destruct (Hm entries eq_refl) as [[Hlen Hty] Hbase].
  erewrite M_bind_Ok by done.
  destruct kaddr as [[phys virt]|]; [|by erewrite M_bind_Ok by (eapply Hser; [apply Hlit; by_decide|done])].
  erewrite M_bind_Ok by done. erewrite M_bind_Ok by (eapply Hser; [apply Hlit; by_decide|done]).
  erewrite M_bind_Ok by (eapply Hser; [by apply scan_memmap_ok|done]).
  cbn [g_hhdm_offset g_kernel_phys_base g_kernel_virt_base g_placement_address g_serial Z.eqb].
  rewrite settled_region by done.
  assert (startable (Answers true (Some offset) (Some mode) (Some entries) (Some (phys, virt))) =
    (λ e, (offset, (phys, virt), entries, e)) <$> region entries) as -> by (cbn; by destruct (region entries)).
  destruct (region entries) as [e|] eqn:E; cbn [fmap option_fmap option_map from_option id Z.eqb].
  2: { by erewrite M_bind_Ok by (eapply Hser; [apply Hlit; by_decide|done]). }
  assert ((e_base e =? 0) = false) as ->.
  { apply find_some in E as [Hin E]. rewrite Forall_forall in Hbase. apply Z.eqb_neq.
    apply Hbase; [by apply list_elem_of_In|by rewrite E]. }
  erewrite M_bind_Ok by done. erewrite M_bind_Ok by done.
  erewrite Hser; [|rewrite log_info_ok by (by_decide || lia || apply base_text); rewrite base_line_ok; apply emit_line|done].
  cbn [g_hhdm_offset g_kernel_phys_base g_kernel_virt_base g_placement_address]. by rewrite <- !app_assoc.
Qed.

(** Where a usable region of 4 MB does start at address 0, it is passed over: the kernel stops if there is no other. *)
Lemma region_at_0_lost e : e_base e = 0 → settled [e] = 0.
Proof. intros E. unfold settled. cbn [List.find]. rewrite E. by rewrite andb_false_r. Qed.

(** Two regions: 635 KB from the second page on, and 16 MB at 1 MB. *)
Definition two_regions : answers :=
  Answers true (Some 0xFFFF800000000000) (Some 0)
    (Some [MemmapEntry 0x1000 0x9EC00 0; MemmapEntry 0x100000 0x1000000 0]) (Some (0x2000000, 0xFFFFFFFF80000000)).

Lemma boot_memory_correct_witness :
  ∃ text, boot_memory (mret tt : M line unit) two_regions (Boot 0 0 0 0 (Line [])) =
    Ok (tt, Boot 0xFFFF800000000000 0x2000000 0xFFFFFFFF80000000 0xFFFF800000100000 (Line text)).
Proof.
  eexists. refine (eq_trans (boot_memory_correct (mret tt : M line unit) two_regions (Boot 0 0 0 0 (Line [])) [] eq_refl _) _).
  - intros entries [= <-]. split; [split; [done|]|]; repeat constructor; cbn; (lia || by intros []).
  - reflexivity.
Defined.
