(* ===== verification/ApicTimer.v ===== *)
(** * The timer of the local APIC ([kernel/apic/apic.c], [kernel/time.c])

    Its calibration against channel 2 of the interval timer, and the rest of [apic.c].  The
    devices behind the ports and the counter of the timer are parameters. *)

From S2P Require Import Prelude Loops PortIo Acpi.

(** The registers of the interrupt controllers, the ports, and the handler of the timer's vector. *)
Record board := Board { b_apic : apic; b_io : iobus; b_handlers : gmap Z string }.

Definition on_apic {A} (m : M apic A) : M board A := λ s,
  r ← m (b_apic s); Ok (r.1, Board r.2 (b_io s) (b_handlers s)).
Definition on_io {A} (m : M iobus A) : M board A := λ s,
  r ← m (b_io s); Ok (r.1, Board (b_apic s) r.2 (b_handlers s)).

Section timer.
Context `{HW : Hardware}.
(** The count register of the timer, by the number of port accesses before the read. *)
Context (currcnt : nat → Z).
(** What [cpuid] leaf 1 gives in [edx]. *)
Context (cpuid_edx : Z).

(* src/kernel/apic/apic.c 17-24 check_msr *)
Definition check_msr : bool := nz (cpuid_edx .& (1 .<< 5)).

(* src/kernel/apic/apic.c 68-72 get_ioapic_base *)
Definition get_ioapic_base : M apic Z := gets (λ s, u32 (msr_apic_base s) .& 0xfffff000).

(* src/kernel/apic/apic.c 75-82 disable_pic *)
Definition disable_pic : M iobus unit := outb 0x21 0xFF ;; outb 0xA1 0xFF.

(** Poll the output of the channel, at most [fuel] more times. *)
(* src/kernel/apic/apic.c 164-166 pit_wait_ms *)
Fixpoint pit_poll (fuel : nat) : M iobus unit :=
  v ← inb 0x61;
  if nz (v .& 0x20) then mret tt else
  match fuel with O => out_of_fuel | S fuel => pit_poll fuel end.

(* src/kernel/apic/apic.c 148-167 pit_wait_ms *)
Definition pit_wait_ms (fuel : nat) (ms : Z) : M iobus unit :=
  let count := u32 (1193182 * ms) / 1000 in
  tmp ← inb 0x61;
  outb 0x61 (Z.ldiff tmp 0x02 .| 0x01) ;;
  outb 0x43 0xB0 ;;
  outb 0x42 (count .& 0xFF) ;;
  outb 0x42 ((count .>> 8) .& 0xFF) ;;
  pit_poll fuel.

Abbreviation APIC_LVT_TIMER := 0x320.
Abbreviation APIC_TIMER_DIVIDE := 0x3E0.
Abbreviation APIC_TIMER_INITCNT := 0x380.
Abbreviation APIC_TIMER_PERIODIC := (1 .<< 17).
Abbreviation APIC_TIMER_MASKED := (1 .<< 16).

(** A rate of 0 is divided by. *)
(* src/kernel/apic/apic.c 169-198 apic_timer_init *)
Definition apic_timer_init (fuel : nat) (hz : Z) : M board unit :=
  on_apic (modify (set_lapic APIC_TIMER_DIVIDE 0x0B)) ;;
  on_apic (modify (set_lapic APIC_LVT_TIMER (APIC_TIMER_MASKED .| 0x00000000 .| 32))) ;;
  on_apic (modify (set_lapic APIC_TIMER_INITCNT 0xFFFFFFFF)) ;;
  on_io (pit_wait_ms fuel 10) ;;
  n ← gets (λ s, io_n (b_io s));
  let ticks_per_10ms := u32 (0xFFFFFFFF - u32 (currcnt n)) in
  if hz =? 0 then fault 0 else
  let ticks_per_tick := u32 (ticks_per_10ms / 10 * (1000 / hz)) in
  on_apic (modify (set_lapic APIC_TIMER_DIVIDE 0x0B)) ;;
  on_apic (modify (set_lapic APIC_LVT_TIMER (APIC_TIMER_PERIODIC .| 32))) ;;
  on_apic (modify (set_lapic APIC_TIMER_INITCNT ticks_per_tick)).

Abbreviation TIMER_HZ := 1000.

(* src/kernel/time.c 41-46 init_timer *)
Definition init_timer (fuel : nat) : M board unit :=
  modify (λ s, Board (b_apic s) (b_io s) (<[32 := "timer_interrupt_handler"%string]> (b_handlers s))) ;;
  apic_timer_init fuel TIMER_HZ.

(** ** What they do *)

Lemma wp_on_apic {A} (m : M apic A) (Q : A → board → Prop) s :
  wp m (λ a x, Q a (Board x (b_io s) (b_handlers s))) (b_apic s) → wp (on_apic m) Q s.
Proof using Type. unfold wp, on_apic. destruct (m (b_apic s)) as [[a x]| | | |]; cbn; tauto. Qed.
Lemma wp_on_io {A} (m : M iobus A) (Q : A → board → Prop) s :
  wp m (λ a x, Q a (Board (b_apic s) x (b_handlers s))) (b_io s) → wp (on_io m) Q s.
Proof using Type. unfold wp, on_io. destruct (m (b_io s)) as [[a x]| | | |]; cbn; tauto. Qed.

(** The channel's output is up at the [k]-th poll and not before, after the accesses [n] and the writes [out]. *)
Definition up_at (n : nat) (out : list (Z * Z * Z)) (k : nat) : Prop :=
  (∀ i, (i < k)%nat → nz (u8 (hw_in (n + i) out 1 0x61) .& 0x20) = false) ∧
  nz (u8 (hw_in (n + k) out 1 0x61) .& 0x20) = true.

Lemma pit_poll_ok fuel k s :
  up_at (io_n s) (io_out s) k → (k ≤ fuel)%nat →
  pit_poll fuel s = Ok (tt, IoBus (S (io_n s + k)) (io_out s)).
Proof using Type.
  revert k s. induction fuel as [|fuel IH]; intros k s [Hn Hk] Hf; cbn [pit_poll].
  - replace k with O in * by lia. rewrite Nat.add_0_r in *. erewrite M_bind_Ok by reflexivity. change (u16 0x61) with 0x61. change (8 * 1) with 8. by rewrite Hk.
  - erewrite M_bind_Ok by reflexivity. change (u16 0x61) with 0x61. change (8 * 1) with 8. destruct k as [|k].
    + rewrite Nat.add_0_r in *. by rewrite Hk.
    + specialize (Hn O ltac:(lia)) as H0. rewrite Nat.add_0_r in H0. rewrite H0.
      rewrite (IH k (IoBus (S (io_n s)) (io_out s))); [cbn; do 3 f_equal; lia| |lia]. cbn [io_n io_out]. split.
      * intros i Hi. rewrite Nat.add_succ_comm. apply Hn. lia.
      * by rewrite Nat.add_succ_comm.
Qed.

(** The bytes that start the channel: gate on and speaker off, one shot, 11931 cycles. *)
Definition pit_writes (tmp : Z) : list (Z * Z * Z) :=
  [(1, 0x61, u8 (Z.ldiff tmp 0x02 .| 0x01)); (1, 0x43, 0xB0); (1, 0x42, 11931 mod 256); (1, 0x42, 11931 / 256)].

Lemma pit_wait_10_ok fuel k s :
  let tmp := u8 (hw_in (io_n s) (io_out s) 1 0x61) in
  up_at (S (io_n s)) (io_out s ++ pit_writes tmp) k → (k ≤ fuel)%nat →
  pit_wait_ms fuel 10 s = Ok (tt, IoBus (S (S (io_n s) + k)) (io_out s ++ pit_writes tmp)).
Proof using Type.
  intros tmp Hu Hf. unfold pit_wait_ms. do 5 (erewrite M_bind_Ok by reflexivity). cbn [io_n io_out].
  change (u32 (1193182 * 10) / 1000) with 11931. rewrite <- !app_assoc. cbn [app].
  by rewrite (pit_poll_ok fuel k).
Qed.

(** [init_timer] leaves the timer's handler registered and the local APIC's timer running: periodic, not masked, on
    vector 32, undivided, and with the number of its cycles in a millisecond as its period.  For any devices for which the
    interval timer's output comes up after the programmed 11931 cycles, at poll [k], and a timer that has made between
    [10 r] and [10 r + 9] cycles by then, the period is [r]; the interval timer has been programmed with those bytes, and
    no other register is touched. *)
Theorem init_timer_correct fuel s k r :
  let n := io_n (b_io s) in
  let tmp := u8 (hw_in n (io_out (b_io s)) 1 0x61) in
  up_at (S n) (io_out (b_io s) ++ pit_writes tmp) k → (k ≤ fuel)%nat →
  0 ≤ r → 10 * r + 9 < 2 ^ 32 → 10 * r ≤ 0xFFFFFFFF - currcnt (S (S n + k)) ≤ 10 * r + 9 →
  wp (init_timer fuel) (λ _ t,
    b_handlers t !! 32 = Some "timer_interrupt_handler"%string ∧
    lapic_reg 0x380 (b_apic t) = r ∧ lapic_reg 0x3E0 (b_apic t) = 0x0B ∧
    (let lvt := lapic_reg 0x320 (b_apic t) in
     lvt mod 256 = 32 ∧ Z.testbit lvt 16 = false ∧ Z.testbit lvt 17 = true) ∧
    (∀ off, off ∉ [0x380; 0x3E0; 0x320] → lapic_reg off (b_apic t) = lapic_reg off (b_apic s)) ∧
    io_regs (b_apic t) = io_regs (b_apic s) ∧ msr_apic_base (b_apic t) = msr_apic_base (b_apic s) ∧
    io_out (b_io t) = io_out (b_io s) ++ pit_writes tmp) s.
Proof using Type.
  intros n tmp Hu Hf Hr Hr2 Hc. unfold init_timer, apic_timer_init. apply wp_bind, wp_modify.
  do 3 (apply wp_bind, wp_on_apic, wp_modify). apply wp_bind, wp_on_io.
  eapply wp_intro; [by apply (pit_wait_10_ok fuel k)|]. apply wp_bind, wp_gets. cbn [b_apic b_io b_handlers io_n io_out]. fold n tmp.
  set (cur := currcnt _) in *. assert (u32 (u32 (0xFFFFFFFF - u32 cur) / 10 * (1000 / 1000)) = r) as E.
  { rewrite (wrap_small 32 cur), (wrap_small 32 (0xFFFFFFFF - cur)) by lia. change (1000 / 1000) with 1. rewrite Z.mul_1_r.
    rewrite wrap_small; [|split; [apply Z.div_pos; lia|apply Z.div_lt_upper_bound; lia]].
    symmetry. apply (Z.div_unique _ _ _ (0xFFFFFFFF - cur - 10 * r)); lia. }
  cbn [Z.eqb]. cbv zeta. rewrite E. do 2 (apply wp_bind, wp_on_apic, wp_modify). apply wp_on_apic, wp_modify. cbn [b_apic b_io b_handlers io_out].
  split; [apply lookup_insert_eq|]. unfold lapic_reg, set_lapic. cbn [lapic_regs].
  split; [by rewrite lookup_insert_eq|]. split; [by rewrite !lookup_insert_ne, lookup_insert_eq by done|].
  split; [rewrite lookup_insert_ne, lookup_insert_eq by done; by vm_compute|]. split; [|done].
  intros off Ho. rewrite !not_elem_of_cons in Ho. destruct_and! Ho. by rewrite !lookup_insert_ne by done.
Qed.

End timer.

(** The timer counts a million cycles in 10 ms, and the output comes up at the fourth poll. *)
Definition ex_hw : Hardware := {| hw_in := λ n _ _ _, if decide (n < 4)%nat then 0 else 0x20; hw_tick := λ _, 0 |}.
Definition ex_board : board := Board (Apic 0 ∅ ∅ 0xFEE00900) (IoBus 0 []) ∅.

Lemma init_timer_correct_witness :
  wp (@init_timer ex_hw (λ n, 0xFFFFFFFF - 1000000) 10) (λ _ t, lapic_reg 0x380 (b_apic t) = 100000) ex_board.
Proof.
  eapply wp_mono; [apply (@init_timer_correct ex_hw (λ n, 0xFFFFFFFF - 1000000) 10 ex_board 3 100000)|].
  - split; [|by vm_compute]. intros i Hi. destruct i as [|[|[|i]]]; [by vm_compute..|lia].
  - lia.
  - lia.
  - lia.
  - lia.
  - cbv beta. intros _ t (_ & H & _). exact H.
Defined.
