(* ===== verification/KernelMain.v ===== *)
(** * The rest of [kernel_main] ([arch/x86_64/kernel.c])

    From the end of [Boot.boot_memory] to the first process.  The steps that bring interrupts up
    run on the models of their components: the page tables, the ACPI tables, the interrupt
    controllers and the ports.  The tables and the controllers' registers are reached through the
    page tables.  The calls of the other components are recorded in order. *)

From S2P Require Import Prelude Loops Mm Paging64 PagingWalk PagingSpec PagingMap PagingProps Acpi PortIo ApicTimer.

(** A message, without its level and its newline, or a call of a component that is modelled on a state of its own. *)
Inductive event := Say (format : string) (args : list Z) | Call (f : string) (args : list Z).

Record kernel := Kernel {
  k_platform : platform machine;
  k_board : board;
  k_lapic_virt_base : Z;
  k_ioapic_addr : Z;
  k_local_apic_id : Z;
  k_events : list event;
}.

Definition k_mach (s : kernel) : machine := pl_mem (k_platform s).

Definition on_platform {A} (m : M (platform machine) A) : M kernel A := λ s, r ← m (k_platform s);
  Ok (r.1, Kernel r.2 (k_board s) (k_lapic_virt_base s) (k_ioapic_addr s) (k_local_apic_id s) (k_events s)).
Definition on_mach {A} (m : M machine A) : M kernel A := on_platform (on_mem m).
Definition on_board {A} (m : M board A) : M kernel A := λ s, r ← m (k_board s);
  Ok (r.1, Kernel (k_platform s) r.2 (k_lapic_virt_base s) (k_ioapic_addr s) (k_local_apic_id s) (k_events s)).

Definition log (e : event) : M kernel unit := modify (λ s,
  Kernel (k_platform s) (k_board s) (k_lapic_virt_base s) (k_ioapic_addr s) (k_local_apic_id s) (k_events s ++ [e])).
Definition say (format : string) (args : list Z) : M kernel unit := log (Say format args).
Definition call (f : string) (args : list Z) : M kernel unit := log (Call f args).

(** What the boot loader and the sound driver return. *)
Record answers := Answers {
  framebuffer : option (Z * Z);     (* width and height *)
  rsdp_response : option Z;         (* its physical address *)
  ac97_result : Z;
}.

(** The byte of physical memory at [a]. *)
Definition byte_at (m : gmap Z Z) (a : Z) : Z := (rd m (a / 8 * 8) .>> (8 * (a mod 8))) .& 0xFF.

(** What the processor reads at a virtual address, by the tables in [cr3]. *)
#[export] Instance memory64 `{BootInfo} : Memory machine := {|
  view s v :=
    match translate (m_mem s) (PAGE_GET_ADDR (m_cr3 s)) v with
    | Some (page, _) => Some (byte_at (m_mem s) (page + v mod 0x1000))
    | None => None
    end;
  map_range phys size := cr3 ← read_cr3; map_physical_range phys size true true cr3;
|}.

(** The 4 KiB of a device's registers at [v] can be reached. *)
Definition registers `{BootInfo} (v : Z) : M machine unit := λ s,
  match view s v, view s (u64 (v + 0xFFF)) with Some _, Some _ => Ok (tt, s) | _, _ => Fault v end.

Section kernel_main.
Context `{BI : BootInfo} `{HW : Hardware}.
Context (currcnt : nat → Z).
Context (r : answers) (fuel : nat).
(** The ACPI library's initialisation, which maps the tables it reads. *)
Context (acpi_init : M machine Z).
(** Addresses of two global variables. *)
Context (keyboard_queue keyboard_state : Z).

(** The controllers' registers, where the kernel expects them. *)
Definition on_lapic {A} (m : M board A) : M kernel A :=
  v ← gets k_lapic_virt_base; on_mach (registers v) ;; on_board m.
Definition on_ioapic {A} (m : M board A) : M kernel A :=
  v ← gets k_ioapic_addr; on_mach (registers v) ;; on_board m.

(* src/kernel/apic/apic.c 13-15 apic_set_base *)
Definition apic_set_base (virt : Z) : M kernel unit := modify (λ s,
  Kernel (k_platform s) (k_board s) virt (k_ioapic_addr s) (k_local_apic_id s) (k_events s)).

(** The screen, the descriptor tables and the page of the root pointer, whose address and the page tables' are returned.
    [halt_without_apic] is empty. *)
(* src/arch/x86_64/kernel.c 193-242 kernel_main *)
Definition map_rsdp : M kernel (Z * Z) :=
  match framebuffer r with
  | None => call "serial_write" [] ;; halt
  | Some (width, height) =>
  call "graphics_init" [] ;; call "console_init" [] ;; call "console_clear" [] ;; call "pong_init" [width; height] ;;
  call "init_descriptor_tables" [] ;;
  call "halt_without_apic" [] ;;
  say "APIC supported" [] ;;
  say "checking rsdp response" [] ;;
  match rsdp_response r with
  | None => say "error getting rsdp address" [] ;; halt
  | Some rsdp_phys =>
  say "RSDP phys: 0x%x" [u32 rsdp_phys] ;;
  say "HHDM offset: 0x%x%x" [u32 (hhdm_offset .>> 32); u32 hhdm_offset] ;;
  say "Testing HHDM access at offset+0x1000..." [] ;;
  test_val ← on_mach (load8 (u64 (hhdm_offset + 0x1000)));
  say "HHDM test read successful, value: 0x%x" [test_val] ;;
  let rsdp_addr := u64 (rsdp_phys + hhdm_offset) in
  say "RSDP virt: 0x%x%x" [u32 (rsdp_addr .>> 32); u32 rsdp_addr] ;;
  say "rsdp response OK" [] ;;
  cr3 ← on_mach read_cr3;
  say "Mapping RSDP page..." [] ;;
  on_mach (map_physical_range rsdp_phys 4096 true true cr3) ;;
  say "RSDP page mapped" [] ;;
  mret (rsdp_addr, cr3)
  end end.

(** The interrupt controllers. *)
(* src/arch/x86_64/kernel.c 244-282 kernel_main *)
Definition init_controllers (rsdp_addr cr3 : Z) : M kernel unit :=
  call "acpi_init" [] ;;
  acpi_result ← on_mach acpi_init;
  say "acpi_init returned: %d" [acpi_result] ;;
  say "initializing apic" [] ;;
  on_platform (initialize_apic fuel hhdm_offset rsdp_addr) ;;
  say "apic initialized" [] ;;
  say "disabling pic" [] ;;
  on_board (on_io disable_pic) ;;
  say "pic disabled" [] ;;
  lapic_phys ← on_platform (on_madt get_lapic_address);
  ioapic_phys ← on_platform (on_madt get_ioapic_address);
  if ioapic_phys =? 0 then say "ioapic not found" [] ;; halt else
  on_mach (map_physical_range lapic_phys 4096 true true cr3) ;;
  let lapic_virt := u64 (hhdm_offset + lapic_phys) in
  apic_set_base lapic_virt ;;
  on_board (on_apic enable_api_hardware) ;;
  on_lapic (on_apic enable_apic_software) ;;
  say "local APIC: phys=0x%x virt=0x%x%x" [lapic_phys; u32 (lapic_virt .>> 32); u32 lapic_virt] ;;
  on_mach (map_physical_range ioapic_phys 4096 true true cr3) ;;
  let ioapic_addr := u64 (hhdm_offset + ioapic_phys) in
  modify (λ s, Kernel (k_platform s) (k_board s) (k_lapic_virt_base s) ioapic_addr (k_local_apic_id s) (k_events s)) ;;
  say "I/O APIC: phys=0x%x virt=0x%x%x" [ioapic_phys; u32 (ioapic_addr .>> 32); u32 ioapic_addr] ;;
  id ← on_lapic (on_apic get_local_apic_id);
  modify (λ s, Kernel (k_platform s) (k_board s) (k_lapic_virt_base s) (k_ioapic_addr s) id (k_events s)) ;;
  say "local APIC id: %d" [id].

(** The timer's interrupt, the timer and the drivers. *)
(* src/arch/x86_64/kernel.c 284-298 kernel_main *)
Definition start_timer : M kernel unit :=
  let timer_gsi := 2 in
  let timer_flags := 0x0 in
  say "configuring timer" [] ;;
  id ← gets k_local_apic_id;
  on_ioapic (on_apic (configure_ioapic_irq_with_flags timer_gsi 32 id timer_flags)) ;;
  say "timer interrupt configured via IOAPIC" [] ;;
  say "timer initialization" [] ;;
  on_lapic (init_timer currcnt fuel) ;;
  call "ps2k_register" [] ;;
  call "acpi_bus_enumerate" [].

(** Up to the point where interrupts are switched on. *)
Definition bring_up : M kernel unit := p ← map_rsdp; init_controllers p.1 p.2 ;; start_timer.

Definition sti : M kernel unit := on_mach (modify (λ s, Machine (m_mem s) (m_placement s) (m_cr3 s) (m_cr4 s) true (m_tlb s))).

(** [init_process] does not return. *)
(* src/arch/x86_64/kernel.c 301-344 kernel_main *)
Definition start_processes : M kernel unit :=
  say "interrupts re-enabled" [] ;;
  say "sleep test:" [] ;;
  on_board (on_io (sleep fuel 1)) ;;
  say "sleep test done" [] ;;
  call "ac97_init" [] ;;
  if nz (ac97_result r) then say "could not initialize ac97 driver" [] ;; halt else
  say "initialized AC97" [] ;;
  call "console_puts" [] ;; call "console_puts" [] ;;
  say "hello, world!" [] ;; say "hello, world!" [] ;; say "hello, world!" [] ;; say "hello, world!" [] ;;
  say "hello, world!" [] ;; say "goodbye, world!" [] ;;
  say "keyboard queue ringbuffer: %p" [keyboard_queue] ;;
  say "keyboard queue state: %p" [keyboard_state] ;;
  call "init_scheduler" [] ;;
  call "init_process" [].

(* src/arch/x86_64/kernel.c 193-344 kernel_main *)
Definition kernel_main : M kernel unit := bring_up ;; sti ;; start_processes.

End kernel_main.

(** ** Steps *)

Lemma wp_on_platform {A} (m : M (platform machine) A) (Q : A → kernel → Prop) pl bo l i d ev :
  wp m (λ a x, Q a (Kernel x bo l i d ev)) pl → wp (on_platform m) Q (Kernel pl bo l i d ev).
Proof. unfold wp, on_platform. cbn. destruct (m pl) as [[a x]| | | |]; cbn; tauto. Qed.
Lemma wp_on_mach {A} (m : M machine A) (Q : A → kernel → Prop) ma md bo l i d ev :
  wp m (λ a x, Q a (Kernel (Platform x md) bo l i d ev)) ma → wp (on_mach m) Q (Kernel (Platform ma md) bo l i d ev).
Proof. intros H. by apply wp_on_platform, wp_on_mem. Qed.
Lemma wp_on_board {A} (m : M board A) (Q : A → kernel → Prop) pl bo l i d ev :
  wp m (λ a x, Q a (Kernel pl x l i d ev)) bo → wp (on_board m) Q (Kernel pl bo l i d ev).
Proof. unfold wp, on_board. cbn. destruct (m bo) as [[a x]| | | |]; cbn; tauto. Qed.
Lemma wp_log e (Q : unit → kernel → Prop) pl bo l i d ev :
  Q tt (Kernel pl bo l i d (ev ++ [e])) → wp (log e) Q (Kernel pl bo l i d ev).
Proof. done. Qed.

(** ** Mapping through the direct map *)

Section mapping.
Context `{BI : BootInfo} `{BO : !BootOk BI}.

(** What is mapped of the direct map is mapped where it should be. *)
Definition direct (root : Z) (s : machine) : Prop := ∀ b, b mod 0x1000 = 0 → 0 ≤ b < dm_size →
  translate (m_mem s) root (b + hhdm_offset) ≠ None → option_map fst (translate (m_mem s) root (b + hhdm_offset)) = Some b.

(** Physical memory of the direct map, of at most four pages. *)
Definition mappable (p size : Z) : Prop := 0 ≤ p ∧ 0 ≤ size ≤ 0x4000 ∧ page_up (p + size) ≤ dm_size.

(** More of the direct map is mapped. *)
Record grown (root hi n : Z) (s s' : machine) : Prop := {
  gr_inv : pg_inv root hi s';
  gr_cr3 : m_cr3 s' = m_cr3 s;
  gr_direct : direct root s';
  gr_keep w : translate (m_mem s) root w ≠ None → translate (m_mem s') root w = translate (m_mem s) root w;
  gr_next : next_page s' ≤ next_page s + 30 * n * 0x1000;
  gr_kept : pg_kept root s s';
}.

Definition reached (root p size : Z) (s : machine) : Prop :=
  ∀ k, 0 ≤ k < size → option_map fst (translate (m_mem s) root (p + k + hhdm_offset)) = Some (page_of (p + k)).

Lemma page_of_le p k : 0 ≤ p → 0 ≤ k → page_of p ≤ page_of (p + k) ≤ p + k ∧ page_of (p + k) mod 0x1000 = 0 ∧ 0 ≤ page_of p.
Proof using Type.
  intros Hp Hk. unfold page_of. pose proof (Z.div_mod (p + k) 0x1000 ltac:(lia)). pose proof (Z.mod_pos_bound (p + k) 0x1000 ltac:(lia)).
  pose proof (Z.div_le_mono p (p + k) 0x1000 ltac:(lia) ltac:(lia)). pose proof (Z.div_pos p 0x1000 ltac:(lia) ltac:(lia)).
  split_and!; [lia|lia|by apply Z.mod_mul|lia].
Qed.

Lemma pages_bound p size : mappable p size → (page_up (p + size) - page_of p) / 0x1000 ≤ 5.
Proof using Type.
  intros (H1 & H2 & _). pose proof (page_up_spec (p + size)) as [Hu _]. unfold page_of.
  pose proof (Z.div_mod p 0x1000 ltac:(lia)). pose proof (Z.mod_pos_bound p 0x1000 ltac:(lia)).
  apply Z.lt_succ_r, Z.div_lt_upper_bound; lia.
Qed.

Lemma map_one root hi s p size cr3 :
  pg_inv root hi s → root = PAGE_GET_ADDR cr3 → 0 ≤ root < dm_size → direct root s → mappable p size →
  next_page s + 30 * 0x1000 ≤ hi →
  wp (map_physical_range p size true true cr3) (λ _ s', grown root hi 1 s s' ∧ reached root p size s') s.
Proof using BO.
  intros Hi Hroot Hr Hd Hm Hroom. pose proof (pages_bound _ _ Hm) as Hn. destruct Hm as (Hp & Hs & Hu).
  pose proof boot_hhdm as Hb1. pose proof boot_image as Hb2.
  eapply wp_mono; [eapply (map_physical_range_ok root hi); [done|done|done|done|lia|done|reflexivity|lia]|].
  cbv beta. intros [] s' ((I & C & K & O & N) & Hnp & Hkept).
  assert (∀ b, b mod 0x1000 = 0 → page_of p ≤ b < page_up (p + size) →
    option_map fst (translate (m_mem s') root (b + hhdm_offset)) = Some b) as Hin.
  { intros b Hb Hbr. destruct (translate (m_mem s) root (b + hhdm_offset)) eqn:E; [|by apply N].
    pose proof (page_of_le p 0 Hp ltac:(lia)). rewrite K by (by rewrite E). apply Hd; [done|lia|by rewrite E]. }
  split; [split; [done|done| |done|lia|done]|].
  - intros b Hb Hbr Hne. destruct (decide (page_of p ≤ b < page_up (p + size))) as [Hin'|Hout]; [by apply Hin|].
    rewrite O in *; [by apply Hd| |].
    + intros x Hx Hxr E. apply dm_page_inj in E; [lia|lia| |done|done]. pose proof (page_of_le p 0 Hp ltac:(lia)). lia.
    + intros x Hx Hxr E. apply dm_page_inj in E; [lia|lia| |done|done]. pose proof (page_of_le p 0 Hp ltac:(lia)). lia.
  - intros k Hk. destruct (page_of_le p k Hp ltac:(lia)) as (P1 & P2 & _). pose proof (page_up_spec (p + size)) as [Hus _].
    rewrite <- (Hin (page_of (p + k))); [|done|lia]. f_equal. apply translate_same_page.
    pose proof boot_hhdm_aligned as Ha. unfold page_no, page_of. f_equal.
    apply Z.mod_divide in Ha as [h ->]; [|lia]. rewrite !Z.div_add, Z.div_mul by lia. done.
Qed.

Lemma reached_grown root hi n p size s s' : grown root hi n s s' → reached root p size s → reached root p size s'.
Proof using Type.
  intros [] Hr k Hk. specialize (Hr k Hk). rewrite gr_keep0; [done|]. by destruct (translate _ _ _).
Qed.

(** What the processor reads in a page of the direct map that is mapped. *)
Lemma view_direct root s x :
  root = PAGE_GET_ADDR (m_cr3 s) → direct root s → 0 ≤ x < dm_size → is_Some (view s (x + hhdm_offset)) →
  view s (x + hhdm_offset) = Some (byte_at (m_mem s) x).
Proof using BO.
  intros Hroot Hd Hx. cbn [view memory64]. rewrite <- Hroot.
  assert (translate (m_mem s) root (x + hhdm_offset) = translate (m_mem s) root (page_of x + hhdm_offset)) as ->.
  { apply translate_same_page. pose proof boot_hhdm_aligned as Ha. apply Z.mod_divide in Ha as [h ->]; [|lia].
    unfold page_no, page_of. by rewrite !Z.div_add, Z.div_mul by lia. }
  destruct (page_of_le x 0 ltac:(lia) ltac:(lia)) as (H1 & H2 & H3). rewrite Z.add_0_r in *.
  intros Hs. specialize (Hd (page_of x) H2 ltac:(lia)).
  destruct (translate (m_mem s) root (page_of x + hhdm_offset)) as [[page q]|]; [|by destruct Hs]. injection (Hd ltac:(done)) as ->.
  f_equal. f_equal. pose proof boot_hhdm_aligned. rewrite Z.add_mod, boot_hhdm_aligned, Z.add_0_r, Z.mod_mod by lia.
  unfold page_of. pose proof (Z.div_mod x 0x1000 ltac:(lia)). lia.
Qed.

Lemma view_mapped root s x :
  root = PAGE_GET_ADDR (m_cr3 s) → is_Some (view s x) ↔ translate (m_mem s) root x ≠ None.
Proof using Type.
  intros ->. cbn [view memory64]. destruct (translate _ _ x) as [[page q]|]; split; intros H; try done; by destruct H.
Qed.
End mapping.

(** ** The firmware's tables in the direct map *)

Section firm64.
Context `{BI : BootInfo} `{BO : !BootOk BI}.
(** The top-level table, the end of the heap, the state at the start and the physical addresses of the firmware's bytes. *)
Context (root hi : Z) (s0 : machine) (F : Z → Prop).

#[local] Instance layout64 : Layout := {|
  firm v := F (v - hhdm_offset);
  bytes_of v := byte_at (m_mem s0) (v - hhdm_offset);
  at_virt p := u64 (p + hhdm_offset);
  can_map := mappable;
|}.

(** The firmware's bytes are in no page table and not in the heap. *)
Definition reserved (s : machine) : Prop := ∀ a, F a →
  0 ≤ a < dm_size ∧ apart root (m_mem s) (a / 8 * 8) ∧ ¬ (m_placement s - hhdm_offset ≤ a / 8 * 8 < hi).

(** The page tables are sound, map of the direct map what they should, and there is room for the tables of [k] more
    ranges; the firmware's bytes are what they were. *)
Record good64 (k : nat) (s : machine) : Prop := {
  gd_inv : pg_inv root hi s;
  gd_cr3 : m_cr3 s = m_cr3 s0;
  gd_root : root = PAGE_GET_ADDR (m_cr3 s0);
  gd_range : 0 ≤ root < dm_size;
  gd_direct : direct root s;
  gd_room : next_page s + 30 * Z.of_nat k * 0x1000 ≤ hi;
  gd_firm : reserved s;
  gd_bytes a : F a → rd (m_mem s) (a / 8 * 8) = rd (m_mem s0) (a / 8 * 8);
}.

Lemma good64_map k s p size cr3 :
  good64 (S k) s → mappable p size → cr3 = m_cr3 s →
  wp (map_physical_range p size true true cr3) (λ _ s', good64 k s' ∧ grown root hi 1 s s' ∧ reached root p size s') s.
Proof using BO.
  intros [Hi Hc Hr Hrr Hd Hn Hf Hb] Hm ->.
  eapply wp_mono; [apply (map_one root hi); [done|by rewrite Hc|done|done|done|lia]|]. cbv beta. intros [] s' [G R].
  split; [|done]. pose proof G as [I C D K N [P Kp]]. pose proof (page_up_spec (m_placement s')) as [Hup _].
  assert (∀ a, F a → rd (m_mem s') (a / 8 * 8) = rd (m_mem s) (a / 8 * 8) ∧ apart root (m_mem s') (a / 8 * 8)) as Hkeep.
  { intros a Ha. destruct (Hf a Ha) as (_ & H1 & H2). apply Kp; [done|]. unfold next_page in *. lia. }
  split; [done|congruence|done|done|done|lia| |].
  - intros a Ha. destruct (Hf a Ha) as (H0 & _ & H2). split; [done|]. split; [by apply Hkeep|]. lia.
  - intros a Ha. destruct (Hkeep a Ha) as [-> _]. by apply Hb.
Qed.

#[local] Instance mapper64 : Mapper machine good64.
Proof using BO.
  split.
  - intros k s [Hi Hc Hr Hrr Hd Hn Hf Hb]. split; try done. lia.
  - intros k s x b [Hi Hc Hr Hrr Hd Hn Hf Hb] Hx Hv. destruct (Hf _ Hx) as [H0 _].
    replace x with (x - hhdm_offset + hhdm_offset) in Hv by lia.
    rewrite (view_direct root) in Hv; [|by rewrite Hc|done|done|by rewrite Hv]. injection Hv as <-.
    cbn [bytes_of layout64]. unfold byte_at. by rewrite Hb.
  - intros k s p size Hg Hm. cbn [map_range memory64]. apply wp_bind, wp_gets.
    eapply wp_mono; [by apply good64_map|]. cbv beta. intros [] s' (G & [I C D K N Kp] & R).
    pose proof (gd_cr3 _ _ Hg) as E. pose proof (gd_root _ _ Hg) as Er. pose proof (gd_cr3 _ _ G) as E'. split; [done|].
    pose proof boot_hhdm. pose proof boot_image. destruct Hm as (M1 & M2 & M3). pose proof (page_up_spec (p + size)) as [Hup _].
    unfold dm_size in *. cbn [at_virt layout64]. split.
    + intros x Hx. destruct (Z.le_gt_cases size 0) as [|Hs]; [lia|]. rewrite wrap_small in Hx by lia.
      apply (view_mapped root); [by rewrite E'|]. assert (0 ≤ x - (p + hhdm_offset) < size) as Hk by lia. specialize (R _ Hk).
      replace (p + (x - (p + hhdm_offset)) + hhdm_offset) with x in R by lia. by destruct (translate _ _ x).
    + intros x Hx. apply (view_mapped root); [by rewrite E'|]. apply (view_mapped root) in Hx; [|by rewrite E]. by rewrite K.
Qed.
End firm64.

(** ** Interrupts at the end of the start *)

Section interrupts.
Context `{BI : BootInfo} `{BO : !BootOk BI} `{HW : Hardware}.
Context (currcnt : nat → Z) (r : answers) (fuel : nat) (acpi_init : M machine Z).

(** The state [Boot.boot_memory] leaves, and what the hardware answers: page tables with room for more, nothing in the
    direct map but itself, and the page that is read as a test; the firmware's tables, in memory that neither the page
    tables nor the heap use; an ACPI library that maps at most [j] ranges and leaves the tables sound; and timers that
    run. *)
Record powered (root hi rsdp_phys a lapic : Z) (F : Z → Prop) (rs : list record) (n j k : nat) (rate : Z) (s : kernel) : Prop := {
  pw_inv : pg_inv root hi (k_mach s);
  pw_root : root = PAGE_GET_ADDR (m_cr3 (k_mach s));
  pw_root_range : 0 ≤ root < dm_size;
  pw_direct : direct root (k_mach s);
  pw_room : next_page (k_mach s) + 30 * (5 + Z.of_nat n + Z.of_nat j) * 0x1000 ≤ hi;
  pw_reserved : reserved root hi F (k_mach s);
  pw_test : translate (m_mem (k_mach s)) root (hhdm_offset + 0x1000) ≠ None;
  pw_fb : is_Some (framebuffer r);
  pw_rsdp : rsdp_response r = Some rsdp_phys;
  pw_rsdp_map : mappable rsdp_phys 4096;
  pw_firmware : @firmware (layout64 (k_mach s) F) hhdm_offset (u64 (rsdp_phys + hhdm_offset)) a lapic rs n;
  pw_acpi i m : good64 root hi (k_mach s) F (j + i) m →
    wp acpi_init (λ _ m', good64 root hi (k_mach s) F i m' ∧ more m m') m;
  pw_madt_new : pl_madt (k_platform s) = Madt 0 0 0 0 [];
  pw_fuel : (length rs ≤ fuel)%nat;
  pw_lapic_map : mappable lapic 4096;
  pw_ioapic : ioapic_address (foldl remember (Madt lapic 0 0 0 []) rs) ≠ 0;
  pw_ioapic_map : mappable (ioapic_address (foldl remember (Madt lapic 0 0 0 []) rs)) 4096;
  pw_pit : let out := io_out (b_io (k_board s)) ++ [(1, 0x21, 0xFF); (1, 0xA1, 0xFF)] in
    let i := io_n (b_io (k_board s)) in
    up_at (S i) (out ++ pit_writes (u8 (hw_in i out 1 0x61))) k ∧ (k ≤ fuel)%nat ∧
    10 * rate ≤ 0xFFFFFFFF - currcnt (S (S i + k)) ≤ 10 * rate + 9;
  pw_rate : 0 ≤ rate ∧ 10 * rate + 9 < 2 ^ 32;
}.

(** The components that were called, in order. *)
Definition called (l : list event) : list string := omap (λ e, match e with Call f _ => Some f | Say _ _ => None end) l.

(** Interrupts are on, and everything the timer's interrupt needs is in place. *)
Record interrupts_up (root lapic ioapic id rate : Z) (s t : kernel) : Prop := {
  iu_if : m_if (k_mach t) = true;
  iu_lapic_base : k_lapic_virt_base t = lapic + hhdm_offset;
  iu_lapic : reached root lapic 4096 (k_mach t);
  iu_ioapic_base : k_ioapic_addr t = ioapic + hhdm_offset;
  iu_ioapic : reached root ioapic 4096 (k_mach t);
  iu_hardware : Z.testbit (msr_apic_base (b_apic (k_board t))) 11 = true;
  iu_software : Z.testbit (lapic_reg 0xF0 (b_apic (k_board t))) 8 = true;
  iu_id : k_local_apic_id t = id;
  iu_route : ∃ low, io_regs (b_apic (k_board t)) !! 0x14 = Some low ∧ io_regs (b_apic (k_board t)) !! 0x15 = Some (id * 2 ^ 24) ∧
    low mod 256 = 32 ∧ Z.testbit low 16 = false;
  iu_handler : b_handlers (k_board t) !! 32 = Some "timer_interrupt_handler"%string;
  iu_period : lapic_reg 0x380 (b_apic (k_board t)) = rate;
  iu_lvt : lapic_reg 0x320 (b_apic (k_board t)) mod 256 = 32 ∧ Z.testbit (lapic_reg 0x320 (b_apic (k_board t))) 16 = false ∧
    Z.testbit (lapic_reg 0x320 (b_apic (k_board t))) 17 = true;
  iu_pic : ∃ tmp, io_out (b_io (k_board t)) = io_out (b_io (k_board s)) ++ [(1, 0x21, 0xFF); (1, 0xA1, 0xFF)] ++ pit_writes tmp;
  iu_called : called (k_events t) = called (k_events s) ++ ["graphics_init"; "console_init"; "console_clear"; "pong_init";
    "init_descriptor_tables"; "halt_without_apic"; "acpi_init"; "ps2k_register"; "acpi_bus_enumerate"]%string;
}.

Ltac walk := repeat (apply wp_bind, wp_log).

Ltac called_tac := unfold called; rewrite !omap_app; cbn [omap list_omap]; rewrite ?app_nil_r, <- ?app_assoc; reflexivity.

(** The registers of a device that has been mapped. *)
Lemma wp_registers root p s (Q : unit → machine → Prop) :
  root = PAGE_GET_ADDR (m_cr3 s) → mappable p 4096 → reached root p 4096 s → Q tt s → wp (registers (u64 (hhdm_offset + p))) Q s.
Proof using BO.
  intros Hroot (H1 & H2 & H3) Hr HQ. pose proof boot_hhdm. pose proof boot_image. pose proof (page_up_spec (p + 4096)) as [Hup _].
  unfold dm_size in *. unfold wp, registers. rewrite !wrap_small by (rewrite ?wrap_small by lia; lia).
  assert (∀ k, 0 ≤ k < 4096 → ∃ b, view s (hhdm_offset + p + k) = Some b) as Hv.
  { intros k Hk. apply (view_mapped root); [done|]. specialize (Hr k Hk).
    replace (hhdm_offset + p + k) with (p + k + hhdm_offset) by lia. by destruct (translate _ _ _). }
  destruct (Hv 0 ltac:(lia)) as [b0 E0]. destruct (Hv 0xFFF ltac:(lia)) as [b1 E1]. rewrite Z.add_0_r in E0. by rewrite E0, E1.
Qed.

Lemma wp_on_lapic root p {A} (m : M board A) (Q : A → kernel → Prop) ma md bo i d ev :
  root = PAGE_GET_ADDR (m_cr3 ma) → mappable p 4096 → reached root p 4096 ma →
  wp m (λ a x, Q a (Kernel (Platform ma md) x (u64 (hhdm_offset + p)) i d ev)) bo →
  wp (on_lapic m) Q (Kernel (Platform ma md) bo (u64 (hhdm_offset + p)) i d ev).
Proof using BO.
  intros H1 H2 H3 H4. apply wp_bind, wp_gets, wp_bind, wp_on_mach. cbn [k_lapic_virt_base].
  eapply (wp_registers root); [done..|]. by apply wp_on_board.
Qed.
Lemma wp_on_ioapic root p {A} (m : M board A) (Q : A → kernel → Prop) ma md bo l d ev :
  root = PAGE_GET_ADDR (m_cr3 ma) → mappable p 4096 → reached root p 4096 ma →
  wp m (λ a x, Q a (Kernel (Platform ma md) x l (u64 (hhdm_offset + p)) d ev)) bo →
  wp (on_ioapic m) Q (Kernel (Platform ma md) bo l (u64 (hhdm_offset + p)) d ev).
Proof using BO.
  intros H1 H2 H3 H4. apply wp_bind, wp_gets, wp_bind, wp_on_mach. cbn [k_ioapic_addr].
  eapply (wp_registers root); [done..|]. by apply wp_on_board.
Qed.

(** From here on, [s0] is the state at the start. *)
Section steps.
Context (root hi : Z) (s0 : machine) (F : Z → Prop).
Abbreviation ok := (good64 root hi s0 F).
#[local] Instance tables_layout : Layout := layout64 s0 F.
#[local] Instance tables_mapper : Mapper machine ok := mapper64 root hi s0 F.

Lemma map_rsdp_ok rsdp_phys k ma md bo l i d ev :
  ok (S k) ma → translate (m_mem ma) root (hhdm_offset + 0x1000) ≠ None → is_Some (framebuffer r) →
  rsdp_response r = Some rsdp_phys → mappable rsdp_phys 4096 →
  wp (map_rsdp r) (λ p t, p = (u64 (rsdp_phys + hhdm_offset), m_cr3 ma) ∧ ∃ m' ev', t = Kernel (Platform m' md) bo l i d ev' ∧
    ok k m' ∧ (∀ x, u64 (rsdp_phys + hhdm_offset) ≤ x < u64 (rsdp_phys + hhdm_offset) + 4096 → is_Some (view m' x)) ∧
    called ev' = called ev ++ ["graphics_init"; "console_init"; "console_clear"; "pong_init"; "init_descriptor_tables"; "halt_without_apic"]%string)
    (Kernel (Platform ma md) bo l i d ev).
Proof using BO.
  intros Hg Ht [[width height] Efb] Er Hm. unfold map_rsdp. rewrite Efb, Er. walk.
  assert (is_Some (view ma (u64 (hhdm_offset + 0x1000)))) as [b Eb].
  { pose proof boot_hhdm. pose proof boot_image. pose proof (page_up_spec (rsdp_phys + 4096)) as [? _]. destruct Hm as (? & _ & ?).
    unfold dm_size in *. rewrite wrap_small by lia. apply (view_mapped root); [|done]. rewrite (gd_cr3 _ _ _ _ _ _ Hg). by destruct Hg. }
  apply wp_bind, wp_on_mach. eapply wp_intro; [unfold load8; by rewrite Eb|]. walk.
  apply wp_bind, wp_on_mach, wp_gets. walk. apply wp_bind, wp_on_mach.
  pose proof (good_map (good := ok) k ma rsdp_phys 4096 Hg Hm) as Hmap. cbn [map_range memory64] in Hmap.
  eapply wp_mono; [exact Hmap|]. cbv beta. intros [] m1 (G1 & V1 & _). walk. apply wp_ret.
  split; [done|]. eexists m1, _. split; [done|]. split; [done|]. split; [done|]. called_tac.
Qed.

(** The interrupt controllers are mapped, enabled and known. *)
Lemma init_controllers_ok rsdp cr3 a lapic rs n j ma bo l i d ev :
  let ioapic := ioapic_address (foldl remember (Madt lapic 0 0 0 []) rs) in
  let id := (lapic_reg 0x20 (b_apic bo) .>> 24) .& 0xFF in
  ok (j + (S (S n + 2))) ma → cr3 = m_cr3 s0 → firmware hhdm_offset rsdp a lapic rs n →
  (∀ x, rsdp ≤ x < rsdp + 4096 → is_Some (view ma x)) →
  (∀ i m, ok (j + i) m → wp acpi_init (λ _ m', ok i m' ∧ more m m') m) →
  (length rs ≤ fuel)%nat → mappable lapic 4096 → ioapic ≠ 0 → mappable ioapic 4096 →
  wp (init_controllers fuel acpi_init rsdp cr3) (λ _ t, ∃ m' md' ap ev',
    t = Kernel (Platform m' md') (Board ap (IoBus (io_n (b_io bo)) (io_out (b_io bo) ++ [(1, 0x21, 0xFF); (1, 0xA1, 0xFF)])) (b_handlers bo))
          (u64 (hhdm_offset + lapic)) (u64 (hhdm_offset + ioapic)) id ev' ∧
    root = PAGE_GET_ADDR (m_cr3 m') ∧ reached root lapic 4096 m' ∧ reached root ioapic 4096 m' ∧
    Z.testbit (msr_apic_base ap) 11 = true ∧ Z.testbit (lapic_reg 0xF0 ap) 8 = true ∧
    called ev' = called ev ++ ["acpi_init"]%string) (Kernel (Platform ma (Madt 0 0 0 0 [])) bo l i d ev).
Proof using BO.
  intros ioapic id Hg -> Hfw Hrs Hac Hf Hlm Hio Him. unfold init_controllers. walk.
  apply wp_bind, wp_on_mach. eapply wp_mono; [by apply Hac|]. cbv beta. intros res m1 [G1 K1]. walk.
  apply wp_bind, wp_on_platform.
  eapply wp_mono; [apply (initialize_apic_ok ok fuel hhdm_offset rsdp a lapic rs n 2); [done|done| |done|done]|].
  { eapply (mapped_seen ok); [done|by apply fw_rsdp_firm in Hfw|]. intros x Hx. apply K1, Hrs. destruct Hfw. lia. }
  cbv beta. cbn [ioapic_address ioapic_irq_base ioapic_id]. intros [] [m2 md] (Hmd & G2 & _). cbn [pl_madt pl_mem] in *. subst md.
  walk. apply wp_bind, wp_on_board, wp_on_io. apply wp_bind, wp_modify, wp_modify. cbn [io_n io_out].
  rewrite <- app_assoc. cbn [app]. change (u16 0x21) with 0x21. change (u16 0xA1) with 0xA1. change (wrap (8 * 1) 0xFF) with 0xFF. walk.
  do 2 apply wp_bind, wp_on_platform, wp_on_madt, wp_gets.
  assert (lapic_address (foldl remember (Madt lapic 0 0 0 []) rs) = lapic) as El by (by rewrite lapic_remembered).
  fold ioapic. rewrite El, (proj2 (Z.eqb_neq _ _)) by done.
  apply wp_bind, wp_on_mach. eapply wp_mono; [apply (good64_map root hi s0 F 1); [done|done|symmetry; by destruct G2]|]. cbv beta.
  intros [] m3 (G3 & _ & R3). assert (root = PAGE_GET_ADDR (m_cr3 m3)) as Hr3 by (destruct G3; congruence).
  apply wp_bind, wp_modify. cbn [k_platform k_board k_ioapic_addr k_local_apic_id k_events].
  apply wp_bind, wp_on_board, wp_on_apic. eapply wp_mono; [apply enable_api_hardware_ok|]. cbv beta. intros [] ap0 (A1 & A2 & A3).
  apply wp_bind, (wp_on_lapic root lapic); [done..|]. apply wp_on_apic. eapply wp_mono; [apply enable_apic_software_ok|]. cbv beta.
  cbn [b_apic b_io b_handlers]. intros [] ap (B1 & B2 & B3 & B4). walk.
  apply wp_bind, wp_on_mach. eapply wp_mono; [apply (good64_map root hi s0 F 0); [done|done|symmetry; by destruct G3]|]. cbv beta.
  intros [] m4 (G4 & Gr4 & R4). assert (root = PAGE_GET_ADDR (m_cr3 m4)) as Hr4 by (destruct G4; congruence).
  pose proof (reached_grown _ _ _ _ _ _ _ Gr4 R3) as R3'.
  apply wp_bind, wp_modify. cbn [k_platform k_board k_lapic_virt_base k_local_apic_id k_events]. apply wp_bind, wp_log.
  apply wp_bind, (wp_on_lapic root lapic); [done..|]. apply wp_on_apic, wp_gets. apply wp_bind, wp_modify. apply wp_log.
  cbn [k_platform k_board k_lapic_virt_base k_ioapic_addr k_events b_apic b_io b_handlers].
  eexists m4, _, ap, _. split; [f_equal; rewrite B4 by done; unfold lapic_reg; by rewrite A2|].
  split_and!; try done; [by rewrite B2|called_tac].
Qed.
End steps.

End interrupts.

(** ** An example machine *)

Module ExBoot.
#[local] Existing Instance ex_boot.
#[local] Existing Instance ex_boot_ok.
#[local] Existing Instance ex_hw.

Definition base : Z := 0xffff800000000000.

(** The root pointer at 0xF5000, the XSDT at 0x7FFE1000 and the MADT at 0x7FFE2000. *)
Definition image : Z → Z := ExAcpi.image
  [(0xF5000, sig_rsdp ++ [223]); (0xF500F, [2]); (0xF5014, le 4 36); (0xF5018, le 8 0x7FFE1000); (0xF5020, [79]);
   (0x7FFE1004, le 4 44); (0x7FFE1024, le 8 0x7FFE2000);
   (0x7FFE2000, sig_apic); (0x7FFE2004, le 4 (44 + 8 + 12 + 10)); (0x7FFE2024, le 4 0xFEE00000);
   (0x7FFE202C, mjoin (encode <$> ExAcpi.recs))].

Definition addresses : list Z :=
  ((λ i, 0xF5000 + 8 * i) <$> seqZ 0 5) ++ ((λ i, 0x7FFE1000 + 8 * i) <$> seqZ 0 6) ++ ((λ i, 0x7FFE2000 + 8 * i) <$> seqZ 0 10).

Definition word (a : Z) : Z := foldr (λ i acc, image (a + i) + 256 * acc) 0 (seqZ 0 8).
Definition tables : gmap Z Z := list_to_map ((λ a, (a, word a)) <$> addresses).

(** The first gigabyte of the direct map is one huge page, the firmware's tables are above it, and 1 MiB is left for page
    tables. *)
Definition mach : machine := Machine (tables ∪ ex_mem) (base + 0x100000) 0x1000 0 false ∅.

Definition F (a : Z) : Prop := 0xF5000 ≤ a < 0xF5028 ∨ 0x7FFE1000 ≤ a < 0x7FFE1030 ∨ 0x7FFE2000 ≤ a < 0x7FFE2060.

Lemma tables_words : map_Forall (λ a v, 0 ≤ v < 2 ^ 64 ∧ 0xF5000 ≤ a) tables.
Proof.
  assert (forallb (λ av, (0 <=? av.2) && (av.2 <? 2 ^ 64) && (0xF5000 <=? av.1)) (map_to_list tables) = true) as H by (vm_compute; reflexivity).
  intros a v Hv. rewrite forallb_forall in H. specialize (H (a, v)). cbn [fst snd] in H.
  apply elem_of_map_to_list, list_elem_of_In in Hv. apply H in Hv. lia.
Qed.

Lemma mach_rd a : a < 0xF5000 → rd (m_mem mach) a = rd ex_mem a.
Proof.
  intros Ha. cbn [m_mem mach]. unfold rd. rewrite lookup_union_r; [done|].
  destruct (tables !! a) as [v|] eqn:E; [|done]. apply tables_words in E. lia.
Qed.

Lemma mach_walk v : trail (m_mem mach) 3 0x1000 v = trail ex_mem 3 0x1000 v ∧ translate (m_mem mach) 0x1000 v = translate ex_mem 0x1000 v.
Proof.
  apply walk_ext. intros j t H. pose proof (index_bound j v). apply ex_trail in H. apply mach_rd. lia.
Qed.

Lemma mach_inv : pg_inv 0x1000 0x200000 mach.
Proof.
  destruct ex_inv as [Hw [Hd Hs] Hhi Hlo]. split; [|split|done|done].
  - intros a. destruct (tables !! a) as [v|] eqn:E.
    + cbn [m_mem mach]. unfold rd. rewrite (lookup_union_Some_l _ _ _ _ E). cbn [default from_option id]. apply tables_words in E. lia.
    + cbn [m_mem mach]. unfold rd. rewrite lookup_union_r by done. apply Hw.
  - intros v j t. rewrite (proj1 (mach_walk v)). apply Hd.
  - intros v v' j j' t. rewrite (proj1 (mach_walk v)), (proj1 (mach_walk v')). apply Hs.
Qed.

(** The huge page is mapped where it should be, and nothing else is. *)
Lemma mach_translate b : 0 ≤ b < dm_size →
  translate (m_mem mach) 0x1000 (b + hhdm_offset) =
    if b <? 2 ^ 30 then Some (b / 0x1000 * 0x1000, Perms true false false false) else None.
Proof.
  intros Hb. rewrite (proj2 (mach_walk _)). unfold dm_size in Hb. cbn [hhdm_offset kernel_virt_base ex_boot] in *.
  set (v := b + 0xffff800000000000). unfold translate.
  assert (index 3 v = 256 + b / 2 ^ 39) as E3.
  { rewrite index_div by lia. change (2 ^ level_bits 3) with (2 ^ 39). unfold v. Z.to_euclidean_division_equations. lia. }
  assert (index 2 v = b / 2 ^ 30 mod 512) as E2.
  { rewrite index_div by lia. change (2 ^ level_bits 2) with (2 ^ 30). unfold v. Z.to_euclidean_division_equations. lia. }
  cbn [walk]. rewrite E3. unfold ex_mem.
  destruct (Z.ltb_spec b (2 ^ 30)) as [Hlt|Hge].
  - assert (b / 2 ^ 39 = 0) as -> by (apply Z.div_small; lia). assert (b / 2 ^ 30 mod 512 = 0) as E0 by (by rewrite Z.div_small by lia). rewrite E0 in E2.
    rewrite Z.add_0_r, rd_insert_eq. change (negb (present 0x2003)) with false. change (is_table 3 0x2003) with true. cbn iota.
    change (PAGE_GET_ADDR 0x2003) with 0x2000. rewrite E2. change (rd _ (0x2000 + 8 * 0)) with 0x83.
    change (negb (present 0x83)) with false. change (is_table 2 0x83) with false. cbn iota. unfold leaf_frame.
    change (PAGE_GET_ADDR 0x83 / 2 ^ level_bits 2 * 2 ^ level_bits 2) with 0. change (2 ^ level_bits 2) with (2 ^ 30).
    replace (v mod 2 ^ 30) with b by (unfold v; Z.to_euclidean_division_equations; lia). reflexivity.
  - destruct (decide (b / 2 ^ 39 = 0)) as [E0|E0].
    + rewrite E0, Z.add_0_r, rd_insert_eq. change (negb (present 0x2003)) with false. change (is_table 3 0x2003) with true. cbn iota.
      change (PAGE_GET_ADDR 0x2003) with 0x2000. rewrite E2, rd_insert_ne, rd_insert_ne by (Z.to_euclidean_division_equations; lia). unfold rd. rewrite lookup_empty. done.
    + rewrite rd_insert_ne, rd_insert_ne by (Z.to_euclidean_division_equations; lia). unfold rd. rewrite lookup_empty. done.
Qed.

Lemma mach_direct : direct 0x1000 mach.
Proof.
  intros b Ha Hb. rewrite mach_translate by done. destruct (b <? 2 ^ 30); [|done]. intros _. cbn [option_map fst]. f_equal. pose proof (Z.div_mod b 0x1000 ltac:(done)). lia.
Qed.

Lemma mach_reserved : reserved 0x1000 0x200000 F mach.
Proof.
  intros a Ha. unfold F in Ha. pose proof (Z.div_mod a 8 ltac:(done)). pose proof (Z.mod_pos_bound a 8 ltac:(done)).
  split; [unfold dm_size; cbn; lia|]. split; [|cbn [m_placement mach hhdm_offset ex_boot]; unfold base; lia].
  intros v j t. rewrite (proj1 (mach_walk v)). intros Ht%ex_trail. lia.
Qed.

(** An ACPI library that maps one page. *)
Definition acpi_init : M machine Z := map_range 0x7FFE3000 4096 ;; mret 0.

Definition start : kernel :=
  Kernel (Platform mach (Madt 0 0 0 0 [])) (Board (Apic 0 ∅ {[ 0x20 := 0x3000000 ]} 0xFEE00000) (IoBus 0 []) ∅) 0xFEE00000 0 0 [].
Definition reply : answers := Answers (Some (1024, 768)) (Some 0xF5000) 0.
Definition count (n : nat) : Z := 0xFFFFFFFF - 1000000.

Lemma mappable_page p : 0 ≤ p < 2 ^ 40 → mappable p 4096 ∧ mappable p 0x4000.
Proof.
  intros Hp. assert (2 ^ 40 = 0x10000000000) as E by reflexivity. unfold mappable, dm_size. cbn [kernel_virt_base hhdm_offset ex_boot].
  pose proof (page_up_spec (p + 4096)) as [? _]. pose proof (page_up_spec (p + 0x4000)) as [? _]. lia.
Qed.

Lemma in_firm_F a n : (∀ x, a - base ≤ x < a - base + n → F x) → @in_firm (layout64 mach F) a n.
Proof. intros H x Hx. apply H. cbn [hhdm_offset ex_boot]. unfold base. lia. Qed.

Lemma boot_tables : @firmware (layout64 mach F) base (u64 (0xF5000 + base)) (base + 0x7FFE2000) 0xFEE00000 ExAcpi.recs 1.
Proof.
  split.
  - by vm_compute.
  - vm_compute. split; discriminate.
  - assert (rd32 (@bytes_of (layout64 mach F)) (u64 (0xF5000 + base) + 20) = 36) as -> by (vm_compute; reflexivity).
    apply in_firm_F. change (u64 (0xF5000 + base) - base) with 0xF5000. unfold F. lia.
  - vm_compute. reflexivity.
  - vm_compute. discriminate.
  - done.
  - assert (rd64 (@bytes_of (layout64 mach F)) (u64 (0xF5000 + base) + 24) = 0x7FFE1000) as -> by (vm_compute; reflexivity).
    apply mappable_page. lia.
  - assert (rd64 (@bytes_of (layout64 mach F)) (u64 (0xF5000 + base) + 24) = 0x7FFE1000) as -> by (vm_compute; reflexivity).
    apply in_firm_F. change (u64 (0x7FFE1000 + base) - base) with 0x7FFE1000. unfold F. lia.
  - vm_compute. reflexivity.
  - lia.
  - assert (listed (@bytes_of (layout64 mach F)) (u64 (rd64 (@bytes_of (layout64 mach F)) (u64 (0xF5000 + base) + 24) + base)) 8 1 = [0x7FFE2000]) as ->
      by (vm_compute; reflexivity).
    apply Forall_singleton. split; [apply mappable_page; lia|]. apply in_firm_F.
    change (u64 (0x7FFE2000 + base) - base) with 0x7FFE2000. unfold F. lia.
  - vm_compute. reflexivity.
  - by vm_compute.
  - change (u32 (base + 0x7FFE2000)) with 0x7FFE2000. apply mappable_page. lia.
  - vm_compute. reflexivity.
  - apply in_firm_F. change (base + 0x7FFE2000 - base) with 0x7FFE2000. change (length (mjoin (encode <$> ExAcpi.recs))) with 30%nat. unfold F. lia.
  - apply bytes_in_check. vm_compute. reflexivity.
  - apply bytes_in_check. vm_compute. reflexivity.
  - apply bytes_in_check. vm_compute. reflexivity.
  - vm_compute. discriminate.
  - lia.
  - repeat constructor; cbn; unfold byte; lia.
Qed.

Lemma ready : powered count reply 10 acpi_init 0x1000 0x200000 0xF5000 (base + 0x7FFE2000) 0xFEE00000 F ExAcpi.recs 1 1 3 100000 start.
Proof.
  split.
  - exact mach_inv.
  - vm_compute. reflexivity.
  - unfold dm_size. cbn. lia.
  - exact mach_direct.
  - vm_compute. discriminate.
  - exact mach_reserved.
  - change (hhdm_offset + 0x1000) with (0x1000 + hhdm_offset). unfold k_mach. cbn [k_platform pl_mem start].
    rewrite mach_translate by (unfold dm_size; cbn; lia). done.
  - eexists. reflexivity.
  - reflexivity.
  - apply mappable_page. lia.
  - exact boot_tables.
  - intros i m G. unfold acpi_init. apply wp_bind.
    eapply wp_mono; [apply (good_map (LA := layout64 mach F) (Mapper := mapper64 0x1000 0x200000 mach F) i); [exact G|apply mappable_page; lia]|].
    cbv beta. intros _ m' (G' & _ & K). by apply wp_ret.
  - reflexivity.
  - cbn. lia.
  - apply mappable_page. lia.
  - vm_compute. discriminate.
  - assert (ioapic_address (foldl remember (Madt 0xFEE00000 0 0 0 []) ExAcpi.recs) = 0xFEC00000) as -> by reflexivity.
    apply mappable_page. lia.
  - split_and!; [split| | |].
    + intros i Hi. destruct i as [|[|[|i]]]; [vm_compute; reflexivity..|lia].
    + vm_compute. reflexivity.
    + lia.
    + unfold count. lia.
    + unfold count. lia.
  - lia.
Qed.
End ExBoot.

