(* ===== verification/I386Switch.v ===== *)
(** * Context switching on the i386 port ([arch/i386/asm/swtch.S], with [init_stack] and
      [clone_stack_rebased] of [kernel/scheduler/process.c] at its word size)

    The assembly as lists of instructions on the processor of [I386Interrupts], which has flat
    memory: arguments are passed on the stack. *)

From S2P Require Import Prelude Loops PortIo I386Interrupts.

(** ** The instructions *)

(** [Store p s] is [mov %s, (%p)]. *)
Inductive sinstr := I (i : instr) | Store (p s : reg) | MovCr3 (s : reg) | Ret.

Record sw := Sw { sw_cpu : cpu; sw_cr3 : Z }.

Definition sstep (i : sinstr) (s : sw) : sw :=
  let c := sw_cpu s in
  match i with
  | I i => Sw (step i c) (sw_cr3 s)
  | Store p r => Sw (Cpu (rg c) (<[rg c p := rg c r]> (mm c))) (sw_cr3 s)
  | MovCr3 r => Sw c (rg c r)
  | Ret => Sw (pop_reg EIP c) (sw_cr3 s)
  end.

Definition srun (p : list sinstr) (s : sw) : sw := foldl (λ s i, sstep i s) s p.

Definition push_saved : list sinstr := [I (Push EBP); I (Push EBX); I (Push ESI); I (Push EDI)].
Definition pop_saved : list sinstr := [I (Pop EDI); I (Pop ESI); I (Pop EBX); I (Pop EBP)].

(* src/arch/i386/asm/swtch.S 1-27 swtch *)
Definition swtch : list sinstr :=
  [I (Load EAX 4); I (Load EDX 8); I (Load ECX 12)] ++
  push_saved ++
  [Store EAX ESP; I (Mov ESP EDX); MovCr3 ECX] ++
  pop_saved ++
  [Ret].

(** ** The C code it works with *)

Fixpoint memcpy_words (dst src : Z) (n : nat) (m : gmap Z Z) : gmap Z Z :=
  match n with
  | O => m
  | S n => memcpy_words (u32 (dst + 4)) (u32 (src + 4)) n (<[dst := word m src]> m)
  end.

(* src/arch/i386/switch.h 42-44 FORK_FRAME_FP_SLOT *)
Definition FORK_FRAME_FP_SLOT : Z := 3.

(** The walk along the saved frame pointers of the copy; none when it does not end. *)
(* src/kernel/scheduler/process.c 441-444 clone_stack_rebased *)
Fixpoint rebase_chain (fuel : nat) (slot delta frame parent_stack_top : Z) (m : gmap Z Z) : option (gmap Z Z) :=
  let v := word m slot in
  if negb ((frame <=? v) && (v <? parent_stack_top)) then Some m else
  match fuel with
  | O => None
  | S fuel =>
      let v := u32 (v + delta) in
      rebase_chain fuel v delta frame parent_stack_top (<[slot := v]> m)
  end.

(** The caller looks the stack regions up; the result is the child's [context.sp]. *)
(* src/kernel/scheduler/process.c 428-447 clone_stack_rebased *)
Definition clone_stack_rebased (child_stack_top parent_stack_top frame : Z) (m : gmap Z Z) : option (Z * gmap Z Z) :=
  let delta := u32 (child_stack_top - parent_stack_top) in
  let child_frame := u32 (frame + delta) in
  let n := Z.to_nat ((parent_stack_top - frame) / 4) in
  let m := memcpy_words child_frame frame n m in
  m ← rebase_chain n (u32 (child_frame + 4 * FORK_FRAME_FP_SLOT)) delta frame parent_stack_top m;
  Some (child_frame, m).

(** [call clone_stack_rebased] with the two arguments on the stack.  The callee may change [eax],
    [ecx] and [edx], which [scratch] gives, and the memory below the stack pointer, which it leaves as it was here. *)
Definition call_clone (scratch : reg → Z) (child_stack_top parent_stack_top : Z) (s : sw) : option (Z * sw) :=
  let c := sw_cpu s in
  let frame := word (mm c) (u32 (rg c ESP + 4)) in
  r ← clone_stack_rebased child_stack_top parent_stack_top frame (mm c);
  let rg' := λ r, if decide (r ∈ [EAX; ECX; EDX]) then scratch r else rg c r in
  Some (r.1, Sw (Cpu rg' r.2) (sw_cr3 s)).

(** The child's [context.sp], and the state after the return to [fork]. *)
(* src/arch/i386/asm/swtch.S 29-59 clone_parent_base_frame *)
Definition clone_parent_base_frame (fork_child_resume : Z) (scratch : reg → Z) (child_stack_top parent_stack_top : Z)
    (s : sw) : option (Z * sw) :=
  let s := srun ([I (Load EAX 4); I (PushImm fork_child_resume)] ++ push_saved ++
                 [I (Mov ECX ESP); I (Push ECX); I (Push EAX)]) s in
  '(child_sp, s) ← call_clone scratch child_stack_top parent_stack_top s;
  let s := srun ([I (AddEsp 8)] ++ pop_saved ++ [I (AddEsp 4)]) s in
  let s := Sw (Cpu (set_reg EAX 1 (rg (sw_cpu s))) (mm (sw_cpu s))) (sw_cr3 s) in
  Some (child_sp, srun [Ret] s).

(* src/arch/i386/asm/swtch.S 61-64 fork_child_resume *)
Definition fork_child_resume_code : list sinstr := [I (Xor EAX); Ret].

(** The processor executes the code its instruction pointer leads to: [code], if that is
    at [addr].  What is anywhere else is not known. *)
Definition code_at (addr : Z) (code : list sinstr) (s : sw) : option sw :=
  if rg (sw_cpu s) EIP =? addr then Some (srun code s) else None.

(** The frame [init_stack] seeds below [stack_end], with words of 32 bits; the result is the
    [context.sp] of the new process. *)
(* src/kernel/scheduler/process.c 75-112 init_stack *)
Definition seed_frame (stack_end entry : Z) (m : gmap Z Z) : Z * gmap Z Z :=
  let at_ k := u32 (stack_end + 4 * k) in
  let m := <[at_ (-1) := 0]> m in
  let m := <[at_ (-2) := entry]> m in
  let m := <[at_ (-3) := 0]> m in
  let m := <[at_ (-4) := 0]> m in
  let m := <[at_ (-5) := 0]> m in
  let m := <[at_ (-6) := 0]> m in
  let m := <[at_ (-7) := 0]> m in
  let m := <[at_ (-8) := 0]> m in
  (at_ (-8), m).

(** ** Words of memory *)

Lemma word_eq m a v : word (<[a := v]> m) a = v.
Proof. unfold word. by rewrite lookup_insert_eq. Qed.
Lemma word_ne m a b v : a ≠ b → word (<[a := v]> m) b = word m b.
Proof. intros. unfold word. by rewrite lookup_insert_ne. Qed.

(** ** Saving and restoring *)

Lemma set_eq r v f : set_reg r v f r = v.
Proof. unfold set_reg. by rewrite decide_True. Qed.
Lemma set_ne r r' v f : r' ≠ r → set_reg r v f r' = f r'.
Proof. intros. unfold set_reg. by rewrite decide_False. Qed.
Ltac regs32 := repeat first [rewrite set_eq | rewrite set_ne by done].

Lemma step_push r c : 4 ≤ rg c ESP < 2 ^ 32 →
  step (Push r) c = Cpu (set_reg ESP (rg c ESP - 4) (rg c)) (<[rg c ESP - 4 := rg c r]> (mm c)).
Proof. intros H. cbn [step]. unfold push_word. by rewrite wrap_small by lia. Qed.

Lemma step_pop r c : 0 ≤ rg c ESP → rg c ESP + 4 < 2 ^ 32 →
  pop_reg r c = Cpu (set_reg r (word (mm c) (rg c ESP)) (set_reg ESP (rg c ESP + 4) (rg c))) (mm c).
Proof. intros H1 H2. unfold pop_reg. by rewrite wrap_small by lia. Qed.

Lemma srun_cons i p s : srun (i :: p) s = srun p (sstep i s).
Proof. done. Qed.
Lemma srun_app p q s : srun (p ++ q) s = srun q (srun p s).
Proof. apply foldl_app. Qed.

(** The memory after the four pushes. *)
Definition saved_mem (f : reg → Z) (sp : Z) (m : gmap Z Z) : gmap Z Z :=
  <[sp - 16 := f EDI]> (<[sp - 12 := f ESI]> (<[sp - 8 := f EBX]> (<[sp - 4 := f EBP]> m))).

Lemma push_saved32_ok c cr3 sp : rg c ESP = sp → 16 ≤ sp < 2 ^ 32 →
  ∃ f, srun push_saved (Sw c cr3) = Sw (Cpu f (saved_mem (rg c) sp (mm c))) cr3 ∧
    f ESP = sp - 16 ∧ ∀ r, r ≠ ESP → f r = rg c r.
Proof.
  intros Hsp H. unfold push_saved.
  do 4 (rewrite srun_cons; cbn [sstep sw_cpu sw_cr3]; rewrite step_push by (cbn [rg]; regs32; lia); cbn [rg mm]). eexists. split; [|split].
  - regs32. rewrite Hsp. unfold saved_mem. by replace (sp - 4 - 4 - 4 - 4) with (sp - 16) by lia;
      replace (sp - 4 - 4 - 4) with (sp - 12) by lia; replace (sp - 4 - 4) with (sp - 8) by lia.
  - regs32. lia.
  - intros r Hr. regs32. done.
Qed.

Lemma pop_saved32_ok c cr3 sp : rg c ESP = sp → 0 ≤ sp → sp + 16 < 2 ^ 32 →
  ∃ f, srun pop_saved (Sw c cr3) = Sw (Cpu f (mm c)) cr3 ∧
    f EDI = word (mm c) sp ∧ f ESI = word (mm c) (sp + 4) ∧ f EBX = word (mm c) (sp + 8) ∧ f EBP = word (mm c) (sp + 12) ∧
    f ESP = sp + 16 ∧ ∀ r, r ∉ [EDI; ESI; EBX; EBP; ESP] → f r = rg c r.
Proof.
  intros Hsp H0 Hb. unfold pop_saved.
  do 4 (rewrite srun_cons; cbn [sstep sw_cpu sw_cr3 step]; rewrite step_pop by (cbn [rg]; regs32; lia); cbn [rg mm]). eexists. split; [reflexivity|]. regs32. rewrite Hsp.
  replace (sp + 4 + 4 + 4 + 4) with (sp + 16) by lia. replace (sp + 4 + 4 + 4) with (sp + 12) by lia. replace (sp + 4 + 4) with (sp + 8) by lia.
  split_and!; try done. intros r Hr. rewrite !not_elem_of_cons in Hr. destruct_and! Hr. regs32. done.
Qed.

(** The stack at [sp] holds what [swtch] needs to resume a thread with the registers [f]. *)
Definition saved_frame (m : gmap Z Z) (sp : Z) (f : reg → Z) : Prop :=
  word m sp = f EDI ∧ word m (sp + 4) = f ESI ∧ word m (sp + 8) = f EBX ∧ word m (sp + 12) = f EBP ∧
  word m (sp + 16) = f EIP ∧ f ESP = sp + 20.

Definition frame_words (sp : Z) : list Z := [sp; sp + 4; sp + 8; sp + 12; sp + 16].
Definition saved_words (sp : Z) : list Z := [sp - 16; sp - 12; sp - 8; sp - 4].

(** A call of [swtch]: the stack pointer is at the return address, above it are the arguments. *)
Record calls (c : cpu) (sp old_sp new_sp new_cr3 : Z) : Prop := {
  ca_esp : rg c ESP = sp;
  ca_low : 16 ≤ sp;
  ca_high : sp + 16 ≤ 2 ^ 32;
  ca_old : word (mm c) (sp + 4) = old_sp;
  ca_new : word (mm c) (sp + 8) = new_sp;
  ca_cr3 : word (mm c) (sp + 12) = new_cr3;
  ca_new_low : 0 ≤ new_sp;
  ca_new_high : new_sp + 20 < 2 ^ 32;
}.

Definition swtch_mem (f : reg → Z) (sp old_sp : Z) (m : gmap Z Z) : gmap Z Z := <[old_sp := sp - 16]> (saved_mem f sp m).

Lemma swtch32_ok c cr3 sp old_sp new_sp new_cr3 :
  calls c sp old_sp new_sp new_cr3 →
  ∃ f, srun swtch (Sw c cr3) = Sw (Cpu f (swtch_mem (rg c) sp old_sp (mm c))) new_cr3 ∧
    saved_frame (swtch_mem (rg c) sp old_sp (mm c)) new_sp f.
Proof.
  intros [Hsp Hlo Hhi H1 H2 H3 Hn1 Hn2]. unfold swtch. rewrite srun_app. unfold srun at 2. cbn [foldl sstep sw_cpu sw_cr3 step rg mm].
  regs32. rewrite Hsp, !wrap_small, H1, H2, H3 by lia. set (c1 := Cpu _ _).
  destruct (push_saved32_ok c1 cr3 sp) as (f & Hf & Fsp & Fr); [by unfold c1; cbn; regs32|lia|].
  rewrite srun_app, Hf, srun_app. unfold srun at 2. cbn [foldl sstep sw_cpu sw_cr3 step rg mm].
  rewrite Fsp, !Fr by done. unfold c1 at 1 2 3 4. cbn [rg mm]. regs32.
  set (m1 := <[old_sp := _]> _). destruct (pop_saved32_ok (Cpu (set_reg ESP new_sp f) m1) new_cr3 new_sp) as (f' & Hf' & E1 & E2 & E3 & E4 & E5 & E6).
  { cbn. by regs32. } { done. } { lia. }
  assert (f ECX = new_cr3) as Ecx by (rewrite Fr by done; unfold c1; cbn; by regs32).
  rewrite srun_app, Ecx, Hf'. unfold srun. cbn [foldl sstep sw_cpu sw_cr3]. rewrite step_pop by (cbn; lia).
  assert (m1 = swtch_mem (rg c) sp old_sp (mm c)) as <- by (unfold m1, swtch_mem, saved_mem, c1; cbn; by regs32).
  eexists. split; [reflexivity|]. cbn [rg mm] in *. unfold saved_frame. regs32. rewrite E5. split_and!; try done. lia.
Qed.

Lemma swtch_mem_out32 f sp old_sp m a : a ≠ old_sp → a ∉ saved_words sp → word (swtch_mem f sp old_sp m) a = word m a.
Proof.
  intros H1 H2. unfold saved_words in H2. rewrite !not_elem_of_cons in H2. destruct_and! H2.
  unfold swtch_mem, saved_mem. rewrite !word_ne by done. done.
Qed.

Lemma saved_frame_ext32 m m' sp f : (∀ a, a ∈ frame_words sp → word m' a = word m a) → saved_frame m sp f → saved_frame m' sp f.
Proof.
  unfold saved_frame. intros H Hf. rewrite !H by (unfold frame_words; set_solver). done.
Qed.

(** What a thread gets back from [swtch]: its registers, with the return address popped. *)
Definition resumed (c : cpu) (f : reg → Z) : Prop :=
  f EDI = rg c EDI ∧ f ESI = rg c ESI ∧ f EBX = rg c EBX ∧ f EBP = rg c EBP ∧
  f ESP = rg c ESP + 4 ∧ f EIP = word (mm c) (rg c ESP).

Lemma swtch_mem_saves32 c sp old_sp f :
  rg c ESP = sp → old_sp ∉ sp :: saved_words sp →
  saved_frame (swtch_mem (rg c) sp old_sp (mm c)) (sp - 16) f ↔ resumed c f.
Proof.
  intros Hsp Hn. unfold saved_words in Hn. rewrite !not_elem_of_cons in Hn. destruct_and! Hn.
  unfold saved_frame, swtch_mem, saved_mem, resumed. rewrite Hsp. replace (sp - 16 + 4) with (sp - 12) by lia.
  replace (sp - 16 + 8) with (sp - 8) by lia. replace (sp - 16 + 12) with (sp - 4) by lia. replace (sp - 16 + 16) with sp by lia.
  replace (sp - 16 + 20) with (sp + 4) by lia.
  repeat first [rewrite word_eq | rewrite word_ne by (done || lia)].
  split; intros (? & ? & ? & ? & ? & ?); split_and!; done.
Qed.

(** C7: the 32-bit [swtch] resumes the incoming thread from its saved frame with the page directory it is given, and the
    outgoing thread comes back exactly as it called [swtch] -- callee-saved registers, stack pointer above the return
    address, control at the return address -- the next time any thread switches to the stack pointer saved for it, as long
    as its frame was left alone. *)
Theorem swtch32_round_trip c cr3 sp old_sp new_sp new_cr3 f :
  calls c sp old_sp new_sp new_cr3 → old_sp ∉ sp :: saved_words sp →
  saved_frame (mm c) new_sp f → frame_words new_sp ## old_sp :: saved_words sp →
  ∃ f1 m1, srun swtch (Sw c cr3) = Sw (Cpu f1 m1) new_cr3 ∧
    (∀ r, r ∈ [EDI; ESI; EBX; EBP; ESP; EIP] → f1 r = f r) ∧
    ∀ c2 cr32 sp2 old2 cr33,
      calls c2 sp2 old2 (word m1 old_sp) cr33 →
      (∀ a, a ∈ frame_words (sp - 16) → word (mm c2) a = word m1 a) →
      frame_words (sp - 16) ## old2 :: saved_words sp2 →
      ∃ f3 m3, srun swtch (Sw c2 cr32) = Sw (Cpu f3 m3) cr33 ∧ resumed c f3.
Proof.
  intros Hc Hold Hf Hdis. destruct (swtch32_ok c cr3 _ _ _ _ Hc) as (f1 & Hrun & Hf1).
  exists f1, (swtch_mem (rg c) sp old_sp (mm c)). split; [done|]. split.
  - assert (saved_frame (swtch_mem (rg c) sp old_sp (mm c)) new_sp f) as Hf'.
    { eapply saved_frame_ext32; [|exact Hf]. intros a Ha. pose proof (Hdis a Ha) as Hn. apply not_elem_of_cons in Hn as [? ?].
      by apply swtch_mem_out32. }
    destruct Hf1 as (A1 & A2 & A3 & A4 & A5 & A6), Hf' as (B1 & B2 & B3 & B4 & B5 & B6).
    intros r Hr. repeat (apply elem_of_cons in Hr as [->|Hr]; [congruence|]). by apply not_elem_of_nil in Hr.
  - intros c2 cr32 sp2 old2 cr33 Hc2 Hkeep Hdis2. destruct (swtch32_ok c2 cr32 _ _ _ _ Hc2) as (f3 & Hrun3 & Hf3).
    eexists f3, _. split; [exact Hrun3|]. apply (swtch_mem_saves32 c sp old_sp); [by destruct Hc|done|].
    assert (word (swtch_mem (rg c) sp old_sp (mm c)) old_sp = sp - 16) as Esp by apply word_eq. rewrite Esp in Hf3.
    eapply saved_frame_ext32; [|exact Hf3]. intros a Ha. rewrite <- Hkeep by done.
    pose proof (Hdis2 a Ha) as Hn. apply not_elem_of_cons in Hn as [? ?]. symmetry. by apply swtch_mem_out32.
Qed.

(** [init_stack] seeds the frame of the 64-bit [swtch], of six registers: the 32-bit one pops four of its zeroes and
    takes the fifth for the return address, so that a new process starts at address 0 instead of its entry function. *)
Theorem init_stack_first_switch32 stack_end entry c cr3 sp old_sp new_cr3 m :
  32 ≤ stack_end → stack_end + 20 ≤ 2 ^ 32 → mm c = (seed_frame stack_end entry m).2 →
  calls c sp old_sp (seed_frame stack_end entry m).1 new_cr3 →
  frame_words (stack_end - 32) ## old_sp :: saved_words sp →
  ∃ f m', srun swtch (Sw c cr3) = Sw (Cpu f m') new_cr3 ∧ f EIP = 0 ∧ f ESP = stack_end - 12 ∧ f EBP = 0.
Proof.
  intros H1 H2 Hm Hc Hdis. assert ((seed_frame stack_end entry m).1 = stack_end - 32) as E.
  { unfold seed_frame. cbn [fst]. rewrite wrap_small by lia. lia. }
  rewrite E in Hc. destruct (swtch32_ok c cr3 _ _ _ _ Hc) as (f & Hrun & Hf). exists f. eexists. split; [exact Hrun|].
  assert (∀ a, a ∈ frame_words (stack_end - 32) → word (swtch_mem (rg c) sp old_sp (mm c)) a = word (mm c) a) as Hout.
  { intros a Ha. pose proof (Hdis a Ha) as Hn. apply not_elem_of_cons in Hn as [? ?]. by apply swtch_mem_out32. }
  assert (word (mm c) (stack_end - 32 + 16) = 0 ∧ word (mm c) (stack_end - 32 + 12) = 0) as [Z1 Z2].
  { rewrite Hm. unfold seed_frame. cbn [snd]. rewrite !wrap_small by lia.
    replace (stack_end - 32 + 16) with (stack_end + 4 * -4) by lia. replace (stack_end - 32 + 12) with (stack_end + 4 * -5) by lia.
    split; [do 4 (rewrite word_ne by lia)|do 3 (rewrite word_ne by lia)]; apply word_eq. }
  destruct Hf as (_ & _ & _ & F4 & F5 & F6). 
  rewrite Hout in F4 by (by do 3 right; left). rewrite Hout in F5 by (by do 4 right; left).
  split; [by rewrite <- F5|]. split; [rewrite F6; lia|by rewrite <- F4].
Qed.

(** ** The stack copy of [fork] *)

Lemma memcpy32_ok n m dst src :
  0 ≤ dst → dst + 4 * Z.of_nat n ≤ 2 ^ 32 → 0 ≤ src → src + 4 * Z.of_nat n ≤ 2 ^ 32 →
  dst + 4 * Z.of_nat n ≤ src ∨ src + 4 * Z.of_nat n ≤ dst →
  (∀ i, 0 ≤ i < Z.of_nat n → word (memcpy_words dst src n m) (dst + 4 * i) = word m (src + 4 * i)) ∧
  (∀ a, ¬ (dst ≤ a < dst + 4 * Z.of_nat n) → word (memcpy_words dst src n m) a = word m a).
Proof.
  revert m dst src. induction n as [|n IH]; intros m dst src Hd1 Hd2 Hs1 Hs2 Hdis; [split; [lia|done]|].
  cbn [memcpy_words]. destruct n as [|n].
  { cbn [memcpy_words]. split.
    - intros i Hi. replace i with 0 by lia. rewrite !Z.mul_0_r, !Z.add_0_r. apply word_eq.
    - intros a Ha. apply word_ne. lia. }
  rewrite !wrap_small by lia. destruct (IH (<[dst := word m src]> m) (dst + 4) (src + 4)) as [Hin Hout]; [lia..|]. split.
  - intros i Hi. destruct (decide (i = 0)) as [->|Hi0].
    + rewrite Z.mul_0_r, !Z.add_0_r, Hout by lia. apply word_eq.
    + specialize (Hin (i - 1) ltac:(lia)). replace (dst + 4 + 4 * (i - 1)) with (dst + 4 * i) in Hin by lia.
      replace (src + 4 + 4 * (i - 1)) with (src + 4 * i) in Hin by lia. rewrite Hin. apply word_ne. lia.
  - intros a Ha. rewrite Hout by lia. apply word_ne. lia.
Qed.

Section chain.
Context (frame top D : Z) (H0 : 0 ≤ frame) (H1 : top ≤ 2 ^ 32) (H2 : 0 ≤ frame + D) (H3 : top + D ≤ 2 ^ 32).

(** [v], then the word it points to, and so on: the addresses [l], each above the one before, until a value outside the
    stack. *)
Fixpoint fp_chain (m : gmap Z Z) (lo v : Z) (l : list Z) : Prop :=
  match l with
  | [] => ¬ (frame ≤ v < top)
  | a :: l => v = a ∧ lo ≤ a ∧ frame ≤ a < top ∧ (a - frame) mod 4 = 0 ∧ fp_chain m (a + 4) (word m a) l
  end.

Definition rebased (v : Z) : Z := if (frame <=? v) && (v <? top) then v + D else v.

Lemma fp_chain32_bounds m lo v l a : fp_chain m lo v l → a ∈ l → lo ≤ a ∧ frame ≤ a < top ∧ (a - frame) mod 4 = 0.
Proof using Type.
  revert lo v. induction l as [|b l IH]; intros lo v; [by intros _ ?%elem_of_nil|].
  intros (-> & Hlo & Hin & Hal & Hc) [->|Ha]%elem_of_cons; [done|].
  destruct (IH _ _ Hc Ha) as (? & ? & ?). split; [lia|done].
Qed.

Lemma fp_chain32_length m lo v l :
  fp_chain m lo v l → frame ≤ lo → lo + 4 * Z.of_nat (length l) ≤ Z.max lo (top + 3).
Proof using Type.
  revert lo v. induction l as [|b l IH]; intros lo v; [simpl; lia|].
  intros (-> & Hlo & Hin & Hal & Hc) Hfr. specialize (IH _ _ Hc ltac:(lia)). simpl length. lia.
Qed.

Lemma fp_chain32_NoDup m lo v l : fp_chain m lo v l → NoDup l.
Proof using Type.
  revert lo v. induction l as [|b l IH]; intros lo v; [constructor|].
  intros (-> & Hlo & Hin & Hal & Hc). apply NoDup_cons. split; [|by eapply IH].
  intros Hb. destruct (fp_chain32_bounds _ _ _ _ _ Hc Hb). lia.
Qed.

Lemma fp_chain32_ext m m' lo lo' v l :
  lo' ≤ lo → (∀ a, a ∈ l → word m' a = word m a) → fp_chain m lo v l → fp_chain m' lo' v l.
Proof using Type.
  revert lo lo' v. induction l as [|b l IH]; intros lo lo' v Hlo Hext; [done|].
  intros (-> & A1 & A2 & A3 & A4). cbn [fp_chain]. split_and!; [done|lia|lia|lia|done|].
  rewrite Hext by by left. eapply IH; [reflexivity| |done]. intros a Ha. apply Hext. by right.
Qed.

Lemma rebase_chain32_ok m0 l fuel m slot lo v :
  fp_chain m0 lo v l → (∀ a, a ∈ l → slot ≠ a + D) → word m slot = v → (∀ a, a ∈ l → word m (a + D) = word m0 a) →
  (length l ≤ fuel)%nat →
  ∃ m', rebase_chain fuel slot (u32 D) frame top m = Some m' ∧
    word m' slot = rebased v ∧ (∀ a, a ∈ l → word m' (a + D) = rebased (word m0 a)) ∧
    (∀ p, p ≠ slot → (∀ a, a ∈ l → p ≠ a + D) → word m' p = word m p).
Proof using H0 H1 H2 H3.
  revert fuel m slot lo v. induction l as [|b l IH]; intros fuel m slot lo v Hc Hne Hv Hcopy Hf.
  - cbn [fp_chain] in Hc. exists m.
    assert ((frame <=? v) && (v <? top) = false) as Hout by (apply andb_false_iff; rewrite Z.leb_gt, Z.ltb_ge; lia).
    unfold rebased. rewrite Hout. split; [destruct fuel; cbn [rebase_chain]; by rewrite Hv, Hout|].
    split; [done|]. split; [by intros ? ?%elem_of_nil|done].
  - pose proof (fp_chain32_NoDup _ _ _ _ Hc) as Hnd. apply NoDup_cons in Hnd as [Hnb Hnd].
    destruct Hc as (-> & Hlo & Hin & Hal & Hc). destruct fuel as [|fuel]; [simpl in Hf; lia|].
    assert ((frame <=? b) && (b <? top) = true) as Hyes by (apply andb_true_iff; rewrite Z.leb_le, Z.ltb_lt; lia).
    cbn [rebase_chain]. rewrite Hv, Hyes. cbn [negb].
    assert (u32 (b + u32 D) = b + D) as HD by (unfold wrap; rewrite Zplus_mod_idemp_r; apply Z.mod_small; lia).
    rewrite HD. pose proof (Hne b (list_elem_of_here _ _)) as Hnb'.
    destruct (IH fuel (<[slot := b + D]> m) (b + D) (b + 4) (word m0 b)) as (m' & Hrun & A1 & A2 & A3).
    + done.
    + intros a Ha E. apply Hnb. by replace b with a by lia.
    + rewrite word_ne by done. apply Hcopy. by left.
    + intros a Ha. rewrite word_ne by (apply Hne; by right). apply Hcopy. by right.
    + simpl in Hf. lia.
    + exists m'. unfold rebased at 1. rewrite Hyes. split; [exact Hrun|]. split; [|split].
      * rewrite A3; [apply word_eq|done|]. intros a Ha. apply Hne. by right.
      * intros a [->|Ha]%elem_of_cons; [done|by apply A2].
      * intros p Hp Hpl. rewrite A3; [by apply word_ne|apply Hpl; by left|intros a Ha; apply Hpl; by right].
Qed.
End chain.

Record stacks_ok (frame top ctop : Z) : Prop := {
  so_low : 0 ≤ frame; so_high : top ≤ 2 ^ 32;
  so_clow : 0 ≤ frame + (ctop - top); so_chigh : ctop ≤ 2 ^ 32;
  so_words : (top - frame) mod 4 = 0;
  so_size : frame + 20 < top;
  so_disjoint : ctop ≤ frame ∨ top ≤ frame + (ctop - top);
}.

Lemma clone32_ok m frame top ctop l :
  stacks_ok frame top ctop → fp_chain frame top m (frame + 16) (word m (frame + 12)) l →
  ∃ m', clone_stack_rebased ctop top frame m = Some (frame + (ctop - top), m') ∧
    (∀ i, 0 ≤ i → frame + 4 * i < top → word m' (frame + (ctop - top) + 4 * i) =
       if decide (i = FORK_FRAME_FP_SLOT ∨ frame + 4 * i ∈ l)
       then rebased frame top (ctop - top) (word m (frame + 4 * i)) else word m (frame + 4 * i)) ∧
    (∀ a, ¬ (frame + (ctop - top) ≤ a < ctop) → word m' a = word m a).
Proof.
  intros [S1 S2 S3 S4 S5 S6 S7] Hc. set (D := ctop - top) in *.
  pose proof (Z.div_mod (top - frame) 4 ltac:(lia)) as Hn. set (n := Z.to_nat ((top - frame) / 4)).
  assert (Z.of_nat n = (top - frame) / 4) as Hn' by (unfold n; lia).
  assert (u32 (frame + u32 D) = frame + D) as HD by (unfold wrap; rewrite Zplus_mod_idemp_r; apply Z.mod_small; lia).
  unfold clone_stack_rebased. fold D n. rewrite HD.
  destruct (memcpy32_ok n m (frame + D) frame) as [Hin1 Hout1]; [lia..|]. set (m1 := memcpy_words _ _ _ _) in *.
  assert (∀ a, a ∈ l → frame + 16 ≤ a ∧ a < top ∧ (a - frame) mod 4 = 0) as Hl.
  { intros a Ha. destruct (fp_chain32_bounds _ _ _ _ _ _ _ Hc Ha) as (? & ? & ?). lia. }
  unfold FORK_FRAME_FP_SLOT at 1. rewrite (wrap_small 32 (frame + D + _)) by lia. replace (frame + D + 4 * 3) with (frame + D + 12) by lia.
  assert (∀ a, frame ≤ a < top → (a - frame) mod 4 = 0 → word m1 (a + D) = word m a) as Hcopy.
  { intros a Ha Hal. pose proof (Z.div_mod (a - frame) 4 ltac:(lia)). specialize (Hin1 ((a - frame) / 4) ltac:(lia)).
    replace (frame + D + 4 * ((a - frame) / 4)) with (a + D) in Hin1 by lia.
    by replace (frame + 4 * ((a - frame) / 4)) with a in Hin1 by lia. }
  destruct (rebase_chain32_ok frame top D ltac:(lia) ltac:(lia) ltac:(lia) ltac:(lia) m l n m1 (frame + D + 12) (frame + 16) (word m (frame + 12)))
    as (m' & Hrun & A1 & A2 & A3).
  - done.
  - intros a Ha. destruct (Hl a Ha). lia.
  - rewrite <- (Hcopy (frame + 12)); [f_equal; lia|lia|]. by replace (frame + 12 - frame) with 12 by lia.
  - intros a Ha. destruct (Hl a Ha) as (? & ? & ?). apply Hcopy; [lia|done].
  - pose proof (fp_chain32_length _ _ _ _ _ _ Hc ltac:(lia)). lia.
  - rewrite Hrun. exists m'. split; [done|]. split.
    + intros i Hi Hit. replace (frame + D + 4 * i) with (frame + 4 * i + D) by lia.
      assert ((frame + 4 * i - frame) mod 4 = 0) as Hal by (replace (frame + 4 * i - frame) with (i * 4) by lia; by apply Z.mod_mul).
      case_decide as Hd.
      * destruct Hd as [->|Hd]; [|by apply A2]. unfold FORK_FRAME_FP_SLOT.
        replace (frame + 4 * 3 + D) with (frame + D + 12) by lia. by replace (frame + 4 * 3) with (frame + 12) by lia.
      * rewrite A3; [apply Hcopy; [lia|done]| |].
        -- intros E. apply Hd. left. unfold FORK_FRAME_FP_SLOT. lia.
        -- intros a Ha E. apply Hd. right. by replace (frame + 4 * i) with a by lia.
    + intros a Hna. rewrite A3; [apply Hout1; lia|lia|]. intros b Hb. destruct (Hl b Hb). lia.
Qed.

(** ** [fork] *)

(** The stack of [clone_parent_base_frame] when it calls [clone_stack_rebased]: the saved frame, from [sp - 20], and the
    two arguments below it. *)
Lemma clone_entry_ok c cr3 sp resume :
  rg c ESP = sp → 28 ≤ sp → sp + 8 ≤ 2 ^ 32 →
  ∃ f m, srun ([I (Load EAX 4); I (PushImm resume)] ++ push_saved ++ [I (Mov ECX ESP); I (Push ECX); I (Push EAX)]) (Sw c cr3) =
      Sw (Cpu f m) cr3 ∧
    f ESP = sp - 28 ∧ (∀ r, r ∉ [ESP; EAX; ECX] → f r = rg c r) ∧ word m (sp - 24) = sp - 20 ∧
    word m (sp - 20) = rg c EDI ∧ word m (sp - 16) = rg c ESI ∧ word m (sp - 12) = rg c EBX ∧ word m (sp - 8) = rg c EBP ∧
    word m (sp - 4) = resume ∧ (∀ a, sp ≤ a → word m a = word (mm c) a).
Proof.
  intros Hsp Hlo Hhi. rewrite srun_app. unfold srun at 2. cbn [foldl sstep sw_cpu sw_cr3 step].
  unfold push_word. cbn [rg mm]. regs32. rewrite Hsp, !wrap_small by lia.
  set (c1 := Cpu _ _). destruct (push_saved32_ok c1 cr3 (sp - 4)) as (f & Hf & Fsp & Fr); [by unfold c1; cbn; regs32|lia|].
  rewrite srun_app, Hf, srun_cons. cbn [sstep sw_cpu sw_cr3 step rg mm].
  do 2 (rewrite srun_cons; cbn [sstep sw_cpu sw_cr3]; rewrite step_push by (cbn [rg]; regs32; lia); cbn [rg mm]).
  regs32. rewrite Fsp. replace (sp - 4 - 16 - 4 - 4) with (sp - 28) by lia. replace (sp - 4 - 16 - 4) with (sp - 24) by lia.
  replace (sp - 4 - 16) with (sp - 20) by lia.
  eexists _, _. split; [reflexivity|]. regs32. split; [done|]. split.
  { intros r Hr. rewrite !not_elem_of_cons in Hr. destruct_and! Hr. regs32. rewrite Fr by done. unfold c1. cbn. by regs32. }
  unfold saved_mem, c1. cbn [rg mm]. regs32.
  replace (sp - 4 - 16) with (sp - 20) by lia. replace (sp - 4 - 12) with (sp - 16) by lia.
  replace (sp - 4 - 8) with (sp - 12) by lia. replace (sp - 4 - 4) with (sp - 8) by lia.
  split_and!; [do 1 (rewrite word_ne by lia)|do 2 (rewrite word_ne by lia)|do 3 (rewrite word_ne by lia)|do 4 (rewrite word_ne by lia)
    |do 5 (rewrite word_ne by lia)|do 6 (rewrite word_ne by lia)|]; try apply word_eq.
  intros a Ha. do 7 (rewrite word_ne by lia). done.
Qed.

Lemma clone_exit_ok c cr3 sp :
  rg c ESP = sp - 28 → 28 ≤ sp → sp + 8 ≤ 2 ^ 32 →
  ∃ f, srun [Ret] (let s := srun ([I (AddEsp 8)] ++ pop_saved ++ [I (AddEsp 4)]) (Sw c cr3) in
         Sw (Cpu (set_reg EAX 1 (rg (sw_cpu s))) (mm (sw_cpu s))) (sw_cr3 s)) = Sw (Cpu f (mm c)) cr3 ∧
    f EAX = 1 ∧ f EDI = word (mm c) (sp - 20) ∧ f ESI = word (mm c) (sp - 16) ∧ f EBX = word (mm c) (sp - 12) ∧
    f EBP = word (mm c) (sp - 8) ∧ f ESP = sp + 4 ∧ f EIP = word (mm c) sp.
Proof.
  intros Hsp Hlo Hhi. set (c1 := Cpu (set_reg ESP (sp - 20) (rg c)) (mm c)).
  assert (srun [I (AddEsp 8)] (Sw c cr3) = Sw c1 cr3) as H1.
  { unfold srun. cbn [foldl sstep sw_cpu sw_cr3 step]. unfold add_esp. rewrite Hsp, wrap_small by lia.
    by replace (sp - 28 + 8) with (sp - 20) by lia. }
  destruct (pop_saved32_ok c1 cr3 (sp - 20)) as (f & Hf & E1 & E2 & E3 & E4 & E5 & E6); [done|lia|lia|].
  assert (srun [I (AddEsp 4)] (Sw (Cpu f (mm c)) cr3) = Sw (Cpu (set_reg ESP sp f) (mm c)) cr3) as H2.
  { unfold srun. cbn [foldl sstep sw_cpu sw_cr3 step]. unfold add_esp. cbn [rg mm]. rewrite E5, wrap_small by lia.
    by replace (sp - 20 + 16 + 4) with sp by lia. }
  rewrite srun_app, H1, srun_app, Hf. change (mm c1) with (mm c) in *. rewrite H2. cbv zeta. cbn [sw_cpu sw_cr3 rg mm].
  unfold srun. cbn [foldl sstep sw_cpu sw_cr3]. rewrite step_pop by (cbn [rg]; regs32; lia). cbn [rg mm].
  eexists. split; [reflexivity|]. regs32. replace (sp - 20 + 4) with (sp - 16) in * by lia.
  replace (sp - 20 + 8) with (sp - 12) in * by lia. replace (sp - 20 + 12) with (sp - 8) in * by lia. by split_and!.
Qed.

(** C29: on the 32-bit port, too, [fork] returns twice to the same place: the parent comes out of
    [clone_parent_base_frame] with 1 and its registers intact, and the first switch to the child continues at
    [fork_child_resume], whose code brings it out of the same call, at the same return address, with 0, the same
    callee-saved registers (the frame pointer moved into the child's stack) and the stack pointer at the same depth of
    the child's stack. *)
Theorem fork32_returns_twice c cr3 sp resume scratch top ctop l :
  rg c ESP = sp → 28 ≤ sp → sp + 8 ≤ top → stacks_ok (sp - 20) top ctop →
  fp_chain (sp - 20) top (mm c) (sp + 4) (rg c EBP) l →
  ∃ csp f m', clone_parent_base_frame resume scratch ctop top (Sw c cr3) = Some (csp, Sw (Cpu f m') cr3) ∧
    f EAX = 1 ∧ resumed c f ∧
    ∀ c2 cr32 sp2 old2 cr33,
      calls c2 sp2 old2 csp cr33 → (∀ a, csp ≤ a < csp + 24 → word (mm c2) a = word m' a) →
      (csp + 20) :: frame_words csp ## old2 :: saved_words sp2 →
      ∃ f3 m3, code_at resume fork_child_resume_code (srun swtch (Sw c2 cr32)) = Some (Sw (Cpu f3 m3) cr33) ∧
        f3 EAX = 0 ∧ f3 EDI = rg c EDI ∧ f3 ESI = rg c ESI ∧ f3 EBX = rg c EBX ∧
        f3 EBP = rebased (sp - 20) top (ctop - top) (rg c EBP) ∧
        f3 ESP = sp + 4 + (ctop - top) ∧ f3 EIP = word (mm c) sp.
Proof.
  intros Hsp Hlo Htop Hso Hc. pose proof Hso as [S1 S2 S3 S4 S5 S6 S7]. set (D := ctop - top) in *.
  destruct (clone_entry_ok c cr3 sp resume) as (f1 & m1 & Hrun1 & F1 & F2 & W1 & W2 & W3 & W4 & W5 & W6 & Wout); [done|done|lia|].
  destruct (clone32_ok m1 (sp - 20) top ctop l Hso) as (m' & Hcl & Hin & Hout).
  { replace (sp - 20 + 12) with (sp - 8) by lia. rewrite W5. eapply fp_chain32_ext; [| |exact Hc]; [lia|].
    intros a Ha. destruct (fp_chain32_bounds _ _ _ _ _ _ _ Hc Ha). apply Wout. lia. }
  fold D in Hcl, Hin, Hout.
  assert (∀ a, sp - 20 ≤ a < top → word m' a = word m1 a) as Hpar by (intros a Ha; apply Hout; lia).
  set (c1 := Cpu (λ r, if decide (r ∈ [EAX; ECX; EDX]) then scratch r else f1 r) m').
  destruct (clone_exit_ok c1 cr3 sp) as (f & Hrun & G0 & G1 & G2 & G3 & G4 & G5 & G6); [done|done|lia|].
  exists (sp - 20 + D), f, m'. split; [|split; [done|split]].
  - unfold clone_parent_base_frame. rewrite Hrun1. unfold call_clone. cbn [sw_cpu sw_cr3 rg mm].
    rewrite F1, wrap_small by lia. replace (sp - 28 + 4) with (sp - 24) by lia. rewrite W1, Hcl. cbn [mbind option_bind fst snd].
    fold c1. do 2 f_equal. exact Hrun.
  - unfold c1 in *. cbn [mm] in *. unfold resumed. rewrite Hsp.
    rewrite G1, G2, G3, G4, G5, G6, !Hpar, W2, W3, W4, W5, Wout by lia. done.
  - clear G0 G1 G2 G3 G4 G5 G6 Hrun. intros c2 cr32 sp2 old2 cr33 Hcall Hkeep Hdis.
    destruct (swtch32_ok c2 cr32 _ _ _ _ Hcall) as (f3 & Hrun3 & Hf3).
    assert (∀ a, a ∈ (sp - 20 + D + 20) :: frame_words (sp - 20 + D) → word (swtch_mem (rg c2) sp2 old2 (mm c2)) a = word m' a) as Hsw.
    { intros a Ha. pose proof (Hdis a Ha) as Hn. apply not_elem_of_cons in Hn as [? ?]. rewrite swtch_mem_out32 by done.
      apply Hkeep. unfold frame_words in Ha. repeat (apply elem_of_cons in Ha as [->|Ha]; [lia|]). by apply not_elem_of_nil in Ha. }
    assert (saved_frame m' (sp - 20 + D) f3) as (B1 & B2 & B3 & B4 & B5 & B6).
    { eapply saved_frame_ext32; [|exact Hf3]. intros a Ha. symmetry. apply Hsw. by right. }
    assert (∀ i, 0 ≤ i < 6 → i ≠ 3 → word m' (sp - 20 + D + 4 * i) = word m1 (sp - 20 + 4 * i)) as Hplain.
    { intros i Hi H3. rewrite Hin, decide_False; [done| |lia|lia]. intros [E|E]; [done|].
      destruct (fp_chain32_bounds _ _ _ _ _ _ _ Hc E). lia. }
    pose proof (Hplain 0 ltac:(lia) ltac:(lia)) as C0. pose proof (Hplain 1 ltac:(lia) ltac:(lia)) as C1.
    pose proof (Hplain 2 ltac:(lia) ltac:(lia)) as C2. pose proof (Hplain 5 ltac:(lia) ltac:(lia)) as C5.
    pose proof (Hin 3 ltac:(lia) ltac:(lia)) as C3. rewrite decide_True in C3 by by left.
    rewrite !Z.mul_0_r, !Z.add_0_r in C0. change (4 * 1) with 4 in C1. change (4 * 2) with 8 in C2. change (4 * 3) with 12 in C3.
    change (4 * 5) with 20 in C5. replace (sp - 20 + 4) with (sp - 16) in C1 by lia. replace (sp - 20 + 8) with (sp - 12) in C2 by lia.
    replace (sp - 20 + 12) with (sp - 8) in C3 by lia. replace (sp - 20 + 20) with sp in C5 by lia.
    pose proof (Hplain 4 ltac:(lia) ltac:(lia)) as C4. change (4 * 4) with 16 in C4.
    replace (sp - 20 + 16) with (sp - 4) in C4 by lia.
    assert (f3 EIP = resume) as Heip by congruence.
    rewrite Hrun3. unfold code_at. cbn [sw_cpu rg]. rewrite Heip, Z.eqb_refl.
    unfold srun, fork_child_resume_code. cbn [foldl sstep sw_cpu sw_cr3 step].
    rewrite step_pop by (cbn [rg]; regs32; lia). cbn [rg mm]. eexists _, _. split; [reflexivity|]. regs32.
    rewrite B6, Hsw by (by left). rewrite C5, Wout by lia.
    split_and!; [done|congruence..|lia|done].
Qed.

(** ** Witnesses

    Thread A runs with its stack pointer at 0x11f00, in a call of [swtch] to thread B, which is suspended at 0x20f00; the
    process structures are at 0x8000. *)
Definition ex_regs (r : reg) : Z :=
  match r with ESP => 0x11f00 | EBP => 0x11f40 | EBX => 1 | ESI => 2 | EDI => 3 | EIP => 0x101000 | _ => 0 end.
Definition ex_regsB (r : reg) : Z :=
  match r with ESP => 0x20f14 | EBP => 4 | EBX => 5 | ESI => 6 | EDI => 7 | EIP => 0x102000 | _ => 0 end.

Definition ex_mem : gmap Z Z :=
  <[0x11f00 := 0x103000]> (<[0x11f04 := 0x8000]> (<[0x11f08 := 0x20f00]> (<[0x11f0c := 0x5000]> (
  <[0x11f40 := 0x11f80]> (<[0x20f00 := 7]> (<[0x20f04 := 6]> (<[0x20f08 := 5]> (<[0x20f0c := 4]> (<[0x20f10 := 0x102000]> ∅))))))))).

Lemma swtch32_round_trip_witness :
  ∃ f1 m1, srun swtch (Sw (Cpu ex_regs ex_mem) 0x4000) = Sw (Cpu f1 m1) 0x5000 ∧
    ∀ r, r ∈ [EDI; ESI; EBX; EBP; ESP; EIP] → f1 r = ex_regsB r.
Proof.
  destruct (swtch32_round_trip (Cpu ex_regs ex_mem) 0x4000 0x11f00 0x8000 0x20f00 0x5000 ex_regsB) as (f1 & m1 & H1 & H2 & _).
  - split; by vm_compute.
  - by_decide.
  - by vm_compute.
  - apply disjoint_check. by vm_compute.
  - exists f1, m1. split; [exact H1|exact H2].
Defined.

Lemma fork32_returns_twice_witness :
  ∃ csp f m', clone_parent_base_frame 0x104000 (λ _, 9) 0x32000 0x12000 (Sw (Cpu ex_regs ex_mem) 0x4000) =
      Some (csp, Sw (Cpu f m') 0x4000) ∧ f EAX = 1 ∧ resumed (Cpu ex_regs ex_mem) f.
Proof.
  destruct (fork32_returns_twice (Cpu ex_regs ex_mem) 0x4000 0x11f00 0x104000 (λ _, 9) 0x12000 0x32000 [0x11f40; 0x11f80])
    as (csp & f & m' & H1 & H2 & H3 & _).
  - done.
  - done.
  - done.
  - split; [done..|by right].
  - cbn [fp_chain]. split; [done|split; [done|split; [done|split; [done|]]]].
    split; [by vm_compute|split; [done|split; [done|split; [done|]]]]. intros [H _]. vm_compute in H. by apply H.
  - exists csp, f, m'. split; [exact H1|split; [exact H2|exact H3]].
Defined.
