(* ===== verification/I386KernelMain.v ===== *)
(** * [kernel_main] of the 32-bit port ([arch/i386/kernel.c])

    From the multiboot information to the point where interrupts are on.  Paging is switched on by the
    model of [init_paging], and from then on the firmware's tables and the controllers' registers are
    reached through the page tables; the interrupt controllers, the ports and the handlers are those of
    [Acpi] and [ApicTimer].  The calls of the other components are recorded in order. *)

From S2P Require Import Prelude Loops Mm I386Paging I386Walk I386Ops I386PagingProps I386RangeProps I386BootProps Acpi PortIo ApicTimer KernelMain.

(** The byte of physical memory at [a]. *)
Definition byte32 (m : gmap Z Z) (a : Z) : Z := (rd m (a / 4 * 4) .>> (8 * (a mod 4))) .& 0xFF.

(** What the processor reads at an address: the tables in [cr3] count once paging is on. *)
#[export] Instance memory32 : Memory m32 := {|
  view s v :=
    let v := u32 v in
    if negb (Z.testbit (x_cr0 s) 31) then Some (byte32 (x_mem s) v) else
    match walk (x_mem s) (cr3_to_directory (x_cr3 s)) v with
    | Some (page, _, _) => Some (byte32 (x_mem s) (page + v mod 0x1000))
    | None => None
    end;
  map_range phys size := cr3 ← read_cr3; map_physical_range phys size true true cr3;
|}.

(** The [n] bytes of a device's registers at [v] can be reached. *)
Definition registers32 (v n : Z) : M m32 unit := λ s,
  match view s v, view s (u32 (v + n - 1)) with Some _, Some _ => Ok (tt, s) | _, _ => Fault v end.

(** ** The firmware's tables in 32 bits *)

(** Tables outside the memory the kernel maps are skipped. *)
Definition reachable (table_addr : Z) : bool := negb ((table_addr <? 0x1000) || (0x40000000 <=? table_addr)).

(* src/kernel/apic/rsdp.c 189-217 find_madt *)
Definition find_table32 (a w n : Z) : M m32 (option Z) :=
  for_find (Z.to_nat n) 0 (λ i,
    e ← entry_ptr w (a + sizeof_apic_header + w * i);
    let table_addr := u32 e in
    if negb (reachable table_addr) then mret None else
    map_range table_addr 4096 ;;
    b ← same_chars table_addr sig_apic;
    mret (if (b : bool) then Some table_addr else None)).

(** The page of an XSDT is not mapped before it is read. *)
(* src/kernel/apic/rsdp.c 126-305 find_madt *)
Definition find_madt32 (rsdp_addr : Z) : M m32 Z :=
  if rsdp_addr =? 0 then mret 0 else
  revision ← rsdp_revision rsdp_addr;
  if 2 <=? revision then
    xsdt_addr ← xsdp_xsdt_addr rsdp_addr;
    if 0x100000000 <=? xsdt_addr then mret 0 else
    length ← header_length xsdt_addr;
    let num_entries := u32 (length - sizeof_apic_header) / 8 in
    r ← find_table32 xsdt_addr 8 num_entries;
    mret (default 0 r)
  else
    rsdt_addr ← rsdp_rsdt_addr rsdp_addr;
    if negb (reachable rsdt_addr) then mret 0 else
    map_range rsdt_addr 4096 ;;
    length ← header_length rsdt_addr;
    let num_entries := u32 (length - sizeof_apic_header) / 4 in
    r ← find_table32 rsdt_addr 4 num_entries;
    mret (default 0 r).

(** The root pointer is searched for. *)
(* src/kernel/apic/rsdp.c 307-360 initialize_apic *)
Definition initialize_apic32 (fuel : nat) : M (platform m32) unit :=
  rsdp ← on_mem find_rsdp;
  if rsdp =? 0 then mret tt else
  rsdp_result ← on_mem (validate_rsdp_checksum rsdp);
  if negb (rsdp_result =? 0) then mret tt else
  madt ← on_mem (find_madt32 rsdp);
  if madt =? 0 then mret tt else
  parse_madt fuel madt.

(** ** [kernel_main] *)

(** The members of [struct multiboot_info] that are used. *)
(* src/arch/i386/multiboot_info.h 30-81 multiboot_info *)
Record multiboot := Multiboot {
  mb_flags : Z; mmap_length : Z; mmap_addr : Z;
  framebuffer_addr : Z; framebuffer_pitch : Z; framebuffer_width : Z; framebuffer_height : Z;
  framebuffer_bpp : Z; framebuffer_type : Z;
}.

Abbreviation MB_FLAG_MMAP := (1 .<< 6).
Abbreviation MB_FLAG_FRAMEBUFFER := (1 .<< 12).

(** The frame buffer is used if it is a linear one of 32 bits per pixel; its pages are mapped. *)
(* src/arch/i386/drivers/graphics.c 6-38 graphics_init *)
Definition graphics_init (mb : multiboot) : M m32 (option multiboot) :=
  if negb (nz (mb_flags mb .& MB_FLAG_FRAMEBUFFER)) then mret None else
  if negb (framebuffer_type mb =? 1) then mret None else
  if negb (framebuffer_bpp mb =? 32) then mret None else
  let phys := u32 (framebuffer_addr mb) in
  let size := u32 (framebuffer_pitch mb * framebuffer_height mb) in
  cr3 ← read_cr3;
  map_physical_range phys size true true cr3 ;;
  mret (Some mb).

Record kernel32 := Kernel32 {
  n_platform : platform m32;
  n_board : board;
  n_ioapic_addr : Z;
  n_local_apic_id : Z;
  n_if : bool;
  n_events : list event;
}.

Definition on_platform32 {A} (m : M (platform m32) A) : M kernel32 A := λ s, r ← m (n_platform s);
  Ok (r.1, Kernel32 r.2 (n_board s) (n_ioapic_addr s) (n_local_apic_id s) (n_if s) (n_events s)).
Definition on_mach32 {A} (m : M m32 A) : M kernel32 A := on_platform32 (on_mem m).
Definition on_board32 {A} (m : M board A) : M kernel32 A := λ s, r ← m (n_board s);
  Ok (r.1, Kernel32 (n_platform s) r.2 (n_ioapic_addr s) (n_local_apic_id s) (n_if s) (n_events s)).
Definition log32 (e : event) : M kernel32 unit := modify (λ s,
  Kernel32 (n_platform s) (n_board s) (n_ioapic_addr s) (n_local_apic_id s) (n_if s) (n_events s ++ [e])).
Definition say32 (format : string) (args : list Z) : M kernel32 unit := log32 (Say format args).
Definition call32 (f : string) (args : list Z) : M kernel32 unit := log32 (Call f args).

(** The registers of the local APIC, at their default address, and the two of the I/O APIC. *)
Definition on_lapic32 {A} (m : M board A) : M kernel32 A := on_mach32 (registers32 0xFEE00000 0x1000) ;; on_board32 m.
Definition on_ioapic32 {A} (m : M board A) : M kernel32 A :=
  v ← gets n_ioapic_addr; on_mach32 (registers32 v 0x14) ;; on_board32 m.

Section kernel_main32.
Context `{HW : Hardware} (currcnt : nat → Z) (fuel : nat).
(** Whether [DEBUG] is defined, and what [check_msr] gives. *)
Context (debug : bool) (cpuid_edx : Z).
(** The end of the kernel's image. *)
Context (kernel_end : Z).

Definition when (b : bool) (m : M kernel32 unit) : M kernel32 unit := if b then m else mret tt.

(** The screen. *)
(* src/arch/i386/kernel.c 36-90 kernel_main *)
Definition early32 (mb : multiboot) (multiboot_info_p : Z) : M kernel32 unit :=
  call32 "init_serial" [] ;;
  say32 "serial port initialized for debugging" [] ;;
  call32 "log_demo" [] ;;
  say32 "[multiboot]: info pointer: 0x%x" [multiboot_info_p] ;;
  say32 "[multiboot]: flags: 0x%x" [mb_flags mb] ;;
  (if nz (mb_flags mb .& MB_FLAG_MMAP) then
     say32 "[multiboot]: memory map present (mmap_addr=0x%x len=%d)" [mmap_addr mb; mmap_length mb]
   else say32 "[multiboot]: no memory map" []) ;;
  (if nz (mb_flags mb .& MB_FLAG_FRAMEBUFFER) then
     say32 "[multiboot]: framebuffer info present" [] ;;
     say32 "[multiboot]: type=%d addr=0x%x pitch=%d %dx%d bpp=%d"
       [framebuffer_type mb; u32 (framebuffer_addr mb); framebuffer_pitch mb; framebuffer_width mb; framebuffer_height mb; framebuffer_bpp mb]
   else say32 "[multiboot]: no framebuffer info — vbe request likely ignored by grub" []) ;;
  on_mach32 (modify (set_xplacement kernel_end)) ;;
  call32 "init_descriptor_tables" [] ;;
  call32 "terminal_initialize" [] ;;
  on_mach32 init_paging ;;
  say32 "paging enabled" [] ;;
  fb ← on_mach32 (graphics_init mb);
  match fb with
  | Some fb =>
      if u32 (framebuffer_addr fb) =? 0 then mret tt else
      call32 "console_init" [] ;; call32 "logger_init_console" [] ;; call32 "console_clear" [] ;; call32 "console_puts" [] ;;
      say32 "framebuffer: %ux%u bpp=%u pitch=%u" [framebuffer_width fb; framebuffer_height fb; framebuffer_bpp fb; framebuffer_pitch fb] ;;
      call32 "pong_init" [framebuffer_width fb; framebuffer_height fb]
  | None => mret tt
  end.

(** The interrupt controllers. *)
(* src/arch/i386/kernel.c 92-144 kernel_main *)
Definition controllers32 : M kernel32 unit :=
  when debug (say32 "[kernel]: check_msr (apic base msr): %d" [Z.b2z (check_msr cpuid_edx)]) ;;
  say32 "ACPI/APIC Initialization" [] ;;
  on_platform32 (initialize_apic32 fuel) ;;
  on_board32 (on_io disable_pic) ;;
  when debug (say32 "Configuring Keyboard Interrupt" []) ;;
  ioapic_addr ← on_platform32 (on_madt get_ioapic_address);
  modify (λ s, Kernel32 (n_platform s) (n_board s) ioapic_addr (n_local_apic_id s) (n_if s) (n_events s)) ;;
  if ioapic_addr =? 0 then say32 "[kernel]: ERROR: No IOAPIC found in MADT" [] ;; halt else
  say32 "[kernel]: IOAPIC address: 0x%x" [ioapic_addr] ;;
  kbd_gsi ← on_platform32 (on_madt get_keyboard_global_irq);
  kbd_flags ← on_platform32 (on_madt get_keyboard_irq_flags);
  say32 "[kernel]: Keyboard GSI: %d, Flags: 0x%x" [kbd_gsi; kbd_flags] ;;
  local_apic_id ← on_lapic32 (on_apic get_local_apic_id);
  modify (λ s, Kernel32 (n_platform s) (n_board s) (n_ioapic_addr s) local_apic_id (n_if s) (n_events s)) ;;
  say32 "[kernel]: Local APIC ID: %d" [local_apic_id] ;;
  let timer_gsi := 2 in
  let timer_flags := 0x0 in
  say32 "[kernel]: configuring timer (GSI %d -> vector 32)" [timer_gsi] ;;
  on_ioapic32 (on_apic (configure_ioapic_irq_with_flags timer_gsi 32 local_apic_id timer_flags)) ;;
  say32 "[kernel]: timer interrupt configured via IOAPIC" [] ;;
  on_ioapic32 (on_apic (configure_ioapic_irq_with_flags (u8 kbd_gsi) 33 local_apic_id kbd_flags)) ;;
  say32 "[kernel]: keyboard interrupt configured via IOAPIC" [].

(* src/drivers/keyboard/keyboard.c 455-469 init_keyboard *)
Definition init_keyboard : M kernel32 unit :=
  when debug (say32 "[keyboard]: initializing PS/2 keyboard driver" []) ;;
  call32 "init_ps2_controller" [] ;;
  on_board32 (modify (λ s, Board (b_apic s) (b_io s) (<[33 := "keyboard_interrupt_handler"%string]> (b_handlers s)))) ;;
  say32 "[keyboard]: keyboard driver ready" [].

(** The devices, the tests of a debugging build, and interrupts on. *)
(* src/arch/i386/kernel.c 146-159 kernel_main *)
Definition devices32 : M kernel32 unit :=
  say32 "timer initialization" [] ;;
  on_lapic32 (init_timer currcnt fuel) ;;
  say32 "keyboard initialization" [] ;;
  init_keyboard ;;
  when debug (call32 "test_paging" [] ;; call32 "test_vm" []) ;;
  modify (λ s, Kernel32 (n_platform s) (n_board s) (n_ioapic_addr s) (n_local_apic_id s) true (n_events s)).

(** The rest; [halt] does not return. *)
(* src/arch/i386/kernel.c 35-176 kernel_main *)
Definition kernel_main32 (mb : multiboot) (multiboot_info_p ac97_result : Z) : M kernel32 unit :=
  early32 mb multiboot_info_p ;;
  controllers32 ;;
  devices32 ;;
  say32 "[kernel]: interrupts re-enabled" [] ;;
  say32 "[kernel]: system ready" [] ;;
  call32 "ac97_init" [] ;;
  (if nz ac97_result then say32 "[kernel]: ac97 not available" [] else say32 "[kernel]: ac97 initialized" []) ;;
  say32 "try typing :)" [] ;;
  call32 "hush_init" [] ;;
  halt.
End kernel_main32.

(** ** The root pointer *)

Section search.
Context {X : Type} `{MX : Memory X} (mem : Z → Z).

(** The first valid root pointer among [n] addresses from [a], 16 apart, and in the two areas. *)
Definition rsdp_in (n a : Z) : option Z :=
  head (filter (λ x, sig_eq mem x sig_rsdp = true ∧ checksum_code mem x = 0) ((λ i, a + 16 * i) <$> seqZ 0 n)).
Definition the_rsdp : Z :=
  match rsdp_in 64 (rd16 mem 0x40E .<< 4) with Some a => a | None => default 0 (rsdp_in 8192 0xE0000) end.

(** What looks like a root pointer of revision 2 is at most a page long. *)
Definition short_rsdps : Prop := ∀ x, 0 ≤ x < 0x100400 → sig_eq mem x sig_rsdp = true → 2 ≤ mem (x + 15) → rd32 mem (x + 20) ≤ 4096.

Lemma scan_ok m n a L :
  short_rsdps → seen mem m 0 L → 0 ≤ a → a + 16 * Z.of_nat n ≤ 0x100400 → 0x101400 ≤ L → scan n a m = Ok (rsdp_in (Z.of_nat n) a, m).
Proof using Type.
  intros Hsh Hs H0 Ha HL. unfold rsdp_in. revert a H0 Ha. induction n as [|n IH]; intros a H0 Ha; cbn [scan]; [done|].
  rewrite seqZ_cons by lia. replace (Z.pred (Z.of_nat (S n))) with (Z.of_nat n) by lia. cbn [fmap list_fmap].
  rewrite Z.mul_0_r, Z.add_0_r. rewrite filter_cons.
  rewrite (M_bind_Ok _ _ _ _ _ (same_chars_ok mem m 0 L a sig_rsdp Hs ltac:(lia) ltac:(cbn; lia))).
  assert ((λ i, a + 16 * i) <$> seqZ (Z.succ 0) (Z.of_nat n) = (λ i, a + 16 + 16 * i) <$> seqZ 0 (Z.of_nat n)) as ->.
  { change (Z.succ 0) with (1 + 0). rewrite <- (fmap_add_seqZ 1 0), <- list_fmap_compose. apply list_fmap_ext. intros i x _. unfold compose. lia. }
  destruct (sig_eq mem a sig_rsdp) eqn:E.
  - assert (validate_rsdp_checksum a m = Ok (checksum_code mem a, m)) as Ev.
    { apply validate_rsdp_checksum_correct; intros; (eapply seen_part; [exact Hs|lia|]); [lia|].
      specialize (Hsh a ltac:(lia) E ltac:(done)). lia. }
    rewrite (M_bind_Ok _ _ _ _ _ Ev). destruct (Z.eqb_spec (checksum_code mem a) 0) as [Ec|Ec].
    + by rewrite decide_True by done.
    + rewrite decide_False by tauto. apply IH; lia.
  - rewrite (M_bind_Ok _ _ m 1 m) by done. cbn [Z.eqb]. rewrite decide_False by (intros [? _]; congruence). apply IH; lia.
Qed.

Lemma rsdp_in_valid n a x : rsdp_in n a = Some x → sig_eq mem x sig_rsdp = true ∧ checksum_code mem x = 0 ∧ a ≤ x < a + 16 * n.
Proof using Type.
  unfold rsdp_in. intros H. assert (x ∈ filter (λ x, sig_eq mem x sig_rsdp = true ∧ checksum_code mem x = 0) ((λ i, a + 16 * i) <$> seqZ 0 n)) as Hx.
  { destruct (filter _ _); [done|]. injection H as ->. apply list_elem_of_here. }
  apply list_elem_of_filter in Hx as [[H1 H2] Hx]. split; [done|]. split; [done|].
  apply list_elem_of_fmap in Hx as (i & -> & Hi%elem_of_seqZ). lia.
Qed.

(** The search reads the memory below [0x101400] only. *)
Lemma find_rsdp_ok m L :
  short_rsdps → seen mem m 0 L → 0x101400 ≤ L → 0 ≤ rd16 mem 0x40E < 2 ^ 16 → find_rsdp m = Ok (the_rsdp, m).
Proof using Type.
  intros Hsh Hs HL Hb. unfold find_rsdp, the_rsdp.
  rewrite (M_bind_Ok _ _ _ _ _ (load16_ok mem m 0 L 0x40E Hs ltac:(lia) ltac:(lia))).
  rewrite Z.shiftl_mul_pow2 by lia. change (1024 / 16) with 64. change ((0x100000 - 0xE0000) / 16) with 8192.
  rewrite (M_bind_Ok _ _ _ _ _ (scan_ok m (Z.to_nat 64) (rd16 mem 0x40E * 2 ^ 4) L Hsh Hs ltac:(lia) ltac:(lia) HL)). rewrite !Z2Nat.id by lia.
  destruct (rsdp_in 64 _); [done|]. by rewrite (M_bind_Ok _ _ _ _ _ (scan_ok m (Z.to_nat 8192) 0xE0000 L Hsh Hs ltac:(lia) ltac:(rewrite Z2Nat.id; lia) HL)).
Qed.

Lemma the_rsdp_valid : the_rsdp ≠ 0 → 0 ≤ rd16 mem 0x40E < 2 ^ 16 →
  sig_eq mem the_rsdp sig_rsdp = true ∧ checksum_code mem the_rsdp = 0 ∧ 0 ≤ the_rsdp < 0x100400.
Proof using Type.
  intros Hne Hb. unfold the_rsdp in *. rewrite Z.shiftl_mul_pow2 in * by lia. destruct (rsdp_in 64 _) as [x|] eqn:E1.
  - apply rsdp_in_valid in E1. split; [by destruct E1|]. split; [by destruct E1 as (_ & ? & _)|]. lia.
  - destruct (rsdp_in 8192 0xE0000) as [x|] eqn:E2; [|done]. cbn [default from_option id] in *. apply rsdp_in_valid in E2.
    split; [by destruct E2|]. split; [by destruct E2 as (_ & ? & _)|]. lia.
Qed.
End search.

(** ** The page tables while the tables are looked for *)

Section firm32.
(** The end of the kernel's image, where the bitmap is and a page further the directory; the state at the start. *)
Context (p : Z) (s0 : m32).

(** The firmware's memory: below the kernel, and above the 64 MiB the frame bitmap covers.  Memory is mapped where it is;
    beyond 128 MiB, marking a frame would change the directory or a table. *)
#[local] Instance layout32 : Layout := {|
  firm a := 0 ≤ a < p ∨ 0x4000000 ≤ a < 2 ^ 32;
  bytes_of := byte32 (x_mem s0);
  at_virt a := a;
  can_map a size := 0 ≤ a ∧ 0 < size ≤ 0x4000 ∧ a + size + 0xFFF ≤ 0x8000000;
|}.

(** Paging is on, every page is mapped to itself or not at all, what was mapped at the start still is, and there is room
    for the tables of [k] more ranges; the firmware's bytes are what they were. *)
Record good32 (k : nat) (s : m32) : Prop := {
  g32_inv : inv32 (p + 0x1000) s;
  g32_base : 0 < p ∧ p mod 0x1000 = 0 ∧ p + 0x802000 ≤ 0x4000000;
  g32_bitmap : x_frames s = p ∧ x_nframes s = 0x4000;
  g32_cr3 : x_cr3 s = p + 0x1000;
  g32_paging : Z.testbit (x_cr0 s) 31 = true;
  g32_ident w : is32 w → is_Some (walk (x_mem s) (p + 0x1000) w) →
    walk (x_mem s) (p + 0x1000) w = Some (w / 0x1000 * 0x1000, true, false);
  g32_boot w : is32 w → is_Some (boot_map (p + 0x2000) w) → is_Some (walk (x_mem s) (p + 0x1000) w);
  g32_room : x_placement s + 0x3000 * Z.of_nat k + 0x2000 ≤ 0x4000000;
  g32_bytes a : firm a → rd (x_mem s) (a / 4 * 4) = rd (x_mem s0) (a / 4 * 4);
}.

Lemma dir32 k s : good32 k s → cr3_to_directory (p + 0x1000) = p + 0x1000.
Proof using Type. intros []. apply (cr3_dir _ s); [done|unfold is32; lia|done]. Qed.

Lemma view32 k s x : good32 k s → is_Some (view s x) ↔ is_Some (walk (x_mem s) (p + 0x1000) (u32 x)).
Proof using Type.
  intros Hg. cbn [view memory32]. rewrite (g32_paging _ _ Hg). cbn [negb]. rewrite (g32_cr3 _ _ Hg), (dir32 _ _ Hg).
  destruct (walk _ _ (u32 x)) as [[[page w] u]|]; split; intros H; try done; by destruct H.
Qed.

(** The pages of a range. *)
Lemma range_pages a size :
  0 ≤ a → 0 < size → a + size + 0xFFF < 2 ^ 32 →
  let start := frame_of a in let end_ := frame_of (a + size + 0xFFF) in
  start ≤ a ∧ a + size ≤ end_ ∧ start + 0x1000 ≤ end_ ≤ a + size + 0xFFF ∧ a - 0xFFF ≤ start ∧ 0 ≤ start ∧ start mod 0x1000 = 0 ∧ end_ mod 0x1000 = 0.
Proof using Type.
  intros H0 Hs Hw start end_. assert (is32 a) as H1 by (unfold is32; lia). assert (is32 (a + size + 0xFFF)) as H2 by (unfold is32; lia).
  pose proof (frame_of_arith _ H1) as E1. pose proof (frame_of_arith _ H2) as E2. fold start in E1. fold end_ in E2.
  pose proof (Z.div_mod a 0x1000 ltac:(lia)). pose proof (Z.mod_pos_bound a 0x1000 ltac:(lia)).
  pose proof (Z.div_mod (a + size + 0xFFF) 0x1000 ltac:(lia)). pose proof (Z.mod_pos_bound (a + size + 0xFFF) 0x1000 ltac:(lia)).
  assert (a / 0x1000 < (a + size + 0xFFF) / 0x1000) by (apply Z.div_lt_upper_bound; lia).
  split_and!; [lia|lia|lia|lia|lia|lia|rewrite E1; apply Z.mod_mul; lia|rewrite E2; apply Z.mod_mul; lia].
Qed.

(** They are under few entries of the directory. *)
Lemma range_boundaries a size d :
  0 ≤ a → 0 < size → a + size + 0xFFF < 2 ^ 32 → size + 0xFFF ≤ d * 2 ^ 22 →
  di (frame_of (a + size + 0xFFF) - 0x1000) - di (frame_of a) ≤ d.
Proof using Type.
  intros H0 Hs Hw Hd. destruct (range_pages a size H0 Hs Hw) as (R1 & R2 & R3 & R4 & R5 & _).
  unfold di. assert ((frame_of (a + size + 0xFFF) - 0x1000) / 2 ^ 22 ≤ (frame_of a + d * 2 ^ 22) / 2 ^ 22) as H by (apply Z.div_le_mono; lia).
  rewrite Z.div_add in H by lia. lia.
Qed.

(** Marking a frame below 128 MiB changes the bitmap, or the gap between it and the directory. *)
Lemma low_harmless k s limit f : good32 k s → 0 ≤ f < 0x8000 → harmless (p + 0x1000) s limit f.
Proof using Type.
  intros Hg Hf. destruct (g32_bitmap _ _ Hg) as [E1 E2]. pose proof (g32_base _ _ Hg). unfold harmless, known, mark_word, bm_words. rewrite E1, E2.
  change (BITSET_INDEX 0x4000) with 512. destruct (Z.lt_ge_cases f 0x4000); [left; lia|right].
  assert (BITSET_INDEX f < 1024) by (apply Z.div_lt_upper_bound; lia). assert (0 ≤ BITSET_INDEX f) by (apply Z.div_pos; lia). lia.
Qed.

(** A range whose frames can be marked; [d] counts the boundaries between directory entries in it. *)
Lemma good32_range k d s a size :
  good32 k s → 0 ≤ a → 0 < size → a + size + 0xFFF < 2 ^ 32 → di (frame_of (a + size + 0xFFF) - 0x1000) - di (frame_of a) ≤ d → d ≤ 1024 →
  (∀ f, frame_of a / 0x1000 ≤ f < frame_of (a + size + 0xFFF) / 0x1000 →
     harmless (p + 0x1000) s (limit_for s (frame_of a) (frame_of (a + size + 0xFFF) - 0x1000)) f) →
  wp (map_physical_range a size true true (p + 0x1000)) (λ _ t,
    (∀ j, x_placement s + 0x1000 * (d + 2) + 0x3000 * Z.of_nat j + 0x2000 ≤ 0x4000000 → good32 j t) ∧
    (∀ x, a ≤ x < a + size → is_Some (walk (x_mem t) (p + 0x1000) x)) ∧
    ∀ x, is32 x → is_Some (walk (x_mem s) (p + 0x1000) x) → is_Some (walk (x_mem t) (p + 0x1000) x)) s.
Proof using Type.
  intros Hg Ha Hs Hend Hd Hd2 Hh. pose proof (dir32 _ _ Hg) as Hdir.
  destruct (range_pages a size Ha Hs ltac:(lia)) as (R1 & R2 & R3 & R4 & R0 & R5 & R6).
  pose proof (page_up_spec (x_placement s)) as [Hu _]. pose proof (g32_room _ _ Hg) as Hroom.
  assert (limit_for s (frame_of a) (frame_of (a + size + 0xFFF) - 0x1000) < 2 ^ 32) as Hlim by (unfold limit_for; lia).
  eapply wp_mono; [apply (range_ok (p + 0x1000)); [by destruct Hg|done|lia|lia|done|done|done]|].
  cbv beta. set (start := frame_of a) in *. set (end_ := frame_of (a + size + 0xFFF)) in *.
  assert (start + 0x1000 * ((end_ - start) / 0x1000) = end_) as Eend.
  { apply Z.mod_divide in R5 as [u Eu]; [|lia]. apply Z.mod_divide in R6 as [v Ev]; [|lia]. rewrite Eu, Ev.
    rewrite <- Z.mul_sub_distr_r, Z.div_mul by lia. lia. }
  intros _ t [Ti Tr Tw _ _ Tp Tf]. rewrite Eend in Tw.
  assert (∀ x, is32 x → is_Some (walk (x_mem s) (p + 0x1000) x) → is_Some (walk (x_mem t) (p + 0x1000) x)) as Hmore.
  { intros x Hx Hv. rewrite Tw by done. case_match; eauto. }
  split; [|split; [|done]].
  - intros j Hj. destruct Hg as [Hi Hb [B1 B2] Hc Hpg Hid Hbt _ Hby]. unfold regs in Tr. injection Tr as Q1 Q2 _ _ Q5 Q6 _.
    assert (0 ≤ d) as Hd0 by (assert (di start ≤ di (end_ - 0x1000)) by (apply di_mono; lia); lia).
    assert (x_placement t ≤ page_up (x_placement s) + 0x1000 * (d + 1)) as Hpl.
    { destruct Tp as [_ [[_ ->]|(Hk & _ & Hp)]]; [lia|].
      replace (start + 0x1000 * ((end_ - start) / 0x1000 - 1)) with (end_ - 0x1000) in Hp by lia. lia. }
    split; [done|done|by split; congruence|congruence|congruence| | |lia|].
    + intros w Hw. rewrite Tw by done. case_match; [done|]. by apply Hid.
    + intros w Hw Hv. apply Hmore; [done|]. by apply Hbt.
    + intros x Hx. rewrite <- (Hby x Hx). apply Tf. rewrite B1. cbn [firm layout32] in Hx.
      pose proof (Z.div_mod x 4 ltac:(lia)). pose proof (Z.mod_pos_bound x 4 ltac:(lia)). lia.
  - intros x Hx. rewrite Tw by (unfold is32; lia). bcase; eauto; lia.
Qed.

Lemma good32_map k s a size :
  good32 (S k) s → can_map a size →
  wp (map_physical_range a size true true (p + 0x1000)) (λ _ t, good32 k t ∧
    (∀ x, a ≤ x < a + size → is_Some (walk (x_mem t) (p + 0x1000) x)) ∧
    ∀ x, is32 x → is_Some (walk (x_mem s) (p + 0x1000) x) → is_Some (walk (x_mem t) (p + 0x1000) x)) s.
Proof using Type.
  intros Hg (Ha & Hs & Hend). pose proof (g32_room _ _ Hg) as Hroom.
  pose proof (range_pages a size Ha ltac:(lia) ltac:(lia)) as (R1 & R2 & R3 & R4 & R5 & _).
  eapply wp_mono; [apply (good32_range (S k) 1); [done|done|lia|lia| |lia|]|].
  { apply (range_boundaries a size 1); lia. }
  { intros f Hf. eapply low_harmless; [done|]. split; [transitivity (frame_of a / 0x1000); [apply Z.div_pos; lia|lia]|].
    assert (frame_of (a + size + 0xFFF) / 0x1000 ≤ 0x8000) by (apply Z.div_le_upper_bound; lia). lia. }
  cbv beta. intros _ t (G & V & K). split; [apply G; lia|done].
Qed.

#[local] Instance mapper32 : Mapper m32 good32.
Proof using Type.
  split.
  - intros k s [Hi Hb Hbm Hc Hpg Hid Hbt Hr Hby]. split; try done. lia.
  - intros k s x b Hg Hx Hv. pose proof (g32_base _ _ Hg) as Hb. assert (is32 x) as Hx32 by (cbn [firm layout32] in Hx; unfold is32; lia).
    assert (is_Some (walk (x_mem s) (p + 0x1000) x)) as Hw.
    { rewrite <- (wrap_small 32 x) by done. apply (view32 _ _ _ Hg). by rewrite Hv. }
    cbn [view memory32] in Hv. rewrite (wrap_small 32 x) in Hv by done. rewrite (g32_paging _ _ Hg) in Hv. cbn [negb] in Hv.
    rewrite (g32_cr3 _ _ Hg), (dir32 _ _ Hg), (g32_ident _ _ Hg) in Hv by done. injection Hv as <-. cbn [bytes_of layout32]. unfold byte32.
    pose proof (Z.div_mod x 0x1000 ltac:(lia)). replace (x / 0x1000 * 0x1000 + x mod 0x1000) with x by lia. by rewrite (g32_bytes _ _ Hg).
  - intros k s a size Hg Hc. cbn [map_range memory32]. apply wp_bind, wp_gets. rewrite (g32_cr3 _ _ Hg).
    eapply wp_mono; [by apply good32_map|]. cbv beta. intros _ t (G & V & K). split; [done|]. cbn [at_virt can_map layout32] in *. split.
    + intros x Hx. apply (view32 _ _ _ G). rewrite wrap_small by lia. by apply V.
    + intros x Hx. apply (view32 _ _ _ G), K; [apply (wrap_bound 32); lia|]. by apply (view32 _ _ _ Hg).
Qed.
(** ** The firmware's tables *)

Abbreviation mem := (byte32 (x_mem s0)).

(** The first MADT among the tables at the listed addresses that can be reached. *)
Definition first_madt32 (l : list Z) : option Z := head (filter (λ t, reachable t && sig_eq mem t sig_apic = true) (u32 <$> l)).

(** The table that lists the others, and the width of its entries. *)
Definition root_table : option (Z * Z) :=
  let rsdp := the_rsdp mem in
  if 2 <=? mem (rsdp + 15) then
    if 0x100000000 <=? rd64 mem (rsdp + 24) then None else Some (rd64 mem (rsdp + 24), 8)
  else if reachable (rd32 mem (rsdp + 16)) then Some (rd32 mem (rsdp + 16), 4) else None.

(** A root pointer in the areas that are searched, a table that lists [n] others, the first MADT that can be reached
    among them at [a], with the address of the local controller and the records.  An RSDT and the tables it lists are
    where they can be mapped; an XSDT is in memory that has been mapped at the start. *)
Record firmware32 (base w a lapic : Z) (rs : list record) (n : nat) : Prop := {
  g_short : short_rsdps mem;
  g_rsdp : the_rsdp mem ≠ 0;
  g_root : root_table = Some (base, w);
  g_base : w = 4 ∧ can_map base 4096 ∨ w = 8 ∧ ∀ x, base ≤ x < base + (36 + w * Z.of_nat n) → is_Some (boot_map (p + 0x2000) x);
  g_base_firm : in_firm base (36 + w * Z.of_nat n);
  g_length : rd32 mem (base + 4) = 36 + w * Z.of_nat n;
  g_page : 36 + w * Z.of_nat n ≤ 4096;
  g_tables : Forall (λ t, reachable t = true → can_map t 4096 ∧ in_firm t 4) (u32 <$> listed mem base w n);
  g_madt : first_madt32 (listed mem base w n) = Some a;
  g_madt_map : can_map a 0x4000;
  g_madt_firm : in_firm a (44 + Z.of_nat (length (mjoin (encode <$> rs))) + 14);
  g_madt_length : bytes_in mem (a + 4) (le 4 (44 + Z.of_nat (length (mjoin (encode <$> rs)))));
  g_lapic : bytes_in mem (a + 36) (le 4 lapic);
  g_records : bytes_in mem (a + 44) (mjoin (encode <$> rs));
  g_size : 44 + Z.of_nat (length (mjoin (encode <$> rs))) + 14 ≤ 0x4000;
  g_lapic_range : 0 ≤ lapic < 2 ^ 32;
  g_records_ok : Forall record_ok rs;
}.

Lemma first_madt32_reachable l a : first_madt32 l = Some a → reachable a = true.
Proof using Type.
  intros H. assert (a ∈ filter (λ t, reachable t && sig_eq mem t sig_apic = true) (u32 <$> l)) as Ha.
  { unfold first_madt32 in H. destruct (filter _ _) as [|x l']; [done|]. injection H as ->. apply list_elem_of_here. }
  by apply list_elem_of_filter in Ha as [[? _]%andb_true_iff _].
Qed.

Lemma find_table32_ok a w n k m :
  w = 8 ∨ w = 4 → good32 (n + k) m →
  in_firm (a + sizeof_apic_header) (w * Z.of_nat n) → seen mem m (a + sizeof_apic_header) (w * Z.of_nat n) →
  Forall (λ t, reachable t = true → can_map t 4096 ∧ in_firm t 4) (u32 <$> listed mem a w n) →
  wp (find_table32 a w (Z.of_nat n)) (λ r m', r = first_madt32 (listed mem a w n) ∧ good32 k m' ∧ more m m') m.
Proof using Type.
  intros Hw Hg Hf Hs Hall. unfold find_table32. rewrite Nat2Z.id. unfold listed, first_madt32 in *. remember 0 as i eqn:Ei in |- * at 1 2.
  assert (0 ≤ i) as Hi by lia. assert (Z.of_nat n + i ≤ Z.of_nat n) as Hle by lia. rewrite <- Ei in Hall at 1. clear Ei.
  remember (w * Z.of_nat n) as len eqn:El. assert (w * (Z.of_nat n + i) ≤ len) as Hlen by nia. clear Hle El.
  revert m i Hg Hs Hall Hi Hlen. induction n as [|n IH]; intros m i Hg Hs Hall Hi Hlen; cbn [for_find].
  { apply wp_ret. split; [done|]. split; [done|]. by intros x. }
  rewrite seqZ_cons in * by lia. replace (Z.pred (Z.of_nat (S n))) with (Z.of_nat n) in * by lia.
  replace (Z.succ i) with (i + 1) in * by lia. cbn [fmap list_fmap] in *.
  apply Forall_cons in Hall as [Hc Hall]. set (t := u32 (entry mem w (a + sizeof_apic_header + w * i))) in *.
  apply wp_bind, wp_bind. eapply wp_intro; [eapply (entry_ptr_ok (LA := layout32)); [exact Hs|done|nia|nia]|]. cbn [bytes_of layout32]. fold t. rewrite filter_cons.
  destruct (reachable t) eqn:Er; cbn [negb].
  - destruct (Hc ltac:(done)) as [Hcm Hf4].
    apply wp_bind. eapply wp_mono; [by apply (map_seen (LA := layout32) good32 (n + k) m t 4096 4)|]. cbv beta. intros _ m' (G & K & S4).
    apply wp_bind. eapply wp_intro; [eapply (same_chars_ok mem); [exact S4|cbn [at_virt layout32]; lia|cbn [at_virt layout32 length sig_apic]; lia]|]. apply wp_ret.
    destruct (sig_eq mem t sig_apic) eqn:E.
    + rewrite decide_True by done. apply wp_ret. split; [done|]. split; [by apply (good_some good32 n)|done].
    + rewrite decide_False by done. eapply wp_mono; [apply (IH m' (i + 1)); [done|by eapply (seen_more (LA := layout32) good32)|done|lia|lia]|]. cbv beta.
      intros r m'' (-> & G' & K'). split; [done|]. split; [done|]. intros x Hx. by apply K', K.
  - apply wp_ret. rewrite decide_False by done. apply IH; [by apply (good_some good32 1)|done|done|lia|lia].
Qed.

Lemma find_madt32_ok base w a lapic rs n k m L :
  firmware32 base w a lapic rs n → good32 (S n + k) m → seen mem m 0 L → 0x101400 ≤ L → 0 ≤ the_rsdp mem < 0x100400 →
  wp (find_madt32 (the_rsdp mem)) (λ r m', r = a ∧ good32 k m' ∧ more m m') m.
Proof using Type.
  intros Hfw Hg Hs HL Hrs. destruct Hfw as [_ Hr Hroot Hbase Hbf Hlen Hpage Htab Hm _ _ _ _ _ _ _ _].
  unfold find_madt32, rsdp_revision, xsdp_xsdt_addr, rsdp_rsdt_addr, header_length. rewrite (proj2 (Z.eqb_neq _ _)) by done.
  apply wp_bind. eapply wp_intro; [eapply load8_ok; [exact Hs|lia]|]. unfold root_table in Hroot.
  assert (∀ m1, good32 (n + k) m1 → more m m1 → (w = 8 ∨ w = 4) → seen mem m1 base (36 + w * Z.of_nat n) →
    wp (length ← load32 (base + 4); r ← find_table32 base w (u32 (length - sizeof_apic_header) / w); mret (default 0 r))
      (λ r m', r = a ∧ good32 k m' ∧ more m m') m1) as Htail.
  { intros m1 G1 K1 Hw S1. apply wp_bind. eapply wp_intro; [eapply load32_ok; [exact S1|lia|lia]|]. rewrite Hlen.
    unfold sizeof_apic_header at 1. assert (u32 (36 + w * Z.of_nat n - 36) / w = Z.of_nat n) as ->.
    { replace (36 + w * Z.of_nat n - 36) with (Z.of_nat n * w) by lia. rewrite wrap_small by lia. apply Z.div_mul. lia. }
    eapply wp_bind_mono; [apply (find_table32_ok base w n k); [done|done| | |done]|].
    - intros y Hy. apply Hbf. unfold sizeof_apic_header in Hy. lia.
    - eapply seen_part; [exact S1|unfold sizeof_apic_header; lia..].
    - cbv beta. intros r m' (-> & G & K). apply wp_ret. rewrite Hm. split; [done|]. split; [done|]. intros y Hy. by apply K, K1. }
  destruct (2 <=? mem (the_rsdp mem + 15)).
  - apply wp_bind. eapply wp_intro; [eapply load64_ok; [exact Hs|lia|lia]|].
    destruct (0x100000000 <=? rd64 mem (the_rsdp mem + 24)); [done|]. injection Hroot as Eb <-. rewrite Eb.
    destruct Hbase as [[? _]|[_ Hbm]]; [done|]. apply Htail; [exact (good_less (n + k) m Hg)|by intros x|by left|].
    eapply (mapped_seen (LA := layout32) good32); [exact Hg|done|]. intros x Hx. pose proof (g32_base _ _ Hg). pose proof (Hbf x Hx) as Hx'. cbn [firm layout32] in Hx'.
    apply (view32 _ _ _ Hg). rewrite wrap_small by lia. apply (g32_boot _ _ Hg); [unfold is32; lia|by apply Hbm].
  - apply wp_bind. eapply wp_intro; [eapply load32_ok; [exact Hs|lia|lia]|].
    destruct (reachable (rd32 mem (the_rsdp mem + 16))); [|done]. injection Hroot as Eb <-. rewrite Eb. cbn [negb].
    destruct Hbase as [[_ Hbm]|[? _]]; [|done]. apply wp_bind.
    eapply wp_mono; [apply (map_seen (LA := layout32) good32 (n + k) m base 4096 (36 + 4 * Z.of_nat n)); [done|done|lia|done]|]. cbv beta.
    intros _ m1 (G1 & K1 & S1). apply Htail; [done|done|by right|done].
Qed.

Lemma byte32_range m a : 0 ≤ byte32 m a < 256.
Proof using Type. unfold byte32. change 0xFF with (Z.ones 8). rewrite Z.land_ones by lia. apply Z.mod_pos_bound. lia. Qed.

Lemma initialize_apic32_ok base w a lapic rs n k fuel m :
  firmware32 base w a lapic rs n → good32 (S (S n + k)) m → 0x101400 ≤ p → (length rs ≤ fuel)%nat →
  wp (initialize_apic32 fuel) (λ _ s', pl_madt s' = foldl remember (Madt lapic 0 0 0 []) rs ∧ good32 k (pl_mem s')) (Platform m (Madt 0 0 0 0 [])).
Proof using Type.
  intros Hfw Hg Hp Hf. pose proof (g32_base _ _ Hg) as Hb.
  assert (seen mem m 0 p) as Hs.
  { eapply (mapped_seen (LA := layout32) good32); [exact Hg|intros x Hx; left; lia|]. intros x Hx. apply (view32 _ _ _ Hg). rewrite wrap_small by lia.
    apply (g32_boot _ _ Hg); [unfold is32; lia|]. unfold boot_map, over_range, ident. repeat case_match; eauto. exfalso.
    assert (x / 0x1000 < kernel_pages (p + 0x2000)); [|lia]. unfold kernel_pages. apply Z.div_lt_upper_bound; [lia|].
    pose proof (Z.div_mod (p + 0x2000 + 0x800000 + 0xFFF) 0x1000 ltac:(lia)). pose proof (Z.mod_pos_bound (p + 0x2000 + 0x800000 + 0xFFF) 0x1000 ltac:(lia)). lia. }
  assert (0 ≤ rd16 mem 0x40E < 2 ^ 16) as He.
  { unfold rd16. pose proof (byte32_range (x_mem s0) 0x40E). pose proof (byte32_range (x_mem s0) (0x40E + 1)). lia. }
  pose proof Hfw as [Hsh Hr _ _ _ _ _ _ Hm M1 M2 M3 M4 M5 M6 M7 M8].
  destruct (the_rsdp_valid mem Hr He) as (V1 & V2 & V3). unfold initialize_apic32.
  apply wp_bind, wp_on_mem. eapply wp_intro; [by apply (find_rsdp_ok mem m p)|]. rewrite (proj2 (Z.eqb_neq _ _)) by done.
  apply wp_bind, wp_on_mem. eapply wp_intro; [apply (validate_rsdp_checksum_correct mem)|].
  { intros _. eapply seen_part; [exact Hs|lia|lia]. }
  { intros H2. specialize (Hsh _ V3 V1 H2). eapply seen_part; [exact Hs|lia|lia]. }
  rewrite V2. cbn [Z.eqb negb]. apply wp_bind, wp_on_mem.
  eapply wp_mono; [apply (find_madt32_ok base w a lapic rs n (S k) m p); [done|by rewrite Nat.add_succ_r|done|done|done]|]. cbv beta.
  intros r m1 (-> & G1 & K1). apply first_madt32_reachable in Hm. assert (0x1000 ≤ a < 0x40000000) as Ha by (unfold reachable in Hm; lia).
  rewrite (proj2 (Z.eqb_neq _ _)) by lia.
  destruct (wp_inv _ _ _ (map_seen (LA := layout32) good32 k m1 a 0x4000 _ G1 M1 M6 M2)) as ([] & m2 & E & G2 & K2 & S2).
  eapply wp_intro; [apply (parse_madt_ok mem fuel a lapic rs m1 m2); try done; [by rewrite wrap_small by lia|lia|cbn; lia]|].
  by cbn [pl_madt pl_mem].
Qed.

(** ** The screen *)

(** The loader gives a frame buffer that is used; and it is high enough that the marks of its frames fall behind the tables. *)
Definition fb_used (mb : multiboot) : bool :=
  nz (mb_flags mb .& MB_FLAG_FRAMEBUFFER) && (framebuffer_type mb =? 1) && (framebuffer_bpp mb =? 32).
Definition fb_ok (mb : multiboot) : Prop :=
  let phys := u32 (framebuffer_addr mb) in
  let size := u32 (framebuffer_pitch mb * framebuffer_height mb) in
  fb_used mb = true → 0xE0000000 ≤ phys ∧ 0 < size ≤ 0x7FF000 ∧ phys + size + 0xFFF < 2 ^ 32.

Lemma graphics_ok mb k s :
  fb_ok mb → good32 k s → x_placement s ≤ p + 0x17000 →
  wp (graphics_init mb) (λ fb t, fb = (if fb_used mb then Some mb else None) ∧
    ∀ j, p + 0x1D000 + 0x3000 * Z.of_nat j ≤ 0x4000000 → good32 j t) s.
Proof using Type.
  intros Hfb Hg Hpl. unfold graphics_init, fb_ok, fb_used in *. pose proof (g32_base _ _ Hg) as Hb.
  assert (∀ j, p + 0x1D000 + 0x3000 * Z.of_nat j ≤ 0x4000000 → good32 j s) as Hj.
  { intros j Hj. destruct Hg. split; try done. lia. }
  destruct (nz (mb_flags mb .& MB_FLAG_FRAMEBUFFER)); cbn [negb andb] in *; [|by apply wp_ret].
  destruct (framebuffer_type mb =? 1); cbn [negb andb] in *; [|by apply wp_ret].
  destruct (framebuffer_bpp mb =? 32); cbn [negb andb] in *; [|by apply wp_ret].
  set (phys := u32 (framebuffer_addr mb)) in *. set (size := u32 (framebuffer_pitch mb * framebuffer_height mb)) in *.
  destruct (Hfb ltac:(done)) as (F1 & F2 & F3). apply wp_bind, wp_gets. rewrite (g32_cr3 _ _ Hg).
  pose proof (range_pages phys size ltac:(lia) ltac:(lia) F3) as (R1 & R2 & R3 & R4 & _).
  assert (page_up (x_placement s) ≤ p + 0x17000) as Hup.
  { apply page_up_least; [done|]. rewrite Z.add_mod, (proj1 (proj2 Hb)) by lia. done. }
  assert (di (frame_of (phys + size + 0xFFF) - 0x1000) - di (frame_of phys) ≤ 2) as Hd by (apply range_boundaries; lia).
  eapply wp_bind_mono; [apply (good32_range k 2); [done|lia|lia|lia|done|lia|]|].
  - intros f Hf. right. destruct (g32_bitmap _ _ Hg) as [E1 E2]. unfold mark_word, bm_words, limit_for. rewrite E1, E2.
    change (BITSET_INDEX 0x4000) with 512. assert (frame_of phys mod 0x1000 = 0) as Hm by (apply frame_of_spec; unfold is32; lia).
    assert (0xE0000 ≤ frame_of phys / 0x1000) as Hlo.
    { pose proof (Z.div_mod (frame_of phys) 0x1000 ltac:(lia)). apply Z.div_le_lower_bound; lia. }
    assert (frame_of (phys + size + 0xFFF) / 0x1000 ≤ 0x100000) as Hhi by (apply Z.div_le_upper_bound; lia).
    assert (0x7000 ≤ BITSET_INDEX f) by (apply Z.div_le_lower_bound; lia). assert (BITSET_INDEX f < 0x8000) by (apply Z.div_lt_upper_bound; lia). lia.
  - cbv beta. intros _ t (G & _). apply wp_ret. split; [done|]. intros j Hj'. apply G. lia.
Qed.
End firm32.

(** ** Steps *)

Lemma wp_on_platform32 {A} (m : M (platform m32) A) (Q : A → kernel32 → Prop) pl bo i d f ev :
  wp m (λ a x, Q a (Kernel32 x bo i d f ev)) pl → wp (on_platform32 m) Q (Kernel32 pl bo i d f ev).
Proof. unfold wp, on_platform32. cbn. destruct (m pl) as [[a x]| | | |]; cbn; tauto. Qed.
Lemma wp_on_mach32 {A} (m : M m32 A) (Q : A → kernel32 → Prop) ma md bo i d f ev :
  wp m (λ a x, Q a (Kernel32 (Platform x md) bo i d f ev)) ma → wp (on_mach32 m) Q (Kernel32 (Platform ma md) bo i d f ev).
Proof. intros H. apply wp_on_platform32, wp_on_mem, H. Qed.
Lemma wp_on_board32 {A} (m : M board A) (Q : A → kernel32 → Prop) pl bo i d f ev :
  wp m (λ a x, Q a (Kernel32 pl x i d f ev)) bo → wp (on_board32 m) Q (Kernel32 pl bo i d f ev).
Proof. unfold wp, on_board32. cbn. destruct (m bo) as [[a x]| | | |]; cbn; tauto. Qed.
Lemma wp_log32 (e : event) (Q : unit → kernel32 → Prop) pl bo i d f ev :
  Q tt (Kernel32 pl bo i d f (ev ++ [e])) → wp (log32 e) Q (Kernel32 pl bo i d f ev).
Proof. done. Qed.

(** Steps that only write messages and call the components [l]. *)
Definition logs (l : list string) (m : M kernel32 unit) : Prop := ∀ pl bo i d f ev,
  wp m (λ _ t, ∃ ev', t = Kernel32 pl bo i d f ev' ∧ called ev' = called ev ++ l) (Kernel32 pl bo i d f ev).

Lemma logs_say format args : logs [] (say32 format args).
Proof. intros pl bo i d f ev. apply wp_log32. eexists. split; [done|]. unfold called. by rewrite omap_app. Qed.
Lemma logs_call g args : logs [g] (call32 g args).
Proof. intros pl bo i d f ev. apply wp_log32. eexists. split; [done|]. unfold called. by rewrite omap_app. Qed.
Lemma logs_ret : logs [] (mret tt).
Proof. intros pl bo i d f ev. apply wp_ret. exists ev. split; [done|]. by rewrite app_nil_r. Qed.
Lemma logs_bind l l' m m' : logs l m → logs l' m' → logs (l ++ l') (m ;; m').
Proof.
  intros H H' pl bo i d f ev. eapply wp_bind_mono; [apply H|]. cbv beta. intros _ t (ev' & -> & E).
  eapply wp_mono; [apply H'|]. cbv beta. intros _ t (ev'' & -> & E'). exists ev''. by rewrite E', E, app_assoc.
Qed.
Lemma logs_if l (b : bool) m m' : logs l m → logs l m' → logs l (if b then m else m').
Proof. by destruct b. Qed.
Lemma logs_when l (b : bool) m : logs l m → logs (if b then l else []) (when b m).
Proof. destruct b; [done|]. intros _. apply logs_ret. Qed.

Create HintDb logs.
#[export] Hint Resolve logs_say logs_call logs_ret logs_bind logs_if logs_when : logs.

(** A step that only logs, in front of others. *)
Lemma wp_logs l m (m' : M kernel32 unit) (Q : unit → kernel32 → Prop) pl bo i d f ev :
  logs l m → (∀ ev', called ev' = called ev ++ l → wp m' Q (Kernel32 pl bo i d f ev')) → wp (m ;; m') Q (Kernel32 pl bo i d f ev).
Proof. intros H H'. eapply wp_bind_mono; [apply H|]. cbv beta. intros [] t (ev' & -> & E). by apply H'. Qed.

(** ** Interrupts *)

Section interrupts32.
Context `{HW : Hardware} (currcnt : nat → Z) (fuel : nat).
Context (debug : bool) (cpuid_edx p : Z) (s0 : m32).

Ltac say := eapply wp_logs; [solve [eauto with logs]|]; cbn [app].

Ltac called_tac32 :=
  repeat match goal with H : called ?e = _ |- context [called ?e] => rewrite H end; rewrite <- ?app_assoc, ?app_nil_r; reflexivity.

(** Registers in the pages that [init_paging] mapped. *)
Lemma wp_registers32 k v n ma (Q : unit → m32 → Prop) :
  good32 p s0 k ma → 0 < n → 0xFEC00000 ≤ v ∧ v + n ≤ 0xFEC01000 ∨ 0xFEE00000 ≤ v ∧ v + n ≤ 0xFEE01000 → Q tt ma → wp (registers32 v n) Q ma.
Proof using Type.
  intros Hg Hn Hv HQ. unfold wp, registers32. rewrite (wrap_small 32 (v + n - 1)) by lia.
  assert (∀ x, v ≤ x < v + n → is_Some (view ma x)) as Hx.
  { intros x Hx. apply (view32 p s0 _ _ _ Hg). rewrite wrap_small by lia. apply (g32_boot _ _ _ _ Hg); [unfold is32; lia|].
    unfold boot_map, over_range. bcase; eauto; lia. }
  destruct (Hx v ltac:(lia)) as [b1 ->]. by destruct (Hx (v + n - 1) ltac:(lia)) as [b2 ->].
Qed.

Lemma wp_on_lapic32 k {A} (m : M board A) (Q : A → kernel32 → Prop) ma md bo i d f ev :
  good32 p s0 k ma → wp m (λ a x, Q a (Kernel32 (Platform ma md) x i d f ev)) bo → wp (on_lapic32 m) Q (Kernel32 (Platform ma md) bo i d f ev).
Proof using Type.
  intros Hg H. apply wp_bind, wp_on_mach32. eapply wp_registers32; [exact Hg|lia|lia|]. by apply wp_on_board32.
Qed.
Lemma wp_on_ioapic32 k {A} (m : M board A) (Q : A → kernel32 → Prop) ma md bo i d f ev :
  good32 p s0 k ma → 0xFEC00000 ≤ i ∧ i + 0x14 ≤ 0xFEC01000 → wp m (λ a x, Q a (Kernel32 (Platform ma md) x i d f ev)) bo →
  wp (on_ioapic32 m) Q (Kernel32 (Platform ma md) bo i d f ev).
Proof using Type.
  intros Hg Hi H. apply wp_bind, wp_gets, wp_bind, wp_on_mach32. cbn [n_ioapic_addr].
  eapply wp_registers32; [exact Hg|lia|lia|]. by apply wp_on_board32.
Qed.

(** The end of the kernel's image is where there is room for the tables, and the searched areas are below it. *)
Definition placed : Prop :=
  (∀ a, is32 (rd (x_mem s0) a)) ∧ 0x101400 ≤ p ∧ p mod 0x1000 = 0 ∧ p + 0x802000 ≤ 0x4000000.

(** The components called for the screen. *)
Definition screen_calls (mb : multiboot) : list string :=
  if fb_used mb then ["console_init"; "logger_init_console"; "console_clear"; "console_puts"; "pong_init"] else [].

Lemma init_paging_good j md (Q : unit → m32 → Prop) :
  placed → p + 0x1D000 + 0x3000 * Z.of_nat j ≤ 0x4000000 →
  (∀ t, good32 p s0 j t → x_placement t ≤ p + 0x17000 → Q tt t) → x_mem md = x_mem s0 → x_placement md = p → wp init_paging Q md.
Proof using Type.
  intros (H1 & H2 & H3 & H4) Hj HQ Em Ep. eapply wp_mono; [apply init_paging_ok; rewrite ?Em, ?Ep; try done; lia|]. cbv beta. rewrite Ep, Em.
  intros [] t (T1 & T2 & T3 & _ & T5 & _ & _ & T8 & T9 & T10 & T11). apply HQ; [|done].
  split; [done|lia|done|done|done| | |lia|].
  - intros w Hw. rewrite T2 by done. unfold boot_map, over_range, ident. repeat case_match; try done; by intros [].
  - intros w Hw. by rewrite T2.
  - intros a Ha. apply T11. cbn [firm layout32] in Ha. pose proof (Z.div_mod a 4 ltac:(lia)). pose proof (Z.mod_pos_bound a 4 ltac:(lia)). lia.
Qed.

Lemma early32_ok mb j pm md bo i d f ev :
  placed → fb_ok mb → p + 0x1D000 + 0x3000 * Z.of_nat j ≤ 0x4000000 →
  wp (early32 p mb pm) (λ _ t, ∃ ma ev', t = Kernel32 (Platform ma md) bo i d f ev' ∧ good32 p s0 j ma ∧
    called ev' = called ev ++ ["init_serial"; "log_demo"; "init_descriptor_tables"; "terminal_initialize"] ++ screen_calls mb)
    (Kernel32 (Platform s0 md) bo i d f ev).
Proof using Type.
  intros Hp Hfb Hj. unfold early32. do 5 (say; intros ? ?). say; intros ? ?. say; intros ? ?. apply wp_bind, wp_on_mach32, wp_modify.
  do 2 (say; intros ? ?). apply wp_bind, wp_on_mach32. apply (init_paging_good j); [done|done| |done|done]. intros t Ht Hpl.
  say; intros ? ?. apply wp_bind, wp_on_mach32. eapply wp_mono; [by apply (graphics_ok p s0 mb j)|]. cbv beta. intros fb t' [-> G].
  unfold screen_calls, fb_ok in *. destruct (fb_used mb).
  - rewrite (proj2 (Z.eqb_neq _ _)) by (specialize (Hfb ltac:(done)); lia).
    do 5 (say; intros ? ?). eapply wp_mono; [apply logs_call|]. cbv beta. intros _ x (l & -> & E). exists t', l. split; [done|]. split; [by apply G|]. called_tac32.
  - apply wp_ret. eexists _, _. split; [done|]. split; [by apply G|]. called_tac32.
Qed.

(** Interrupts are on, and what the timer's and the keyboard's interrupts need is in place. *)
Record interrupts_up32 (mb : multiboot) (ioapic id gsi flags rate : Z) (s t : kernel32) : Prop := {
  u_if : n_if t = true;
  u_paging : Z.testbit (x_cr0 (pl_mem (n_platform t))) 31 = true ∧ x_cr3 (pl_mem (n_platform t)) = p + 0x1000;
  u_ioapic : n_ioapic_addr t = ioapic;
  u_id : n_local_apic_id t = id;
  u_timer : ∃ low, io_regs (b_apic (n_board t)) !! 0x14 = Some low ∧ io_regs (b_apic (n_board t)) !! 0x15 = Some (id * 2 ^ 24) ∧
    low mod 256 = 32 ∧ Z.testbit low 16 = false;
  u_keyboard : ∃ low, io_regs (b_apic (n_board t)) !! (0x10 + gsi * 2) = Some low ∧
    io_regs (b_apic (n_board t)) !! (0x11 + gsi * 2) = Some (id * 2 ^ 24) ∧ low mod 256 = 33 ∧
    Z.testbit low 13 = Z.testbit flags 1 ∧ Z.testbit low 15 = Z.testbit flags 3 ∧ Z.testbit low 16 = false;
  u_handlers : b_handlers (n_board t) !! 32 = Some "timer_interrupt_handler"%string ∧
    b_handlers (n_board t) !! 33 = Some "keyboard_interrupt_handler"%string;
  u_period : lapic_reg 0x380 (b_apic (n_board t)) = rate;
  u_lvt : lapic_reg 0x320 (b_apic (n_board t)) mod 256 = 32 ∧ Z.testbit (lapic_reg 0x320 (b_apic (n_board t))) 16 = false ∧
    Z.testbit (lapic_reg 0x320 (b_apic (n_board t))) 17 = true;
  u_software : lapic_reg 0xF0 (b_apic (n_board t)) = lapic_reg 0xF0 (b_apic (n_board s));
  u_hardware : msr_apic_base (b_apic (n_board t)) = msr_apic_base (b_apic (n_board s));
  u_pic : ∃ tmp, io_out (b_io (n_board t)) = io_out (b_io (n_board s)) ++ [(1, 0x21, 0xFF); (1, 0xA1, 0xFF)] ++ pit_writes tmp;
  u_called : called (n_events t) = called (n_events s) ++ ["init_serial"; "log_demo"; "init_descriptor_tables"; "terminal_initialize"] ++
    screen_calls mb ++ ["init_ps2_controller"] ++ (if debug then ["test_paging"; "test_vm"] else []);
}.

Definition kbd_gsi (m : madt) : Z := default 1 (global_irq <$> keyboard_override m).
Definition kbd_flags (m : madt) : Z := default 0 (ov_flags <$> keyboard_override m).

(** The two registers of the I/O APIC are in the page that is mapped for it. *)
Definition ioapic_ok (m : madt) : Prop := 0xFEC00000 ≤ ioapic_address m ∧ ioapic_address m + 0x14 ≤ 0xFEC01000.

Lemma controllers32_ok base w a lapic rs n ma bo i d f ev :
  let m := foldl remember (Madt lapic 0 0 0 []) rs in
  let id := (lapic_reg 0x20 (b_apic bo) .>> 24) .& 0xFF in
  firmware32 p s0 base w a lapic rs n → good32 p s0 (S (S n)) ma → 0x101400 ≤ p → (length rs ≤ fuel)%nat →
  ioapic_ok m → 0 ≤ kbd_gsi m < 120 → kbd_gsi m ≠ 2 →
  wp (controllers32 fuel debug cpuid_edx) (λ _ t, ∃ ma' ap ev' low low',
    t = Kernel32 (Platform ma' m) (Board ap (IoBus (io_n (b_io bo)) (io_out (b_io bo) ++ [(1, 0x21, 0xFF); (1, 0xA1, 0xFF)])) (b_handlers bo)) (ioapic_address m) id f ev' ∧
    good32 p s0 0 ma' ∧ called ev' = called ev ∧ lapic_regs ap = lapic_regs (b_apic bo) ∧ msr_apic_base ap = msr_apic_base (b_apic bo) ∧
    (io_regs ap !! 0x14 = Some low ∧ io_regs ap !! 0x15 = Some (id * 2 ^ 24) ∧ low mod 256 = 32 ∧ Z.testbit low 16 = false) ∧
    io_regs ap !! (0x10 + kbd_gsi m * 2) = Some low' ∧ io_regs ap !! (0x11 + kbd_gsi m * 2) = Some (id * 2 ^ 24) ∧ low' mod 256 = 33 ∧
    Z.testbit low' 13 = Z.testbit (kbd_flags m) 1 ∧ Z.testbit low' 15 = Z.testbit (kbd_flags m) 3 ∧ Z.testbit low' 16 = false)
    (Kernel32 (Platform ma (Madt 0 0 0 0 [])) bo i d f ev).
Proof using Type.
  intros m id Hfw Hgood Hp Hf Hio Hg Hg2. pose proof Hio as [Hio1 Hio2]. unfold controllers32. say; intros ? ?. say; intros ? ?. apply wp_bind, wp_on_platform32.
  eapply wp_mono; [eapply (initialize_apic32_ok p s0 base w a lapic rs n 0); rewrite ?Nat.add_0_r; done|]. cbv beta. intros [] [ma' md] [Hm G].
  cbn [pl_madt pl_mem] in *. fold m in Hm. subst md.
  apply wp_bind, wp_on_board32, wp_on_io. apply wp_bind, wp_modify, wp_modify. cbn [io_n io_out].
  rewrite <- app_assoc. cbn [app]. change (u16 0x21) with 0x21. change (u16 0xA1) with 0xA1. change (wrap (8 * 1) 0xFF) with 0xFF.
  say; intros ? ?. apply wp_bind, wp_on_platform32, wp_on_madt, wp_gets. apply wp_bind, wp_modify.
  rewrite (proj2 (Z.eqb_neq _ _)) by lia. cbn [n_platform n_board n_ioapic_addr n_local_apic_id n_if n_events].
  say; intros ? ?. do 2 (apply wp_bind, wp_on_platform32, wp_on_madt, wp_gets).
  change (default 1 (global_irq <$> keyboard_override m)) with (kbd_gsi m). change (default 0 (ov_flags <$> keyboard_override m)) with (kbd_flags m).
  say; intros ? ?. apply wp_bind, (wp_on_lapic32 0); [done|]. apply wp_on_apic, wp_gets. apply wp_bind, wp_modify. cbn [b_apic b_io b_handlers]. fold id.
  assert (0 ≤ id < 256) as Hid by (unfold id; change 0xFF with (Z.ones 8); rewrite Z.land_ones by lia; apply Z.mod_pos_bound; lia).
  cbn [n_platform n_board n_ioapic_addr n_local_apic_id n_if n_events]. do 2 (say; intros ? ?).
  apply wp_bind, (wp_on_ioapic32 0); [done|done|]. apply wp_on_apic. eapply wp_mono; [apply (configure_ioapic_correct 2 32 id 0); lia|]. cbv beta.
  intros [] ap (low & L1 & L2 & L3 & _ & _ & L4 & _ & L5 & L6). say; intros ? ?. rewrite (wrap_small 8 (kbd_gsi m)) by lia.
  apply wp_bind, (wp_on_ioapic32 0); [done|done|]. apply wp_on_apic. eapply wp_mono; [apply (configure_ioapic_correct (kbd_gsi m) 33 id (kbd_flags m)); lia|]. cbv beta.
  intros [] ap' (low' & K1 & K2 & K3 & K4 & K5 & K6 & K7 & K8 & K9). apply wp_log32. cbn [b_apic b_io b_handlers] in *.
  eexists ma', ap', _, low, low'. split; [reflexivity|]. split; [done|]. split.
  { unfold called. rewrite omap_app. fold (called ev'6). cbn [omap list_omap]. destruct debug; called_tac32. }
  rewrite K8, K9, L5, L6. split_and!; try done; (rewrite K7 by lia; done).
Qed.

End interrupts32.

(** ** An example machine *)

Module ExBoot32.
#[local] Existing Instance ex_hw.

(** The root pointer in the extended BIOS data area, the RSDT at 0x7FE1000, the MADT at 0x7FE2000. *)
Definition image : Z → Z := ExAcpi.image
  [(0x40E, le 2 0x9FC0); (0x9FC00, sig_rsdp); (0x9FC08, [204]); (0x9FC10, le 4 0x7FE1000);
   (0x7FE1004, le 4 40); (0x7FE1024, le 4 0x7FE2000);
   (0x7FE2000, sig_apic); (0x7FE2004, le 4 (44 + 8 + 12 + 10)); (0x7FE2024, le 4 0xFEE00000);
   (0x7FE202C, mjoin (encode <$> ExAcpi.recs))].

Definition addresses : list Z :=
  0x40C :: ((λ i, 0x9FC00 + 4 * i) <$> seqZ 0 6) ++ ((λ i, 0x7FE1000 + 4 * i) <$> seqZ 0 10) ++ ((λ i, 0x7FE2000 + 4 * i) <$> seqZ 0 24).
Definition word (a : Z) : Z := foldr (λ i acc, image (a + i) + 256 * acc) 0 (seqZ 0 4).
Definition memory : gmap Z Z := list_to_map ((λ a, (a, word a)) <$> addresses).
Definition mach : m32 := M32 memory 0 0 0 0 0 0 0 ∅ ∅ [].
Definition mem : Z → Z := byte32 memory.

Definition start : kernel32 :=
  Kernel32 (Platform mach (Madt 0 0 0 0 [])) (Board (Apic 0 ∅ {[ 0x20 := 0x3000000 ]} 0xFEE00000) (IoBus 0 []) ∅) 0 0 false [].
Definition mbi : multiboot := Multiboot 0x1040 0x100 0x9000 0xFD000000 4096 1024 768 32 1.
Definition count (n : nat) : Z := 0xFFFFFFFF - 1000000.

Lemma words a : is32 (rd memory a).
Proof.
  assert (map_Forall (λ _ v, is32 v) memory) as H.
  { assert (forallb (λ av, (0 <=? av.2) && (av.2 <? 2 ^ 32)) (map_to_list memory) = true) as H by (vm_compute; reflexivity).
    intros b v Hv. rewrite forallb_forall in H. apply elem_of_map_to_list, list_elem_of_In in Hv. apply H in Hv. cbn in Hv. unfold is32. lia. }
  unfold rd. destruct (memory !! a) as [v|] eqn:E; [by apply H in E|done].
Qed.

(** No other byte looks like the start of a root pointer. *)
Lemma short : short_rsdps mem.
Proof.
  assert (forallb (λ x, negb (sig_eq mem x sig_rsdp) || (mem (x + 15) <? 2)) (a ← addresses; (λ i, a + i) <$> seqZ 0 4) = true) as H by (vm_compute; reflexivity).
  intros x Hx Hs H2. exfalso. rewrite forallb_forall in H. assert (memory !! (x / 4 * 4) ≠ None) as Hn.
  { intros E. unfold sig_eq in Hs. cbn in Hs. unfold mem, byte32, rd in Hs. rewrite E in Hs. cbn [default] in Hs. rewrite Z.shiftr_0_l in Hs. done. }
  destruct (memory !! (x / 4 * 4)) as [v|] eqn:E; [|done]. apply elem_of_list_to_map_2, list_elem_of_fmap in E as (a & [= Ea _] & Ha). rewrite <- Ea in Ha.
  specialize (H x). rewrite Hs in H. cbn [negb orb] in H. assert ((mem (x + 15) <? 2) = true); [|lia]. apply H, list_elem_of_In, list_elem_of_bind.
  exists (x / 4 * 4). split; [|done]. apply list_elem_of_fmap. exists (x mod 4).
  pose proof (Z.div_mod x 4 ltac:(lia)). pose proof (Z.mod_pos_bound x 4 ltac:(lia)). split; [lia|]. apply elem_of_seqZ. lia.
Qed.

Lemma boot_tables32 : firmware32 0x400000 mach 0x7FE1000 4 0x7FE2000 0xFEE00000 ExAcpi.recs 1.
Proof.
  split.
  - exact short.
  - vm_compute. discriminate.
  - vm_compute. reflexivity.
  - left. split; [done|]. cbn. lia.
  - intros x Hx. cbn. lia.
  - vm_compute. reflexivity.
  - lia.
  - assert (u32 <$> listed (byte32 (x_mem mach)) 0x7FE1000 4 1 = [0x7FE2000]) as -> by (vm_compute; reflexivity).
    constructor; [|constructor]. intros _. split; [cbn; lia|]. intros x Hx. cbn. lia.
  - vm_compute. reflexivity.
  - cbn. lia.
  - assert (length (mjoin (encode <$> ExAcpi.recs)) = 30%nat) as -> by reflexivity. intros x Hx. cbn. lia.
  - apply bytes_in_check. vm_compute. reflexivity.
  - apply bytes_in_check. vm_compute. reflexivity.
  - apply bytes_in_check. vm_compute. reflexivity.
  - vm_compute. discriminate.
  - lia.
  - repeat constructor; cbn; unfold byte; lia.
Qed.
End ExBoot32.

